(* ===== verification/_CoqProject ===== *)
-Q . S2P
Prelude.v
Timestamp.v
Transaction.v
VersionStore.v
LockServer.v
TxnStore.v
OCCStore.v
LockStore.v
Sharding.v
StrongServer.v
Coordinator.v
QuorumSet.v
LRLog.v
LRReplica.v
CascadeAbort.v
Promise.v
LRClient.v
BufferClient.v
ShardClient.v
StrongClient.v
ClientSafety.v
EndToEnd.v
TapirStore.v
IRRecord.v
IRReplica.v
IRMerge.v
IRSystem.v
TapirServer.v
IRClient.v
ConfigFile.v
Timers.v
UDPTransport.v
TCPTransport.v
ReplLog.v
VRReplica.v
VRSafety.v
VRViewChange.v
LockService.v
LockClient.v
VRClient.v
Tpcc.v
TpccData.v
Latency.v
TransportCommon.v
SimTransport.v
ReplTransport.v
WeakStore.v
ConfigOrder.v
Hash.v
TrueTime.v
Workload.v
