(* ===== verification/Prelude.v ===== *)
(** * Verification of the D2PC transactional store

    ** The program

    A sharded, replicated, transactional key-value store.  Every shard is a group of
    replicas; one of them, the leader, runs the concurrency control.  A client reads keys
    from the shards ([GetData]), buffers its writes, and commits with a two-phase protocol
    in one of five modes ([TpcMode]): fast (the client coordinates), slow and RC (the leader
    of a primary shard coordinates), Carousel, and parallel (a group of coordinator replicas
    decides from votes and from replication acknowledgements that bypass the leaders).  The
    parts and their calls:

    - [store/strongstore/server.cc], the application of a replica, answers upcalls by calls
      of a [TxnStore], which is either the optimistic [OCCStore] or the locking [LockStore];
      both keep their data in a [VersionedKVStore], the latter its locks in a [LockServer];
    - [replication/lr/replica.cc] receives the messages of a shard, keeps the log
      ([replication/lr/log.cc]), counts acknowledgements with a [QuorumSet], calls the upcalls
      and sends decisions to the followers;
    - [replication/commit/coordinator.cc] is a coordinator replica of the parallel mode;
    - keys are placed on shards by [Client::key_to_shard], [LRReplica::key_to_shard] and the
      loading loop of the server;
    - [store/strongstore/client.cc] runs the protocol for an application: one [ShardClient] over
      a [BufferClient] per shard, which sends through [replication/lr/client.cc] and waits for
      [Promise]s that the network thread answers;
    - [replication/ir] is inconsistent replication, on which the TAPIR store
      ([store/tapirstore]) and the lock service ([lockserver]) run; [replication/vr] is
      viewstamped replication on the log of [replication/common];
    - [lib] has the transports, their timers and the parser of configuration files;
    - [store/benchmark] drives the store, among others with the transactions of TPC-C.

    ** The files

    - [Prelude]: 64-bit and 32-bit arithmetic, outcomes ([Ok], [Panic], [Undefined]), the
      state-passing monad with its pre/postcondition and invariant lemmas, record update,
      iteration order of hash tables, list and map lemmas.
    - [Timestamp], [Transaction]: [store/common/timestamp.*], [transaction.*] and their
      messages.
    - [VersionStore]: [store/common/backend/versionstore.*] and [kvstore.cc]; the [std::set] of
      a key is a list sorted by timestamp.
    - [LockServer]: [store/common/backend/lockserver.*]; the clock is a parameter.
    - [TxnStore]: the interface [store/common/backend/txnstore.*] as the class [TxnStore], and
      what a store promises as the class [TxnStoreLaws].
    - [OCCStore], [LockStore]: the two stores of [store/strongstore]; each discharges
      [TxnStoreLaws].
    - [Sharding]: the placement functions; the JSON parser is a parameter.
    - [StrongServer]: the upcalls of [store/strongstore/server.cc] over any [TxnStore]; the
      protobuf wire format is a parameter ([Codec]) with the law that parsing undoes
      serializing ([CodecLaw]).
    - [Coordinator]: all handlers of [replication/commit/coordinator.cc].
    - [QuorumSet]: [replication/common/quorumset.h], [viewstamp.h] and the quorum sizes of
      [lib/configuration.cc].
    - [LRLog]: [replication/lr/log.*].
    - [LRReplica]: all handlers and timers of [replication/lr/replica.cc] over any
      [LRAppReplica]; the server is an instance of it.  [CascadeAbort]: the recursion of its
      cascading aborts, without the depth bound.
    - [Promise], [LRClient], [BufferClient], [ShardClient], [StrongClient]: the client, from
      [store/common/promise.*] to [store/strongstore/client.*], with the steps of the
      application and of the network thread interleaved.  [ClientSafety]: its runs.
      [EndToEnd]: the client's messages at a replica.
    - [IRRecord], [IRReplica], [IRMerge], [IRClient]: [replication/ir], with the merge of
      records in a view change.  [IRSystem]: a group of its replicas and the messages between
      them.  [TapirStore], [TapirServer]: the store of TAPIR and its
      upcalls.
    - [ConfigFile], [Timers], [UDPTransport], [TCPTransport]: [lib/configuration.*],
      [lib/transport.*], [lib/udptransport.*] and [lib/tcptransport.*].  [ConfigOrder]: the
      comparison operators and the hash of addresses and configurations.
    - [Hash]: [lib/lookup3.cc] over a memory of bytes.  [TrueTime]: [store/common/truetime.*] and
      the application of [timeserver/timeserver.cc].
    - [TransportCommon]: the interface of [lib/transport.h] and the template of
      [lib/transportcommon.h]; a receiver or callback is a tree of the calls it makes.
      [SimTransport]: [lib/simtransport.*], [ReplTransport]: [lib/repltransport.*].
    - [Latency]: [lib/latency.*]; the clock is a parameter.
    - [ReplLog], [VRReplica], [VRSafety], [VRViewChange], [VRClient]: [replication/common/log.*]
      and [replication/vr]; normal operation, view changes and the client.
    - [LockService], [LockClient]: [lockserver/server.*] and [client.*].
    - [WeakStore]: the store, server, shard client and client of [store/weakstore], run on the
      simulated transport.
    - [Tpcc], [TpccData]: [store/benchmark/tpccTransaction.*] and [tpccData.*], with the loading of
      the data by the server; the JSON library and the client of the store are classes with
      laws (the client of [Tpcc] is one whose reads of keys that are there succeed, which
      [TxnView] states; the clients of this repository may also fail a read).  [Workload]: the transactions of [benchClient.cc] and [retwisClient.cc] and their choice
      of keys.

    A class of the source is a record with the members of the class, a method a function
    with the name of the method; overloads are told apart by a suffix ([Get_at],
    [Add_leader]).  A handler is a function in the monad [M]: it returns a new state, panics,
    or runs into undefined behaviour.  A hash table is a [gmap]; where the code iterates over
    one, the definition takes a [HashOrder], and the theorems hold for all of them.  [t[k]] on
    an absent key inserts what C++ inserts.  A member without initial value, and a pointer
    that may be null, is an [option]; in [Coordinator], where a handler sends such a member, the
    value read is a parameter ([Indeterminate]).  Deleting a request of the viewstamped client in
    a way the standard leaves undefined stops the run, unless the parameter [Deletions] says that
    it goes unnoticed ([VRClient]).  Messages that are sent are appended to an output list of
    the state.  The [ASSERT]s are left out, with the calls in their arguments, as the build
    defines [NASSERT].

    ** What is proved

    - The versioned store implements a history of values per key, and snapshot reads are
      stable ([VersionStore]).
    - The lock server implements one readers-writer lock with upgrade per key, excludes
      conflicting holders in every reachable state, and serves its queue in order
      ([LockServer]).
    - Each store keeps prepared transactions free of conflicts and validated reads current in
      every reachable state ([OCCStore], [LockStore]); from the contract alone follow atomic
      installation, traceless abort, at-most-once commit and the equivalence of committing
      with and without a pre-commit ([TxnStore]).
    - The upcalls replicate exactly what is prepared, a committed write is read back through
      the serialized messages, and loading partitions the keys as the clients look them up
      ([StrongServer], [Sharding]).
    - A coordinator commits only with unanimous votes, a majority quorum per participant and
      cleared dependencies, under any loss, duplication and reordering, and reports a
      replication only then or when a participant asks again about a transaction that is
      decided; decisions are final; one refusal aborts; the last acknowledgement commits
      ([Coordinator]).
    - A quorum is counted over distinct replicas and two quorums intersect ([QuorumSet]); the
      leader's log is dense and survives serialization ([LRLog]).
    - A replica in the fast mode acknowledges a prepare only after a quorum of replicas has
      acknowledged the replication, and leader and follower converge on a commit
      ([LRReplica]); a cascading abort ends exactly when no cycle of dependencies is reachable
      ([CascadeAbort]).
    - A client reports a commit only if every participant prepared the transaction, or its
      primary shard or the coordinators decided to commit it, in every run ([ClientSafety]); it
      answers a prepare only on the replies the mode calls for ([LRClient]).
    - TAPIR accepts a transaction that it has not prepared exactly when nothing conflicts, and
      a version that a prepared transaction read and the store has stays the one to read, while
      its prepared transaction is not replaced ([TapirStore]).
    - A replica of inconsistent replication executes an operation at most once, and its views
      only advance ([IRReplica]); what a client took on the fast path from replicas in normal
      operation is in the record of every later view ([IRSystem], with the lemmas of [IRMerge]); a
      client answers only what a quorum answered ([IRClient]).
    - In viewstamped replication without a view change the replicas execute the same requests in
      the same order, each at most once, and what is executed is in the logs of a quorum
      ([VRSafety]); StartView installs the log of the new leader, when that has entries
      ([VRViewChange]); a client answers a request at most once, up to an event that the standard
      leaves undefined ([VRClient]).
    - The transports deliver only what was sent, and everything without disturbance; the stream
      of a connection is the messages written to it, and the tables of connections are inverse
      ([UDPTransport], [TCPTransport]); the timers implement restartable timeouts ([Timers]);
      a configuration file is read back as written ([ConfigFile]); latencies hold the statistics
      of the durations that were measured, for at most five types each, and the file holds the
      ones of the last flush; their sums, messages and printed forms are right
      ([Latency]).
    - The simulated transport delivers every accepted message once and in order, fires timers in
      order, and its loop ends when the program pays for what it causes ([SimTransport]); the
      history of the interactive one, when the commands need no quoting, parses to the calls
      that repeat the session ([ReplTransport]).
    - In the weak store a put reaches every server and a following get returns it
      ([WeakStore]).
    - The lock service with three replicas grants a lock to one client, and a view change grants
      none twice ([LockClient], [LockService]).
    - A payment keeps the books of the warehouses and districts, and an order gets the next number
      of its district ([Tpcc]); the generated rows are read back as generated where the clients
      look for them, the items as in the file of the first warehouse, and every generated order
      runs on them ([TpccData]).
    - The hash function depends on the bytes of the key alone, and mixing loses nothing ([Hash]);
      the operators on configurations are those of a total order and equal configurations have
      equal hashes ([ConfigOrder]); the timestamps of a clock with a small skew are ordered as its
      readings, and the time server counts ([TrueTime]); the transactions of the benchmarks use
      only keys that exist ([Workload]).
    - Where the code does not do what it is meant to, a theorem states what it does: reads are
      never recorded, locks of refused transactions and ids of aborted pre-commits stay behind,
      pre-commits admit stale reads, peers of a coordinator record a commit as an abort, a
      leader remembers an abort as a commit, the prepare requests of the slow mode lose the
      values, committed writes are installed at timestamp zero, a replica of inconsistent
      replication cannot be started again and forgets what it answers during a view change, a
      coordinator reports success for aborted transactions, a view change without entries leaves logs apart, locks are granted twice with
      five replicas and lost by view changes, new orders never change the stock, payments
      convert negative balances to unsigned numbers, late replies acknowledge puts of the weak
      store that no server has seen.

    Theorems with hypotheses are followed by an instance at concrete values, under the same
    name with the suffix [_witness].

    ** Bounds

    Recursion is structural over data where the code's is.  The other loops have a bound:
    [cascade_abort] takes a depth bound, two more than the number of active transactions (a
    chain without repetition visits each of them at most once after its root), and running out
    of it counts as undefined behaviour ([CascadeAbort] proves when that happens); the loop of
    [CommitUpTo] gets the number of operations to commit, the fragments of a message, the
    frames in a buffer and the lines of a file the number of bytes, of which each round takes at
    least one; the search for the bucket of a latency gets 64 rounds, one for each bit, and the
    walk over the list of latencies as many as there are latencies, more of them being a cycle;
    the reading of datagrams ends with the datagrams that are there; [CancelAllTimers] removes a
    timer in each round, or never ends ([Timers]).  The loop of the simulated transport need not
    end: it takes the number of its rounds and says whether it ended, and [sim_run_terminates]
    gives a number that is enough; the interactive one reads a line in each round.
    The binary search of the benchmarks gets two rounds more than there are keys, and the drawing
    of a number that is neither 0 nor 1 a number of rounds after which it gives up.  Counters are
    reduced modulo [2^64] where the code increments them; a theorem that needs them not to wrap
    around says so.

    ** What is not modelled

    Sockets, threads, timers as real time, logging and command lines are outside the model: a
    [Network] decides which sends succeed and a run is any sequence of messages and firing
    timers.  Left out are the vendored JSON library; the logging, memory and tracing helpers; the
    main functions of the benchmarks and of the servers; the commit client, which nothing uses; and
    the clients of TAPIR, which the build leaves out ([Makefile]
    comments their rules out) and which do not implement all pure virtual methods they
    inherit. *)

From stdpp Require Export base tactics decidable numbers strings list gmap fin_maps fin_map_dom sets fin_sets sorting.
From Stdlib Require Export ZArith Lia.

#[global] Open Scope Z_scope.
#[global] Set Default Goal Selector "!".
#[export] Set Warnings "-clear-no-such-hyp".

(** ** Machine integers

    [uint64_t] values are [Z]s; every arithmetic operation the code performs on
    them is followed by an explicit reduction.  [to_int] is the conversion of a
    64-bit value to the 32-bit signed [int]. *)

Definition u64_modulus : Z := 2 ^ 64.

Definition u64 (z : Z) : Z := z mod u64_modulus.

Definition u64_incr (z : Z) : Z := u64 (z + 1).

Definition u64_decr (z : Z) : Z := u64 (z - 1).

Definition to_int (z : Z) : Z := (z + 2 ^ 31) mod 2 ^ 32 - 2 ^ 31.

Definition is_u64 (z : Z) : Prop := 0 ≤ z < u64_modulus.

Lemma u64_range z : is_u64 (u64 z).
Proof. unfold is_u64, u64. apply Z.mod_pos_bound. reflexivity. Qed.

Lemma u64_small z : is_u64 z → u64 z = z.
Proof. unfold is_u64, u64. intros. by apply Z.mod_small. Qed.

Lemma u64_incr_small n : 0 ≤ n → n + 1 < 2 ^ 64 → u64_incr n = n + 1.
Proof. intros ??. unfold u64_incr. apply u64_small. unfold is_u64, u64_modulus. lia. Qed.

Lemma u64_incr_decr z : is_u64 z → u64_decr (u64_incr z) = z.
Proof.
  intros Hz. unfold u64_decr, u64_incr, u64.
  rewrite Zminus_mod_idemp_l, Z.add_simpl_r. by apply Z.mod_small.
Qed.

Lemma to_int_small z : 0 ≤ z < 2 ^ 31 → to_int z = z.
Proof. intros Hz. unfold to_int. rewrite Z.mod_small; lia. Qed.

(** ** Outcomes

    A call either returns, stops the process through the [Panic] macro of
    [lib/message.h], or executes an operation the C++ standard leaves undefined
    (null dereference, read of an indeterminate value, index out of range). *)

Inductive res (A : Type) : Type :=
| Ok (a : A)
| Panic
| Undefined.
Arguments Ok {_} _.
Arguments Panic {_}.
Arguments Undefined {_}.

#[global] Instance res_ret : MRet res := λ A a, Ok a.

#[global] Instance res_bind : MBind res := λ A B k m,
  match m with Ok a => k a | Panic => Panic | Undefined => Undefined end.

Definition returns {A} (r : res A) : Prop := ∃ a, r = Ok a.

Lemma res_bind_Ok {A B} (m : res A) (k : A → res B) b :
  m ≫= k = Ok b ↔ ∃ a, m = Ok a ∧ k a = Ok b.
Proof.
  split; [destruct m; simpl; naive_solver | by intros (a & -> & ?)].
Qed.

(** State passing with outcomes: the monad the message handlers are written in. *)

Definition M (S A : Type) : Type := S → res (A * S).

#[global] Instance M_ret S : MRet (M S) := λ A a s, Ok (a, s).

#[global] Instance M_bind S : MBind (M S) := λ A B k m s,
  match m s with Ok (a, s') => k a s' | Panic => Panic | Undefined => Undefined end.

Definition get_st {S} : M S S := λ s, Ok (s, s).

Definition gets {S A} (f : S → A) : M S A := λ s, Ok (f s, s).

Definition modify {S} (f : S → S) : M S unit := λ s, Ok (tt, f s).

Definition panic {S A} : M S A := λ _, Panic.

Definition undefined {S A} : M S A := λ _, Undefined.

Definition lift_res {S A} (r : res A) : M S A := λ s,
  match r with Ok a => Ok (a, s) | Panic => Panic | Undefined => Undefined end.

(** Reading a C++ object that may hold an indeterminate value, or dereferencing a
    pointer that may be null. *)

Definition deref {S A} (o : option A) : M S A :=
  match o with Some a => mret a | None => undefined end.

Definition when {S} (b : bool) (m : M S unit) : M S unit := if b then m else mret tt.

Fixpoint for_each {S A} (l : list A) (body : A → M S unit) : M S unit :=
  match l with
  | [] => mret tt
  | x :: l' => _ ← body x; for_each l' body
  end.

Lemma bind_run {S A B} (m : M S A) (k : A → M S B) s a s' :
  m s = Ok (a, s') → (m ≫= k) s = k a s'.
Proof. intros Hm. unfold mbind, M_bind. by rewrite Hm. Qed.

(** Postconditions.  [post F m Q s]: run from [s], [m] returns with a result and a
    state satisfying [Q]; [F] says what is required of runs that do not return
    ([False] for total correctness, [True] for partial correctness). *)

Definition post {S A} (F : Prop) (m : M S A) (Q : A → S → Prop) (s : S) : Prop :=
  match m s with Ok (a, s') => Q a s' | _ => F end.

Abbreviation wp := (post False).
Abbreviation wlp := (post True).

Section post.
Context {S : Type} (F : Prop).

Lemma post_ret {A} (a : A) (Q : A → S → Prop) s :
  Q a s → post F (mret a) Q s.
Proof. done. Qed.

Lemma post_bind {A B} (m : M S A) (k : A → M S B) Q s :
  post F m (λ a s', post F (k a) Q s') s → post F (m ≫= k) Q s.
Proof. unfold post, mbind, M_bind. by destruct (m s) as [[]| |]. Qed.

Lemma post_mono {A} (m : M S A) (Q Q' : A → S → Prop) s :
  post F m Q s → (∀ a s', Q a s' → Q' a s') → post F m Q' s.
Proof. unfold post. destruct (m s) as [[]| |]; eauto. Qed.

Lemma post_get {A} (k : S → M S A) Q s : post F (k s) Q s → post F (get_st ≫= k) Q s.
Proof. done. Qed.

Lemma post_bind_run {A B} (m : M S A) (k : A → M S B) Q s a s' :
  m s = Ok (a, s') → post F (k a) Q s' → post F (m ≫= k) Q s.
Proof. intros Hm Hk. apply post_bind. unfold post at 1. by rewrite Hm. Qed.

Lemma post_when_modify (b : bool) (f : S → S) (Q : unit → S → Prop) s :
  (∀ s', s' = f s ∨ s' = s → Q tt s') → post F (when b (modify f)) Q s.
Proof. intros HQ. destruct b; apply HQ; auto. Qed.

Lemma post_for_each {A} (l : list A) (body : A → M S unit) (I : S → Prop) s :
  I s →
  (∀ x s', x ∈ l → I s' → post F (body x) (λ _, I) s') →
  post F (for_each l body) (λ _, I) s.
Proof.
  revert s. induction l as [|x l IH]; intros s HI Hbody; [done|].
  simpl. apply post_bind. eapply post_mono.
  - apply Hbody; [set_solver | done].
  - intros ? s' HI'. apply IH; [done|]. intros. apply Hbody; set_solver.
Qed.
End post.

Lemma wp_run {S A} (m : M S A) Q s :
  wp m Q s ↔ ∃ a s', m s = Ok (a, s') ∧ Q a s'.
Proof. unfold post. destruct (m s) as [[a s']| |]; naive_solver. Qed.

Lemma wlp_run {S A} (m : M S A) Q s :
  wlp m Q s ↔ ∀ a s', m s = Ok (a, s') → Q a s'.
Proof. unfold post. destruct (m s) as [[a s']| |]; naive_solver. Qed.

Lemma wlp_any {S A} (m : M S A) s : wlp m (λ _ _, True) s.
Proof. unfold post. by destruct (m s) as [[]| |]. Qed.

Lemma wlp_and {S A} (m : M S A) (P Q : A → S → Prop) s : wlp m P s → wlp m Q s → wlp m (λ a s', P a s' ∧ Q a s') s.
Proof. unfold post. by destruct (m s) as [[]| |]. Qed.

Lemma wlp_bind_lift {S A B} (r : res A) (k : A → M S B) Q s :
  (∀ a, r = Ok a → wlp (k a) Q s) → wlp (lift_res r ≫= k) Q s.
Proof. destruct r; intros Hk; [by apply (Hk a)|done..]. Qed.

Lemma wlp_bind_deref {S A B} (o : option A) (k : A → M S B) Q s :
  (∀ a, o = Some a → wlp (k a) Q s) → wlp (deref o ≫= k) Q s.
Proof. destruct o; intros Hk; [by apply (Hk a)|done]. Qed.

(** Executes the first command of a sequence. *)
Ltac run := eapply post_bind_run; [reflexivity|].
Ltac run_with H := eapply post_bind_run; [exact H|].

(** [preserves I m]: whenever [m] is run in a state satisfying [I] and returns, the state
    it leaves satisfies [I]. *)
Definition preserves {S A} (I : S → Prop) (m : M S A) : Prop :=
  ∀ s, I s → wlp m (λ _ s', I s') s.

Section preserves.
Context {S : Type} (I : S → Prop).

Lemma preserves_elim {A} (m : M S A) s : I s → preserves I m → wlp m (λ _ s', I s') s.
Proof. auto. Qed.

Lemma preserves_ret {A} (a : A) : preserves I (mret a).
Proof. by intros s Hs. Qed.

Lemma preserves_bind {A B} (m : M S A) (k : A → M S B) :
  preserves I m → (∀ a, preserves I (k a)) → preserves I (m ≫= k).
Proof.
  intros Hm Hk s Hs. apply post_bind. eapply post_mono; [by apply Hm|]. intros a s' Hs'. by apply Hk.
Qed.

Lemma preserves_modify (f : S → S) : (∀ s, I s → I (f s)) → preserves I (modify f).
Proof. intros Hf s Hs. by apply Hf. Qed.

Lemma preserves_gets {A} (f : S → A) : preserves I (gets f).
Proof. by intros s Hs. Qed.

Lemma preserves_get : preserves I get_st.
Proof. by intros s Hs. Qed.

(** The state read is one that satisfies the invariant. *)
Lemma preserves_get_bind {A} (k : S → M S A) :
  (∀ s, I s → preserves I (k s)) → preserves I (get_st ≫= k).
Proof. intros Hk s Hs. by apply (Hk s Hs s). Qed.

Lemma preserves_lift {A} (r : res A) : preserves I (lift_res r).
Proof. by destruct r; intros s Hs. Qed.

Lemma preserves_deref {A} (o : option A) : preserves I (deref o).
Proof. by destruct o; intros s Hs. Qed.

Lemma preserves_bind_deref {A B} (o : option A) (k : A → M S B) :
  (∀ a, o = Some a → preserves I (k a)) → preserves I (deref o ≫= k).
Proof. destruct o as [a|]; intros Hk s Hs; [by apply (Hk a)|done]. Qed.

Lemma preserves_undefined {A} : preserves I (undefined (A := A)).
Proof. by intros s Hs. Qed.

Lemma preserves_panic {A} : preserves I (panic (A := A)).
Proof. by intros s Hs. Qed.

Lemma preserves_when (b : bool) m : (b = true → preserves I m) → preserves I (when b m).
Proof. destruct b; simpl; [auto|]. intros _. apply preserves_ret. Qed.

Lemma preserves_if {A} (b : bool) (m1 m2 : M S A) :
  (b = true → preserves I m1) → (b = false → preserves I m2) → preserves I (if b then m1 else m2).
Proof. destruct b; auto. Qed.

(** [m] returns results that satisfy [P]. *)
Lemma result_bind {A B} (m : M S A) (k : A → M S B) (P : B → Prop) s :
  (∀ a s', wlp (k a) (λ b _, P b) s') → wlp (m ≫= k) (λ b _, P b) s.
Proof. intros Hk. apply post_bind. eapply post_mono; [apply wlp_any|]. auto. Qed.

Lemma preserves_bind_result {A B} (m : M S A) (k : A → M S B) (P : A → Prop) :
  preserves I m → (∀ s, wlp m (λ a _, P a) s) → (∀ a, P a → preserves I (k a)) → preserves I (m ≫= k).
Proof.
  intros Hm HP Hk s Hs. apply post_bind. specialize (Hm s Hs). specialize (HP s).
  unfold post in *. destruct (m s) as [[a s']| |]; [|done..]. by apply Hk.
Qed.

Lemma preserves_for_each {A} (l : list A) (body : A → M S unit) :
  (∀ x, preserves I (body x)) → preserves I (for_each l body).
Proof. intros Hb s Hs. apply post_for_each; [done|]. intros. by apply Hb. Qed.
End preserves.

Create HintDb preserve.
#[export] Hint Resolve preserves_lift preserves_ret preserves_bind preserves_gets preserves_get preserves_deref
  preserves_undefined preserves_panic preserves_when preserves_if preserves_for_each : preserve.

(** ** Record update

    [r <| f := v |>] is [r] with field [f] replaced.  A record type declares its
    eta expansion as an instance of [Eta]; the setter of a field is found by
    abstracting that field's projection in the expansion. *)

Class Eta (R : Type) := eta_of : R → R.

Class FieldSetter {R T} (f : R → T) := update_field : (T → T) → R → R.

Ltac field_setter :=
  match goal with
  | |- @FieldSetter ?R ?T ?f =>
      let inst := constr:(_ : Eta R) in
      let body := eval hnf in inst in
      let abstracted := eval pattern f in body in
      match abstracted with
      | ?build f => exact (λ (g : T → T) (r : R), build (λ r' : R, g (f r')) r)
      end
  end.

#[global] Hint Extern 1 (FieldSetter _) => field_setter : typeclass_instances.

Declare Scope record_scope.
Delimit Scope record_scope with record.
#[global] Open Scope record_scope.

#[warnings="-postfix-notation-not-level-1"]
Notation "r <| f := v |>" := (update_field (f := f) (λ _, v) r)
  (at level 12, left associativity, f constr, v constr) : record_scope.
#[warnings="-postfix-notation-not-level-1"]
Notation "r <| f ::= g |>" := (update_field (f := f) g r)
  (at level 12, left associativity, f constr, g constr) : record_scope.

Arguments update_field {R T} f {_} _ _ /.

(** ** Iteration order of hash tables

    [std::unordered_map] enumerates its entries in an order the program does not
    control.  A [HashOrder] is one such order; every definition that iterates over
    an unordered map takes it as an argument, and results are proved for all of
    them. *)

Class HashOrder := {
  hash_order : ∀ {K A : Type} `{Countable K}, gmap K A → list (K * A);
  hash_order_perm : ∀ {K A : Type} `{Countable K} (m : gmap K A),
    hash_order m ≡ₚ map_to_list m
}.

Definition default_order : HashOrder :=
  {| hash_order := λ _ _ _ _ m, map_to_list m;
     hash_order_perm := λ _ _ _ _ m, reflexivity _ |}.

Section hash_order.
Context `{HO : HashOrder} `{Countable K} {A : Type}.
Implicit Types m : gmap K A.

Lemma elem_of_hash_order m k x : (k, x) ∈ hash_order m ↔ m !! k = Some x.
Proof. rewrite hash_order_perm. apply elem_of_map_to_list. Qed.

Lemma hash_order_keys_NoDup m : NoDup (hash_order m).*1.
Proof. rewrite hash_order_perm. apply NoDup_fst_map_to_list. Qed.

Lemma elem_of_hash_order_keys m k : k ∈ (hash_order m).*1 ↔ is_Some (m !! k).
Proof.
  rewrite list_elem_of_fmap. split.
  - intros ([k' x] & -> & Hx). apply elem_of_hash_order in Hx. by eexists.
  - intros [x Hx]. exists (k, x). split; [done|]. by apply elem_of_hash_order.
Qed.

Lemma hash_order_list_to_map m : list_to_map (hash_order m) = m.
Proof.
  rewrite (list_to_map_proper _ (map_to_list m)).
  - apply list_to_map_to_list.
  - apply hash_order_keys_NoDup.
  - apply hash_order_perm.
Qed.
End hash_order.

(** ** Lists *)

Lemma foldl_ext {A B} (f g : A → B → A) (l : list B) a :
  (∀ a b, b ∈ l → f a b = g a b) → foldl f a l = foldl g a l.
Proof.
  revert a. induction l as [|b l IH]; intros a Hfg; simpl; [done|].
  rewrite (Hfg a b) by set_solver. apply IH. set_solver.
Qed.

(** Inserting the entries of a list one after the other. *)
Lemma foldl_insert_list_to_map `{Countable K} {A} (l : list (K * A)) (m : gmap K A) :
  NoDup l.*1 →
  foldl (λ m p, <[p.1 := p.2]> m) m l = list_to_map l ∪ m.
Proof.
  revert m. induction l as [|[k x] l IH]; intros m; simpl.
  { intros _. by rewrite map_empty_union. }
  rewrite NoDup_cons. intros [Hk Hl]. rewrite IH by done.
  rewrite <- insert_union_l, insert_union_r; [done|].
  by apply not_elem_of_list_to_map_1.
Qed.

(** ** Ordered maps *)

(** The order in which a [std::map] with integer keys is visited. *)
Definition key_le {A} (x y : Z * A) : Prop := x.1 ≤ y.1.

#[global] Instance key_le_dec {A} (x y : Z * A) : Decision (key_le x y).
Proof. unfold key_le. apply _. Defined.

Definition by_key {A} (m : gmap Z A) : list (Z * A) := merge_sort key_le (map_to_list m).

Lemma by_key_perm {A} (m : gmap Z A) : by_key m ≡ₚ map_to_list m.
Proof. apply merge_sort_Permutation. Qed.

(** ** Sums over finite maps *)

Definition map_sum `{Countable K} {A} (f : A → Z) (m : gmap K A) : Z :=
  map_fold (λ _ x n, f x + n) 0 m.

Section map_sum.
Context `{Countable K} {A : Type} (f : A → Z).
Implicit Types m : gmap K A.

Lemma map_sum_insert m k x :
  m !! k = None → map_sum f (<[k := x]> m) = f x + map_sum f m.
Proof. intros Hk. unfold map_sum.
  rewrite (map_fold_insert_L (λ (_ : K) (x : A) (n : Z), f x + n)); [done|intros; lia|done]. Qed.

Lemma map_sum_split m k :
  map_sum f m = from_option f 0 (m !! k) + map_sum f (delete k m).
Proof.
  destruct (m !! k) as [x|] eqn:Hk; simpl.
  - rewrite <- (map_sum_insert (delete k m) k) by apply lookup_delete_eq.
    by rewrite insert_delete_id.
  - by rewrite delete_id.
Qed.

Lemma map_sum_update m k x :
  map_sum f (<[k := x]> m) = map_sum f m - from_option f 0 (m !! k) + f x.
Proof.
  rewrite (map_sum_split (<[k := x]> m) k), (map_sum_split m k), lookup_insert_eq, delete_insert_eq.
  simpl. lia.
Qed.

Lemma map_sum_nonneg m : (∀ x, 0 ≤ f x) → 0 ≤ map_sum f m.
Proof.
  intros Hf. induction m as [|k x m Hk IH] using map_ind; [done|]. rewrite map_sum_insert by done. specialize (Hf x). lia.
Qed.
End map_sum.

(** Counting the entries that satisfy a test. *)
Lemma map_sum_count `{Countable K} {A} (P : A → bool) (m : gmap K A) :
  map_sum (λ x, if P x then 1 else 0) m = Z.of_nat (size (filter (λ kv, P kv.2 = true) m)).
Proof.
  induction m as [|k x m Hk IH] using map_ind; [done|].
  rewrite map_sum_insert, IH by done. destruct (P x) eqn:HP.
  - rewrite map_filter_insert_True, map_size_insert_None by (done || by rewrite map_lookup_filter_None; left).
    lia.
  - rewrite map_filter_insert_False, delete_id by (simpl; congruence || done). done.
Qed.
