(* ===== verification/Timestamp.v ===== *)
(** Transaction timestamps: [store/common/timestamp.h] and [timestamp.cc].

    A timestamp is a pair of 64-bit words, the clock value and the identifier of
    the process that issued it, compared lexicographically by the overloaded
    operators.  The operators are boolean functions here, one per operator of the
    class; they are shown to be the strict and reflexive parts of one total order,
    which is what the ordered containers of the version store rely on. *)

From S2P Require Import Prelude.

(** The private fields of [class Timestamp]. *)
Record Timestamp := MkTimestamp { timestamp : Z; ts_id : Z }.

#[global] Instance Timestamp_eq_dec : EqDecision Timestamp.
Proof. solve_decision. Defined.

#[global] Instance Timestamp_countable : Countable Timestamp :=
  inj_countable' (λ t, (timestamp t, ts_id t)) (λ p, MkTimestamp p.1 p.2)
    (λ t, match t with MkTimestamp _ _ => eq_refl end).

(** [Timestamp()] and [Timestamp(uint64_t)]. *)
Definition Timestamp0 : Timestamp := MkTimestamp 0 0.
Definition Timestamp1 (t : Z) : Timestamp := MkTimestamp t 0.

(** [message TimestampMessage] of [store/common/common-proto.proto], with the
    constructor and the method that convert from and to it. *)
Record TimestampMessage := MkTimestampMessage { msg_id : Z; msg_timestamp : Z }.

Definition Timestamp_of_msg (msg : TimestampMessage) : Timestamp :=
  MkTimestamp (msg_timestamp msg) (msg_id msg).

Definition serialize (t : Timestamp) : TimestampMessage :=
  {| msg_timestamp := timestamp t; msg_id := ts_id t |}.

(** The comparison operators. *)
Definition ts_eq (a t : Timestamp) : bool :=
  (timestamp a =? timestamp t) && (ts_id a =? ts_id t).

Definition ts_ne (a t : Timestamp) : bool :=
  negb (timestamp a =? timestamp t) || negb (ts_id a =? ts_id t).

Definition ts_gt (a t : Timestamp) : bool :=
  if timestamp a =? timestamp t then ts_id a >? ts_id t else timestamp a >? timestamp t.

Definition ts_lt (a t : Timestamp) : bool :=
  if timestamp a =? timestamp t then ts_id a <? ts_id t else timestamp a <? timestamp t.

Definition ts_ge (a t : Timestamp) : bool :=
  if timestamp a =? timestamp t then ts_id a >=? ts_id t else timestamp a >=? timestamp t.

Definition ts_le (a t : Timestamp) : bool :=
  if timestamp a =? timestamp t then ts_id a <=? ts_id t else timestamp a <=? timestamp t.

Definition isValid (t : Timestamp) : bool := (timestamp t >? 0) && (ts_id t >? 0).

(** ** The order the operators compute *)

Definition TsLt (a b : Timestamp) : Prop :=
  timestamp a < timestamp b ∨ (timestamp a = timestamp b ∧ ts_id a < ts_id b).

Definition TsLe (a b : Timestamp) : Prop := a = b ∨ TsLt a b.

Infix "<ₜ" := TsLt (at level 70).
Infix "≤ₜ" := TsLe (at level 70).

Lemma MkTimestamp_inj a b c d : MkTimestamp a b = MkTimestamp c d ↔ a = c ∧ b = d.
Proof. naive_solver. Qed.

Ltac ts_solve :=
  repeat match goal with t : Timestamp |- _ => destruct t end;
  unfold TsLe, TsLt, ts_eq, ts_ne, ts_gt, ts_lt, ts_ge, ts_le in *; simpl in *;
  rewrite ?MkTimestamp_inj in *;
  repeat case_match; intuition (simplify_eq/=; lia).

Lemma ts_lt_spec a b : ts_lt a b = true ↔ a <ₜ b.
Proof. ts_solve. Qed.

Lemma ts_gt_spec a b : ts_gt a b = true ↔ b <ₜ a.
Proof. ts_solve. Qed.

Lemma ts_le_spec a b : ts_le a b = true ↔ a ≤ₜ b.
Proof. ts_solve. Qed.

Lemma ts_ge_spec a b : ts_ge a b = true ↔ b ≤ₜ a.
Proof. ts_solve. Qed.

Lemma ts_eq_spec a b : ts_eq a b = true ↔ a = b.
Proof. ts_solve. Qed.

Lemma ts_ne_spec a b : ts_ne a b = true ↔ a ≠ b.
Proof. ts_solve. Qed.

Lemma ts_lt_false a b : ts_lt a b = false ↔ b ≤ₜ a.
Proof. ts_solve. Qed.

Lemma ts_gt_false a b : ts_gt a b = false ↔ a ≤ₜ b.
Proof. ts_solve. Qed.

#[global] Instance TsLt_irreflexive : Irreflexive TsLt.
Proof. intros a Ha. ts_solve. Qed.

#[global] Instance TsLt_transitive : Transitive TsLt.
Proof. intros a b c. ts_solve. Qed.

#[global] Instance TsLe_transitive : Transitive TsLe.
Proof. intros a b c. ts_solve. Qed.

#[global] Instance TsLe_reflexive : Reflexive TsLe.
Proof. intros a. by left. Qed.

#[global] Instance TsLt_decision a b : Decision (a <ₜ b).
Proof. refine (cast_if (decide (ts_lt a b = true))); by rewrite <- ts_lt_spec. Defined.

#[global] Instance TsLt_trichotomy : Trichotomy TsLt.
Proof. intros a b. ts_solve. Qed.

#[global] Instance TsLe_antisym : AntiSymm (=) TsLe.
Proof. intros a b. ts_solve. Qed.

Lemma TsLt_le_trans a b c : a <ₜ b → b ≤ₜ c → a <ₜ c.
Proof. ts_solve. Qed.

Lemma TsLe_lt_trans a b c : a ≤ₜ b → b <ₜ c → a <ₜ c.
Proof. ts_solve. Qed.

Lemma TsLt_le a b : a <ₜ b → a ≤ₜ b.
Proof. by right. Qed.

Lemma TsLt_not_le a b : a <ₜ b ↔ ¬ b ≤ₜ a.
Proof. ts_solve. Qed.

Lemma TsLt_not_lt a b : ¬ a <ₜ b → b ≤ₜ a.
Proof. ts_solve. Qed.

Create HintDb ts.
Create Rewrite HintDb ts.
#[export] Hint Resolve TsLt_le_trans TsLe_lt_trans TsLt_le TsLt_transitive : ts.
#[export] Hint Rewrite ts_lt_spec ts_gt_spec ts_le_spec ts_ge_spec ts_eq_spec ts_ne_spec
  ts_lt_false ts_gt_false : ts.

Lemma serialize_roundtrip t : Timestamp_of_msg (serialize t) = t.
Proof. by destruct t. Qed.

(** The six comparison operators of [Timestamp] are mutually consistent and compute
    one total order: exactly one of [<], [==], [>] holds, [<=] and [>=] are their
    reflexive closures, [!=] is the negation of [==], and [<] is transitive. *)
Theorem timestamp_operators_total_order (a b c : Timestamp) :
  (ts_lt a b = true ∧ ts_eq a b = false ∧ ts_gt a b = false
   ∨ ts_lt a b = false ∧ ts_eq a b = true ∧ ts_gt a b = false
   ∨ ts_lt a b = false ∧ ts_eq a b = false ∧ ts_gt a b = true) ∧
  ts_le a b = ts_lt a b || ts_eq a b ∧
  ts_ge a b = ts_gt a b || ts_eq a b ∧
  ts_ne a b = negb (ts_eq a b) ∧
  (ts_eq a b = true ↔ a = b) ∧
  (ts_lt a b && ts_lt b c = true → ts_lt a c = true).
Proof.
  destruct a as [ta ia], b as [tb ib], c as [tc ic].
  unfold ts_lt, ts_eq, ts_gt, ts_le, ts_ge, ts_ne; simpl. rewrite MkTimestamp_inj.
  repeat split; repeat case_match; lia.
Qed.
