(* ===== verification/Transaction.v ===== *)
(** Transactions: [store/common/transaction.h] and [transaction.cc], with the
    messages of [store/common/common-proto.proto].

    The read and write sets are [std::unordered_map]s and are finite maps here; the
    methods that iterate over them take the iteration order ([HashOrder]) as an
    argument.  Members that a constructor leaves without an initial value are
    [None] until they are assigned.  The two [timeval] members, which only measure
    elapsed wall-clock time for the log, are not represented. *)

From S2P Require Import Prelude Timestamp.

(** Reply codes ([#define REPLY_...]). *)
Definition REPLY_OK : Z := 0.
Definition REPLY_FAIL : Z := 1.
Definition REPLY_RETRY : Z := 2.
Definition REPLY_ABSTAIN : Z := 3.
Definition REPLY_TIMEOUT : Z := 4.
Definition REPLY_ABORT : Z := 7.
Definition REPLY_HAS_PRECOMMIT : Z := 8.

(** [enum Mode] and [enum TpcMode]. *)
Inductive Mode := MODE_UNKNOWN | MODE_OCC | MODE_LOCK | MODE_SPAN_OCC | MODE_SPAN_LOCK.

Inductive TpcMode := MODE_FAST | MODE_SLOW | MODE_PARALLEL | MODE_RC | MODE_CAROUSEL.

#[global] Instance Mode_eq_dec : EqDecision Mode.
Proof. solve_decision. Defined.

#[global] Instance TpcMode_eq_dec : EqDecision TpcMode.
Proof. solve_decision. Defined.

(** [class Transaction]. *)
Record Transaction := MkTransaction {
  writeSet : gmap string string;
  txn_id : option Z;
  startTs : Timestamp;
  commitTs : Timestamp;
  readSet : gmap string Timestamp;
  participants : list Z;
  primary_shard : option Z;
  out : list Z;
  in_ : option Z
}.

#[global] Instance Transaction_eta : Eta Transaction := λ t,
  MkTransaction (writeSet t) (txn_id t) (startTs t) (commitTs t) (readSet t)
    (participants t) (primary_shard t) (out t) (in_ t).

(** The constructors. *)
Definition Transaction_default : Transaction :=
  MkTransaction ∅ (Some 0) Timestamp0 Timestamp0 ∅ [] None [] (Some 0).

Definition Transaction_id (id : Z) : Transaction :=
  MkTransaction ∅ (Some id) Timestamp0 Timestamp0 ∅ [] None [] (Some 0).

Definition Transaction_ts (id timestamp replica_id : Z) : Transaction :=
  MkTransaction ∅ (Some id) Timestamp0 (MkTimestamp timestamp replica_id) ∅ [] None [] (Some 0).

Definition Transaction_primary (id timestamp replica_id shard : Z) : Transaction :=
  MkTransaction ∅ (Some id) Timestamp0 (MkTimestamp timestamp replica_id) ∅ []
    (Some shard) [] (Some 0).

(** The accessors and mutators. *)
Definition getReadSet (t : Transaction) : gmap string Timestamp := readSet t.
Definition getWriteSet (t : Transaction) : gmap string string := writeSet t.
Definition getParticipants (t : Transaction) : list Z := participants t.
Definition getID (t : Transaction) : option Z := txn_id t.
Definition getTimestamp (t : Transaction) : Timestamp := commitTs t.
Definition getPrimaryShard (t : Transaction) : option Z := primary_shard t.
Definition getOut (t : Transaction) : list Z := out t.
Definition getIn (t : Transaction) : option Z := in_ t.

Definition setCommitTs (replica ts : Z) (t : Transaction) : Transaction :=
  t <| commitTs := MkTimestamp ts replica |>.

(** The [int] argument converts to [uint64_t]. *)
Definition setPrimaryShard (shard : Z) (t : Transaction) : Transaction :=
  t <| primary_shard := Some (u64 shard) |>.

Definition increaseIn (t : Transaction) : Transaction :=
  t <| in_ ::= fmap u64_incr |>.

Definition decreaseIn (t : Transaction) : Transaction :=
  t <| in_ ::= fmap (λ n, if n >? 0 then u64_decr n else n) |>.

Definition setIn (i : Z) (t : Transaction) : Transaction := t <| in_ := Some i |>.

Definition addOut (tid : Z) (t : Transaction) : Transaction := t <| out ::= (λ o, o ++ [tid]) |>.

Definition addReadSet (key : string) (readTime : Timestamp) (t : Transaction) : Transaction :=
  t <| readSet ::= <[key := readTime]> |>.

Definition addWriteSet (key value : string) (t : Transaction) : Transaction :=
  t <| writeSet ::= <[key := value]> |>.

Definition addParticipant (p : Z) (t : Transaction) : Transaction :=
  t <| participants ::= (λ ps, ps ++ [p]) |>.

(** ** Serialization *)

Record ReadMessage := MkReadMessage { rm_key : string; readtime : TimestampMessage }.
Record WriteMessage := MkWriteMessage { wm_key : string; wm_value : string }.
Record TransactionMessage := MkTransactionMessage {
  msg_readset : list ReadMessage;
  msg_writeset : list WriteMessage
}.

Definition serialize_txn `{HashOrder} (t : Transaction) : TransactionMessage :=
  {| msg_readset :=
       (λ r, MkReadMessage r.1 (serialize r.2)) <$> hash_order (readSet t);
     msg_writeset :=
       (λ w, MkWriteMessage w.1 w.2) <$> hash_order (writeSet t) |}.

(** [Transaction(const TransactionMessage &)]: [id], [in] and [primary_shard] have
    no initial value. *)
Definition Transaction_of_msg (msg : TransactionMessage) : Transaction :=
  let rset := foldl (λ m r, <[rm_key r := Timestamp_of_msg (readtime r)]> m) ∅ (msg_readset msg) in
  let wset := foldl (λ m w, <[wm_key w := wm_value w]> m) ∅ (msg_writeset msg) in
  MkTransaction wset None Timestamp0 Timestamp0 rset [] None [] None.

Definition no_txn : TransactionMessage := MkTransactionMessage [] [].

(** What a message determines: the two sets. *)
Definition same_sets (t t' : Transaction) : Prop :=
  readSet t = readSet t' ∧ writeSet t = writeSet t'.

Lemma foldl_hash_order `{HashOrder} `{Countable K} {A} (m : gmap K A) :
  foldl (λ m p, <[p.1 := p.2]> m) ∅ (hash_order m) = m.
Proof.
  rewrite foldl_insert_list_to_map by apply hash_order_keys_NoDup.
  by rewrite map_union_empty, hash_order_list_to_map.
Qed.

Lemma readSet_of_msg_serialize `{HashOrder} t :
  readSet (Transaction_of_msg (serialize_txn t)) = readSet t.
Proof.
  simpl. rewrite foldl_fmap. etrans; [|apply foldl_hash_order].
  apply foldl_ext. intros m [k x] _; simpl. by rewrite serialize_roundtrip.
Qed.

Lemma writeSet_of_msg_serialize `{HashOrder} t :
  writeSet (Transaction_of_msg (serialize_txn t)) = writeSet t.
Proof. simpl. rewrite foldl_fmap. apply foldl_hash_order. Qed.

(** Serializing a transaction and rebuilding it from the message gives back the same
    read set and the same write set, whatever order the hash tables are iterated
    in. *)
Theorem transaction_serialize_roundtrip (HO : HashOrder) (t : Transaction) :
  readSet (Transaction_of_msg (serialize_txn t)) = readSet t ∧
  writeSet (Transaction_of_msg (serialize_txn t)) = writeSet t.
Proof. split; [apply readSet_of_msg_serialize | apply writeSet_of_msg_serialize]. Qed.
