(* ===== verification/VersionStore.v ===== *)
(** The storage back ends: the multi-version store
    [store/common/backend/versionstore.h]/[.cc] and the plain key-value store
    [store/common/backend/kvstore.h]/[.cc].

    A [std::set<VersionedValue>] is the list of its elements in increasing order of
    their write timestamp, and an iterator into it is a position in that list, the
    past-the-end iterator being its length.  Methods that report through reference
    parameters take the previous contents of the parameter and return the new one
    beside the boolean result.  [blocked], which no active line of the class
    touches, is left out. *)

From S2P Require Import Prelude Timestamp.

(** [struct VersionedValue], ordered by write timestamp. *)
Record VersionedValue := MkVersion { write : Timestamp; value : string }.

Definition VersionedValue_ts (commit : Timestamp) : VersionedValue := MkVersion commit "tmp".

Definition vv_gt (v1 v2 : VersionedValue) : bool := ts_gt (write v1) (write v2).
Definition vv_lt (v1 v2 : VersionedValue) : bool := ts_lt (write v1) (write v2).

(** [std::set] with the comparison above: [insert] keeps an element equivalent to the
    new one, [upper_bound] is the position of the first strictly greater element. *)
Fixpoint set_insert (v : VersionedValue) (s : list VersionedValue) : list VersionedValue :=
  match s with
  | [] => [v]
  | w :: s' =>
      if vv_lt v w then v :: s
      else if vv_lt w v then w :: set_insert v s'
      else s
  end.

Fixpoint upper_bound (v : VersionedValue) (s : list VersionedValue) : nat :=
  match s with
  | [] => O
  | w :: s' => if vv_lt v w then O else S (upper_bound v s')
  end.

(** [class VersionedKVStore]. *)
Record VersionedKVStore := MkVStore {
  store : gmap string (list VersionedValue);
  lastReads : gmap string (gmap Timestamp Timestamp);
  precommits : gmap string (list Z)
}.

#[global] Instance VersionedKVStore_eta : Eta VersionedKVStore := λ s,
  MkVStore (store s) (lastReads s) (precommits s).

Definition VersionedKVStore_empty : VersionedKVStore := MkVStore ∅ ∅ ∅.

(** [store[key]] on a key that may be absent. *)
Definition versions (st : VersionedKVStore) (key : string) : list VersionedValue :=
  default [] (store st !! key).

Definition inStore (st : VersionedKVStore) (key : string) : bool :=
  match store st !! key with
  | Some s => negb (bool_decide (length s = O))
  | None => false
  end.

Definition getValue (st : VersionedKVStore) (key : string) (t : Timestamp) : nat :=
  let s := versions st key in
  let it := upper_bound (VersionedValue_ts t) s in
  if bool_decide (it = O) then length s else pred it.

(** [get(key, value)]: the most recent version. *)
Definition get (st : VersionedKVStore) (key : string) (val : Timestamp * string) :
    bool * (Timestamp * string) :=
  if inStore st key then
    match last (versions st key) with
    | Some v => (true, (write v, value v))
    | None => (false, val)
    end
  else (false, val).

(** [get(key, value, tid)]: the most recent version, or the last pre-committed
    transaction on the key. *)
Definition get_dep (st : VersionedKVStore) (key : string) (val : Timestamp * string) (tid : Z) :
    bool * (Timestamp * string) * Z :=
  if inStore st key then
    match last (default [] (precommits st !! key)) with
    | None =>
        match last (versions st key) with
        | Some v => (true, (write v, value v), 0)
        | None => (false, val, tid)
        end
    | Some t => (true, val, t)
    end
  else (false, val, tid).

(** [get(key, t, value)]: the version valid at [t]. *)
Definition get_at (st : VersionedKVStore) (key : string) (t : Timestamp) (val : Timestamp * string) :
    bool * (Timestamp * string) :=
  if inStore st key then
    match versions st key !! getValue st key t with
    | Some v => (true, (write v, value v))
    | None => (false, val)
    end
  else (false, val).

Definition getRange (st : VersionedKVStore) (key : string) (t : Timestamp)
    (range : Timestamp * Timestamp) : bool * (Timestamp * Timestamp) :=
  if inStore st key then
    let it := getValue st key t in
    match versions st key !! it with
    | Some v =>
        match versions st key !! S it with
        | Some w => (true, (write v, write w))
        | None => (true, (write v, range.2))
        end
    | None => (false, range)
    end
  else (false, range).

Definition put (key val : string) (t : Timestamp) (st : VersionedKVStore) : VersionedKVStore :=
  st <| store ::= <[key := set_insert (MkVersion t val) (versions st key)]> |>.

Definition commitGet (key : string) (readTime commit : Timestamp) (st : VersionedKVStore) :
    VersionedKVStore :=
  if inStore st key then
    match versions st key !! getValue st key readTime with
    | Some v =>
        match lastReads st !! key with
        | Some reads =>
            match reads !! write v with
            | Some r =>
                if ts_lt r commit
                then st <| lastReads ::= <[key := <[write v := commit]> reads]> |>
                else st
            | None => st
            end
        | None => st
        end
    | None => st
    end
  else st.

Definition preCommit (key : string) (tid : Z) (st : VersionedKVStore) : VersionedKVStore :=
  st <| precommits ::= <[key := default [] (precommits st !! key) ++ [tid]]> |>.

Fixpoint erase_tid (tid : Z) (l : list Z) : list Z :=
  match l with
  | [] => []
  | x :: l' => if x =? tid then erase_tid tid l' else x :: erase_tid tid l'
  end.

Definition commit (key : string) (tid : Z) (st : VersionedKVStore) : Z * VersionedKVStore :=
  if inStore st key then
    match precommits st !! key with
    | Some l => (0, st <| precommits ::= <[key := erase_tid tid l]> |>)
    | None => (0, st)
    end
  else (0, st).

Definition getLastRead (st : VersionedKVStore) (key : string) (lastRead : Timestamp) :
    bool * Timestamp :=
  if inStore st key then
    match last (versions st key) with
    | Some v =>
        match lastReads st !! key with
        | Some reads =>
            match reads !! write v with Some r => (true, r) | None => (false, lastRead) end
        | None => (false, lastRead)
        end
    | None => (false, lastRead)
    end
  else (false, lastRead).

(** The lookup dereferences the iterator without the end check (the [ASSERT] before
    it expands to nothing in the build). *)
Definition getLastRead_at (st : VersionedKVStore) (key : string) (t lastRead : Timestamp) :
    res (bool * Timestamp) :=
  if inStore st key then
    match lastReads st !! key with
    | Some reads =>
        match versions st key !! getValue st key t with
        | Some v =>
            match reads !! write v with
            | Some r => Ok (true, r)
            | None => Ok (false, lastRead)
            end
        | None => Undefined
        end
    | None => Ok (false, lastRead)
    end
  else Ok (false, lastRead).

(** [class KVStore]: per key, the list of values with the latest one last. *)
Module KVStore.
Definition t := gmap string (list string).

Definition get (st : gmap string (list string)) (key val : string) : bool * string :=
  match last (default [] (st !! key)) with
  | None => (false, val)
  | Some v => (true, v)
  end.

Definition put (key val : string) (st : gmap string (list string)) :
    bool * gmap string (list string) :=
  (true, <[key := default [] (st !! key) ++ [val]]> st).

(** The reference parameter is not written. *)
Definition remove (key val : string) (st : gmap string (list string)) :
    bool * string * gmap string (list string) :=
  match st !! key with
  | None | Some [] => (false, val, st)
  | Some (x :: l) => (true, val, <[key := take (length l) (x :: l)]> st)
  end.
End KVStore.

(** ** Sorted version lists *)

Definition before (v w : VersionedValue) : Prop := write v <ₜ write w.

Definition sorted (s : list VersionedValue) : Prop := StronglySorted before s.

(** What [it] of [getValue] points to, as a function of the version list. *)
Definition latest_at (s : list VersionedValue) (t : Timestamp) : option VersionedValue :=
  let it := upper_bound (VersionedValue_ts t) s in
  s !! (if bool_decide (it = O) then length s else pred it).

Lemma vv_lt_spec v w : vv_lt v w = true ↔ before v w.
Proof. apply ts_lt_spec. Qed.

Lemma vv_lt_false v w : vv_lt v w = false ↔ write w ≤ₜ write v.
Proof. apply ts_lt_false. Qed.

Lemma elem_of_set_insert v x s : x ∈ set_insert v s → x = v ∨ x ∈ s.
Proof.
  induction s as [|w s IH]; simpl; [set_solver|].
  repeat case_match; set_solver.
Qed.

Lemma set_insert_keeps v x s : x ∈ s → x ∈ set_insert v s.
Proof.
  induction s as [|w s IH]; simpl; [set_solver|].
  repeat case_match; set_solver.
Qed.

Lemma set_insert_sorted v s : sorted s → sorted (set_insert v s).
Proof.
  unfold sorted. induction s as [|w s IH]; simpl; intros Hs.
  { repeat constructor. }
  inversion Hs as [|? ? Hs' Hall]; subst.
  destruct (vv_lt v w) eqn:Hvw; [|destruct (vv_lt w v) eqn:Hwv; [|done]].
  - apply vv_lt_spec in Hvw. constructor; [done|]. constructor; [done|].
    eapply Forall_impl; [done|]. intros u Hu. unfold before in *. by etrans.
  - apply vv_lt_spec in Hwv. constructor; [by apply IH|].
    apply Forall_forall. intros u [->|Hu]%elem_of_set_insert; [done|].
    rewrite Forall_forall in Hall. by apply Hall.
Qed.

Lemma set_insert_new v s :
  (∀ w, w ∈ s → write w ≠ write v) → v ∈ set_insert v s.
Proof.
  induction s as [|w s IH]; simpl; [set_solver|]. intros Hnew.
  destruct (vv_lt v w) eqn:Hvw; [set_solver|].
  destruct (vv_lt w v) eqn:Hwv; [set_solver|].
  apply vv_lt_false in Hvw. apply vv_lt_false in Hwv.
  exfalso. apply (Hnew w); [set_solver|]. by apply (anti_symm TsLe).
Qed.

Lemma set_insert_existing v w s :
  sorted s → w ∈ s → write w = write v → set_insert v s = s.
Proof.
  unfold sorted. induction s as [|u s IH]; intros Hs Hw Heq; [set_solver|].
  inversion Hs as [|? ? Hs' Hall]; subst. rewrite Forall_forall in Hall. simpl.
  apply elem_of_cons in Hw as [->|Hw].
  - unfold vv_lt. rewrite Heq.
    assert (ts_lt (write v) (write v) = false) as ->; [|done]. apply ts_lt_false. by left.
  - specialize (Hall w Hw). unfold before in Hall. rewrite Heq in Hall.
    assert (vv_lt v u = false) as ->; [apply vv_lt_false; auto with ts|].
    assert (vv_lt u v = true) as ->; [by apply vv_lt_spec|]. by rewrite IH.
Qed.

Lemma sorted_write_inj s v w :
  sorted s → v ∈ s → w ∈ s → write v = write w → v = w.
Proof.
  unfold sorted. induction s as [|u s IH]; intros Hs Hv Hw Heq; [set_solver|].
  inversion Hs as [|? ? Hs' Hall]; subst. rewrite Forall_forall in Hall.
  apply elem_of_cons in Hv as [->|Hv], Hw as [->|Hw]; eauto.
  - specialize (Hall w Hw). unfold before in Hall. rewrite Heq in Hall. destruct (irreflexivity TsLt _ Hall).
  - specialize (Hall v Hv). unfold before in Hall. rewrite Heq in Hall. destruct (irreflexivity TsLt _ Hall).
Qed.

Lemma sorted_lookup_le s i j v w :
  sorted s → (i ≤ j)%nat → s !! i = Some v → s !! j = Some w → write v ≤ₜ write w.
Proof.
  intros Hs Hij Hv Hw. destruct (decide (i = j)) as [->|Hne].
  - simplify_eq. done.
  - right. apply list_elem_of_split_length in Hv as (s1 & s2 & -> & Hlen).
    rewrite lookup_app_r in Hw by lia. apply list_elem_of_lookup_2 in Hw as Hw'.
    apply StronglySorted_app_1_r in Hs. inversion Hs as [|? ? _ Hall]; subst.
    rewrite Forall_forall in Hall. apply (Hall w).
    destruct (j - length s1)%nat as [|m] eqn:Hm; [lia|]. simpl in Hw.
    by apply list_elem_of_lookup_2 in Hw.
Qed.

Lemma upper_bound_le v s : (upper_bound v s ≤ length s)%nat.
Proof. induction s as [|w s IH]; simpl; [lia|]. case_match; lia. Qed.

Lemma upper_bound_before v s i w :
  (i < upper_bound v s)%nat → s !! i = Some w → write w ≤ₜ write v.
Proof.
  revert i. induction s as [|u s IH]; intros i Hi Hw; [done|]. simpl in Hi.
  destruct (vv_lt v u) eqn:Hvu; [lia|]. apply vv_lt_false in Hvu.
  destruct i as [|i]; simpl in Hw; [by simplify_eq|]. apply (IH i); [lia|done].
Qed.

Lemma upper_bound_at v s w : s !! upper_bound v s = Some w → before v w.
Proof.
  induction s as [|u s IH]; simpl; [done|].
  destruct (vv_lt v u) eqn:Hvu; simpl; [|done]. intros [= <-]. by apply vv_lt_spec.
Qed.

Lemma upper_bound_after v s j w :
  sorted s → (upper_bound v s ≤ j)%nat → s !! j = Some w → before v w.
Proof.
  intros Hs Hj Hw.
  destruct (s !! upper_bound v s) as [u|] eqn:Hu.
  - eapply TsLt_le_trans; [by apply upper_bound_at in Hu|].
    by eapply sorted_lookup_le.
  - apply lookup_ge_None in Hu. apply lookup_lt_Some in Hw. lia.
Qed.

(** [v] is the version of [s] valid at [t]: the one with the greatest timestamp not
    above [t]. *)
Definition valid_at (s : list VersionedValue) (t : Timestamp) (v : VersionedValue) : Prop :=
  v ∈ s ∧ write v ≤ₜ t ∧ ∀ w, w ∈ s → write w ≤ₜ t → write w ≤ₜ write v.

Lemma latest_at_None s t :
  sorted s → latest_at s t = None ↔ ∀ w, w ∈ s → t <ₜ write w.
Proof.
  intros Hs. unfold latest_at. set (ub := upper_bound _ s).
  case_bool_decide as H0.
  - rewrite lookup_ge_None_2 by lia. split; [|done]. intros _ w [j Hj]%list_elem_of_lookup.
    apply (upper_bound_after (VersionedValue_ts t) s j w); [done| |done]. fold ub. lia.
  - pose proof (upper_bound_le (VersionedValue_ts t) s) as Hle. fold ub in Hle.
    destruct (lookup_lt_is_Some_2 s (pred ub)) as [w Hw]; [lia|].
    rewrite Hw. split; [done|]. intros Hall. exfalso.
    specialize (Hall w ltac:(by eapply list_elem_of_lookup_2)).
    apply TsLt_not_le in Hall. apply Hall.
    apply (upper_bound_before (VersionedValue_ts t) s (pred ub) w); [|done]. fold ub. lia.
Qed.

Lemma latest_at_valid s t v : sorted s → latest_at s t = Some v → valid_at s t v.
Proof.
  intros Hs. unfold latest_at. set (ub := upper_bound _ s).
  case_bool_decide as H0; [by rewrite lookup_ge_None_2 by lia|]. intros Hv.
  split_and!; [by eapply list_elem_of_lookup_2| |].
  - apply (upper_bound_before (VersionedValue_ts t) s (pred ub) v); [|done]. fold ub. lia.
  - intros w [j Hj]%list_elem_of_lookup Hwt.
    destruct (decide (j < ub)%nat) as [Hlt|Hge].
    + eapply sorted_lookup_le; [done| |done..]. lia.
    + exfalso. assert (before (VersionedValue_ts t) w) as Hb.
      { eapply upper_bound_after; [done| |done]. fold ub. lia. }
      by apply TsLt_not_le in Hb.
Qed.

Lemma valid_at_unique s t v w : sorted s → valid_at s t v → valid_at s t w → v = w.
Proof.
  intros Hs (Hv & Hvt & Hvmax) (Hw & Hwt & Hwmax).
  eapply sorted_write_inj; [done..|]. apply (anti_symm TsLe); auto.
Qed.

Lemma latest_at_spec s t v : sorted s → latest_at s t = Some v ↔ valid_at s t v.
Proof.
  intros Hs. split; [by apply latest_at_valid|]. intros Hv.
  destruct (latest_at s t) as [w|] eqn:Hw.
  - f_equal. eapply valid_at_unique; [done| |done]. by apply latest_at_valid.
  - destruct Hv as (Hin & Hle & _). rewrite latest_at_None in Hw by done.
    apply Hw in Hin. by apply TsLt_not_le in Hin.
Qed.

Lemma last_sorted_max s v w :
  sorted s → last s = Some v → w ∈ s → write w ≤ₜ write v.
Proof.
  rewrite last_lookup. intros Hs Hv [j Hj]%list_elem_of_lookup.
  eapply sorted_lookup_le; [done| |done..]. apply lookup_lt_Some in Hj. lia.
Qed.

(** Inserting a version later than [t] does not change which version is valid at
    [t]. *)
Lemma latest_at_insert_later s t v :
  sorted s → t <ₜ write v → latest_at (set_insert v s) t = latest_at s t.
Proof.
  intros Hs Hlt. pose proof (set_insert_sorted v s Hs) as Hs'.
  destruct (latest_at s t) as [u|] eqn:Hu.
  - apply latest_at_spec; [done|]. apply latest_at_spec in Hu as (Hin & Hle & Hmax); [|done].
    split_and!; [by apply set_insert_keeps|done|].
    intros w [->|Hw]%elem_of_set_insert Hwt; [|by apply Hmax].
    by apply TsLt_not_le in Hlt.
  - rewrite latest_at_None in Hu |- * by done.
    intros w [->|Hw]%elem_of_set_insert; auto.
Qed.

(** ** Store invariant *)

Definition wf (st : VersionedKVStore) : Prop := ∀ key, sorted (versions st key).

Lemma wf_empty : wf VersionedKVStore_empty.
Proof. intros key. unfold versions. simpl. rewrite lookup_empty. constructor. Qed.

Lemma versions_put key val t st key' :
  versions (put key val t st) key' =
  if decide (key = key') then set_insert (MkVersion t val) (versions st key)
  else versions st key'.
Proof.
  unfold versions at 1, put; simpl. rewrite lookup_insert. by case_decide.
Qed.

Lemma versions_commit key tid st key' :
  versions (commit key tid st).2 key' = versions st key'.
Proof. unfold commit. by repeat case_match. Qed.

Lemma versions_preCommit key tid st key' :
  versions (preCommit key tid st) key' = versions st key'.
Proof. done. Qed.

Lemma versions_commitGet key r c st key' :
  versions (commitGet key r c st) key' = versions st key'.
Proof. unfold commitGet. by repeat case_match. Qed.

Lemma put_wf key val t st : wf st → wf (put key val t st).
Proof.
  intros Hwf key'. rewrite versions_put. case_decide; [|done]. by apply set_insert_sorted.
Qed.

Lemma inStore_spec st key : inStore st key = true ↔ versions st key ≠ [].
Proof.
  unfold inStore, versions. destruct (store st !! key) as [[|v s]|]; simpl; naive_solver.
Qed.

Lemma inStore_false st key : inStore st key = false ↔ versions st key = [].
Proof. rewrite <- not_true_iff_false, inStore_spec. destruct (versions st key); naive_solver. Qed.

Lemma get_at_latest st key t val :
  get_at st key t val =
  match latest_at (versions st key) t with
  | Some v => (true, (write v, value v))
  | None => (false, val)
  end.
Proof.
  unfold get_at, getValue. destruct (inStore st key) eqn:Hin; [done|].
  apply inStore_false in Hin. by rewrite Hin.
Qed.

Lemma get_last st key val :
  get st key val =
  match last (versions st key) with
  | Some v => (true, (write v, value v))
  | None => (false, val)
  end.
Proof.
  unfold get. destruct (inStore st key) eqn:Hin; [done|].
  apply inStore_false in Hin. by rewrite Hin.
Qed.

Create HintDb vstore.
#[export] Hint Resolve wf_empty put_wf : vstore.

(** ** Abstract specification: a history per key

    The promise of the version store to the transaction stores: per key, a finite
    map from write timestamps to values, to which [put] adds an entry unless the
    timestamp is taken, and which the reads query by order. *)

Definition history (st : VersionedKVStore) (key : string) : gmap Timestamp string :=
  list_to_map ((λ v, (write v, value v)) <$> versions st key).

Lemma sorted_NoDup_write s : sorted s → NoDup (write <$> s).
Proof.
  unfold sorted. induction s as [|v s IH]; intros Hs; [constructor|].
  inversion Hs as [|? ? Hs' Hall]; subst. simpl. apply NoDup_cons. split; [|by apply IH].
  intros (w & Heq & Hw)%list_elem_of_fmap. rewrite Forall_forall in Hall.
  specialize (Hall w Hw). unfold before in Hall. rewrite Heq in Hall.
  destruct (irreflexivity TsLt _ Hall).
Qed.

Lemma history_lookup st key t v :
  wf st → history st key !! t = Some v ↔ MkVersion t v ∈ versions st key.
Proof.
  intros Hwf. unfold history. rewrite <- elem_of_list_to_map.
  - rewrite list_elem_of_fmap. split.
    + by intros ([t' v'] & [= -> ->] & Hin).
    + intros Hin. by exists (MkVersion t v).
  - rewrite <- list_fmap_compose. by apply (sorted_NoDup_write _ (Hwf key)).
Qed.

Lemma history_None st key t :
  wf st → history st key !! t = None ↔ ∀ w, w ∈ versions st key → write w ≠ t.
Proof.
  intros Hwf. rewrite eq_None_not_Some. split.
  - intros Hn [t' v] Hin <-. apply Hn. exists v. by apply history_lookup.
  - intros Hn [v Hv%history_lookup]; [|done]. by apply Hn in Hv.
Qed.

Lemma history_put key val t st key' :
  wf st →
  history (put key val t st) key' =
  if decide (key = key') then history st key' ∪ {[t := val]} else history st key'.
Proof.
  intros Hwf. case_decide as Hk; [subst key'|].
  2: { unfold history. by rewrite versions_put, decide_False by done. }
  apply map_eq. intros t'. apply option_eq. intros v.
  rewrite history_lookup by (by apply put_wf). rewrite versions_put, decide_True by done.
  rewrite lookup_union_Some_raw, history_lookup, lookup_singleton_Some by done.
  split.
  - intros Hin. destruct (history st key !! t') as [v'|] eqn:Hh.
    + left. apply history_lookup in Hh; [|done].
      pose proof (set_insert_keeps (MkVersion t val) _ _ Hh) as Hh'.
      pose proof (sorted_write_inj _ _ _ (set_insert_sorted _ _ (Hwf key)) Hh' Hin eq_refl).
      by simplify_eq.
    + right. rewrite history_None in Hh by done.
      apply elem_of_set_insert in Hin as [[= -> ->]|Hin]; [done|].
      by apply Hh in Hin.
  - intros [Hin|(Hnone & -> & ->)]; [by apply set_insert_keeps|].
    apply set_insert_new. by apply history_None.
Qed.

Lemma get_at_history st key t d t' v :
  wf st →
  get_at st key t d = (true, (t', v)) ↔
  history st key !! t' = Some v ∧ t' ≤ₜ t ∧
  ∀ t'', is_Some (history st key !! t'') → t'' ≤ₜ t → t'' ≤ₜ t'.
Proof.
  intros Hwf. rewrite get_at_latest, history_lookup by done. split.
  - destruct (latest_at _ _) as [[tw vw]|] eqn:Hl; [|done]. intros [= <- <-].
    apply latest_at_spec in Hl as (Hin & Hle & Hmax); [|done]. split_and!; [done..|].
    intros t'' [v'' Hv%history_lookup]; [|done]. apply (Hmax _ Hv).
  - intros (Hin & Hle & Hmax).
    assert (latest_at (versions st key) t = Some (MkVersion t' v)) as ->; [|done].
    apply latest_at_spec; [done|]. split_and!; [done..|].
    intros [tw vw] Hw ?. apply Hmax; [|done]. exists vw. by apply history_lookup.
Qed.

Lemma get_history st key d t' v :
  wf st →
  get st key d = (true, (t', v)) ↔
  history st key !! t' = Some v ∧
  ∀ t'', is_Some (history st key !! t'') → t'' ≤ₜ t'.
Proof.
  intros Hwf. rewrite get_last, history_lookup by done. split.
  - destruct (last _) as [[tw vw]|] eqn:Hl; [|done]. intros [= <- <-]. split.
    + by apply last_Some_elem_of in Hl.
    + intros t'' [v'' Hv%history_lookup]; [|done]. apply (last_sorted_max _ _ _ (Hwf key) Hl Hv).
  - intros (Hin & Hmax). destruct (last _) as [[tw vw]|] eqn:Hl.
    + assert (tw = t') as ->.
      { apply (anti_symm TsLe).
        - apply Hmax. exists vw. apply history_lookup; [done|]. by apply last_Some_elem_of.
        - apply (last_sorted_max _ _ _ (Hwf key) Hl Hin). }
      apply last_Some_elem_of in Hl.
      pose proof (sorted_write_inj _ _ _ (Hwf key) Hl Hin eq_refl). by simplify_eq.
    + apply last_None in Hl. rewrite Hl in Hin. set_solver.
Qed.

Lemma get_fails st key d : (get st key d).1 = false ↔ versions st key = [].
Proof.
  rewrite get_last. destruct (last _) as [v|] eqn:Hl; simpl.
  - split; [done|]. intros Hn. by rewrite Hn in Hl.
  - apply last_None in Hl. by rewrite Hl.
Qed.

(** C8: The operations of the version store implement the history specification: [put]
    adds an entry unless the timestamp is already taken (the first write at a
    timestamp wins) and touches no other key; a read at [t] returns exactly the entry
    with the greatest timestamp not above [t], and fails exactly when there is none;
    a plain read returns exactly the entry with the greatest timestamp. *)
Theorem version_store_refines_history (st : VersionedKVStore) (Hwf : wf st) :
  (∀ key val t key', history (put key val t st) key' =
     if decide (key = key') then history st key' ∪ {[t := val]} else history st key') ∧
  (∀ key t d t' v, get_at st key t d = (true, (t', v)) ↔
     history st key !! t' = Some v ∧ t' ≤ₜ t ∧
     ∀ t'', is_Some (history st key !! t'') → t'' ≤ₜ t → t'' ≤ₜ t') ∧
  (∀ key t d, get_at st key t d = (false, d) ↔
     ∀ t'', is_Some (history st key !! t'') → t <ₜ t'') ∧
  (∀ key d t' v, get st key d = (true, (t', v)) ↔
     history st key !! t' = Some v ∧
     ∀ t'', is_Some (history st key !! t'') → t'' ≤ₜ t').
Proof.
  split_and!.
  - intros. by apply history_put.
  - intros. by apply get_at_history.
  - intros. rewrite get_at_latest.
    transitivity (latest_at (versions st key) t = None); [by case_match|].
    rewrite latest_at_None by done. split.
    + intros Hn t'' [v Hv%history_lookup]; [|done]. apply (Hn _ Hv).
    + intros Hn [tw vw] Hw. apply Hn. exists vw. by apply history_lookup.
  - intros. by apply get_history.
Qed.

(** Reads at a timestamp are stable: writing a later version of the key, or any
    version of another key, does not change what a read at [t] returns. *)
Theorem put_preserves_snapshot (st : VersionedKVStore) key val tw key' t d :
  wf st → key' ≠ key ∨ t <ₜ tw →
  get_at (put key val tw st) key' t d = get_at st key' t d.
Proof.
  intros Hwf Hor. rewrite !get_at_latest, versions_put. case_decide as Hk; [subst key'|done].
  destruct Hor as [|Hlt]; [done|]. by rewrite latest_at_insert_later.
Qed.

(** ** Pre-commit lists *)

Definition precommitters (st : VersionedKVStore) (key : string) : list Z :=
  default [] (precommits st !! key).

Lemma erase_tid_filter tid l : erase_tid tid l = filter (λ x, x ≠ tid) l.
Proof.
  induction l as [|x l IH]; simpl; [done|]. rewrite IH, filter_cons.
  destruct (x =? tid) eqn:Hx; case_decide; [lia|done|done|lia].
Qed.

Lemma precommitters_preCommit key tid st key' :
  precommitters (preCommit key tid st) key' =
  if decide (key = key') then precommitters st key ++ [tid] else precommitters st key'.
Proof. unfold precommitters, preCommit; simpl. rewrite lookup_insert. by case_decide. Qed.

Lemma precommitters_put key val t st key' :
  precommitters (put key val t st) key' = precommitters st key'.
Proof. done. Qed.

Lemma precommitters_commit key tid st key' :
  precommitters (commit key tid st).2 key' =
  if decide (key = key' ∧ inStore st key = true) then erase_tid tid (precommitters st key)
  else precommitters st key'.
Proof.
  unfold precommitters, commit.
  destruct (inStore st key) eqn:Hin; [|rewrite decide_False; naive_solver].
  destruct (precommits st !! key) as [l|] eqn:Hp; simpl.
  - rewrite lookup_insert. repeat case_decide; naive_solver.
  - case_decide as Hk; [|done]. destruct Hk as [-> _]. by rewrite Hp.
Qed.

Lemma inStore_put key val t st key' :
  inStore (put key val t st) key' = bool_decide (key = key') || inStore st key'.
Proof.
  apply eq_bool_prop_intro. rewrite !Is_true_true, orb_true_iff, !inStore_spec, versions_put.
  case_decide; [rewrite bool_decide_true by done|rewrite bool_decide_false by done]; [|naive_solver].
  split; [by left|]. intros _. destruct (versions st key); simpl; repeat case_match; done.
Qed.

Lemma get_dep_cases st key val tid :
  get_dep st key val tid =
  if inStore st key then
    match last (precommitters st key) with
    | Some t => (true, val, t)
    | None => (get st key val, 0)
    end
  else (false, val, tid).
Proof.
  unfold get_dep, get, precommitters. destruct (inStore st key) eqn:Hin; [|done].
  destruct (last (default [] _)); [done|]. destruct (last (versions st key)) eqn:Hl; [done|].
  apply last_None in Hl. apply inStore_spec in Hin. done.
Qed.

(** Visibility of a pre-committed write: from [preCommit] on, a dependent read of the
    key reports that transaction (and leaves the value for the caller to fetch); once
    the write is installed and committed, and no other transaction is pre-committed on
    the key, the read returns the installed value with no dependency. *)
Theorem precommit_visibility st key tid val t d x :
  wf st → inStore st key = true → precommitters st key = [] →
  (∀ t', is_Some (history st key !! t') → t' <ₜ t) →
  get_dep (preCommit key tid st) key d x = (true, d, tid) ∧
  get_dep (commit key tid (put key val t (preCommit key tid st))).2 key d x
    = (true, (t, val), 0).
Proof.
  intros Hwf Hin Hnone Hnew. rewrite !get_dep_cases. split.
  { replace (inStore (preCommit key tid st) key) with true by done.
    by rewrite precommitters_preCommit, decide_True, last_snoc. }
  set (st' := put key val t (preCommit key tid st)).
  assert (inStore st' key = true) as Hin'.
  { unfold st'. by rewrite inStore_put, bool_decide_true by done. }
  assert (inStore (commit key tid st').2 key = true) as ->.
  { apply inStore_spec. rewrite versions_commit. by apply inStore_spec. }
  rewrite precommitters_commit, decide_True by done.
  unfold st' at 1. rewrite precommitters_put, precommitters_preCommit, decide_True, Hnone by done.
  simpl. rewrite Z.eqb_refl. simpl. f_equal.
  assert (get (commit key tid st').2 key d = get st' key d) as ->.
  { by rewrite !get_last, versions_commit. }
  apply get_history; [by apply put_wf|]. unfold st'.
  assert (history (put key val t (preCommit key tid st)) key = history st key ∪ {[t := val]}) as ->.
  { by rewrite history_put, decide_True by done. }
  assert (history st key !! t = None) as Hfresh.
  { apply eq_None_not_Some. intros Hs%Hnew. destruct (irreflexivity TsLt _ Hs). }
  split.
  - by rewrite lookup_union_r, lookup_singleton_eq.
  - intros t' [v Hv]. apply lookup_union_Some_raw in Hv as [Hv|[_ Hv]].
    + right. apply Hnew. by eexists.
    + apply lookup_singleton_Some in Hv as [-> _]. done.
Qed.

(** ** Reachable stores *)

Inductive vstep : VersionedKVStore → VersionedKVStore → Prop :=
| vstep_put st key val t : vstep st (put key val t st)
| vstep_commitGet st key r c : vstep st (commitGet key r c st)
| vstep_preCommit st key tid : vstep st (preCommit key tid st)
| vstep_commit st key tid : vstep st (commit key tid st).2.

Definition vreachable (st : VersionedKVStore) : Prop := rtc vstep VersionedKVStore_empty st.

Lemma commitGet_lastReads_empty key r c st :
  lastReads st = ∅ → commitGet key r c st = st.
Proof.
  intros Hl. unfold commitGet. rewrite Hl, lookup_empty. by repeat case_match.
Qed.

Lemma commit_lastReads key tid st : lastReads (commit key tid st).2 = lastReads st.
Proof. unfold commit. by repeat case_match. Qed.

Lemma vreachable_inv st : vreachable st → wf st ∧ lastReads st = ∅.
Proof.
  unfold vreachable. apply (rtc_ind_r (λ s, wf s ∧ lastReads s = ∅)).
  { split; [apply wf_empty|done]. }
  intros s1 s2 _ Hstep [Hwf Hl]. destruct Hstep as [st0 key val t|st0 key r c|st0 key tid|st0 key tid].
  - split; [by apply put_wf|done].
  - by rewrite commitGet_lastReads_empty.
  - done.
  - split; [|by rewrite commit_lastReads]. intros key'. by rewrite versions_commit.
Qed.

(** [commitGet] has no branch that records the first read of a version, so on every
    store built by the operations of the class it changes nothing, and both forms of
    [getLastRead] report that no read was ever committed. *)
Theorem last_reads_never_recorded (st : VersionedKVStore) :
  vreachable st →
  (∀ key r c, commitGet key r c st = st) ∧
  (∀ key d, getLastRead st key d = (false, d)) ∧
  (∀ key t d, getLastRead_at st key t d = Ok (false, d)).
Proof.
  intros [_ Hl]%vreachable_inv. split_and!.
  - intros. by apply commitGet_lastReads_empty.
  - intros. unfold getLastRead. rewrite Hl, lookup_empty. by repeat case_match.
  - intros. unfold getLastRead_at. rewrite Hl, lookup_empty. by repeat case_match.
Qed.

(** Writes and commits of different keys commute; the transaction stores install a
    write set in hash order. *)
Definition install (ts id : Z) (st : VersionedKVStore) (w : string * string) : VersionedKVStore :=
  (commit w.1 id (put w.1 w.2 (Timestamp1 ts) st)).2.

Lemma VersionedKVStore_ext st st' :
  (∀ k, store st !! k = store st' !! k) → lastReads st = lastReads st' →
  (∀ k, precommits st !! k = precommits st' !! k) → st = st'.
Proof.
  destruct st, st'; simpl. intros Hs -> Hp. f_equal; by apply map_eq.
Qed.

Lemma install_store ts id st w k :
  store (install ts id st w) !! k =
  if decide (w.1 = k) then Some (set_insert (MkVersion (Timestamp1 ts) w.2) (versions st k))
  else store st !! k.
Proof.
  unfold install, commit. rewrite inStore_put, bool_decide_true by done; simpl.
  destruct w as [k' v]; simpl. case_match; simpl; rewrite lookup_insert; by case_decide; subst.
Qed.

Lemma install_precommits ts id st w k :
  precommits (install ts id st w) !! k =
  if decide (w.1 = k) then erase_tid id <$> precommits st !! k else precommits st !! k.
Proof.
  unfold install, commit. rewrite inStore_put, bool_decide_true by done; simpl.
  destruct w as [k' v]; simpl. case_match eqn:Hp; simpl.
  - rewrite lookup_insert. case_decide; subst; [by rewrite Hp|done].
  - case_decide; subst; [by rewrite Hp|done].
Qed.

Lemma install_lastReads ts id st w : lastReads (install ts id st w) = lastReads st.
Proof. unfold install. by rewrite commit_lastReads. Qed.

Lemma install_versions ts id st w k :
  versions (install ts id st w) k =
  if decide (w.1 = k) then set_insert (MkVersion (Timestamp1 ts) w.2) (versions st k)
  else versions st k.
Proof. unfold versions at 1. rewrite install_store. by case_decide. Qed.

Lemma install_wf ts id st w : wf st → wf (install ts id st w).
Proof.
  intros Hwf k. rewrite install_versions. case_decide; [|done]. by apply set_insert_sorted.
Qed.

Lemma install_comm ts id st w w' :
  w.1 ≠ w'.1 → install ts id (install ts id st w) w' = install ts id (install ts id st w') w.
Proof.
  intros Hne. apply VersionedKVStore_ext.
  - intros k. rewrite !install_store, !install_versions.
    repeat case_decide; subst; congruence.
  - by rewrite !install_lastReads.
  - intros k. rewrite !install_precommits. repeat case_decide; subst; congruence.
Qed.

(** ** Concrete instances *)

Definition demo_store : VersionedKVStore :=
  put "k" "b" (Timestamp1 5) (put "k" "a" (Timestamp1 1) VersionedKVStore_empty).

Lemma demo_store_wf : wf demo_store.
Proof. unfold demo_store. auto with vstore. Qed.

Lemma version_store_refines_history_witness :
  wf demo_store ∧
  get_at demo_store "k" (Timestamp1 3) (Timestamp0, "") = (true, (Timestamp1 1, "a")) ∧
  get demo_store "k" (Timestamp0, "") = (true, (Timestamp1 5, "b")) ∧
  history (put "k" "c" (Timestamp1 5) demo_store) "k" = history demo_store "k" ∪ {[Timestamp1 5 := "c"]}.
Proof.
  pose proof (version_store_refines_history demo_store demo_store_wf) as (Hput & _).
  split_and!; [apply demo_store_wf|vm_compute; reflexivity..|].
  by rewrite Hput, decide_True.
Defined.

Lemma put_preserves_snapshot_witness :
  wf demo_store ∧
  get_at (put "k" "c" (Timestamp1 9) demo_store) "k" (Timestamp1 5) (Timestamp0, "")
  = (true, (Timestamp1 5, "b")).
Proof.
  split; [apply demo_store_wf|].
  rewrite (put_preserves_snapshot demo_store "k" "c" (Timestamp1 9) "k" (Timestamp1 5) (Timestamp0, "")
             demo_store_wf (or_intror (proj1 (ts_lt_spec (Timestamp1 5) (Timestamp1 9)) eq_refl))).
  vm_compute. reflexivity.
Defined.

Lemma demo_store_history_bound t' :
  is_Some (history demo_store "k" !! t') → t' <ₜ Timestamp1 9.
Proof.
  intros [v Hv]. apply history_lookup in Hv; [|apply demo_store_wf].
  assert (versions demo_store "k" = [MkVersion (Timestamp1 1) "a"; MkVersion (Timestamp1 5) "b"])
    as Hvs by (vm_compute; reflexivity).
  rewrite Hvs in Hv.
  rewrite !elem_of_cons in Hv. destruct Hv as [[= -> _]|[[= -> _]|Hv]]; [left; simpl; lia..|].
  by apply not_elem_of_nil in Hv.
Qed.

Lemma precommit_visibility_witness :
  get_dep (preCommit "k" 4 demo_store) "k" (Timestamp0, "") 0 = (true, (Timestamp0, ""), 4) ∧
  get_dep (commit "k" 4 (put "k" "c" (Timestamp1 9) (preCommit "k" 4 demo_store))).2
    "k" (Timestamp0, "") 0 = (true, (Timestamp1 9, "c"), 0).
Proof.
  apply (precommit_visibility demo_store "k" 4 "c" (Timestamp1 9) (Timestamp0, "") 0
           demo_store_wf eq_refl eq_refl demo_store_history_bound).
Defined.

Lemma last_reads_never_recorded_witness :
  vreachable demo_store ∧
  getLastRead (commitGet "k" (Timestamp1 5) (Timestamp1 6) demo_store) "k" Timestamp0
  = (false, Timestamp0).
Proof.
  assert (vreachable demo_store) as Hr.
  { eapply rtc_l; [apply (vstep_put _ "k" "a" (Timestamp1 1))|].
    eapply rtc_once. apply (vstep_put _ "k" "b" (Timestamp1 5)). }
  split; [done|].
  destruct (last_reads_never_recorded demo_store Hr) as (Hc & Hg & _).
  by rewrite Hc, Hg.
Defined.
