(* ===== verification/LockServer.v ===== *)
(** The lock manager of the two-phase-locking store:
    [store/common/backend/lockserver.h] and [lockserver.cc].

    A multi-reader, single-writer lock per key, with a FIFO queue of waiting
    requesters whose entries expire.  [gettimeofday] reads the next value of a
    [Clock]; the number of readings taken so far is part of the state, so that
    different calls see different, arbitrary times.  The [ASSERT]s expand to nothing
    in the build ([-DNASSERT] in the Makefile) and are not part of the definitions;
    the conditions they state are consequences of the invariant proved below, except
    where a comment says otherwise. *)

From S2P Require Import Prelude.

Definition LOCK_WAIT_TIMEOUT : Z := 5000.

Record timeval := MkTimeval { tv_sec : Z; tv_usec : Z }.

(** The values successive calls of [gettimeofday] return. *)
Class Clock := clock : nat → timeval.

(** [enum LockState]. *)
Inductive LockState :=
| UNLOCKED
| LOCKED_FOR_READ
| LOCKED_FOR_WRITE
| LOCKED_FOR_READ_WRITE.

#[global] Instance LockState_eq_dec : EqDecision LockState.
Proof. solve_decision. Defined.

(** [struct Waiter]; the default constructor leaves [waitTime] indeterminate. *)
Record Waiter := MkWaiter { w_write : bool; waitTime : option timeval }.

Definition Waiter_default : Waiter := MkWaiter false None.

(** [struct Lock]. *)
Record Lock := MkLock {
  state : LockState;
  holders : gset Z;
  waitQ : list Z;
  waiters : gmap Z Waiter
}.

#[global] Instance Lock_eta : Eta Lock := λ l, MkLock (state l) (holders l) (waitQ l) (waiters l).

Definition Lock_new : Lock := MkLock UNLOCKED ∅ [] ∅.

(** [class LockServer]. *)
Record LockServer := MkLockServer {
  locks : gmap string Lock;
  readers : Z;
  writers : Z;
  ticks : nat
}.

#[global] Instance LockServer_eta : Eta LockServer := λ s,
  MkLockServer (locks s) (readers s) (writers s) (ticks s).

Definition LockServer_new : LockServer := MkLockServer ∅ 0 0 0.

Section lock_server.
Context `{Clock}.

Definition checkTimeout (w : Waiter) (now : timeval) : res bool :=
  match waitTime w with
  | None => Undefined
  | Some wt =>
      if tv_sec now >? tv_sec wt then Ok true
      else if tv_usec now - tv_usec wt >? LOCK_WAIT_TIMEOUT then Ok true
      else Ok false
  end.

Definition waitForLock (requester : Z) (write : bool) (l : Lock) (t : nat) : Lock * nat :=
  match waiters l !! requester with
  | Some _ => (l, t)
  | None =>
      (l <| waiters ::= <[requester := MkWaiter write (Some (clock t))]> |>
         <| waitQ ::= (λ q, q ++ [requester]) |>, S t)
  end.

(** The loop that drops expired requests from the front of the queue, common to
    [tryAcquireLock] and [isWriteNext]; [waiters[w]] inserts a default entry when
    there is none. *)
Fixpoint prune (now : timeval) (q : list Z) (ws : gmap Z Waiter) : res (list Z * gmap Z Waiter) :=
  match q with
  | [] => Ok ([], ws)
  | w :: q' =>
      let waiter := default Waiter_default (ws !! w) in
      let ws' := <[w := waiter]> ws in
      expired ← checkTimeout waiter now;
      if (expired : bool) then prune now q' (delete w ws') else Ok (w :: q', ws')
  end.

Definition tryAcquireLock (requester : Z) (write : bool) (l : Lock) (t : nat) :
    res (bool * Lock * nat) :=
  match waitQ l with
  | [] => Ok (true, l, t)
  | _ =>
      '(q, ws) ← prune (clock t) (waitQ l) (waiters l);
      let l' := l <| waitQ := q |> <| waiters := ws |> in
      match q with
      | [] => Ok (true, l', S t)
      | w :: q' =>
          if w =? requester
          then Ok (true, l' <| waitQ := q' |> <| waiters ::= delete requester |>, S t)
          else let '(l'', t') := waitForLock requester write l' (S t) in Ok (false, l'', t')
      end
  end.

Definition isWriteNext (l : Lock) (t : nat) : res (bool * Lock * nat) :=
  match waitQ l with
  | [] => Ok (false, l, t)
  | _ =>
      '(q, ws) ← prune (clock t) (waitQ l) (waiters l);
      let l' := l <| waitQ := q |> <| waiters := ws |> in
      match q with
      | [] => Ok (false, l', S t)
      | w :: _ =>
          let waiter := default Waiter_default (ws !! w) in
          Ok (w_write waiter, l' <| waiters ::= <[w := waiter]> |>, S t)
      end
  end.

Definition put_lock (lock : string) (l : Lock) (t : nat) (s : LockServer) : LockServer :=
  s <| locks ::= <[lock := l]> |> <| ticks := t |>.

Definition lockForRead (lock : string) (requester : Z) (s : LockServer) :
    res (bool * LockServer) :=
  let l := default Lock_new (locks s !! lock) in
  match state l with
  | UNLOCKED =>
      '(acquired, l', t) ← tryAcquireLock requester false l (ticks s);
      if (acquired : bool) then
        let l'' := l' <| state := LOCKED_FOR_READ |> <| holders ::= union {[requester]} |> in
        Ok (true, put_lock lock l'' t s <| readers ::= u64_incr |>)
      else Ok (false, put_lock lock l' t s)
  | LOCKED_FOR_READ =>
      if decide (requester ∈ holders l) then Ok (true, put_lock lock l (ticks s) s)
      else
        '(write_next, l', t) ← isWriteNext l (ticks s);
        if (write_next : bool) then
          let '(l'', t') := waitForLock requester false l' t in
          Ok (false, put_lock lock l'' t' s)
        else
          let l'' := l' <| holders ::= union {[requester]} |> in
          Ok (true, put_lock lock l'' t s <| readers ::= u64_incr |>)
  | LOCKED_FOR_WRITE | LOCKED_FOR_READ_WRITE =>
      if decide (requester ∈ holders l) then
        let l' := l <| state := LOCKED_FOR_READ_WRITE |> in
        Ok (true, put_lock lock l' (ticks s) s <| readers ::= u64_incr |>)
      else
        let '(l', t) := waitForLock requester false l (ticks s) in
        Ok (false, put_lock lock l' t s)
  end.

Definition lockForWrite (lock : string) (requester : Z) (s : LockServer) :
    res (bool * LockServer) :=
  let l := default Lock_new (locks s !! lock) in
  match state l with
  | UNLOCKED =>
      '(acquired, l', t) ← tryAcquireLock requester true l (ticks s);
      if (acquired : bool) then
        let l'' := l' <| state := LOCKED_FOR_WRITE |> <| holders ::= union {[requester]} |> in
        Ok (true, put_lock lock l'' t s <| writers ::= u64_incr |>)
      else Ok (false, put_lock lock l' t s)
  | LOCKED_FOR_READ =>
      if decide (size (holders l) = 1%nat ∧ requester ∈ holders l) then
        let l' := l <| state := LOCKED_FOR_READ_WRITE |> in
        Ok (true, put_lock lock l' (ticks s) s <| writers ::= u64_incr |>)
      else
        let '(l', t) := waitForLock requester true l (ticks s) in
        Ok (false, put_lock lock l' t s)
  | LOCKED_FOR_WRITE | LOCKED_FOR_READ_WRITE =>
      if decide (requester ∈ holders l) then Ok (true, put_lock lock l (ticks s) s)
      else
        let '(l', t) := waitForLock requester true l (ticks s) in
        Ok (false, put_lock lock l' t s)
  end.
End lock_server.

Definition releaseForRead (lock : string) (holder : Z) (s : LockServer) : LockServer :=
  match locks s !! lock with
  | None => s
  | Some l =>
      if decide (holder ∈ holders l) then
        match state l with
        | UNLOCKED | LOCKED_FOR_WRITE => s
        | LOCKED_FOR_READ =>
            let l' := l <| holders ::= (λ h, h ∖ {[holder]}) |> in
            let l'' := if decide (holders l' = ∅) then l' <| state := UNLOCKED |> else l' in
            s <| readers ::= u64_decr |> <| locks ::= <[lock := l'']> |>
        | LOCKED_FOR_READ_WRITE =>
            s <| readers ::= u64_decr |>
              <| locks ::= <[lock := l <| state := LOCKED_FOR_WRITE |>]> |>
        end
      else s
  end.

Definition releaseForWrite (lock : string) (holder : Z) (s : LockServer) : LockServer :=
  match locks s !! lock with
  | None => s
  | Some l =>
      if decide (holder ∈ holders l) then
        match state l with
        | UNLOCKED | LOCKED_FOR_READ => s
        | LOCKED_FOR_WRITE =>
            let l' := l <| holders ::= (λ h, h ∖ {[holder]}) |> <| state := UNLOCKED |> in
            s <| writers ::= u64_decr |> <| locks ::= <[lock := l']> |>
        | LOCKED_FOR_READ_WRITE =>
            s <| writers ::= u64_decr |>
              <| locks ::= <[lock := l <| state := LOCKED_FOR_READ |>]> |>
        end
      else s
  end.

(** ** Invariant *)

(** The queue and the table of waiters describe the same set of requesters, each
    queued once and with a known waiting time. *)
Record wf_queue (q : list Z) (ws : gmap Z Waiter) : Prop := {
  queue_nodup : NoDup q;
  queue_waiters : ∀ w, w ∈ q ↔ is_Some (ws !! w);
  queue_times : ∀ w x, ws !! w = Some x → is_Some (waitTime x)
}.

Record wf_lock (l : Lock) : Prop := {
  wf_free : state l = UNLOCKED ↔ holders l = ∅;
  wf_exclusive : state l = LOCKED_FOR_WRITE ∨ state l = LOCKED_FOR_READ_WRITE →
    size (holders l) = 1%nat;
  wf_waiting : wf_queue (waitQ l) (waiters l)
}.

Definition lock_of (s : LockServer) (k : string) : Lock := default Lock_new (locks s !! k).

Definition wf (s : LockServer) : Prop := ∀ k, wf_lock (lock_of s k).

(** ** Abstract specification: a readers-writer lock per key *)

Definition lock_readers (l : Lock) : gset Z :=
  match state l with LOCKED_FOR_READ | LOCKED_FOR_READ_WRITE => holders l | _ => ∅ end.

Definition lock_writers (l : Lock) : gset Z :=
  match state l with LOCKED_FOR_WRITE | LOCKED_FOR_READ_WRITE => holders l | _ => ∅ end.

Definition read_held (s : LockServer) (k : string) : gset Z := lock_readers (lock_of s k).
Definition write_held (s : LockServer) (k : string) : gset Z := lock_writers (lock_of s k).

Lemma wf_queue_nil : wf_queue [] ∅.
Proof.
  split; [constructor| |by intros ? ? ?%lookup_empty_Some].
  intros w. rewrite lookup_empty. split; [by intros ?%not_elem_of_nil|by intros [? [=]]].
Qed.

Lemma wf_Lock_new : wf_lock Lock_new.
Proof. split; [done|by intros [|]|apply wf_queue_nil]. Qed.

Lemma wf_new : wf LockServer_new.
Proof. intros k. unfold lock_of; simpl. rewrite lookup_empty. apply wf_Lock_new. Qed.

Lemma wf_queue_pop w q ws : wf_queue (w :: q) ws → wf_queue q (delete w ws).
Proof.
  intros [[Hw Hq]%NoDup_cons Hws Ht]. split; [done| |].
  - intros u. rewrite lookup_delete_is_Some, <- Hws, elem_of_cons. split.
    + intros Hu. split; [|by right]. intros ->. done.
    + intros [Hne [->|?]]; done.
  - intros u x [_ Hx]%lookup_delete_Some. by eapply Ht.
Qed.

Lemma wf_queue_push q ws r b now :
  wf_queue q ws → ws !! r = None → wf_queue (q ++ [r]) (<[r := MkWaiter b (Some now)]> ws).
Proof.
  intros [Hq Hws Ht] Hr. split.
  - apply NoDup_app. split_and!; [done| |apply NoDup_singleton].
    intros w Hw ->%list_elem_of_singleton. apply Hws in Hw as [? Hw]. congruence.
  - intros w. rewrite elem_of_app, list_elem_of_singleton, lookup_insert_is_Some', Hws.
    split; intros [|]; auto.
  - intros w x [[<- <-]|[_ Hx]]%lookup_insert_Some; [by eexists|by eapply Ht].
Qed.

Lemma wf_queue_front q w ws : wf_queue (w :: q) ws → ∃ x wt, ws !! w = Some x ∧ waitTime x = Some wt.
Proof.
  intros [_ Hws Ht]. destruct (proj1 (Hws w)) as [x Hx]; [set_solver|].
  destruct (Ht _ _ Hx) as [wt ?]. eauto.
Qed.

Lemma prune_wf now q ws :
  wf_queue q ws →
  ∃ q' ws', prune now q ws = Ok (q', ws') ∧ wf_queue q' ws' ∧ q' `suffix_of` q.
Proof.
  revert ws. induction q as [|w q IH]; intros ws Hwf; simpl.
  { exists [], ws. split_and!; [done..|]. by exists []. }
  destruct (wf_queue_front _ _ _ Hwf) as (x & wt & Hx & Hwt).
  rewrite Hx; simpl. rewrite (insert_id ws w x) by done.
  unfold checkTimeout. rewrite Hwt.
  assert (∃ b, (if tv_sec now >? tv_sec wt then Ok true
    else if tv_usec now - tv_usec wt >? LOCK_WAIT_TIMEOUT then Ok true else Ok false) = Ok b)
    as [b ->] by (repeat case_match; eauto).
  simpl. destruct b.
  - destruct (IH (delete w ws)) as (q' & ws' & Hp & Hwf' & Hsuf); [by apply wf_queue_pop|].
    exists q', ws'. split_and!; [done..|]. by apply suffix_cons_r.
  - exists (w :: q), ws. split_and!; done.
Qed.

(** What the queue operations keep: who holds the lock and in which mode. *)
Definition same_holders (l l' : Lock) : Prop := state l' = state l ∧ holders l' = holders l.

Definition queue_step (r : Z) (refused : bool) (l l' : Lock) : Prop :=
  wf_queue (waitQ l') (waiters l') ∧ same_holders l l' ∧ (refused = true → r ∈ waitQ l').

Section operations.
Context `{Clock}.

Lemma waitForLock_spec r b l t :
  wf_queue (waitQ l) (waiters l) →
  queue_step r true l (waitForLock r b l t).1.
Proof.
  intros Hwf. unfold waitForLock. destruct (waiters l !! r) as [x|] eqn:Hr; simpl.
  - split_and!; [done..|]. intros _. apply (queue_waiters _ _ Hwf). by eexists.
  - split_and!; simpl; [by apply wf_queue_push|done..|]. intros _. set_solver.
Qed.

Lemma tryAcquireLock_spec r b l t :
  wf_queue (waitQ l) (waiters l) →
  ∃ acquired l' t', tryAcquireLock r b l t = Ok (acquired, l', t') ∧
    queue_step r (negb acquired) l l'.
Proof.
  intros Hwf. unfold tryAcquireLock. destruct (waitQ l) as [|w0 q0] eqn:Hq.
  { exists true, l, t. split; [done|]. unfold queue_step, same_holders. by rewrite Hq. }
  destruct (prune_wf (clock t) _ _ Hwf) as (q & ws & -> & Hwf' & _); simpl.
  destruct q as [|w q]; [eexists _, _, _; split; [done|]; by split_and!|].
  destruct (w =? r) eqn:Hw.
  - apply Z.eqb_eq in Hw as ->. eexists _, _, _. split; [done|].
    split_and!; [by apply wf_queue_pop|done..].
  - destruct (waitForLock _ _ _ _) as [l'' t'] eqn:Hwait. eexists _, _, _. split; [done|].
    apply (waitForLock_spec r b (MkLock (state l) (holders l) (w :: q) ws) (S t)) in Hwf'.
    simpl in Hwait. by rewrite Hwait in Hwf'.
Qed.

Lemma isWriteNext_spec r l t :
  wf_queue (waitQ l) (waiters l) →
  ∃ b l' t', isWriteNext l t = Ok (b, l', t') ∧ queue_step r false l l'.
Proof.
  intros Hwf. unfold isWriteNext. destruct (waitQ l) as [|w0 q0] eqn:Hq.
  { exists false, l, t. split; [done|]. unfold queue_step, same_holders. by rewrite Hq. }
  destruct (prune_wf (clock t) _ _ Hwf) as (q & ws & -> & Hwf' & _); simpl.
  destruct q as [|w q]; [eexists _, _, _; split; [done|]; by split_and!|].
  destruct (wf_queue_front _ _ _ Hwf') as (x & ? & Hx & _).
  eexists _, _, _. split; [done|]. split_and!; simpl; [|done..].
  by rewrite Hx, insert_id.
Qed.
End operations.

Lemma lock_of_put_lock k l t s k' :
  lock_of (put_lock k l t s) k' = if decide (k = k') then l else lock_of s k'.
Proof. unfold lock_of, put_lock; simpl. rewrite lookup_insert. by case_decide. Qed.

Lemma lock_of_readers (f : Z → Z) s k : lock_of (s <| readers ::= f |>) k = lock_of s k.
Proof. done. Qed.

Lemma lock_of_writers (f : Z → Z) s k : lock_of (s <| writers ::= f |>) k = lock_of s k.
Proof. done. Qed.

Create HintDb lock.
Create Rewrite HintDb lock.
#[export] Hint Rewrite lock_of_readers lock_of_writers lock_of_put_lock : lock.

Lemma size_1_elem (X : gset Z) x : size X = 1%nat → x ∈ X → X = {[x]}.
Proof.
  intros Hs Hx. apply size_1_elem_of in Hs as [y Hy]. set_solver.
Qed.

(** The state after an operation on lock [k] that leaves lock [l'] there. *)
Definition lock_step (k : string) (s s' : LockServer) (l' : Lock) : Prop :=
  lock_of s' k = l' ∧ ∀ k', k ≠ k' → lock_of s' k' = lock_of s k'.

Lemma lock_step_wf k s s' l' : wf s → wf_lock l' → lock_step k s s' l' → wf s'.
Proof.
  intros Hwf Hl [Hk Hother] k'. destruct (decide (k = k')) as [<-|Hne]; [by rewrite Hk|].
  by rewrite Hother.
Qed.

Lemma wf_lock_queue l l' :
  wf_lock l → wf_queue (waitQ l') (waiters l') → same_holders l l' → wf_lock l'.
Proof. intros [? ? _] ? [Hs Hh]. split; rewrite ?Hs, ?Hh; done. Qed.

Lemma same_holders_views l l' :
  same_holders l l' → lock_readers l' = lock_readers l ∧ lock_writers l' = lock_writers l.
Proof. intros [Hs Hh]. unfold lock_readers, lock_writers. by rewrite Hs, Hh. Qed.

(** The outcome of a lock request on [k] by [r]: granted with the views of the lock
    updated by [rd] and [wr], or refused with the views unchanged and [r] queued. *)
Definition lock_outcome (k : string) (r : Z) (rd wr : gset Z → gset Z)
    (s : LockServer) (b : bool) (s' : LockServer) : Prop :=
  wf s' ∧ (∀ k', k ≠ k' → lock_of s' k' = lock_of s k') ∧
  read_held s' k = (if b then rd else id) (read_held s k) ∧
  write_held s' k = (if b then wr else id) (write_held s k) ∧
  (b = false → r ∈ waitQ (lock_of s' k)).

(** A lock step whose new lock is well formed and has the expected views. *)
Lemma lock_outcome_intro k r rd wr s (b : bool) s' l' :
  wf s → wf_lock l' → lock_step k s s' l' →
  lock_readers l' = (if b then rd else id) (read_held s k) →
  lock_writers l' = (if b then wr else id) (write_held s k) →
  (b = false → r ∈ waitQ l') →
  lock_outcome k r rd wr s b s'.
Proof.
  intros Hwf Hl Hstep Hr Hw Hq. pose proof Hstep as [Hk Hother].
  split_and!; [by eapply lock_step_wf|done|..]; unfold read_held, write_held in *; by rewrite Hk.
Qed.

Lemma lock_outcome_refused k r rd wr s s' l' :
  wf s → queue_step r true (lock_of s k) l' → lock_step k s s' l' →
  lock_outcome k r rd wr s false s'.
Proof.
  intros Hwf (Hq & Hsame & Hr) Hstep.
  destruct (same_holders_views _ _ Hsame) as [Hrd Hwr].
  apply (lock_outcome_intro k r rd wr s false s' l'); [done| |done..|auto].
  by eapply wf_lock_queue.
Qed.

Lemma put_lock_step k l t s : lock_step k s (put_lock k l t s) l.
Proof.
  split; [|intros k' ?]; autorewrite with lock; [by rewrite decide_True|by rewrite decide_False].
Qed.

Lemma put_lock_step_readers k l t s (f : Z → Z) : lock_step k s (put_lock k l t s <| readers ::= f |>) l.
Proof. apply put_lock_step. Qed.

Lemma put_lock_step_writers k l t s (f : Z → Z) : lock_step k s (put_lock k l t s <| writers ::= f |>) l.
Proof. apply put_lock_step. Qed.

#[export] Hint Resolve put_lock_step put_lock_step_readers put_lock_step_writers : lock.

Section lock_specs.
Context `{Clock}.
Implicit Types (s : LockServer) (k : string) (r : Z).

Lemma wait_refused k r b rd wr s :
  wf s →
  let '(l', t) := waitForLock r b (lock_of s k) (ticks s) in
  lock_outcome k r rd wr s false (put_lock k l' t s).
Proof.
  intros Hwf. pose proof (waitForLock_spec r b (lock_of s k) (ticks s)
    (wf_waiting _ (Hwf k))) as Hw.
  destruct (waitForLock _ _ _ _) as [l' t]. eapply lock_outcome_refused; eauto with lock.
Qed.

(** The request succeeds without touching the queue: the lock becomes [l']. *)
Lemma lock_granted k r rd wr s s' l' :
  wf s → lock_step k s s' l' → wf_queue (waitQ l') (waiters l') →
  (state l' = UNLOCKED ↔ holders l' = ∅) →
  (state l' = LOCKED_FOR_WRITE ∨ state l' = LOCKED_FOR_READ_WRITE → size (holders l') = 1%nat) →
  lock_readers l' = rd (read_held s k) → lock_writers l' = wr (write_held s k) →
  lock_outcome k r rd wr s true s'.
Proof. intros. eapply lock_outcome_intro; [done|by split|done..]. Qed.

Lemma lockForRead_shared k r s :
  wf s → state (lock_of s k) = LOCKED_FOR_READ →
  ∃ b s', lockForRead k r s = Ok (b, s') ∧ lock_outcome k r (union {[r]}) id s b s'.
Proof.
  intros Hwf Hst. pose proof (Hwf k) as Hl.
  unfold lockForRead. fold (lock_of s k). rewrite Hst. case_decide as Hin.
  - eexists true, _. split; [done|].
    eapply lock_outcome_intro; [done| |apply put_lock_step|..]; [done| |done..].
    unfold read_held, lock_readers. rewrite Hst. set_solver.
  - destruct (isWriteNext_spec r (lock_of s k) (ticks s) (wf_waiting _ Hl))
      as ([] & l' & t & -> & Hq & [Hs Hh] & _); simpl.
    + pose proof (waitForLock_spec r false l' t Hq) as (Hq' & [Hs' Hh'] & Hr').
      destruct (waitForLock r false l' t) as [l'' t'] eqn:Hwait. eexists false, _. split; [done|].
      eapply lock_outcome_refused; [done| |apply put_lock_step].
      split_and!; [done| |done]. split; simpl in *; congruence.
    + eexists true, _. split; [done|].
      eapply lock_granted; [done|apply put_lock_step_readers|..]; simpl; rewrite ?Hs, ?Hst;
        [done|split; [done|set_solver]|by intros [|]|..].
      * unfold read_held, lock_readers; simpl. by rewrite ?Hs, ?Hst, ?Hh.
      * unfold write_held, lock_writers; simpl. by rewrite ?Hs, ?Hst.
Qed.

Lemma lockForRead_exclusive k r s :
  wf s → state (lock_of s k) = LOCKED_FOR_WRITE ∨ state (lock_of s k) = LOCKED_FOR_READ_WRITE →
  ∃ b s', lockForRead k r s = Ok (b, s') ∧ lock_outcome k r (union {[r]}) id s b s'.
Proof.
  intros Hwf Hst. pose proof (Hwf k) as Hl.
  pose proof (wait_refused k r false (union {[r]}) id s Hwf) as Hw.
  pose proof (wf_exclusive _ Hl Hst) as Hsize.
  assert (r ∈ holders (lock_of s k) → lock_outcome k r (union {[r]}) id s true
    (put_lock k (lock_of s k <| state := LOCKED_FOR_READ_WRITE |>) (ticks s) s
      <| readers ::= u64_incr |>)) as Hgrant.
  { intros Hin. pose proof (size_1_elem _ _ Hsize Hin) as Hone.
    eapply lock_granted; [done|apply put_lock_step_readers|..]; simpl;
      [apply Hl|split; [done|set_solver]|done|..].
    - unfold read_held, lock_readers; simpl. destruct Hst as [-> | ->]; set_solver.
    - unfold write_held, lock_writers; simpl. by destruct Hst as [-> | ->]. }
  unfold lockForRead. fold (lock_of s k).
  destruct Hst as [-> | ->]; case_decide; destruct (waitForLock _ _ _ _); eauto.
Qed.

Lemma lockForRead_spec k r s :
  wf s → ∃ b s', lockForRead k r s = Ok (b, s') ∧
    lock_outcome k r (union {[r]}) id s b s'.
Proof.
  intros Hwf. destruct (state (lock_of s k)) eqn:Hst; auto using lockForRead_shared, lockForRead_exclusive.
  pose proof (Hwf k) as Hl. unfold lockForRead. fold (lock_of s k). rewrite Hst.
  destruct (tryAcquireLock_spec r false (lock_of s k) (ticks s) (wf_waiting _ Hl))
    as ([] & l' & t & -> & Hq & [Hs Hh] & Hr); simpl.
  - assert (holders (lock_of s k) = ∅) as He by (by apply (wf_free _ Hl)).
    eexists true, _. split; [done|].
    eapply lock_granted; [done|apply put_lock_step_readers|..]; simpl;
      [done|split; [done|set_solver]|by intros [|]|..].
    + unfold read_held, lock_readers; simpl. by rewrite Hst, Hh, He.
    + unfold write_held, lock_writers; simpl. by rewrite Hst.
  - eexists false, _. split; [done|].
    eapply lock_outcome_refused; [done| |apply put_lock_step]. by split_and!.
Qed.

Lemma lockForWrite_spec k r s :
  wf s → ∃ b s', lockForWrite k r s = Ok (b, s') ∧
    lock_outcome k r id (union {[r]}) s b s'.
Proof.
  intros Hwf. pose proof (Hwf k) as Hl.
  pose proof (wait_refused k r true id (union {[r]}) s Hwf) as Hw.
  assert (state (lock_of s k) = LOCKED_FOR_WRITE ∨ state (lock_of s k) = LOCKED_FOR_READ_WRITE →
    r ∈ holders (lock_of s k) →
    lock_outcome k r id (union {[r]}) s true (put_lock k (lock_of s k) (ticks s) s)) as Hheld.
  { intros Hx Hin. eapply lock_outcome_intro; [done| |apply put_lock_step|..]; [done..| |done].
    unfold write_held, lock_writers. destruct Hx as [-> | ->]; set_solver. }
  unfold lockForWrite. fold (lock_of s k). destruct (state (lock_of s k)) eqn:Hst.
  - destruct (tryAcquireLock_spec r true (lock_of s k) (ticks s) (wf_waiting _ Hl))
      as ([] & l' & t & -> & Hq & [Hs Hh] & Hr); simpl.
    + assert (holders (lock_of s k) = ∅) as He by (by apply (wf_free _ Hl)).
      eexists true, _. split; [done|].
      eapply lock_granted; [done|apply put_lock_step_writers|..]; simpl;
        [done|split; [done|set_solver]| |..].
      * intros _. by rewrite Hh, He, union_empty_r_L, size_singleton.
      * unfold read_held, lock_readers; simpl. by rewrite Hst.
      * unfold write_held, lock_writers; simpl. by rewrite Hst, Hh, He.
    + eexists false, _. split; [done|].
      eapply lock_outcome_refused; [done| |apply put_lock_step]. by split_and!.
  - case_decide as Hup; [|destruct (waitForLock _ _ _ _); eauto].
    destruct Hup as [Hone Hin]. pose proof (size_1_elem _ _ Hone Hin) as Heq.
    eexists true, _. split; [done|].
    eapply lock_granted; [done|apply put_lock_step_writers|..]; simpl;
      [apply Hl|split; [done|set_solver]|done|..].
    + unfold read_held, lock_readers; simpl. by rewrite Hst.
    + unfold write_held, lock_writers; simpl. rewrite Hst, Heq. set_solver.
  - case_decide; [exists true; eauto|destruct (waitForLock _ _ _ _); eauto].
  - case_decide; [exists true; eauto|destruct (waitForLock _ _ _ _); eauto].
Qed.
End lock_specs.

Lemma lock_of_insert s k l k' (f g : Z → Z) :
  lock_of (s <| readers ::= f |> <| writers ::= g |> <| locks ::= <[k := l]> |>) k' =
  if decide (k = k') then l else lock_of s k'.
Proof. unfold lock_of; simpl. rewrite lookup_insert. by case_decide. Qed.

Lemma insert_lock_step s k l (f g : Z → Z) :
  lock_step k s (s <| readers ::= f |> <| writers ::= g |> <| locks ::= <[k := l]> |>) l.
Proof.
  split; [|intros k' ?]; rewrite lock_of_insert; [by rewrite decide_True|by rewrite decide_False].
Qed.

(** The outcome of a release on [k]. *)
Definition release_outcome (k : string) (rd wr : gset Z → gset Z) (s s' : LockServer) : Prop :=
  wf s' ∧ (∀ k', k ≠ k' → lock_of s' k' = lock_of s k') ∧
  read_held s' k = rd (read_held s k) ∧ write_held s' k = wr (write_held s k).

Lemma release_outcome_refl k rd wr s :
  wf s → rd (read_held s k) = read_held s k → wr (write_held s k) = write_held s k →
  release_outcome k rd wr s s.
Proof. intros. by split_and!. Qed.

Lemma release_outcome_intro k rd wr s s' l' :
  wf s → lock_step k s s' l' → wf_lock l' →
  lock_readers l' = rd (read_held s k) → lock_writers l' = wr (write_held s k) →
  release_outcome k rd wr s s'.
Proof.
  intros Hwf Hstep Hl Hr Hw. pose proof Hstep as [Hk Hother].
  split_and!; [by eapply lock_step_wf|done|..]; unfold read_held, write_held in *; by rewrite Hk.
Qed.

Lemma lock_of_Some s k l : locks s !! k = Some l → lock_of s k = l.
Proof. unfold lock_of. by intros ->. Qed.

Lemma lock_of_None s k : locks s !! k = None → lock_of s k = Lock_new.
Proof. unfold lock_of. by intros ->. Qed.

Lemma not_holder_views s k h :
  h ∉ holders (lock_of s k) →
  read_held s k ∖ {[h]} = read_held s k ∧ write_held s k ∖ {[h]} = write_held s k.
Proof. unfold read_held, write_held, lock_readers, lock_writers. intros. split; case_match; set_solver. Qed.

Lemma releaseForRead_spec k h s :
  wf s → release_outcome k (λ X, X ∖ {[h]}) id s (releaseForRead k h s).
Proof.
  intros Hwf. unfold releaseForRead. destruct (locks s !! k) as [l|] eqn:Hl.
  2: { apply release_outcome_refl; [done|apply not_holder_views|done].
       rewrite lock_of_None by done. set_solver. }
  apply lock_of_Some in Hl as Hlk. pose proof (Hwf k) as Hwl. rewrite Hlk in Hwl.
  case_decide as Hin.
  2: { apply release_outcome_refl; [done|apply not_holder_views|done]. by rewrite Hlk. }
  destruct (state l) eqn:Hst.
  - apply release_outcome_refl; [done| |done]. unfold read_held, lock_readers. rewrite Hlk, Hst. set_solver.
  - eapply release_outcome_intro; [done|apply (insert_lock_step s k _ u64_decr id)|..];
      case_decide as He; simpl in *.
    + split; simpl; [done|by intros [|]|apply Hwl].
    + split; simpl; [|by rewrite Hst; intros [|]|apply Hwl]. by rewrite Hst.
    + unfold read_held, lock_readers; simpl. rewrite Hlk, Hst. set_solver.
    + unfold read_held, lock_readers; simpl. by rewrite Hlk, Hst.
    + unfold write_held, lock_writers; simpl. by rewrite Hlk, Hst.
    + unfold write_held, lock_writers; simpl. by rewrite Hlk, Hst.
  - apply release_outcome_refl; [done| |done]. unfold read_held, lock_readers. rewrite Hlk, Hst. set_solver.
  - pose proof (size_1_elem _ _ (wf_exclusive _ Hwl (or_intror Hst)) Hin) as Hone.
    eapply release_outcome_intro; [done|apply (insert_lock_step s k _ u64_decr id)|..]; simpl.
    + split; simpl; [split; [done|set_solver]|intros _; apply Hwl; by right|apply Hwl].
    + unfold read_held, lock_readers; simpl. rewrite Hlk, Hst, Hone. set_solver.
    + unfold write_held, lock_writers; simpl. by rewrite Hlk, Hst.
Qed.

Lemma releaseForWrite_spec k h s :
  wf s → release_outcome k id (λ X, X ∖ {[h]}) s (releaseForWrite k h s).
Proof.
  intros Hwf. unfold releaseForWrite. destruct (locks s !! k) as [l|] eqn:Hl.
  2: { apply release_outcome_refl; [done|done|apply not_holder_views].
       rewrite lock_of_None by done. set_solver. }
  apply lock_of_Some in Hl as Hlk. pose proof (Hwf k) as Hwl. rewrite Hlk in Hwl.
  case_decide as Hin.
  2: { apply release_outcome_refl; [done|done|apply not_holder_views]. by rewrite Hlk. }
  destruct (state l) eqn:Hst.
  - apply release_outcome_refl; [done|done|]. unfold write_held, lock_writers. rewrite Hlk, Hst. set_solver.
  - apply release_outcome_refl; [done|done|]. unfold write_held, lock_writers. rewrite Hlk, Hst. set_solver.
  - pose proof (size_1_elem _ _ (wf_exclusive _ Hwl (or_introl Hst)) Hin) as Hone.
    eapply release_outcome_intro; [done|apply (insert_lock_step s k _ id u64_decr)|..]; simpl.
    + split; simpl; [|by intros [|]|apply Hwl]. split; [|done]. rewrite Hone. set_solver.
    + unfold read_held, lock_readers; simpl. by rewrite Hlk, Hst.
    + unfold write_held, lock_writers; simpl. rewrite Hlk, Hst, Hone. set_solver.
  - pose proof (size_1_elem _ _ (wf_exclusive _ Hwl (or_intror Hst)) Hin) as Hone.
    eapply release_outcome_intro; [done|apply (insert_lock_step s k _ id u64_decr)|..]; simpl.
    + split; simpl; [split; [done|set_solver]|by intros [|]|apply Hwl].
    + unfold read_held, lock_readers; simpl. by rewrite Hlk, Hst.
    + unfold write_held, lock_writers; simpl. rewrite Hlk, Hst, Hone. set_solver.
Qed.

(** ** Properties *)

(** C7: The operations implement one readers-writer lock per key.  From a well-formed
    state every operation returns, keeps the state well formed and touches only the
    lock it names.  A granted read request adds the requester to the read holders and
    nothing else, a granted write request adds it to the write holders; a refused
    request changes no holder and leaves the requester queued; a release removes
    exactly the named holder in the named mode. *)
Theorem lock_server_refines_rw_lock `{Clock} (s : LockServer) (Hwf : wf s) (k : string) (r : Z) :
  (∃ b s', lockForRead k r s = Ok (b, s') ∧ wf s' ∧
     (∀ k', k ≠ k' → lock_of s' k' = lock_of s k') ∧
     read_held s' k = (if b then {[r]} else ∅) ∪ read_held s k ∧
     write_held s' k = write_held s k ∧
     (b = false → r ∈ waitQ (lock_of s' k))) ∧
  (∃ b s', lockForWrite k r s = Ok (b, s') ∧ wf s' ∧
     (∀ k', k ≠ k' → lock_of s' k' = lock_of s k') ∧
     read_held s' k = read_held s k ∧
     write_held s' k = (if b then {[r]} else ∅) ∪ write_held s k ∧
     (b = false → r ∈ waitQ (lock_of s' k))) ∧
  (wf (releaseForRead k r s) ∧
     (∀ k', k ≠ k' → lock_of (releaseForRead k r s) k' = lock_of s k') ∧
     read_held (releaseForRead k r s) k = read_held s k ∖ {[r]} ∧
     write_held (releaseForRead k r s) k = write_held s k) ∧
  (wf (releaseForWrite k r s) ∧
     (∀ k', k ≠ k' → lock_of (releaseForWrite k r s) k' = lock_of s k') ∧
     read_held (releaseForWrite k r s) k = read_held s k ∧
     write_held (releaseForWrite k r s) k = write_held s k ∖ {[r]}).
Proof.
  refine (conj _ (conj _ (conj (releaseForRead_spec k r s Hwf) (releaseForWrite_spec k r s Hwf)))).
  - destruct (lockForRead_spec k r s Hwf) as (b & s' & Hrun & Hw & Ho & Hr & Hwr & Hq).
    exists b, s'. split_and!; try done; destruct b; simpl in *; set_solver.
  - destruct (lockForWrite_spec k r s Hwf) as (b & s' & Hrun & Hw & Ho & Hr & Hwr & Hq).
    exists b, s'. split_and!; try done; destruct b; simpl in *; set_solver.
Qed.

(** One call of the public interface. *)
Inductive lstep `{Clock} : LockServer → LockServer → Prop :=
| lstep_read s k r b s' : lockForRead k r s = Ok (b, s') → lstep s s'
| lstep_write s k r b s' : lockForWrite k r s = Ok (b, s') → lstep s s'
| lstep_release_read s k h : lstep s (releaseForRead k h s)
| lstep_release_write s k h : lstep s (releaseForWrite k h s).

Definition lreachable `{Clock} (s : LockServer) : Prop := rtc lstep LockServer_new s.

Lemma lstep_wf `{Clock} s s' : lstep s s' → wf s → wf s'.
Proof.
  destruct 1 as [s k r b s' Hrun|s k r b s' Hrun|s k h|s k h]; intros Hwf.
  - destruct (lockForRead_spec k r s Hwf) as (b' & s'' & Hrun' & Hout). rewrite Hrun in Hrun'.
    simplify_eq. apply Hout.
  - destruct (lockForWrite_spec k r s Hwf) as (b' & s'' & Hrun' & Hout). rewrite Hrun in Hrun'.
    simplify_eq. apply Hout.
  - by apply releaseForRead_spec.
  - by apply releaseForWrite_spec.
Qed.

Lemma lreachable_wf `{Clock} s : lreachable s → wf s.
Proof.
  apply (rtc_ind_r (λ s, wf s)); [apply wf_new|]. intros. by eapply lstep_wf.
Qed.

Lemma wf_mutual_exclusion s k h r :
  wf s → h ∈ write_held s k → r ∈ read_held s k ∨ r ∈ write_held s k → r = h.
Proof.
  intros Hwf Hh Hr. pose proof (Hwf k) as Hl.
  unfold write_held, read_held, lock_writers, lock_readers in *.
  destruct (state (lock_of s k)) eqn:Hst; try set_solver.
  - pose proof (size_1_elem _ _ (wf_exclusive _ Hl (or_introl Hst)) Hh). set_solver.
  - pose proof (size_1_elem _ _ (wf_exclusive _ Hl (or_intror Hst)) Hh). set_solver.
Qed.

(** Mutual exclusion: in every state reachable by any sequence of calls, with any
    clock, a transaction that holds a lock for writing is the only one that holds it
    in any mode. *)
Theorem lock_server_mutual_exclusion `{Clock} (s : LockServer) (k : string) (h r : Z) :
  lreachable s → h ∈ write_held s k →
  r ∈ read_held s k ∨ r ∈ write_held s k → r = h.
Proof. intros Hr. apply wf_mutual_exclusion. by apply lreachable_wf. Qed.

(** The front of the queue is alive when its entry has not expired at the next clock
    reading. *)
Definition front_alive `{Clock} (s : LockServer) (k : string) (w : Z) : Prop :=
  ∃ q x, waitQ (lock_of s k) = w :: q ∧ waiters (lock_of s k) !! w = Some x ∧
    checkTimeout x (clock (ticks s)) = Ok false.

Lemma tryAcquireLock_alive `{Clock} s k w r b :
  front_alive s k w →
  ∃ l' t, tryAcquireLock r b (lock_of s k) (ticks s) = Ok (bool_decide (w = r), l', t).
Proof.
  intros (q & x & Hq & Hx & Halive). unfold tryAcquireLock. rewrite Hq. simpl.
  rewrite Hx. simpl. rewrite Halive. simpl.
  destruct (w =? r) eqn:Hw.
  - rewrite bool_decide_true by lia. eauto.
  - rewrite bool_decide_false by lia. destruct (waitForLock _ _ _ _); eauto.
Qed.

(** A free lock is reserved for the live request at the front of its queue: that
    requester is granted the lock in either mode, every other one is refused. *)
Theorem free_lock_reserved_for_front `{Clock} (s : LockServer) (k : string) (w r : Z) :
  wf s → state (lock_of s k) = UNLOCKED → front_alive s k w →
  (∃ s', lockForRead k r s = Ok (bool_decide (w = r), s')) ∧
  (∃ s', lockForWrite k r s = Ok (bool_decide (w = r), s')).
Proof.
  intros Hwf Hst Halive. unfold lockForRead, lockForWrite. fold (lock_of s k). rewrite Hst. split.
  - destruct (tryAcquireLock_alive s k w r false Halive) as (l' & t & ->). simpl. case_match; eauto.
  - destruct (tryAcquireLock_alive s k w r true Halive) as (l' & t & ->). simpl. case_match; eauto.
Qed.

(** [checkTimeout] compares seconds before microseconds and ignores the difference of
    the seconds, so a request expires at the next second boundary however short it
    has waited, although [LOCK_WAIT_TIMEOUT] is 5000 microseconds. *)
Theorem timeout_at_second_boundary (sec usec : Z) (write : bool) :
  checkTimeout (MkWaiter write (Some (MkTimeval sec 999999))) (MkTimeval (sec + 1) usec) = Ok true ∧
  (usec ≤ 999999 + LOCK_WAIT_TIMEOUT →
   checkTimeout (MkWaiter write (Some (MkTimeval sec 999999))) (MkTimeval sec usec) = Ok false).
Proof.
  unfold checkTimeout, LOCK_WAIT_TIMEOUT; simpl. split.
  - assert ((sec + 1 >? sec) = true) as -> by lia. done.
  - intros. assert ((sec >? sec) = false) as -> by lia.
    assert ((usec - 999999 >? 5000) = false) as -> by lia. done.
Qed.

(** ** Concrete instances *)

(** A clock that advances by a millisecond per reading. *)
Definition demo_clock : Clock := λ n, MkTimeval 100 (1000 * Z.of_nat n).

Definition run_lock (r : res (bool * LockServer)) : LockServer :=
  match r with Ok (_, s) => s | _ => LockServer_new end.

(** Transaction 1 holds the write lock and transaction 2 waits for it. *)
Definition demo_held : LockServer :=
  run_lock (lockForRead (H := demo_clock) "k" 2
    (run_lock (lockForWrite (H := demo_clock) "k" 1 LockServer_new))).

Lemma demo_held_reachable : lreachable (H := demo_clock) demo_held.
Proof.
  eapply rtc_l; [apply (lstep_write (H := demo_clock) _ "k" 1 true); vm_compute; reflexivity|].
  apply rtc_once. apply (lstep_read (H := demo_clock) _ "k" 2 false). vm_compute. reflexivity.
Qed.

Lemma lock_server_refines_rw_lock_witness :
  wf demo_held ∧
  read_held (releaseForWrite "k" 1 demo_held) "k" = read_held demo_held "k" ∧
  write_held (releaseForWrite "k" 1 demo_held) "k" = write_held demo_held "k" ∖ {[1]}.
Proof.
  pose proof (lreachable_wf (H := demo_clock) _ demo_held_reachable) as Hwf.
  destruct (lock_server_refines_rw_lock (H := demo_clock) demo_held Hwf "k" 1)
    as (_ & _ & _ & _ & _ & Hr & Hw).
  split_and!; [exact Hwf|exact Hr|exact Hw].
Defined.

Lemma lock_server_mutual_exclusion_witness :
  1 ∈ write_held demo_held "k" ∧ (2 ∈ read_held demo_held "k" → 2 = 1).
Proof.
  split; [vm_compute; reflexivity|]. intros H2.
  apply (lock_server_mutual_exclusion (H := demo_clock) demo_held "k" 1 2 demo_held_reachable);
    [vm_compute; reflexivity|by left].
Defined.

Definition demo_released : LockServer := releaseForWrite "k" 1 demo_held.

Lemma free_lock_reserved_for_front_witness :
  (∃ s', lockForRead (H := demo_clock) "k" 2 demo_released = Ok (true, s')) ∧
  (∃ s', lockForWrite (H := demo_clock) "k" 3 demo_released = Ok (false, s')).
Proof.
  assert (wf demo_released) as Hwf.
  { apply (releaseForWrite_spec "k" 1). apply (lreachable_wf (H := demo_clock) _ demo_held_reachable). }
  assert (front_alive (H := demo_clock) demo_released "k" 2) as Halive.
  { eexists [], _. split_and!; vm_compute; reflexivity. }
  split.
  - apply (free_lock_reserved_for_front (H := demo_clock) demo_released "k" 2 2 Hwf eq_refl Halive).
  - apply (free_lock_reserved_for_front (H := demo_clock) demo_released "k" 2 3 Hwf eq_refl Halive).
Defined.
