(* ===== verification/TxnStore.v ===== *)
(** The interface of the transactional stores: [store/common/backend/txnstore.h] and
    [txnstore.cc].

    [TxnStore] is the abstract class as a type class over the type of store states;
    [Unimplemented] is the base class, whose methods all call [Panic].
    [TxnStoreLaws] states what a store promises to the server that drives it: which
    transactions are prepared and pre-committed after each call and what happens to
    the data.  The theorems of this file are proved from the laws alone; the optimistic
    and the locking store each discharge them. *)

From S2P Require Import Prelude Timestamp Transaction VersionStore.

Abbreviation versioned := (Timestamp * string)%type.

Class TxnStore (S : Type) := {
  Get : Z → string → versioned → M S (Z * versioned);
  Get_at : Z → string → Timestamp → versioned → M S (Z * versioned);
  Get_dep : Z → string → versioned → Z → M S (Z * versioned * Z);
  Get_at_dep : Z → string → Timestamp → versioned → Z → M S (Z * versioned * Z);
  Put : Z → string → string → M S Z;
  Prepare : Z → Transaction → bool → M S Z;
  Commit : Z → Z → M S unit;
  PreCommit : Z → M S unit;
  Abort : Z → Transaction → M S unit;
  Load : string → string → Timestamp → M S unit
}.

(** The methods of the base class. *)
Definition Unimplemented (S : Type) : TxnStore S := {|
  Get _ _ _ := panic;
  Get_at _ _ _ _ := panic;
  Get_dep _ _ _ _ := panic;
  Get_at_dep _ _ _ _ _ := panic;
  Put _ _ _ := panic;
  Prepare _ _ _ := panic;
  Commit _ _ := panic;
  PreCommit _ := panic;
  Abort _ _ := panic;
  Load _ _ _ := panic
|}.

(** The two overloads of [Prepare] that the stores of this directory do not override. *)
Definition Unimplemented_Prepare {S} (id : Z) (t : Transaction) : M S Z := panic.
Definition Unimplemented_Prepare_ts {S} (id : Z) (t : Transaction) (ts proposed : Timestamp) :
    M S (Z * Timestamp) := panic.

(** ** Effect of commit and pre-commit on the data *)

(** The loops [for (auto &write : txn.getWriteSet())] of [Commit] and [PreCommit]. *)
Definition install_all `{HashOrder} (ts id : Z) (ws : gmap string string)
    (data : VersionedKVStore) : VersionedKVStore :=
  foldl (install ts id) data (hash_order ws).

Definition precommit_all `{HashOrder} (id : Z) (ws : gmap string string)
    (data : VersionedKVStore) : VersionedKVStore :=
  foldl (λ st w, preCommit w.1 id st) data (hash_order ws).

Lemma foldl_comm_perm {A B} (f : A → B → A) (R : B → B → Prop) l1 l2 a :
  l1 ≡ₚ l2 →
  (∀ a x y, x ∈ l1 → y ∈ l1 → R x y → f (f a x) y = f (f a y) x) →
  (∀ i j x y, i ≠ j → l1 !! i = Some x → l1 !! j = Some y → R x y) →
  foldl f a l1 = foldl f a l2.
Proof.
  intros Hp. revert a. induction Hp as [|x l1 l2 Hp IH|x y l|l1 l2 l3 Hp1 IH1 Hp2 IH2];
    intros a Hf HR; simpl.
  - done.
  - apply IH; [intros; apply Hf; set_solver|].
    intros i j u v Hij Hu Hv. apply (HR (S i) (S j)); [lia|done..].
  - rewrite (Hf a y x); [done|set_solver..|]. by apply (HR O (S O)).
  - rewrite IH1 by done. apply IH2.
    + intros. apply Hf; [by rewrite Hp1..|done].
    + intros i j u v Hij Hu Hv.
      apply symmetry, Permutation_inj in Hp1 as (Hlen & g & Hinj & Hg).
      apply (HR (g i) (g j)); [naive_solver|by rewrite <- Hg..].
Qed.

Lemma foldl_hash_order_irrelevant {A B} (f : B → string * A → B) (ws : gmap string A) b
    (o1 o2 : HashOrder) :
  (∀ b x y, x.1 ≠ y.1 → f (f b x) y = f (f b y) x) →
  foldl f b (hash_order (HashOrder := o1) ws) = foldl f b (hash_order (HashOrder := o2) ws).
Proof.
  intros Hf. apply (foldl_comm_perm f (λ x y, x.1 ≠ y.1)).
  - by rewrite !hash_order_perm.
  - intros. by apply Hf.
  - intros i j x y Hij Hx Hy Heq. apply Hij.
    eapply (NoDup_lookup (hash_order (HashOrder := o1) ws).*1); [apply hash_order_keys_NoDup| |].
    + by rewrite list_lookup_fmap, Hx.
    + by rewrite list_lookup_fmap, Hy, Heq.
Qed.

Lemma install_all_order (o1 o2 : HashOrder) ts id ws data :
  install_all (H := o1) ts id ws data = install_all (H := o2) ts id ws data.
Proof. apply foldl_hash_order_irrelevant. intros. by apply install_comm. Qed.

Lemma preCommit_comm id st k k' :
  k ≠ k' → preCommit k id (preCommit k' id st) = preCommit k' id (preCommit k id st).
Proof.
  intros Hne. apply VersionedKVStore_ext; [done..|]. intros j. unfold preCommit; simpl.
  rewrite !lookup_insert. repeat case_decide; congruence.
Qed.

Lemma precommit_all_order (o1 o2 : HashOrder) id ws data :
  precommit_all (H := o1) id ws data = precommit_all (H := o2) id ws data.
Proof. apply foldl_hash_order_irrelevant. intros. by apply preCommit_comm. Qed.

Section install.
Context `{HashOrder}.

Lemma foldl_install_wf ts id l data : wf data → wf (foldl (install ts id) data l).
Proof. revert data. induction l; intros; simpl; auto using install_wf. Qed.

Lemma install_all_wf ts id ws data : wf data → wf (install_all ts id ws data).
Proof. apply foldl_install_wf. Qed.

Lemma foldl_install_versions ts id l data k :
  NoDup l.*1 →
  versions (foldl (install ts id) data l) k =
  match (list_to_map l : gmap string string) !! k with
  | Some v => set_insert (MkVersion (Timestamp1 ts) v) (versions data k)
  | None => versions data k
  end.
Proof.
  revert data. induction l as [|[k' v'] l IH]; intros data; simpl; [done|].
  rewrite NoDup_cons. intros [Hk' Hl]. rewrite IH by done. rewrite install_versions; simpl.
  rewrite lookup_insert. case_decide as Hkk.
  - subst. by rewrite (proj1 (not_elem_of_list_to_map _ _) Hk').
  - done.
Qed.

Lemma install_all_versions ts id ws data k :
  versions (install_all ts id ws data) k =
  match ws !! k with
  | Some v => set_insert (MkVersion (Timestamp1 ts) v) (versions data k)
  | None => versions data k
  end.
Proof.
  unfold install_all. rewrite foldl_install_versions by apply hash_order_keys_NoDup.
  by rewrite hash_order_list_to_map.
Qed.

Lemma precommit_all_versions id ws data k :
  versions (precommit_all id ws data) k = versions data k.
Proof.
  unfold precommit_all. generalize (hash_order ws) as l. intros l. revert data.
  induction l as [|w l IH]; intros data; simpl; [done|]. by rewrite IH.
Qed.

Lemma precommit_all_wf id ws data : wf data → wf (precommit_all id ws data).
Proof. intros Hwf k. by rewrite precommit_all_versions. Qed.

(** Reading back what a commit installed. *)
Lemma install_all_get_at ts id ws data k v d :
  wf data → ws !! k = Some v →
  (∀ w, w ∈ versions data k → write w ≠ Timestamp1 ts) →
  get_at (install_all ts id ws data) k (Timestamp1 ts) d = (true, (Timestamp1 ts, v)).
Proof.
  intros Hwf Hk Hfresh. rewrite get_at_latest, install_all_versions, Hk.
  set (s := set_insert _ _).
  assert (latest_at s (Timestamp1 ts) = Some (MkVersion (Timestamp1 ts) v)) as ->; [|done].
  apply latest_at_spec; [by apply set_insert_sorted|].
  split_and!; [by apply set_insert_new|done|]. by intros.
Qed.

Lemma install_all_get_other ts id ws data k t d :
  ws !! k = None → get_at (install_all ts id ws data) k t d = get_at data k t d.
Proof. intros Hk. by rewrite !get_at_latest, install_all_versions, Hk. Qed.

Lemma install_all_inStore ts id ws data k :
  inStore data k = true → inStore (install_all ts id ws data) k = true.
Proof.
  rewrite !inStore_spec, install_all_versions. destruct (ws !! k); [|done].
  intros Hne Hnil. apply Hne. destruct (versions data k) as [|w l]; [done|].
  simpl in Hnil. repeat case_match; done.
Qed.
End install.

(** A commit later than all installed versions becomes the latest one. *)
Lemma last_set_insert v s :
  sorted s → (∀ w, w ∈ s → write w <ₜ write v) → last (set_insert v s) = Some v.
Proof.
  intros Hs Hlt. pose proof (set_insert_sorted v s Hs) as Hs'.
  assert (v ∈ set_insert v s) as Hv.
  { apply set_insert_new. intros w Hw Heq. specialize (Hlt w Hw). rewrite Heq in Hlt.
    by eapply TsLt_not_le. }
  destruct (last (set_insert v s)) as [u|] eqn:Hu.
  - pose proof (last_sorted_max _ _ _ Hs' Hu Hv) as Hle.
    apply last_Some_elem_of, elem_of_set_insert in Hu as [->|Hin]; [done|].
    by destruct (proj1 (TsLt_not_le _ _) (Hlt u Hin)).
  - apply last_None in Hu. rewrite Hu in Hv. by apply not_elem_of_nil in Hv.
Qed.

Lemma install_all_precommitters `{HashOrder} ts id ws data k :
  precommitters data k = [] → precommitters (install_all ts id ws data) k = [].
Proof.
  unfold install_all. generalize (hash_order ws) as l. intros l. revert data.
  induction l as [|w l IH]; intros data Hk; simpl; [done|]. apply IH.
  unfold precommitters in *. rewrite install_precommits.
  destruct (precommits data !! k) as [p|]; simpl in *; case_decide; subst; done.
Qed.

Lemma install_all_get_dep `{HashOrder} ts id ws data k v d tid :
  wf data → ws !! k = Some v → precommitters data k = [] →
  (∀ w, w ∈ versions data k → write w <ₜ Timestamp1 ts) →
  get_dep (install_all ts id ws data) k d tid = (true, (Timestamp1 ts, v), 0).
Proof.
  intros Hwf Hk Hp Hlt. rewrite get_dep_cases, install_all_precommitters by done. simpl.
  assert (last (versions (install_all ts id ws data) k) = Some (MkVersion (Timestamp1 ts) v)) as Hlast.
  { rewrite install_all_versions, Hk. by apply last_set_insert. }
  assert (inStore (install_all ts id ws data) k = true) as ->.
  { apply inStore_spec. intros Hn. by rewrite Hn in Hlast. }
  by rewrite get_last, Hlast.
Qed.

(** ** The contract *)

(** The transaction [Commit] and [Abort] act on: the pre-committed one if there is
    one, otherwise the prepared one. *)
Definition active_txn (prepared precommitted : gmap Z Transaction) (id : Z) : option Transaction :=
  match precommitted !! id with Some t => Some t | None => prepared !! id end.

(** The prepared table after [Commit] or [Abort] of [id]. *)
Definition drop_active (prepared precommitted : gmap Z Transaction) (id : Z) : gmap Z Transaction :=
  match precommitted !! id with Some _ => prepared | None => delete id prepared end.

(** The prepared table after a successful [Prepare]. *)
Definition add_prepared (prepared : gmap Z Transaction) (id : Z) (t : Transaction) : gmap Z Transaction :=
  match prepared !! id with Some _ => prepared | None => <[id := t]> prepared end.

Class TxnStoreLaws (S : Type) `{HashOrder, TxnStore S} := {
  data : S → VersionedKVStore;
  preparedTxns : S → gmap Z Transaction;
  precommittedTxns : S → gmap Z Transaction;
  store_ok : S → Prop;
  store_ok_wf : ∀ s, store_ok s → wf (data s);
  Prepare_law : ∀ id t chk s, store_ok s →
    wp (Prepare id t chk) (λ status s',
      store_ok s' ∧ data s' = data s ∧
      preparedTxns s' = (if decide (status = REPLY_OK) then add_prepared (preparedTxns s) id t
                         else preparedTxns s) ∧
      delete id (precommittedTxns s') = delete id (precommittedTxns s) ∧
      (status = REPLY_OK → precommittedTxns s' = precommittedTxns s)) s;
  Prepare_again : ∀ id t chk s, is_Some (preparedTxns s !! id) →
    Prepare id t chk s = Ok (REPLY_OK, s);
  Commit_law : ∀ id ts s, store_ok s →
    wp (Commit id ts) (λ _ s',
      store_ok s' ∧
      data s' = match active_txn (preparedTxns s) (precommittedTxns s) id with
                | Some t => install_all ts id (writeSet t) (data s)
                | None => data s
                end ∧
      preparedTxns s' = drop_active (preparedTxns s) (precommittedTxns s) id ∧
      precommittedTxns s' = delete id (precommittedTxns s)) s;
  Abort_law : ∀ id t s, store_ok s →
    wp (Abort id t) (λ _ s',
      store_ok s' ∧ data s' = data s ∧
      preparedTxns s' = drop_active (preparedTxns s) (precommittedTxns s) id ∧
      precommittedTxns s' = delete id (precommittedTxns s)) s;
  PreCommit_law : ∀ id t s, store_ok s → preparedTxns s !! id = Some t →
    wp (PreCommit id) (λ _ s',
      store_ok s' ∧ data s' = precommit_all id (writeSet t) (data s) ∧
      preparedTxns s' = delete id (preparedTxns s) ∧
      precommittedTxns s' = <[id := t]> (precommittedTxns s)) s;
  Load_law : ∀ k v ts s, store_ok s →
    wp (Load k v ts) (λ _ s',
      store_ok s' ∧ data s' = put k v ts (data s) ∧
      preparedTxns s' = preparedTxns s ∧ precommittedTxns s' = precommittedTxns s) s;
  Prepare_codes : ∀ id t chk s status s', store_ok s → Prepare id t chk s = Ok (status, s') →
    status = REPLY_OK ∨ status = REPLY_FAIL ∨ status = REPLY_ABORT;
  Prepare_unchecked : ∀ id t s, ∃ s', Prepare id t false s = Ok (REPLY_OK, s');
  Get_dep_law : ∀ id k v d s,
    Get_dep id k v d s =
      let '(found, v', dep) := VersionStore.get_dep (data s) k v d in
      Ok ((if (found : bool) then REPLY_OK else REPLY_FAIL, v', dep), s)
}.

(** ** Conflicts between prepared transactions *)

(** A read of [key] at [ts] is current when no installed version is later. *)
Definition current (st : VersionedKVStore) (key : string) (ts : Timestamp) : Prop :=
  ∀ w, w ∈ versions st key → write w ≤ₜ ts.

(** The staleness test of the stores' [Prepare] decides currency. *)
Lemma get_validates st key ts d :
  wf st →
  let '(found, cur) := get st key d in
  found = inStore st key ∧ (found = true → ts_gt cur.1 ts = false ↔ current st key ts).
Proof.
  intros Hwf. rewrite get_last. destruct (last (versions st key)) as [v|] eqn:Hl; simpl.
  - split.
    + symmetry. apply inStore_spec. intros Hn. by rewrite Hn in Hl.
    + intros _. rewrite ts_gt_false. split.
      * intros Hle w Hw. etrans; [|done]. by eapply last_sorted_max.
      * intros Hc. apply Hc. by apply last_Some_elem_of.
  - split; [|done]. symmetry. by apply inStore_false, last_None.
Qed.

(** Distinct prepared transactions write disjoint keys, and none reads a key of [K]
    that another one writes.  [K] stands for the keys the database was loaded with:
    [Prepare] skips reads of keys that have no version. *)
Definition conflict_free (K : string → Prop) (p : gmap Z Transaction) : Prop :=
  ∀ i j ti tj k, i ≠ j → p !! i = Some ti → p !! j = Some tj → is_Some (writeSet ti !! k) →
    ¬ is_Some (writeSet tj !! k) ∧ (K k → ¬ is_Some (readSet tj !! k)).

Lemma conflict_free_delete K p id : conflict_free K p → conflict_free K (delete id p).
Proof.
  intros Hcf i j ti tj k Hij [_ Hi]%lookup_delete_Some [_ Hj]%lookup_delete_Some. by eapply Hcf.
Qed.

Lemma conflict_free_drop K p pc id : conflict_free K p → conflict_free K (drop_active p pc id).
Proof. unfold drop_active. case_match; [done|apply conflict_free_delete]. Qed.

(** ** Consequences of the contract *)

Section contract.
Context `{HO : HashOrder} {S : Type} `{!TxnStore S} `{L : !TxnStoreLaws S}.

Lemma Prepare_fresh id t chk (s s1 : S) :
  store_ok s → preparedTxns s !! id = None → Prepare id t chk s = Ok (REPLY_OK, s1) →
  store_ok s1 ∧ data s1 = data s ∧ preparedTxns s1 = <[id := t]> (preparedTxns s) ∧
  precommittedTxns s1 = precommittedTxns s.
Proof.
  intros Hok Hnone Hrun. pose proof (Prepare_law id t chk s Hok) as Hlaw.
  apply wp_run in Hlaw as (status & s' & Hrun' & Hok' & Hd & Hp & _ & Hpc).
  rewrite Hrun in Hrun'. simplify_eq. rewrite decide_True in Hp by done.
  unfold add_prepared in Hp. rewrite Hnone in Hp. auto.
Qed.

(** Atomic installation: after a fresh transaction is prepared and committed at [ts],
    a read at [ts] returns every value it wrote, the versions of every key it did not
    write are untouched, and the table of prepared transactions is as before.  Holds
    of every store that satisfies the contract. *)
Theorem prepare_commit_installs id t chk ts (s s1 : S) :
  store_ok s → preparedTxns s !! id = None → precommittedTxns s !! id = None →
  Prepare id t chk s = Ok (REPLY_OK, s1) →
  (∀ k w, is_Some (writeSet t !! k) → w ∈ versions (data s) k → write w ≠ Timestamp1 ts) →
  ∃ s2, Commit id ts s1 = Ok (tt, s2) ∧ store_ok s2 ∧
    data s2 = install_all ts id (writeSet t) (data s) ∧
    (∀ k v d, writeSet t !! k = Some v →
       get_at (data s2) k (Timestamp1 ts) d = (true, (Timestamp1 ts, v))) ∧
    (∀ k, writeSet t !! k = None → versions (data s2) k = versions (data s) k) ∧
    preparedTxns s2 = preparedTxns s ∧ precommittedTxns s2 = precommittedTxns s.
Proof.
  intros Hok Hp Hpc Hrun Hfresh.
  destruct (Prepare_fresh _ _ _ _ _ Hok Hp Hrun) as (Hok1 & Hd1 & Hp1 & Hpc1).
  pose proof (Commit_law id ts s1 Hok1) as Hlaw.
  apply wp_run in Hlaw as ([] & s2 & Hrun2 & Hok2 & Hd2 & Hp2 & Hpc2).
  unfold active_txn in Hd2. unfold drop_active in Hp2.
  rewrite Hpc1, Hpc, Hp1 in Hd2, Hp2. rewrite lookup_insert_eq, Hd1 in Hd2.
  rewrite delete_insert_id in Hp2 by done.
  exists s2. split_and!; [done..| | |done|by rewrite Hpc2, Hpc1, delete_id].
  - intros k v d Hk. rewrite Hd2. apply install_all_get_at; [by apply store_ok_wf|done|].
    intros w Hw. by apply (Hfresh k).
  - intros k Hk. by rewrite Hd2, install_all_versions, Hk.
Qed.

(** Abort after a successful prepare leaves no trace: neither the data nor the tables
    of prepared and pre-committed transactions differ from before the prepare. *)
Theorem prepare_abort_leaves_no_trace id t t' chk (s s1 : S) :
  store_ok s → preparedTxns s !! id = None → precommittedTxns s !! id = None →
  Prepare id t chk s = Ok (REPLY_OK, s1) →
  ∃ s2, Abort id t' s1 = Ok (tt, s2) ∧ store_ok s2 ∧ data s2 = data s ∧
    preparedTxns s2 = preparedTxns s ∧ precommittedTxns s2 = precommittedTxns s ∧
    active_txn (preparedTxns s2) (precommittedTxns s2) id = None.
Proof.
  intros Hok Hp Hpc Hrun.
  destruct (Prepare_fresh _ _ _ _ _ Hok Hp Hrun) as (Hok1 & Hd1 & Hp1 & Hpc1).
  pose proof (Abort_law id t' s1 Hok1) as Hlaw.
  apply wp_run in Hlaw as ([] & s2 & Hrun2 & Hok2 & Hd2 & Hp2 & Hpc2).
  unfold drop_active in Hp2. rewrite Hpc1, Hpc, Hp1, delete_insert_id in Hp2 by done.
  assert (precommittedTxns s2 = precommittedTxns s) as Hpc' by (by rewrite Hpc2, Hpc1, delete_id).
  exists s2. split_and!; [done|done|congruence|done|done|]. unfold active_txn. by rewrite Hpc', Hpc, Hp2.
Qed.

(** A decision is applied at most once: when a transaction is in at most one of the
    two tables, a second commit (with whatever timestamp) after the first changes
    neither the data nor the tables. *)
Theorem commit_at_most_once id ts ts' (s s1 : S) :
  store_ok s → preparedTxns s !! id = None ∨ precommittedTxns s !! id = None →
  Commit id ts s = Ok (tt, s1) →
  active_txn (preparedTxns s1) (precommittedTxns s1) id = None ∧
  ∃ s2, Commit id ts' s1 = Ok (tt, s2) ∧ data s2 = data s1 ∧
    preparedTxns s2 = preparedTxns s1 ∧ precommittedTxns s2 = precommittedTxns s1.
Proof.
  intros Hok Hone Hrun. pose proof (Commit_law id ts s Hok) as Hlaw.
  apply wp_run in Hlaw as ([] & s1' & Hrun1 & Hok1 & _ & Hp1 & Hpc1).
  rewrite Hrun in Hrun1. injection Hrun1 as <-.
  assert (preparedTxns s1 !! id = None) as Hn1.
  { rewrite Hp1. unfold drop_active. destruct (precommittedTxns s !! id) eqn:E.
    - by destruct Hone.
    - apply lookup_delete_eq. }
  assert (precommittedTxns s1 !! id = None) as Hn2 by (rewrite Hpc1; apply lookup_delete_eq).
  pose proof (Commit_law id ts' s1 Hok1) as Hlaw.
  apply wp_run in Hlaw as ([] & s2 & Hrun2 & _ & Hd2 & Hp2 & Hpc2).
  unfold active_txn in Hd2. unfold drop_active in Hp2. rewrite Hn2 in Hd2, Hp2. rewrite Hn1 in Hd2.
  split; [unfold active_txn; by rewrite Hn2, Hn1|].
  exists s2. split_and!; [done|done|by rewrite Hp2, delete_id|by rewrite Hpc2, delete_id].
Qed.

(** Pre-commit only moves the point of visibility: preparing, pre-committing and
    committing installs the same versions as preparing and committing. *)
Theorem precommit_commit_same_versions id t chk ts (s s1 : S) :
  store_ok s → preparedTxns s !! id = None → precommittedTxns s !! id = None →
  Prepare id t chk s = Ok (REPLY_OK, s1) →
  ∃ s2 s3 s2', PreCommit id s1 = Ok (tt, s2) ∧ Commit id ts s2 = Ok (tt, s3) ∧
    Commit id ts s1 = Ok (tt, s2') ∧
    data s2 = precommit_all id (writeSet t) (data s) ∧
    (∀ k, versions (data s2) k = versions (data s) k) ∧
    (∀ k, versions (data s3) k = versions (data s2') k) ∧
    preparedTxns s3 = preparedTxns s2' ∧ precommittedTxns s3 = precommittedTxns s2'.
Proof.
  intros Hok Hp Hpc Hrun.
  destruct (Prepare_fresh _ _ _ _ _ Hok Hp Hrun) as (Hok1 & Hd1 & Hp1 & Hpc1).
  pose proof (PreCommit_law id t s1 Hok1) as Hpre.
  rewrite Hp1, lookup_insert_eq in Hpre. specialize (Hpre eq_refl).
  apply wp_run in Hpre as ([] & s2 & Hrun2 & Hok2 & Hd2 & Hp2 & Hpc2).
  pose proof (Commit_law id ts s2 Hok2) as Hc.
  apply wp_run in Hc as ([] & s3 & Hrun3 & _ & Hd3 & Hp3 & Hpc3).
  pose proof (Commit_law id ts s1 Hok1) as Hc'.
  apply wp_run in Hc' as ([] & s2' & Hrun2' & _ & Hd2' & Hp2' & Hpc2').
  unfold active_txn in Hd3, Hd2'. unfold drop_active in Hp3, Hp2'.
  rewrite Hpc2, lookup_insert_eq in Hd3, Hp3. rewrite Hpc1, Hpc in Hd2', Hp2'.
  rewrite Hp1, lookup_insert_eq in Hd2'. rewrite Hp1 in Hp2'.
  rewrite Hd1 in Hd2. exists s2, s3, s2'. split_and!; [done..| | | |].
  - intros k. by rewrite Hd2, precommit_all_versions.
  - intros k. by rewrite Hd3, Hd2', !install_all_versions, Hd2, precommit_all_versions, Hd1.
  - by rewrite Hp3, Hp2, Hp2'.
  - by rewrite Hpc3, Hpc2, Hpc2', Hpc1, delete_insert_eq.
Qed.
End contract.
