(* ===== verification/OCCStore.v ===== *)
(** The optimistic store: [store/strongstore/occstore.h] and [occstore.cc].

    Transactions execute without locks; [Prepare] validates the read set against the
    versions of the store and the read and write sets against the transactions that
    are already prepared.  The class is an instance of the [TxnStore] interface; the
    validation is shown to keep prepared transactions free of conflicts and to keep a
    validated read current until the transaction leaves the prepared table. *)

From S2P Require Import Prelude Timestamp Transaction VersionStore TxnStore.

(** [class OCCStore]. *)
Record OCCStore := MkOCCStore {
  occ_store : VersionedKVStore;
  prepared : gmap Z Transaction;
  precommitted : gmap Z Transaction
}.

#[global] Instance OCCStore_eta : Eta OCCStore := λ s,
  MkOCCStore (occ_store s) (prepared s) (precommitted s).

Definition OCCStore_new : OCCStore := MkOCCStore VersionedKVStore_empty ∅ ∅.

Section occ_store.
Context `{HashOrder}.

Definition Get (id : Z) (key : string) (val : versioned) : M OCCStore (Z * versioned) := λ s,
  let '(found, val') := VersionStore.get (occ_store s) key val in
  if (found : bool) then Ok ((REPLY_OK, val'), s) else Ok ((REPLY_FAIL, val'), s).

Definition Get_at (id : Z) (key : string) (t : Timestamp) (val : versioned) :
    M OCCStore (Z * versioned) := λ s,
  let '(found, val') := VersionStore.get_at (occ_store s) key t val in
  if (found : bool) then Ok ((REPLY_OK, val'), s) else Ok ((REPLY_FAIL, val'), s).

Definition Get_dep (id : Z) (key : string) (val : versioned) (dependency : Z) :
    M OCCStore (Z * versioned * Z) := λ s,
  let '(found, val', dep) := VersionStore.get_dep (occ_store s) key val dependency in
  if (found : bool) then Ok ((REPLY_OK, val', dep), s) else Ok ((REPLY_FAIL, val', dep), s).

Definition Get_at_dep (id : Z) (key : string) (t : Timestamp) (val : versioned) (dependency : Z) :
    M OCCStore (Z * versioned * Z) := λ s,
  let '(found, val') := VersionStore.get_at (occ_store s) key t val in
  if (found : bool) then Ok ((REPLY_OK, val', dependency), s)
  else Ok ((REPLY_FAIL, val', dependency), s).

Definition getPreparedWrites (s : OCCStore) : gset string :=
  map_fold (λ _ t writes, dom (writeSet t) ∪ writes) ∅ (prepared s).

Definition getPreparedReadWrites (s : OCCStore) : gset string :=
  map_fold (λ _ t readwrites, dom (readSet t) ∪ (dom (writeSet t) ∪ readwrites)) ∅ (prepared s).

Definition Abort (id : Z) (t : Transaction) : M OCCStore unit := λ s,
  match precommitted s !! id with
  | Some _ => Ok (tt, s <| precommitted ::= delete id |>)
  | None =>
      match prepared s !! id with
      | Some _ => Ok (tt, s <| prepared ::= delete id |>)
      | None => Ok (tt, s)
      end
  end.

(** The loop over the read set: [true] when no entry conflicts. *)
Fixpoint check_reads (st : VersionedKVStore) (pWrites : gset string)
    (reads : list (string * Timestamp)) : bool :=
  match reads with
  | [] => true
  | (key, ts) :: reads' =>
      let '(ret, cur) := VersionStore.get st key (Timestamp0, "") in
      if negb ret then check_reads st pWrites reads'
      else if ts_gt cur.1 ts then false
      else if decide (key ∈ pWrites) then false
      else check_reads st pWrites reads'
  end.

(** The loop over the write set. *)
Fixpoint check_writes (pRW : gset string) (writes : list (string * string)) : bool :=
  match writes with
  | [] => true
  | (key, _) :: writes' => if decide (key ∈ pRW) then false else check_writes pRW writes'
  end.

Definition Prepare (id : Z) (t : Transaction) (do_check : bool) : M OCCStore Z := λ s,
  match prepared s !! id with
  | Some _ => Ok (REPLY_OK, s)
  | None =>
      if do_check then
        let pWrites := getPreparedWrites s in
        let pRW := getPreparedReadWrites s in
        if check_reads (occ_store s) pWrites (hash_order (readSet t)) then
          if check_writes pRW (hash_order (writeSet t)) then
            Ok (REPLY_OK, s <| prepared ::= <[id := t]> |>)
          else (_ ← Abort id Transaction_default; mret REPLY_FAIL) s
        else (_ ← Abort id Transaction_default; mret REPLY_FAIL) s
      else Ok (REPLY_OK, s <| prepared ::= <[id := t]> |>)
  end.

Definition Commit (id timestamp : Z) : M OCCStore unit := λ s,
  match precommitted s !! id with
  | Some t =>
      Ok (tt, s <| occ_store ::= install_all timestamp id (writeSet t) |>
                <| precommitted ::= delete id |>)
  | None =>
      match prepared s !! id with
      | Some t =>
          Ok (tt, s <| occ_store ::= install_all timestamp id (writeSet t) |>
                    <| prepared ::= delete id |>)
      | None => Ok (tt, s)
      end
  end.

(** [prepared[id]] default-inserts when there is no entry (the [ASSERT] before it
    expands to nothing). *)
Definition PreCommit (id : Z) : M OCCStore unit := λ s,
  let t := default Transaction_default (prepared s !! id) in
  Ok (tt, s <| occ_store ::= precommit_all id (writeSet t) |>
            <| prepared ::= delete id |>
            <| precommitted ::= <[id := t]> |>).

Definition Load (key val : string) (t : Timestamp) : M OCCStore unit := λ s,
  Ok (tt, s <| occ_store ::= put key val t |>).

#[global] Instance OCC_TxnStore : TxnStore OCCStore := {|
  TxnStore.Get := Get;
  TxnStore.Get_at := Get_at;
  TxnStore.Get_dep := Get_dep;
  TxnStore.Get_at_dep := Get_at_dep;
  TxnStore.Put := @TxnStore.Put _ (Unimplemented OCCStore);
  TxnStore.Prepare := Prepare;
  TxnStore.Commit := Commit;
  TxnStore.PreCommit := PreCommit;
  TxnStore.Abort := Abort;
  TxnStore.Load := Load
|}.
End occ_store.

(** ** The contract *)

Lemma Abort_run id t s :
  Abort id t s = Ok (tt, s <| prepared ::= (λ p, drop_active p (precommitted s) id) |>
                           <| precommitted ::= delete id |>).
Proof.
  unfold Abort, drop_active. destruct s as [st p pc]; simpl.
  destruct (pc !! id) eqn:Hpc; [done|]. rewrite (delete_id pc) by done.
  destruct (p !! id) eqn:Hp; [done|]. by rewrite delete_id.
Qed.

Lemma Prepare_cases `{HashOrder} id t chk s :
  prepared s !! id = None →
  Prepare id t chk s =
    if negb chk || (check_reads (occ_store s) (getPreparedWrites s) (hash_order (readSet t)) &&
                    check_writes (getPreparedReadWrites s) (hash_order (writeSet t)))
    then Ok (REPLY_OK, s <| prepared ::= <[id := t]> |>)
    else Ok (REPLY_FAIL, s <| precommitted ::= delete id |>).
Proof.
  intros Hnone. unfold Prepare. rewrite Hnone.
  assert ((_ ← Abort id Transaction_default; mret REPLY_FAIL) s
          = Ok (REPLY_FAIL, s <| precommitted ::= delete id |>)) as Habort.
  { unfold mbind, M_bind. rewrite Abort_run. unfold mret, M_ret, drop_active. simpl.
    destruct s as [st p pc]; simpl in *. f_equal. f_equal. f_equal.
    destruct (pc !! id); [done|by rewrite delete_id]. }
  destruct chk; simpl; [|done].
  destruct (check_reads _ _ _); simpl; [|done]. by destruct (check_writes _ _).
Qed.

#[global] Program Instance OCC_laws `{HashOrder} : TxnStoreLaws OCCStore := {|
  data := occ_store;
  preparedTxns := prepared;
  precommittedTxns := precommitted;
  store_ok s := wf (occ_store s)
|}.
Next Obligation. done. Qed.
Next Obligation.
  intros HO id t chk s Hok. apply wp_run. simpl. destruct (prepared s !! id) as [t0|] eqn:Hp.
  - exists REPLY_OK, s. unfold Prepare, add_prepared. rewrite Hp. by split_and!.
  - rewrite Prepare_cases by done. case_match.
    + eexists _, _. split; [done|]. simpl. unfold add_prepared. rewrite Hp. by split_and!.
    + eexists _, _. split; [done|]. simpl. split_and!; [done..| |done]. by rewrite delete_delete_eq.
Qed.
Next Obligation. intros HO id t chk s [t0 Ht]. simpl. unfold Prepare. by rewrite Ht. Qed.
Next Obligation.
  intros HO id ts s Hok. apply wp_run. simpl. unfold Commit, active_txn, drop_active.
  destruct (precommitted s !! id) as [t|] eqn:Hpc.
  - eexists _, _. split; [done|]. simpl. split_and!; [by apply install_all_wf|done..].
  - destruct (prepared s !! id) as [t|] eqn:Hp.
    + eexists _, _. split; [done|]. simpl. rewrite (delete_id (precommitted s)) by done.
      split_and!; [by apply install_all_wf|done..].
    + eexists _, s. split; [done|]. by rewrite !delete_id.
Qed.
Next Obligation.
  intros HO id t s Hok. apply wp_run. simpl. rewrite Abort_run. eexists _, _.
  split; [done|]. simpl. by split_and!.
Qed.
Next Obligation.
  intros HO id t s Hok Hp. apply wp_run. simpl. unfold PreCommit. rewrite Hp. simpl.
  eexists _, _. split; [done|]. simpl. split_and!; [by apply precommit_all_wf|done..].
Qed.
Next Obligation.
  intros HO k v ts s Hok. apply wp_run. eexists _, _. split; [done|]. simpl.
  split_and!; [by apply put_wf|done..].
Qed.
Next Obligation.
  intros HO id t chk s st s' Hok. simpl. destruct (prepared s !! id) as [t0|] eqn:Hp.
  - unfold Prepare. rewrite Hp. intros [= <- _]. by left.
  - rewrite Prepare_cases by done. case_match; intros [= <- _]; auto.
Qed.
Next Obligation.
  intros HO id t s. simpl. unfold Prepare. case_match; by eexists.
Qed.
Next Obligation.
  intros HO id k v d s. simpl. unfold Get_dep.
  by destruct (VersionStore.get_dep (occ_store s) k v d) as [[[] v'] dep].
Qed.

(** ** Validation *)

Lemma elem_of_getPreparedWrites s k :
  k ∈ getPreparedWrites s ↔ ∃ id t, prepared s !! id = Some t ∧ is_Some (writeSet t !! k).
Proof.
  unfold getPreparedWrites. generalize (prepared s) as p. intros p.
  induction p as [|id t p Hid IH] using map_ind.
  - rewrite map_fold_empty. split; [set_solver|]. by intros (? & ? & ?%lookup_empty_Some & _).
  - rewrite map_fold_insert_L by (done || set_solver).
    rewrite elem_of_union, elem_of_dom, IH. split.
    + intros [Hk|(id' & t' & Ht' & Hk)]; [exists id, t; by rewrite lookup_insert_eq|].
      exists id', t'. rewrite lookup_insert_ne by naive_solver. done.
    + intros (id' & t' & [[<- <-]|[Hne Ht']]%lookup_insert_Some & Hk); [by left|right; eauto].
Qed.

Lemma elem_of_getPreparedReadWrites s k :
  k ∈ getPreparedReadWrites s ↔
  ∃ id t, prepared s !! id = Some t ∧ (is_Some (readSet t !! k) ∨ is_Some (writeSet t !! k)).
Proof.
  unfold getPreparedReadWrites. generalize (prepared s) as p. intros p.
  induction p as [|id t p Hid IH] using map_ind.
  - rewrite map_fold_empty. split; [set_solver|]. by intros (? & ? & ?%lookup_empty_Some & _).
  - rewrite map_fold_insert_L by (done || set_solver).
    rewrite !elem_of_union, !elem_of_dom, IH. split.
    + intros [Hk|[Hk|(id' & t' & Ht' & Hk)]]; [exists id, t; rewrite lookup_insert_eq; auto..|].
      exists id', t'. rewrite lookup_insert_ne by naive_solver. done.
    + intros (id' & t' & [[<- <-]|[Hne Ht']]%lookup_insert_Some & Hk); [tauto|eauto 6].
Qed.

Lemma check_reads_spec st pW reads :
  wf st →
  check_reads st pW reads = true ↔
  ∀ key ts, (key, ts) ∈ reads → inStore st key = true → current st key ts ∧ key ∉ pW.
Proof.
  intros Hwf. induction reads as [|[key ts] reads IH]; simpl; [set_solver|].
  pose proof (get_validates st key ts (Timestamp0, "") Hwf) as Hg.
  destruct (VersionStore.get st key _) as [[] cur]; destruct Hg as [Hin Hcur]; simpl.
  - symmetry in Hin. specialize (Hcur eq_refl). destruct (ts_gt cur.1 ts).
    + split; [done|]. intros Hall. destruct (Hall key ts ltac:(set_solver) Hin) as [Hc _].
      by apply Hcur in Hc.
    + case_decide as Hk; [|rewrite IH].
      * split; [done|]. intros Hall. by destruct (Hall key ts ltac:(set_solver) Hin).
      * split; [|set_solver]. intros Hall k t [[= -> ->]|Hkt]%elem_of_cons Hin'; [|by apply Hall].
        split; [by apply Hcur|done].
  - rewrite IH. split; [|set_solver].
    intros Hall k t [[= -> ->]|Hkt]%elem_of_cons Hin'; [congruence|by apply Hall].
Qed.

Lemma check_writes_spec pRW writes :
  check_writes pRW writes = true ↔ ∀ key v, (key, v) ∈ writes → key ∉ pRW.
Proof.
  induction writes as [|[key v] writes IH]; simpl; [set_solver|].
  case_decide as Hk; [|rewrite IH].
  - split; [done|]. intros Hall. by destruct (Hall key v ltac:(set_solver)).
  - split; [|set_solver]. intros Hall k v' [[= -> ->]|Hkv]%elem_of_cons; [done|by eapply Hall].
Qed.

(** ** Conflict freedom of the prepared table *)

Definition loaded (K : string → Prop) (s : OCCStore) : Prop :=
  ∀ k, K k → inStore (occ_store s) k = true.

(** What a validated transaction may not meet in the prepared table. *)
Definition compatible (K : string → Prop) (p : gmap Z Transaction) (t : Transaction) : Prop :=
  ∀ j tj k, p !! j = Some tj →
    (is_Some (writeSet t !! k) → ¬ is_Some (readSet tj !! k) ∧ ¬ is_Some (writeSet tj !! k)) ∧
    (K k → is_Some (readSet t !! k) → ¬ is_Some (writeSet tj !! k)).

Lemma conflict_free_insert K p id t :
  conflict_free K p → p !! id = None → compatible K p t → conflict_free K (<[id := t]> p).
Proof.
  intros Hcf Hid Hcomp i j ti tj k Hij Hi Hj Hw.
  apply lookup_insert_Some in Hi as [[<- <-]|[Hi1 Hi]], Hj as [[<- <-]|[Hj1 Hj]].
  - done.
  - destruct (Hcomp j tj k Hj) as [Hc _]. destruct (Hc Hw). auto.
  - destruct (Hcomp i ti k Hi) as [Hc1 Hc2]. split; [|by intros Hk Hr; apply Hc2].
    intros Hw'. by destruct (Hc1 Hw').
  - by eapply (Hcf i j ti tj).
Qed.

Section validation.
Context `{HashOrder}.

Lemma Prepare_validated id t s s' K :
  wf (occ_store s) → loaded K s → prepared s !! id = None →
  Prepare id t true s = Ok (REPLY_OK, s') →
  s' = s <| prepared ::= <[id := t]> |> ∧ compatible K (prepared s) t ∧
  ∀ k ts, K k → readSet t !! k = Some ts → current (occ_store s) k ts.
Proof.
  intros Hwf HK Hnone. rewrite Prepare_cases by done. simpl.
  destruct (check_reads _ _ _) eqn:Hr, (check_writes _ _) eqn:Hw; simpl; try done.
  intros [= <-]. rewrite check_reads_spec in Hr by done. rewrite check_writes_spec in Hw.
  assert (∀ k ts, K k → readSet t !! k = Some ts →
    current (occ_store s) k ts ∧ k ∉ getPreparedWrites s) as Hreads.
  { intros k ts Hk Ht. apply Hr; [by apply elem_of_hash_order|by apply HK]. }
  split_and!; [done| |intros; by eapply Hreads].
  intros j tj k Hj. split.
  - intros [v Hv]. specialize (Hw k v ltac:(by apply elem_of_hash_order)).
    rewrite elem_of_getPreparedReadWrites in Hw. split; intros ?; apply Hw; eauto.
  - intros Hk [ts Hts] ?. destruct (Hreads k ts Hk Hts) as [_ Hnot]. apply Hnot.
    apply elem_of_getPreparedWrites. eauto.
Qed.

(** Calls a shard leader makes, with validation switched on. *)
Inductive leader_step : OCCStore → OCCStore → Prop :=
| leader_prepare s id t status s' : Prepare id t true s = Ok (status, s') → leader_step s s'
| leader_commit s id ts s' : Commit id ts s = Ok (tt, s') → leader_step s s'
| leader_abort s id t s' : Abort id t s = Ok (tt, s') → leader_step s s'.

Inductive leader_step_precommit : OCCStore → OCCStore → Prop :=
| leader_base s s' : leader_step s s' → leader_step_precommit s s'
| leader_precommit s id s' :
    is_Some (prepared s !! id) → PreCommit id s = Ok (tt, s') → leader_step_precommit s s'.

(** The database as loaded, before the first transaction. *)
Definition initial (K : string → Prop) (s : OCCStore) : Prop :=
  wf (occ_store s) ∧ loaded K s ∧ prepared s = ∅ ∧ precommitted s = ∅.

Lemma Prepare_other id t s status s' :
  Prepare id t true s = Ok (status, s') →
  (status = REPLY_OK ∧ prepared s !! id = None) ∨
  (prepared s' = prepared s ∧ occ_store s' = occ_store s ∧
   precommitted s' ⊆ precommitted s).
Proof.
  destruct (prepared s !! id) as [t0|] eqn:Hp.
  - unfold Prepare. rewrite Hp. intros [= <- <-]. by right.
  - rewrite Prepare_cases by done. case_match; intros [= <- <-]; [by left|right].
    simpl. split_and!; [done..|apply delete_subseteq].
Qed.

Lemma Commit_run id ts s s' :
  Commit id ts s = Ok (tt, s') →
  prepared s' = drop_active (prepared s) (precommitted s) id ∧
  precommitted s' = delete id (precommitted s) ∧
  occ_store s' = match active_txn (prepared s) (precommitted s) id with
                 | Some t => install_all ts id (writeSet t) (occ_store s)
                 | None => occ_store s end.
Proof.
  unfold Commit, drop_active, active_txn.
  destruct (precommitted s !! id) as [t|] eqn:Hpc; [by intros [= <-]|].
  destruct (prepared s !! id) as [t|] eqn:Hp; intros [= <-]; simpl.
  - by rewrite (delete_id (precommitted s)).
  - by rewrite (delete_id (precommitted s)), (delete_id (prepared s)).
Qed.

Definition safe (K : string → Prop) (s : OCCStore) : Prop :=
  wf (occ_store s) ∧ loaded K s ∧ conflict_free K (prepared s).

Lemma safe_Commit K id ts s s' : safe K s → Commit id ts s = Ok (tt, s') → safe K s'.
Proof.
  intros (Hwf & HK & Hcf) (Hp & _ & Hst)%Commit_run. split_and!.
  - rewrite Hst. case_match; [by apply install_all_wf|done].
  - intros k Hk. rewrite Hst. case_match; [apply install_all_inStore|]; by apply HK.
  - rewrite Hp. by apply conflict_free_drop.
Qed.

Lemma safe_Prepare K id t s status s' :
  safe K s → Prepare id t true s = Ok (status, s') → safe K s'.
Proof.
  intros (Hwf & HK & Hcf) Hrun. destruct (Prepare_other _ _ _ _ _ Hrun) as [[-> Hnone]|(Hp & Hst & _)].
  - destruct (Prepare_validated _ _ _ _ K Hwf HK Hnone Hrun) as (-> & Hcomp & _).
    split_and!; [done..|]. by apply conflict_free_insert.
  - unfold safe, loaded. by rewrite Hst, Hp.
Qed.

Lemma safe_step K s s' : leader_step_precommit s s' → safe K s → safe K s'.
Proof.
  intros Hstep Hsafe. destruct Hstep as [s s' [s1 id t status s2 Hrun|s1 id ts s2 Hrun|s1 id t s2 Hrun]|s id s' _ Hrun].
  - by eapply safe_Prepare.
  - by eapply safe_Commit.
  - rewrite Abort_run in Hrun. injection Hrun as <-. destruct Hsafe as (Hwf & HK & Hcf).
    split_and!; [done..|]. by apply conflict_free_drop.
  - injection Hrun as <-. destruct Hsafe as (Hwf & HK & Hcf). split_and!; simpl.
    + by apply precommit_all_wf.
    + intros k Hk. simpl. apply inStore_spec. rewrite precommit_all_versions. by apply inStore_spec, HK.
    + by apply conflict_free_delete.
Qed.

Lemma safe_reachable K s0 s :
  initial K s0 → rtc leader_step_precommit s0 s → safe K s.
Proof.
  intros (Hwf & HK & Hp & _) Hr. revert Hr. apply (rtc_ind_r (λ s, safe K s)).
  - split_and!; [done..|]. rewrite Hp. by intros i j ti tj k _ Hi%lookup_empty_Some.
  - intros. by eapply safe_step.
Qed.

(** Every read of a prepared transaction is still current. *)
Definition reads_current (K : string → Prop) (s : OCCStore) : Prop :=
  ∀ id t k ts, prepared s !! id = Some t → K k → readSet t !! k = Some ts →
    current (occ_store s) k ts.

Definition validated (K : string → Prop) (s : OCCStore) : Prop :=
  safe K s ∧ precommitted s = ∅ ∧ reads_current K s.

Lemma reads_current_Commit K id ts s s' :
  validated K s → Commit id ts s = Ok (tt, s') → reads_current K s'.
Proof.
  intros ((Hwf & HK & Hcf) & Hpc & Hcur) (Hp & _ & Hst)%Commit_run.
  unfold drop_active in Hp. unfold active_txn in Hst. rewrite Hpc, lookup_empty in Hp, Hst.
  intros id' t' k rts Hid' Hk Hrt. rewrite Hp in Hid'.
  apply lookup_delete_Some in Hid' as [Hne Hid']. rewrite Hst.
  destruct (prepared s !! id) as [t|] eqn:Hid; [|by eapply Hcur].
  destruct (writeSet t !! k) as [v|] eqn:Hw.
  - destruct (Hcf id id' t t' k Hne Hid Hid' ltac:(by eexists)) as [_ Hno].
    exfalso. apply Hno; [done|by eexists].
  - unfold current. rewrite install_all_versions, Hw. by eapply Hcur.
Qed.

Lemma validated_step K s s' : leader_step s s' → validated K s → validated K s'.
Proof.
  intros Hstep (Hsafe & Hpc & Hcur).
  pose proof (safe_step K s s' (leader_base _ _ Hstep) Hsafe) as Hsafe'.
  destruct Hstep as [s id t status s' Hrun|s id ts s' Hrun|s id t s' Hrun].
  - destruct Hsafe as (Hwf & HK & Hcf).
    destruct (Prepare_other _ _ _ _ _ Hrun) as [[-> Hnone]|(Hp & Hst & Hsub)].
    + destruct (Prepare_validated _ _ _ _ K Hwf HK Hnone Hrun) as (-> & _ & Hreads).
      split_and!; [done..|]. intros id' t' k ts Ht' Hk Hrt. simpl in *.
      apply lookup_insert_Some in Ht' as [[<- <-]|[_ Ht']]; [by apply Hreads|by eapply Hcur].
    + split_and!; [done| |unfold reads_current; by rewrite Hp, Hst].
      rewrite Hpc in Hsub. apply (anti_symm (⊆)); [done|apply map_empty_subseteq].
  - split; [done|split; [|by apply (reads_current_Commit K id ts s s')]].
    apply Commit_run in Hrun as (_ & -> & _). by rewrite Hpc, delete_empty.
  - rewrite Abort_run in Hrun. injection Hrun as <-. split_and!; [done|simpl; by rewrite Hpc, delete_empty|].
    intros id' t' k ts Ht'. simpl in *. unfold drop_active in Ht'. rewrite Hpc, lookup_empty in Ht'.
    apply lookup_delete_Some in Ht' as [_ Ht']. by eapply Hcur.
Qed.

(** C9: Prepared transactions never conflict: in every state a leader reaches from the
    loaded database, by any sequence of validated prepares, commits, aborts and
    pre-commits and for every hash order, two distinct prepared transactions write
    disjoint sets of keys and neither reads a loaded key the other writes. *)
Theorem occ_prepared_conflict_free (K : string → Prop) (s0 s : OCCStore) :
  initial K s0 → rtc leader_step_precommit s0 s → conflict_free K (prepared s).
Proof. intros Hi Hr. by apply (safe_reachable K s0 s Hi Hr). Qed.

(** C10: Validation holds until commit: without pre-commits, a read of a loaded key that
    was validated by [Prepare] is still current as long as the transaction stays
    prepared, so when it commits no version later than the one it read has been
    installed by anyone. *)
Theorem occ_validated_reads_stay_current (K : string → Prop) (s0 s : OCCStore) id t k ts :
  initial K s0 → rtc leader_step s0 s →
  prepared s !! id = Some t → K k → readSet t !! k = Some ts →
  current (occ_store s) k ts.
Proof.
  intros (Hwf & HK & Hp & Hpc) Hr. assert (validated K s) as (_ & _ & Hcur); [|apply Hcur].
  revert Hr. apply (rtc_ind_r (λ s, validated K s)); [|intros; by eapply validated_step].
  split_and!; [split_and!; [done..|]|done|].
  - rewrite Hp. by intros i j ti tj k' _ Hi%lookup_empty_Some.
  - intros id' t' k' ts'. rewrite Hp. by intros ?%lookup_empty_Some.
Qed.

Lemma precommitters_precommit_all id ws st k :
  is_Some (ws !! k) → last (precommitters (precommit_all id ws st) k) = Some id.
Proof.
  unfold precommit_all. rewrite <- elem_of_hash_order_keys.
  generalize (hash_order_keys_NoDup ws). generalize (hash_order ws) as l. intros l. revert st.
  induction l as [|[k' v'] l IH]; intros st Hnd Hin; simpl in *; [set_solver|].
  apply NoDup_cons in Hnd as [Hk' Hnd]. destruct (decide (k' = k)) as [->|Hne]; [|apply IH; set_solver].
  assert (∀ st, precommitters (foldl (λ st w, preCommit w.1 id st) st l) k = precommitters st k) as Hrest.
  { clear IH Hin Hnd. intros st'. revert st'. induction l as [|[k1 v1] l IH]; intros st'; simpl; [done|].
    rewrite IH by set_solver. rewrite precommitters_preCommit, decide_False; [done|set_solver]. }
  by rewrite Hrest, precommitters_preCommit, decide_True, last_snoc.
Qed.

(** [Abort] does not undo [PreCommit]'s registration: after a prepared transaction is
    pre-committed and then aborted, a dependent read of any key it wrote still names
    the aborted transaction as the one to read from. *)
Theorem aborted_precommit_still_visible (s : OCCStore) id t t' k d x :
  prepared s !! id = Some t → is_Some (writeSet t !! k) → inStore (occ_store s) k = true →
  ∃ s1 s2, PreCommit id s = Ok (tt, s1) ∧ Abort id t' s1 = Ok (tt, s2) ∧
    prepared s2 !! id = None ∧ precommitted s2 !! id = None ∧
    Get_dep x k d 0 s2 = Ok ((REPLY_OK, d, id), s2).
Proof.
  intros Hp Hw Hin. eexists _, _. split; [done|]. split; [apply Abort_run|].
  rewrite Hp; simpl. unfold drop_active. rewrite lookup_insert_eq.
  split_and!; [by rewrite lookup_delete_eq..|].
  unfold Get_dep; simpl. rewrite get_dep_cases.
  assert (inStore (precommit_all id (writeSet t) (occ_store s)) k = true) as ->.
  { apply inStore_spec. rewrite precommit_all_versions. by apply inStore_spec. }
  by rewrite precommitters_precommit_all.
Qed.
End validation.

(** ** Concrete instances *)

Definition demo_txn (val : string) : Transaction :=
  addWriteSet "x" val (addReadSet "x" Timestamp0 (Transaction_id 0)).

Definition demo_other : Transaction := addWriteSet "y" "b" (Transaction_id 0).

Definition demo_occ : OCCStore := OCCStore_new <| occ_store ::= put "x" "null" Timestamp0 |>.

Definition loaded_x (k : string) : Prop := k = "x".

Definition run_occ {A} (r : res (A * OCCStore)) : OCCStore :=
  match r with Ok (_, s) => s | _ => OCCStore_new end.

Lemma demo_occ_wf : wf (occ_store demo_occ).
Proof. apply put_wf, wf_empty. Qed.

Lemma demo_occ_initial : initial loaded_x demo_occ.
Proof. split_and!; [apply demo_occ_wf|by intros k ->|done|done]. Qed.

(** Transaction 1 (reads and writes [x]) and 2 (writes [y]) are prepared. *)
Definition demo_occ_1 : OCCStore :=
  run_occ (Prepare (H := default_order) 1 (demo_txn "1") true demo_occ).
Definition demo_occ_2 : OCCStore :=
  run_occ (Prepare (H := default_order) 2 demo_other true demo_occ_1).

Lemma demo_occ_reachable : rtc (leader_step (H := default_order)) demo_occ demo_occ_2.
Proof.
  eapply rtc_l; [apply (leader_prepare (H := default_order) demo_occ 1 (demo_txn "1") REPLY_OK)|].
  { vm_compute. reflexivity. }
  apply rtc_once. apply (leader_prepare (H := default_order) _ 2 demo_other REPLY_OK).
  vm_compute. reflexivity.
Qed.

Lemma occ_prepared_conflict_free_witness :
  rtc (leader_step_precommit (H := default_order)) demo_occ demo_occ_2 ∧
  conflict_free loaded_x (prepared demo_occ_2).
Proof.
  assert (rtc (leader_step_precommit (H := default_order)) demo_occ demo_occ_2) as Hr.
  { apply (rtc_subrel _ _ _ _ (leader_base (H := default_order)) demo_occ_reachable). }
  split; [exact Hr|].
  apply (occ_prepared_conflict_free (H := default_order) loaded_x demo_occ demo_occ_2
           demo_occ_initial Hr).
Defined.

Lemma occ_validated_reads_stay_current_witness :
  current (occ_store demo_occ_2) "x" Timestamp0.
Proof.
  apply (occ_validated_reads_stay_current (H := default_order) loaded_x demo_occ demo_occ_2
           1 (demo_txn "1") "x" Timestamp0 demo_occ_initial demo_occ_reachable);
    vm_compute; reflexivity.
Defined.

Lemma aborted_precommit_still_visible_witness :
  ∃ s1 s2, PreCommit (H := default_order) 1 demo_occ_1 = Ok (tt, s1) ∧
    Abort 1 Transaction_default s1 = Ok (tt, s2) ∧
    prepared s2 !! 1 = None ∧ precommitted s2 !! 1 = None ∧
    Get_dep 7 "x" (Timestamp0, "") 0 s2 = Ok ((REPLY_OK, (Timestamp0, ""), 1), s2).
Proof.
  apply (aborted_precommit_still_visible (H := default_order) demo_occ_1 1 (demo_txn "1")
           Transaction_default "x" (Timestamp0, "") 7).
  - vm_compute. reflexivity.
  - eexists. vm_compute. reflexivity.
  - vm_compute. reflexivity.
Defined.

(** With pre-commits the guarantee of validation is lost.  Two transactions read the
    same version of a key and both write it: the first is prepared and pre-committed,
    which takes it out of the table [Prepare] validates against while its write is not
    installed yet, so the second is prepared too; once the first commits, the second is
    still prepared with a read that is no longer current, and its commit overwrites the
    first write without having seen it. *)
Theorem precommit_admits_stale_read :
  ∃ s, rtc (leader_step_precommit (H := default_order)) demo_occ s ∧
    prepared s !! 2 = Some (demo_txn "2") ∧
    readSet (demo_txn "2") !! "x" = Some Timestamp0 ∧
    ¬ current (occ_store s) "x" Timestamp0 ∧
    ∃ s', Commit (H := default_order) 2 6 s = Ok (tt, s') ∧
      (∀ d, get (occ_store s') "x" d = (true, (Timestamp1 6, "2"))).
Proof.
  set (s1 := run_occ (PreCommit (H := default_order) 1 demo_occ_1)).
  set (s2 := run_occ (Prepare (H := default_order) 2 (demo_txn "2") true s1)).
  set (s3 := run_occ (Commit (H := default_order) 1 5 s2)).
  exists s3. split_and!.
  - eapply rtc_l.
    { apply leader_base, (leader_prepare (H := default_order) _ 1 (demo_txn "1") REPLY_OK).
      vm_compute. reflexivity. }
    eapply rtc_l.
    { apply (leader_precommit (H := default_order) demo_occ_1 1 s1); [|done].
      eexists. vm_compute. reflexivity. }
    eapply rtc_l.
    { apply leader_base, (leader_prepare (H := default_order) _ 2 (demo_txn "2") REPLY_OK s2).
      vm_compute. reflexivity. }
    apply rtc_once, leader_base, (leader_commit (H := default_order) _ 1 5).
    vm_compute. reflexivity.
  - vm_compute. reflexivity.
  - vm_compute. reflexivity.
  - intros Hcur. specialize (Hcur (MkVersion (Timestamp1 5) "1")). apply (TsLt_not_le Timestamp0 (Timestamp1 5)).
    + by apply ts_lt_spec.
    + apply Hcur.
      assert (versions (occ_store s3) "x" = [MkVersion Timestamp0 "null"; MkVersion (Timestamp1 5) "1"])
        as -> by (vm_compute; reflexivity). set_solver.
  - eexists. split; [reflexivity|]. intros d. vm_compute. reflexivity.
Qed.

(** The consequences of the contract, at this store. *)

#[local] Existing Instance default_order.

Lemma prepare_commit_installs_witness :
  ∃ s2, Commit (H := default_order) 1 5 demo_occ_1 = Ok (tt, s2) ∧
    get_at (occ_store s2) "x" (Timestamp1 5) (Timestamp0, "") = (true, (Timestamp1 5, "1")).
Proof.
  destruct (prepare_commit_installs (HO := default_order) (S := OCCStore) 1 (demo_txn "1") true 5
    demo_occ demo_occ_1) as (s2 & Hrun & _ & _ & Hget & _).
  - exact demo_occ_wf.
  - reflexivity.
  - reflexivity.
  - vm_compute. reflexivity.
  - intros k w _ Hw Heq. unfold versions in Hw. simpl in Hw. rewrite lookup_insert in Hw.
    case_decide; simpl in Hw; [|by apply not_elem_of_nil in Hw].
    apply list_elem_of_singleton in Hw. subst w. discriminate.
  - exists s2. split; [exact Hrun|]. by apply Hget.
Defined.

Lemma prepare_abort_leaves_no_trace_witness :
  ∃ s2, Abort 1 Transaction_default demo_occ_1 = Ok (tt, s2) ∧ prepared s2 = ∅.
Proof.
  destruct (prepare_abort_leaves_no_trace (HO := default_order) (S := OCCStore) 1 (demo_txn "1")
    Transaction_default true demo_occ demo_occ_1) as (s2 & Hrun & _ & _ & Hp & _).
  - exact demo_occ_wf.
  - reflexivity.
  - reflexivity.
  - vm_compute. reflexivity.
  - exists s2. split; [exact Hrun|exact Hp].
Defined.

Lemma commit_at_most_once_witness :
  ∃ s1 s2, Commit (H := default_order) 1 5 demo_occ_1 = Ok (tt, s1) ∧
    Commit (H := default_order) 1 9 s1 = Ok (tt, s2) ∧ occ_store s2 = occ_store s1.
Proof.
  destruct (commit_at_most_once (HO := default_order) (S := OCCStore) 1 5 9 demo_occ_1
    (run_occ (Commit (H := default_order) 1 5 demo_occ_1))) as (_ & s2 & Hrun & Hd & _).
  - exact demo_occ_wf.
  - right. reflexivity.
  - vm_compute. reflexivity.
  - exists (run_occ (Commit (H := default_order) 1 5 demo_occ_1)), s2.
    split_and!; [vm_compute; reflexivity|exact Hrun|exact Hd].
Defined.

Lemma precommit_commit_same_versions_witness :
  ∃ s2 s3, PreCommit (H := default_order) 1 demo_occ_1 = Ok (tt, s2) ∧
    Commit (H := default_order) 1 5 s2 = Ok (tt, s3) ∧
    versions (occ_store s2) "x" = versions (occ_store demo_occ) "x".
Proof.
  destruct (precommit_commit_same_versions (HO := default_order) (S := OCCStore) 1 (demo_txn "1")
    true 5 demo_occ demo_occ_1) as (s2 & s3 & _ & Hpre & Hcommit & _ & _ & Hv & _).
  - exact demo_occ_wf.
  - reflexivity.
  - reflexivity.
  - vm_compute. reflexivity.
  - exists s2, s3. split_and!; [exact Hpre|exact Hcommit|exact (Hv "x")].
Defined.
