(* ===== verification/LockStore.v ===== *)
(** The two-phase-locking store: [store/strongstore/lockstore.h] and [lockstore.cc].

    [Prepare] validates the read set and takes the locks of the transaction; [Commit],
    [PreCommit] and [Abort] release them.  The class is an instance of the [TxnStore]
    interface.  A prepared transaction is shown to hold all its locks until it is
    decided, from which the conflict freedom of the prepared table and the currency of
    validated reads follow; the locks a refused [Prepare] took are shown to stay
    behind. *)

From S2P Require Import Prelude Timestamp Transaction LockServer VersionStore TxnStore.

(** [class LockStore]. *)
Record LockStore := MkLockStore {
  store : VersionedKVStore;
  locks : LockServer;
  prepared : gmap Z Transaction;
  precommitted : gmap Z Transaction
}.

#[global] Instance LockStore_eta : Eta LockStore := λ s,
  MkLockStore (store s) (locks s) (prepared s) (precommitted s).

Definition LockStore_new : LockStore := MkLockStore VersionedKVStore_empty LockServer_new ∅ ∅.

(** A call of the lock manager. *)
Definition on_locks {A} (f : LockServer → res (A * LockServer)) : M LockStore A := λ s,
  match f (locks s) with
  | Ok (a, l) => Ok (a, s <| locks := l |>)
  | Panic => Panic
  | Undefined => Undefined
  end.

Section lock_store.
Context `{HashOrder} `{Clock}.

Definition Get (id : Z) (key : string) (value : versioned) : M LockStore (Z * versioned) :=
  s ← get_st;
  let '(found, value') := VersionStore.get (store s) key value in
  if negb found then mret (REPLY_FAIL, value')
  else
    granted ← on_locks (lockForRead key id);
    if (granted : bool) then mret (REPLY_OK, value') else mret (REPLY_RETRY, value').

Definition Get_at (id : Z) (key : string) (timestamp : Timestamp) (value : versioned) :
    M LockStore (Z * versioned) := Get id key value.

Definition Get_dep (id : Z) (key : string) (value : versioned) (dependency : Z) :
    M LockStore (Z * versioned * Z) :=
  s ← get_st;
  let '(found, value', dep) := VersionStore.get_dep (store s) key value dependency in
  if (found : bool) then mret (REPLY_OK, value', dep) else mret (REPLY_FAIL, value', dep).

Definition Get_at_dep (id : Z) (key : string) (timestamp : Timestamp) (value : versioned)
    (dependency : Z) : M LockStore (Z * versioned * Z) := Get_dep id key value dependency.

Definition dropLocks (id : Z) (txn : Transaction) (l : LockServer) : LockServer :=
  foldl (λ l read, releaseForRead read.1 id l)
    (foldl (λ l write, releaseForWrite write.1 id l) l (hash_order (writeSet txn)))
    (hash_order (readSet txn)).

Definition Abort (id : Z) (txn : Transaction) : M LockStore unit := λ s,
  match precommitted s !! id with
  | Some _ => Ok (tt, s <| precommitted ::= delete id |>)
  | None =>
      match prepared s !! id with
      | Some txn' => Ok (tt, s <| locks ::= dropLocks id txn' |> <| prepared ::= delete id |>)
      | None => Ok (tt, s)
      end
  end.

(** The loop of [getLocks] over the read set: [None] when it returns [REPLY_ABORT],
    otherwise the value of [ret] after it. *)
Fixpoint lock_reads (id : Z) (txn : Transaction) (ret : Z) (reads : list (string * Timestamp)) :
    M LockStore (option Z) :=
  match reads with
  | [] => mret (Some ret)
  | (key, ts) :: reads' =>
      s ← get_st;
      let '(res, cur) := VersionStore.get (store s) key (Timestamp0, "") in
      if negb res then lock_reads id txn ret reads'
      else if ts_gt cur.1 ts then _ ← Abort id txn; mret None
      else
        granted ← on_locks (lockForRead key id);
        lock_reads id txn (if (granted : bool) then ret else REPLY_FAIL) reads'
  end.

(** The loop over the write set. *)
Fixpoint lock_writes (id : Z) (ret : Z) (writes : list (string * string)) : M LockStore Z :=
  match writes with
  | [] => mret ret
  | (key, _) :: writes' =>
      granted ← on_locks (lockForWrite key id);
      lock_writes id (if (granted : bool) then ret else REPLY_FAIL) writes'
  end.

Definition getLocks (id : Z) (txn : Transaction) : M LockStore Z :=
  r ← lock_reads id txn 0 (hash_order (readSet txn));
  match r with
  | None => mret REPLY_ABORT
  | Some ret => lock_writes id ret (hash_order (writeSet txn))
  end.

Definition Prepare (id : Z) (txn : Transaction) (do_check : bool) : M LockStore Z :=
  s ← get_st;
  match prepared s !! id with
  | Some _ => mret REPLY_OK
  | None =>
      if do_check then
        ret ← getLocks id txn;
        _ ← when (ret =? REPLY_OK) (modify (λ s, s <| prepared ::= <[id := txn]> |>));
        mret ret
      else
        _ ← modify (λ s, s <| prepared ::= <[id := txn]> |>);
        mret REPLY_OK
  end.

Definition Commit (id timestamp : Z) : M LockStore unit := λ s,
  match precommitted s !! id with
  | Some txn =>
      Ok (tt, s <| store ::= install_all timestamp id (writeSet txn) |>
                <| precommitted ::= delete id |>)
  | None =>
      match prepared s !! id with
      | Some txn =>
          Ok (tt, s <| store ::= install_all timestamp id (writeSet txn) |>
                    <| locks ::= dropLocks id txn |>
                    <| prepared ::= delete id |>)
      | None => Ok (tt, s)
      end
  end.

(** [prepared[id]] default-inserts when there is no entry (the [ASSERT] before it
    expands to nothing). *)
Definition PreCommit (id : Z) : M LockStore unit := λ s,
  let txn := default Transaction_default (prepared s !! id) in
  Ok (tt, s <| store ::= precommit_all id (writeSet txn) |>
            <| locks ::= dropLocks id txn |>
            <| prepared ::= delete id |>
            <| precommitted ::= <[id := txn]> |>).

Definition Load (key value : string) (timestamp : Timestamp) : M LockStore unit :=
  modify (λ s, s <| store ::= put key value timestamp |>).

#[global] Instance Lock_TxnStore : TxnStore LockStore := {|
  TxnStore.Get := Get;
  TxnStore.Get_at := Get_at;
  TxnStore.Get_dep := Get_dep;
  TxnStore.Get_at_dep := Get_at_dep;
  TxnStore.Put := @TxnStore.Put _ (Unimplemented LockStore);
  TxnStore.Prepare := Prepare;
  TxnStore.Commit := Commit;
  TxnStore.PreCommit := PreCommit;
  TxnStore.Abort := Abort;
  TxnStore.Load := Load
|}.
End lock_store.

(** ** Locks taken and released *)

(** [id] takes locks, in either mode, and nobody loses any. *)
Definition acquires (id : Z) (l l' : LockServer) : Prop :=
  LockServer.wf l' ∧ ∀ k,
    read_held l k ⊆ read_held l' k ∧ read_held l' k ⊆ {[id]} ∪ read_held l k ∧
    write_held l k ⊆ write_held l' k ∧ write_held l' k ⊆ {[id]} ∪ write_held l k.

(** [id] gives up locks, and nobody else does. *)
Definition releases (id : Z) (l l' : LockServer) : Prop :=
  LockServer.wf l' ∧ ∀ k,
    read_held l k ∖ {[id]} ⊆ read_held l' k ∧ read_held l' k ⊆ read_held l k ∧
    write_held l k ∖ {[id]} ⊆ write_held l' k ∧ write_held l' k ⊆ write_held l k.

Lemma acquires_refl id l : LockServer.wf l → acquires id l l.
Proof. intros. split; [done|set_solver]. Qed.

Lemma acquires_trans id l1 l2 l3 : acquires id l1 l2 → acquires id l2 l3 → acquires id l1 l3.
Proof.
  intros [_ H1] [Hwf H2]. split; [done|]. intros k. specialize (H1 k). specialize (H2 k). set_solver.
Qed.

Lemma releases_refl id l : LockServer.wf l → releases id l l.
Proof. intros. split; [done|set_solver]. Qed.

Lemma releases_trans id l1 l2 l3 : releases id l1 l2 → releases id l2 l3 → releases id l1 l3.
Proof.
  intros [_ H1] [Hwf H2]. split; [done|]. intros k. specialize (H1 k). specialize (H2 k). set_solver.
Qed.

Lemma held_other l l' k k' :
  (∀ k', k ≠ k' → lock_of l' k' = lock_of l k') → k ≠ k' →
  read_held l' k' = read_held l k' ∧ write_held l' k' = write_held l k'.
Proof. intros Ho Hne. unfold read_held, write_held. by rewrite (Ho k' Hne). Qed.

Lemma lock_outcome_acquires id k rd wr l b l' :
  lock_outcome k id rd wr l b l' →
  (∀ X, X ⊆ rd X ∧ rd X ⊆ {[id]} ∪ X) → (∀ X, X ⊆ wr X ∧ wr X ⊆ {[id]} ∪ X) →
  acquires id l l'.
Proof.
  intros (Hwf & Ho & Hr & Hw & _) Hrd Hwr. split; [done|]. intros k'.
  destruct (decide (k = k')) as [<-|Hne].
  - rewrite Hr, Hw. specialize (Hrd (read_held l k)). specialize (Hwr (write_held l k)).
    destruct b; simpl; set_solver.
  - destruct (held_other l l' k k' Ho Hne) as [-> ->]. set_solver.
Qed.

Lemma release_outcome_releases id k rd wr l l' :
  release_outcome k rd wr l l' →
  (∀ X, X ∖ {[id]} ⊆ rd X ∧ rd X ⊆ X) → (∀ X, X ∖ {[id]} ⊆ wr X ∧ wr X ⊆ X) →
  releases id l l'.
Proof.
  intros (Hwf & Ho & Hr & Hw) Hrd Hwr. split; [done|]. intros k'.
  destruct (decide (k = k')) as [<-|Hne].
  - rewrite Hr, Hw. specialize (Hrd (read_held l k)). specialize (Hwr (write_held l k)). set_solver.
  - destruct (held_other l l' k k' Ho Hne) as [-> ->]. set_solver.
Qed.

Section lock_specs.
Context `{Clock}.

Lemma lockForRead_acquires k id l :
  LockServer.wf l →
  ∃ b l', lockForRead k id l = Ok (b, l') ∧ acquires id l l' ∧ (b = true → id ∈ read_held l' k).
Proof.
  intros Hwf. destruct (lockForRead_spec k id l Hwf) as (b & l' & Hrun & Hout). exists b, l'.
  split_and!; [done| |].
  - eapply lock_outcome_acquires; [done|set_solver..].
  - destruct Hout as (_ & _ & Hr & _ & _). intros ->. rewrite Hr. set_solver.
Qed.

Lemma lockForWrite_acquires k id l :
  LockServer.wf l →
  ∃ b l', lockForWrite k id l = Ok (b, l') ∧ acquires id l l' ∧ (b = true → id ∈ write_held l' k).
Proof.
  intros Hwf. destruct (lockForWrite_spec k id l Hwf) as (b & l' & Hrun & Hout). exists b, l'.
  split_and!; [done| |].
  - eapply lock_outcome_acquires; [done|set_solver..].
  - destruct Hout as (_ & _ & _ & Hw & _). intros ->. rewrite Hw. set_solver.
Qed.
End lock_specs.

Lemma releaseForRead_releases k id l :
  LockServer.wf l → releases id l (releaseForRead k id l) ∧ id ∉ read_held (releaseForRead k id l) k.
Proof.
  intros Hwf. pose proof (releaseForRead_spec k id l Hwf) as Hout. split.
  - eapply release_outcome_releases; [done|set_solver..].
  - destruct Hout as (_ & _ & -> & _). set_solver.
Qed.

Lemma releaseForWrite_releases k id l :
  LockServer.wf l →
  releases id l (releaseForWrite k id l) ∧ id ∉ write_held (releaseForWrite k id l) k.
Proof.
  intros Hwf. pose proof (releaseForWrite_spec k id l Hwf) as Hout. split.
  - eapply release_outcome_releases; [done|set_solver..].
  - destruct Hout as (_ & _ & _ & ->). set_solver.
Qed.

(** A loop that releases one key after the other. *)
Lemma release_all {A} (id : Z) (release : string → LockServer → LockServer)
    (held : LockServer → string → gset Z) (l : LockServer) (entries : list (string * A)) :
  (∀ k l, LockServer.wf l → releases id l (release k l) ∧ id ∉ held (release k l) k) →
  (∀ l l', releases id l l' → ∀ k, held l' k ⊆ held l k) →
  LockServer.wf l →
  releases id l (foldl (λ l e, release e.1 l) l entries) ∧
  ∀ k, k ∈ entries.*1 → id ∉ held (foldl (λ l e, release e.1 l) l entries) k.
Proof.
  intros Hrel Hmono. revert l. induction entries as [|[k x] es IH]; intros l Hwf; simpl.
  { split; [by apply releases_refl|set_solver]. }
  destruct (Hrel k l Hwf) as [Hr1 Hk]. destruct (IH (release k l) (proj1 Hr1)) as [Hr2 Hes].
  split; [by eapply releases_trans|]. intros k' [->|Hk']%elem_of_cons; [|by apply Hes].
  specialize (Hmono _ _ Hr2 k). set_solver.
Qed.

Section drop_locks.
Context `{HashOrder}.

Lemma dropLocks_spec id txn l :
  LockServer.wf l →
  releases id l (dropLocks id txn l) ∧
  (∀ k, is_Some (writeSet txn !! k) → id ∉ write_held (dropLocks id txn l) k) ∧
  (∀ k, is_Some (readSet txn !! k) → id ∉ read_held (dropLocks id txn l) k).
Proof.
  intros Hwf. unfold dropLocks.
  destruct (release_all id (λ k, releaseForWrite k id) write_held l (hash_order (writeSet txn)))
    as [Hr1 Hw]; [by intros; apply releaseForWrite_releases|by intros l1 l2 [_ Hr] k; apply Hr|done|].
  set (l1 := foldl _ l (hash_order (writeSet txn))) in *.
  destruct (release_all id (λ k, releaseForRead k id) read_held l1 (hash_order (readSet txn)))
    as [Hr2 Hr]; [by intros; apply releaseForRead_releases|by intros l2 l3 [_ Hr] k; apply Hr
                 |apply Hr1|].
  split_and!; [by eapply releases_trans| |].
  - intros k Hk%elem_of_hash_order_keys Hin. apply (Hw k Hk).
    destruct Hr2 as [_ Hr2]. by apply (Hr2 k).
  - intros k Hk%elem_of_hash_order_keys. by apply Hr.
Qed.

(** The locks after a decision on [id]. *)
Definition decided_locks (s : LockStore) (id : Z) : LockServer :=
  match precommitted s !! id, prepared s !! id with
  | None, Some txn => dropLocks id txn (locks s)
  | _, _ => locks s
  end.

Lemma lock_Abort_run id txn s :
  Abort id txn s = Ok (tt, MkLockStore (store s) (decided_locks s id)
    (drop_active (prepared s) (precommitted s) id) (delete id (precommitted s))).
Proof.
  unfold Abort, drop_active, decided_locks. destruct s as [st l p pc]; simpl.
  destruct (pc !! id) eqn:Hpc, (p !! id) eqn:Hp; rewrite ?(delete_id pc), ?(delete_id p) by done; done.
Qed.

Lemma lock_Commit_run id ts s :
  Commit id ts s = Ok (tt, MkLockStore
    (match active_txn (prepared s) (precommitted s) id with
     | Some txn => install_all ts id (writeSet txn) (store s)
     | None => store s
     end) (decided_locks s id)
    (drop_active (prepared s) (precommitted s) id) (delete id (precommitted s))).
Proof.
  unfold Commit, drop_active, decided_locks, active_txn. destruct s as [st l p pc]; simpl.
  destruct (pc !! id) eqn:Hpc, (p !! id) eqn:Hp; rewrite ?(delete_id pc), ?(delete_id p) by done; done.
Qed.

Lemma decided_locks_releases s id :
  LockServer.wf (locks s) → releases id (locks s) (decided_locks s id).
Proof.
  intros Hwf. unfold decided_locks. repeat case_match; try by apply releases_refl.
  by apply dropLocks_spec.
Qed.
End drop_locks.

(** ** Taking the locks *)

Section get_locks.
Context `{HashOrder} `{Clock}.

Lemma on_locks_spec {A} (f : LockServer → res (A * LockServer)) (P : A → LockServer → Prop) s :
  (∃ a l', f (locks s) = Ok (a, l') ∧ P a l') →
  wp (on_locks f) (λ a s', s' = s <| locks := locks s' |> ∧ P a (locks s')) s.
Proof. intros (a & l' & Hf & HP). unfold post, on_locks. by rewrite Hf. Qed.

(** What [getLocks] guarantees of a read it accepted. *)
Definition read_secured (s : LockStore) (id : Z) (key : string) (ts : Timestamp) : Prop :=
  inStore (store s) key = true → current (store s) key ts ∧ id ∈ read_held (locks s) key.

Lemma lock_reads_spec id txn ret reads s :
  wf (store s) → LockServer.wf (locks s) → prepared s !! id = None →
  wp (lock_reads id txn ret reads) (λ r s',
    store s' = store s ∧ prepared s' = prepared s ∧ acquires id (locks s) (locks s') ∧
    match r with
    | None => precommitted s' = delete id (precommitted s)
    | Some ret' => precommitted s' = precommitted s ∧
        (ret' = REPLY_OK → ret = REPLY_OK ∧ ∀ key ts, (key, ts) ∈ reads → read_secured s' id key ts)
    end) s.
Proof.
  intros Hst Hl Hnone. revert ret s Hst Hl Hnone.
  induction reads as [|[key ts] reads IH]; intros ret s Hst Hl Hnone; simpl.
  { apply post_ret. split_and!; [done..|by apply acquires_refl|done|]. set_solver. }
  apply post_bind. unfold post at 1; simpl.
  pose proof (get_validates (store s) key ts (Timestamp0, "") Hst) as Hg.
  destruct (VersionStore.get (store s) key _) as [[] cur]; destruct Hg as [Hin Hcur]; simpl.
  - destruct (ts_gt cur.1 ts) eqn:Hgt.
    + apply post_bind. unfold post at 1. rewrite lock_Abort_run. apply post_ret. simpl.
      unfold drop_active, decided_locks. rewrite Hnone.
      split_and!; [done| |repeat case_match; by apply acquires_refl|done].
      case_match; [done|by rewrite delete_id].
    + apply post_bind. eapply post_mono.
      { apply (on_locks_spec _ (λ b l', acquires id (locks s) l' ∧ (b = true → id ∈ read_held l' key))).
        by apply lockForRead_acquires. }
      intros granted s1 (Hs1 & Hacq & Hheld). rewrite Hs1.
      eapply post_mono; [apply IH; [done|apply Hacq|done]|]. simpl.
      intros r s2 (Hst2 & Hp2 & Hacq2 & Hr). split_and!; [done..|by eapply acquires_trans|].
      destruct r as [ret'|]; [|done]. destruct Hr as [Hpc Hr]. split; [done|].
      intros Hok. destruct (Hr Hok) as [Hg Hrest]. destruct granted; [|done].
      split; [done|]. intros k t [[= -> ->]|Hk]%elem_of_cons; [|by apply Hrest].
      intros _. rewrite Hst2. split; [by apply Hcur|].
      destruct Hacq2 as [_ Hm]. apply (Hm key). auto.
  - eapply post_mono; [by apply IH|].
    intros r s2 (Hst2 & Hp2 & Hacq2 & Hr). split_and!; [done..|].
    destruct r as [ret'|]; [|done]. destruct Hr as [Hpc Hr]. split; [done|].
    intros Hok. destruct (Hr Hok) as [Hg Hrest]. split; [done|].
    intros k t [[= -> ->]|Hk]%elem_of_cons; [|by apply Hrest].
    intros Hin'. rewrite Hst2 in Hin'. congruence.
Qed.

Lemma lock_writes_spec id ret writes s :
  LockServer.wf (locks s) →
  wp (lock_writes id ret writes) (λ ret' s',
    s' = s <| locks := locks s' |> ∧ acquires id (locks s) (locks s') ∧
    (ret' = REPLY_OK → ret = REPLY_OK ∧ ∀ k, k ∈ writes.*1 → id ∈ write_held (locks s') k)) s.
Proof.
  revert ret s. induction writes as [|[key v] writes IH]; intros ret s Hl; simpl.
  { apply post_ret. split_and!; [by destruct s|by apply acquires_refl|set_solver]. }
  apply post_bind. eapply post_mono.
  { apply (on_locks_spec _ (λ b l', acquires id (locks s) l' ∧ (b = true → id ∈ write_held l' key))).
    by apply lockForWrite_acquires. }
  intros granted s1 (Hs1 & Hacq & Hheld).
  eapply post_mono; [apply IH; apply Hacq|]. simpl.
  intros ret' s2 (Hs2 & Hacq2 & Hr). split_and!.
  - rewrite Hs2, Hs1. done.
  - by eapply acquires_trans.
  - intros Hok. destruct (Hr Hok) as [Hg Hrest]. destruct granted; [|done]. split; [done|].
    intros k [->|Hk]%elem_of_cons; [|by apply Hrest]. destruct Hacq2 as [_ Hm]. apply (Hm key). auto.
Qed.

(** A transaction with its locks: all of its write set, and the part of its read set
    that is in the store, where the versions read are the latest. *)
Definition secured (s : LockStore) (id : Z) (txn : Transaction) : Prop :=
  (∀ k, is_Some (writeSet txn !! k) → id ∈ write_held (locks s) k) ∧
  (∀ k ts, readSet txn !! k = Some ts → read_secured s id k ts).

Lemma getLocks_spec id txn s :
  wf (store s) → LockServer.wf (locks s) → prepared s !! id = None →
  wp (getLocks id txn) (λ ret s',
    store s' = store s ∧ prepared s' = prepared s ∧ acquires id (locks s) (locks s') ∧
    (precommitted s' = precommitted s ∨
     ret = REPLY_ABORT ∧ precommitted s' = delete id (precommitted s)) ∧
    (ret = REPLY_OK → secured s' id txn)) s.
Proof.
  intros Hst Hl Hnone. unfold getLocks. apply post_bind.
  eapply post_mono; [by apply lock_reads_spec|]. simpl.
  intros [ret|] s1 (Hst1 & Hp1 & Hacq1 & Hr).
  - destruct Hr as [Hpc1 Hr]. eapply post_mono; [apply lock_writes_spec, Hacq1|].
    intros ret' s2 (Hs2 & Hacq2 & Hw). rewrite Hs2; simpl.
    split_and!; [done..|by eapply acquires_trans|by left|].
    intros Hok. destruct (Hw Hok) as [-> Hw']. destruct (Hr eq_refl) as [_ Hr']. split.
    + intros k Hk. apply Hw'. by apply elem_of_hash_order_keys.
    + intros k ts Hk Hin. simpl in *. destruct (Hr' k ts) as [Hc Hh]; [by apply elem_of_hash_order|done|].
      split; [done|]. destruct Hacq2 as [_ Hm]. by apply (Hm k).
  - apply post_ret. split_and!; [done..|by right|done].
Qed.

Lemma Prepare_checked id txn s :
  wf (store s) → LockServer.wf (locks s) → prepared s !! id = None →
  wp (Prepare id txn true) (λ ret s',
    store s' = store s ∧ acquires id (locks s) (locks s') ∧
    prepared s' = (if decide (ret = REPLY_OK) then <[id := txn]> (prepared s) else prepared s) ∧
    (precommitted s' = precommitted s ∨
     ret = REPLY_ABORT ∧ precommitted s' = delete id (precommitted s)) ∧
    (ret = REPLY_OK → secured s' id txn)) s.
Proof.
  intros Hst Hl Hnone. unfold Prepare. apply post_bind. unfold post at 1; simpl. rewrite Hnone.
  apply post_bind. eapply post_mono; [by apply getLocks_spec|].
  intros ret s1 (Hst1 & Hp1 & Hacq & Hpc & Hok). apply post_bind.
  destruct (ret =? REPLY_OK) eqn:Hret; simpl.
  - apply Z.eqb_eq in Hret as ->. unfold post; simpl.
    split_and!; [done..|by rewrite Hp1|done|done].
  - apply Z.eqb_neq in Hret. unfold post; simpl. rewrite decide_False by done. by split_and!.
Qed.
End get_locks.

(** ** The contract *)

Section laws.
Context `{HashOrder} `{Clock}.

Lemma Prepare_contract id txn chk s :
  wf (store s) → LockServer.wf (locks s) →
  wp (Prepare id txn chk) (λ ret s',
    (wf (store s') ∧ LockServer.wf (locks s')) ∧ store s' = store s ∧
    prepared s' = (if decide (ret = REPLY_OK) then add_prepared (prepared s) id txn
                   else prepared s) ∧
    delete id (precommitted s') = delete id (precommitted s) ∧
    (ret = REPLY_OK → precommitted s' = precommitted s)) s.
Proof.
  intros Hst Hl. unfold add_prepared. destruct (prepared s !! id) as [t0|] eqn:Hp.
  { unfold Prepare. apply post_bind. unfold post at 1; simpl. rewrite Hp. by apply post_ret. }
  destruct chk.
  - eapply post_mono; [by apply Prepare_checked|].
    intros ret s' (Hst' & Hacq & Hp' & Hpc & _). rewrite Hst'. split_and!; [done|apply Hacq|done..| |].
    + destruct Hpc as [->|[_ ->]]; [done|by rewrite delete_delete_eq].
    + intros ->. by destruct Hpc as [->|[[=] _]].
  - unfold Prepare. apply post_bind. unfold post at 1; simpl. rewrite Hp. by split_and!.
Qed.

(** [getLocks] only ever assigns [REPLY_FAIL] to [ret]. *)
Lemma lock_reads_codes id txn ret reads s :
  wlp (lock_reads id txn ret reads) (λ r _, r = None ∨ r = Some ret ∨ r = Some REPLY_FAIL) s.
Proof.
  revert ret s. induction reads as [|[key ts] reads IH]; intros ret s; simpl; [apply post_ret; auto|].
  apply post_bind. unfold post at 1; simpl.
  destruct (VersionStore.get (store s) key _) as [[] cur]; simpl; [|apply IH].
  destruct (ts_gt cur.1 ts); apply post_bind; (eapply post_mono; [apply wlp_any|]).
  - intros. apply post_ret. auto.
  - intros [] s' _; [apply IH|]. eapply post_mono; [apply IH|]. naive_solver.
Qed.

Lemma lock_writes_codes id ret writes s :
  wlp (lock_writes id ret writes) (λ r _, r = ret ∨ r = REPLY_FAIL) s.
Proof.
  revert ret s. induction writes as [|[key v] writes IH]; intros ret s; simpl; [apply post_ret; auto|].
  apply post_bind. eapply post_mono; [apply wlp_any|].
  intros [] s' _; [apply IH|]. eapply post_mono; [apply IH|]. naive_solver.
Qed.

Lemma Prepare_returns_codes id txn chk s :
  wlp (Prepare id txn chk) (λ r _, r = REPLY_OK ∨ r = REPLY_FAIL ∨ r = REPLY_ABORT) s.
Proof.
  unfold Prepare. apply post_bind. unfold post at 1; simpl.
  destruct (prepared s !! id); [apply post_ret; auto|]. destruct chk.
  - apply post_bind. apply (post_mono _ _ (λ r _, r = REPLY_OK ∨ r = REPLY_FAIL ∨ r = REPLY_ABORT)).
    + unfold getLocks. apply post_bind. eapply post_mono; [apply lock_reads_codes|].
      intros [ret|] s' Hret; [|apply post_ret; auto].
      eapply post_mono; [apply lock_writes_codes|]. unfold REPLY_OK in *. naive_solver.
    + intros r s' Hr. apply post_bind. eapply post_mono; [apply wlp_any|].
      intros. by apply post_ret.
  - apply post_bind. eapply post_mono; [apply wlp_any|]. intros. apply post_ret. auto.
Qed.

#[global] Program Instance Lock_laws : TxnStoreLaws LockStore := {|
  data := store;
  preparedTxns := prepared;
  precommittedTxns := precommitted;
  store_ok s := wf (store s) ∧ LockServer.wf (locks s)
|}.
Next Obligation. by intros s [? _]. Qed.
Next Obligation. intros id t chk s [Hst Hl]. by apply Prepare_contract. Qed.
Next Obligation.
  intros id t chk s [t0 Ht]. simpl. unfold Prepare, mbind, M_bind. simpl. by rewrite Ht.
Qed.
Next Obligation.
  intros id ts s [Hst Hl]. apply wp_run. simpl. rewrite lock_Commit_run. eexists _, _. split; [done|].
  simpl. split_and!; [|by apply decided_locks_releases|done..].
  case_match; [by apply install_all_wf|done].
Qed.
Next Obligation.
  intros id t s [Hst Hl]. apply wp_run. simpl. rewrite lock_Abort_run. eexists _, _. split; [done|].
  simpl. split_and!; [done|by apply decided_locks_releases|done..].
Qed.
Next Obligation.
  intros id t s [Hst Hl] Hp. apply wp_run. simpl. unfold PreCommit. rewrite Hp. simpl.
  eexists _, _. split; [done|]. simpl.
  split_and!; [by apply precommit_all_wf|by apply dropLocks_spec|done..].
Qed.
Next Obligation.
  intros k v ts s [Hst Hl]. apply wp_run. eexists _, _. split; [done|]. simpl.
  split_and!; [by apply put_wf|done..].
Qed.
Next Obligation.
  intros id t chk s st s' _ Hrun. eapply wlp_run in Hrun; [exact Hrun|apply Prepare_returns_codes].
Qed.
Next Obligation.
  intros id t s. simpl. unfold Prepare, mbind, M_bind; simpl. case_match; by eexists.
Qed.
Next Obligation.
  intros id k v d s. simpl. unfold Get_dep, mbind, M_bind; simpl.
  by destruct (VersionStore.get_dep (store s) k v d) as [[[] v'] dep].
Qed.
End laws.

(** ** Prepared transactions hold their locks *)

Section two_phase.
Context `{HashOrder} `{Clock}.

(** [K] stands for the keys the database was loaded with: [Prepare] takes no read lock
    on a key that has no version. *)
Definition loaded (K : string → Prop) (s : LockStore) : Prop :=
  ∀ k, K k → inStore (store s) k = true.

Definition holds_locks (K : string → Prop) (s : LockStore) (id : Z) (txn : Transaction) : Prop :=
  (∀ k, is_Some (writeSet txn !! k) → id ∈ write_held (locks s) k) ∧
  (∀ k, K k → is_Some (readSet txn !! k) → id ∈ read_held (locks s) k).

(** Calls a shard leader makes, with lock acquisition switched on. *)
Inductive leader_step : LockStore → LockStore → Prop :=
| leader_get s id k d r s' : Get id k d s = Ok (r, s') → leader_step s s'
| leader_prepare s id t ret s' : Prepare id t true s = Ok (ret, s') → leader_step s s'
| leader_commit s id ts s' : Commit id ts s = Ok (tt, s') → leader_step s s'
| leader_abort s id t s' : Abort id t s = Ok (tt, s') → leader_step s s'.

Inductive leader_step_precommit : LockStore → LockStore → Prop :=
| leader_base s s' : leader_step s s' → leader_step_precommit s s'
| leader_precommit s id s' : PreCommit id s = Ok (tt, s') → leader_step_precommit s s'.

(** The database as loaded, before the first transaction. *)
Definition initial (K : string → Prop) (s : LockStore) : Prop :=
  wf (store s) ∧ loaded K s ∧ locks s = LockServer_new ∧ prepared s = ∅ ∧ precommitted s = ∅.

Definition safe (K : string → Prop) (s : LockStore) : Prop :=
  wf (store s) ∧ LockServer.wf (locks s) ∧ loaded K s ∧
  ∀ id t, prepared s !! id = Some t → holds_locks K s id t.

(** Locks of the others survive what [id] takes or gives up. *)
Lemma holds_locks_keep K s s' id j t :
  acquires id (locks s) (locks s') ∨ releases id (locks s) (locks s') ∧ j ≠ id →
  holds_locks K s j t → holds_locks K s' j t.
Proof.
  intros Hl [Hw Hr]. split.
  - intros k Hk. specialize (Hw k Hk).
    destruct Hl as [[_ Hl]|[[_ Hl] Hne]]; specialize (Hl k); set_solver.
  - intros k HK Hk. specialize (Hr k HK Hk).
    destruct Hl as [[_ Hl]|[[_ Hl] Hne]]; specialize (Hl k); set_solver.
Qed.

Lemma secured_holds_locks K s id t : loaded K s → secured s id t → holds_locks K s id t.
Proof.
  intros HK [Hw Hr]. split; [done|]. intros k Hk [ts Hts]. by apply (Hr k ts Hts), HK.
Qed.

Lemma Get_run id k d s :
  LockServer.wf (locks s) →
  wp (Get id k d) (λ _ s', s' = s <| locks := locks s' |> ∧ acquires id (locks s) (locks s')) s.
Proof.
  intros Hl. unfold Get. apply post_bind. unfold post at 1; simpl.
  destruct (VersionStore.get (store s) k d) as [[] v]; simpl.
  - apply post_bind. eapply post_mono.
    + apply (on_locks_spec _ (λ _ l', acquires id (locks s) l')).
      destruct (lockForRead_acquires k id (locks s) Hl) as (b & l' & ? & ? & _). eauto.
    + intros granted s' [Hs' Hacq]. destruct granted; by apply post_ret.
  - apply post_ret. split; [by destruct s|by apply acquires_refl].
Qed.

(** A step that removes at most [id] from the prepared table and locks. *)
Lemma safe_decide K s s' id :
  safe K s → wf (store s') → loaded K s' → releases id (locks s) (locks s') →
  (prepared s' = delete id (prepared s) ∨ prepared s' = prepared s ∧ locks s' = locks s) →
  safe K s'.
Proof.
  intros (_ & Hl & _ & Hh) Hst HK Hrel Hp. split_and!; [done|apply Hrel|done|].
  intros j t Hj. destruct Hp as [Hp|[Hp Hlk]]; rewrite Hp in Hj.
  - apply lookup_delete_Some in Hj as [Hne Hj]. eapply holds_locks_keep; [right; split; [done|congruence]|auto].
  - destruct (Hh j t Hj) as [Hw Hr]. split; by rewrite Hlk.
Qed.

Lemma decided_prepared s id :
  drop_active (prepared s) (precommitted s) id = delete id (prepared s) ∨
  drop_active (prepared s) (precommitted s) id = prepared s ∧ decided_locks s id = locks s.
Proof. unfold drop_active, decided_locks. destruct (precommitted s !! id); auto. Qed.

Lemma lock_safe_Prepare K id t s ret s' :
  safe K s → Prepare id t true s = Ok (ret, s') → safe K s'.
Proof.
  intros (Hst & Hl & HK & Hh) Hrun. destruct (prepared s !! id) as [t0|] eqn:Hp.
  { unfold Prepare, mbind, M_bind in Hrun; simpl in Hrun. rewrite Hp in Hrun.
    injection Hrun as <- <-. by split_and!. }
  pose proof (Prepare_checked id t s Hst Hl Hp) as Hspec. unfold post in Hspec. rewrite Hrun in Hspec.
  destruct Hspec as (Hst' & Hacq & Hp' & _ & Hok).
  assert (loaded K s') as HK' by (unfold loaded; by rewrite Hst').
  split_and!; [by rewrite Hst'|apply Hacq|done|].
  intros j tj Hj. rewrite Hp' in Hj. case_decide as Hret.
  - apply lookup_insert_Some in Hj as [[<- <-]|[_ Hj]];
      [by apply secured_holds_locks; auto|eapply holds_locks_keep; eauto].
  - eapply holds_locks_keep; eauto.
Qed.

Lemma lock_safe_step K s s' : leader_step_precommit s s' → safe K s → safe K s'.
Proof.
  intros Hstep Hsafe. pose proof Hsafe as (Hst & Hl & HK & Hh).
  destruct Hstep as [s s' Hstep|s id s' Hrun];
    [destruct Hstep as [s id k d r s' Hrun|s id t ret s' Hrun|s id ts s' Hrun|s id t s' Hrun]|].
  - pose proof (Get_run id k d s Hl) as Hget. unfold post in Hget. rewrite Hrun in Hget.
    destruct Hget as [-> Hacq]. split_and!; [done|apply Hacq|done|]. simpl.
    intros j t Hj. eapply holds_locks_keep; [left; apply Hacq|auto].
  - by eapply lock_safe_Prepare.
  - rewrite lock_Commit_run in Hrun. injection Hrun as <-.
    apply (safe_decide K s _ id); simpl; [done| | |by apply decided_locks_releases|apply decided_prepared].
    + case_match; [by apply install_all_wf|done].
    + intros k Hk. simpl. case_match; [apply install_all_inStore|]; by apply HK.
  - rewrite lock_Abort_run in Hrun. injection Hrun as <-.
    by apply (safe_decide K s _ id); simpl;
      [..|apply decided_locks_releases|apply decided_prepared].
  - injection Hrun as <-. apply (safe_decide K s _ id); simpl; [done| | | |by left].
    + by apply precommit_all_wf.
    + intros k Hk. simpl. apply inStore_spec. rewrite precommit_all_versions. by apply inStore_spec, HK.
    + by apply dropLocks_spec.
Qed.

Lemma lock_safe_reachable K s0 s : initial K s0 → rtc leader_step_precommit s0 s → safe K s.
Proof.
  intros (Hst & HK & Hl & Hp & _) Hr. revert Hr. apply (rtc_ind_r (λ s, safe K s)).
  - split_and!; [done|rewrite Hl; apply wf_new|done|]. rewrite Hp. by intros id t ?%lookup_empty_Some.
  - intros. by eapply lock_safe_step.
Qed.

(** C11: Two-phase locking: in every state a leader reaches from the loaded database, by any
    sequence of locking reads, checked prepares, commits, pre-commits and aborts, every
    prepared transaction holds the write lock of each key it writes and the read lock
    of each loaded key it read; so distinct prepared transactions do not conflict. *)
Theorem prepared_transactions_hold_locks (K : string → Prop) (s0 s : LockStore) :
  initial K s0 → rtc leader_step_precommit s0 s →
  (∀ id t, prepared s !! id = Some t → holds_locks K s id t) ∧ conflict_free K (prepared s).
Proof.
  intros Hi Hr. destruct (lock_safe_reachable K s0 s Hi Hr) as (_ & Hl & _ & Hh). split; [done|].
  intros i j ti tj k Hij Hpi Hpj Hw. apply (proj1 (Hh i ti Hpi) k) in Hw.
  destruct (Hh j tj Hpj) as [Hwj Hrj].
  split; [intros Hk|intros HK Hk]; apply Hij; symmetry;
    apply (wf_mutual_exclusion (locks s) k i j Hl Hw); auto.
Qed.

(** Every read of a prepared transaction is still current. *)
Definition validated (K : string → Prop) (s : LockStore) : Prop :=
  safe K s ∧ precommitted s = ∅ ∧
  ∀ id t k ts, prepared s !! id = Some t → K k → readSet t !! k = Some ts → current (store s) k ts.

Lemma validated_Commit K id ts s s' :
  validated K s → Commit id ts s = Ok (tt, s') →
  ∀ j t k rts, prepared s' !! j = Some t → K k → readSet t !! k = Some rts → current (store s') k rts.
Proof.
  intros (Hsafe & Hpc & Hcur) Hrun. rewrite lock_Commit_run in Hrun. injection Hrun as <-. simpl.
  unfold drop_active, active_txn. rewrite Hpc, lookup_empty.
  intros j t k rts [Hne Hj]%lookup_delete_Some Hk Hrt.
  destruct (prepared s !! id) as [ti|] eqn:Hid; [|by eapply Hcur].
  unfold current. rewrite install_all_versions. destruct (writeSet ti !! k) as [v|] eqn:Hw;
    [|by apply (Hcur j t k rts)].
  destruct Hsafe as (_ & Hl & _ & Hh). destruct Hne.
  symmetry. eapply (wf_mutual_exclusion (locks s) k); [done| |left].
  - apply (proj1 (Hh id ti Hid)). by eexists.
  - apply (proj2 (Hh j t Hj)); [done|by eexists].
Qed.

Lemma lock_validated_step K s s' : leader_step s s' → validated K s → validated K s'.
Proof.
  intros Hstep (Hsafe & Hpc & Hcur). split; [by eapply lock_safe_step; [apply leader_base|]|].
  pose proof Hsafe as (Hst & Hl & HK & _).
  destruct Hstep as [s id k d r s' Hrun|s id t ret s' Hrun|s id ts s' Hrun|s id t s' Hrun].
  - pose proof (Get_run id k d s Hl) as Hget. unfold post in Hget. rewrite Hrun in Hget.
    destruct Hget as [-> _]. done.
  - destruct (prepared s !! id) as [t0|] eqn:Hp.
    { unfold Prepare, mbind, M_bind in Hrun; simpl in Hrun. rewrite Hp in Hrun.
      injection Hrun as <- <-. done. }
    pose proof (Prepare_checked id t s Hst Hl Hp) as Hspec. unfold post in Hspec. rewrite Hrun in Hspec.
    destruct Hspec as (Hst' & _ & Hp' & Hpc' & Hok). rewrite Hpc, delete_empty in Hpc'.
    split; [by destruct Hpc' as [->|[_ ->]]|]. intros j tj k ts. rewrite Hp', Hst'.
    case_decide as Hret; [|by apply Hcur].
    intros [[<- <-]|[_ Hj]]%lookup_insert_Some Hk Hrt; [|by eapply Hcur].
    destruct (Hok Hret) as [_ Hr]. destruct (Hr k ts Hrt) as [Hc _]; rewrite Hst' in *; auto.
  - split; [|by eapply validated_Commit]. rewrite lock_Commit_run in Hrun. injection Hrun as <-. simpl.
    by rewrite Hpc, delete_empty.
  - rewrite lock_Abort_run in Hrun. injection Hrun as <-. simpl. rewrite Hpc, delete_empty.
    split; [done|]. unfold drop_active. rewrite lookup_empty.
    intros j tj k ts [_ Hj]%lookup_delete_Some. by eapply Hcur.
Qed.

(** C12: Strictness: without pre-commits, a read of a loaded key that [Prepare] accepted is
    still current as long as the transaction stays prepared. *)
Theorem lock_validated_reads_stay_current (K : string → Prop) (s0 s : LockStore) id t k ts :
  initial K s0 → rtc leader_step s0 s →
  prepared s !! id = Some t → K k → readSet t !! k = Some ts → current (store s) k ts.
Proof.
  intros Hi Hr. assert (validated K s) as (_ & _ & Hcur); [|apply Hcur].
  revert Hr. apply (rtc_ind_r (λ s, validated K s)); [|intros; by eapply lock_validated_step].
  split; [by eapply lock_safe_reachable|]. destruct Hi as (_ & _ & _ & -> & ->).
  split; [done|]. by intros j tj k' ts' ?%lookup_empty_Some.
Qed.

(** Second phase: whichever way a prepared transaction leaves the prepared table
    (commit, abort or pre-commit), it no longer holds any lock of its read and write
    sets afterwards, and no other transaction has lost a lock. *)
Theorem decision_releases_locks (s : LockStore) id t :
  LockServer.wf (locks s) → prepared s !! id = Some t → precommitted s !! id = None →
  ∀ s', (∃ ts, Commit id ts s = Ok (tt, s')) ∨ (∃ t', Abort id t' s = Ok (tt, s')) ∨
        PreCommit id s = Ok (tt, s') →
  prepared s' !! id = None ∧ releases id (locks s) (locks s') ∧
  (∀ k, is_Some (writeSet t !! k) → id ∉ write_held (locks s') k) ∧
  (∀ k, is_Some (readSet t !! k) → id ∉ read_held (locks s') k).
Proof.
  intros Hl Hp Hpc s' Hrun.
  assert (prepared s' = delete id (prepared s) ∧ locks s' = dropLocks id t (locks s)) as [-> ->].
  { destruct Hrun as [[ts Hrun]|[[t' Hrun]|Hrun]].
    - rewrite lock_Commit_run in Hrun. injection Hrun as <-. simpl. unfold drop_active, decided_locks.
      by rewrite Hpc, Hp.
    - rewrite lock_Abort_run in Hrun. injection Hrun as <-. simpl. unfold drop_active, decided_locks.
      by rewrite Hpc, Hp.
    - injection Hrun as <-. simpl. by rewrite Hp. }
  split; [apply lookup_delete_eq|]. by apply dropLocks_spec.
Qed.

(** The locks of a refused transaction stay behind: when [Prepare] refuses a
    transaction, the locks it took on the way are kept, and since the transaction is in
    neither table, neither [Abort] nor [Commit] of it releases them. *)
Theorem refused_prepare_keeps_locks (s s1 : LockStore) id t t' ts ret :
  wf (store s) → LockServer.wf (locks s) →
  prepared s !! id = None → precommitted s !! id = None →
  Prepare id t true s = Ok (ret, s1) → ret ≠ REPLY_OK →
  Abort id t' s1 = Ok (tt, s1) ∧ Commit id ts s1 = Ok (tt, s1) ∧ acquires id (locks s) (locks s1).
Proof.
  intros Hst Hl Hp Hpc Hrun Hret. pose proof (Prepare_checked id t s Hst Hl Hp) as Hspec.
  unfold post in Hspec. rewrite Hrun in Hspec. destruct Hspec as (_ & Hacq & Hp1 & Hpc1 & _).
  rewrite decide_False in Hp1 by done.
  assert (precommitted s1 !! id = None) as Hpc1'.
  { destruct Hpc1 as [->|[_ ->]]; [done|apply lookup_delete_eq]. }
  unfold Abort, Commit. rewrite Hpc1', Hp1, Hp. done.
Qed.
End two_phase.

(** ** Concrete instances *)

#[local] Existing Instance default_order.
#[local] Existing Instance demo_clock.

Definition demo_ls : LockStore := LockStore_new <| store ::= put "x" "null" Timestamp0 |>.

Definition loaded_x (k : string) : Prop := k = "x".

Definition run_ls {A} (r : res (A * LockStore)) : LockStore :=
  match r with Ok (_, s) => s | _ => LockStore_new end.

(** Reads and writes [x]. *)
Definition demo_rmw : Transaction := addWriteSet "x" "1" (addReadSet "x" Timestamp0 (Transaction_id 0)).

(** Writes [y]. *)
Definition demo_write_y : Transaction := addWriteSet "y" "2" (Transaction_id 0).

(** Reads and writes [x] and writes [y]. *)
Definition demo_both : Transaction := addWriteSet "y" "3" demo_rmw.

Definition demo_ls_1 : LockStore := run_ls (Prepare 1 demo_rmw true demo_ls).

(** [2] holds [y], and [1], which needs it too, is refused. *)
Definition demo_ls_y : LockStore := run_ls (Prepare 2 demo_write_y true demo_ls).
Definition demo_refused : LockStore := run_ls (Prepare 1 demo_both true demo_ls_y).

Lemma demo_ls_initial : initial loaded_x demo_ls.
Proof. split_and!; [apply put_wf, wf_empty|by intros k ->|done..]. Qed.

Lemma demo_ls_reachable : rtc leader_step demo_ls demo_ls_1.
Proof. apply rtc_once, (leader_prepare demo_ls 1 demo_rmw REPLY_OK). vm_compute. reflexivity. Qed.

Lemma demo_ls_reachable_y : rtc leader_step_precommit demo_ls demo_ls_y.
Proof.
  apply rtc_once, leader_base, (leader_prepare demo_ls 2 demo_write_y REPLY_OK).
  vm_compute. reflexivity.
Qed.

Lemma prepared_transactions_hold_locks_witness :
  holds_locks loaded_x demo_ls_1 1 demo_rmw ∧ conflict_free loaded_x (prepared demo_ls_1).
Proof.
  destruct (prepared_transactions_hold_locks loaded_x demo_ls demo_ls_1 demo_ls_initial) as [Hh Hcf].
  - apply (rtc_subrel _ _ _ _ leader_base demo_ls_reachable).
  - split; [apply Hh; vm_compute; reflexivity|exact Hcf].
Defined.

Lemma lock_validated_reads_stay_current_witness : current (store demo_ls_1) "x" Timestamp0.
Proof.
  apply (lock_validated_reads_stay_current loaded_x demo_ls demo_ls_1 1 demo_rmw "x" Timestamp0
           demo_ls_initial demo_ls_reachable); vm_compute; reflexivity.
Defined.

Lemma decision_releases_locks_witness :
  1 ∈ write_held (locks demo_ls_1) "x" ∧
  1 ∉ write_held (locks (run_ls (Commit 1 5 demo_ls_1))) "x".
Proof.
  split; [vm_compute; reflexivity|].
  destruct (lock_safe_reachable loaded_x demo_ls demo_ls_1 demo_ls_initial) as (_ & Hl & _).
  { apply (rtc_subrel _ _ _ _ leader_base demo_ls_reachable). }
  destruct (decision_releases_locks demo_ls_1 1 demo_rmw Hl) with (s' := run_ls (Commit 1 5 demo_ls_1))
    as (_ & _ & Hw & _).
  - vm_compute. reflexivity.
  - vm_compute. reflexivity.
  - left. exists 5. vm_compute. reflexivity.
  - apply Hw. eexists. vm_compute. reflexivity.
Defined.

(** The refused transaction [1] is aborted, and [3], which needs only [x], is refused
    because [1] still holds it. *)
Lemma refused_prepare_keeps_locks_witness :
  Abort 1 demo_both demo_refused = Ok (tt, demo_refused) ∧
  1 ∈ write_held (locks demo_refused) "x" ∧
  prepared demo_refused !! 1 = None ∧
  ∃ s', Prepare 3 demo_rmw true demo_refused = Ok (REPLY_FAIL, s').
Proof.
  destruct (lock_safe_reachable loaded_x demo_ls demo_ls_y demo_ls_initial demo_ls_reachable_y)
    as (Hst & Hl & _).
  destruct (refused_prepare_keeps_locks demo_ls_y demo_refused 1 demo_both demo_both 5 REPLY_FAIL
    Hst Hl) as (Habort & _ & _).
  - vm_compute. reflexivity.
  - vm_compute. reflexivity.
  - vm_compute. reflexivity.
  - vm_compute. discriminate.
  - split_and!; [exact Habort|vm_compute; reflexivity..|].
    exists (run_ls (Prepare 3 demo_rmw true demo_refused)). vm_compute. reflexivity.
Defined.
