(* ===== verification/Sharding.v ===== *)
(** Placement of keys on shards: [Client::key_to_shard] of
    [store/common/frontend/client.h], [LRReplica::key_to_shard] of
    [replication/lr/replica.h] and the tests by which [main] of
    [store/strongstore/server.cc] decides which keys and warehouses a server loads.

    The JSON library ([nlohmann::json], vendored) is a parameter: a parser that may
    throw, and the conversion of a member of the parsed object to [uint64_t], which may
    throw too.  An uncaught exception stops the process. *)

From Stdlib Require Import Ascii.
From S2P Require Import Prelude.

Class JsonLib := {
  json : Type;
  json_parse : string → option json;
  json_uint : json → string → option Z
}.

(** [const uint64_t ware_per_shard] of [store/benchmark/config.h]. *)
Definition ware_per_shard : Z := 10.

(** [(uint64_t) str[i]]: [char] is signed. *)
Definition char_u64 (c : Ascii.ascii) : Z :=
  let b := Z.of_N (Ascii.N_of_ascii c) in u64 (if b <? 128 then b else b - 256).

Fixpoint hash_from (hash : Z) (s : string) : Z :=
  match s with
  | EmptyString => hash
  | String c s' => hash_from (u64 (u64 (u64 (Z.shiftl hash 5) + hash) + char_u64 c)) s'
  end.

Definition key_hash (key : string) : Z := hash_from 5381 key.

(** [LRReplica::key_to_shard]. *)
Definition replica_key_to_shard (nshards : Z) (key : string) : res Z :=
  if u64 nshards =? 0 then Undefined else Ok (key_hash key mod u64 nshards).

(** [key.find('{')] with the two substrings around it. *)
Fixpoint split_at_brace (key : string) : option (string * string) :=
  match key with
  | EmptyString => None
  | String c key' =>
      if decide (c = "{"%char) then Some ("", key)
      else p ← split_at_brace key'; Some (String c p.1, p.2)
  end.

(** The member of the key object that names the warehouse, by table; [Some None] for the
    item table, which has none. *)
Definition warehouse_member (table : string) : option (option string) :=
  if decide (table = "W") then Some (Some "W_ID")
  else if decide (table = "C") then Some (Some "C_W_ID")
  else if decide (table = "D") then Some (Some "D_W_ID")
  else if decide (table = "O") then Some (Some "O_W_ID")
  else if decide (table = "NO") then Some (Some "NO_W_ID")
  else if decide (table = "I") then Some None
  else if decide (table = "S") then Some (Some "S_W_ID")
  else if decide (table = "OL") then Some (Some "OL_W_ID")
  else None.

(** An uncaught C++ exception. *)
Definition or_throw {A} (o : option A) : res A := match o with Some a => Ok a | None => Panic end.

Section json.
Context `{JsonLib}.

(** [Client::key_to_shard].  With an unknown table name [i] is used uninitialised. *)
Definition key_to_shard (key : string) (nshards : Z) : res Z :=
  if nshards =? 0 then
    match split_at_brace key with
    | None => Ok 0
    | Some (table, key_) =>
        match warehouse_member table with
        | None => Undefined
        | Some member =>
            key_json ← or_throw (json_parse key_);
            i ← match member with
                | Some m => or_throw (json_uint key_json m)
                | None => Ok 1
                end;
            Ok (u64 (i - 1) / ware_per_shard)
        end
    end
  else Ok (key_hash key mod nshards).
End json.

(** The test of the loading loop of [main] for the Retwis key file; both operands of
    [%] are unsigned. *)
Definition loads_key (myShard maxShard : Z) (key : string) : res bool :=
  if maxShard =? 0 then Undefined else Ok (key_hash key mod maxShard =? myShard).

(** The warehouses whose files [main] loads for TPC-C:
    [for (int i = 1; i <= ware_per_shard; i++) ... s + i]. *)
Definition loaded_warehouses (myShard : Z) : list Z :=
  (λ i, to_int (myShard * ware_per_shard) + i) <$> seqZ 1 ware_per_shard.

Lemma hash_from_range h s : is_u64 h → is_u64 (hash_from h s).
Proof. revert h. induction s; simpl; intros; auto using u64_range. Qed.

Lemma key_hash_range key : is_u64 (key_hash key).
Proof. apply hash_from_range. done. Qed.

(** Placement agrees across the system: for every key and every positive number of
    shards, the client and the replicas compute the same shard, that shard is in
    range, and it is the one and only shard whose server loads the key. *)
Theorem key_placement_agrees `{JsonLib} (key : string) (nshards : Z) :
  0 < nshards < 2 ^ 31 →
  ∃ shard, 0 ≤ shard < nshards ∧
    key_to_shard key nshards = Ok shard ∧
    replica_key_to_shard nshards key = Ok shard ∧
    ∀ myShard, loads_key myShard nshards key = Ok (bool_decide (myShard = shard)).
Proof.
  intros Hn. exists (key_hash key mod nshards).
  pose proof (Z.mod_pos_bound (key_hash key) nshards ltac:(lia)).
  assert (u64 nshards = nshards) as Hu.
  { apply u64_small. unfold is_u64, u64_modulus. lia. }
  unfold key_to_shard, replica_key_to_shard, loads_key. rewrite Hu.
  assert ((nshards =? 0) = false) as -> by lia. split_and!; [lia..|done|done|].
  intros my. f_equal. case_bool_decide; lia.
Qed.

Lemma split_at_brace_app table rest :
  (∀ i c, String.get i table = Some c → c ≠ "{"%char) →
  split_at_brace (table +:+ String "{" rest) = Some (table, String "{" rest).
Proof.
  induction table as [|c table IH]; intros Hno; [done|].
  assert (split_at_brace (table +:+ String "{" rest) = Some (table, String "{" rest)) as Hrec.
  { apply IH. intros i d Hd. by apply (Hno (S i)). }
  simpl. destruct (decide (c = "{"%char)) as [Heq|_].
  - by destruct (Hno O c eq_refl).
  - by rewrite Hrec.
Qed.

Lemma elem_of_loaded_warehouses shard w :
  0 ≤ shard < 2 ^ 20 →
  w ∈ loaded_warehouses shard ↔ (w - 1) / ware_per_shard = shard.
Proof.
  intros Hs. unfold loaded_warehouses, ware_per_shard. rewrite to_int_small by lia.
  rewrite list_elem_of_fmap. setoid_rewrite elem_of_seqZ. split.
  - intros (i & -> & Hi). symmetry. apply (Z.div_unique _ _ _ (i - 1)); lia.
  - intros Hdiv. exists (w - shard * 10).
    pose proof (Z.div_mod (w - 1) 10 ltac:(lia)). pose proof (Z.mod_pos_bound (w - 1) 10 ltac:(lia)). lia.
Qed.

(** TPC-C placement: a key of a table that names warehouse [w] goes to the shard whose
    server loads the file of [w], which is in range when all warehouses are spread over
    [nshards] shards. *)
Theorem warehouse_placement `{JsonLib} (table member rest : string) (j : json) (w nshards : Z) :
  warehouse_member table = Some (Some member) →
  (∀ i c, String.get i table = Some c → c ≠ "{"%char) →
  json_parse (String "{" rest) = Some j → json_uint j member = Some w →
  1 ≤ w ≤ nshards * ware_per_shard → nshards < 2 ^ 20 →
  ∃ shard, key_to_shard (table +:+ String "{" rest) 0 = Ok shard ∧
    0 ≤ shard < nshards ∧
    ∀ s, 0 ≤ s < nshards → w ∈ loaded_warehouses s ↔ s = shard.
Proof.
  intros Ht Hno Hj Hw Hrange Hn. unfold ware_per_shard in Hrange.
  exists ((w - 1) / ware_per_shard). unfold key_to_shard; simpl.
  rewrite split_at_brace_app, Ht, Hj by done. simpl. rewrite Hw; simpl.
  assert (u64 (w - 1) = w - 1) as ->.
  { apply u64_small. unfold is_u64, u64_modulus. lia. }
  assert (0 ≤ (w - 1) / ware_per_shard < nshards) as Hb.
  { unfold ware_per_shard. pose proof (Z.div_mod (w - 1) 10 ltac:(lia)).
    pose proof (Z.mod_pos_bound (w - 1) 10 ltac:(lia)). lia. }
  split_and!; [done|lia..|]. intros s Hs. rewrite elem_of_loaded_warehouses by lia. naive_solver.
Qed.

(** ** Concrete instances *)

(** A library whose parser keeps the text and whose members are all 17. *)
Definition demo_json : JsonLib :=
  {| json := string; json_parse := Some; json_uint := λ _ _, Some 17 |}.

Lemma key_placement_agrees_witness :
  ∃ shard, 0 ≤ shard < 3 ∧ key_to_shard (H := demo_json) "user42" 3 = Ok shard ∧
    replica_key_to_shard 3 "user42" = Ok shard ∧
    ∀ myShard, loads_key myShard 3 "user42" = Ok (bool_decide (myShard = shard)).
Proof. apply (key_placement_agrees (H := demo_json) "user42" 3). lia. Defined.

Lemma warehouse_placement_witness :
  ∃ shard, key_to_shard (H := demo_json) "NO{}" 0 = Ok shard ∧ 0 ≤ shard < 3 ∧
    ∀ s, 0 ≤ s < 3 → 17 ∈ loaded_warehouses s ↔ s = shard.
Proof.
  apply (warehouse_placement (H := demo_json) "NO" "NO_W_ID" "}" "{}" 17 3).
  - reflexivity.
  - intros [|[|i]] c Hc; simpl in Hc; try discriminate; injection Hc as <-; discriminate.
  - reflexivity.
  - reflexivity.
  - unfold ware_per_shard. lia.
  - lia.
Defined.
