(* ===== verification/StrongServer.v ===== *)
(** The application replica of the strong store: [store/strongstore/server.h] and
    [server.cc], with the messages of [store/strongstore/strong-proto.proto].

    The server owns one transactional store, chosen by the concurrency mode, and maps
    the upcalls of the replication layer to it.  The store is reached through the
    [TxnStore] interface; virtual dispatch on the store object is the instance for the
    sum of the two store types.  Serialization of the messages (protobuf, generated
    code) is a parameter, [Codec]. *)

From Stdlib Require Import Ascii.
From S2P Require Import LockServer OCCStore LockStore.
From S2P Require Import Prelude Timestamp Transaction VersionStore TxnStore Sharding.

(** ** Messages *)

Inductive Operation := GET | PREPARE | COMMIT | ABORT | PRECOMMIT.

Record GetMessage := MkGetMessage { get_key : string; get_timestamp : option TimestampMessage }.
Record PrepareMessage := MkPrepareMessage { prepare_txn : TransactionMessage; prepare_timestamp : option Z }.
Record CommitMessage := MkCommitMessage { commit_timestamp : Z }.
Record AbortMessage := MkAbortMessage { abort_txn : TransactionMessage }.

Record Request := MkRequest {
  op : Operation;
  txnid : Z;
  req_get : option GetMessage;
  req_prepare : option PrepareMessage;
  req_commit : option CommitMessage;
  req_abort : option AbortMessage
}.

Record Reply := MkReply {
  status : Z;
  rep_value : option string;
  rep_timestamp : option Z;
  dependency : option Z
}.

#[global] Instance Reply_eta : Eta Reply := λ r,
  MkReply (status r) (rep_value r) (rep_timestamp r) (dependency r).

(** The accessor of an absent sub-message returns its default instance. *)
Definition get_of (r : Request) : GetMessage := default (MkGetMessage "" None) (req_get r).
Definition prepare_of (r : Request) : PrepareMessage :=
  default (MkPrepareMessage no_txn None) (req_prepare r).
Definition commit_of (r : Request) : CommitMessage := default (MkCommitMessage 0) (req_commit r).
Definition abort_of (r : Request) : AbortMessage := default (MkAbortMessage no_txn) (req_abort r).

(** Serialization of a message type: [ParseFromString] and [SerializeToString]. *)
Class Codec (A : Type) := {
  SerializeToString : A → string;
  ParseFromString : string → A
}.

(** Parsing a serialized message gives the message back. *)
Class CodecLaw (A : Type) `{!Codec A} :=
  parse_serialize : ∀ a : A, ParseFromString (SerializeToString a) = a.

(** ** The server *)

Record Server (S : Type) := MkServer { mode : Mode; tpcMode : TpcMode; store : S }.
Arguments MkServer {_} _ _ _.
Arguments mode {_} _.
Arguments tpcMode {_} _.
Arguments store {_} _.

(** A call of the store. *)
Definition on_store {S A} (m : M S A) : M (Server S) A := λ s,
  match m (store s) with
  | Ok (a, st) => Ok (a, MkServer (mode s) (tpcMode s) st)
  | Panic => Panic
  | Undefined => Undefined
  end.

Section upcalls.
Context {S : Type} `{!TxnStore S} `{!Codec Request} `{!Codec Reply}.

Definition GetUpcall (str1 : string) : M (Server S) string :=
  let request : Request := ParseFromString str1 in
  '(st, dep, reply) ←
    match get_timestamp (get_of request) with
    | Some ts =>
        '(st, val, dep) ← on_store (Get_at_dep (txnid request) (get_key (get_of request))
                                      (Timestamp_of_msg ts) (Timestamp0, "") 0);
        mret (st, dep, MkReply st (if st =? 0 then Some val.2 else None) None None)
    | None =>
        '(st, val, dep) ← on_store (Get_dep (txnid request) (get_key (get_of request))
                                      (Timestamp0, "") 0);
        mret (st, dep, if st =? 0
                       then MkReply st (Some val.2) (Some (timestamp val.1)) None
                       else MkReply st None None None)
    end;
  mode ← gets tpcMode;
  let reply' := if decide (mode = MODE_PARALLEL) then reply <| dependency := Some dep |> else reply in
  mret (SerializeToString (reply' <| status := st |>)).

Definition PrepareUpcall (str1 : string) (do_check : bool) : M (Server S) (string * bool) :=
  let request : Request := ParseFromString str1 in
  st ← on_store (Prepare (txnid request)
                  (Transaction_of_msg (prepare_txn (prepare_of request))) do_check);
  if (st =? REPLY_OK) || (st =? REPLY_HAS_PRECOMMIT)
  then mret (SerializeToString (MkReply st None None None), true)
  else mret (SerializeToString (MkReply st None None None), false).

Definition CommitUpcall (str1 : string) : M (Server S) string :=
  let request : Request := ParseFromString str1 in
  _ ← on_store (Commit (txnid request) (commit_timestamp (commit_of request)));
  mret (SerializeToString (MkReply 0 None None None)).

Definition AbortUpcall (str1 : string) : M (Server S) string :=
  let request : Request := ParseFromString str1 in
  _ ← on_store (Abort (txnid request) (Transaction_of_msg (abort_txn (abort_of request))));
  mret (SerializeToString (MkReply 0 None None None)).

Definition PreCommitUpcall (str1 : string) : M (Server S) string :=
  let request : Request := ParseFromString str1 in
  _ ← on_store (PreCommit (txnid request));
  mret (SerializeToString (MkReply 0 None None None)).

Definition Load (key value : string) (timestamp : Timestamp) : M (Server S) unit :=
  on_store (TxnStore.Load key value timestamp).

(** The loading loop of [main] for the Retwis key file: [lines] are the results of the
    [nKeys] calls of [getline]. *)
Definition load_keys (myShard maxShard : Z) (lines : list string) : M (Server S) unit :=
  for_each lines (λ key,
    mine ← lift_res (loads_key myShard maxShard key);
    when mine (Load key "null" Timestamp0)).
End upcalls.

(** ** The choice of the store *)

Section dispatch.
Context {A B : Type}.

(** A virtual call on an object of one of two classes. *)
Definition dispatch {X} (f : M A X) (g : M B X) : M (A + B) X := λ s,
  match s with
  | inl a => '(x, a') ← f a; Ok (x, inl a')
  | inr b => '(x, b') ← g b; Ok (x, inr b')
  end.

Lemma dispatch_wp {X} (f : M A X) (g : M B X) (Qa : X → A → Prop) (Qb : X → B → Prop) s :
  match s with inl a => wp f Qa a | inr b => wp g Qb b end →
  wp (dispatch f g) (λ x s', match s, s' with
                             | inl _, inl a' => Qa x a'
                             | inr _, inr b' => Qb x b'
                             | _, _ => False
                             end) s.
Proof. destruct s; unfold post, dispatch; simpl; by case_match; try case_match. Qed.

Context `{TA : !TxnStore A, TB : !TxnStore B}.

#[global] Instance sum_TxnStore : TxnStore (A + B) := {|
  TxnStore.Get id k v := dispatch (Get id k v) (Get id k v);
  TxnStore.Get_at id k t v := dispatch (Get_at id k t v) (Get_at id k t v);
  TxnStore.Get_dep id k v d := dispatch (Get_dep id k v d) (Get_dep id k v d);
  TxnStore.Get_at_dep id k t v d := dispatch (Get_at_dep id k t v d) (Get_at_dep id k t v d);
  TxnStore.Put id k v := dispatch (Put id k v) (Put id k v);
  TxnStore.Prepare id t c := dispatch (Prepare id t c) (Prepare id t c);
  TxnStore.Commit id ts := dispatch (Commit id ts) (Commit id ts);
  TxnStore.PreCommit id := dispatch (PreCommit id) (PreCommit id);
  TxnStore.Abort id t := dispatch (Abort id t) (Abort id t);
  TxnStore.Load k v t := dispatch (TxnStore.Load k v t) (TxnStore.Load k v t)
|}.
End dispatch.

(** [TxnStore *store]: an object of one of the two classes. *)
Abbreviation AnyStore := (OCCStore.OCCStore + LockStore.LockStore)%type.

(** The constructor; [NOT_REACHABLE] aborts.  The simulated TrueTime clock it also sets
    up is not used by the upcalls. *)
Definition Server_new (m : Mode) (tm : TpcMode) : res (Server AnyStore) :=
  match m with
  | MODE_LOCK | MODE_SPAN_LOCK => Ok (MkServer m tm (inr LockStore.LockStore_new))
  | MODE_OCC | MODE_SPAN_OCC => Ok (MkServer m tm (inl OCCStore.OCCStore_new))
  | MODE_UNKNOWN => Panic
  end.

Section sum_laws.
Context `{HO : HashOrder} {A B : Type} `{TA : !TxnStore A, TB : !TxnStore B}.
Context `{LA : !TxnStoreLaws A, LB : !TxnStoreLaws B}.

Definition either {X} (f : A → X) (g : B → X) (s : A + B) : X :=
  match s with inl a => f a | inr b => g b end.

(** Whichever class the object has, the contract of that class gives the contract of
    the pointer. *)
Lemma dispatch_law {X} (f : M A X) (g : M B X) (Q : X → A + B → Prop) s :
  match s with inl a => wp f (λ x a', Q x (inl a')) a | inr b => wp g (λ x b', Q x (inr b')) b end →
  wp (dispatch f g) Q s.
Proof.
  intros Hs. eapply post_mono; [by apply (dispatch_wp f g)|]. destruct s; intros x [?|?]; naive_solver.
Qed.

#[global] Program Instance sum_laws : TxnStoreLaws (A + B) := {|
  data := either data data;
  preparedTxns := either preparedTxns preparedTxns;
  precommittedTxns := either precommittedTxns precommittedTxns;
  store_ok := either store_ok store_ok
|}.
Next Obligation. intros [a|b] Hok; by apply store_ok_wf. Qed.
Next Obligation. intros id t chk s Hok. apply dispatch_law. destruct s; by apply Prepare_law. Qed.
Next Obligation.
  intros id t chk [a|b] Hp; simpl in *; by rewrite (Prepare_again id t chk _ Hp).
Qed.
Next Obligation. intros id ts s Hok. apply dispatch_law. destruct s; by apply Commit_law. Qed.
Next Obligation. intros id t s Hok. apply dispatch_law. destruct s; by apply Abort_law. Qed.
Next Obligation. intros id t s Hok Hp. apply dispatch_law. destruct s; by apply PreCommit_law. Qed.
Next Obligation. intros k v ts s Hok. apply dispatch_law. destruct s; by apply Load_law. Qed.
Next Obligation.
  intros id t chk [a|b] st s' Hok; simpl in *; intros ([st' x] & Hrun & [= <- _])%res_bind_Ok.
  - by apply (Prepare_codes (S := A) id t chk a _ x).
  - by apply (Prepare_codes (S := B) id t chk b _ x).
Qed.
Next Obligation.
  intros id t [a|b]; simpl.
  - destruct (Prepare_unchecked id t a) as [a' ->]. by eexists.
  - destruct (Prepare_unchecked id t b) as [b' ->]. by eexists.
Qed.
Next Obligation.
  intros id k v d [a|b]; simpl; rewrite Get_dep_law; by destruct (get_dep _ _ _ _) as [[found v'] dep].
Qed.
End sum_laws.

(** ** Properties *)

Section properties.
Context `{HO : HashOrder} {S : Type} `{!TxnStore S} `{!TxnStoreLaws S}.
Context `{!Codec Request} `{!Codec Reply}.
Implicit Types sv : Server S.

(** The transaction a prepare request carries. *)
Definition request_txn (r : Request) : Transaction := Transaction_of_msg (prepare_txn (prepare_of r)).

Lemma on_store_wp {A} (m : M S A) (Q : A → S → Prop) sv :
  wp m Q (store sv) →
  wp (on_store m) (λ a sv', mode sv' = mode sv ∧ tpcMode sv' = tpcMode sv ∧ Q a (store sv')) sv.
Proof. unfold post, on_store. destruct (m (store sv)) as [[]| |]; naive_solver. Qed.

(** The replication layer replicates exactly what is prepared: the prepare upcall of any
    request always returns, changes no data, and asks for replication if and only if
    the transaction is in the prepared table afterwards, which is also exactly when the
    reply says [REPLY_OK]. *)
Theorem prepare_upcall_replicates_iff_prepared (str1 : string) (do_check : bool) sv :
  store_ok (store sv) →
  ∃ st sv', PrepareUpcall str1 do_check sv
            = Ok ((SerializeToString (MkReply st None None None), bool_decide (st = REPLY_OK)), sv') ∧
    (st = REPLY_OK ↔ is_Some (preparedTxns (store sv') !! txnid (ParseFromString str1 : Request))) ∧
    store_ok (store sv') ∧ data (store sv') = data (store sv) ∧ tpcMode sv' = tpcMode sv.
Proof.
  intros Hok. set (request := ParseFromString str1 : Request).
  pose proof (Prepare_law (txnid request) (request_txn request) do_check _ Hok) as Hlaw.
  apply wp_run in Hlaw as (st & s' & Hrun & Hok' & Hd & Hp & _).
  exists st, (MkServer (mode sv) (tpcMode sv) s'). unfold PrepareUpcall. fold request.
  unfold mbind, M_bind, on_store. fold (request_txn request). rewrite Hrun. split_and!; simpl; try done.
  - destruct (Prepare_codes _ _ _ _ _ _ Hok Hrun) as [-> | [-> | ->]]; done.
  - rewrite Hp. case_decide as Hst; [split; [intros _|done]|].
    + unfold add_prepared. destruct (preparedTxns (store sv) !! txnid request) eqn:E; [by rewrite E|].
      rewrite lookup_insert_eq. by eexists.
    + split; [done|]. intros Hin. rewrite (Prepare_again _ _ _ _ Hin) in Hrun. congruence.
Qed.

(** C18: End to end at one server, through the serialized messages: when the prepare upcall of
    a new transaction accepts it and the commit upcall decides it at a timestamp later
    than every version of the keys it writes, a subsequent get upcall of any key it wrote
    returns the value it wrote with that timestamp, and reports no dependency. *)
Theorem server_commit_then_get `{!CodecLaw Request} (rp rc : Request) chk rep sv sv1 :
  let t := request_txn rp in let ts := commit_timestamp (commit_of rc) in
  store_ok (store sv) →
  preparedTxns (store sv) !! txnid rp = None → precommittedTxns (store sv) !! txnid rp = None →
  PrepareUpcall (SerializeToString rp) chk sv = Ok ((rep, true), sv1) →
  txnid rc = txnid rp →
  (∀ k, is_Some (writeSet t !! k) → precommitters (data (store sv)) k = [] ∧
        ∀ w, w ∈ versions (data (store sv)) k → write w <ₜ Timestamp1 ts) →
  ∃ sv2, CommitUpcall (SerializeToString rc) sv1
         = Ok (SerializeToString (MkReply 0 None None None), sv2) ∧
    ∀ rg k v, get_of rg = MkGetMessage k None → writeSet t !! k = Some v →
      GetUpcall (SerializeToString rg) sv2
      = Ok (SerializeToString (MkReply REPLY_OK (Some v) (Some ts)
              (if decide (tpcMode sv = MODE_PARALLEL) then Some 0 else None)), sv2).
Proof.
  intros t ts Hok Hp Hpc Hprep Hid Hkeys.
  unfold PrepareUpcall in Hprep. rewrite parse_serialize in Hprep. fold (request_txn rp) in Hprep. fold t in Hprep.
  unfold mbind, M_bind, on_store in Hprep.
  destruct (Prepare (txnid rp) t chk (store sv)) as [[st s1]| |] eqn:Hrun; [|done..].
  assert (st = REPLY_OK ∧ sv1 = MkServer (mode sv) (tpcMode sv) s1) as [-> ->].
  { destruct (Prepare_codes _ _ _ _ _ _ Hok Hrun) as [-> | [-> | ->]]; cbn in Hprep; [|discriminate..].
    by injection Hprep as _ <-. }
  destruct (Prepare_fresh _ _ _ _ _ Hok Hp Hrun) as (Hok1 & Hd1 & Hp1 & Hpc1).
  pose proof (Commit_law (txnid rp) ts s1 Hok1) as Hlaw.
  apply wp_run in Hlaw as ([] & s2 & Hrun2 & Hok2 & Hd2 & _).
  unfold active_txn in Hd2. rewrite Hpc1, Hpc, Hp1, lookup_insert_eq, Hd1 in Hd2.
  exists (MkServer (mode sv) (tpcMode sv) s2). split.
  - unfold CommitUpcall. rewrite parse_serialize, Hid. fold ts.
    unfold mbind, M_bind, on_store; simpl. by rewrite Hrun2.
  - intros rg k v Hg Hv. destruct (Hkeys k) as [Hnp Hlt]; [by eexists|].
    unfold GetUpcall. rewrite parse_serialize, Hg; simpl.
    unfold mbind, M_bind, on_store; simpl.
    rewrite Get_dep_law, Hd2, (install_all_get_dep _ _ _ _ _ v) by (done || by apply store_ok_wf).
    simpl. by case_decide.
Qed.

Lemma load_keys_spec myShard maxShard lines sv :
  0 < maxShard → store_ok (store sv) →
  wp (load_keys myShard maxShard lines) (λ _ sv',
    store_ok (store sv') ∧ preparedTxns (store sv') = preparedTxns (store sv) ∧
    precommittedTxns (store sv') = precommittedTxns (store sv) ∧
    ∀ k, inStore (data (store sv')) k = true ↔
         inStore (data (store sv)) k = true ∨ k ∈ lines ∧ key_hash k mod maxShard = myShard) sv.
Proof.
  intros Hmax. revert sv. induction lines as [|key lines IH]; intros sv Hok.
  { apply post_ret. split_and!; [done..|]. set_solver. }
  change (load_keys myShard maxShard (key :: lines)) with
    (_ ← (mine ← lift_res (loads_key myShard maxShard key); when mine (Load key "null" Timestamp0));
     load_keys myShard maxShard lines).
  apply post_bind, post_bind. unfold post at 1, lift_res, loads_key.
  assert ((maxShard =? 0) = false) as -> by lia.
  destruct (key_hash key mod maxShard =? myShard) eqn:Hmine.
  - unfold Load. eapply post_mono; [apply on_store_wp, Load_law, Hok|].
    intros _ sv1 (_ & _ & Hok1 & Hd1 & Hp1 & Hpc1). eapply post_mono; [by apply IH|].
    intros _ sv2 (Hok2 & Hp2 & Hpc2 & Hin2). split_and!; [done|congruence..|].
    intros k. rewrite Hin2, Hd1, inStore_put, elem_of_cons.
    apply Z.eqb_eq in Hmine. clear -Hmine. rewrite orb_true_iff, bool_decide_eq_true.
    split; [intros [[<-|?]|[]]|intros [?|[[->|?] ?]]]; auto.
  - apply post_ret. eapply post_mono; [by apply IH|].
    intros _ sv2 (Hok2 & Hp2 & Hpc2 & Hin2). split_and!; [done..|].
    intros k. rewrite Hin2, elem_of_cons. apply Z.eqb_neq in Hmine. clear -Hmine.
    split; [intros [?|[]]|intros [?|[[->|?] ?]]]; auto.
Qed.
End properties.

Section main.
Context `{HO : HashOrder} `{!Clock}.

Lemma Server_new_ok m tm sv :
  Server_new m tm = Ok sv →
  store_ok (store sv) ∧ preparedTxns (store sv) = ∅ ∧ precommittedTxns (store sv) = ∅ ∧
  ∀ k, inStore (data (store sv)) k = false.
Proof.
  destruct m; simpl; try done; intros [= <-]; simpl; split_and!;
    by auto using VersionStore.wf_empty, LockServer.wf_new.
Qed.

(** Loading partitions the key file: whatever the concurrency mode, a server that starts
    empty as shard [myShard] of [maxShard] finishes loading, and afterwards stores exactly
    the keys of the file that the clients look up at that shard, with no transaction
    prepared. *)
Theorem server_load_partitions m tm sv (JL : JsonLib) myShard maxShard lines :
  Server_new m tm = Ok sv → 0 < maxShard →
  ∃ sv', load_keys myShard maxShard lines sv = Ok (tt, sv') ∧ store_ok (store sv') ∧
    preparedTxns (store sv') = ∅ ∧
    ∀ k, inStore (data (store sv')) k = true ↔
         k ∈ lines ∧ key_to_shard k maxShard = Ok myShard.
Proof.
  intros (Hok & Hp & _ & Hempty)%Server_new_ok Hmax.
  pose proof (load_keys_spec myShard maxShard lines sv Hmax Hok) as Hload.
  apply wp_run in Hload as ([] & sv' & Hrun & Hok' & Hp' & _ & Hin).
  exists sv'. split_and!; [done|done|congruence|]. intros k. rewrite Hin, Hempty.
  unfold key_to_shard. assert ((maxShard =? 0) = false) as -> by lia.
  split; [intros [[=]|[? <-]]; done|]. intros [? [= <-]]. by right.
Qed.
End main.

(** ** Concrete instances *)

(** A codec for messages: the digits of their number in an enumeration. *)
Fixpoint digits (p : positive) : string :=
  match p with xH => "" | xO p' => String "0"%char (digits p') | xI p' => String "1"%char (digits p') end.

Fixpoint undigits (s : string) : positive :=
  match s with
  | EmptyString => xH
  | String c s' => if decide (c = "0"%char) then xO (undigits s') else xI (undigits s')
  end.

Lemma undigits_digits p : undigits (digits p) = p.
Proof. induction p; simpl; by rewrite ?IHp. Qed.

#[global] Instance Operation_eq_dec : EqDecision Operation.
Proof. solve_decision. Defined.

#[global] Instance Operation_countable : Countable Operation :=
  inj_countable' (λ o, match o with GET => 1 | PREPARE => 2 | COMMIT => 3 | ABORT => 4 | PRECOMMIT => 5 end)
    (λ n, match n with 1 => GET | 2 => PREPARE | 3 => COMMIT | 4 => ABORT | _ => PRECOMMIT end)
    (λ o, match o with
          | GET | PREPARE | COMMIT | ABORT | PRECOMMIT => eq_refl
          end).

(** Messages as nested tuples. *)
Definition tuple_of_txn (m : TransactionMessage) :=
  ((λ r, (rm_key r, (msg_id (readtime r), msg_timestamp (readtime r)))) <$> msg_readset m,
   (λ w, (wm_key w, wm_value w)) <$> msg_writeset m).

Definition txn_of_tuple (p : list (string * (Z * Z)) * list (string * string)) : TransactionMessage :=
  MkTransactionMessage ((λ r, MkReadMessage r.1 (MkTimestampMessage r.2.1 r.2.2)) <$> p.1)
    ((λ w, MkWriteMessage w.1 w.2) <$> p.2).

Lemma txn_of_tuple_of_txn m : txn_of_tuple (tuple_of_txn m) = m.
Proof.
  destruct m as [rs ws]. unfold txn_of_tuple, tuple_of_txn; simpl. rewrite <- !list_fmap_compose.
  f_equal; (etrans; [|apply list_fmap_id]); apply list_fmap_ext.
  - by intros _ [k []] _.
  - by intros _ [k v] _.
Qed.

Definition tuple_of_request (r : Request) :=
  (op r, txnid r,
   (λ g, (get_key g, (λ t, (msg_id t, msg_timestamp t)) <$> get_timestamp g)) <$> req_get r,
   (λ p, (tuple_of_txn (prepare_txn p), prepare_timestamp p)) <$> req_prepare r,
   commit_timestamp <$> req_commit r,
   (λ a, tuple_of_txn (abort_txn a)) <$> req_abort r).

Definition request_of_tuple (p : Operation * Z * option (string * option (Z * Z)) *
    option (list (string * (Z * Z)) * list (string * string) * option Z) * option Z *
    option (list (string * (Z * Z)) * list (string * string))) : Request :=
  let '(o, i, g, pr, c, a) := p in
  MkRequest o i
    ((λ g, MkGetMessage g.1 ((λ t, MkTimestampMessage t.1 t.2) <$> g.2)) <$> g)
    ((λ p, MkPrepareMessage (txn_of_tuple p.1) p.2) <$> pr)
    (MkCommitMessage <$> c)
    ((λ t, MkAbortMessage (txn_of_tuple t)) <$> a).

Lemma request_of_tuple_of_request r : request_of_tuple (tuple_of_request r) = r.
Proof.
  destruct r as [o i [[k [[]|]]|] [[pt ps]|] [[]|] [[at_]|]]; simpl;
    rewrite ?txn_of_tuple_of_txn; done.
Qed.

Definition request_codec : Codec Request := {|
  SerializeToString r := digits (encode (tuple_of_request r));
  ParseFromString s :=
    default (MkRequest GET 0 None None None None) (request_of_tuple <$> decode (undigits s))
|}.

Definition reply_codec : Codec Reply := {|
  SerializeToString r := digits (encode (status r, rep_value r, rep_timestamp r, dependency r));
  ParseFromString s :=
    default (MkReply 0 None None None)
      ((λ '(a, b, c, d), MkReply a b c d) <$> decode (undigits s))
|}.

Lemma request_codec_law : CodecLaw Request (Codec0 := request_codec).
Proof.
  intros r. simpl. rewrite undigits_digits, decode_encode. simpl. apply request_of_tuple_of_request.
Qed.

#[local] Existing Instances request_codec reply_codec request_codec_law default_order demo_clock.

(** A locking server of shard 0 of 1 with the key [x] loaded, asked to prepare and commit
    a transaction that reads and writes [x]. *)
Definition demo_empty : Server AnyStore := MkServer MODE_LOCK MODE_PARALLEL (inr LockStore.LockStore_new).

Definition run_server {A} (r : res (A * Server AnyStore)) : Server AnyStore :=
  match r with Ok (_, s) => s | _ => demo_empty end.

Definition demo_server : Server AnyStore := run_server (load_keys 0 1 ["x"] demo_empty).

Definition demo_prepare : Request :=
  MkRequest PREPARE 1 None
    (Some (MkPrepareMessage (MkTransactionMessage [MkReadMessage "x" (MkTimestampMessage 0 0)]
                               [MkWriteMessage "x" "new"]) None)) None None.

Definition demo_commit : Request := MkRequest COMMIT 1 None None (Some (MkCommitMessage 7)) None.
Definition demo_get : Request := MkRequest GET 2 (Some (MkGetMessage "x" None)) None None None.

Lemma demo_server_ok :
  store_ok (store demo_server) ∧ preparedTxns (store demo_server) = ∅ ∧
  precommittedTxns (store demo_server) = ∅.
Proof.
  destruct (Server_new_ok MODE_LOCK MODE_PARALLEL demo_empty eq_refl) as (Hok & Hp & Hpc & _).
  pose proof (load_keys_spec 0 1 ["x"] demo_empty ltac:(lia) Hok) as Hload.
  apply wp_run in Hload as ([] & sv' & Hrun & Hok' & Hp' & Hpc' & _).
  unfold demo_server. rewrite Hrun. change (run_server (Ok (tt, sv'))) with sv'.
  split_and!; [done|by rewrite Hp', Hp|by rewrite Hpc', Hpc].
Qed.

Lemma server_load_partitions_witness :
  ∃ sv', load_keys 0 1 ["x"] demo_empty = Ok (tt, sv') ∧ inStore (data (store sv')) "x" = true.
Proof.
  destruct (server_load_partitions MODE_LOCK MODE_PARALLEL demo_empty demo_json 0 1 ["x"] eq_refl)
    as (sv' & Hrun & _ & _ & Hin); [lia|].
  exists sv'. split; [exact Hrun|]. apply Hin. split; [set_solver|vm_compute; reflexivity].
Defined.

Lemma prepare_upcall_replicates_iff_prepared_witness :
  ∃ st sv', PrepareUpcall (SerializeToString demo_prepare) true demo_server
      = Ok ((SerializeToString (MkReply st None None None), bool_decide (st = REPLY_OK)), sv').
Proof.
  destruct (prepare_upcall_replicates_iff_prepared (SerializeToString demo_prepare) true demo_server)
    as (st & sv' & Hrun & _); [apply demo_server_ok|].
  exists st, sv'. exact Hrun.
Defined.

Definition demo_server_1 : Server AnyStore :=
  run_server (PrepareUpcall (SerializeToString demo_prepare) true demo_server).

Lemma server_commit_then_get_witness :
  ∃ sv2, CommitUpcall (SerializeToString demo_commit) demo_server_1
         = Ok (SerializeToString (MkReply 0 None None None), sv2) ∧
    GetUpcall (SerializeToString demo_get) sv2
      = Ok (SerializeToString (MkReply REPLY_OK (Some "new") (Some 7) (Some 0)), sv2).
Proof.
  destruct demo_server_ok as (Hok & Hp & Hpc).
  destruct (server_commit_then_get demo_prepare demo_commit true
    (SerializeToString (MkReply 0 None None None)) demo_server demo_server_1 Hok)
    as (sv2 & Hc & Hg).
  - by rewrite Hp.
  - by rewrite Hpc.
  - vm_compute. reflexivity.
  - reflexivity.
  - intros k Hk. unfold request_txn in Hk. simpl in Hk. rewrite lookup_insert_is_Some' in Hk.
    destruct Hk as [<-|[? [=]]]. split; [vm_compute; reflexivity|].
    assert (versions (data (store demo_server)) "x" = [MkVersion Timestamp0 "null"]) as ->
      by (vm_compute; reflexivity).
    intros w ->%list_elem_of_singleton. by apply ts_lt_spec.
  - exists sv2. split; [exact Hc|]. apply (Hg demo_get "x" "new"); [reflexivity|vm_compute; reflexivity].
Defined.
