(* ===== verification/Coordinator.v ===== *)
(** The replicated commit coordinator: [replication/commit/coordinator.h],
    [coordinator.cc] and [commit-proto.proto].

    Each participant shard sends its vote, together with the acknowledgement of one of
    its replicas, to the coordinator replica of the same region, which forwards the
    acknowledgement to the coordinator responsible for the transaction.  That
    coordinator decides to commit when all participants voted [PREPARED], a quorum of
    replicas of each has acknowledged, and no participant has an open dependency.

    The state of a replica is a record, the handlers are state-passing functions, and
    the messages a handler sends are appended to the outbox of the state.  Sending
    never fails here: the code only logs a failed send.  Members that the constructor of
    [PendingCommit] leaves uninitialised are [None] until they are assigned; a read of such
    a member yields an arbitrary value, given by the class [Indeterminate]: the messages
    the handler has already sent stay sent. *)

From S2P Require Import Prelude.

(** [enum CommitResult]. *)
Inductive CommitResult := COMMIT | ABORT | PRECOMMIT | PREPARED.

#[global] Instance CommitResult_eq_dec : EqDecision CommitResult.
Proof. solve_decision. Defined.

(** ** Messages *)

Record ReplicateReplyAndVote := MkReplicateReplyAndVote {
  rrv_tid : Z; rrv_shard : Z; rrv_replica : Z; rrv_vote : CommitResult;
  rrv_participants : list Z; rrv_primaryShard : Z; rrv_primaryCoordinator : Z;
  rrv_timestamp : Z; hasPreCommit : bool
}.

Record BypassLeaderReply := MkBypassLeaderReply { blr_tid : Z; blr_shard : Z; blr_replica : Z }.

Record BypassLeaderReplyUnion := MkBypassLeaderReplyUnion {
  blu_tid : Z; blu_shards : list Z; blu_replica : Z
}.

Record NotifyDependenciesAreCleared := MkNotifyDependenciesAreCleared { ndc_tid : Z; ndc_shard : Z }.

Record NotifyDecision := MkNotifyDecision { nd_tid : Z; nd_state : CommitResult; nd_timestamp : Z }.

Record ReplicateDecision := MkReplicateDecision {
  rd_tid : Z; rd_state : CommitResult; rd_timestamp : Z
}.

Record ReplyDecision := MkReplyDecision { rpd_tid : Z; coordinatorid : Z; rpd_timestamp : Z }.

Record Vote := MkVote {
  v_tid : Z; v_vote : CommitResult; v_shard : Z; v_participants : list Z;
  v_primaryShard : Z; v_primaryCoordinator : Z; v_replica : Z; v_timestamp : Z
}.

Record NotifyDecisionToPrimary := MkNotifyDecisionToPrimary {
  ndp_tid : Z; ndp_state : CommitResult; ndp_participants : list Z; ndp_primaryShard : Z;
  ndp_timestamp : Z
}.

Record NotifyReplicateResult := MkNotifyReplicateResult {
  nrr_tid : Z; replicateSuccess : bool; nrr_timestamp : Z
}.

Record RequestCommitResult := MkRequestCommitResult {
  rcr_tid : Z; rcr_participants : list Z; rcr_primaryShard : Z; rcr_shard : Z
}.

(** What a coordinator replica receives; [MUnexpected] is any other message type. *)
Inductive message :=
| MReplicateReplyAndVote (m : ReplicateReplyAndVote)
| MBypassLeaderReply (m : BypassLeaderReply)
| MReplicateDecision (m : ReplicateDecision)
| MReplyDecision (m : ReplyDecision)
| MBypassLeaderReplyUnion (m : BypassLeaderReplyUnion)
| MVote (m : Vote)
| MRequestCommitResult (m : RequestCommitResult)
| MNotifyDecisionToPrimary (m : NotifyDecisionToPrimary)
| MReplicateResult
| MNotifyDependenciesAreCleared (m : NotifyDependenciesAreCleared)
| MUnexpected.

(** What it sends: to one coordinator replica, to all the others, or to the replica of a
    shard in its own region. *)
Inductive sent :=
| BypassToCoordinator (replica : Z) (m : BypassLeaderReply)
| ReplyToCoordinator (replica : Z) (m : ReplyDecision)
| DecisionToCoordinators (m : ReplicateDecision)
| DecisionToShard (shard replica : Z) (m : NotifyDecision)
| ResultToShard (shard replica : Z) (m : NotifyReplicateResult).

(** ** State *)

Record CommitState := MkCommitState { commitState : CommitResult; reachFaultTolerance : bool }.

(** [struct PendingCommit]; the member [colocatedReplicateReplies] is never used. *)
Record PendingCommit := MkPendingCommit {
  tid : Z;
  participants : list Z;
  votes : gmap Z CommitResult;
  dependencies : gmap Z bool;
  replicateResults : gmap Z (list BypassLeaderReply);
  commitDecisionReplies : gset Z;
  majority : Z;
  primary_shard : option Z;
  primary_coordinator : option Z;
  timestamp : Z;
  state : option CommitResult;
  reach_consensus : bool;
  reach_fault_tolerance : bool
}.

#[global] Instance PendingCommit_eta : Eta PendingCommit := λ r,
  MkPendingCommit (tid r) (participants r) (votes r) (dependencies r) (replicateResults r)
    (commitDecisionReplies r) (majority r) (primary_shard r) (primary_coordinator r)
    (timestamp r) (state r) (reach_consensus r) (reach_fault_tolerance r).

Definition PendingCommit_new (majority tid : Z) : PendingCommit :=
  MkPendingCommit tid [] ∅ ∅ ∅ ∅ majority None None 0 None false false.

(** [class CoordinatorReplica]: [n_coordinators] is [coordinator_config.n] and
    [n_shards] the length of [shardTransport]. *)
Record CoordinatorReplica := MkCoordinatorReplica {
  n_coordinators : Z;
  n_shards : Z;
  quorum_size : Z;
  coordinator_id : Z;
  pendingCommits : gmap Z PendingCommit;
  commitResults : gmap Z CommitState;
  outbox : list sent
}.

#[global] Instance CoordinatorReplica_eta : Eta CoordinatorReplica := λ s,
  MkCoordinatorReplica (n_coordinators s) (n_shards s) (quorum_size s) (coordinator_id s)
    (pendingCommits s) (commitResults s) (outbox s).

Definition CoordinatorReplica_new (n shards id : Z) : CoordinatorReplica :=
  MkCoordinatorReplica n shards (Z.quot n 2 + 1) id ∅ ∅ [].

(** ** Operations *)

Abbreviation MC := (M CoordinatorReplica).

(** What is found in the members [state], [primary_shard] and [primary_coordinator] of a
    [PendingCommit] that have no value yet: anything, and not the same thing at each
    read. *)
Class Indeterminate := MkIndeterminate {
  garbage_state : list sent → CommitResult;
  garbage_shard : list sent → Z;
  garbage_coordinator : list sent → Z
}.

Section replica.
Context `{Indeterminate}.

Definition read_member {A} (garbage : list sent → A) (x : option A) : MC A :=
  gets (λ s, default (garbage (outbox s)) x).

Definition read_state (req : PendingCommit) : MC CommitResult :=
  read_member garbage_state (state req).
Definition read_shard (req : PendingCommit) : MC Z := read_member garbage_shard (primary_shard req).
Definition read_coordinator (req : PendingCommit) : MC Z :=
  read_member garbage_coordinator (primary_coordinator req).

Definition send (x : sent) : MC unit := modify (λ s, s <| outbox ::= (λ o, o ++ [x]) |>).

Definition record_result (t : Z) (r : CommitResult) (ft : bool) : MC unit :=
  modify (λ s, s <| commitResults ::= <[t := MkCommitState r ft]> |>).

(** [pendingCommits.erase(tid); delete req;] *)
Definition drop_pending (t : Z) : MC unit := modify (λ s, s <| pendingCommits ::= delete t |>).

(** Assignments through [req], which points into [pendingCommits]. *)
Definition store_pending (t : Z) (req : PendingCommit) : MC unit :=
  modify (λ s, s <| pendingCommits ::= <[t := req]> |>).

(** [a % coordinator_config.n], the [int] converted to [uint64_t]. *)
Definition mod_coordinators (a : Z) : MC Z :=
  s ← get_st;
  if u64 (n_coordinators s) =? 0 then undefined else mret (a mod u64 (n_coordinators s)).

(** The index expression of [shardTransport[i]], [i] an [int]. *)
Definition shard_transport (i : Z) : MC Z :=
  s ← get_st; if (0 <=? i) && (i <? n_shards s) then mret i else undefined.

(** The loop over the participants: [votes[p]] inserts [COMMIT], the zero value of the
    enum, for a participant that has no entry. *)
Fixpoint check_votes (ps : list Z) (vs : gmap Z CommitResult) : bool * gmap Z CommitResult :=
  match ps with
  | [] => (true, vs)
  | p :: ps' =>
      match vs !! p with
      | Some v => if decide (v = PREPARED) then check_votes ps' vs else (false, vs)
      | None => (false, <[p := COMMIT]> vs)
      end
  end.

Definition ReachConsensus (req : PendingCommit) : bool * PendingCommit :=
  if negb (Z.of_nat (size (votes req)) =? Z.of_nat (length (participants req))) then (false, req)
  else let '(b, vs) := check_votes (participants req) (votes req) in (b, req <| votes := vs |>).

Definition AllParticipantsHaveNoPrecommitDependency (req : PendingCommit) : bool :=
  if negb (Z.of_nat (size (dependencies req)) =? Z.of_nat (length (participants req))) then false
  else forallb (λ p, match dependencies req !! p with
                     | None => true
                     | Some d => negb d
                     end) (participants req).

Definition ReachFaultTolerance (req : PendingCommit) : bool :=
  if Z.of_nat (length (participants req)) <=? 0 then false
  else if negb (Z.of_nat (size (replicateResults req)) =? Z.of_nat (length (participants req)))
  then false
  else forallb (λ p, negb (Z.of_nat (length p.2) <? majority req)) (map_to_list (replicateResults req)).

Definition NotifyCommitDecision (req : PendingCommit) : MC unit :=
  st ← read_state req;
  for_each (participants req) (λ p,
    r ← mod_coordinators p;
    id ← gets coordinator_id;
    when (r =? id)
      (i ← shard_transport (to_int p);
       send (DecisionToShard i (to_int id) (MkNotifyDecision (tid req) st (timestamp req))))).

Definition NotifyReplicateResult_ (req : PendingCommit) : MC unit :=
  primaryShard ← read_shard req;
  i ← shard_transport (to_int primaryShard);
  id ← gets coordinator_id;
  _ ← send (ResultToShard i (to_int id) (MkNotifyReplicateResult (tid req) true (timestamp req)));
  st ← read_state req;
  send (DecisionToCoordinators (MkReplicateDecision (tid req) st (timestamp req))).

(** The common beginning of [HandleReplicateReplyAndVote] and [HandleVote]: find or
    create the pending entry and note the participants, the primary shard, the primary
    coordinator and the timestamp. *)
Definition pending_for_vote (t : Z) (ps : list Z) (primaryShard primaryCoordinator ts : Z) :
    MC PendingCommit :=
  s ← get_st;
  match pendingCommits s !! t with
  | None =>
      mret (PendingCommit_new (quorum_size s) t <| primary_shard := Some primaryShard |>
              <| primary_coordinator := Some primaryCoordinator |> <| participants := ps |>
              <| timestamp := ts |>)
  | Some req =>
      let req1 := if decide (participants req = []) then req <| participants := ps |> else req in
      let req2 := req1 <| primary_shard := Some primaryShard |>
                       <| primary_coordinator := Some (coordinator_id s) |> in
      mret (if ts >? timestamp req2 then req2 <| timestamp := ts |> else req2)
  end.

(** A participant refused: the transaction aborts.  [req] is updated before it is deleted;
    nothing reads the table entry in between. *)
Definition abort_on_vote (t : Z) (req : PendingCommit) : MC unit :=
  let req' := req <| state := Some ABORT |> <| reach_consensus := true |> in
  _ ← record_result t ABORT false;
  _ ← NotifyCommitDecision req';
  drop_pending t.

Definition HandleReplicateReplyAndVote (msg : ReplicateReplyAndVote) : MC unit :=
  s ← get_st;
  match commitResults s !! rrv_tid msg with
  | Some _ => mret tt
  | None =>
      req ← pending_for_vote (rrv_tid msg) (rrv_participants msg) (rrv_primaryShard msg)
              (rrv_primaryCoordinator msg) (rrv_timestamp msg);
      if decide (rrv_vote msg = PREPARED) then
        let req1 := req <| votes ::= <[rrv_shard msg := rrv_vote msg]> |>
                        <| dependencies ::= <[rrv_shard msg := hasPreCommit msg]> |> in
        let '(consensus, req2) := ReachConsensus req1 in
        let req3 := if (consensus : bool)
                    then req2 <| state := Some PREPARED |> <| reach_consensus := true |>
                    else req2 in
        _ ← store_pending (rrv_tid msg) req3;
        _ ← when consensus
              (_ ← NotifyCommitDecision req3;
               pc ← read_coordinator req3;
               id ← gets coordinator_id;
               when ((pc =? id) && reach_fault_tolerance req3 &&
                     AllParticipantsHaveNoPrecommitDependency req3)
                 (st ← read_state req3;
                  _ ← record_result (rrv_tid msg) st true;
                  _ ← NotifyReplicateResult_ req3;
                  drop_pending (rrv_tid msg)));
        send (BypassToCoordinator (to_int (rrv_primaryCoordinator msg))
                (MkBypassLeaderReply (rrv_tid msg) (rrv_shard msg) (rrv_replica msg)))
      else abort_on_vote (rrv_tid msg) req
  end.

(** The loop that looks for an earlier reply of the same replica. *)
Definition already_received (replica : Z) (replies : list BypassLeaderReply) : bool :=
  existsb (λ p, blr_replica p =? replica) replies.

(** The replies of [req->replicateResults[shard]]. *)
Definition replies_of (req : PendingCommit) (shard : Z) : list BypassLeaderReply :=
  default [] (replicateResults req !! shard).

(** Find or create the pending entry of a reply. *)
Definition pending_for_reply (t : Z) : MC PendingCommit :=
  s ← get_st; mret (default (PendingCommit_new (quorum_size s) t) (pendingCommits s !! t)).

(** [if (ReachFaultTolerance(req)) ...] after a reply was added: [true] when the
    transaction was decided and [req] deleted. *)
Definition decide_on_reply (t : Z) (req : PendingCommit) : MC (bool * PendingCommit) :=
  if ReachFaultTolerance req then
    let req' := req <| reach_fault_tolerance := true |> in
    if reach_consensus req' && AllParticipantsHaveNoPrecommitDependency req' then
      _ ← record_result t COMMIT true;
      _ ← NotifyReplicateResult_ req';
      _ ← drop_pending t;
      mret (true, req')
    else mret (false, req')
  else mret (false, req).

Definition HandleBypassLeaderReply (msg : BypassLeaderReply) : MC unit :=
  s ← get_st;
  match commitResults s !! blr_tid msg with
  | Some _ => mret tt
  | None =>
      req ← pending_for_reply (blr_tid msg);
      let l := replies_of req (blr_shard msg) in
      let req1 := req <| replicateResults ::= <[blr_shard msg := l]> |> in
      _ ← store_pending (blr_tid msg) req1;
      when (negb (already_received (blr_replica msg) l))
        (let req2 := req1 <| replicateResults ::= <[blr_shard msg := l ++ [msg]]> |> in
         '(decided, req3) ← decide_on_reply (blr_tid msg) req2;
         when (negb decided) (store_pending (blr_tid msg) req3))
  end.

(** The loop over the shards; [already] is declared outside it and never reset. *)
Fixpoint union_shards (t replica : Z) (already : bool) (shards : list Z) (req : PendingCommit) :
    MC unit :=
  match shards with
  | [] => store_pending t req
  | q :: shards' =>
      let l := replies_of req q in
      let req1 := req <| replicateResults ::= <[q := l]> |> in
      let already' := already || already_received replica l in
      if already' then union_shards t replica already' shards' req1
      else
        let req2 := req1 <| replicateResults ::= <[q := l ++ [MkBypassLeaderReply t q replica]]> |> in
        '(decided, req3) ← decide_on_reply t req2;
        if (decided : bool) then mret tt else union_shards t replica already' shards' req3
  end.

Definition HandleBypassLeaderReplyUnion (msg : BypassLeaderReplyUnion) : MC unit :=
  s ← get_st;
  match commitResults s !! blu_tid msg with
  | Some _ => mret tt
  | None =>
      req ← pending_for_reply (blu_tid msg);
      _ ← store_pending (blu_tid msg) req;
      union_shards (blu_tid msg) (blu_replica msg) false (blu_shards msg) req
  end.

Definition HandleNotifyDependenciesAreCleared (msg : NotifyDependenciesAreCleared) : MC unit :=
  s ← get_st;
  match pendingCommits s !! ndc_tid msg with
  | None => mret tt
  | Some req =>
      let req' := req <| dependencies ::= <[ndc_shard msg := false]> |> in
      _ ← store_pending (ndc_tid msg) req';
      when (AllParticipantsHaveNoPrecommitDependency req' && reach_consensus req' &&
            reach_fault_tolerance req')
        (st ← read_state req';
         _ ← record_result (ndc_tid msg) st true;
         _ ← NotifyReplicateResult_ req';
         drop_pending (ndc_tid msg))
  end.

Definition HandleReplicateDecision (msg : ReplicateDecision) : MC unit :=
  s ← get_st;
  match pendingCommits s !! rd_tid msg with
  | None => mret tt
  | Some req =>
      let req' := req <| state := Some (rd_state msg) |> in
      let reqMsg := MkReplyDecision (rd_tid msg) (coordinator_id s) (timestamp req') in
      _ ← store_pending (rd_tid msg) req';
      _ ← record_result (rd_tid msg)
            (if decide (rd_state msg = COMMIT) then COMMIT else ABORT) false;
      shard ← read_shard req';
      r ← mod_coordinators shard;
      let primaryCoordinator := to_int r in
      _ ← send (ReplyToCoordinator primaryCoordinator reqMsg);
      when (negb (u64 primaryCoordinator =? coordinator_id s)) (drop_pending (rd_tid msg))
  end.

Definition HandleReplyDecision (msg : ReplyDecision) : MC unit :=
  s ← get_st;
  match pendingCommits s !! rpd_tid msg with
  | None => mret tt
  | Some req =>
      if decide (coordinatorid msg ∈ commitDecisionReplies req) then mret tt
      else
        let req' := req <| commitDecisionReplies ::= union {[coordinatorid msg]} |> in
        _ ← store_pending (rpd_tid msg) req';
        when (majority req' <=? Z.of_nat (size (commitDecisionReplies req')))
          (drop_pending (rpd_tid msg))
  end.

Definition HandleNotifyDecision (msg : NotifyDecisionToPrimary) : MC unit :=
  s ← get_st;
  match pendingCommits s !! ndp_tid msg with
  | None => mret tt
  | Some req =>
      if reach_consensus req then mret tt
      else
        let req1 := req <| reach_consensus := true |> <| state := Some (ndp_state msg) |> in
        let req2 := if decide (participants req1 = [])
                    then req1 <| primary_shard := Some (ndp_primaryShard msg) |>
                              <| participants := ndp_participants msg |>
                    else req1 in
        if decide (ndp_state msg = COMMIT) then
          let req3 := req2 <| timestamp := ndp_timestamp msg |> in
          _ ← store_pending (ndp_tid msg) req3;
          when (reach_fault_tolerance req3)
            (_ ← record_result (ndp_tid msg) (ndp_state msg) true;
             _ ← NotifyReplicateResult_ req3;
             drop_pending (ndp_tid msg))
        else
          _ ← store_pending (ndp_tid msg) req2;
          _ ← record_result (ndp_tid msg) ABORT false;
          _ ← NotifyCommitDecision req2;
          drop_pending (ndp_tid msg)
  end.

Definition HandleRequestCommitResult (msg : RequestCommitResult) : MC unit :=
  s ← get_st;
  match pendingCommits s !! rcr_tid msg with
  | None =>
      let req := PendingCommit_new (quorum_size s) (rcr_tid msg)
                   <| primary_shard := Some (rcr_primaryShard msg) |>
                   <| primary_coordinator := Some (coordinator_id s) |>
                   <| participants := rcr_participants msg |> in
      match commitResults s !! rcr_tid msg with
      | Some _ => NotifyReplicateResult_ req
      | None => store_pending (rcr_tid msg) req
      end
  | Some req =>
      let req1 := if decide (participants req = [])
                  then req <| participants := rcr_participants msg |> else req in
      store_pending (rcr_tid msg) (req1 <| primary_shard := Some (rcr_primaryShard msg) |>)
  end.

Definition HandleVote (msg : Vote) : MC unit :=
  s ← get_st;
  match commitResults s !! v_tid msg with
  | Some _ => mret tt
  | None =>
      req ← pending_for_vote (v_tid msg) (v_participants msg) (v_primaryShard msg)
              (v_primaryCoordinator msg) (v_timestamp msg);
      if decide (v_vote msg = PREPARED) then
        let req1 := req <| votes ::= <[v_shard msg := v_vote msg]> |> in
        let '(consensus, req2) := ReachConsensus req1 in
        let req3 := if (consensus : bool)
                    then req2 <| state := Some PREPARED |> <| reach_consensus := true |>
                    else req2 in
        _ ← store_pending (v_tid msg) req3;
        when consensus
          (_ ← NotifyCommitDecision req3;
           pc ← read_coordinator req3;
           id ← gets coordinator_id;
           when ((pc =? id) && reach_fault_tolerance req3)
             (st ← read_state req3;
              _ ← record_result (v_tid msg) st true;
              _ ← NotifyReplicateResult_ req3;
              drop_pending (v_tid msg)))
      else abort_on_vote (v_tid msg) req
  end.

Definition HandleMessage (m : message) : MC unit :=
  match m with
  | MReplicateReplyAndVote m => HandleReplicateReplyAndVote m
  | MBypassLeaderReply m => HandleBypassLeaderReply m
  | MReplicateDecision m => HandleReplicateDecision m
  | MReplyDecision m => HandleReplyDecision m
  | MBypassLeaderReplyUnion m => HandleBypassLeaderReplyUnion m
  | MVote m => HandleVote m
  | MRequestCommitResult m => HandleRequestCommitResult m
  | MNotifyDecisionToPrimary m => HandleNotifyDecision m
  | MReplicateResult => mret tt
  | MNotifyDependenciesAreCleared m => HandleNotifyDependenciesAreCleared m
  | MUnexpected => panic
  end.

(** ** Evidence

    What the messages handled so far say about a transaction. *)

Section evidence.
Variable tr : list message.

(** Shard [p] voted to prepare transaction [t]. *)
Definition voted (t p : Z) : Prop :=
  ∃ m, m ∈ tr ∧
    match m with
    | MReplicateReplyAndVote v => rrv_tid v = t ∧ rrv_shard v = p ∧ rrv_vote v = PREPARED
    | MVote v => v_tid v = t ∧ v_shard v = p ∧ v_vote v = PREPARED
    | _ => False
    end.

(** Replica [r] of shard [p] acknowledged transaction [t]. *)
Definition replied (t p r : Z) : Prop :=
  ∃ m, m ∈ tr ∧
    match m with
    | MBypassLeaderReply b => blr_tid b = t ∧ blr_shard b = p ∧ blr_replica b = r
    | MBypassLeaderReplyUnion u => blu_tid u = t ∧ p ∈ blu_shards u ∧ blu_replica u = r
    | _ => False
    end.

(** Shard [p] reported that transaction [t] has no open dependency there. *)
Definition cleared (t p : Z) : Prop :=
  ∃ m, m ∈ tr ∧
    match m with
    | MReplicateReplyAndVote v => rrv_tid v = t ∧ rrv_shard v = p ∧ hasPreCommit v = false
    | MNotifyDependenciesAreCleared c => ndc_tid c = t ∧ ndc_shard c = p
    | _ => False
    end.

(** [q] distinct replicas of shard [p] acknowledged transaction [t]. *)
Definition quorum_replied (q : Z) (t p : Z) : Prop :=
  ∃ rs : list Z, NoDup rs ∧ q ≤ Z.of_nat (length rs) ∧ ∀ r, r ∈ rs → replied t p r.

(** A message of the type [Vote], which carries no dependency information. *)
Definition plain_vote (t : Z) : Prop := ∃ v, MVote v ∈ tr ∧ v_tid v = t.

(** A [NotifyDecisionToPrimary] reported that transaction [t] commits. *)
Definition notified (t : Z) : Prop :=
  ∃ m, MNotifyDecisionToPrimary m ∈ tr ∧ ndp_tid m = t ∧ ndp_state m = COMMIT.

(** The conditions under which transaction [t] of participants [ps] may commit. *)
Definition may_commit (q : Z) (ps : list Z) (t : Z) : Prop :=
  ps ≠ [] ∧ ∀ p, p ∈ ps →
    quorum_replied q t p ∧ (notified t ∨ voted t p ∧ (¬ plain_vote t → cleared t p)).

(** A shard asked for the result of transaction [t]. *)
Definition requested (t : Z) : Prop := ∃ m, MRequestCommitResult m ∈ tr ∧ rcr_tid m = t.

(** No other coordinator sent a decision on [t]. *)
Definition undisturbed (t : Z) : Prop :=
  ∀ m, m ∈ tr →
    match m with
    | MReplicateDecision d => rd_tid d ≠ t
    | MNotifyDecisionToPrimary d => ndp_tid d ≠ t
    | _ => True
    end.

(** A message with timestamp [ts] can be the answer to a request for the result of [t] that
    came when [t] was already decided: such an answer carries no timestamp. *)
Definition late_answer (results : gmap Z CommitState) (t ts : Z) : Prop :=
  requested t ∧ is_Some (results !! t) ∧ ts = 0.
End evidence.

(** More messages are more evidence. *)
Lemma voted_mono tr tr' t p : tr ⊆ tr' → voted tr t p → voted tr' t p.
Proof. intros Hsub (m & Hm & ?). exists m. auto. Qed.

Lemma replied_mono tr tr' t p r : tr ⊆ tr' → replied tr t p r → replied tr' t p r.
Proof. intros Hsub (m & Hm & ?). exists m. auto. Qed.

Lemma cleared_mono tr tr' t p : tr ⊆ tr' → cleared tr t p → cleared tr' t p.
Proof. intros Hsub (m & Hm & ?). exists m. auto. Qed.

Lemma may_commit_mono tr tr' q ps t :
  tr ⊆ tr' → may_commit tr q ps t → may_commit tr' q ps t.
Proof.
  intros Hsub [Hne Hps]. split; [done|]. intros p Hp. destruct (Hps p Hp) as (Hq & Hv).
  split.
  - destruct Hq as (rs & ? & ? & ?). exists rs. split_and!; [done..|]. intros. eapply replied_mono; eauto.
  - destruct Hv as [(m & ? & ?)|[Hv Hc]]; [left; exists m; auto|right].
    split; [by eapply voted_mono|]. intros Hno. eapply cleared_mono; [done|]. apply Hc.
    intros (v & Hv' & ?). apply Hno. exists v. auto.
Qed.

Lemma undisturbed_mono tr tr' t : tr ⊆ tr' → undisturbed tr' t → undisturbed tr t.
Proof. intros Hsub Hno m Hm. apply Hno. auto. Qed.

Lemma late_answer_mono tr tr' rs t ts : tr ⊆ tr' → late_answer tr rs t ts → late_answer tr' rs t ts.
Proof. intros Hsub [(m & ? & ?) ?]. split; [|done]. exists m. auto. Qed.

(** A finite map whose keys all come from a duplicate-free list of the same size has all
    of them. *)
Lemma full_domain {A} (m : gmap Z A) (ps : list Z) :
  NoDup ps → (∀ p, is_Some (m !! p) → p ∈ ps) → size m = length ps →
  ∀ p, p ∈ ps → is_Some (m !! p).
Proof.
  intros Hnd Hin Hsize p Hp. apply elem_of_dom.
  assert (dom m = list_to_set ps) as ->; [|by apply elem_of_list_to_set].
  apply set_subseteq_size_eq.
  - intros k Hk%elem_of_dom. apply elem_of_list_to_set. auto.
  - rewrite size_list_to_set by done. rewrite size_dom. lia.
Qed.

(** ** The checks *)

Lemma check_votes_spec ps vs :
  let '(b, vs') := check_votes ps vs in
  (∀ p, vs' !! p = Some PREPARED → vs !! p = Some PREPARED) ∧
  (∀ p v, vs !! p = Some v → vs' !! p = Some v) ∧
  (b = true → ∀ p, p ∈ ps → vs' !! p = Some PREPARED).
Proof.
  revert vs. induction ps as [|p ps IH]; intros vs; simpl.
  { split_and!; [done..|]. set_solver. }
  destruct (vs !! p) as [v|] eqn:Hp; [case_decide as Hv|].
  - specialize (IH vs). destruct (check_votes ps vs) as [b vs']. destruct IH as (H1 & H2 & H3).
    split_and!; [done..|]. intros Hb q [->|Hq]%elem_of_cons; [apply H2; congruence|auto].
  - by split_and!.
  - split_and!; [|intros q v Hq; rewrite lookup_insert_ne by congruence; done|done].
    intros q [[_ [=]]|[_ Hq]]%lookup_insert_Some. done.
Qed.

Lemma ReachConsensus_spec req b req' :
  ReachConsensus req = (b, req') →
  req' = req <| votes := votes req' |> ∧
  (∀ p, votes req' !! p = Some PREPARED → votes req !! p = Some PREPARED) ∧
  (∀ p v, votes req !! p = Some v → votes req' !! p = Some v) ∧
  (b = true → ∀ p, p ∈ participants req → votes req' !! p = Some PREPARED).
Proof.
  unfold ReachConsensus. destruct (negb _).
  - intros [= <- <-]. split_and!; [by destruct req|done..].
  - pose proof (check_votes_spec (participants req) (votes req)) as Hspec.
    destruct (check_votes _ _) as [b' vs']. intros [= <- <-]. split; [done|exact Hspec].
Qed.

(** The size tests determine the domains when all keys are participants. *)
Lemma ReachFaultTolerance_spec req :
  ReachFaultTolerance req = true → NoDup (participants req) →
  (∀ p, is_Some (replicateResults req !! p) → p ∈ participants req) →
  participants req ≠ [] ∧
  ∀ p, p ∈ participants req → majority req ≤ Z.of_nat (length (replies_of req p)).
Proof.
  unfold ReachFaultTolerance. destruct (_ <=? 0) eqn:Hlen; [done|].
  destruct (negb _) eqn:Hsize; [done|]. intros Hall Hnd Hdom.
  split; [intros Hn; by rewrite Hn in Hlen|]. intros p Hp.
  apply negb_false_iff, Z.eqb_eq in Hsize.
  destruct (full_domain (replicateResults req) (participants req) Hnd Hdom ltac:(lia) p Hp) as [l Hl].
  unfold replies_of. rewrite Hl; simpl. rewrite forallb_forall in Hall.
  specialize (Hall (p, l)). simpl in Hall.
  assert (In (p, l) (map_to_list (replicateResults req))) as Hin
    by (by apply list_elem_of_In, elem_of_map_to_list).
  specialize (Hall Hin). lia.
Qed.

Lemma NoPrecommitDependency_spec req :
  AllParticipantsHaveNoPrecommitDependency req = true → NoDup (participants req) →
  (∀ p, is_Some (dependencies req !! p) → p ∈ participants req) →
  ∀ p, p ∈ participants req → dependencies req !! p = Some false.
Proof.
  unfold AllParticipantsHaveNoPrecommitDependency. destruct (negb _) eqn:Hsize; [done|].
  intros Hall Hnd Hdom p Hp. apply negb_false_iff, Z.eqb_eq in Hsize.
  destruct (full_domain (dependencies req) (participants req) Hnd Hdom ltac:(lia) p Hp) as [d Hd].
  rewrite forallb_forall in Hall. specialize (Hall p). rewrite Hd in Hall.
  destruct d; [|done]. by specialize (Hall ltac:(by apply list_elem_of_In)).
Qed.

Lemma already_received_spec r l :
  already_received r l = false ↔ r ∉ (blr_replica <$> l).
Proof.
  unfold already_received. rewrite list_elem_of_fmap. induction l as [|b l IH]; simpl; [set_solver|].
  rewrite orb_false_iff, IH, Z.eqb_neq. setoid_rewrite elem_of_cons. naive_solver.
Qed.

Lemma read_member_run {A} (g : list sent → A) a s : read_member g (Some a) s = Ok (a, s).
Proof. done. Qed.

(** Reading a member changes nothing. *)
Lemma read_member_preserves {A} I (g : list sent → A) x : preserves I (read_member g x).
Proof. unfold read_member. auto with preserve. Qed.

#[local] Hint Extern 1 (preserves _ (read_state _)) => apply read_member_preserves : preserve.
#[local] Hint Extern 1 (preserves _ (read_shard _)) => apply read_member_preserves : preserve.
#[local] Hint Extern 1 (preserves _ (read_coordinator _)) => apply read_member_preserves : preserve.

(** ** Invariant *)

Section invariant.
(** The participants of each transaction, and the quorum. *)
Context (P : Z → list Z) (Q : Z).
Hypothesis P_nodup : ∀ t, NoDup (P t).

(** Messages agree on the participants of a transaction and come from participants. *)
Definition respects (m : message) : Prop :=
  match m with
  | MReplicateReplyAndVote v => rrv_participants v = P (rrv_tid v) ∧ rrv_shard v ∈ P (rrv_tid v)
  | MVote v => v_participants v = P (v_tid v) ∧ v_shard v ∈ P (v_tid v)
  | MBypassLeaderReply b => blr_shard b ∈ P (blr_tid b)
  | MBypassLeaderReplyUnion u => ∀ p, p ∈ blu_shards u → p ∈ P (blu_tid u)
  | MNotifyDependenciesAreCleared c => ndc_shard c ∈ P (ndc_tid c)
  | MRequestCommitResult r => rcr_participants r = P (rcr_tid r)
  | MNotifyDecisionToPrimary d => ndp_participants d = P (ndp_tid d)
  | _ => True
  end.

Section fixed_trace.
Variable tr : list message.

Record pending_ok (t : Z) (req : PendingCommit) : Prop := {
  ok_tid : tid req = t;
  ok_majority : majority req = Q;
  ok_participants : participants req = [] ∨ participants req = P t;
  ok_votes : ∀ p, votes req !! p = Some PREPARED → voted tr t p;
  ok_dependencies : ∀ p d, dependencies req !! p = Some d → p ∈ P t ∧ (d = false → cleared tr t p);
  ok_replies : ∀ p l, replicateResults req !! p = Some l →
    p ∈ P t ∧ NoDup (blr_replica <$> l) ∧ ∀ r, r ∈ (blr_replica <$> l) → replied tr t p r;
  ok_consensus : reach_consensus req = true →
    participants req = P t ∧ is_Some (state req) ∧
    (notified tr t ∨ ∀ p, p ∈ P t → votes req !! p = Some PREPARED);
  ok_tolerance : reach_fault_tolerance req = true →
    P t ≠ [] ∧ ∀ p, p ∈ P t → Q ≤ Z.of_nat (length (replies_of req p));
  ok_state : undisturbed tr t → ∀ st, state req = Some st → st = PREPARED
}.

Definition sent_ok (results : gmap Z CommitState) (x : sent) : Prop :=
  match x with
  | ResultToShard _ _ r =>
      may_commit tr Q (P (nrr_tid r)) (nrr_tid r) ∨
      late_answer tr results (nrr_tid r) (nrr_timestamp r)
  | DecisionToCoordinators d =>
      undisturbed tr (rd_tid d) →
      rd_state d = PREPARED ∨ late_answer tr results (rd_tid d) (rd_timestamp d)
  | _ => True
  end.

Definition coordinator_ok (s : CoordinatorReplica) : Prop :=
  quorum_size s = Q ∧ (∀ t req, pendingCommits s !! t = Some req → pending_ok t req) ∧
  (∀ t c, commitResults s !! t = Some c → reachFaultTolerance c = true → may_commit tr Q (P t) t) ∧
  ∀ x, x ∈ outbox s → sent_ok (commitResults s) x.

Lemma pending_new_ok t : pending_ok t (PendingCommit_new Q t).
Proof. split; simpl; auto; intros *; rewrite ?lookup_empty; done. Qed.

Lemma replies_ok t req p :
  pending_ok t req → NoDup (blr_replica <$> replies_of req p) ∧
  ∀ r, r ∈ (blr_replica <$> replies_of req p) → replied tr t p r.
Proof.
  intros Hok. unfold replies_of. destruct (replicateResults req !! p) as [l|] eqn:Hl; simpl.
  - apply (ok_replies _ _ Hok p l Hl).
  - split; [constructor|set_solver].
Qed.

(** Every commit is preceded by this: all quorums, and, unless a decision was reported, all
    votes and, unless a vote without dependency information was counted, no open
    dependency. *)
Lemma pending_may_commit t req :
  pending_ok t req → reach_consensus req = true → reach_fault_tolerance req = true →
  AllParticipantsHaveNoPrecommitDependency req = true ∨ plain_vote tr t ∨ notified tr t →
  may_commit tr Q (P t) t.
Proof.
  intros Hok Hc Hft Hdep. destruct (ok_consensus _ _ Hok Hc) as (Hps & _ & Hv).
  destruct (ok_tolerance _ _ Hok Hft) as [Hne Hq]. split; [done|]. intros p Hp. split.
  - exists (blr_replica <$> replies_of req p). rewrite length_fmap.
    destruct (replies_ok t req p Hok). auto.
  - destruct Hv as [|Hv]; [by left|]. destruct Hdep as [Hdep|[Hdep|]]; [right|right|by left];
      (split; [apply (ok_votes _ _ Hok); auto|intros Hno; try done]).
    apply (ok_dependencies _ _ Hok p false); [|done].
    apply (NoPrecommitDependency_spec req); rewrite ?Hps; auto.
    intros k [d Hd]. by apply (ok_dependencies _ _ Hok k d).
Qed.

(** *** The operations preserve the invariant *)

Lemma store_pending_preserves t req :
  pending_ok t req → preserves coordinator_ok (store_pending t req).
Proof.
  intros Hok. apply preserves_modify. intros s (Hq & Hp & Hr & Ho). split_and!; [done| |done..]. simpl.
  intros t' req' [[<- <-]|[_ Ht]]%lookup_insert_Some; auto.
Qed.

Lemma drop_pending_preserves t : preserves coordinator_ok (drop_pending t).
Proof.
  apply preserves_modify. intros s (Hq & Hp & Hr & Ho). split_and!; [done| |done..]. simpl.
  intros t' req' [_ Ht]%lookup_delete_Some. auto.
Qed.

Lemma sent_ok_grow rs t c x : sent_ok rs x → sent_ok (<[t := c]> rs) x.
Proof.
  assert (∀ t' ts, late_answer tr rs t' ts → late_answer tr (<[t := c]> rs) t' ts) as Hla.
  { intros t' ts (Hreq & Hsome & ?). split_and!; [done| |done]. rewrite lookup_insert. by case_decide. }
  destruct x; simpl; naive_solver.
Qed.

Lemma record_result_preserves t r ft :
  (ft = true → may_commit tr Q (P t) t) → preserves coordinator_ok (record_result t r ft).
Proof.
  intros Hft. apply preserves_modify. intros s (Hq & Hp & Hr & Ho). split_and!; simpl; [done..| |].
  - intros t' c [[<- <-]|[_ Ht]]%lookup_insert_Some; [done|by apply Hr].
  - intros x Hx. by apply sent_ok_grow, Ho.
Qed.

(** [sent_ok] for whatever was decided: enough when the message is no late answer. *)
Lemma send_preserves x : (∀ rs, sent_ok rs x) → preserves coordinator_ok (send x).
Proof.
  intros Hx. apply preserves_modify. intros s (Hq & Hp & Hr & Ho). split_and!; [done..|]. simpl.
  intros y [Hy | ->%list_elem_of_singleton]%elem_of_app; auto.
Qed.

(** An invariant that the notifications of a shard keep. *)
Lemma NotifyCommitDecision_keeps (I : CoordinatorReplica → Prop) req :
  (∀ sh r d, preserves I (send (DecisionToShard sh r d))) → preserves I (NotifyCommitDecision req).
Proof.
  intros Hsend. unfold NotifyCommitDecision, mod_coordinators, shard_transport.
  apply preserves_bind; [auto with preserve|]. intros st.
  apply preserves_for_each. intros p. apply preserves_bind; [auto with preserve|]. intros r.
  apply preserves_bind; [auto with preserve|]. intros id. apply preserves_when. intros _.
  apply preserves_bind; auto with preserve.
Qed.

Lemma mod_coordinators_preserves a : preserves coordinator_ok (mod_coordinators a).
Proof. unfold mod_coordinators. auto with preserve. Qed.

Lemma shard_transport_preserves i : preserves coordinator_ok (shard_transport i).
Proof. unfold shard_transport. auto with preserve. Qed.

#[local] Hint Resolve store_pending_preserves drop_pending_preserves record_result_preserves
  send_preserves mod_coordinators_preserves shard_transport_preserves : preserve.

Lemma NotifyCommitDecision_preserves req : preserves coordinator_ok (NotifyCommitDecision req).
Proof. apply NotifyCommitDecision_keeps. intros. by apply send_preserves. Qed.

(** The two messages of [NotifyReplicateResult_], in states whose decisions satisfy [R]. *)
Lemma NotifyReplicateResult_sends (R : gmap Z CommitState → Prop) req :
  (∀ sh r rs, R rs → sent_ok rs
     (ResultToShard sh r (MkNotifyReplicateResult (tid req) true (timestamp req)))) →
  (∀ rs st, R rs → default st (state req) = st →
     sent_ok rs (DecisionToCoordinators (MkReplicateDecision (tid req) st (timestamp req)))) →
  preserves (λ s, coordinator_ok s ∧ R (commitResults s)) (NotifyReplicateResult_ req).
Proof.
  intros HR HD. unfold NotifyReplicateResult_, shard_transport.
  apply preserves_bind; [auto with preserve|]. intros ps.
  apply preserves_bind; [auto with preserve|]. intros i.
  apply preserves_bind; [auto with preserve|]. intros id.
  assert (∀ x, (∀ rs, R rs → sent_ok rs x) →
    preserves (λ s, coordinator_ok s ∧ R (commitResults s)) (send x)) as Hsend.
  { intros x Hx. apply preserves_modify. intros s [(Hq & Hp & Hr & Ho) Hi]. split; [|done].
    split_and!; [done..|]. simpl. intros y [Hy | ->%list_elem_of_singleton]%elem_of_app; auto. }
  apply preserves_bind; [by apply Hsend; auto|]. intros _.
  apply preserves_bind_result with (P := λ st, default st (state req) = st);
    unfold read_state, read_member; [auto with preserve|intros s; unfold post; simpl; by destruct (state req)|].
  intros st Hst. apply Hsend. auto.
Qed.

Lemma NotifyReplicateResult_preserves t req :
  pending_ok t req → reach_consensus req = true → may_commit tr Q (P t) t →
  preserves coordinator_ok (NotifyReplicateResult_ req).
Proof.
  intros Hok Hc Hmay. pose proof (ok_tid _ _ Hok) as Ht.
  destruct (ok_consensus _ _ Hok Hc) as (_ & [st Hst] & _).
  intros s Hs. eapply post_mono; [apply (NotifyReplicateResult_sends (λ _, True))|by intros ? s' []]; simpl; auto.
  - intros. rewrite Ht. by left.
  - intros rs st' _ Hd Hun. rewrite Hst in Hd. simpl in Hd. subst st'. left.
    rewrite Ht in Hun. by apply (ok_state _ _ Hok Hun).
Qed.

#[local] Hint Resolve NotifyCommitDecision_preserves : preserve.

(** What happens when a transaction is decided to commit. *)
Lemma commit_preserves t req r ft :
  pending_ok t req → reach_consensus req = true → may_commit tr Q (P t) t →
  preserves coordinator_ok
    (_ ← record_result t r ft; _ ← NotifyReplicateResult_ req; drop_pending t).
Proof.
  intros. apply preserves_bind; [by apply record_result_preserves|]. intros _.
  apply preserves_bind; [by eapply NotifyReplicateResult_preserves|]. auto with preserve.
Qed.

Lemma abort_on_vote_preserves t req : preserves coordinator_ok (abort_on_vote t req).
Proof.
  unfold abort_on_vote. apply preserves_bind; [by apply record_result_preserves|]. intros _.
  apply preserves_bind; auto with preserve.
Qed.

(** *** The updates of a pending entry *)

Lemma set_participants_ok t req ps sh pc ts :
  pending_ok t req → ps = P t →
  pending_ok t ((if decide (participants req = []) then req <| participants := ps |> else req)
                  <| primary_shard := sh |> <| primary_coordinator := pc |> <| timestamp := ts |>) ∧
  participants (if decide (participants req = []) then req <| participants := ps |> else req) = P t.
Proof.
  intros [] ->. case_decide as Hnil.
  - split; [|done]. split; simpl; auto. intros Hc. split; [done|]. by apply ok_consensus0.
  - split; [by split|]. naive_solver.
Qed.

Lemma add_vote_ok t req p :
  pending_ok t req → voted tr t p → pending_ok t (req <| votes ::= <[p := PREPARED]> |>).
Proof.
  intros [] Hv. split; simpl; auto.
  - intros q [[<- _]|[_ Hq]]%lookup_insert_Some; auto.
  - intros Hc. destruct (ok_consensus0 Hc) as (? & ? & Hall). split_and!; [done..|].
    destruct Hall as [|Hall]; [by left|right]. intros q Hq. rewrite lookup_insert. case_decide; auto.
Qed.

Lemma add_dependency_ok t req p d :
  pending_ok t req → p ∈ P t → (d = false → cleared tr t p) →
  pending_ok t (req <| dependencies ::= <[p := d]> |>).
Proof.
  intros [] Hp Hd. split; simpl; auto.
  intros q d' [[<- <-]|[_ Hq]]%lookup_insert_Some; auto.
Qed.

Lemma consensus_ok t req b req' :
  pending_ok t req → participants req = P t → ReachConsensus req = (b, req') →
  pending_ok t (if b then req' <| state := Some PREPARED |> <| reach_consensus := true |> else req').
Proof.
  intros [] Hps (Heq & H1 & H2 & H3)%ReachConsensus_spec.
  assert (pending_ok t req') as Hok'.
  { rewrite Heq. split; simpl; auto. intros Hc. destruct (ok_consensus0 Hc) as (? & ? & []); naive_solver. }
  destruct b; [|done]. destruct Hok'. rewrite Hps in H3.
  split; simpl; auto; [|congruence]. intros _. split_and!; [|done|auto]. rewrite Heq. done.
Qed.

(** The replies of shard [p] become [l]. *)
Lemma set_replies_ok t req p l :
  pending_ok t req → p ∈ P t → NoDup (blr_replica <$> l) →
  (∀ r, r ∈ (blr_replica <$> l) → replied tr t p r) →
  (length (replies_of req p) ≤ length l)%nat →
  pending_ok t (req <| replicateResults ::= <[p := l]> |>).
Proof.
  intros [] Hp Hnd Hr Hlen. split; simpl; auto.
  - intros q l' [[<- <-]|[_ Hq]]%lookup_insert_Some; auto.
  - intros Hft. destruct (ok_tolerance0 Hft) as [Hne Hq]. split; [done|]. intros q Hin.
    specialize (Hq q Hin). unfold replies_of in *; simpl. rewrite lookup_insert.
    case_decide; subst; simpl; lia.
Qed.

Lemma touch_replies_ok t req p :
  pending_ok t req → p ∈ P t →
  pending_ok t (req <| replicateResults ::= <[p := replies_of req p]> |>).
Proof. intros Hok Hp. destruct (replies_ok t req p Hok). by apply set_replies_ok. Qed.

Lemma add_reply_ok t req p b :
  pending_ok t req → p ∈ P t → already_received (blr_replica b) (replies_of req p) = false →
  replied tr t p (blr_replica b) →
  pending_ok t (req <| replicateResults ::= <[p := replies_of req p]> |>
                    <| replicateResults ::= <[p := replies_of req p ++ [b]]> |>).
Proof.
  intros Hok Hp Hnew%already_received_spec Hr. destruct (replies_ok t req p Hok) as [Hnd Hrep].
  apply set_replies_ok; [by apply touch_replies_ok|done|..].
  - rewrite fmap_app. apply NoDup_app. split_and!; [done| |apply NoDup_singleton].
    intros r Hin ->%list_elem_of_singleton. done.
  - intros r. rewrite fmap_app, elem_of_app. intros [?|Hin]; [auto|].
    apply list_elem_of_singleton in Hin as ->. done.
  - unfold replies_of at 1; simpl. rewrite lookup_insert_eq. simpl. rewrite length_app. lia.
Qed.

Lemma tolerance_ok t req :
  pending_ok t req → ReachFaultTolerance req = true →
  pending_ok t (req <| reach_fault_tolerance := true |>).
Proof.
  intros Hok Hft. pose proof Hok as []. split; simpl; auto. intros _.
  assert (participants req ≠ []) as Hne.
  { intros Hn. unfold ReachFaultTolerance in Hft. by rewrite Hn in Hft. }
  destruct ok_participants0 as [|Hps]; [done|].
  destruct (ReachFaultTolerance_spec req Hft) as [_ Hq]; rewrite ?Hps in *; [done| |].
  - intros p [l Hl]. by destruct (ok_replies0 p l Hl).
  - split; [done|]. intros p Hp. rewrite <- ok_majority0. by apply Hq.
Qed.

(** *** The handlers preserve the invariant *)

Lemma pending_for_vote_spec t ps sh pc ts s :
  coordinator_ok s → ps = P t →
  wlp (pending_for_vote t ps sh pc ts) (λ req s',
    coordinator_ok s' ∧ pending_ok t req ∧ participants req = P t) s.
Proof.
  intros Hs ->. pose proof Hs as (Hq & Hp & _). unfold pending_for_vote.
  apply post_bind. unfold post at 1; simpl. destruct (pendingCommits s !! t) as [req|] eqn:Ht.
  - apply post_ret. split; [done|].
    destruct (set_participants_ok t req (P t) (Some sh) (Some (coordinator_id s))
      (if ts >? timestamp (if decide (participants req = []) then req <| participants := P t |> else req)
       then ts else timestamp (if decide (participants req = []) then req <| participants := P t |> else req))
      (Hp _ _ Ht) eq_refl) as [Hok Hps].
    destruct (ts >? _); simpl in *; split; try done.
  - apply post_ret. split; [done|]. rewrite Hq. split; [|done].
    split; simpl; auto; intros *; rewrite ?lookup_empty; done.
Qed.

Lemma decide_on_reply_spec t req s :
  coordinator_ok s → pending_ok t req →
  wlp (decide_on_reply t req) (λ r s', coordinator_ok s' ∧ pending_ok t r.2) s.
Proof.
  intros Hs Hok. unfold decide_on_reply. destruct (ReachFaultTolerance req) eqn:Hft; [|by apply post_ret].
  pose proof (tolerance_ok t req Hok Hft) as Hok'. destruct (_ && _) eqn:Hdec; [|by apply post_ret].
  apply andb_true_iff in Hdec as [Hc Hdep].
  pose proof (pending_may_commit t _ Hok' Hc eq_refl (or_introl Hdep)) as Hmay.
  apply post_bind. eapply post_mono; [by apply record_result_preserves|]. intros ? s1 Hs1.
  apply post_bind. eapply post_mono; [by eapply (NotifyReplicateResult_preserves t)|]. intros ? s2 Hs2.
  apply post_bind. eapply post_mono; [by apply drop_pending_preserves|]. intros ? s3 Hs3.
  by apply post_ret.
Qed.

#[local] Hint Resolve commit_preserves abort_on_vote_preserves : preserve.

Lemma HandleReplicateReplyAndVote_preserves m :
  MReplicateReplyAndVote m ∈ tr → respects (MReplicateReplyAndVote m) →
  preserves coordinator_ok (HandleReplicateReplyAndVote m).
Proof.
  intros Hin [Hps Hsh] s Hs. apply post_get. destruct (commitResults s !! _); [by apply post_ret|].
  apply post_bind. eapply post_mono; [by apply pending_for_vote_spec|].
  intros req s1 (Hs1 & Hok & Hreq). case_decide as Hv; [|by apply abort_on_vote_preserves].
  rewrite Hv. cbv zeta. set (req1 := req <| votes ::= _ |> <| dependencies ::= _ |>).
  assert (pending_ok (rrv_tid m) req1) as Hok1.
  { apply add_dependency_ok; [apply add_vote_ok; [done|]|done|].
    - eexists. split; [exact Hin|done].
    - intros Hd. eexists. split; [exact Hin|done]. }
  destruct (ReachConsensus req1) as [b req2] eqn:Hrc.
  pose proof (consensus_ok _ _ _ _ Hok1 Hreq Hrc) as Hok3.
  set (req3 := if b then _ else req2) in *.
  apply preserves_elim; [exact Hs1|].
  apply preserves_bind; [auto with preserve|]. intros _.
  apply preserves_bind; [|intros _; by apply send_preserves].
  apply preserves_when. intros ->. apply preserves_bind; [auto with preserve|]. intros _.
  apply preserves_bind; [auto with preserve|]. intros pc.
  apply preserves_bind; [auto with preserve|]. intros id.
  apply preserves_when. intros [[_ Hft]%andb_true_iff Hdep]%andb_true_iff.
  apply preserves_bind; [auto with preserve|]. intros st. apply commit_preserves; [done..|].
  apply (pending_may_commit _ req3); auto.
Qed.

Lemma HandleVote_preserves m :
  MVote m ∈ tr → respects (MVote m) → preserves coordinator_ok (HandleVote m).
Proof.
  intros Hin [Hps Hsh] s Hs. apply post_get. destruct (commitResults s !! _); [by apply post_ret|].
  apply post_bind. eapply post_mono; [by apply pending_for_vote_spec|].
  intros req s1 (Hs1 & Hok & Hreq). case_decide as Hv; [|by apply abort_on_vote_preserves].
  rewrite Hv. cbv zeta. set (req1 := req <| votes ::= _ |>).
  assert (pending_ok (v_tid m) req1) as Hok1.
  { apply add_vote_ok; [done|]. eexists. split; [exact Hin|done]. }
  destruct (ReachConsensus req1) as [b req2] eqn:Hrc.
  pose proof (consensus_ok _ _ _ _ Hok1 Hreq Hrc) as Hok3.
  set (req3 := if b then _ else req2) in *.
  apply preserves_elim; [exact Hs1|].
  apply preserves_bind; [auto with preserve|]. intros _.
  apply preserves_when. intros ->. apply preserves_bind; [auto with preserve|]. intros _.
  apply preserves_bind; [auto with preserve|]. intros pc.
  apply preserves_bind; [auto with preserve|]. intros id.
  apply preserves_when. intros [_ Hft]%andb_true_iff.
  apply preserves_bind; [auto with preserve|]. intros st. apply commit_preserves; [done..|].
  apply (pending_may_commit _ req3); auto. right. left. by exists m.
Qed.

Lemma pending_for_reply_spec t s :
  coordinator_ok s → wlp (pending_for_reply t) (λ req s', coordinator_ok s' ∧ pending_ok t req) s.
Proof.
  intros Hs. pose proof Hs as (Hq & Hp & _). apply post_get, post_ret. split; [done|].
  destruct (pendingCommits s !! t) as [req|] eqn:Ht; simpl; [auto|]. rewrite Hq. apply pending_new_ok.
Qed.

Lemma HandleBypassLeaderReply_preserves m :
  MBypassLeaderReply m ∈ tr → respects (MBypassLeaderReply m) →
  preserves coordinator_ok (HandleBypassLeaderReply m).
Proof.
  intros Hin Hsh s Hs. apply post_get. destruct (commitResults s !! _); [by apply post_ret|].
  apply post_bind. eapply post_mono; [by apply pending_for_reply_spec|]. intros req s1 [Hs1 Hok].
  apply post_bind. eapply post_mono; [by apply store_pending_preserves; [apply touch_replies_ok|]|].
  intros ? s2 Hs2. destruct (already_received _ _) eqn:Har; simpl; [by apply post_ret|].
  apply post_bind. eapply post_mono; [apply decide_on_reply_spec; [done|apply add_reply_ok; try done]|].
  - eexists. split; [exact Hin|done].
  - intros [[] req3] s3 [Hs3 Hok3]; simpl; [by apply post_ret|]. by apply store_pending_preserves.
Qed.

Lemma union_shards_preserves t r already shards req :
  (∀ p, p ∈ shards → p ∈ P t ∧ replied tr t p r) → pending_ok t req →
  preserves coordinator_ok (union_shards t r already shards req).
Proof.
  revert already req. induction shards as [|q shards IH]; intros already req Hsh Hok s Hs; simpl.
  { by apply store_pending_preserves. }
  destruct (Hsh q ltac:(set_solver)) as [Hq Hr].
  assert (∀ p, p ∈ shards → p ∈ P t ∧ replied tr t p r) as Hsh' by (intros; apply Hsh; set_solver).
  destruct (already || already_received r (replies_of req q)) eqn:Har.
  { apply IH; [done|by apply touch_replies_ok|done]. }
  apply orb_false_iff in Har as [_ Har].
  apply post_bind. eapply post_mono; [apply decide_on_reply_spec; [done|by apply add_reply_ok]|].
  intros [[] req3] s3 [Hs3 Hok3]; simpl; [by apply post_ret|]. by apply IH.
Qed.

Lemma HandleBypassLeaderReplyUnion_preserves m :
  MBypassLeaderReplyUnion m ∈ tr → respects (MBypassLeaderReplyUnion m) →
  preserves coordinator_ok (HandleBypassLeaderReplyUnion m).
Proof.
  intros Hin Hsh s Hs. apply post_get. destruct (commitResults s !! _); [by apply post_ret|].
  apply post_bind. eapply post_mono; [by apply pending_for_reply_spec|]. intros req s1 [Hs1 Hok].
  apply post_bind. eapply post_mono; [by apply store_pending_preserves|]. intros ? s2 Hs2.
  apply union_shards_preserves; [|done|done]. intros p Hp. split; [by apply Hsh|].
  eexists. split; [exact Hin|done].
Qed.

Lemma HandleNotifyDependenciesAreCleared_preserves m :
  MNotifyDependenciesAreCleared m ∈ tr → respects (MNotifyDependenciesAreCleared m) →
  preserves coordinator_ok (HandleNotifyDependenciesAreCleared m).
Proof.
  intros Hin Hsh s Hs. apply post_get. destruct (pendingCommits s !! _) as [req|] eqn:Ht; [|by apply post_ret].
  pose proof Hs as (_ & Hp & _).
  assert (pending_ok (ndc_tid m) (req <| dependencies ::= <[ndc_shard m := false]> |>)) as Hok.
  { apply add_dependency_ok; [auto|done|]. intros _. eexists. split; [exact Hin|done]. }
  apply preserves_elim; [exact Hs|].
  apply preserves_bind; [auto with preserve|]. intros _.
  apply preserves_when. intros [[Hdep Hc]%andb_true_iff Hft]%andb_true_iff.
  apply preserves_bind; [auto with preserve|]. intros st. apply commit_preserves; [done..|].
  by eapply pending_may_commit; eauto.
Qed.

Lemma HandleReplicateDecision_preserves m :
  MReplicateDecision m ∈ tr → preserves coordinator_ok (HandleReplicateDecision m).
Proof.
  intros Hin s Hs. apply post_get. destruct (pendingCommits s !! _) as [req|] eqn:Ht; [|by apply post_ret].
  pose proof Hs as (_ & Hp & _).
  assert (pending_ok (rd_tid m) (req <| state := Some (rd_state m) |>)) as Hok.
  { destruct (Hp _ _ Ht). split; simpl; auto; [naive_solver|]. intros Hno st. by destruct (Hno _ Hin). }
  apply preserves_elim; [exact Hs|]. apply preserves_bind; [auto with preserve|]. intros _.
  apply preserves_bind; [by apply record_result_preserves|]. intros _.
  apply preserves_bind; [auto with preserve|]. intros sh.
  apply preserves_bind; [auto with preserve|]. intros r.
  apply preserves_bind; [by apply send_preserves|]. intros _. auto with preserve.
Qed.

Lemma HandleReplyDecision_preserves m : preserves coordinator_ok (HandleReplyDecision m).
Proof.
  intros s Hs. apply post_get. destruct (pendingCommits s !! _) as [req|] eqn:Ht; [|by apply post_ret].
  case_decide; [by apply post_ret|]. pose proof Hs as (_ & Hp & _).
  assert (pending_ok (rpd_tid m) (req <| commitDecisionReplies ::= union {[coordinatorid m]} |>)) as Hok.
  { destruct (Hp _ _ Ht). by split. }
  apply preserves_elim; [exact Hs|]. apply preserves_bind; auto with preserve.
Qed.

(** The entry of [t] may be anything while it is about to be dropped. *)
Definition ok_without (t : Z) (s : CoordinatorReplica) : Prop :=
  coordinator_ok (s <| pendingCommits ::= delete t |>).

Lemma abort_preserves t req :
  preserves coordinator_ok
    (_ ← store_pending t req; _ ← record_result t ABORT false; _ ← NotifyCommitDecision req; drop_pending t).
Proof.
  intros s Hs. apply (post_bind_run _ _ _ _ _ tt (s <| pendingCommits ::= <[t := req]> |>)); [done|].
  assert (ok_without t (s <| pendingCommits ::= <[t := req]> |>)) as Hw.
  { pose proof (drop_pending_preserves t s Hs) as Hd. unfold post, drop_pending, modify in Hd.
    unfold ok_without; simpl in *. by rewrite delete_insert_eq. }
  apply post_bind. eapply post_mono; [apply (preserves_elim (ok_without t)); [exact Hw|]|].
  { apply preserves_modify. intros s1 Hs1.
    exact (record_result_preserves t ABORT false ltac:(done) _ Hs1). }
  intros ? s1 Hs1. apply post_bind.
  eapply post_mono; [apply (preserves_elim (ok_without t)); [exact Hs1|]|by intros ? s2].
  apply NotifyCommitDecision_keeps. intros sh r d. apply preserves_modify. intros s2 Hs2.
  exact (send_preserves (DecisionToShard sh r d) ltac:(done) _ Hs2).
Qed.

Lemma HandleNotifyDecision_preserves m :
  MNotifyDecisionToPrimary m ∈ tr → respects (MNotifyDecisionToPrimary m) →
  preserves coordinator_ok (HandleNotifyDecision m).
Proof.
  intros Hin Hps s Hs. apply post_get. pose proof Hs as (Hq & Hp & _).
  destruct (pendingCommits s !! _) as [req|] eqn:Ht; [|by apply post_ret].
  destruct (reach_consensus req); [by apply post_ret|]. cbv zeta.
  set (req2 := if decide (participants _ = []) then _ else _).
  case_decide as Hst; [|by apply abort_preserves].
  assert (notified tr (ndp_tid m)) as Hn by by exists m.
  assert (pending_ok (ndp_tid m) (req2 <| timestamp := ndp_timestamp m |>)) as Hok.
  { destruct (Hp _ _ Ht). unfold req2; simpl in *.
    case_decide as Hnil; split; simpl; auto; try (intros Hun; by destruct (Hun _ Hin));
      intros _; (split_and!; [|done|by left]); by destruct ok_participants0. }
  assert (reach_consensus (req2 <| timestamp := ndp_timestamp m |>) = true) as Hc.
  { unfold req2. by case_decide. }
  apply preserves_elim; [exact Hs|]. apply preserves_bind; [auto with preserve|]. intros _.
  apply preserves_when. intros Hft. apply commit_preserves; [done..|].
  eapply pending_may_commit; eauto.
Qed.

Lemma HandleRequestCommitResult_preserves m :
  MRequestCommitResult m ∈ tr → respects (MRequestCommitResult m) →
  preserves coordinator_ok (HandleRequestCommitResult m).
Proof.
  intros Hin Hps s Hs. apply post_get. pose proof Hs as (Hq & Hp & _).
  destruct (pendingCommits s !! _) as [req|] eqn:Ht.
  - apply store_pending_preserves; [|done].
    apply (set_participants_ok _ req (rcr_participants m)
      (Some (rcr_primaryShard m)) (primary_coordinator req) (timestamp req) (Hp _ _ Ht)) in Hps
      as [Hok _].
    case_decide; by destruct req.
  - destruct (commitResults s !! _) as [c|] eqn:Hc.
    + assert (requested tr (rcr_tid m)) as Hreq by by exists m.
      eapply post_mono; [apply (NotifyReplicateResult_sends (λ rs, is_Some (rs !! rcr_tid m)))|by intros ? s' []].
      * intros sh r rs Hrs. right. by split_and!.
      * intros rs st Hrs _ _. right. by split_and!.
      * by rewrite Hc.
    + apply store_pending_preserves; [|done]. destruct (pending_new_ok (rcr_tid m)).
      rewrite Hq. split; simpl in *; auto; by intros.
Qed.

Lemma HandleMessage_preserves m :
  m ∈ tr → respects m → preserves coordinator_ok (HandleMessage m).
Proof.
  intros Hin Hm. destruct m; simpl; try done;
    eauto using HandleReplicateReplyAndVote_preserves, HandleBypassLeaderReply_preserves,
      HandleReplicateDecision_preserves, HandleReplyDecision_preserves,
      HandleBypassLeaderReplyUnion_preserves, HandleVote_preserves,
      HandleRequestCommitResult_preserves, HandleNotifyDependenciesAreCleared_preserves,
      HandleNotifyDecision_preserves with preserve.
Qed.
End fixed_trace.
End invariant.

(** ** Runs *)

(** The states a replica passes through when it handles the messages of a list. *)
Inductive run (s0 : CoordinatorReplica) : list message → CoordinatorReplica → Prop :=
| run_nil : run s0 [] s0
| run_snoc tr s m s' : run s0 tr s → HandleMessage m s = Ok (tt, s') → run s0 (tr ++ [m]) s'.

Lemma pending_ok_mono P Q tr tr' t req :
  tr ⊆ tr' → pending_ok P Q tr t req → pending_ok P Q tr' t req.
Proof.
  intros Hsub []. split; auto.
  - intros p Hp. eapply voted_mono; eauto.
  - intros p d Hd. destruct (ok_dependencies0 p d Hd). split; [done|]. intros. eapply cleared_mono; eauto.
  - intros p l Hl. destruct (ok_replies0 p l Hl) as (? & ? & Hr). split_and!; [done..|].
    intros. eapply replied_mono; eauto.
  - intros Hc. destruct (ok_consensus0 Hc) as (? & ? & Hv). split_and!; [done..|].
    destruct Hv as [(m & ? & ?)|]; [left; exists m; auto|by right].
  - intros Hno. apply ok_state0. by eapply undisturbed_mono.
Qed.

Lemma sent_ok_mono P Q tr tr' rs x : tr ⊆ tr' → sent_ok P Q tr rs x → sent_ok P Q tr' rs x.
Proof.
  destruct x; simpl; try done; intros Hsub Hx.
  - intros Hno. destruct Hx; [by eapply undisturbed_mono|by left|right; by eapply late_answer_mono].
  - destruct Hx; [left; by eapply may_commit_mono|right; by eapply late_answer_mono].
Qed.

Lemma coordinator_ok_mono P Q tr tr' s :
  tr ⊆ tr' → coordinator_ok P Q tr s → coordinator_ok P Q tr' s.
Proof.
  intros Hsub (Hq & Hp & Hr & Ho). split_and!; [done|..].
  - intros. eapply pending_ok_mono; eauto.
  - intros. eapply may_commit_mono; eauto.
  - intros. eapply sent_ok_mono; eauto.
Qed.

Lemma run_ok P n shards id tr s :
  (∀ t, NoDup (P t)) → run (CoordinatorReplica_new n shards id) tr s → Forall (respects P) tr →
  coordinator_ok P (Z.quot n 2 + 1) tr s.
Proof.
  intros HP Hrun. induction Hrun as [|tr s m s' Hrun IH Hstep]; intros Htr.
  - split_and!; simpl; [done|by intros t req ?%lookup_empty_Some|by intros t c ?%lookup_empty_Some
      |by intros x ?%not_elem_of_nil].
  - apply Forall_app in Htr as [Htr Hm]. apply Forall_cons in Hm as [Hm _].
    assert (coordinator_ok P (Z.quot n 2 + 1) (tr ++ [m]) s) as Hs.
    { eapply coordinator_ok_mono; [|by apply IH]. set_solver. }
    pose proof (HandleMessage_preserves P (Z.quot n 2 + 1) HP (tr ++ [m]) m ltac:(set_solver) Hm s Hs) as Hp.
    unfold post in Hp. by rewrite Hstep in Hp.
Qed.

(** C1: Commit safety.  Take any sequence of messages a coordinator replica handles, in any
    order, with losses and duplicates, as long as the messages about a transaction agree on
    its participants, which are distinct, and votes and acknowledgements come from
    participants.  If the replica has recorded a transaction as fault tolerant, then a
    majority quorum of distinct replicas of every participant acknowledged it, and either a
    [NotifyDecisionToPrimary] reported its commit or every participant voted [PREPARED] for
    it and (unless a plain [Vote], which carries no dependency information, was received
    for it) reported that it has no open dependency there.  If the replica has told a shard
    that the transaction is replicated, then the same holds, or the message can be the
    answer, without a timestamp, to a [RequestCommitResult] for a decided transaction. *)
Theorem coordinator_commit_safe (P : Z → list Z) (n shards id : Z) (tr : list message)
    (s : CoordinatorReplica) :
  (∀ t, NoDup (P t)) → run (CoordinatorReplica_new n shards id) tr s → Forall (respects P) tr →
  (∀ t c, commitResults s !! t = Some c → reachFaultTolerance c = true →
     may_commit tr (Z.quot n 2 + 1) (P t) t) ∧
  (∀ sh r m, ResultToShard sh r m ∈ outbox s →
     may_commit tr (Z.quot n 2 + 1) (P (nrr_tid m)) (nrr_tid m) ∨
     late_answer tr (commitResults s) (nrr_tid m) (nrr_timestamp m)).
Proof.
  intros HP Hrun Htr. destruct (run_ok P n shards id tr s HP Hrun Htr) as (_ & _ & Hr & Ho).
  split; [done|]. intros sh r m Hm. apply (Ho _ Hm).
Qed.

(** What a peer that has the transaction pending makes of a decision other than
    [COMMIT]. *)
Lemma HandleReplicateDecision_aborts d peer req :
  pendingCommits peer !! rd_tid d = Some req → 0 < n_coordinators peer < 2 ^ 31 →
  rd_state d ≠ COMMIT →
  ∃ peer', HandleReplicateDecision d peer = Ok (tt, peer') ∧
    commitResults peer' !! rd_tid d = Some (MkCommitState ABORT false).
Proof.
  intros Hreq Hn Hst. unfold HandleReplicateDecision, mbind, M_bind; simpl.
  rewrite Hreq. unfold store_pending, record_result, modify, mod_coordinators, mbind, M_bind; simpl.
  rewrite decide_False by done.
  rewrite u64_small by (unfold is_u64, u64_modulus; lia).
  assert ((n_coordinators peer =? 0) = false) as -> by lia. simpl.
  destruct (negb _); eexists; (split; [done|]); simpl; by rewrite lookup_insert_eq.
Qed.

(** C40: The commit decision reaches the other coordinators as an abort.  Take any run of a
    coordinator replica on messages that agree on the distinct participants of a
    transaction, in which no other coordinator sent it a decision ([ReplicateDecision] or
    [NotifyDecisionToPrimary]) on the transaction.  A decision it sends to its peers
    carries the state [PREPARED], never [COMMIT], so a peer that has the transaction pending
    records [ABORT] when it handles it; the only other decisions are the answers, without a
    timestamp, to a [RequestCommitResult] for a decided transaction. *)
Theorem commit_decision_recorded_as_abort (P : Z → list Z) (n shards id : Z) (tr : list message)
    (s peer : CoordinatorReplica) (d : ReplicateDecision) (req : PendingCommit) :
  (∀ t, NoDup (P t)) → run (CoordinatorReplica_new n shards id) tr s → Forall (respects P) tr →
  undisturbed tr (rd_tid d) → DecisionToCoordinators d ∈ outbox s →
  pendingCommits peer !! rd_tid d = Some req → 0 < n_coordinators peer < 2 ^ 31 →
  (rd_state d = PREPARED ∧
   ∃ peer', HandleReplicateDecision d peer = Ok (tt, peer') ∧
     commitResults peer' !! rd_tid d = Some (MkCommitState ABORT false)) ∨
  late_answer tr (commitResults s) (rd_tid d) (rd_timestamp d).
Proof.
  intros HP Hrun Htr Hun Hd Hreq Hn. apply (run_ok P n shards id tr s HP Hrun Htr) in Hd.
  destruct (Hd Hun) as [Hst|]; [left|by right]. split; [done|].
  eapply HandleReplicateDecision_aborts; [done..|]. by rewrite Hst.
Qed.

(** An aborted transaction is reported as replicated: a [RequestCommitResult] for a decided
    transaction that is not pending, also one decided to abort, is answered with
    [replicateSuccess] set, and the peers are sent a decision whose state is whatever was
    found in the uninitialised member. *)
Theorem request_answered_with_success (s : CoordinatorReplica) (m : RequestCommitResult) (c : CommitState) :
  pendingCommits s !! rcr_tid m = None → commitResults s !! rcr_tid m = Some c →
  0 ≤ to_int (rcr_primaryShard m) < n_shards s →
  ∃ s' st, HandleMessage (MRequestCommitResult m) s = Ok (tt, s') ∧
    outbox s' = outbox s ++
      [ResultToShard (to_int (rcr_primaryShard m)) (to_int (coordinator_id s))
         (MkNotifyReplicateResult (rcr_tid m) true 0);
       DecisionToCoordinators (MkReplicateDecision (rcr_tid m) st 0)].
Proof.
  intros Hp Hc Hsh. simpl. unfold HandleRequestCommitResult, mbind at 1, M_bind at 1; simpl.
  rewrite Hp, Hc. unfold NotifyReplicateResult_, shard_transport, mbind, M_bind; simpl.
  assert ((0 <=? to_int (rcr_primaryShard m)) && (to_int (rcr_primaryShard m) <? n_shards s) = true) as -> by lia.
  simpl. eexists _, _. split; [done|]. simpl. by rewrite <- app_assoc.
Qed.

(** ** Finality *)

(** The decision on [t] is recorded and nothing is pending for it. *)
Definition decided (t : Z) (r : CommitState) (s : CoordinatorReplica) : Prop :=
  commitResults s !! t = Some r ∧ pendingCommits s !! t = None.

Section final.
Context (t : Z) (r : CommitState).
Abbreviation fin := (decided t r).

Lemma store_pending_final t' req : t' ≠ t → preserves fin (store_pending t' req).
Proof. intros Hne. apply preserves_modify. intros s [Hc Hp]. split; [done|]. simpl. by rewrite lookup_insert_ne. Qed.

Lemma drop_pending_final t' : preserves fin (drop_pending t').
Proof. apply preserves_modify. intros s [Hc Hp]. split; [done|]. simpl. rewrite lookup_delete. by case_decide. Qed.

Lemma record_result_final t' x ft : t' ≠ t → preserves fin (record_result t' x ft).
Proof. intros Hne. apply preserves_modify. intros s [Hc Hp]. split; [|done]. simpl. by rewrite lookup_insert_ne. Qed.

Lemma send_final x : preserves fin (send x).
Proof. by apply preserves_modify. Qed.

#[local] Hint Resolve store_pending_final drop_pending_final record_result_final send_final : preserve.
#[local] Hint Extern 2 (preserves _ (if _ then _ else _)) => case_match : preserve.
#[local] Hint Extern 2 (preserves _ (match _ with _ => _ end)) => case_match : preserve.

Lemma mod_coordinators_final a : preserves fin (mod_coordinators a).
Proof. unfold mod_coordinators. auto with preserve. Qed.

Lemma shard_transport_final i : preserves fin (shard_transport i).
Proof. unfold shard_transport. auto with preserve. Qed.

#[local] Hint Resolve mod_coordinators_final shard_transport_final : preserve.

Lemma NotifyCommitDecision_final req : preserves fin (NotifyCommitDecision req).
Proof. unfold NotifyCommitDecision. auto 15 with preserve. Qed.

Lemma NotifyReplicateResult_final req : preserves fin (NotifyReplicateResult_ req).
Proof. unfold NotifyReplicateResult_. auto 15 with preserve. Qed.

#[local] Hint Resolve NotifyCommitDecision_final NotifyReplicateResult_final : preserve.

Lemma decide_on_reply_final t' req : t' ≠ t → preserves fin (decide_on_reply t' req).
Proof. intros. unfold decide_on_reply. auto 15 with preserve. Qed.

#[local] Hint Resolve decide_on_reply_final : preserve.

Lemma union_shards_final t' rep already shards req :
  t' ≠ t → preserves fin (union_shards t' rep already shards req).
Proof.
  intros Hne. revert already req. induction shards as [|q shards IH]; intros; simpl; auto 10 with preserve.
Qed.

#[local] Hint Resolve union_shards_final : preserve.

Lemma abort_on_vote_final t' req : t' ≠ t → preserves fin (abort_on_vote t' req).
Proof. intros. unfold abort_on_vote. auto 15 with preserve. Qed.

Lemma pending_for_vote_final t' ps sh pc ts : preserves fin (pending_for_vote t' ps sh pc ts).
Proof. unfold pending_for_vote. auto 15 with preserve. Qed.

Lemma pending_for_reply_final t' : preserves fin (pending_for_reply t').
Proof. unfold pending_for_reply. auto 15 with preserve. Qed.

#[local] Hint Resolve abort_on_vote_final pending_for_vote_final pending_for_reply_final : preserve.

(** A handler that first looks the transaction up: in [commitResults], which ends it when
    the transaction is [t], or in [pendingCommits]. *)
Lemma if_undecided_final t' (k : CoordinatorReplica → MC unit) :
  (∀ s, t' ≠ t → preserves fin (k s)) →
  preserves fin (s ← get_st; match commitResults s !! t' with Some _ => mret tt | None => k s end).
Proof.
  intros Hk s Hs. apply post_get. destruct (decide (t' = t)) as [->|Hne].
  - destruct Hs as [Hc Hp]. rewrite Hc. by apply post_ret.
  - destruct (commitResults s !! t'); [by apply post_ret|]. by apply Hk.
Qed.

Lemma if_pending_final t' (k : CoordinatorReplica → PendingCommit → MC unit) :
  (∀ s req, t' ≠ t → preserves fin (k s req)) →
  preserves fin (s ← get_st; match pendingCommits s !! t' with None => mret tt | Some req => k s req end).
Proof.
  intros Hk s Hs. apply post_get. destruct (decide (t' = t)) as [->|Hne].
  - destruct Hs as [Hc Hp]. rewrite Hp. by apply post_ret.
  - destruct (pendingCommits s !! t'); [by apply Hk|by apply post_ret].
Qed.

Lemma HandleRequestCommitResult_final m : preserves fin (HandleRequestCommitResult m).
Proof.
  intros s Hs. apply post_get. destruct (decide (rcr_tid m = t)) as [Heq|Hne].
  - rewrite Heq. destruct Hs as [Hc Hp]. rewrite Hp, Hc. by apply NotifyReplicateResult_final.
  - apply preserves_elim; [done|]. repeat case_match; auto with preserve.
Qed.

Lemma HandleMessage_final m : preserves fin (HandleMessage m).
Proof.
  destruct m; simpl;
    [apply if_undecided_final|apply if_undecided_final|apply if_pending_final|apply if_pending_final
    |apply if_undecided_final|apply if_undecided_final|apply HandleRequestCommitResult_final
    |apply if_pending_final|auto with preserve|apply if_pending_final|auto with preserve];
    intros; cbv zeta; auto 30 with preserve.
Qed.
End final.

(** Finality: once a decision on a transaction is recorded and its pending entry removed,
    no sequence of further messages, of any type and content, changes the decision or
    reopens the transaction. *)
Theorem coordinator_decision_final (t : Z) (r : CommitState) (s s' : CoordinatorReplica)
    (tr : list message) :
  decided t r s → run s tr s' → decided t r s'.
Proof.
  intros Hd Hrun. induction Hrun as [|tr s1 m s2 Hrun IH Hstep]; [done|].
  pose proof (HandleMessage_final t r m s1 IH) as Hp. unfold post in Hp. by rewrite Hstep in Hp.
Qed.

(** ** The two decisions *)

(** The decision messages [NotifyCommitDecision] sends: to the participants whose leader
    is in the region of this coordinator. *)
Definition decision_messages (s : CoordinatorReplica) (ps : list Z) (d : NotifyDecision) : list sent :=
  (λ p, DecisionToShard p (to_int (coordinator_id s)) d) <$>
    filter (λ p, p mod n_coordinators s = coordinator_id s) ps.

(** The configuration gives every shard of [ps] a transport. *)
Definition configured (s : CoordinatorReplica) (ps : list Z) : Prop :=
  0 < n_coordinators s < 2 ^ 31 ∧ n_shards s < 2 ^ 31 ∧ ∀ p, p ∈ ps → 0 ≤ p < n_shards s.

Lemma shard_transport_run s p : configured s [p] → shard_transport (to_int p) s = Ok (p, s).
Proof.
  intros (_ & Hs & Hp). specialize (Hp p ltac:(set_solver)). rewrite to_int_small by lia.
  unfold shard_transport, mbind, M_bind; simpl.
  assert ((0 <=? p) && (p <? n_shards s) = true) as -> by lia. done.
Qed.

Lemma mod_coordinators_run s a :
  0 < n_coordinators s < 2 ^ 31 → mod_coordinators a s = Ok (a mod n_coordinators s, s).
Proof.
  intros Hn. unfold mod_coordinators, mbind, M_bind; simpl.
  rewrite u64_small by (unfold is_u64, u64_modulus; lia).
  by assert ((n_coordinators s =? 0) = false) as -> by lia.
Qed.

Lemma configured_sub s s' ps ps' :
  configured s ps → n_coordinators s' = n_coordinators s → n_shards s' = n_shards s →
  ps' ⊆ ps → configured s' ps'.
Proof. intros (Hn & Hs & Hp) Hn' Hs' Hsub. unfold configured. rewrite Hn', Hs'. auto. Qed.

Lemma NotifyCommitDecision_run req st s :
  state req = Some st → configured s (participants req) →
  NotifyCommitDecision req s =
    Ok (tt, s <| outbox ::= (λ o, o ++ decision_messages s (participants req)
                                        (MkNotifyDecision (tid req) st (timestamp req))) |>).
Proof.
  intros Hst. unfold NotifyCommitDecision, read_state. rewrite Hst.
  erewrite bind_run by apply read_member_run.
  generalize (participants req) as ps. intros ps. revert s.
  induction ps as [|p ps IH]; intros s Hconf.
  { unfold decision_messages; simpl. rewrite app_nil_r. by destruct s. }
  simpl. unfold mbind at 1, M_bind at 1. unfold mbind at 1, M_bind at 1.
  rewrite mod_coordinators_run by apply Hconf. unfold mbind at 1, M_bind at 1. simpl.
  unfold decision_messages. rewrite filter_cons.
  destruct (p mod n_coordinators s =? coordinator_id s) eqn:Hp.
  - rewrite decide_True by lia. simpl. unfold mbind at 1, M_bind at 1.
    rewrite shard_transport_run by (eapply configured_sub; [done..|set_solver]).
    simpl. rewrite IH by (eapply configured_sub; [done..|set_solver]).
    destruct s; simpl. by rewrite <- app_assoc.
  - rewrite decide_False by lia. simpl. apply IH. eapply configured_sub; [done..|set_solver].
Qed.

(** The participants a coordinator goes by when it handles a vote. *)
Definition known_participants (s : CoordinatorReplica) (t : Z) (ps : list Z) : list Z :=
  match pendingCommits s !! t with
  | Some req => if decide (participants req = []) then ps else participants req
  | None => ps
  end.

Lemma pending_for_vote_run t ps sh pc ts s :
  (∀ req, pendingCommits s !! t = Some req → tid req = t) →
  ∃ req, pending_for_vote t ps sh pc ts s = Ok (req, s) ∧ tid req = t ∧
    participants req = known_participants s t ps.
Proof.
  intros Ht. unfold pending_for_vote, known_participants, mbind, M_bind; simpl.
  destruct (pendingCommits s !! t) as [req|]; [|by eexists].
  specialize (Ht req eq_refl). eexists. split; [done|]. by repeat case_match.
Qed.

(** One refusal aborts: a vote other than [PREPARED] for an undecided transaction makes
    the coordinator record [ABORT], forget the transaction, and send the abort to exactly
    the participants whose leader is in its region, and nothing else to anybody. *)
Theorem refused_vote_aborts (s : CoordinatorReplica) (m : ReplicateReplyAndVote) :
  let ps := known_participants s (rrv_tid m) (rrv_participants m) in
  commitResults s !! rrv_tid m = None →
  (∀ req, pendingCommits s !! rrv_tid m = Some req → tid req = rrv_tid m) →
  rrv_vote m ≠ PREPARED → configured s ps →
  ∃ s' ts, HandleMessage (MReplicateReplyAndVote m) s = Ok (tt, s') ∧
    decided (rrv_tid m) (MkCommitState ABORT false) s' ∧
    outbox s' = outbox s ++ decision_messages s ps (MkNotifyDecision (rrv_tid m) ABORT ts).
Proof.
  intros ps Hun Htid Hv Hconf. simpl. unfold HandleReplicateReplyAndVote, mbind at 1, M_bind at 1. simpl.
  rewrite Hun. unfold mbind at 1, M_bind at 1.
  destruct (pending_for_vote_run (rrv_tid m) (rrv_participants m) (rrv_primaryShard m)
    (rrv_primaryCoordinator m) (rrv_timestamp m) s Htid) as (req & -> & Ht & Hps).
  rewrite decide_False by done. unfold abort_on_vote.
  unfold mbind at 1, M_bind at 1. simpl. unfold mbind at 1, M_bind at 1.
  rewrite (NotifyCommitDecision_run _ ABORT); simpl; [|done|].
  - rewrite Ht, Hps. eexists _, _. split; [done|]. split; [split|]; simpl;
      [by rewrite lookup_insert_eq|by rewrite lookup_delete_eq|done].
  - rewrite Hps. eapply configured_sub; [exact Hconf|done..].
Qed.

(** The entry [req] of a transaction is complete: all its checks pass. *)
Definition complete (req : PendingCommit) : Prop :=
  NoDup (participants req) ∧ participants req ≠ [] ∧ reach_consensus req = true ∧
  dom (replicateResults req) = list_to_set (participants req) ∧
  (∀ p, p ∈ participants req → majority req ≤ Z.of_nat (length (replies_of req p))) ∧
  dom (dependencies req) = list_to_set (participants req) ∧
  (∀ p, p ∈ participants req → dependencies req !! p = Some false).

Lemma size_full {A} (m : gmap Z A) ps :
  NoDup ps → dom m = list_to_set ps → Z.of_nat (size m) = Z.of_nat (length ps).
Proof. intros Hnd Hdom. by rewrite <- size_dom, Hdom, size_list_to_set. Qed.

Lemma complete_checks req :
  complete req →
  ReachFaultTolerance req = true ∧ AllParticipantsHaveNoPrecommitDependency req = true.
Proof.
  intros (Hnd & Hne & _ & Hrd & Hrq & Hdd & Hdf).
  unfold ReachFaultTolerance, AllParticipantsHaveNoPrecommitDependency.
  rewrite (size_full _ _ Hnd Hrd), (size_full _ _ Hnd Hdd), Z.eqb_refl. simpl. split.
  - assert ((Z.of_nat (length (participants req)) <=? 0) = false) as ->.
    { by destruct (participants req). }
    apply forallb_forall. intros [p l] Hin%list_elem_of_In%elem_of_map_to_list. simpl.
    assert (p ∈ participants req) as Hp.
    { apply elem_of_dom_2 in Hin. rewrite Hrd in Hin. by apply elem_of_list_to_set in Hin. }
    specialize (Hrq p Hp). unfold replies_of in Hrq. rewrite Hin in Hrq. simpl in Hrq. lia.
  - apply forallb_forall. intros p Hp%list_elem_of_In. by rewrite (Hdf p Hp).
Qed.

Lemma NotifyReplicateResult_run req sh st s :
  primary_shard req = Some sh → state req = Some st → configured s [sh] →
  NotifyReplicateResult_ req s =
    Ok (tt, s <| outbox ::= (λ o, o ++
      [ResultToShard sh (to_int (coordinator_id s)) (MkNotifyReplicateResult (tid req) true (timestamp req));
       DecisionToCoordinators (MkReplicateDecision (tid req) st (timestamp req))]) |>).
Proof.
  intros Hsh Hst Hconf. unfold NotifyReplicateResult_, read_shard, read_state. rewrite Hsh, Hst.
  erewrite bind_run by done. erewrite bind_run by by apply shard_transport_run.
  erewrite bind_run by done. erewrite bind_run by done. erewrite bind_run by done.
  destruct s; simpl. unfold send, modify; simpl. by rewrite <- app_assoc.
Qed.

Lemma decide_on_reply_run t req sh st s :
  complete req → primary_shard req = Some sh → state req = Some st → configured s [sh] →
  decide_on_reply t req s =
    Ok ((true, req <| reach_fault_tolerance := true |>),
        s <| commitResults ::= <[t := MkCommitState COMMIT true]> |>
          <| outbox ::= (λ o, o ++
             [ResultToShard sh (to_int (coordinator_id s))
                (MkNotifyReplicateResult (tid req) true (timestamp req));
              DecisionToCoordinators (MkReplicateDecision (tid req) st (timestamp req))]) |>
          <| pendingCommits ::= delete t |>).
Proof.
  intros Hcomp Hsh Hst Hconf. destruct (complete_checks _ Hcomp) as [Hft Hdep].
  pose proof Hcomp as (_ & _ & Hc & _). unfold decide_on_reply. rewrite Hft. cbv zeta.
  change (reach_consensus (req <| reach_fault_tolerance := true |>)) with (reach_consensus req).
  change (AllParticipantsHaveNoPrecommitDependency (req <| reach_fault_tolerance := true |>))
    with (AllParticipantsHaveNoPrecommitDependency req). rewrite Hc, Hdep. simpl.
  erewrite bind_run by done.
  erewrite bind_run by (apply (NotifyReplicateResult_run _ sh st); [done..|];
    eapply configured_sub; [exact Hconf|done..]).
  erewrite bind_run by done. done.
Qed.

(** C34: The last acknowledgement commits: when a new acknowledgement completes the entry of an
    undecided transaction, the coordinator records [COMMIT], forgets the transaction, and
    sends the result to the primary shard and the decision to the other coordinators. *)
Theorem last_reply_commits (s : CoordinatorReplica) (m : BypassLeaderReply) (req : PendingCommit)
    (sh : Z) (st : CommitResult) :
  let req' := req <| replicateResults ::= <[blr_shard m := replies_of req (blr_shard m) ++ [m]]> |> in
  commitResults s !! blr_tid m = None → pendingCommits s !! blr_tid m = Some req →
  already_received (blr_replica m) (replies_of req (blr_shard m)) = false →
  complete req' → primary_shard req = Some sh → state req = Some st → configured s [sh] →
  ∃ s', HandleMessage (MBypassLeaderReply m) s = Ok (tt, s') ∧
    decided (blr_tid m) (MkCommitState COMMIT true) s' ∧
    outbox s' = outbox s ++
      [ResultToShard sh (to_int (coordinator_id s)) (MkNotifyReplicateResult (tid req) true (timestamp req));
       DecisionToCoordinators (MkReplicateDecision (tid req) st (timestamp req))].
Proof.
  intros req' Hun Hpend Hnew Hcomp Hsh Hst Hconf. simpl. unfold HandleBypassLeaderReply.
  erewrite bind_run by done. rewrite Hun. unfold pending_for_reply.
  erewrite bind_run by done. rewrite Hpend. cbv zeta.
  change (default (PendingCommit_new (quorum_size s) (blr_tid m)) (Some req)) with req.
  erewrite bind_run by done. rewrite Hnew.
  assert (req <| replicateResults ::= <[blr_shard m := replies_of req (blr_shard m)]> |>
    <| replicateResults ::= <[blr_shard m := replies_of req (blr_shard m) ++ [m]]> |> = req') as ->.
  { unfold req'. destruct req; simpl. by rewrite insert_insert_eq. }
  simpl. erewrite bind_run by (apply (decide_on_reply_run _ _ sh st); [done..|];
    eapply configured_sub; [exact Hconf|done..]).
  eexists. split; [done|]. split; [split|]; simpl;
    [by rewrite lookup_insert_eq|by rewrite lookup_delete_eq|done].
Qed.

End replica.

(** ** Concrete instances *)

(** The uninitialised members happen to be zero. *)
#[local] Instance zero_garbage : Indeterminate := MkIndeterminate (λ _, COMMIT) (λ _, 0) (λ _, 0).

(** Handling a list of messages. *)
Fixpoint exec (s : CoordinatorReplica) (tr : list message) : option CoordinatorReplica :=
  match tr with
  | [] => Some s
  | m :: tr' => match HandleMessage m s with Ok (_, s') => exec s' tr' | _ => None end
  end.

Lemma exec_run s0 tr1 s tr2 s' :
  run s0 tr1 s → exec s tr2 = Some s' → run s0 (tr1 ++ tr2) s'.
Proof.
  revert tr1 s. induction tr2 as [|m tr2 IH]; intros tr1 s Hrun; simpl.
  - intros [= <-]. by rewrite app_nil_r.
  - destruct (HandleMessage m s) as [[[] s1]| |] eqn:Hm; [|done..]. intros Hex.
    rewrite cons_middle, app_assoc. eapply IH; [|done]. by eapply run_snoc.
Qed.

(** Coordinator 0 of three; transaction 7 spans the shards 0 and 1. *)
Definition demo_coordinator : CoordinatorReplica := CoordinatorReplica_new 3 3 0.

Definition demo_participants (t : Z) : list Z := [0; 1].

Definition demo_vote (shard : Z) (v : CommitResult) : ReplicateReplyAndVote :=
  MkReplicateReplyAndVote 7 shard 0 v [0; 1] 0 0 5 false.

Definition demo_trace : list message :=
  [MReplicateReplyAndVote (demo_vote 0 PREPARED); MBypassLeaderReply (MkBypassLeaderReply 7 0 0);
   MReplicateReplyAndVote (demo_vote 1 PREPARED); MBypassLeaderReply (MkBypassLeaderReply 7 1 0);
   MBypassLeaderReply (MkBypassLeaderReply 7 0 1)].

Definition demo_last : BypassLeaderReply := MkBypassLeaderReply 7 1 2.

Definition demo_waiting : CoordinatorReplica := default demo_coordinator (exec demo_coordinator demo_trace).
Definition demo_committed : CoordinatorReplica :=
  default demo_coordinator (exec demo_waiting [MBypassLeaderReply demo_last]).

Lemma demo_run : run demo_coordinator (demo_trace ++ [MBypassLeaderReply demo_last]) demo_committed.
Proof.
  eapply (exec_run _ demo_trace demo_waiting); [|vm_compute; reflexivity].
  apply (exec_run _ [] demo_coordinator); [constructor|vm_compute; reflexivity].
Qed.

Lemma demo_respects : Forall (respects demo_participants) (demo_trace ++ [MBypassLeaderReply demo_last]).
Proof. repeat constructor; simpl; set_solver. Qed.

Lemma demo_participants_nodup t : NoDup (demo_participants t).
Proof. repeat constructor; set_solver. Qed.

Lemma coordinator_commit_safe_witness :
  may_commit (demo_trace ++ [MBypassLeaderReply demo_last]) 2 [0; 1] 7 ∧
  (may_commit (demo_trace ++ [MBypassLeaderReply demo_last]) 2 [0; 1] 7 ∨
   late_answer (demo_trace ++ [MBypassLeaderReply demo_last]) (commitResults demo_committed) 7 5).
Proof.
  destruct (coordinator_commit_safe demo_participants 3 3 0
    (demo_trace ++ [MBypassLeaderReply demo_last]) demo_committed demo_participants_nodup
    demo_run demo_respects) as [Hresults Hsent]. split.
  - apply (Hresults 7 (MkCommitState COMMIT true)); vm_compute; reflexivity.
  - apply (Hsent 0 0 (MkNotifyReplicateResult 7 true 5)).
    apply (list_elem_of_lookup_2 _ 3). vm_compute. reflexivity.
Defined.

Lemma commit_decision_recorded_as_abort_witness :
  commitResults demo_committed !! 7 = Some (MkCommitState COMMIT true) ∧
  ∃ peer', HandleReplicateDecision (MkReplicateDecision 7 PREPARED 5) demo_waiting = Ok (tt, peer') ∧
    commitResults peer' !! 7 = Some (MkCommitState ABORT false).
Proof.
  split; [vm_compute; reflexivity|].
  edestruct (commit_decision_recorded_as_abort demo_participants 3 3 0
    (demo_trace ++ [MBypassLeaderReply demo_last]) demo_committed demo_waiting
    (MkReplicateDecision 7 PREPARED 5)) as [[_ Hpeer]|(_ & _ & [=])]; [..|exact Hpeer].
  - exact demo_participants_nodup.
  - exact demo_run.
  - exact demo_respects.
  - intros m Hm. unfold demo_trace in Hm. set_solver.
  - apply (list_elem_of_lookup_2 _ 4). vm_compute. reflexivity.
  - vm_compute. reflexivity.
  - split; vm_compute; reflexivity.
Defined.

(** Shard 1 refuses transaction 7; later its result is requested. *)
Lemma request_answered_with_success_witness :
  ∃ s s', exec demo_waiting [MReplicateReplyAndVote (demo_vote 1 ABORT)] = Some s ∧
    commitResults s !! 7 = Some (MkCommitState ABORT false) ∧
    HandleMessage (MRequestCommitResult (MkRequestCommitResult 7 [0; 1] 0 0)) s = Ok (tt, s') ∧
    ResultToShard 0 0 (MkNotifyReplicateResult 7 true 0) ∈ outbox s'.
Proof.
  eexists (default demo_waiting (exec demo_waiting [MReplicateReplyAndVote (demo_vote 1 ABORT)])).
  edestruct (request_answered_with_success
    (default demo_waiting (exec demo_waiting [MReplicateReplyAndVote (demo_vote 1 ABORT)]))
    (MkRequestCommitResult 7 [0; 1] 0 0) (MkCommitState ABORT false)) as (s' & st & Hrun & Ho).
  - vm_compute. reflexivity.
  - vm_compute. reflexivity.
  - vm_compute. split; [discriminate|reflexivity].
  - exists s'. split_and!; [vm_compute; reflexivity..|exact Hrun|]. rewrite Ho. apply elem_of_app. right.
    apply list_elem_of_here.
Defined.

(** A late refusal does not undo the commit. *)
Lemma coordinator_decision_final_witness :
  ∃ s', exec demo_committed [MReplicateReplyAndVote (demo_vote 1 ABORT)] = Some s' ∧
    decided 7 (MkCommitState COMMIT true) s'.
Proof.
  exists demo_committed. split; [vm_compute; reflexivity|].
  apply (coordinator_decision_final 7 (MkCommitState COMMIT true) demo_committed demo_committed
    [MReplicateReplyAndVote (demo_vote 1 ABORT)]).
  - split; vm_compute; reflexivity.
  - apply (exec_run _ [] demo_committed); [constructor|vm_compute; reflexivity].
Defined.

Lemma refused_vote_aborts_witness :
  ∃ s' ts, HandleMessage (MReplicateReplyAndVote (demo_vote 1 ABORT)) demo_waiting = Ok (tt, s') ∧
    decided 7 (MkCommitState ABORT false) s' ∧
    outbox s' = outbox demo_waiting ++ [DecisionToShard 0 0 (MkNotifyDecision 7 ABORT ts)].
Proof.
  apply (refused_vote_aborts demo_waiting (demo_vote 1 ABORT)).
  - vm_compute. reflexivity.
  - intros req Hreq. vm_compute in Hreq. injection Hreq as <-. reflexivity.
  - discriminate.
  - assert (known_participants demo_waiting 7 [0; 1] = [0; 1]) as Hps by (vm_compute; reflexivity).
    simpl. rewrite Hps. split_and!; [vm_compute; reflexivity..|].
    intros p [->|[->|[]%not_elem_of_nil]%elem_of_cons]%elem_of_cons; split; vm_compute; try reflexivity; discriminate.
Defined.

(** Its entry while the last acknowledgement is outstanding. *)
Definition demo_entry : PendingCommit :=
  MkPendingCommit 7 [0; 1] (<[1 := PREPARED]> {[0 := PREPARED]}) (<[1 := false]> {[0 := false]})
    (<[0 := [MkBypassLeaderReply 7 0 0; MkBypassLeaderReply 7 0 1]]> {[1 := [MkBypassLeaderReply 7 1 0]]})
    ∅ 2 (Some 0) (Some 0) 5 (Some PREPARED) true false.

Lemma demo_complete :
  complete (demo_entry <| replicateResults ::= <[1 := replies_of demo_entry 1 ++ [demo_last]]> |>).
Proof.
  unfold demo_entry; split_and!; simpl; [apply (demo_participants_nodup 7)|done|done|..].
  - vm_compute. reflexivity.
  - intros p [->|[->|[]%not_elem_of_nil]%elem_of_cons]%elem_of_cons; vm_compute; discriminate.
  - vm_compute. reflexivity.
  - intros p [->|[->|[]%not_elem_of_nil]%elem_of_cons]%elem_of_cons; vm_compute; reflexivity.
Qed.

Lemma last_reply_commits_witness :
  ∃ s', HandleMessage (MBypassLeaderReply demo_last) demo_waiting = Ok (tt, s') ∧
    decided 7 (MkCommitState COMMIT true) s'.
Proof.
  destruct (last_reply_commits demo_waiting demo_last demo_entry 0 PREPARED) as (s' & Hrun & Hd & _).
  - vm_compute. reflexivity.
  - vm_compute. reflexivity.
  - vm_compute. reflexivity.
  - exact demo_complete.
  - reflexivity.
  - reflexivity.
  - split_and!; [vm_compute; reflexivity..|]. intros p ->%list_elem_of_singleton.
    split; vm_compute; [discriminate|reflexivity].
  - exists s'. split; [exact Hrun|exact Hd].
Defined.
