(* ===== verification/QuorumSet.v ===== *)
(** Counting of replies: the template [QuorumSet] of [replication/common/quorumset.h],
    [viewstamp_t] of [replication/common/viewstamp.h], and the quorum sizes of
    [transport::Configuration] ([lib/configuration.h], [configuration.cc]).

    A quorum set keeps, per identifier, the last message of every replica.  It is shown
    to report a quorum exactly when enough distinct replicas have answered, and two
    majority quorums to have a replica in common. *)

From S2P Require Import Prelude.

(** ** Viewstamps *)

Record viewstamp_t := MkViewstamp { view : Z; opnum : Z }.

Definition Viewstamp_Compare (a b : viewstamp_t) : Z :=
  if view a <? view b then -1
  else if view a >? view b then 1
  else if opnum a <? opnum b then -1
  else if opnum a >? opnum b then 1
  else 0.

Definition vs_eq (lhs rhs : viewstamp_t) : bool := Viewstamp_Compare lhs rhs =? 0.
Definition vs_ne (lhs rhs : viewstamp_t) : bool := negb (vs_eq lhs rhs).
Definition vs_lt (lhs rhs : viewstamp_t) : bool := Viewstamp_Compare lhs rhs <? 0.
Definition vs_gt (lhs rhs : viewstamp_t) : bool := vs_lt rhs lhs.
Definition vs_le (lhs rhs : viewstamp_t) : bool := negb (vs_gt lhs rhs).
Definition vs_ge (lhs rhs : viewstamp_t) : bool := negb (vs_lt lhs rhs).

(** ** Configurations *)

(** The two parameters of [class Configuration] the protocols use. *)
Record Configuration := MkConfiguration { n : Z; f : Z }.

(** [view % this->n] with [n] converted to 64 bits, narrowed to [int]. *)
Definition GetLeaderIndex (c : Configuration) (view : Z) : res Z :=
  if u64 (n c) =? 0 then Undefined else Ok (to_int (view mod u64 (n c))).

Definition QuorumSize (c : Configuration) : Z := f c + 1.

(** Division of [int]s truncates. *)
Definition FastQuorumSize (c : Configuration) : Z := f c + Z.quot (f c + 1) 2 + 1.

(** ** Quorum sets *)

Record QuorumSet (K A : Type) `{Countable K} := MkQuorumSet {
  numRequired : Z;
  messages : gmap K (gmap Z A)
}.
Arguments MkQuorumSet {_ _ _ _} _ _.
Arguments numRequired {_ _ _ _} _.
Arguments messages {_ _ _ _} _.

Section quorum_set.
Context `{Countable K} {A : Type}.
Implicit Types (q : QuorumSet K A) (vs : K) (r : Z) (m : A).

Definition QuorumSet_new (required : Z) : QuorumSet K A := MkQuorumSet required ∅.

Definition ClearAll q : QuorumSet K A := MkQuorumSet (numRequired q) ∅.

(** [messages[vs]] inserts an empty map. *)
Definition Clear vs q : QuorumSet K A := MkQuorumSet (numRequired q) (<[vs := ∅]> (messages q)).

Definition NumRequired q : Z := numRequired q.

Definition GetMessages vs q : gmap Z A * QuorumSet K A :=
  let l := default ∅ (messages q !! vs) in
  (l, MkQuorumSet (numRequired q) (<[vs := l]> (messages q))).

Definition CheckForQuorum_at vs q : option (gmap Z A) * QuorumSet K A :=
  let vsmessages := default ∅ (messages q !! vs) in
  let q' := MkQuorumSet (numRequired q) (<[vs := vsmessages]> (messages q)) in
  (if Z.of_nat (size vsmessages) >=? numRequired q then Some vsmessages else None, q').

(** The loop over all identifiers; the lookup inside finds every entry. *)
Fixpoint first_quorum (ids : list K) q : option (gmap Z A) :=
  match ids with
  | [] => None
  | vs :: ids' =>
      match (CheckForQuorum_at vs q).1 with
      | Some quorum => Some quorum
      | None => first_quorum ids' q
      end
  end.

(** [std::map] iterates in the order of its keys; [le] is the order of [IDTYPE]. *)
Definition CheckForQuorum (le : K → K → Prop) `{!RelDecision le} q : option (gmap Z A) :=
  first_quorum (merge_sort le (map_to_list (messages q)).*1) q.

Definition AddAndCheckForQuorum vs r m q : option (gmap Z A) * QuorumSet K A :=
  let vsmessages := default ∅ (messages q !! vs) in
  CheckForQuorum_at vs
    (MkQuorumSet (numRequired q) (<[vs := <[r := m]> vsmessages]> (messages q))).

Definition Add vs r m q : QuorumSet K A := (AddAndCheckForQuorum vs r m q).2.
End quorum_set.

(** ** Counting *)

Section counting.
Context `{Countable K} {A : Type}.
Implicit Types (q : QuorumSet K A) (vs : K).

(** The replies received so far: identifier, replica, message. *)
Definition received (adds : list (K * Z * A)) (required : Z) : QuorumSet K A :=
  foldl (λ q a, Add a.1.1 a.1.2 a.2 q) (QuorumSet_new required) adds.

(** The last message of each replica for [vs]. *)
Definition last_messages (adds : list (K * Z * A)) vs : gmap Z A :=
  foldl (λ l a, if decide (a.1.1 = vs) then <[a.1.2 := a.2]> l else l) ∅ adds.

Lemma Add_messages vs r m q vs' :
  default ∅ (messages (Add vs r m q) !! vs') =
  if decide (vs = vs') then <[r := m]> (default ∅ (messages q !! vs)) else default ∅ (messages q !! vs').
Proof.
  unfold Add, AddAndCheckForQuorum, CheckForQuorum_at; simpl.
  rewrite lookup_insert_eq; simpl. rewrite insert_insert_eq, lookup_insert. by case_decide.
Qed.

Lemma received_messages adds required vs :
  default ∅ (messages (received adds required) !! vs) = last_messages adds vs ∧
  numRequired (received adds required) = required.
Proof.
  unfold received, last_messages.
  induction adds as [|[[vs' r] m] adds [IH IHn]] using rev_ind;
    [simpl; by rewrite lookup_empty|].
  rewrite !foldl_app. cbn [foldl fst snd]. split; [|done]. rewrite Add_messages. case_decide; subst; by rewrite IH.
Qed.

Lemma dom_last_messages adds vs r :
  r ∈ dom (last_messages adds vs) ↔ ∃ m, (vs, r, m) ∈ adds.
Proof.
  unfold last_messages. induction adds as [|[[vs' r'] m'] adds IH] using rev_ind.
  - simpl. rewrite dom_empty_L. set_solver.
  - rewrite foldl_app; simpl. setoid_rewrite elem_of_app. setoid_rewrite list_elem_of_singleton.
    case_decide as Hvs; subst; rewrite ?dom_insert_L, ?elem_of_union, ?elem_of_singleton, IH; naive_solver.
Qed.

(** A quorum is a set of distinct replicas: after any sequence of replies, with
    duplicates and in any order, adding one more reports a quorum exactly when at least
    [numRequired] distinct replicas have answered for that identifier, and then hands out
    the last message of each of them. *)
Theorem quorum_counts_distinct_replicas (adds : list (K * Z * A)) (required : Z) vs r m :
  let replies := last_messages (adds ++ [(vs, r, m)]) vs in
  (AddAndCheckForQuorum vs r m (received adds required)).1
    = (if decide (required ≤ Z.of_nat (size (dom replies))) then Some replies else None) ∧
  ∀ r', r' ∈ dom replies ↔ ∃ m', (vs, r', m') ∈ adds ++ [(vs, r, m)].
Proof.
  intros replies. split; [|apply dom_last_messages].
  unfold AddAndCheckForQuorum, CheckForQuorum_at; simpl. rewrite lookup_insert_eq; simpl.
  destruct (received_messages adds required vs) as [-> ->].
  assert (replies = <[r := m]> (last_messages adds vs)) as ->.
  { unfold replies, last_messages. rewrite foldl_app; simpl. by rewrite decide_True. }
  rewrite size_dom. case_decide; case_match; lia || done.
Qed.

(** Two quorums of a configuration in which the [n] replicas are at most [2f + 1] have a
    replica in common, whatever they are quorums for. *)
Theorem quorums_intersect (c : Configuration) (adds : list (K * Z * A)) vs1 vs2 :
  0 ≤ n c ≤ 2 * f c + 1 →
  (∀ vs r m, (vs, r, m) ∈ adds → 0 ≤ r < n c) →
  ∀ q1 q2 : gmap Z A,
  (CheckForQuorum_at vs1 (received adds (QuorumSize c))).1 = Some q1 →
  (CheckForQuorum_at vs2 (received adds (QuorumSize c))).1 = Some q2 →
  ∃ r, is_Some (q1 !! r) ∧ is_Some (q2 !! r).
Proof.
  intros Hn Hrange q1 q2. unfold CheckForQuorum_at; simpl.
  destruct (received_messages adds (QuorumSize c) vs1) as [-> ->].
  destruct (received_messages adds (QuorumSize c) vs2) as [-> _].
  destruct (_ >=? _) eqn:Hs1; [|done]. intros [= <-].
  destruct (_ >=? _) eqn:Hs2 in |- *; [|done]. intros [= <-].
  set (X1 := dom (last_messages adds vs1)). set (X2 := dom (last_messages adds vs2)).
  destruct (decide (X1 ∩ X2 = ∅)) as [Hdisj|Hne].
  - exfalso. set (all := list_to_set (seqZ 0 (n c)) : gset Z).
    assert (X1 ∪ X2 ⊆ all) as Hsub.
    { intros r. rewrite elem_of_union. unfold X1, X2. rewrite !dom_last_messages.
      intros [[m Hm]|[m Hm]]; apply Hrange in Hm; unfold all;
        apply elem_of_list_to_set, elem_of_seqZ; lia. }
    apply subseteq_size in Hsub. rewrite size_union in Hsub by set_solver.
    unfold all in Hsub. rewrite size_list_to_set, length_seqZ in Hsub by apply NoDup_seqZ.
    unfold X1, X2, QuorumSize in *. rewrite !size_dom in Hsub. lia.
  - apply set_choose_L in Hne as [r [H1 H2]%elem_of_intersection].
    exists r. by rewrite <- !elem_of_dom.
Qed.
End counting.

(** The operators on viewstamps are the strict and the reflexive lexicographic order. *)
Theorem viewstamp_operators_total_order (a b c : viewstamp_t) :
  (vs_eq a b = true ↔ a = b) ∧ vs_ne a b = negb (vs_eq a b) ∧
  (vs_lt a b = true ↔ view a < view b ∨ view a = view b ∧ opnum a < opnum b) ∧
  vs_gt a b = vs_lt b a ∧ vs_le a b = vs_lt a b || vs_eq a b ∧ vs_ge a b = vs_le b a ∧
  (vs_lt a b = true → vs_lt b c = true → vs_lt a c = true) ∧
  (vs_lt a b = true ∨ a = b ∨ vs_lt b a = true).
Proof.
  assert (∀ x y, vs_lt x y = true ↔ view x < view y ∨ view x = view y ∧ opnum x < opnum y) as Hlt.
  { intros x y. unfold vs_lt, Viewstamp_Compare. repeat case_match; simpl; lia. }
  assert (∀ x y, vs_eq x y = true ↔ x = y) as Heq.
  { intros [x1 x2] [y1 y2]. unfold vs_eq, Viewstamp_Compare; simpl. split.
    - repeat case_match; simpl; intros; [lia..|]. f_equal; lia.
    - intros [= -> ->]. repeat case_match; simpl; lia. }
  split_and!; try done; rewrite ?Hlt.
  - unfold vs_le, vs_gt. apply eq_true_iff_eq. rewrite negb_true_iff, orb_true_iff, <- not_true_iff_false.
    rewrite !Hlt, Heq. destruct a, b; simpl. split; [|intros [|[= -> ->]]; lia].
    intros. destruct (decide (view0 = view1 ∧ opnum0 = opnum1)) as [[-> ->]|]; [by right|left; lia].
  - lia.
  - destruct a as [a1 a2], b as [b1 b2]; simpl.
    destruct (decide (a1 = b1 ∧ a2 = b2)) as [[-> ->]|]; [by right; left|]. lia.
Qed.

(** ** Concrete instances *)

Lemma quorums_intersect_witness :
  ∃ r, is_Some ((<[1 := "b"]> {[0 := "a"]} : gmap Z string) !! r) ∧
       is_Some ((<[2 := "d"]> {[1 := "c"]} : gmap Z string) !! r).
Proof.
  apply (quorums_intersect (MkConfiguration 3 1)
    [(10, 0, "a"); (10, 1, "b"); (20, 1, "c"); (20, 2, "d")] 10 20).
  - simpl. lia.
  - intros vs r m Hin. simpl. rewrite !elem_of_cons in Hin.
    destruct Hin as [[= -> -> ->]|[[= -> -> ->]|[[= -> -> ->]|[[= -> -> ->]|[]%not_elem_of_nil]]]]; lia.
  - vm_compute. reflexivity.
  - vm_compute. reflexivity.
Defined.
