(* ===== verification/LRLog.v ===== *)
(** The replicated log of a shard: [replication/lr/log.h] and [log.cc], with the log
    messages of [replication/lr/lr-proto.proto].

    Members that a constructor leaves uninitialised are [None]; serializing one of them
    reads an indeterminate value.  A pointer to an entry is represented by its sequence
    number.  The [ASSERT]s expand to nothing in the build. *)

From S2P Require Import Prelude Transaction.

(** [enum LogEntryState]. *)
Inductive LogEntryState :=
| LOG_STATE_COMMIT
| LOG_STATE_ABORT
| LOG_STATE_APPLY
| LOG_STATE_PREPAREOK
| LOG_STATE_UNDECIDE.

#[global] Instance LogEntryState_eq_dec : EqDecision LogEntryState.
Proof. solve_decision. Defined.

Record WriteSet := MkWriteSet { ws_key : string; ws_value : string }.

Record LogEntryProto := MkLogEntryProto {
  p_wset : list WriteSet;
  p_state : LogEntryState;
  p_timestamp : Z;
  p_term : Z;
  p_lsn : Z;
  p_txnid : Z
}.

(** [struct LogEntry]. *)
Record LogEntry := MkLogEntry {
  term : option Z;
  entry_id : option Z;
  txn : option Z;
  ts : option Z;
  state : option LogEntryState;
  wset : gmap string string
}.

#[global] Instance LogEntry_eta : Eta LogEntry := λ e,
  MkLogEntry (term e) (entry_id e) (txn e) (ts e) (state e) (wset e).

Definition LogEntry_default : LogEntry := MkLogEntry None None None None None ∅.

Definition LogEntry_4 (term id txn ts : Z) : LogEntry :=
  MkLogEntry (Some term) (Some id) (Some txn) (Some ts) None ∅.

Definition LogEntry_6 (term id txn : Z) (wset : gmap string string) (state : LogEntryState) (ts : Z) :
    LogEntry :=
  MkLogEntry (Some term) (Some id) (Some txn) (Some ts) (Some state) wset.

(** The copy constructor initialises [txn] with itself. *)
Definition LogEntry_copy (x : LogEntry) : LogEntry :=
  MkLogEntry (term x) (entry_id x) None (ts x) (state x) (wset x).

Definition addWriteSet (key value : string) (e : LogEntry) : LogEntry := e <| wset ::= <[key := value]> |>.

Definition setState (newstate : LogEntryState) (e : LogEntry) : LogEntry := e <| state := Some newstate |>.

(** [class Log]; the member [is_replica] is never used. *)
Record Log := MkLog {
  entries : gmap Z LogEntry;
  storedEntries : list Z;
  start : Z;
  last_lsn : option Z
}.

#[global] Instance Log_eta : Eta Log := λ l,
  MkLog (entries l) (storedEntries l) (start l) (last_lsn l).

Definition or_undefined {A} (o : option A) : res A :=
  match o with Some a => Ok a | None => Undefined end.

Definition Log_new (start : Z) : Log := MkLog ∅ [] start (Some start).

(** [Add(const LogEntry &)]: the result points to the stored entry. *)
Definition Add (entry : LogEntry) (l : Log) : res (Z * Log) :=
  id ← or_undefined (entry_id entry);
  Ok (id, l <| entries ::= <[id := entry]> |> <| storedEntries ::= (λ s, s ++ [id]) |>).

(** The overload for the leader, which assigns the sequence number. *)
Definition Add_leader (term txn : Z) (wset : gmap string string) (state : LogEntryState) (ts : Z)
    (l : Log) : res (Z * Log) :=
  id ← or_undefined (last_lsn l);
  Add (LogEntry_6 term id txn wset state ts) (l <| last_lsn := Some (u64_incr id) |>).

(** The entry a message describes. *)
Definition entry_of_proto (p : LogEntryProto) : LogEntry :=
  foldl (λ e w, addWriteSet (ws_key w) (ws_value w) e)
    (setState (p_state p) (LogEntry_4 (p_term p) (p_lsn p) (p_txnid p) (p_timestamp p))) (p_wset p).

(** The overload for a follower. *)
Definition Add_proto (p : LogEntryProto) (l : Log) : res (Z * Log) := Add (entry_of_proto p) l.

(** The constructor from a serialized log leaves [last] uninitialised. *)
Definition Log_of_proto (log_proto : list LogEntryProto) (start : Z) : res Log :=
  foldl (λ r p, l ← r; x ← Add (entry_of_proto p) l; Ok x.2) (Ok (MkLog ∅ [] start None)) log_proto.

Definition Find (id : Z) (l : Log) : option LogEntry := entries l !! id.

Definition SetStatus (id : Z) (s : LogEntryState) (l : Log) : bool * Log :=
  match Find id l with
  | None => (false, l)
  | Some entry => (true, l <| entries ::= <[id := setState s entry]> |>)
  end.

(** [storedEntries.back()] and [front()] of an empty vector are undefined. *)
Definition Last (l : Log) : res (option LogEntry) :=
  if decide (entries l = ∅) then Ok None
  else lastlsn ← or_undefined (last (storedEntries l)); Ok (Find lastlsn l).

Definition LastLsn (l : Log) : res Z :=
  if decide (entries l = ∅) then Ok (u64_decr (start l)) else or_undefined (last (storedEntries l)).

Definition FirstLsn (l : Log) : res Z := or_undefined (head (storedEntries l)).

Definition Empty (l : Log) : bool := bool_decide (entries l = ∅).

Definition Remove (id : Z) (l : Log) : Log := l <| entries ::= delete id |>.

Section proto.
Context `{HashOrder}.

(** The message of an entry, as [ToProto] and both [EntryToProto] build it. *)
Definition entry_to_proto (e : LogEntry) : res LogEntryProto :=
  t ← or_undefined (term e);
  i ← or_undefined (entry_id e);
  x ← or_undefined (txn e);
  s ← or_undefined (state e);
  time ← or_undefined (ts e);
  Ok (MkLogEntryProto ((λ w, MkWriteSet w.1 w.2) <$> hash_order (wset e)) s time t i x).

(** [std::map] iterates in the order of the keys. *)
Definition key_le (a b : Z * LogEntry) : Prop := a.1 ≤ b.1.

#[global] Instance key_le_dec : RelDecision key_le := λ a b, Z_le_dec a.1 b.1.

Definition in_order (m : gmap Z LogEntry) : list (Z * LogEntry) :=
  merge_sort key_le (map_to_list m).

Fixpoint protos (es : list (Z * LogEntry)) : res (list LogEntryProto) :=
  match es with
  | [] => Ok []
  | e :: es' => p ← entry_to_proto e.2; ps ← protos es'; Ok (p :: ps)
  end.

Definition ToProto (l : Log) : res (list LogEntryProto) := protos (in_order (entries l)).

(** [EntryToProto(entry_proto, lsn)]: [entries[id]] inserts a default entry. *)
Definition EntryToProto (id : Z) (l : Log) : res (LogEntryProto * Log) :=
  let e := default LogEntry_default (entries l !! id) in
  p ← entry_to_proto e; Ok (p, l <| entries ::= <[id := e]> |>).

(** [EntryToProto(entry_proto, LogEntry entry)] takes its argument by value. *)
Definition EntryToProto_copy (e : LogEntry) : res LogEntryProto := entry_to_proto (LogEntry_copy e).
End proto.

(** ** Well-formed logs *)

(** Every entry is initialised and stored under its own sequence number. *)
Definition entry_ok (id : Z) (e : LogEntry) : Prop :=
  entry_id e = Some id ∧ is_Some (term e) ∧ is_Some (txn e) ∧ is_Some (ts e) ∧ is_Some (state e).

Definition log_ok (l : Log) : Prop := ∀ id e, entries l !! id = Some e → entry_ok id e.

Lemma log_ok_insert l id e :
  log_ok l → entry_ok id e → log_ok (l <| entries ::= <[id := e]> |>).
Proof. intros Hl He i x Hx. simpl in Hx. apply lookup_insert_Some in Hx as [[<- <-]|[_ Hx]]; auto. Qed.

Lemma Add_run id e l :
  entry_id e = Some id →
  Add e l = Ok (id, l <| entries ::= <[id := e]> |> <| storedEntries ::= (λ s, s ++ [id]) |>).
Proof. intros He. unfold Add. by rewrite He. Qed.

Lemma foldl_addWriteSet ws e :
  foldl (λ e w, addWriteSet (ws_key w) (ws_value w) e) e ws =
  e <| wset ::= (λ m, foldl (λ m p, <[p.1 := p.2]> m) m ((λ w, (ws_key w, ws_value w)) <$> ws)) |>.
Proof.
  revert e. induction ws as [|w ws IH]; intros e; simpl; [by destruct e|]. by rewrite IH.
Qed.

Lemma entry_of_proto_eq p :
  entry_of_proto p = LogEntry_6 (p_term p) (p_lsn p) (p_txnid p)
    (foldl (λ m p, <[p.1 := p.2]> m) ∅ ((λ w, (ws_key w, ws_value w)) <$> p_wset p))
    (p_state p) (p_timestamp p).
Proof. unfold entry_of_proto. by rewrite foldl_addWriteSet. Qed.

Section roundtrip.
Context `{HashOrder}.

Lemma entry_to_proto_ok id e :
  entry_ok id e → ∃ p, entry_to_proto e = Ok p ∧ p_lsn p = id ∧ entry_of_proto p = e.
Proof.
  destruct e as [te ie xe se ste w]. intros (Hid & [t Ht] & [x Hx] & [s Hs] & [st Hst]). simpl in *.
  subst. eexists. split; [done|]. split; [done|]. rewrite entry_of_proto_eq; simpl.
  unfold LogEntry_6. f_equal. rewrite <- list_fmap_compose.
  etrans; [|apply (foldl_hash_order w)]. f_equal.
  etrans; [|apply list_fmap_id]. apply list_fmap_ext. by intros _ [] _.
Qed.

Lemma Log_of_proto_snoc ps p s :
  Log_of_proto (ps ++ [p]) s = l ← Log_of_proto ps s; x ← Add (entry_of_proto p) l; Ok x.2.
Proof. unfold Log_of_proto. by rewrite foldl_app. Qed.

Lemma protos_ok es :
  (∀ id e, (id, e) ∈ es → entry_ok id e) →
  ∃ ps, protos es = Ok ps ∧ (λ p, (p_lsn p, entry_of_proto p)) <$> ps = es.
Proof.
  induction es as [|[id e] es IH]; intros Hok; simpl; [by eexists|].
  destruct (entry_to_proto_ok id e) as (p & -> & <- & He); [apply Hok; set_solver|].
  destruct IH as (ps & -> & Hps); [intros; apply Hok; set_solver|]. simpl. eexists. split; [done|].
  by rewrite fmap_cons, He, Hps.
Qed.

Lemma Log_of_proto_run ps s :
  ∃ l, Log_of_proto ps s = Ok l ∧ start l = s ∧
    entries l = foldl (λ m p, <[p.1 := p.2]> m) ∅ ((λ p, (p_lsn p, entry_of_proto p)) <$> ps).
Proof.
  induction ps as [|p ps (l & Hl & Hs & He)] using rev_ind; [by eexists|].
  rewrite Log_of_proto_snoc, Hl. simpl.
  rewrite (Add_run (p_lsn p)) by (by rewrite entry_of_proto_eq). simpl. eexists. split; [done|].
  split; [done|]. rewrite fmap_app, foldl_app. simpl. by rewrite He.
Qed.
End roundtrip.

(** Transfer of a whole log: serializing a log whose entries are initialised and
    rebuilding it from the message gives the same entries under the same sequence
    numbers, whatever order the write sets are iterated in. *)
Theorem log_transfer_roundtrip (HO : HashOrder) (l : Log) (s : Z) :
  log_ok l →
  ∃ ps l', ToProto l = Ok ps ∧ Log_of_proto ps s = Ok l' ∧ entries l' = entries l ∧ start l' = s.
Proof.
  intros Hok. destruct (protos_ok (in_order (entries l))) as (ps & Hps & Hes).
  { intros id e Hin. apply Hok, elem_of_map_to_list. unfold in_order in Hin.
    by rewrite merge_sort_Permutation in Hin. }
  destruct (Log_of_proto_run ps s) as (l' & Hl' & Hs & He).
  exists ps, l'. split_and!; [done..| |done]. rewrite He, Hes.
  assert (NoDup (in_order (entries l)).*1) as Hnd.
  { unfold in_order. rewrite merge_sort_Permutation. apply NoDup_fst_map_to_list. }
  rewrite foldl_insert_list_to_map, map_union_empty by done.
  rewrite (list_to_map_proper _ (map_to_list (entries l))); [apply list_to_map_to_list|done|].
  apply merge_sort_Permutation.
Qed.

(** ** The log of a leader *)

(** What the leader appends: term, transaction, write set, state and timestamp. *)
Abbreviation append := (Z * Z * gmap string string * LogEntryState * Z)%type.

Fixpoint append_all (l : Log) (as_ : list append) : res Log :=
  match as_ with
  | [] => Ok l
  | (t, x, w, st, time) :: rest => r ← Add_leader t x w st time l; append_all r.2 rest
  end.

Lemma append_all_snoc l as_ t x w st time :
  append_all l (as_ ++ [(t, x, w, st, time)]) =
  l' ← append_all l as_; r ← Add_leader t x w st time l'; Ok r.2.
Proof.
  revert l. induction as_ as [|[[[[t' x'] w'] st'] time'] as_ IH]; intros l; simpl.
  - by destruct (Add_leader t x w st time l) as [[]| |].
  - destruct (Add_leader t' x' w' st' time' l) as [[id l1]| |]; simpl; [apply IH|done..].
Qed.

(** The invariant of the leader's log after the appends [as_]. *)
Definition leader_log (s : Z) (as_ : list append) (l : Log) : Prop :=
  log_ok l ∧ start l = s ∧ last_lsn l = Some (s + Z.of_nat (length as_)) ∧
  storedEntries l = seqZ s (Z.of_nat (length as_)) ∧
  (∀ id, is_Some (entries l !! id) ↔ s ≤ id < s + Z.of_nat (length as_)) ∧
  (∀ i t x w st time, as_ !! i = Some (t, x, w, st, time) →
     entries l !! (s + Z.of_nat i) = Some (LogEntry_6 t (s + Z.of_nat i) x w st time)).

Lemma leader_log_new s : leader_log s [] (Log_new s).
Proof.
  unfold leader_log; simpl. rewrite Z.add_0_r. split_and!; [|done..| |done].
  - intros id e He. simpl in He. by apply lookup_empty_Some in He.
  - intros id. rewrite lookup_empty. split; [by intros []|lia].
Qed.

Lemma leader_log_append s as_ l t x w st time :
  0 ≤ s → s + Z.of_nat (S (length as_)) < u64_modulus →
  leader_log s as_ l →
  ∃ l', Add_leader t x w st time l = Ok (s + Z.of_nat (length as_), l') ∧
    leader_log s (as_ ++ [(t, x, w, st, time)]) l'.
Proof.
  intros Hs Hmax (Hok & Hst & Hlast & Hstored & Hdom & Hval). unfold Add_leader. rewrite Hlast. simpl.
  eexists. split; [done|]. unfold leader_log. rewrite length_app. simpl.
  replace (Z.of_nat (length as_ + 1)) with (Z.of_nat (length as_) + 1) by lia. split_and!.
  - apply log_ok_insert; [done|]. repeat split; by eexists.
  - done.
  - unfold u64_incr. rewrite u64_small by (unfold is_u64; lia). f_equal. lia.
  - rewrite Hstored. by rewrite seqZ_app by lia.
  - intros id. rewrite lookup_insert_is_Some', Hdom. lia.
  - intros i t' x' w' st' time' Hi.
    destruct (decide (i = length as_)) as [->|Hne].
    + rewrite lookup_app_r, Nat.sub_diag in Hi by lia. simpl in Hi. injection Hi as <- <- <- <- <-.
      by rewrite lookup_insert_eq.
    + pose proof (lookup_lt_Some _ _ _ Hi) as Hlt. rewrite length_app in Hlt. simpl in Hlt.
      rewrite lookup_app_l in Hi by lia. rewrite lookup_insert_ne by lia. by apply Hval.
Qed.

Lemma append_all_leader_log s as_ :
  0 ≤ s → s + Z.of_nat (length as_) < u64_modulus →
  ∃ l, append_all (Log_new s) as_ = Ok l ∧ leader_log s as_ l.
Proof.
  intros Hs. induction as_ as [|[[[[t x] w] st] time] as_ IH] using rev_ind; intros Hmax.
  - eexists. split; [done|apply leader_log_new].
  - rewrite length_app in Hmax; simpl in Hmax. destruct IH as (l & Hl & Hinv); [lia|].
    destruct (leader_log_append s as_ l t x w st time Hs ltac:(lia) Hinv) as (l' & Hadd & Hinv').
    exists l'. split; [|done]. by rewrite append_all_snoc, Hl; simpl; rewrite Hadd.
Qed.

(** The leader's log is dense: appending any list of entries to a new log gives them
    consecutive sequence numbers from [start] on, overwrites nothing, leaves every entry
    initialised and findable under its number, and [Last] and [LastLsn] name the newest
    one (as long as the 64-bit numbers do not wrap around). *)
Theorem leader_log_dense (s : Z) (as_ : list append) (t x time : Z) (w : gmap string string)
    (st : LogEntryState) :
  0 ≤ s → s + Z.of_nat (S (length as_)) < u64_modulus →
  ∃ l l', append_all (Log_new s) as_ = Ok l ∧
    Add_leader t x w st time l = Ok (s + Z.of_nat (length as_), l') ∧
    LastLsn l' = Ok (s + Z.of_nat (length as_)) ∧ FirstLsn l' = Ok s ∧
    Last l' = Ok (Some (LogEntry_6 t (s + Z.of_nat (length as_)) x w st time)) ∧
    log_ok l' ∧
    (∀ id, is_Some (Find id l') ↔ s ≤ id ≤ s + Z.of_nat (length as_)) ∧
    (∀ id, id ≠ s + Z.of_nat (length as_) → Find id l' = Find id l).
Proof.
  intros Hs Hmax. destruct (append_all_leader_log s as_ Hs ltac:(lia)) as (l & Hl & Hinv).
  destruct (leader_log_append s as_ l t x w st time Hs Hmax Hinv) as (l' & Hadd & Hinv').
  exists l, l'. pose proof Hinv' as (Hok & Hst & _ & Hstored & Hdom & Hval).
  rewrite length_app in Hstored, Hdom; simpl in Hstored, Hdom.
  assert (entries l' !! (s + Z.of_nat (length as_)) =
          Some (LogEntry_6 t (s + Z.of_nat (length as_)) x w st time)) as Hnew.
  { apply Hval. by rewrite lookup_app_r, Nat.sub_diag by lia. }
  assert (entries l' ≠ ∅) as Hne by (intros Hn; by rewrite Hn in Hnew).
  assert (last (storedEntries l') = Some (s + Z.of_nat (length as_))) as Hlast.
  { rewrite Hstored. replace (Z.of_nat (length as_ + 1)) with (Z.of_nat (length as_) + 1) by lia.
    rewrite seqZ_app, last_app by lia. by rewrite (seqZ_cons (s + _)) by lia. }
  unfold LastLsn, Last, FirstLsn, Find. rewrite !decide_False by done. rewrite Hlast. simpl.
  split_and!; [done..| |by rewrite Hnew|done| |].
  - rewrite Hstored. by rewrite seqZ_cons by lia.
  - intros id. rewrite Hdom. lia.
  - intros id Hid. unfold Add_leader in Hadd. destruct Hinv as (_ & _ & Hlsn & _).
    rewrite Hlsn in Hadd. simpl in Hadd. injection Hadd as <-. simpl. by rewrite lookup_insert_ne.
Qed.

(** Replication of one entry: the message the leader builds for a sequence number of its
    log, appended by a follower, is stored under the same sequence number and is equal to
    the leader's entry; building it does not change the leader's log. *)
Theorem entry_replication_roundtrip (HO : HashOrder) (leader follower : Log) (id : Z) (e : LogEntry) :
  log_ok leader → Find id leader = Some e →
  ∃ p leader' follower', EntryToProto id leader = Ok (p, leader') ∧ entries leader' = entries leader ∧
    Add_proto p follower = Ok (id, follower') ∧ Find id follower' = Some e ∧
    ∀ id', id' ≠ id → Find id' follower' = Find id' follower.
Proof.
  intros Hok Hfind. unfold Find in *. destruct (entry_to_proto_ok id e (Hok id e Hfind)) as (p & Hp & Hid & He).
  unfold EntryToProto. rewrite Hfind. simpl. rewrite Hp. simpl. eexists p, _, _.
  split; [done|]. split; [by apply insert_id|]. unfold Add_proto. rewrite He.
  rewrite (Add_run id) by apply (Hok id e Hfind). split; [done|]. simpl. split; [by rewrite lookup_insert_eq|].
  intros id' Hne. by rewrite lookup_insert_ne.
Qed.

(** The overload of [EntryToProto] that takes the entry by value never works: its argument
    is made by the copy constructor, which leaves the transaction number uninitialised. *)
Theorem entry_copy_loses_txn (HO : HashOrder) (e : LogEntry) (id : Z) :
  entry_ok id e → EntryToProto_copy e = Undefined ∧ ∃ p, entry_to_proto e = Ok p.
Proof.
  intros Hok. destruct (entry_to_proto_ok id e Hok) as (p & Hp & _). split; [|eauto].
  destruct e as [te ie xe se ste w]. destruct Hok as (Hid & [t Ht] & _). simpl in *. subst. done.
Qed.

(** ** Concrete instances *)

Definition demo_entry : LogEntry := LogEntry_6 1 0 7 {["x" := "v"]} LOG_STATE_PREPAREOK 5.
Definition demo_log : Log := MkLog {[0 := demo_entry]} [0] 0 (Some 1).

Lemma demo_entry_ok : entry_ok 0 demo_entry.
Proof. repeat split; by eexists. Qed.

Lemma demo_log_ok : log_ok demo_log.
Proof.
  intros id e He. simpl in He. apply lookup_singleton_Some in He as [<- <-]. exact demo_entry_ok.
Qed.

Lemma log_transfer_roundtrip_witness :
  ∃ ps l', ToProto (H := default_order) demo_log = Ok ps ∧ Log_of_proto ps 0 = Ok l' ∧
    entries l' = entries demo_log ∧ start l' = 0.
Proof. apply (log_transfer_roundtrip default_order demo_log 0 demo_log_ok). Defined.

Lemma leader_log_dense_witness :
  ∃ l l', append_all (Log_new 0) [(1, 7, ∅, LOG_STATE_PREPAREOK, 5)] = Ok l ∧
    Add_leader 1 8 ∅ LOG_STATE_PREPAREOK 6 l = Ok (1, l') ∧ LastLsn l' = Ok 1.
Proof.
  destruct (leader_log_dense 0 [(1, 7, ∅, LOG_STATE_PREPAREOK, 5)] 1 8 6 ∅ LOG_STATE_PREPAREOK)
    as (l & l' & Hl & Hadd & Hlast & _).
  - lia.
  - vm_compute. reflexivity.
  - exists l, l'. split_and!; [exact Hl|exact Hadd|exact Hlast].
Defined.

Lemma entry_replication_roundtrip_witness :
  ∃ p leader' follower', EntryToProto (H := default_order) 0 demo_log = Ok (p, leader') ∧
    Add_proto p (Log_new 0) = Ok (0, follower') ∧ Find 0 follower' = Some demo_entry.
Proof.
  destruct (entry_replication_roundtrip default_order demo_log (Log_new 0) 0 demo_entry demo_log_ok
    eq_refl) as (p & leader' & follower' & H1 & _ & H2 & H3 & _).
  exists p, leader', follower'. split_and!; [exact H1|exact H2|exact H3].
Defined.

Lemma entry_copy_loses_txn_witness :
  EntryToProto_copy (H := default_order) demo_entry = Undefined.
Proof. apply (entry_copy_loses_txn default_order demo_entry 0 demo_entry_ok). Defined.
