(* ===== verification/LRReplica.v ===== *)
(** A replica of a shard: [replication/lr/replica.h] and [replica.cc], with the messages
    of [replication/lr/lr-proto.proto].

    The leader of a shard answers prepare requests, replicates the prepared transactions to
    the followers through its log and applies the decisions to the application store; in
    the parallel mode it takes the decisions from the commit coordinators.  The store is
    reached through the upcalls of [LRAppReplica].

    The state is a record and the handlers are state-passing functions.  Hash tables of
    pointers are maps to optional values: [table[k]] on an absent key inserts a null
    pointer.  Members without an initial value are optional too; dereferencing a null
    pointer, reading an uninitialised member and using a deleted object are [Undefined].
    Whether the transport accepts a message is decided by a [Network]; every attempt to send
    is logged with its result. *)

From S2P Require Import LockServer VersionStore TxnStore Coordinator LRLog QuorumSet Sharding.
From S2P Require Import Prelude Timestamp Transaction StrongServer.

(** ** Messages *)

(** [enum CommitMode] of the protocol messages. *)
Inductive CommitMode := CM_SLOW | CM_FAST | CM_PARALLEL | CM_CAROUSEL | CM_RC.

#[global] Instance CommitMode_eq_dec : EqDecision CommitMode.
Proof. solve_decision. Defined.

Inductive ReplyState := REP_OK | REP_FAIL | REP_TIMEOUT | REP_NETWORK_FAILURE.

Record ReadSet := MkReadSet { rs_key : string; rs_replica : Z; readts : Z }.

Record ReplicateTransaction := MkReplicateTransaction {
  rt_txnLog : LogEntryProto; rt_term : Z; rt_replicaID : Z; rt_primaryCoordinator : Z;
  rt_participants : list Z; rt_primaryShard : Z; rt_vote : LogEntryState; rt_hasPreCommit : bool
}.

Record ReplicateTransactionReply := MkReplicateTransactionReply {
  rtr_lsn : Z; rtr_term : Z; rtr_replicaID : Z; rtr_txnid : Z
}.

Record ReplicateCommit := MkReplicateCommit {
  rc_tid : Z; rc_lsn : Z; rc_state : LogEntryState; rc_timestamp : Z
}.

Record PrepareTransaction := MkPrepareTransaction {
  pr_tid : Z; pr_wset : list WriteSet; pr_rset : list ReadSet; pr_participants : list Z;
  pr_primaryShard : Z; pr_mode : CommitMode
}.

#[global] Instance PrepareTransaction_eta : Eta PrepareTransaction := λ m,
  MkPrepareTransaction (pr_tid m) (pr_wset m) (pr_rset m) (pr_participants m) (pr_primaryShard m)
    (pr_mode m).

Record PrepareTransactionReply := MkPrepareTransactionReply {
  ptr_tid : Z; ptr_state : LogEntryState; ptr_shard : Z; ptr_timestamp : Z;
  ptr_reachFaultTolerance : Z; ptr_replica : Z
}.

Record ParallelModeCommit := MkParallelModeCommit { pmc_tid : Z; pmc_participants : list Z }.

Record ParallelModeCommitReply := MkParallelModeCommitReply {
  pmr_tid : Z; pmr_state : LogEntryState; pmr_timestamp : Z
}.

Record Commit := MkCommit { c_tid : Z; c_state : LogEntryState; c_timestamp : Z }.

Record GetData := MkGetData { gd_tid : Z; gd_keys : list string }.

Record ReadKeyVersion := MkReadKeyVersion { rkv_key : string; rkv_value : string; rkv_timestamp : Z }.

Record GetDataReply := MkGetDataReply {
  gdr_tid : Z; gdr_keys : list ReadKeyVersion; gdr_replicaid : Z; gdr_state : ReplyState
}.

(** The address of a client, as the transport passes it. *)
Abbreviation address := Z.

Inductive out_message :=
| OPrepareReply (m : PrepareTransactionReply)
| OReplicate (m : ReplicateTransaction)
| OReplicateReply (m : ReplicateTransactionReply)
| OReplicateCommit (m : ReplicateCommit)
| OGetReply (m : GetDataReply)
| OParallelReply (m : ParallelModeCommitReply)
| OPrepare (m : PrepareTransaction)
| OReplyAndVote (m : ReplicateReplyAndVote)
| OVote (m : Coordinator.Vote)
| OCleared (m : NotifyDependenciesAreCleared)
| ORequestResult (m : RequestCommitResult).

Inductive sent :=
| ToAddress (a : address) (m : out_message)
| ToReplicas (m : out_message)
| ToShard (shard replica : Z) (m : out_message)
| ToCoordinator (replica : Z) (m : out_message)
| ToCoordinators (m : out_message).

Inductive in_message :=
| IReplicateTransaction (m : ReplicateTransaction)
| IReplicateTransactionReply (m : ReplicateTransactionReply)
| IPrepareTransaction (m : PrepareTransaction)
| IPrepareTransactionReply (m : PrepareTransactionReply)
| ICommit (m : Commit)
| IReplicateCommit (m : ReplicateCommit)
| IGetData (m : GetData)
| INotifyDecision (m : NotifyDecision)
| INotifyReplicateResult (m : NotifyReplicateResult)
| IParallelModeCommit (m : ParallelModeCommit)
| IUnexpected.

(** ** Interfaces *)

(** [class LRAppReplica]: the upcalls. *)
Class LRAppReplica (S : Type) := {
  GetUpcall : string → M S string;
  PrepareUpcall : string → bool → M S (string * bool);
  CommitUpcall : string → M S string;
  AbortUpcall : string → M S string;
  PreCommitUpcall : string → M S string
}.

(** The server of the strong store is one. *)
#[global] Instance Server_AppReplica {S} `{!TxnStore.TxnStore S, !Codec Request, !Codec Reply} :
    LRAppReplica (Server S) := {|
  GetUpcall := StrongServer.GetUpcall;
  PrepareUpcall := StrongServer.PrepareUpcall;
  CommitUpcall := StrongServer.CommitUpcall;
  AbortUpcall := StrongServer.AbortUpcall;
  PreCommitUpcall := StrongServer.PreCommitUpcall
|}.

(** [send_ok i]: the transport accepts the [i]-th message. *)
Class Network := send_ok : nat → bool.

(** ** State *)

(** A timer: what it calls, and whether it is running. *)
Inductive callback := CallResendReplicateTxn | CallResendPrepareOK | CallResendPrepare.
Record Timeout := MkTimeout { call : callback; running : bool }.

#[global] Instance callback_eq_dec : EqDecision callback.
Proof. solve_decision. Defined.

#[global] Instance Timeout_eq_dec : EqDecision Timeout.
Proof. solve_decision. Defined.

(** [struct PendingTransaction]. *)
Record PendingTransaction := MkPendingTransaction {
  pt_lsn : option Z;
  pt_tid : option Z;
  quorum : QuorumSet Z ReplicateTransactionReply;
  pt_majority : Z;
  finalResult : option LogEntryState;
  pt_timer : option Timeout;
  pt_participants : list Z;
  pt_primary_shard : option Z;
  send_confirms : bool;
  reach_consensus : bool;
  reach_commit_decision : bool;
  parallel_mode : bool;
  is_participant : bool;
  has_precommit : bool
}.

#[global] Instance PendingTransaction_eta : Eta PendingTransaction := λ r,
  MkPendingTransaction (pt_lsn r) (pt_tid r) (quorum r) (pt_majority r) (finalResult r) (pt_timer r)
    (pt_participants r) (pt_primary_shard r) (send_confirms r) (reach_consensus r)
    (reach_commit_decision r) (parallel_mode r) (is_participant r) (has_precommit r).

Definition PendingTransaction_new (timer : option Timeout) (majority lsn tid : Z) (ps : list Z)
    (primary_shard : Z) : PendingTransaction :=
  MkPendingTransaction (Some lsn) (Some tid) (QuorumSet_new majority) majority None timer ps
    (Some primary_shard) false false false false true false.

Definition PendingTransaction_parallel (parallel_mode : bool) (majority : Z) : PendingTransaction :=
  MkPendingTransaction None None (QuorumSet_new majority) majority None None [] None false false false
    parallel_mode true false.

(** [struct PendingPrepare]; [send_confirms] and [reach_consensus] are never used. *)
Record PendingPrepare := MkPendingPrepare {
  pp_tid : Z;
  pp_timestamp : Z;
  pp_txn : Transaction;
  participant_replies : gmap Z LogEntryState;
  pp_participants : list Z;
  finalDecision : option LogEntryState;
  pp_timer : option Timeout;
  region_replicies : gmap Z LogEntryState
}.

#[global] Instance PendingPrepare_eta : Eta PendingPrepare := λ r,
  MkPendingPrepare (pp_tid r) (pp_timestamp r) (pp_txn r) (participant_replies r) (pp_participants r)
    (finalDecision r) (pp_timer r) (region_replicies r).

Definition PendingPrepare_new (timer : option Timeout) (ps : list Z) (tid : Z) (txn : Transaction) :
    PendingPrepare :=
  MkPendingPrepare tid 0 txn ∅ ps None timer ∅.

(** [class LRReplica] over an application store of type [S]; [n_transports] is the length of
    [shardTransport]. *)
Record LRReplica (S : Type) := MkLRReplica {
  replica_config : QuorumSet.Configuration;
  replica_id : Z;
  shard_id : Z;
  leader : Z;
  nshards : Z;
  n_transports : Z;
  tpcMode : TpcMode;
  isLeader : bool;
  term : Z;
  log : Log;
  current_ts : option Z;
  pendingTxns : gmap Z PendingTransaction;
  pendingPrepares : gmap Z PendingPrepare;
  activeTxns : gmap Z (option Transaction);
  committedTxns : gmap Z (LogEntryState * Z);
  inDependency : gmap Z Z;
  clientList : gmap Z (option address);
  prepareClientList : gmap Z (option address);
  app : S;
  sends : list (sent * bool)
}.
Arguments MkLRReplica {_}.
Arguments replica_config {_} _.
Arguments replica_id {_} _.
Arguments shard_id {_} _.
Arguments leader {_} _.
Arguments nshards {_} _.
Arguments n_transports {_} _.
Arguments tpcMode {_} _.
Arguments isLeader {_} _.
Arguments term {_} _.
Arguments log {_} _.
Arguments current_ts {_} _.
Arguments pendingTxns {_} _.
Arguments pendingPrepares {_} _.
Arguments activeTxns {_} _.
Arguments committedTxns {_} _.
Arguments inDependency {_} _.
Arguments clientList {_} _.
Arguments prepareClientList {_} _.
Arguments app {_} _.
Arguments sends {_} _.

#[global] Instance LRReplica_eta S : Eta (LRReplica S) := λ r,
  MkLRReplica (replica_config r) (replica_id r) (shard_id r) (leader r) (nshards r) (n_transports r)
    (tpcMode r) (isLeader r) (term r) (log r) (current_ts r) (pendingTxns r) (pendingPrepares r)
    (activeTxns r) (committedTxns r) (inDependency r) (clientList r) (prepareClientList r) (app r)
    (sends r).

(** The constructor: [current_ts] has no initial value. *)
Definition LRReplica_new {S} (config : QuorumSet.Configuration) (id leader shard nshards transports : Z)
    (tm : TpcMode) (store : S) : LRReplica S :=
  MkLRReplica config id shard leader nshards transports tm (id =? leader) 0 (Log_new 0) None ∅ ∅ ∅ ∅ ∅
    ∅ ∅ store [].

Section handlers.
Context {S : Type} `{!LRAppReplica S} `{!Network} `{HO : HashOrder}.
Context `{!Codec Request} `{!Codec Reply}.

Abbreviation ML := (M (LRReplica S)).

(** ** Helpers *)

Definition ts_of (e : LogEntry) : option Z := LRLog.ts e.

(** [entry->ts = ...]. *)
Definition set_ts (t : Z) (e : LogEntry) : LogEntry := e <| LRLog.ts := Some t |>.

Definition lift {A} (r : res A) : ML A := lift_res r.

Definition send (x : sent) : ML bool := λ r,
  let ok := send_ok (length (sends r)) in Ok (ok, r <| sends ::= (λ l, l ++ [(x, ok)]) |>).

(** An upcall. *)
Definition upcall {A} (m : M S A) : ML A := λ r,
  match m (app r) with
  | Ok (a, s) => Ok (a, r <| app := s |>)
  | Panic => Panic
  | Undefined => Undefined
  end.

(** [activeTxns[tid]] and [clientList[tid]]: the pointer, inserted as null when absent. *)
Definition active_at (tid : Z) : ML (option Transaction) :=
  r ← get_st;
  let p := default None (activeTxns r !! tid) in
  _ ← modify (λ r, r <| activeTxns ::= <[tid := p]> |>); mret p.

Definition client_at (tid : Z) : ML (option address) :=
  r ← get_st;
  let p := default None (clientList r !! tid) in
  _ ← modify (λ r, r <| clientList ::= <[tid := p]> |>); mret p.

Definition prepare_client_at (tid : Z) : ML (option address) :=
  r ← get_st;
  let p := default None (prepareClientList r !! tid) in
  _ ← modify (λ r, r <| prepareClientList ::= <[tid := p]> |>); mret p.

(** [table.erase(tid)], with the deletion of the object. *)
Definition erase_pending (tid : Z) : ML unit := modify (λ r, r <| pendingTxns ::= delete tid |>).
Definition erase_prepare (tid : Z) : ML unit := modify (λ r, r <| pendingPrepares ::= delete tid |>).
Definition erase_active (tid : Z) : ML unit := modify (λ r, r <| activeTxns ::= delete tid |>).
Definition erase_client (tid : Z) : ML unit := modify (λ r, r <| clientList ::= delete tid |>).

(** Assignments through a pointer into [pendingTxns] or [pendingPrepares]. *)
Definition store_pending (tid : Z) (req : PendingTransaction) : ML unit :=
  modify (λ r, r <| pendingTxns ::= <[tid := req]> |>).
Definition store_prepare (tid : Z) (req : PendingPrepare) : ML unit :=
  modify (λ r, r <| pendingPrepares ::= <[tid := req]> |>).

(** [a % replica_config.n]. *)
Definition mod_replicas (a : Z) : ML Z :=
  r ← get_st;
  let n := u64 (QuorumSet.n (replica_config r)) in
  if n =? 0 then undefined else mret (to_int (a mod n)).

(** The index of [shardTransport[p]]. *)
Definition shard_transport (p : Z) : ML Z :=
  r ← get_st; if (0 <=? p) && (p <? n_transports r) then mret p else undefined.

Definition increaseTs : ML Z :=
  ts ← gets current_ts;
  t ← deref ts;
  _ ← modify (λ r, r <| current_ts := Some (u64_incr t) |>);
  mret (u64_incr t).

(** [timer->Reset()] and [timer->Stop()]. *)
Definition reset_timer (t : option Timeout) : ML (option Timeout) :=
  t' ← deref t; mret (Some (MkTimeout (call t') true)).

Definition stop_timer (t : option Timeout) : ML (option Timeout) :=
  t' ← deref t; mret (Some (MkTimeout (call t') false)).

(** The sets of a message added to a transaction. *)
Definition add_writes (ws : list WriteSet) (t : Transaction) : Transaction :=
  foldl (λ t w, Transaction.addWriteSet (ws_key w) (ws_value w) t) t ws.

Definition add_reads (rs : list ReadSet) (t : Transaction) : Transaction :=
  foldl (λ t r, addReadSet (rs_key r) (MkTimestamp (readts r) (rs_replica r)) t) t rs.

Definition add_participants (ps : list Z) (t : Transaction) : Transaction :=
  foldl (λ t p, addParticipant p t) t ps.

(** ** Replication of a prepared transaction *)

Definition ReplicateTxn (req : PendingTransaction) : ML unit :=
  lsn ← deref (pt_lsn req);
  r ← get_st;
  '(txnLog, log') ← lift (EntryToProto lsn (log r));
  _ ← modify (λ r, r <| log := log' |>);
  primary_shard ← deref (pt_primary_shard req);
  primary_coordinator ← mod_replicas primary_shard;
  ok ← send (ToReplicas (OReplicate (MkReplicateTransaction txnLog (term r) (to_int (replica_id r))
               (u64 primary_coordinator) (pt_participants req) primary_shard LOG_STATE_PREPAREOK
               (has_precommit req))));
  tid ← deref (pt_tid req);
  if (ok : bool) then
    timer ← reset_timer (pt_timer req);
    store_pending tid (req <| pt_timer := timer |>)
  else erase_pending tid.

Definition ResendReplicateTxn (tid : Z) : ML unit :=
  r ← get_st;
  if decide (tpcMode r = MODE_RC) then mret tt
  else req ← deref (pendingTxns r !! tid); ReplicateTxn req.

Definition InvokeReplicateTxn (id : Z) (hasPreCommit : bool) : ML unit :=
  r ← get_st;
  entry ← deref (Find id (log r));
  tid ← deref (txn entry);
  match pendingTxns r !! tid with
  | None =>
      txn ← active_at tid;
      t ← deref txn;
      shard ← deref (getPrimaryShard t);
      let timer := if decide (tpcMode r = MODE_RC) then None
                   else Some (MkTimeout CallResendReplicateTxn false) in
      let req := PendingTransaction_new timer (QuorumSize (replica_config r)) id tid
                   (getParticipants t) shard <| has_precommit := hasPreCommit |> in
      _ ← store_pending tid req;
      when (negb (bool_decide (tpcMode r = MODE_RC))) (ReplicateTxn req)
  | Some req =>
      if negb (bool_decide (tpcMode r = MODE_RC)) && bool_decide (pt_timer req = None) then
        txn ← active_at tid;
        t ← deref txn;
        shard ← deref (getPrimaryShard t);
        let req' := req <| pt_timer := Some (MkTimeout CallResendReplicateTxn false) |>
                        <| pt_lsn := Some id |>
                        <| pt_majority := QuorumSize (replica_config r) |>
                        <| pt_participants := getParticipants t |>
                        <| pt_primary_shard := Some shard |>
                        <| has_precommit := hasPreCommit |> in
        _ ← store_pending tid req';
        ReplicateTxn req'
      else ResendReplicateTxn tid
  end.

(** ** The slow mode: the primary shard as coordinator *)

(** The loop over the messages of [SendPrepare]; [freed] once a failed send has deleted
    [req], which the following iterations still use. *)
Fixpoint send_prepares (freed : bool) (req : PendingPrepare) (msgs : list (Z * PrepareTransaction)) :
    ML unit :=
  match msgs with
  | [] => mret tt
  | (shard, m) :: msgs' =>
      r ← get_st;
      sendto ← match tpcMode r with
               | MODE_SLOW => mod_replicas shard
               | MODE_RC => mret (to_int (replica_id r))
               | _ => mret (-1)
               end;
      i ← shard_transport shard;
      ok ← send (ToShard i sendto (OPrepare m));
      if freed then undefined
      else if (ok : bool) then
        timer ← reset_timer (pp_timer req);
        let req' := req <| pp_timer := timer |> in
        _ ← store_prepare (pp_tid req) req';
        send_prepares false req' msgs'
      else
        _ ← erase_prepare (pp_tid req);
        send_prepares true req msgs'
  end.

Definition no_prepare : PrepareTransaction := MkPrepareTransaction 0 [] [] [] 0 CM_SLOW.

Definition add_to_message (shard : Z) (f : PrepareTransaction → PrepareTransaction)
    (msgs : gmap Z PrepareTransaction) : gmap Z PrepareTransaction :=
  <[shard := f (default no_prepare (msgs !! shard))]> msgs.

(** The messages of [SendPrepare].  The write entries are given their key twice:
    [set_key(k.first); set_key(k.second);]. *)
Fixpoint prepare_writes (nshards : Z) (ws : list (string * string)) (msgs : gmap Z PrepareTransaction) :
    res (gmap Z PrepareTransaction) :=
  match ws with
  | [] => Ok msgs
  | (k, v) :: ws' =>
      shard ← replica_key_to_shard nshards k;
      prepare_writes nshards ws'
        (add_to_message (u64 (to_int shard)) (λ m, m <| pr_wset ::= (λ l, l ++ [MkWriteSet v ""]) |>) msgs)
  end.

Fixpoint prepare_reads (nshards : Z) (rs : list (string * Timestamp)) (msgs : gmap Z PrepareTransaction) :
    res (gmap Z PrepareTransaction) :=
  match rs with
  | [] => Ok msgs
  | (k, t) :: rs' =>
      shard ← replica_key_to_shard nshards k;
      prepare_reads nshards rs'
        (add_to_message (u64 (to_int shard))
           (λ m, m <| pr_rset ::= (λ l, l ++ [MkReadSet k (ts_id t) (timestamp t)]) |>) msgs)
  end.

Definition prepare_messages (shard_id nshards : Z) (req : PendingPrepare) :
    res (gmap Z PrepareTransaction) :=
  let msgs := foldl (λ ms p, <[p := no_prepare <| pr_tid := pp_tid req |>
                                               <| pr_primaryShard := shard_id |>]> ms) ∅
                (pp_participants req) in
  msgs' ← prepare_writes nshards (hash_order (getWriteSet (pp_txn req))) msgs;
  prepare_reads nshards (hash_order (getReadSet (pp_txn req))) msgs'.

Definition SendPrepare (req : PendingPrepare) : ML unit :=
  r ← get_st;
  msgs ← lift (prepare_messages (shard_id r) (nshards r) req);
  send_prepares false req (hash_order msgs).

Definition ResendPrepare (tid : Z) : ML unit :=
  r ← get_st; req ← deref (pendingPrepares r !! tid); SendPrepare req.

Definition HandlePrepare (remote : address) (msg : PrepareTransaction) : ML unit :=
  let tid := pr_tid msg in
  _ ← modify (λ r, r <| prepareClientList ::= <[tid := Some remote]> |>);
  r ← get_st;
  match pendingPrepares r !! tid with
  | None =>
      let txn := add_participants (pr_participants msg)
                   (add_reads (pr_rset msg) (add_writes (pr_wset msg) (Transaction_id tid))) in
      let req := PendingPrepare_new (Some (MkTimeout CallResendPrepare false)) (getParticipants txn)
                   tid txn in
      _ ← store_prepare tid req;
      SendPrepare req
  | Some req => SendPrepare req
  end.

(** ** Prepare requests *)

(** The reply to a repeated prepare request; in the slow mode it goes to the leader of the
    primary shard. *)
Definition reply_again (remote : address) (msg : PrepareTransaction) (reply carousel : PrepareTransactionReply) :
    ML unit :=
  r ← get_st;
  if decide (tpcMode r = MODE_SLOW) then
    leader ← mod_replicas (pr_primaryShard msg);
    i ← shard_transport (pr_primaryShard msg);
    _ ← send (ToShard i leader (OPrepareReply reply)); mret tt
  else
    _ ← send (ToAddress remote
                (OPrepareReply (if decide (tpcMode r = MODE_CAROUSEL) then carousel else reply)));
    mret tt.

Definition prepare_request (tid : Z) (t : Transaction) : string :=
  SerializeToString (MkRequest PREPARE tid None (Some (MkPrepareMessage (serialize_txn t) None)) None None).

(** The part of [HandlePrepareTxn] that runs the concurrency control. *)
Definition prepare_txn (remote : address) (msg : PrepareTransaction) : ML unit :=
  let tid := pr_tid msg in
  ts ← increaseTs;
  r ← get_st;
  let txn := add_participants (pr_participants msg)
               (add_reads (pr_rset msg) (add_writes (pr_wset msg)
                  (Transaction_primary tid ts (replica_id r) (pr_primaryShard msg)))) in
  let txn := setIn (u64 (default 0 (inDependency r !! tid))) txn in
  _ ← modify (λ r, r <| inDependency ::= delete tid |>);
  let check := isLeader r || bool_decide (tpcMode r = MODE_CAROUSEL) || bool_decide (tpcMode r = MODE_RC) in
  '(res, replicate) ← upcall (PrepareUpcall (prepare_request tid txn) check);
  if negb replicate then
    let ft := if bool_decide (tpcMode r = MODE_CAROUSEL) && isLeader r then 1 else 0 in
    _ ← send (ToAddress remote (OPrepareReply (MkPrepareTransactionReply tid LOG_STATE_ABORT (shard_id r) 0
                                                 ft (replica_id r))));
    mret tt
  else
    let reply := MkPrepareTransactionReply tid LOG_STATE_PREPAREOK (shard_id r)
                   (timestamp (getTimestamp txn)) 0 (replica_id r) in
    sent ← (if decide (tpcMode r = MODE_RC) then
              i ← shard_transport (pr_primaryShard msg);
              send (ToShard i (to_int (replica_id r)) (OPrepareReply reply))
            else mret true);
    if negb sent then mret tt
    else
      _ ← when (bool_decide (tpcMode r = MODE_CAROUSEL))
            (_ ← send (ToAddress remote (OPrepareReply reply)); mret tt);
      when (isLeader r)
        (_ ← modify (λ r, r <| clientList ::= <[tid := Some remote]> |>);
         id ← deref (getID txn);
         _ ← modify (λ r, r <| activeTxns ::= <[id := Some txn]> |>);
         r1 ← get_st;
         '(lsn, log') ← lift (Add_leader (term r1) id (getWriteSet txn) LOG_STATE_PREPAREOK
                                (timestamp (getTimestamp txn)) (log r1));
         _ ← modify (λ r, r <| log := log' |>);
         in_ ← deref (getIn txn);
         InvokeReplicateTxn lsn (in_ >? 0)).

Definition HandlePrepareTxn (remote : address) (msg : PrepareTransaction) : ML unit :=
  let tid := pr_tid msg in
  r ← get_st;
  if (bool_decide (pr_mode msg = CM_SLOW) || bool_decide (pr_mode msg = CM_RC)) &&
     (pr_primaryShard msg =? shard_id r) && bool_decide (pendingPrepares r !! tid = None)
  then HandlePrepare remote msg
  else if bool_decide (inDependency r !! tid = Some (-1)) then
    modify (λ r, r <| inDependency ::= delete tid |>)
  else
    match committedTxns r !! tid with
    | Some (st, ts) =>
        let reply := MkPrepareTransactionReply tid st (shard_id r) ts 0 0 in
        reply_again remote msg reply reply
    | None =>
        match pendingTxns r !! tid with
        | Some req =>
            if reach_consensus req then
              st ← deref (finalResult req);
              txn ← active_at tid;
              t ← deref txn;
              let ts := timestamp (getTimestamp t) in
              reply_again remote msg (MkPrepareTransactionReply tid st (shard_id r) ts 0 0)
                (MkPrepareTransactionReply tid st (shard_id r) ts 1 (replica_id r))
            else prepare_txn remote msg
        | None => prepare_txn remote msg
        end
    end.

(** ** Replication: followers and replies *)

Definition HandleReplicateTransaction (remote : address) (msg : ReplicateTransaction) : ML unit :=
  let lsn := p_lsn (rt_txnLog msg) in
  let tid := p_txnid (rt_txnLog msg) in
  r ← get_st;
  ts ← deref (current_ts r);
  _ ← when (p_timestamp (rt_txnLog msg) >? ts)
        (modify (λ r, r <| current_ts := Some (p_timestamp (rt_txnLog msg)) |>));
  let reply := MkReplicateTransactionReply lsn (term r) (to_int (replica_id r)) tid in
  _ ← match Find lsn (log r) with
      | Some _ => mret tt
      | None =>
          '(_, log') ← lift (Add_proto (rt_txnLog msg) (log r));
          _ ← modify (λ r, r <| log := log' |>);
          entry ← deref (Find lsn log');
          ets ← deref (ts_of entry);
          let txn := add_participants (rt_participants msg)
                       (add_writes (p_wset (rt_txnLog msg)) (Transaction_ts tid ets (u64 (rt_replicaID msg)))) in
          _ ← modify (λ r, r <| activeTxns ::= <[tid := Some txn]> |>);
          _ ← upcall (PrepareUpcall (prepare_request tid txn) (isLeader r));
          mret tt
      end;
  _ ← send (ToAddress remote (OReplicateReply reply));
  when (bool_decide (tpcMode r = MODE_PARALLEL))
    (_ ← send (ToCoordinator (to_int (replica_id r))
                 (OReplyAndVote (MkReplicateReplyAndVote tid (shard_id r) (replica_id r)
                    (if decide (rt_vote msg = LOG_STATE_PREPAREOK) then PREPARED else Coordinator.COMMIT)
                    (rt_participants msg) (rt_primaryShard msg) (rt_primaryCoordinator msg) 0
                    (rt_hasPreCommit msg))));
     mret tt).

(** A failed send in [HandleConsensus] and [VoteForNext] forgets the transaction. *)
Definition forget_transaction (tid : Z) : ML unit :=
  _ ← erase_pending tid; _ ← active_at tid; _ ← erase_active tid;
  _ ← client_at tid; erase_client tid.

Definition HandleConsensus (tid : Z) (req : PendingTransaction) : ML unit :=
  r ← get_st;
  txn ← active_at tid;
  t ← deref txn;
  let reply := MkPrepareTransactionReply tid LOG_STATE_PREPAREOK (shard_id r)
                 (timestamp (getTimestamp t)) 0 (replica_id r) in
  if decide (tpcMode r = MODE_SLOW) then
    shard ← deref (pt_primary_shard req);
    primaryShardLeader ← mod_replicas shard;
    i ← shard_transport shard;
    ok ← send (ToShard i primaryShardLeader (OPrepareReply reply));
    if (ok : bool) then
      store_pending tid (req <| pt_timer := Some (MkTimeout CallResendPrepareOK false) |>)
    else _ ← erase_pending tid; _ ← active_at tid; erase_active tid
  else
    proceed ← (if decide (tpcMode r = MODE_PARALLEL) then
                 r1 ← get_st;
                 match pendingTxns r1 !! tid with
                 | None => mret false
                 | Some req' => mret (has_precommit req')
                 end
               else mret true);
    if negb proceed then mret tt
    else
      let reply' := if decide (tpcMode r = MODE_CAROUSEL)
                    then MkPrepareTransactionReply tid LOG_STATE_PREPAREOK (shard_id r)
                           (timestamp (getTimestamp t)) 1 (replica_id r)
                    else reply in
      client ← client_at tid;
      a ← deref client;
      ok ← send (ToAddress a (OPrepareReply reply'));
      if (ok : bool) then
        store_pending tid (req <| pt_timer := Some (MkTimeout CallResendPrepareOK true) |>)
      else forget_transaction tid.

Definition HandleReplicateTransactionReply (msg : ReplicateTransactionReply) : ML unit :=
  let tid := rtr_txnid msg in
  r ← get_st;
  match pendingTxns r !! tid with
  | None => mret tt
  | Some req =>
      if reach_consensus req then mret tt
      else
        let '(msgs, q) := GetMessages (rtr_term msg)
                            (QuorumSet.Add (rtr_term msg) (rtr_replicaID msg) msg (quorum req)) in
        let req1 := req <| quorum := q |> in
        if pt_majority req1 <=? Z.of_nat (size msgs) then
          let req2 := req1 <| reach_consensus := true |> <| finalResult := Some LOG_STATE_PREPAREOK |> in
          _ ← store_pending tid req2;
          HandleConsensus tid req2
        else store_pending tid req1
  end.

Definition ResendPrepareOK (tid : Z) : ML unit :=
  r ← get_st;
  match pendingTxns r !! tid with
  | None => mret tt
  | Some req =>
      txn ← active_at tid;
      t ← deref txn;
      let reply := MkPrepareTransactionReply tid LOG_STATE_PREPAREOK (shard_id r)
                     (timestamp (getTimestamp t)) 0 0 in
      ok ← (if decide (tpcMode r = MODE_SLOW) then
              shard ← deref (pt_primary_shard req);
              primaryShardLeader ← mod_replicas shard;
              i ← shard_transport shard;
              send (ToShard i primaryShardLeader (OPrepareReply reply))
            else
              client ← client_at tid;
              a ← deref client;
              send (ToAddress a (OPrepareReply reply)));
      when ok
        (timer ← reset_timer (pt_timer req);
         store_pending tid (req <| pt_timer := timer |>))
  end.

(** ** Decisions *)

(** An abort and those it causes.  The recursion follows the outgoing dependencies through
    [activeTxns]; on an acyclic graph its depth is at most the number of active
    transactions, and on a cycle the recursion of the code does not end.  [fuel] bounds the
    depth. *)
Fixpoint cascade_abort (fuel : nat) (tid : Z) : ML unit :=
  match fuel with
  | O => undefined
  | Datatypes.S fuel' =>
      _ ← upcall (AbortUpcall (SerializeToString (MkRequest StrongServer.ABORT tid None None None None)));
      r ← get_st;
      match pendingTxns r !! tid with
      | None => mret tt
      | Some _ =>
          txn ← active_at tid;
          t ← deref txn;
          for_each (getOut t) (λ out,
            r ← get_st;
            match activeTxns r !! out with
            | Some _ =>
                _ ← cascade_abort fuel' out;
                _ ← send (ToCoordinators (OVote (MkVote tid PREPARED (shard_id r) [] 0 0 0 0)));
                mret tt
            | None => modify (λ r, r <| inDependency ::= <[out := -1]> |>)
            end)
      end
  end.

Definition CascadeAbort (tid : Z) : ML unit :=
  r ← get_st; cascade_abort (size (activeTxns r) + 2) tid.

Definition notifyForFollowingDependenies (tid : Z) : ML unit :=
  r ← get_st;
  match pendingTxns r !! tid with
  | None => mret tt
  | Some req =>
      txn ← active_at tid;
      t ← deref txn;
      for_each (getOut t) (λ out,
        r ← get_st;
        match activeTxns r !! out with
        | Some p =>
            out_txn ← deref p;
            let out_txn' := decreaseIn out_txn in
            n ← deref (getIn out_txn');
            _ ← modify (λ r, r <| activeTxns ::= <[out := Some out_txn']> |>);
            when (n =? 0)
              (shard ← deref (pt_primary_shard req);
               coordinator ← mod_replicas shard;
               _ ← send (ToCoordinator coordinator
                           (OCleared (MkNotifyDependenciesAreCleared out (shard_id r))));
               mret tt)
        | None =>
            modify (λ r, r <| inDependency ::= <[out := default 0 (inDependency r !! out) - 1]> |>)
        end)
  end.

(** The status is set under the transaction number, not the sequence number. *)
Definition notifyCommitToReplica (req : PendingTransaction) (msg : Commit) : ML PendingTransaction :=
  tid ← deref (pt_tid req);
  _ ← modify (λ r, r <| log ::= (λ l, (SetStatus tid (c_state msg) l).2) |>);
  lsn ← deref (pt_lsn req);
  r ← get_st;
  let m := OReplicateCommit (MkReplicateCommit (c_tid msg) lsn (c_state msg) (c_timestamp msg)) in
  if decide (tpcMode r = MODE_RC) then
    _ ← for_each (pt_participants req) (λ p,
          i ← shard_transport p;
          _ ← send (ToShard i (to_int (replica_id r)) m); mret tt);
    mret req
  else
    ok ← send (ToReplicas m);
    mret (if (ok : bool) then req <| send_confirms := true |> else req).

(** The upcall for a decision; [t] is [activeTxns[tid]]. *)
Definition apply_decision (tid : Z) (st : LogEntryState) (ts : Z) (t : option Transaction) : ML unit :=
  match st with
  | LOG_STATE_COMMIT =>
      _ ← upcall (CommitUpcall (SerializeToString
                    (MkRequest StrongServer.COMMIT tid None None (Some (MkCommitMessage ts)) None)));
      mret tt
  | LOG_STATE_ABORT =>
      t' ← deref t;
      _ ← upcall (AbortUpcall (SerializeToString
                    (MkRequest StrongServer.ABORT tid None None None
                       (Some (MkAbortMessage (serialize_txn t'))))));
      mret tt
  | _ => mret tt
  end.

Definition applyToStore (req : PendingTransaction) (msg : Commit) : ML PendingTransaction :=
  t ← active_at (c_tid msg);
  _ ← apply_decision (c_tid msg) (c_state msg) (c_timestamp msg) t;
  mret (req <| reach_commit_decision := true |>).

Definition HandleCommit (msg : Commit) : ML unit :=
  let tid := c_tid msg in
  r ← get_st;
  match pendingTxns r !! tid with
  | None => mret tt
  | Some req =>
      ts ← deref (current_ts r);
      _ ← when (c_timestamp msg >? ts) (modify (λ r, r <| current_ts := Some (c_timestamp msg) |>));
      _ ← (if negb (is_participant req) then erase_pending tid
           else
             lsn ← deref (pt_lsn req);
             r1 ← get_st;
             entry ← deref (Find lsn (log r1));
             _ ← modify (λ r, r <| log ::= (λ l, l <| entries ::= <[lsn := set_ts (c_timestamp msg) entry]> |>) |>);
             req1 ← (if send_confirms req then mret req else notifyCommitToReplica req msg);
             req2 ← (if reach_commit_decision req1 then mret req1 else applyToStore req1 msg);
             _ ← store_pending tid req2;
             txn ← active_at tid;
             _ ← (if decide (c_state msg = LOG_STATE_COMMIT) then notifyForFollowingDependenies tid
                  else CascadeAbort tid);
             _ ← erase_pending tid;
             _ ← when (negb (bool_decide (tpcMode r = MODE_PARALLEL))) (_ ← deref txn; mret tt);
             _ ← erase_active tid;
             modify (λ r, r <| committedTxns ::= <[tid := (c_state msg, c_timestamp msg)]> |>));
      _ ← client_at tid;
      erase_client tid
  end.

Definition HandleReplicateCommit (msg : ReplicateCommit) : ML unit :=
  r ← get_st;
  if isLeader r && negb (bool_decide (tpcMode r = MODE_RC)) then mret tt
  else
    _ ← when (bool_decide (tpcMode r = MODE_RC))
          (modify (λ r, r <| log ::= (λ l, (SetStatus (rc_lsn msg) (rc_state msg) l).2) |>));
    txn ← active_at (rc_tid msg);
    match txn with
    | None => mret tt
    | Some t =>
        _ ← apply_decision (rc_tid msg) (rc_state msg) (rc_timestamp msg) (Some t);
        erase_active (rc_tid msg)
    end.

(** Not called by any handler. *)
Fixpoint VoteForNext (nexts : list Z) : ML unit :=
  match nexts with
  | [] => mret tt
  | tid :: nexts' =>
      r ← get_st;
      match pendingTxns r !! tid with
      | None => mret tt
      | Some req =>
          shard ← deref (pt_primary_shard req);
          _ ← send (ToCoordinators (OVote (MkVote tid PREPARED (shard_id r) (pt_participants req) shard 0
                                             (replica_id r) 0)));
          _ ← (if reach_consensus req then
                 txn ← active_at tid;
                 t ← deref txn;
                 match clientList r !! tid with
                 | None => mret tt
                 | Some client =>
                     a ← deref client;
                     ok ← send (ToAddress a (OPrepareReply
                            (MkPrepareTransactionReply tid LOG_STATE_PREPAREOK (shard_id r)
                               (timestamp (getTimestamp t)) 0 (replica_id r))));
                     if (ok : bool) then
                       store_pending tid (req <| pt_timer := Some (MkTimeout CallResendPrepareOK true) |>)
                     else forget_transaction tid
                 end
               else mret tt);
          VoteForNext nexts'
      end
  end.

(** ** Reads *)

(** The loop of [HandleRead]: the versions collected and whether every key was found. *)
Fixpoint read_keys (tid : Z) (keys : list string) (acc : list ReadKeyVersion) :
    ML (list ReadKeyVersion * bool) :=
  match keys with
  | [] => mret (acc, true)
  | key :: keys' =>
      r ← get_st;
      res ← upcall (GetUpcall (SerializeToString
               (MkRequest GET tid (Some (MkGetMessage key None)) None None None)));
      let rep : Reply := ParseFromString res in
      if status rep =? 0 then
        let ts := default 0 (rep_timestamp rep) in
        let dep := default 0 (dependency rep) in
        value ←
          (if bool_decide (tpcMode r = MODE_PARALLEL) && (dep >? 0) then
             dependent_txn ← active_at dep;
             match dependent_txn with
             | None => mret ""
             | Some t =>
                 _ ← modify (λ r, r <| activeTxns ::= <[dep := Some (addOut tid t)]> |>
                                    <| inDependency ::= <[tid := default 0 (inDependency r !! tid) + 1]> |>);
                 mret (default "" (getWriteSet t !! key))
             end
           else mret (default "" (rep_value rep)));
        read_keys tid keys' (acc ++ [MkReadKeyVersion key value ts])
      else mret (acc, false)
  end.

Definition HandleRead (remote : address) (msg : GetData) : ML unit :=
  r ← get_st;
  '(keys, success) ← read_keys (gd_tid msg) (gd_keys msg) [];
  _ ← send (ToAddress remote (OGetReply (MkGetDataReply (gd_tid msg) keys (replica_id r)
                                           (if (success : bool) then REP_OK else REP_FAIL))));
  mret tt.

(** ** The parallel mode: decisions of the coordinators *)

Definition PreCommit (tid : Z) : ML unit :=
  _ ← upcall (PreCommitUpcall (SerializeToString
                (MkRequest StrongServer.PRECOMMIT tid None None None None)));
  mret tt.

(** [committedTxns] is set to [LOG_STATE_COMMIT] on both branches. *)
Definition HandleDecisionFromCoordinatorReplica (msg : NotifyDecision) : ML unit :=
  let tid := nd_tid msg in
  r ← get_st;
  match pendingTxns r !! tid with
  | None => mret tt
  | Some req =>
      _ ← (if decide (nd_state msg = PREPARED) then
             t ← deref (pt_tid req); PreCommit t
           else _ ← CascadeAbort tid; erase_pending tid);
      r1 ← get_st;
      _ ← match activeTxns r1 !! tid with
          | None => mret tt
          | Some txn => _ ← deref txn; mret tt
          end;
      modify (λ r, r <| committedTxns ::= <[tid := (LOG_STATE_COMMIT, nd_timestamp msg)]> |>)
  end.

Definition HandleParallelCommitResult (tid ts : Z) (res : LogEntryState) : ML unit :=
  r ← get_st;
  match pendingTxns r !! tid with
  | None => mret tt
  | Some _ =>
      client ← client_at tid;
      a ← deref client;
      _ ← send (ToAddress a (OParallelReply (MkParallelModeCommitReply tid res ts)));
      erase_client tid
  end.

Definition HandleReplicateResultFromCoordinatorReplica (msg : NotifyReplicateResult) : ML unit :=
  _ ← HandleParallelCommitResult (nrr_tid msg) (nrr_timestamp msg) LOG_STATE_COMMIT;
  HandleCommit (MkCommit (nrr_tid msg) LOG_STATE_COMMIT (nrr_timestamp msg)).

Definition HandleParallelModeCommit (remote : address) (msg : ParallelModeCommit) : ML unit :=
  let tid := pmc_tid msg in
  r ← get_st;
  match pendingTxns r !! tid with
  | None =>
      _ ← store_pending tid (PendingTransaction_parallel true (QuorumSize (replica_config r))
            <| pt_tid := Some tid |> <| pt_lsn := Some (u64 (-1)) |> <| is_participant := false |>);
      _ ← modify (λ r, r <| clientList ::= <[tid := Some remote]> |>);
      _ ← send (ToCoordinator (to_int (replica_id r))
                  (ORequestResult (MkRequestCommitResult tid (pmc_participants msg) 0 0)));
      mret tt
  | Some req => store_pending tid (req <| parallel_mode := true |>)
  end.

(** ** The slow and RC modes: replies of the participants *)

(** [participant_replies[p]] inserts [LOG_STATE_COMMIT], the zero value of the enum. *)
Fixpoint all_prepared (ps : list Z) (replies : gmap Z LogEntryState) : bool * gmap Z LogEntryState :=
  match ps with
  | [] => (true, replies)
  | p :: ps' =>
      match replies !! p with
      | Some st => if decide (st = LOG_STATE_PREPAREOK) then all_prepared ps' replies else (false, replies)
      | None => (false, <[p := LOG_STATE_COMMIT]> replies)
      end
  end.

Definition ReachFinalDecision (req : PendingPrepare) : bool * PendingPrepare :=
  if Z.of_nat (size (participant_replies req)) <? Z.of_nat (length (pp_participants req))
  then (false, req)
  else let '(b, replies) := all_prepared (pp_participants req) (participant_replies req) in
       (b, req <| participant_replies := replies |>).

Definition ReachConsensusOnFinalDecision (majority : Z) (req : PendingPrepare) : bool * PendingPrepare :=
  if u64 majority <=? Z.of_nat (size (region_replicies req)) then
    let okCount := map_sum (λ st, if decide (st = LOG_STATE_PREPAREOK) then 1 else 0) (region_replicies req) in
    let failCount := map_sum (λ st, if decide (st = LOG_STATE_PREPAREOK) then 0 else 1) (region_replicies req) in
    if okCount >=? majority then (true, req <| finalDecision := Some LOG_STATE_PREPAREOK |>)
    else if failCount >=? majority then (true, req <| finalDecision := Some LOG_STATE_ABORT |>)
    else (false, req)
  else (false, req).

(** In the slow mode [req] is deleted and then [req->tid] is read. *)
Definition ReplyFinalDecision (req : PendingPrepare) : ML unit :=
  let tid := pp_tid req in
  r ← get_st;
  st ← deref (finalDecision req);
  let reply := OPrepareReply (MkPrepareTransactionReply tid st (shard_id r) (pp_timestamp req) 0
                                (replica_id r)) in
  client ← prepare_client_at tid;
  a ← deref client;
  _ ← send (ToAddress a reply);
  _ ← (if decide (tpcMode r = MODE_RC) then
         let req1 := req <| region_replicies ::= <[replica_id r := st]> |> in
         ok ← send (ToReplicas reply);
         if (ok : bool) then
           timer ← stop_timer (pp_timer req1);
           store_prepare tid (req1 <| pp_timer := timer |>)
         else store_prepare tid req1
       else mret tt);
  if decide (tpcMode r = MODE_SLOW) then
    _ ← HandleCommit (MkCommit tid st (pp_timestamp req));
    _ ← erase_prepare tid;
    undefined
  else mret tt.

Definition HandlePrepareTransactionReply (msg : PrepareTransactionReply) : ML unit :=
  let tid := ptr_tid msg in
  r ← get_st;
  match pendingPrepares r !! tid with
  | None => mret tt
  | Some req =>
      if (ptr_shard msg =? shard_id r) && negb (ptr_replica msg =? replica_id r) then
        let req1 := req <| region_replicies ::= <[ptr_replica msg := ptr_state msg]> |>
                        <| pp_timestamp ::= Z.max (ptr_timestamp msg) |> in
        let '(reached, req2) := ReachConsensusOnFinalDecision (QuorumSize (replica_config r)) req1 in
        _ ← store_prepare tid req2;
        when reached
          (_ ← stop_timer (pp_timer req2);
           st ← deref (finalDecision req2);
           _ ← HandleCommit (MkCommit (pp_tid req2) st (pp_timestamp req2));
           _ ← erase_prepare (pp_tid req2);
           undefined)
      else if decide (ptr_state msg = LOG_STATE_PREPAREOK) then
        if bool_decide (is_Some (participant_replies req !! ptr_shard msg)) then mret tt
        else
          let req1 := req <| participant_replies ::= <[ptr_shard msg := ptr_state msg]> |>
                          <| pp_timestamp ::= Z.max (ptr_timestamp msg) |> in
          let '(reached, req2) := ReachFinalDecision req1 in
          _ ← store_prepare tid req2;
          when reached
            (timer ← stop_timer (pp_timer req2);
             let req3 := req2 <| pp_timer := timer |> <| finalDecision := Some LOG_STATE_PREPAREOK |> in
             _ ← store_prepare tid req3;
             ReplyFinalDecision req3)
      else
        let req1 := req <| finalDecision := Some LOG_STATE_ABORT |> in
        _ ← store_prepare tid req1;
        ReplyFinalDecision req1
  end.

(** ** Dispatch *)

Definition HandleMessage (remote : address) (m : in_message) : ML unit :=
  match m with
  | IReplicateTransaction m => HandleReplicateTransaction remote m
  | IReplicateTransactionReply m => HandleReplicateTransactionReply m
  | IPrepareTransaction m => HandlePrepareTxn remote m
  | IPrepareTransactionReply m => HandlePrepareTransactionReply m
  | ICommit m => HandleCommit m
  | IReplicateCommit m => HandleReplicateCommit m
  | IGetData m => HandleRead remote m
  | INotifyDecision m => HandleDecisionFromCoordinatorReplica m
  | INotifyReplicateResult m => HandleReplicateResultFromCoordinatorReplica m
  | IParallelModeCommit m => HandleParallelModeCommit remote m
  | IUnexpected => panic
  end.

(** A running timer fires. *)
Definition Timer (c : callback) (tid : Z) : ML unit :=
  match c with
  | CallResendReplicateTxn => ResendReplicateTxn tid
  | CallResendPrepareOK => ResendPrepareOK tid
  | CallResendPrepare => ResendPrepare tid
  end.
End handlers.

(** ** Runs *)

(** What happens to a replica: a message arrives, or a timer fires. *)
Inductive event := EMessage (remote : address) (m : in_message) | ETimer (c : callback) (tid : Z).

Section events.
Context {S : Type} `{!LRAppReplica S} `{!Network} `{HO : HashOrder}.
Context `{!Codec Request} `{!Codec Reply}.
Implicit Types r : LRReplica S.

(** The timer of transaction [t] that is running, if any. *)
Definition armed r (c : callback) (t : Z) : bool :=
  match c with
  | CallResendPrepare => bool_decide (pp_timer <$> pendingPrepares r !! t = Some (Some (MkTimeout c true)))
  | _ => bool_decide (pt_timer <$> pendingTxns r !! t = Some (Some (MkTimeout c true)))
  end.

(** One event; only a running timer fires. *)
Definition handle (e : event) : M (LRReplica S) unit :=
  match e with
  | EMessage remote m => HandleMessage remote m
  | ETimer c t => r ← get_st; when (armed r c t) (Timer c t)
  end.
End events.

(** ** Replication before acknowledgement (fast mode) *)

Section acknowledged.
Variable tr : list event.

(** Replica [rep] acknowledged the replication of transaction [t]. *)
Definition acked (t rep : Z) : Prop :=
  ∃ remote m, EMessage remote (IReplicateTransactionReply m) ∈ tr ∧ rtr_txnid m = t ∧
    rtr_replicaID m = rep.

(** [q] distinct replicas did. *)
Definition quorum_acked (q t : Z) : Prop :=
  ∃ X : gset Z, q ≤ Z.of_nat (size X) ∧ ∀ rep, rep ∈ X → acked t rep.
End acknowledged.

(** Clients ask for the fast mode, and decisions are commits or aborts. *)
Definition fast_event (e : event) : Prop :=
  match e with
  | EMessage _ (IPrepareTransaction m) => pr_mode m = CM_FAST
  | EMessage _ (ICommit m) => c_state m ≠ LOG_STATE_PREPAREOK
  | _ => True
  end.

Section fast_mode.
Context {S : Type} `{!LRAppReplica S} `{!Network} `{HO : HashOrder}.
Context `{!Codec Request} `{!Codec Reply}.
Context (cfg : QuorumSet.Configuration) (tr : list event).
Implicit Types r : LRReplica S.

Abbreviation acknowledged := (quorum_acked tr (QuorumSize cfg)).

Record txn_ok (t : Z) (req : PendingTransaction) : Prop := {
  tok_tid : pt_tid req = Some t;
  tok_majority : pt_majority req = QuorumSize cfg;
  tok_replies : ∀ term rep m, default ∅ (messages (quorum req) !! term) !! rep = Some m → acked tr t rep;
  tok_consensus : reach_consensus req = true → acknowledged t;
  tok_timer : ∀ tm, pt_timer req = Some tm → call tm = CallResendPrepareOK → acknowledged t
}.

(** Any [LOG_STATE_PREPAREOK] that leaves the replica is about an acknowledged transaction. *)
Definition sent_ok (x : sent) : Prop :=
  match x with
  | ToAddress _ (OPrepareReply m) | ToShard _ _ (OPrepareReply m) | ToReplicas (OPrepareReply m) =>
      ptr_state m = LOG_STATE_PREPAREOK → acknowledged (ptr_tid m)
  | _ => True
  end.

Record fast_ok (r : LRReplica S) : Prop := {
  fok_config : replica_config r = cfg;
  fok_mode : tpcMode r = MODE_FAST;
  fok_prepares : pendingPrepares r = ∅;
  fok_pending : ∀ t req, pendingTxns r !! t = Some req → txn_ok t req;
  fok_committed : ∀ t st ts, committedTxns r !! t = Some (st, ts) → st ≠ LOG_STATE_PREPAREOK;
  fok_sends : ∀ x ok, (x, ok) ∈ sends r → sent_ok x
}.

Lemma fast_send_preserves x : sent_ok x → preserves fast_ok (send x).
Proof.
  intros Hx r []. unfold post, send; simpl. split; simpl; auto.
  intros y ok [Hy|[= -> _]%list_elem_of_singleton]%elem_of_app; eauto.
Qed.

Lemma upcall_preserves {A} (m : M S A) : preserves fast_ok (upcall m).
Proof. intros r []. unfold post, upcall. destruct (m (app r)) as [[a s]| |]; [|done..]. by split. Qed.

Lemma fast_store_pending_preserves t req : txn_ok t req → preserves fast_ok (store_pending t req).
Proof.
  intros Hok. apply preserves_modify. intros r []. split; simpl; auto.
  intros t' req' [[<- <-]|[_ Ht]]%lookup_insert_Some; auto.
Qed.

Lemma erase_pending_preserves t : preserves fast_ok (erase_pending t).
Proof.
  apply preserves_modify. intros r []. split; simpl; auto.
  intros t' req' [_ Ht]%lookup_delete_Some. auto.
Qed.

Lemma set_committed_preserves t st ts :
  st ≠ LOG_STATE_PREPAREOK →
  preserves fast_ok (modify (λ r, r <| committedTxns ::= <[t := (st, ts)]> |>)).
Proof.
  intros Hst. apply preserves_modify. intros r []. split; simpl; auto.
  intros t' st' ts' [[<- [= <- <-]]|[_ Ht]]%lookup_insert_Some; eauto.
Qed.

(** Updates of the members the invariant does not mention. *)
Lemma modify_preserves f :
  (∀ r, replica_config (f r) = replica_config r ∧ tpcMode (f r) = tpcMode r ∧
    pendingPrepares (f r) = pendingPrepares r ∧ pendingTxns (f r) = pendingTxns r ∧
    committedTxns (f r) = committedTxns r ∧ sends (f r) = sends r) →
  preserves fast_ok (modify f).
Proof.
  intros Hf. apply preserves_modify. intros r [].
  destruct (Hf r) as (? & ? & ? & Hp & Hc & Hs). split; rewrite ?Hp, ?Hc, ?Hs; auto; congruence.
Qed.

Lemma reset_timer_preserves {A} tm (k : option Timeout → M (LRReplica S) A) :
  (∀ tm', tm = Some tm' → preserves fast_ok (k (Some (MkTimeout (call tm') true)))) →
  preserves fast_ok (reset_timer tm ≫= k).
Proof. destruct tm as [tm|]; intros Hk r Hr; [by apply (Hk tm)|done]. Qed.

Create HintDb fast.

(** Walks through a handler: one lemma per construct of the monad, case analysis on the
    conditions of the code. *)
Ltac walk_step :=
  lazymatch goal with
  | |- preserves _ (upcall _) => apply upcall_preserves
  | |- preserves _ (erase_pending _) => apply erase_pending_preserves
  | |- preserves _ (modify _) => apply modify_preserves; by intros ?
  | |- preserves _ (mret _) => apply preserves_ret
  | |- preserves _ (gets _) => apply preserves_gets
  | |- preserves _ get_st => apply preserves_get
  | |- preserves _ (lift _) => apply preserves_lift
  | |- preserves _ (deref _) => apply preserves_deref
  | |- preserves _ undefined => apply preserves_undefined
  | |- preserves _ panic => apply preserves_panic
  | |- preserves _ (for_each _ _) => apply preserves_for_each; intros ?
  | |- preserves _ (when _ _) => apply preserves_when; intros ?; try done
  | |- preserves _ (get_st ≫= _) =>
      let r := fresh "r" in let H := fresh "H" in
      apply preserves_get_bind; intros r H; rewrite ?(fok_mode r H), ?(fok_config r H)
  | |- preserves _ (reset_timer _ ≫= _) => apply reset_timer_preserves; intros ? ?
  | |- preserves _ (deref _ ≫= _) => apply preserves_bind_deref; intros ? ?
  | Hp : pendingTxns _ !! ?t = Some _ |- preserves _ (mbind (A := PendingTransaction) _ _) =>
      apply (preserves_bind_result _ _ _ (txn_ok t)); [|intros ?|intros ? ?]
  | |- preserves _ (_ ≫= _) => apply preserves_bind; [|intros ?]
  | |- preserves _ (match ?x with _ => _ end) => destruct x eqn:?; try done
  end.
Ltac walk := repeat (walk_step || auto with fast; cbv beta zeta).

Lemma active_at_preserves t : preserves fast_ok (active_at t).
Proof. unfold active_at. walk. Qed.

Lemma client_at_preserves t : preserves fast_ok (client_at t).
Proof. unfold client_at. walk. Qed.

Lemma mod_replicas_preserves a : preserves fast_ok (mod_replicas a).
Proof. unfold mod_replicas. walk. Qed.

Lemma fast_shard_transport_preserves p : preserves fast_ok (shard_transport p).
Proof. unfold shard_transport. walk. Qed.

#[local] Hint Resolve active_at_preserves client_at_preserves mod_replicas_preserves
  fast_shard_transport_preserves : fast.
#[local] Hint Extern 1 (preserves _ (send _)) => apply fast_send_preserves : fast.
#[local] Hint Extern 1 (sent_ok _) => exact I : fast.

Lemma increaseTs_preserves : preserves fast_ok increaseTs.
Proof. unfold increaseTs. walk. Qed.

#[local] Hint Resolve increaseTs_preserves : fast.

(** The members a re-sent replication request or an acknowledged one may change. *)
Lemma txn_ok_timer t req c b :
  txn_ok t req → (c = CallResendPrepareOK → acknowledged t) →
  txn_ok t (req <| pt_timer := Some (MkTimeout c b) |>).
Proof. intros [] Hc. split; simpl; auto. intros tm [= <-]. auto. Qed.

Lemma txn_ok_reset t req tm :
  txn_ok t req → pt_timer req = Some tm → txn_ok t (req <| pt_timer := Some (MkTimeout (call tm) true) |>).
Proof. intros Hok Htm. apply txn_ok_timer; [done|]. intros. eapply tok_timer; eauto. Qed.

Lemma ReplicateTxn_preserves t req : txn_ok t req → preserves fast_ok (ReplicateTxn req).
Proof.
  intros Hok. unfold ReplicateTxn. walk.
  rewrite (tok_tid _ _ Hok) in *. simplify_eq. by apply fast_store_pending_preserves, txn_ok_reset.
Qed.

Lemma ResendReplicateTxn_preserves t : preserves fast_ok (ResendReplicateTxn t).
Proof. unfold ResendReplicateTxn. walk. eapply ReplicateTxn_preserves, fok_pending; eauto. Qed.

Lemma PendingTransaction_new_ok tm lsn t ps shard b :
  (∀ tm', tm = Some tm' → call tm' ≠ CallResendPrepareOK) →
  txn_ok t (PendingTransaction_new tm (QuorumSize cfg) lsn t ps shard <| has_precommit := b |>).
Proof.
  intros Htm. split; simpl; try done. intros tm' ? ?. by destruct (Htm tm').
Qed.

Lemma txn_ok_invoke t req id ps shard b :
  txn_ok t req →
  txn_ok t (req <| pt_timer := Some (MkTimeout CallResendReplicateTxn false) |> <| pt_lsn := Some id |>
                <| pt_majority := QuorumSize cfg |> <| pt_participants := ps |>
                <| pt_primary_shard := Some shard |> <| has_precommit := b |>).
Proof. intros []. split; simpl; auto. by intros tm [= <-]. Qed.

Lemma InvokeReplicateTxn_preserves id b : preserves fast_ok (InvokeReplicateTxn id b).
Proof.
  unfold InvokeReplicateTxn. walk.
  all: try match goal with
    | H : fast_ok ?s, Hp : pendingTxns ?s !! _ = Some _ |- _ => apply (fok_pending _ H) in Hp
    end.
  - by apply fast_store_pending_preserves, txn_ok_invoke.
  - by eapply ReplicateTxn_preserves, txn_ok_invoke.
  - apply ResendReplicateTxn_preserves.
  - apply fast_store_pending_preserves, PendingTransaction_new_ok. by intros ? [= <-].
  - eapply ReplicateTxn_preserves, PendingTransaction_new_ok. by intros ? [= <-].
Qed.
#[local] Hint Resolve InvokeReplicateTxn_preserves ResendReplicateTxn_preserves : fast.

Lemma prepare_txn_preserves remote msg : preserves fast_ok (prepare_txn remote msg).
Proof.
  unfold prepare_txn. walk. by apply fast_send_preserves.
Qed.
#[local] Hint Resolve prepare_txn_preserves : fast.

Lemma reply_again_preserves remote msg reply carousel :
  (ptr_state reply = LOG_STATE_PREPAREOK → acknowledged (ptr_tid reply)) →
  preserves fast_ok (reply_again remote msg reply carousel).
Proof.
  intros Hr. unfold reply_again. walk.
Qed.

Lemma HandlePrepareTxn_preserves remote msg :
  pr_mode msg = CM_FAST → preserves fast_ok (HandlePrepareTxn remote msg).
Proof.
  intros Hmode. unfold HandlePrepareTxn. rewrite Hmode; simpl. walk.
  - apply reply_again_preserves; simpl. intros ->. by edestruct fok_committed.
  - apply reply_again_preserves; simpl. intros _.
    eapply tok_consensus; [by eapply fok_pending|done].
Qed.

Lemma HandleReplicateTransaction_preserves remote msg :
  preserves fast_ok (HandleReplicateTransaction remote msg).
Proof. unfold HandleReplicateTransaction. walk. Qed.

Lemma forget_transaction_preserves t : preserves fast_ok (forget_transaction t).
Proof. unfold forget_transaction, erase_active, erase_client. walk. Qed.
#[local] Hint Resolve forget_transaction_preserves : fast.

Lemma HandleConsensus_preserves t req :
  txn_ok t req → acknowledged t → preserves fast_ok (HandleConsensus t req).
Proof.
  intros Hok Hack. unfold HandleConsensus. walk.
  - apply fast_send_preserves. simpl. by case_decide.
  - by apply fast_store_pending_preserves, txn_ok_timer.
Qed.

(** The set [GetMessages] hands out after a reply is added holds acknowledgements only. *)
Lemma txn_ok_reply t req vs rep msg g q :
  txn_ok t req → acked tr t rep →
  GetMessages vs (QuorumSet.Add vs rep msg (quorum req)) = (g, q) →
  txn_ok t (req <| quorum := q |>) ∧ ∀ rep' m, g !! rep' = Some m → acked tr t rep'.
Proof.
  intros [] Hack [= <- <-].
  assert (∀ vs' rep' m, default ∅ (messages (QuorumSet.Add vs rep msg (quorum req)) !! vs') !! rep' = Some m →
            acked tr t rep') as Hadd.
  { intros vs' rep' m. rewrite Add_messages.
    case_decide; [|eauto]. intros [[<- <-]|[_ ?]]%lookup_insert_Some; eauto. }
  split; [|by apply Hadd]. split; [done..| |done|done].
  intros vs' rep' m. simpl quorum. simpl messages.
  destruct (decide (vs = vs')) as [<-|]; [rewrite lookup_insert_eq|rewrite lookup_insert_ne by done];
    apply Hadd.
Qed.

(** A quorum of replies is a quorum of replicas. *)
Lemma replies_acknowledged t (g : gmap Z ReplicateTransactionReply) :
  (∀ rep m, g !! rep = Some m → acked tr t rep) → QuorumSize cfg ≤ Z.of_nat (size g) → acknowledged t.
Proof.
  intros Hg Hsize. exists (dom g). rewrite size_dom. split; [done|].
  intros rep [m Hm]%elem_of_dom. eauto.
Qed.

Lemma HandleReplicateTransactionReply_preserves msg :
  acked tr (rtr_txnid msg) (rtr_replicaID msg) →
  preserves fast_ok (HandleReplicateTransactionReply msg).
Proof.
  intros Hack. unfold HandleReplicateTransactionReply. walk.
  all: destruct (txn_ok_reply (rtr_txnid msg) p (rtr_term msg) (rtr_replicaID msg) msg g q)
    as [Hok Hg]; [by eapply fok_pending|done..|]; try by apply fast_store_pending_preserves.
  all: assert (acknowledged (rtr_txnid msg)) by
    (eapply replies_acknowledged; [done|]; rewrite <- (tok_majority _ _ Hok); lia).
  - apply fast_store_pending_preserves. by destruct Hok.
  - apply HandleConsensus_preserves; [by destruct Hok|done].
Qed.

Lemma ResendPrepareOK_preserves t : acknowledged t → preserves fast_ok (ResendPrepareOK t).
Proof.
  intros Hack. unfold ResendPrepareOK. walk.
  - apply fast_send_preserves. simpl. auto.
  - apply fast_store_pending_preserves, txn_ok_reset; [by eapply fok_pending|done].
Qed.

Lemma cascade_abort_preserves fuel t : preserves fast_ok (cascade_abort fuel t).
Proof. revert t. induction fuel as [|fuel IH]; intros t; simpl; walk. Qed.

Lemma CascadeAbort_preserves t : preserves fast_ok (CascadeAbort t).
Proof. intros r Hr. by apply cascade_abort_preserves. Qed.

Lemma notifyForFollowingDependenies_preserves t :
  preserves fast_ok (notifyForFollowingDependenies t).
Proof. unfold notifyForFollowingDependenies. walk. Qed.

Lemma notifyCommitToReplica_preserves req msg : preserves fast_ok (notifyCommitToReplica req msg).
Proof. unfold notifyCommitToReplica. walk. Qed.

Lemma apply_decision_preserves t st ts txn : preserves fast_ok (apply_decision t st ts txn).
Proof. unfold apply_decision. walk. Qed.
#[local] Hint Resolve CascadeAbort_preserves notifyForFollowingDependenies_preserves
  notifyCommitToReplica_preserves apply_decision_preserves : fast.

Lemma applyToStore_preserves req msg : preserves fast_ok (applyToStore req msg).
Proof. unfold applyToStore. walk. Qed.
#[local] Hint Resolve applyToStore_preserves : fast.

Lemma notifyCommitToReplica_ok t req msg r :
  txn_ok t req → wlp (notifyCommitToReplica req msg) (λ req' _, txn_ok t req') r.
Proof.
  intros Hok. unfold notifyCommitToReplica. do 4 (apply result_bind; intros ? ?).
  case_decide; apply result_bind; intros ok ?; apply post_ret; [done|].
  destruct ok; [|done]. by destruct Hok.
Qed.

Lemma applyToStore_ok t req msg r :
  txn_ok t req → wlp (applyToStore req msg) (λ req' _, txn_ok t req') r.
Proof.
  intros Hok. unfold applyToStore. do 2 (apply result_bind; intros ? ?). apply post_ret. by destruct Hok.
Qed.

Lemma HandleCommit_preserves msg :
  c_state msg ≠ LOG_STATE_PREPAREOK → preserves fast_ok (HandleCommit msg).
Proof.
  intros Hst. unfold HandleCommit, erase_active, erase_client. walk.
  - case_match; [apply post_ret|apply notifyCommitToReplica_ok]; (eapply fok_pending; [|eassumption]; done).
  - case_match; [by apply post_ret|by apply applyToStore_ok].
  - by apply fast_store_pending_preserves.
  - by apply set_committed_preserves.
Qed.
#[local] Hint Resolve HandleCommit_preserves : fast.

Lemma HandleReplicateCommit_preserves msg : preserves fast_ok (HandleReplicateCommit msg).
Proof. unfold HandleReplicateCommit, erase_active. walk. Qed.

Lemma read_keys_preserves t keys acc : preserves fast_ok (read_keys t keys acc).
Proof. revert acc. induction keys as [|key keys IH]; intros acc; simpl; walk. Qed.
#[local] Hint Resolve read_keys_preserves : fast.

Lemma HandleRead_preserves remote msg : preserves fast_ok (HandleRead remote msg).
Proof. unfold HandleRead. walk. Qed.

Lemma HandleDecisionFromCoordinatorReplica_preserves msg :
  preserves fast_ok (HandleDecisionFromCoordinatorReplica msg).
Proof. unfold HandleDecisionFromCoordinatorReplica, PreCommit. walk. by apply set_committed_preserves. Qed.

Lemma HandleReplicateResultFromCoordinatorReplica_preserves msg :
  preserves fast_ok (HandleReplicateResultFromCoordinatorReplica msg).
Proof.
  unfold HandleReplicateResultFromCoordinatorReplica, HandleParallelCommitResult, erase_client. walk.
Qed.

Lemma HandleParallelModeCommit_preserves remote msg :
  preserves fast_ok (HandleParallelModeCommit remote msg).
Proof.
  unfold HandleParallelModeCommit. walk; apply fast_store_pending_preserves.
  - by destruct (fok_pending _ H0 _ _ Heqo).
  - by split.
Qed.

Lemma HandlePrepareTransactionReply_preserves msg :
  preserves fast_ok (HandlePrepareTransactionReply msg).
Proof.
  intros r Hr. unfold HandlePrepareTransactionReply. apply post_get.
  by rewrite (fok_prepares _ Hr), lookup_empty.
Qed.

Lemma Timer_preserves c t : preserves fast_ok (handle (ETimer c t)).
Proof.
  simpl. apply preserves_get_bind. intros r Hr. apply preserves_when.
  destruct c; simpl; intros Harmed%bool_decide_eq_true.
  - apply ResendReplicateTxn_preserves.
  - destruct (pendingTxns r !! t) as [req|] eqn:Hreq; [|done]. injection Harmed as Htm.
    eapply ResendPrepareOK_preserves, tok_timer; [by eapply fok_pending|done..].
  - by rewrite (fok_prepares _ Hr), lookup_empty in Harmed.
Qed.

Lemma handle_preserves e : e ∈ tr → fast_event e → preserves fast_ok (handle e).
Proof.
  intros He Hfast. destruct e as [remote m|c t]; [|apply Timer_preserves].
  destruct m as [m|m|m|m|m|m|m|m|m|m|]; simpl in *.
  - apply HandleReplicateTransaction_preserves.
  - apply HandleReplicateTransactionReply_preserves. by exists remote, m.
  - by apply HandlePrepareTxn_preserves.
  - apply HandlePrepareTransactionReply_preserves.
  - by apply HandleCommit_preserves.
  - apply HandleReplicateCommit_preserves.
  - apply HandleRead_preserves.
  - apply HandleDecisionFromCoordinatorReplica_preserves.
  - apply HandleReplicateResultFromCoordinatorReplica_preserves.
  - apply HandleParallelModeCommit_preserves.
  - apply preserves_panic.
Qed.

Lemma new_fast_ok id leader shard nshards transports store ts0 :
  fast_ok (LRReplica_new cfg id leader shard nshards transports MODE_FAST store <| current_ts := ts0 |>).
Proof. split; simpl; try done. intros x ok []%not_elem_of_nil. Qed.
End fast_mode.

(** C2: Replication precedes acknowledgement.  A replica that starts in the fast mode handles
    any events: requests, replies, decisions and firing timers in any order, with
    duplicates and with any message lost.  Every time it tells anybody that a transaction
    is prepared, replies for that transaction from at least [QuorumSize] distinct replicas
    are among the events: a transaction reported as prepared is known to a quorum of the
    shard. *)
Theorem prepare_ok_only_after_quorum {S : Type} `{!LRAppReplica S, !Network, HO : HashOrder}
    `{!Codec Request, !Codec Reply} config id leader shard nshards transports (store : S) ts0
    (tr : list event) r' :
  Forall fast_event tr →
  for_each tr handle (LRReplica_new config id leader shard nshards transports MODE_FAST store
                        <| current_ts := ts0 |>) = Ok (tt, r') →
  ∀ x ok, (x, ok) ∈ sends r' → sent_ok config tr x.
Proof.
  intros Hfast Hrun x ok Hx. eapply fok_sends; [|done].
  pose proof (new_fast_ok config tr id leader shard nshards transports store ts0) as H0.
  eapply (post_for_each True tr handle) in H0;
    [|intros e r He; apply handle_preserves; [done|by eapply Forall_forall]].
  unfold post in H0. by rewrite Hrun in H0.
Qed.

(** ** Leader and follower converge *)

Section convergence.
Context `{!Network} `{HO : HashOrder} {S : Type} `{!TxnStore.TxnStore S} `{!TxnStoreLaws S}.
Context `{!Codec Request} `{!Codec Reply} `{!CodecLaw Request}.
Implicit Types r : LRReplica (Server S).

Abbreviation db r := (store (app r)).

(** The writes of a transaction survive their way through the log message. *)
Lemma add_writes_writeSet ws t :
  writeSet (add_writes ws t) =
  foldl (λ m p, <[p.1 := p.2]> m) (writeSet t) ((λ w, (ws_key w, ws_value w)) <$> ws).
Proof. revert t. induction ws as [|w ws IH]; intros t; simpl; [done|]. by rewrite IH. Qed.

Lemma add_participants_writeSet ps t : writeSet (add_participants ps t) = writeSet t.
Proof. revert t. induction ps as [|p ps IH]; intros t; simpl; [done|]. by rewrite IH. Qed.

Lemma replicated_writes e id p ps t :
  entry_ok id e → entry_to_proto e = Ok p → writeSet t = ∅ →
  writeSet (add_participants ps (add_writes (p_wset p) t)) = wset e.
Proof.
  intros He Hp Ht. destruct (entry_to_proto_ok id e He) as (p' & Hp' & _ & Hep).
  rewrite Hp in Hp'. injection Hp' as <-. rewrite <- Hep, entry_of_proto_eq.
  by rewrite add_participants_writeSet, add_writes_writeSet, Ht.
Qed.

(** The upcalls of the two decisions on a prepared transaction. *)
Lemma apply_commit_run tid ts p t r :
  store_ok (db r) → preparedTxns (db r) !! tid = Some t → precommittedTxns (db r) !! tid = None →
  ∃ sv, apply_decision tid LOG_STATE_COMMIT ts p r = Ok (tt, r <| app := sv |>) ∧
    store_ok (store sv) ∧ data (store sv) = install_all ts tid (writeSet t) (data (db r)) ∧
    preparedTxns (store sv) = delete tid (preparedTxns (db r)).
Proof.
  intros Hok Hp Hpc. pose proof (Commit_law tid ts (db r) Hok) as Hlaw.
  apply wp_run in Hlaw as ([] & s & Hrun & Hok' & Hd & Hp' & _).
  unfold active_txn in Hd. unfold drop_active in Hp'. rewrite Hpc in Hd, Hp'. rewrite Hp in Hd.
  exists (MkServer (mode (app r)) (StrongServer.tpcMode (app r)) s). split; [|done].
  unfold apply_decision, mbind, M_bind, upcall; simpl.
  unfold StrongServer.CommitUpcall, mbind, M_bind, on_store. rewrite parse_serialize; simpl.
  by rewrite Hrun.
Qed.

(** The upcall of a follower: prepared without validation. *)
Lemma prepare_unchecked_run tid t r :
  store_ok (db r) → preparedTxns (db r) !! tid = None →
  ∃ x sv t', upcall (PrepareUpcall (prepare_request tid t) false) r = Ok (x, r <| app := sv |>) ∧
    store_ok (store sv) ∧ data (store sv) = data (db r) ∧
    preparedTxns (store sv) = <[tid := t']> (preparedTxns (db r)) ∧ writeSet t' = writeSet t ∧
    precommittedTxns (store sv) = precommittedTxns (db r).
Proof.
  intros Hok Hp. set (t' := Transaction_of_msg (serialize_txn t)).
  destruct (Prepare_unchecked tid t' (db r)) as [s Hrun].
  destruct (Prepare_fresh _ _ _ _ _ Hok Hp Hrun) as (Hok' & Hd & Hp' & Hpc).
  eexists _, (MkServer (mode (app r)) (StrongServer.tpcMode (app r)) s), t'.
  split; [|split_and!; try done; apply writeSet_of_msg_serialize].
  unfold upcall; simpl. unfold StrongServer.PrepareUpcall, prepare_request, mbind, M_bind, on_store.
  rewrite parse_serialize; simpl. fold t'. by rewrite Hrun.
Qed.

(** A follower that receives a log entry it does not have: the transaction is appended to
    its log and prepared in its store, whatever the store would say to it. *)
Lemma HandleReplicateTransaction_run remote msg r ts0 e :
  let tid := p_txnid (rt_txnLog msg) in let lsn := p_lsn (rt_txnLog msg) in
  store_ok (db r) → isLeader r = false → current_ts r = Some ts0 →
  Find lsn (log r) = None → preparedTxns (db r) !! tid = None →
  entry_ok lsn e → entry_to_proto e = Ok (rt_txnLog msg) →
  wp (HandleReplicateTransaction remote msg) (λ _ r1,
    store_ok (db r1) ∧ isLeader r1 = false ∧ tpcMode r1 = tpcMode r ∧
    (∃ t, activeTxns r1 !! tid = Some (Some t)) ∧
    data (db r1) = data (db r) ∧
    (∃ t', preparedTxns (db r1) = <[tid := t']> (preparedTxns (db r)) ∧ writeSet t' = wset e) ∧
    precommittedTxns (db r1) = precommittedTxns (db r) ∧
    Find lsn (log r1) = Some e) r.
Proof.
  intros tid lsn Hok Hl Hts Hfind Hp He Hproto.
  destruct (entry_to_proto_ok lsn e He) as (p' & Hp' & _ & Hep).
  rewrite Hproto in Hp'. injection Hp' as <-.
  unfold HandleReplicateTransaction. apply post_get. fold lsn tid. rewrite Hts, Hl, Hfind.
  apply post_bind, post_ret, post_bind, post_when_modify. intros r0 Hr0.
  assert (app r0 = app r ∧ isLeader r0 = false ∧ tpcMode r0 = tpcMode r) as (Ha & Hl0 & Hm).
  { by destruct Hr0 as [-> | ->]. }
  clear Hr0. do 2 apply post_bind. unfold Add_proto. rewrite Hep, (Add_run lsn) by apply He.
  set (l' := _ <| storedEntries ::= _ |>).
  assert (Find lsn l' = Some e) as Hl' by apply lookup_insert_eq. clearbody l'.
  apply post_ret, post_bind, post_ret. rewrite Hl'. destruct (He) as (_ & _ & _ & [ets Hets] & _).
  apply post_bind, post_ret. unfold ts_of. rewrite Hets. apply post_bind, post_ret, post_bind, post_ret.
  set (t := add_participants _ _). set (r2 := _ <| activeTxns ::= _ |>).
  assert (app r2 = app r ∧ isLeader r2 = false ∧ tpcMode r2 = tpcMode r ∧ log r2 = l' ∧
          activeTxns r2 !! tid = Some (Some t)) as (Ha2 & Hl2 & Hm2 & Hlog2 & Hact).
  { unfold r2; simpl. split_and!; try done. apply lookup_insert_eq. }
  clearbody r2. destruct (prepare_unchecked_run tid t r2) as (x & sv & t' & Hrun & Hok' & Hd & Hp' & Hw & Hpc).
  { by rewrite Ha2. }
  { by rewrite Ha2. }
  apply post_bind. unfold post at 1. rewrite Hrun. apply post_ret, post_bind.
  assert (writeSet t' = wset e) by (rewrite Hw; by eapply replicated_writes).
  unfold send, post at 1. destruct (bool_decide _); unfold post, when, mbind, M_bind; simpl.
  all: rewrite Ha2 in *; split_and!; eauto; by rewrite Hlog2.
Qed.

Lemma active_at_run tid p r : activeTxns r !! tid = Some p → active_at tid r = Ok (p, r).
Proof.
  intros Hp. unfold active_at, mbind, M_bind, mret, M_ret; simpl. rewrite Hp; simpl.
  rewrite insert_id by done. by destruct r.
Qed.

Lemma HandleReplicateCommit_run msg t t' r :
  store_ok (db r) → isLeader r = false → activeTxns r !! rc_tid msg = Some (Some t) →
  rc_state msg = LOG_STATE_COMMIT → preparedTxns (db r) !! rc_tid msg = Some t' →
  precommittedTxns (db r) !! rc_tid msg = None →
  wp (HandleReplicateCommit msg) (λ _ r',
    store_ok (db r') ∧
    data (db r') = install_all (rc_timestamp msg) (rc_tid msg) (writeSet t') (data (db r)) ∧
    preparedTxns (db r') = delete (rc_tid msg) (preparedTxns (db r)) ∧
    activeTxns r' !! rc_tid msg = None) r.
Proof.
  intros Hok Hl Hact Hst Hp Hpc. unfold HandleReplicateCommit. apply post_get. rewrite Hl, Hst.
  apply post_bind, post_when_modify. intros r0 Hr0.
  assert (app r0 = app r ∧ activeTxns r0 = activeTxns r) as [Ha Hact0] by (by destruct Hr0 as [-> | ->]).
  clear Hr0. eapply post_bind_run; [apply active_at_run; by rewrite Hact0|].
  destruct (apply_commit_run (rc_tid msg) (rc_timestamp msg) (Some t) t' r0)
    as (sv & Hrun & Hok' & Hd & Hp'); [by rewrite Ha..|].
  run_with Hrun. unfold post, erase_active, modify; simpl. rewrite Ha in *.
  split_and!; try done. apply lookup_delete_eq.
Qed.

(** The members of the leader that the commit depends on. *)
Record unchanged (r r' : LRReplica (Server S)) : Prop := {
  un_app : app r' = app r;
  un_pending : pendingTxns r' = pendingTxns r;
  un_active : activeTxns r' = activeTxns r;
  un_mode : tpcMode r' = tpcMode r
}.

Lemma notifyCommitToReplica_run req msg tid lsn r :
  pt_tid req = Some tid → pt_lsn req = Some lsn → tpcMode r ≠ MODE_RC →
  wp (notifyCommitToReplica req msg) (λ req' r',
    reach_commit_decision req' = reach_commit_decision req ∧ unchanged r r' ∧
    ∃ ok, (ToReplicas (OReplicateCommit (MkReplicateCommit (c_tid msg) lsn (c_state msg)
                                           (c_timestamp msg))), ok) ∈ sends r') r.
Proof.
  intros Ht Hlsn Hm. unfold notifyCommitToReplica. rewrite Ht, Hlsn.
  do 3 run. apply post_get. rewrite decide_False by done. run. apply post_ret; simpl.
  split_and!; [by destruct (send_ok _)|done|]. eexists. apply elem_of_app. right. by apply list_elem_of_singleton.
Qed.
(** A transaction [tid] of the leader waiting for its decision: it is logged as [e] under
    [lsn], prepared in the store with the writes of [e], and no other transaction has read
    from it. *)
Record awaits_decision (r : LRReplica (Server S)) (tid lsn : Z) (e : LogEntry) : Prop := {
  aw_pending : ∃ req, pendingTxns r !! tid = Some req ∧ pt_tid req = Some tid ∧ pt_lsn req = Some lsn ∧
    is_participant req = true ∧ send_confirms req = false ∧ reach_commit_decision req = false;
  aw_log : Find lsn (log r) = Some e;
  aw_active : ∃ t, activeTxns r !! tid = Some (Some t) ∧ getOut t = [];
  aw_clock : is_Some (current_ts r);
  aw_mode : tpcMode r ≠ MODE_RC;
  aw_store : store_ok (db r);
  aw_prepared : ∃ t, preparedTxns (db r) !! tid = Some t ∧ writeSet t = wset e;
  aw_precommitted : precommittedTxns (db r) !! tid = None
}.

Lemma applyToStore_run req tid ts p t r :
  store_ok (db r) → preparedTxns (db r) !! tid = Some t → precommittedTxns (db r) !! tid = None →
  activeTxns r !! tid = Some p →
  ∃ sv, applyToStore req (MkCommit tid LOG_STATE_COMMIT ts) r
        = Ok (req <| reach_commit_decision := true |>, r <| app := sv |>) ∧
    store_ok (store sv) ∧ data (store sv) = install_all ts tid (writeSet t) (data (db r)) ∧
    preparedTxns (store sv) = delete tid (preparedTxns (db r)).
Proof.
  intros Hok Hp Hpc Hact. destruct (apply_commit_run tid ts p t r Hok Hp Hpc) as (sv & Hrun & Hsv).
  exists sv. split; [|done]. unfold applyToStore.
  by erewrite bind_run, bind_run by (by apply active_at_run || exact Hrun).
Qed.
(** Without dependants the notification does nothing. *)
Lemma notifyForFollowingDependenies_run tid t r :
  activeTxns r !! tid = Some (Some t) → getOut t = [] → notifyForFollowingDependenies tid r = Ok (tt, r).
Proof.
  intros Hact Hout. unfold notifyForFollowingDependenies.
  rewrite (bind_run _ _ r r r) by done. destruct (pendingTxns r !! tid); [|done].
  erewrite bind_run by (by apply active_at_run). by erewrite bind_run, Hout by done.
Qed.

Lemma HandleCommit_run tid lsn e ts r :
  awaits_decision r tid lsn e →
  wp (HandleCommit (MkCommit tid LOG_STATE_COMMIT ts)) (λ _ r',
    store_ok (db r') ∧ data (db r') = install_all ts tid (wset e) (data (db r)) ∧
    preparedTxns (db r') = delete tid (preparedTxns (db r)) ∧
    pendingTxns r' !! tid = None ∧ activeTxns r' !! tid = None ∧
    committedTxns r' !! tid = Some (LOG_STATE_COMMIT, ts) ∧
    ∃ ok, (ToReplicas (OReplicateCommit (MkReplicateCommit tid lsn LOG_STATE_COMMIT ts)), ok) ∈ sends r') r.
Proof.
  intros [(req & Hpend & Hreq & Hlsn & Hpart & Hconf & Hdec) Hlog (t & Hact & Hout) [ts0 Hts] Hm Hok
    (t' & Hp & Hw) Hpc].
  unfold HandleCommit. apply post_get. cbn [c_tid c_state c_timestamp]. rewrite Hpend, Hts, Hpart.
  run. apply post_bind, post_when_modify. intros r0 Hr0.
  assert (unchanged r r0 ∧ log r0 = log r) as [[Ha Hpe Hac Hmo] Hl0] by (by destruct Hr0 as [-> | ->]).
  clear Hr0. cbn [negb]. apply post_bind. rewrite Hlsn. run. apply post_get. rewrite Hl0, Hlog. run. run.
  set (r1 := _ <| log ::= _ |>). assert (unchanged r r1) as [Ha1 Hpe1 Hac1 Hmo1] by done. clearbody r1.
  rewrite Hconf. apply post_bind. eapply post_mono; [eapply notifyCommitToReplica_run; [done..|by rewrite Hmo1]|].
  intros req1 r2 (Hdec1 & [Ha2 Hpe2 Hac2 Hmo2] & ok & Hsent). rewrite Hdec1, Hdec.
  destruct (applyToStore_run req1 tid ts (Some t) t' r2) as (sv & Hrun & Hok' & Hd & Hp');
    [by rewrite Ha2, Ha1..|by rewrite Hac2, Hac1|].
  run_with Hrun. run. set (r3 := _ <| pendingTxns ::= _ |>).
  assert (activeTxns r3 !! tid = Some (Some t)) as Hac3 by (simpl; by rewrite Hac2, Hac1).
  assert (app r3 = sv ∧ sends r3 = sends r2) as [Ha3 Hs3] by done. clearbody r3.
  eapply post_bind_run; [by apply active_at_run|]. rewrite decide_True by done.
  eapply post_bind_run; [by eapply notifyForFollowingDependenies_run|].
  run. eapply post_bind_run; [by destruct (bool_decide _)|]. run.
  unfold post, modify, client_at, erase_client, mbind, M_bind; simpl. rewrite Ha3, Hs3.
  split_and!; [done|by rewrite Hd, Hw, Ha2, Ha1|by rewrite Hp', Ha2, Ha1|apply lookup_delete_eq..
              |apply lookup_insert_eq|by exists ok].
Qed.
(** A follower that does not have [lsn] and knows nothing of [tid]. *)
Record missing (r : LRReplica (Server S)) (tid lsn : Z) : Prop := {
  mi_follower : isLeader r = false;
  mi_log : Find lsn (log r) = None;
  mi_clock : is_Some (current_ts r);
  mi_store : store_ok (db r);
  mi_prepared : preparedTxns (db r) !! tid = None;
  mi_precommitted : precommittedTxns (db r) !! tid = None
}.

(** C4: Leader and follower converge.  A transaction is prepared and logged at the leader of a
    shard, and a follower with the same data receives the log entry and later the decision
    the leader sends out when the commit arrives.  All three handlers return; afterwards
    both stores hold the same data, the writes of the log entry installed at the commit
    timestamp, the transaction is prepared at neither, and the leader remembers the
    decision.  The follower does not validate: it agrees even where its own concurrency
    control would have refused. *)
Theorem replicas_converge_on_commit (rl rf : LRReplica (Server S)) tid lsn e ts remote
    (msg : ReplicateTransaction) :
  awaits_decision rl tid lsn e → missing rf tid lsn →
  entry_ok lsn e → txn e = Some tid → entry_to_proto e = Ok (rt_txnLog msg) →
  data (db rl) = data (db rf) →
  ∃ rl' rf1 rf2 ok,
    let decision := MkReplicateCommit tid lsn LOG_STATE_COMMIT ts in
    HandleCommit (MkCommit tid LOG_STATE_COMMIT ts) rl = Ok (tt, rl') ∧
    (ToReplicas (OReplicateCommit decision), ok) ∈ sends rl' ∧
    HandleReplicateTransaction remote msg rf = Ok (tt, rf1) ∧
    HandleReplicateCommit decision rf1 = Ok (tt, rf2) ∧
    data (db rl') = install_all ts tid (wset e) (data (db rl)) ∧ data (db rf2) = data (db rl') ∧
    preparedTxns (db rl') !! tid = None ∧ preparedTxns (db rf2) = preparedTxns (db rf) ∧
    committedTxns rl' !! tid = Some (LOG_STATE_COMMIT, ts) ∧
    pendingTxns rl' !! tid = None ∧ activeTxns rf2 !! tid = None.
Proof.
  intros Hl [Hfol Hflog [ts0 Hclock] Hfok Hfp Hfpc] He Htxn Hproto Hsame.
  destruct (entry_to_proto_ok lsn e He) as (p & Hp & Hplsn & Hep). rewrite Hproto in Hp. injection Hp as <-.
  assert (p_txnid (rt_txnLog msg) = tid) as Hptid.
  { rewrite <- Hep, entry_of_proto_eq in Htxn. by injection Htxn. }
  pose proof (HandleCommit_run tid lsn e ts rl Hl) as Hc.
  apply wp_run in Hc as ([] & rl' & Hrun & _ & Hd & Hpr & Hpe & _ & Hco & ok & Hs).
  pose proof (HandleReplicateTransaction_run remote msg rf ts0 e) as Hf. rewrite Hptid, Hplsn in Hf.
  apply wp_run in Hf as ([] & rf1 & Hrun1 & Hok1 & Hl1 & _ & [t Hact] & Hd1 & (t' & Hp1 & Hw) & Hpc1 & _);
    [|done..].
  pose proof (HandleReplicateCommit_run (MkReplicateCommit tid lsn LOG_STATE_COMMIT ts) t t' rf1) as Hg.
  simpl in Hg. rewrite Hp1, Hpc1, lookup_insert_eq in Hg.
  apply wp_run in Hg as ([] & rf2 & Hrun2 & _ & Hd2 & Hp2 & Hact2); [|done..].
  exists rl', rf1, rf2, ok. split_and!; try done.
  - by rewrite Hd2, Hd, Hw, Hd1, Hsame.
  - rewrite Hpr. apply lookup_delete_eq.
  - by rewrite Hp2, delete_insert_id.
Qed.
End convergence.

(** ** Two defects *)

Section defects.
Context {S : Type} `{!LRAppReplica S} `{!Network} `{HO : HashOrder}.
Context `{!Codec Request} `{!Codec Reply}.

Lemma decision_recorded_commit (r : LRReplica S) req msg :
  pendingTxns r !! nd_tid msg = Some req → nd_state msg ≠ PREPARED →
  wlp (HandleDecisionFromCoordinatorReplica msg) (λ _ r',
    pendingTxns r' !! nd_tid msg = None ∧
    committedTxns r' !! nd_tid msg = Some (LOG_STATE_COMMIT, nd_timestamp msg)) r.
Proof.
  intros Hreq Hst. unfold HandleDecisionFromCoordinatorReplica. apply post_get. rewrite Hreq, decide_False by done.
  do 2 apply post_bind. eapply post_mono; [apply wlp_any|]. intros [] r1 _. unfold post at 1, erase_pending, modify.
  apply post_get. apply post_bind. set (r2 := _ <| pendingTxns ::= _ |>).
  eapply (post_mono _ _ (λ _ r3, r3 = r2)).
  - destruct (activeTxns r2 !! nd_tid msg) as [[]|]; done.
  - intros [] r3 ->. split; [apply lookup_delete_eq|apply lookup_insert_eq].
Qed.

(** An aborted transaction is remembered as committed: when the coordinator's decision for
    a pending transaction is anything but [PREPARED], the leader drops it and records it
    as [LOG_STATE_COMMIT], and answers the client that repeats its prepare request with
    [LOG_STATE_COMMIT]. *)
Theorem aborted_decision_answered_as_commit (r r' : LRReplica S) req msg remote prep :
  pendingTxns r !! nd_tid msg = Some req → nd_state msg ≠ PREPARED →
  HandleDecisionFromCoordinatorReplica msg r = Ok (tt, r') →
  tpcMode r' = MODE_PARALLEL → inDependency r' !! nd_tid msg = None →
  pr_tid prep = nd_tid msg → pr_mode prep = CM_PARALLEL →
  pendingTxns r' !! nd_tid msg = None ∧
  ∃ r'' ok, HandlePrepareTxn remote prep r' = Ok (tt, r'') ∧
    (ToAddress remote (OPrepareReply (MkPrepareTransactionReply (nd_tid msg) LOG_STATE_COMMIT (shard_id r')
                                        (nd_timestamp msg) 0 0)), ok) ∈ sends r''.
Proof.
  intros Hreq Hst Hrun Hm Hdep Htid Hmode.
  pose proof (decision_recorded_commit r req msg Hreq Hst) as Hc. unfold post in Hc. rewrite Hrun in Hc.
  destruct Hc as [Hp Hc]. split; [done|].
  assert (wp (HandlePrepareTxn remote prep) (λ _ r'', ∃ ok,
    (ToAddress remote (OPrepareReply (MkPrepareTransactionReply (nd_tid msg) LOG_STATE_COMMIT (shard_id r')
                                        (nd_timestamp msg) 0 0)), ok) ∈ sends r'') r') as Hwp.
  { unfold HandlePrepareTxn. apply post_get. rewrite Htid, Hmode, Hdep, Hc. unfold reply_again. apply post_get.
    rewrite Hm. cbn. eexists. apply elem_of_app. right. by apply list_elem_of_singleton. }
  apply wp_run in Hwp as ([] & r'' & ? & ok & ?). eauto.
Qed.

(** The write entries of a set of messages: no value, and a written value as key. *)
Definition valueless (ws : gmap string string) (msgs : gmap Z PrepareTransaction) : Prop :=
  ∀ s m w, msgs !! s = Some m → w ∈ pr_wset m →
    ws_value w = "" ∧ ∃ k, ws !! k = Some (ws_key w).

Lemma add_to_message_valueless ws s f msgs :
  (∀ m w, w ∈ pr_wset (f m) → w ∈ pr_wset m ∨ ws_value w = "" ∧ ∃ k, ws !! k = Some (ws_key w)) →
  valueless ws msgs → valueless ws (add_to_message s f msgs).
Proof.
  intros Hf Hv s' m w Hm Hw. unfold add_to_message in Hm.
  apply lookup_insert_Some in Hm as [[<- <-]|[_ Hm]]; [|by eapply Hv].
  apply Hf in Hw as [Hw|?]; [|done]. destruct (msgs !! s) as [m0|] eqn:Hm0; [by eapply Hv|].
  by apply not_elem_of_nil in Hw.
Qed.

Lemma prepare_writes_valueless ws n l msgs msgs' :
  (∀ k v, (k, v) ∈ l → ws !! k = Some v) →
  valueless ws msgs → prepare_writes n l msgs = Ok msgs' → valueless ws msgs'.
Proof.
  revert msgs. induction l as [|[k v] l IH]; intros msgs Hl Hv; simpl; [by intros [= <-]|].
  intros (sh & _ & Hrun)%res_bind_Ok. eapply IH; [set_solver| |exact Hrun].
  apply add_to_message_valueless; [|done]. intros m w; simpl.
  intros [?| ->%list_elem_of_singleton]%elem_of_app; [by left|]. right. split; [done|]. exists k. set_solver.
Qed.

Lemma prepare_reads_valueless ws n l msgs msgs' :
  valueless ws msgs → prepare_reads n l msgs = Ok msgs' → valueless ws msgs'.
Proof.
  revert msgs. induction l as [|[k t] l IH]; intros msgs Hv; simpl; [by intros [= <-]|].
  intros (sh & _ & Hrun)%res_bind_Ok. eapply IH; [|exact Hrun].
  apply add_to_message_valueless; [|done]. by left.
Qed.

Lemma initial_messages_valueless ws ps tid shard msgs :
  valueless ws msgs →
  valueless ws (foldl (λ ms p, <[p := no_prepare <| pr_tid := tid |> <| pr_primaryShard := shard |>]> ms)
                  msgs ps).
Proof.
  revert msgs. induction ps as [|p ps IH]; intros msgs Hv; simpl; [done|]. apply IH.
  intros s m w [[<- <-]|[_ Hm]]%lookup_insert_Some Hw; [by apply not_elem_of_nil in Hw|by eapply Hv].
Qed.

(** The prepare requests the coordinating shard sends to the participants carry no values:
    every write entry of every message has an empty value, and its key is the value that
    was to be written. *)
Theorem send_prepare_drops_values (shard n : Z) (req : PendingPrepare) msgs :
  prepare_messages shard n req = Ok msgs →
  ∀ p m w, msgs !! p = Some m → w ∈ pr_wset m →
    ws_value w = "" ∧ ∃ k, getWriteSet (pp_txn req) !! k = Some (ws_key w).
Proof.
  unfold prepare_messages. intros (msgs1 & Hw & Hr)%res_bind_Ok.
  eapply prepare_reads_valueless; [|exact Hr]. eapply prepare_writes_valueless; [| |exact Hw].
  - intros k v. apply elem_of_hash_order.
  - apply initial_messages_valueless. intros s m w Hm. by rewrite lookup_empty in Hm.
Qed.
End defects.

(** ** Concrete instances *)

#[local] Existing Instances request_codec reply_codec request_codec_law default_order demo_clock.

Definition reliable : Network := λ _, true.
#[local] Existing Instance reliable.

(** The leader and a follower of a shard of three replicas, in front of an optimistic store
    that holds the key [x]. *)
Definition demo_data : VersionedKVStore := put "x" "null" Timestamp0 VersionedKVStore_empty.

Definition demo_db : Server AnyStore :=
  MkServer MODE_OCC MODE_FAST (inl (OCCStore.MkOCCStore demo_data ∅ ∅)).

Definition demo_replica (id : Z) : LRReplica (Server AnyStore) :=
  LRReplica_new (MkConfiguration 3 1) id 0 0 1 0 MODE_FAST demo_db <| current_ts := Some 0 |>.

Definition demo_prepare_txn : PrepareTransaction :=
  MkPrepareTransaction 1 [MkWriteSet "x" "new"] [MkReadSet "x" 0 0] [0] 0 CM_FAST.

(** A client asks for a prepare, and two replicas acknowledge, one of them twice. *)
Definition demo_events : list event :=
  [EMessage 77 (IPrepareTransaction demo_prepare_txn);
   EMessage 1 (IReplicateTransactionReply (MkReplicateTransactionReply 0 0 1 1));
   EMessage 1 (IReplicateTransactionReply (MkReplicateTransactionReply 0 0 1 1));
   EMessage 2 (IReplicateTransactionReply (MkReplicateTransactionReply 0 0 2 1))].

Definition run_replica {A} (m : M (LRReplica (Server AnyStore)) A) (r : LRReplica (Server AnyStore)) :
    LRReplica (Server AnyStore) :=
  match m r with Ok (_, r') => r' | _ => r end.

Definition demo_acknowledged : LRReplica (Server AnyStore) :=
  run_replica (for_each demo_events handle) (demo_replica 0).

Definition demo_reply : sent :=
  ToAddress 77 (OPrepareReply (MkPrepareTransactionReply 1 LOG_STATE_PREPAREOK 0 1 0 0)).

Lemma prepare_ok_only_after_quorum_witness :
  (demo_reply, true) ∈ sends demo_acknowledged ∧ quorum_acked demo_events 2 1.
Proof.
  assert ((demo_reply, true) ∈ sends demo_acknowledged) as Hin.
  { apply list_elem_of_lookup_2 with (i := 1%nat). vm_compute. reflexivity. }
  split; [exact Hin|].
  pose proof (prepare_ok_only_after_quorum (MkConfiguration 3 1) 0 0 0 1 0 demo_db (Some 0)
    demo_events demo_acknowledged) as Hack.
  apply (λ H1 H2, Hack H1 H2 demo_reply true Hin eq_refl).
  - unfold demo_events. repeat constructor.
  - vm_compute. reflexivity.
Defined.

Definition demo_entry : LogEntry := LogEntry_6 0 0 1 {["x" := "new"]} LOG_STATE_PREPAREOK 1.

Definition demo_replicate : ReplicateTransaction :=
  MkReplicateTransaction (MkLogEntryProto [MkWriteSet "x" "new"] LOG_STATE_PREPAREOK 1 0 0 1) 0 0 0 [0] 0
    LOG_STATE_PREPAREOK false.

Lemma demo_data_wf : wf demo_data.
Proof. apply put_wf, wf_empty. Qed.

Lemma demo_acknowledged_store :
  store (app demo_acknowledged) =
  inl (OCCStore.MkOCCStore demo_data
         {[1 := MkTransaction {["x" := "new"]} None Timestamp0 Timestamp0 {["x" := Timestamp0]} [] None []
                  None]} ∅).
Proof. vm_compute. reflexivity. Qed.

Lemma demo_acknowledged_awaits : awaits_decision demo_acknowledged 1 0 demo_entry.
Proof.
  split; rewrite ?demo_acknowledged_store.
  - eexists. split; [vm_compute; reflexivity|]. by split_and!.
  - vm_compute. reflexivity.
  - eexists. split; [vm_compute; reflexivity|]. reflexivity.
  - exists 1. vm_compute. reflexivity.
  - by vm_compute.
  - exact demo_data_wf.
  - eexists. split; [vm_compute; reflexivity|]. reflexivity.
  - vm_compute. reflexivity.
Qed.

Lemma demo_follower_missing : missing (demo_replica 1) 1 0.
Proof.
  split; [reflexivity..| |exact demo_data_wf|reflexivity|reflexivity]. exists 0. reflexivity.
Qed.

Lemma replicas_converge_on_commit_witness :
  ∃ rl' rf1 rf2,
    HandleCommit (MkCommit 1 LOG_STATE_COMMIT 7) demo_acknowledged = Ok (tt, rl') ∧
    HandleReplicateTransaction 5 demo_replicate (demo_replica 1) = Ok (tt, rf1) ∧
    HandleReplicateCommit (MkReplicateCommit 1 0 LOG_STATE_COMMIT 7) rf1 = Ok (tt, rf2) ∧
    data (store (app rf2)) = data (store (app rl')).
Proof.
  destruct (replicas_converge_on_commit demo_acknowledged (demo_replica 1) 1 0 demo_entry 7 5 demo_replicate
    demo_acknowledged_awaits demo_follower_missing) as (rl' & rf1 & rf2 & ok & H1 & _ & H2 & H3 & _ & H4 & _).
  - repeat split; by eexists.
  - reflexivity.
  - vm_compute. reflexivity.
  - rewrite demo_acknowledged_store. reflexivity.
  - exists rl', rf1, rf2. auto.
Defined.

(** The same transaction at a leader in the parallel mode, aborted by the coordinator. *)
Definition demo_parallel : LRReplica (Server AnyStore) :=
  run_replica (HandlePrepareTxn 77 (demo_prepare_txn <| pr_mode := CM_PARALLEL |>))
    (LRReplica_new (MkConfiguration 3 1) 0 0 0 1 0 MODE_PARALLEL demo_db <| current_ts := Some 0 |>).

Definition demo_abort : NotifyDecision := MkNotifyDecision 1 Coordinator.ABORT 9.

Definition demo_aborted : LRReplica (Server AnyStore) :=
  run_replica (HandleDecisionFromCoordinatorReplica demo_abort) demo_parallel.

Lemma aborted_decision_answered_as_commit_witness :
  ∃ r'' ok, HandlePrepareTxn 77 (demo_prepare_txn <| pr_mode := CM_PARALLEL |>) demo_aborted = Ok (tt, r'') ∧
    (ToAddress 77 (OPrepareReply (MkPrepareTransactionReply 1 LOG_STATE_COMMIT (shard_id demo_aborted) 9 0 0)),
     ok) ∈ sends r''.
Proof.
  destruct (pendingTxns demo_parallel !! 1) as [req|] eqn:Hreq; [|vm_compute in Hreq; discriminate].
  apply (aborted_decision_answered_as_commit demo_parallel demo_aborted req demo_abort 77
    (demo_prepare_txn <| pr_mode := CM_PARALLEL |>)).
  - exact Hreq.
  - discriminate.
  - vm_compute. reflexivity.
  - vm_compute. reflexivity.
  - vm_compute. reflexivity.
  - reflexivity.
  - reflexivity.
Defined.

Definition demo_pending_prepare : PendingPrepare :=
  PendingPrepare_new None [0] 1 (Transaction.addWriteSet "x" "new" (Transaction_id 1)).

Lemma send_prepare_drops_values_witness :
  ∃ msgs m, prepare_messages 0 1 demo_pending_prepare = Ok msgs ∧ msgs !! 0 = Some m ∧
    pr_wset m = [MkWriteSet "new" ""].
Proof.
  set (m := no_prepare <| pr_tid := 1 |> <| pr_wset := [MkWriteSet "new" ""] |>).
  assert (prepare_messages 0 1 demo_pending_prepare = Ok {[0 := m]}) as Hrun by (vm_compute; reflexivity).
  pose proof (send_prepare_drops_values 0 1 demo_pending_prepare {[0 := m]} Hrun 0 m (MkWriteSet "new" ""))
    as [_ _]; [reflexivity|by left|].
  exists {[0 := m]}, m. split; [exact Hrun|]. split; reflexivity.
Defined.
