(* ===== verification/CascadeAbort.v ===== *)
(** Cascading aborts: the recursion of [LRReplica::CascadeAbort] in [replication/lr/replica.cc].

    The recursion follows the outgoing dependencies of a transaction that is aborted and has no
    test for transactions it has met before.  [cascade_abort] of [LRReplica] bounds its depth;
    here the bound is shown to be the right one: the recursion of the code ends exactly when no
    cycle of dependencies is reachable, and then [CascadeAbort] computes what it does.  The store
    is any that keeps the contract [TxnStoreLaws]. *)

From S2P Require Import VersionStore Timestamp Transaction LockServer.
From S2P Require Import Prelude TxnStore StrongServer LRLog QuorumSet LRReplica.

(** A loop of which every iteration establishes something that later ones keep. *)
Lemma post_for_each_each {S A} (F : Prop) (l : list A) (body : A → M S unit) (R : S → S → Prop) `{!PreOrder R}
    (P : A → S → Prop) s :
  (∀ x s1 s2, P x s1 → R s1 s2 → P x s2) →
  (∀ x s1, x ∈ l → R s s1 → post F (body x) (λ _ s2, R s1 s2 ∧ P x s2) s1) →
  post F (for_each l body) (λ _ s', R s s' ∧ ∀ x, x ∈ l → P x s') s.
Proof.
  intros HP. revert s. induction l as [|a l IH]; intros s Hbody.
  { split; [reflexivity|]. intros x Hx. by apply elem_of_nil in Hx. }
  simpl. apply post_bind. eapply post_mono; [apply Hbody; [left|reflexivity]|].
  intros _ s1 [Hs1 Ha]. eapply post_mono.
  - apply IH. intros x s2 Hx Hs2. apply Hbody; [by right|by etrans].
  - intros _ s2 [Hs2 Hall]. split; [by etrans|]. intros x [->|Hx]%elem_of_cons; [by eapply HP|by apply Hall].
Qed.

Lemma post_weaken {S A} (F : Prop) (m : M S A) Q s : wp m Q s → post F m Q s.
Proof. unfold post. by destruct (m s) as [[]| |]. Qed.

(** [m'] returns what [m] returns, whenever [m] returns. *)
Definition extends {S A} (m m' : M S A) : Prop := ∀ s p, m s = Ok p → m' s = Ok p.

#[local] Instance extends_refl {S A} : Reflexive (@extends S A).
Proof. by intros m s p. Qed.

Lemma extends_bind {S A B} (m m' : M S A) (k k' : A → M S B) :
  extends m m' → (∀ a, extends (k a) (k' a)) → extends (m ≫= k) (m' ≫= k').
Proof.
  intros Hm Hk s p. unfold mbind, M_bind. destruct (m s) as [[a s']| |] eqn:Hs; try done. rewrite (Hm _ _ Hs). apply Hk.
Qed.

Lemma extends_for_each {S A} (l : list A) (b b' : A → M S unit) :
  (∀ x, extends (b x) (b' x)) → extends (for_each l b) (for_each l b').
Proof. intros Hb. induction l as [|x l IH]; simpl; [by intros s p|]. by apply extends_bind. Qed.

Section cascade.
Context `{!Network} `{HO : HashOrder} {S : Type} `{!TxnStore.TxnStore S} `{!TxnStoreLaws S}.
Context `{!Codec Request} `{!Codec Reply} `{!CodecLaw Request}.
Implicit Types (r : LRReplica (Server S)) (a b tid : Z).

Abbreviation db r := (store (LRReplica.app r)).

(** [b] is an active transaction that depends on the pending transaction [a]. *)
Definition depends (pending : gmap Z PendingTransaction) (active : gmap Z (option Transaction)) a b : Prop :=
  is_Some (pending !! a) ∧ (∃ t, active !! a = Some (Some t) ∧ b ∈ getOut t) ∧ is_Some (active !! b).

Abbreviation follows r := (depends (pendingTxns r) (activeTxns r)).

(** Pending transactions are active. *)
Definition tables_ok r : Prop := ∀ a, is_Some (pendingTxns r !! a) → ∃ t, activeTxns r !! a = Some (Some t).

(** What an abort leaves alone: the tables of the replica and the data of the store. *)
Record aborts r r' : Prop := {
  ab_pending : pendingTxns r' = pendingTxns r;
  ab_active : activeTxns r' = activeTxns r;
  ab_ok : store_ok (db r) → store_ok (db r');
  ab_data : store_ok (db r) → data (db r') = data (db r);
  ab_pre : store_ok (db r) → ∀ a, precommittedTxns (db r) !! a = None → precommittedTxns (db r') !! a = None
}.

#[local] Instance aborts_preorder : PreOrder aborts.
Proof.
  split; [by split|]. intros r1 r2 r3 [P1 A1 O1 D1 C1] [P2 A2 O2 D2 C2]. split; try congruence; auto.
  intros Ho. rewrite D2, D1; auto.
Qed.

(** The upcall of an abort. *)
Lemma abort_upcall tid r :
  store_ok (db r) →
  wp (upcall (LRReplica.AbortUpcall (SerializeToString (MkRequest StrongServer.ABORT tid None None None None))))
    (λ _ r', aborts r r' ∧ precommittedTxns (db r') !! tid = None) r.
Proof.
  intros Hok. pose proof (Abort_law tid (Transaction_of_msg (abort_txn (abort_of
    (MkRequest StrongServer.ABORT tid None None None None)))) (db r) Hok) as Hlaw.
  apply wp_run in Hlaw as (u & s' & Hrun & Hok' & Hdata & Hp & Hpc).
  apply wp_run. eexists _, _. split.
  { unfold upcall. simpl. unfold StrongServer.AbortUpcall, on_store, mbind, M_bind.
    rewrite parse_serialize. simpl in *. rewrite Hrun. done. }
  split; simpl.
  - split; try done. intros _ a Ha. simpl. rewrite Hpc. by rewrite lookup_delete_None; right.
  - rewrite Hpc. by rewrite lookup_delete_eq.
Qed.

(** A bound that suffices, and what the recursion has done when it returns: no path of that
    many dependencies starts at the transaction, and all that follow it are aborted. *)
Definition aborted_from r tid r' : Prop :=
  aborts r r' ∧ ∀ b, rtc (follows r) tid b → precommittedTxns (db r') !! b = None.

Definition short (fuel : nat) r tid : Prop := ∀ b, ¬ nsteps (follows r) fuel tid b.

Lemma short_child fuel r tid b : short (Datatypes.S fuel) r tid → follows r tid b → short fuel r b.
Proof. intros Hs Hb c Hc. apply (Hs c). by econstructor. Qed.

(** [F] decides between the two readings: with [False], a sufficient bound makes the recursion
    return; with [True], a recursion that returned had a sufficient bound. *)
Lemma cascade_post (F : Prop) fuel : ∀ r tid,
  store_ok (db r) → tables_ok r → (F ∨ short fuel r tid) →
  post F (cascade_abort fuel tid) (λ _ r', short fuel r tid ∧ aborted_from r tid r') r.
Proof.
  induction fuel as [|fuel IH]; intros r tid Hok Htab HF.
  { destruct HF as [HF|Hs]; [done|]. exfalso. apply (Hs tid). constructor. }
  cbn [cascade_abort]. apply post_bind. eapply post_mono; [by apply post_weaken, abort_upcall|].
  intros _ r1 [H1 Hpre]. apply post_get. destruct (pendingTxns r1 !! tid) as [req|] eqn:Hreq.
  2: { assert (∀ b, ¬ follows r tid b) as Hnone.
       { intros b ([x Hx] & _). rewrite (ab_pending _ _ H1) in Hreq. congruence. }
       split.
       - intros b Hb. inversion Hb; subst. by eapply Hnone.
       - split; [done|]. intros b Hb. inversion Hb as [|? c ? Hc]; subst; [done|]. by destruct (Hnone c). }
  assert (∃ t, activeTxns r !! tid = Some (Some t)) as [t Ht].
  { apply Htab. rewrite <- (ab_pending _ _ H1). by eexists. }
  assert (activeTxns r1 !! tid = Some (Some t)) as Ht1 by (by rewrite (ab_active _ _ H1)).
  set (r2 := r1 <| activeTxns ::= <[tid := Some t]> |>).
  assert (active_at tid r1 = Ok (Some t, r2)) as Hat by (unfold active_at, mbind, M_bind; simpl; by rewrite Ht1).
  run_with Hat.
  assert (aborts r r2) as H2.
  { etrans; [exact H1|]. split; try done. unfold r2. simpl. by rewrite insert_id. }
  run. eapply post_mono.
  - apply (post_for_each_each F _ _ aborts (λ out r', is_Some (activeTxns r !! out) → store_ok (db r') ∧
      short fuel r out ∧ ∀ b, rtc (follows r) out b → precommittedTxns (db r') !! b = None)).
    + intros out s1 s2 Hs1 Hs12 Hact. destruct (Hs1 Hact) as (Hok1 & Hsh & Hpc).
      split_and!; [by apply (ab_ok _ _ Hs12)|done|]. intros b Hb. apply (ab_pre _ _ Hs12); [done|by apply Hpc].
    + intros out s1 Hout Hs1. assert (aborts r s1) as Hrs by (by etrans).
      apply post_get. destruct (activeTxns s1 !! out) as [o|] eqn:Hact.
      * apply post_bind. eapply post_mono.
        { apply IH; [by apply (ab_ok _ _ Hrs)| |].
          - unfold tables_ok. by rewrite (ab_pending _ _ Hrs), (ab_active _ _ Hrs).
          - destruct HF as [HF|Hs]; [by left|right]. unfold short. rewrite (ab_pending _ _ Hrs), (ab_active _ _ Hrs).
            eapply short_child; [done|]. split_and!; [..|rewrite <- (ab_active _ _ Hrs); by eexists].
            + rewrite <- (ab_pending _ _ H1). by eexists.
            + by exists t. }
        intros _ s2 [Hsh [Hs12 Hpc]]. run. assert (aborts r s2) as Hr2 by (by etrans).
        unfold short in Hsh. rewrite (ab_pending _ _ Hrs), (ab_active _ _ Hrs) in Hsh, Hpc.
        split; [etrans; [exact Hs12|by split]|]. intros _. split_and!; [by apply (ab_ok _ _ Hr2)|exact Hsh|exact Hpc].
      * split; [by split|]. intros [o Ho]. rewrite <- (ab_active _ _ Hrs) in Ho. congruence.
  - intros _ r' [H3 Hall]. assert (aborts r r') as H4 by (by etrans). split.
    + intros b Hb. inversion Hb as [|? ? c ? Hc Hcb]; subst. destruct Hc as (_ & (t' & Ht' & Hin) & Hact).
      rewrite Ht in Ht'. injection Ht' as <-. destruct (Hall c Hin Hact) as (_ & Hsh & _). by apply (Hsh b).
    + split; [done|]. intros b Hb. inversion Hb as [|? c ? Hc Hcb]; subst.
      * apply (ab_pre _ _ H3); [by apply (ab_ok _ _ H2)|done].
      * destruct Hc as (_ & (t' & Ht' & Hin) & Hact). rewrite Ht in Ht'. injection Ht' as <-.
        destruct (Hall c Hin Hact) as (_ & _ & Hpc). by apply Hpc.
Qed.

(** ** Bounds and cycles *)

Definition acyclic_from r tid : Prop := ∀ a, rtc (follows r) tid a → ¬ tc (follows r) a a.

(** Transactions on a path are active and, without a cycle, distinct. *)
Lemma path_length r n : ∀ (V : gset Z) a b,
  V ⊆ dom (activeTxns r) → (∀ v, v ∈ V → tc (follows r) v a) → acyclic_from r a → a ∈ dom (activeTxns r) →
  nsteps (follows r) n a b → (n + size V + 1 ≤ size (activeTxns r))%nat.
Proof.
  induction n as [|n IH]; intros V a b HV Htc Hac Ha Hn.
  - assert (a ∉ V) as HaV by (intros Hin; by destruct (Hac a); [|apply Htc]).
    rewrite <- size_dom. assert ({[a]} ∪ V ⊆ dom (activeTxns r)) as Hsub by set_solver.
    apply subseteq_size in Hsub. rewrite size_union, size_singleton in Hsub by set_solver. lia.
  - inversion Hn as [|? ? c ? Hac' Hcb]; subst.
    assert (a ∉ V) as HaV by (intros Hin; by destruct (Hac a); [|apply Htc]).
    enough (n + size ({[a]} ∪ V) + 1 ≤ size (activeTxns r))%nat as Hle.
    { rewrite size_union, size_singleton in Hle by set_solver. lia. }
    apply (IH _ c b); [set_solver| | |by apply elem_of_dom, Hac'|done].
    + intros v [->%elem_of_singleton|Hv]%elem_of_union; [by apply tc_once|]. eapply tc_r; [by apply Htc|done].
    + intros x Hx. apply Hac. by eapply rtc_l.
Qed.

Lemma acyclic_short r tid : tables_ok r → acyclic_from r tid → short (size (activeTxns r) + 2) r tid.
Proof.
  intros Htab Hac b Hb. replace (size (activeTxns r) + 2)%nat with (Datatypes.S (size (activeTxns r) + 1)) in Hb by lia.
  inversion Hb as [|? ? c ? Hc _]; subst. assert (tid ∈ dom (activeTxns r)) as Hd.
  { destruct Hc as (_ & (t & Ht & _) & _). apply elem_of_dom. by eexists. }
  pose proof (path_length r _ ∅ tid b ltac:(set_solver) ltac:(set_solver) Hac Hd Hb). lia.
Qed.

(** A cycle has paths of any length. *)
Lemma cycle_long r x : tc (follows r) x x → ∀ n tid, rtc (follows r) tid x → ∃ b, nsteps (follows r) n tid b.
Proof.
  intros Hx. induction n as [|n IH]; intros tid Hr; [by exists tid; constructor|].
  assert (∃ c, follows r tid c ∧ rtc (follows r) c x) as (c & Hc & Hcx).
  { inversion Hr as [|? c ? Hc Hcx]; subst; [|by exists c].
    inversion Hx as [? ? Hxx|? c ? Hc Hcx]; subst; [by exists x|]. exists c. split; [done|by apply tc_rtc]. }
  destruct (IH c Hcx) as [b Hb]. exists b. by econstructor.
Qed.

Lemma short_acyclic fuel r tid : short fuel r tid → acyclic_from r tid.
Proof. intros Hs x Hx Hcyc. destruct (cycle_long r x Hcyc fuel tid Hx) as [b Hb]. by apply (Hs b). Qed.

(** A larger bound changes nothing. *)
Lemma cascade_more fuel : ∀ fuel' tid, (fuel ≤ fuel')%nat → extends (cascade_abort fuel tid) (cascade_abort fuel' tid).
Proof.
  induction fuel as [|fuel IH]; intros fuel' tid Hle; [by intros s p|].
  destruct fuel' as [|fuel']; [lia|]. cbn [cascade_abort].
  apply extends_bind; [reflexivity|]. intros _. apply extends_bind; [reflexivity|]. intros r.
  destruct (pendingTxns r !! tid); [|reflexivity].
  apply extends_bind; [reflexivity|]. intros o. apply extends_bind; [reflexivity|]. intros t.
  apply extends_for_each. intros out. apply extends_bind; [reflexivity|]. intros r1.
  destruct (activeTxns r1 !! out); [|reflexivity]. apply extends_bind; [apply IH; lia|]. intros _. reflexivity.
Qed.

(** C17: Cascading aborts end exactly when they can, and then reach everything.  With pending
    transactions active, the recursion of the code returns for some depth exactly when no cycle of
    dependencies is reachable from the transaction; the depth [CascadeAbort] allows is enough
    whenever any is; and when it returns, every transaction that depends on this one, directly or
    not, has lost its pre-commit and the data of the store is what it was. *)
Theorem cascade_abort_terminates r tid :
  store_ok (db r) → tables_ok r →
  ((∃ fuel, returns (cascade_abort fuel tid r)) ↔ acyclic_from r tid) ∧
  (∀ fuel p, cascade_abort fuel tid r = Ok p → CascadeAbort tid r = Ok p) ∧
  (∀ r', CascadeAbort tid r = Ok (tt, r') →
     data (db r') = data (db r) ∧ ∀ a, rtc (follows r) tid a → precommittedTxns (db r') !! a = None).
Proof.
  intros Hok Htab.
  assert (∀ fuel p, cascade_abort fuel tid r = Ok p → short fuel r tid ∧ aborted_from r tid p.2) as Hshort.
  { intros fuel [u r'] Hrun. pose proof (cascade_post True fuel r tid Hok Htab (or_introl I)) as Hp.
    by apply (proj1 (wlp_run _ _ _) Hp) in Hrun. }
  assert (acyclic_from r tid → ∃ p, CascadeAbort tid r = Ok p) as Hret.
  { intros Hac. pose proof (cascade_post False _ r tid Hok Htab (or_intror (acyclic_short r tid Htab Hac))) as Hp.
    apply wp_run in Hp as (u & r' & Hrun & _). by exists (u, r'). }
  split_and!.
  - split; [intros (fuel & p & Hrun); by eapply short_acyclic, Hshort|].
    intros Hac. destruct (Hret Hac) as [p Hp]. by exists (size (activeTxns r) + 2)%nat, p.
  - intros fuel p Hrun. destruct (Hret (short_acyclic _ _ _ (proj1 (Hshort _ _ Hrun)))) as [q Hq]. rewrite Hq.
    unfold CascadeAbort in Hq. change (cascade_abort (size (activeTxns r) + 2) tid r = Ok q) in Hq.
    set (n := (size (activeTxns r) + 2)%nat) in *.
    apply (cascade_more fuel (fuel `max` n) tid ltac:(lia)) in Hrun.
    apply (cascade_more n (fuel `max` n) tid ltac:(lia)) in Hq. congruence.
  - intros r' Hrun. destruct (Hshort _ (tt, r') Hrun) as [_ [Ha Hpc]]. split; [by apply (ab_data _ _ Ha)|done].
Qed.
End cascade.

(** ** Example *)

#[local] Existing Instances request_codec reply_codec request_codec_law default_order demo_clock reliable.

(** Transaction 2 read what 1 pre-committed, 3 what 2 pre-committed. *)
Definition demo_dependencies : LRReplica (Server AnyStore) :=
  let txn w := Transaction.addWriteSet "x" w Transaction_default in
  demo_replica 0
    <| LRReplica.app := MkServer MODE_OCC MODE_PARALLEL
         (inl (OCCStore.MkOCCStore demo_data ∅ {[1 := txn "1"; 2 := txn "2"; 3 := txn "3"]})) |>
    <| pendingTxns := {[1 := PendingTransaction_new None 2 0 1 [0] 0; 2 := PendingTransaction_new None 2 1 2 [0] 0]} |>
    <| activeTxns := {[1 := Some (addOut 2 (txn "1")); 2 := Some (addOut 3 (txn "2")); 3 := Some (txn "3")]} |>.

Lemma demo_dependencies_ok : tables_ok demo_dependencies.
Proof.
  intros a [q Hq]. change (pendingTxns demo_dependencies) with ({[1 := PendingTransaction_new None 2 0 1 [0] 0;
    2 := PendingTransaction_new None 2 1 2 [0] 0]} : gmap Z PendingTransaction) in Hq.
  destruct (decide (a = 1)) as [->|Hne1]; [by eexists|]. destruct (decide (a = 2)) as [->|Hne2]; [by eexists|].
  by rewrite lookup_insert_ne, lookup_singleton_ne in Hq by congruence.
Qed.

Lemma demo_1_2 : depends (pendingTxns demo_dependencies) (activeTxns demo_dependencies) 1 2.
Proof.
  split; [by eexists|]. split; [|by eexists]. eexists. split; [reflexivity|]. apply list_elem_of_singleton. reflexivity.
Qed.

Lemma demo_2_3 : depends (pendingTxns demo_dependencies) (activeTxns demo_dependencies) 2 3.
Proof.
  split; [by eexists|]. split; [|by eexists]. eexists. split; [reflexivity|]. apply list_elem_of_singleton. reflexivity.
Qed.

Lemma cascade_abort_terminates_witness :
  ∃ r', CascadeAbort 1 demo_dependencies = Ok (tt, r') ∧ data (store (LRReplica.app r')) = demo_data ∧
    precommittedTxns (store (LRReplica.app r')) !! 3 = None.
Proof.
  destruct (cascade_abort_terminates demo_dependencies 1) as (_ & Hsame & Hdone).
  - exact demo_data_wf.
  - exact demo_dependencies_ok.
  - destruct (cascade_abort 3 1 demo_dependencies) as [[[] r']| |] eqn:Hrun; [|vm_compute in Hrun; discriminate..].
    pose proof (Hsame _ _ Hrun) as Hc. destruct (Hdone _ Hc) as [Hdata Hpc].
    exists r'. split; [exact Hc|]. split; [exact Hdata|]. apply Hpc.
    apply (rtc_l _ 1 2 3); [exact demo_1_2|]. apply (rtc_l _ 2 3 3); [exact demo_2_3|]. constructor.
Defined.
