(* ===== verification/Promise.v ===== *)
(** Promises: [store/common/promise.h] and [promise.cc].

    A promise is where the thread of the application waits for an answer and where the
    callbacks of the network thread leave it.  A method that waits on the condition
    variable returns [None] as long as the promise is not done.  [tid] and
    [participantNumber] have a value only when the constructor for prepares set them; reading
    them before is [Undefined].  The mutex serialises the methods and is left out, as is the
    condition variable. *)

From S2P Require Import Prelude Timestamp Transaction.

Record Promise := MkPromise {
  done : bool;
  timeout : Z;
  reply : Z;
  p_tid : option Z;
  preparereplies : gmap Z Z;
  participantNumber : option Z;
  reachFinalDecision : bool;
  fail : bool;
  p_timestamp : Timestamp;
  p_value : string
}.

#[global] Instance Promise_eta : Eta Promise := λ p,
  MkPromise (done p) (timeout p) (reply p) (p_tid p) (preparereplies p) (participantNumber p)
    (reachFinalDecision p) (fail p) (p_timestamp p) (p_value p).

Definition Promise_ms (timeoutMS : Z) : Promise :=
  MkPromise false timeoutMS 0 None ∅ None false false Timestamp0 "".

Definition Promise_default : Promise := Promise_ms 1000.

Definition Promise_prepare (id : Z) (participants : list Z) (timeoutMS : Z) : Promise :=
  MkPromise false timeoutMS 0 (Some id) ∅ (Some (to_int (Z.of_nat (length participants)))) false false
    Timestamp0 "".

Definition GetTimeout (p : Promise) : Z := timeout p.

Definition GetTid (p : Promise) : res Z :=
  match p_tid p with Some id => Ok id | None => Undefined end.

Definition HasReachFinalDecision (p : Promise) : bool := reachFinalDecision p.

(** ** Replies *)

Definition ReplyInternal (r : Z) (p : Promise) : Promise :=
  p <| done := true |> <| reply := r |>.

(** [Reply(int r)]. *)
Definition Reply (r : Z) (p : Promise) : Promise := ReplyInternal r p.

(** [Reply(int r, Timestamp t)] and [Reply(int r, Timestamp t, bool p)], which do the same. *)
Definition Reply_final (r : Z) (t : Timestamp) (p : Promise) : Promise :=
  ReplyInternal r (p <| reachFinalDecision := true |> <| p_timestamp := t |>).

Definition Reply_parallel (r : Z) (t : Timestamp) (_ : bool) (p : Promise) : Promise :=
  ReplyInternal r (p <| reachFinalDecision := true |> <| p_timestamp := t |>).

(** [Reply(int r, string v)]. *)
Definition Reply_value (r : Z) (v : string) (p : Promise) : Promise :=
  ReplyInternal r (p <| p_value := v |>).

(** [Reply(int r, Timestamp t, string v)]. *)
Definition Reply_read (r : Z) (t : Timestamp) (v : string) (p : Promise) : Promise :=
  ReplyInternal r (p <| p_value := v |> <| p_timestamp := t |>).

(** [Reply(int s, int r, Timestamp t)]: the answer of shard [s] to a prepare. *)
Definition Reply_shard (s r : Z) (t : Timestamp) (p : Promise) : res Promise :=
  if negb (r =? REPLY_OK) then Ok (Reply r (p <| fail := true |>))
  else
    let p1 := p <| preparereplies ::= <[s := r]> |> in
    let p2 := if ts_lt (p_timestamp p1) t then p1 <| p_timestamp := t |> else p1 in
    match participantNumber p2 with
    | None => Undefined
    | Some n =>
        Ok (if Z.of_nat (size (preparereplies p2)) =? u64 n then p2 <| done := true |> else p2)
    end.

(** ** Waiting for the answer *)

Definition when_done {A} (a : A) (p : Promise) : option A := if done p then Some a else None.

Definition GetReply (p : Promise) : option Z := when_done (reply p) p.

Definition GetTimestamp (p : Promise) : option Timestamp := when_done (p_timestamp p) p.

Definition GetValue (p : Promise) : option string := when_done (p_value p) p.

Fixpoint first_refusal (l : list (Z * Z)) : option Z :=
  match l with
  | [] => None
  | x :: l' => if negb (x.2 =? REPLY_OK) then Some x.2 else first_refusal l'
  end.

Definition GetPrepareReply `{HashOrder} (p : Promise) : option Z :=
  when_done
    (if fail p then reply p
     else if reachFinalDecision p then reply p
     else default REPLY_OK (first_refusal (hash_order (preparereplies p)))) p.

Definition Reset (p : Promise) : Promise := p <| done := false |>.

(** ** Answers of shards, in any order and number *)

(** A shard, its answer and its timestamp. *)
Abbreviation answer := (Z * Z * Timestamp)%type.

Fixpoint answers (l : list answer) (p : Promise) : res Promise :=
  match l with
  | [] => Ok p
  | (s, r, t) :: l' => p' ← Reply_shard s r t p; answers l' p'
  end.

(** What the promise is meant to compute from the answers [l] of the shards when it waits
    for [n] of them: the last refusal if there is one; agreement when enough distinct
    shards agreed; otherwise nothing yet. *)
Definition refusals (l : list answer) : list Z :=
  filter (λ r, r ≠ REPLY_OK) ((λ a, a.1.2) <$> l).

Definition agreeing (l : list answer) : gset Z :=
  list_to_set ((λ a, a.1.1) <$> filter (λ a, a.1.2 = REPLY_OK) l).

Definition verdict (n : nat) (l : list answer) : option Z :=
  match last (refusals l) with
  | Some r => Some r
  | None => if bool_decide (n ≤ size (agreeing l))%nat then Some REPLY_OK else None
  end.

(** What the members of a prepare promise hold after the answers [l]. *)
Record tallied (n : nat) (l : list answer) (p : Promise) : Prop := {
  tallied_number : participantNumber p = Some (Z.of_nat n);
  tallied_votes : preparereplies p = gset_to_gmap REPLY_OK (agreeing l);
  tallied_fail : fail p = true ↔ refusals l ≠ [];
  tallied_reply : default 0 (last (refusals l)) = reply p;
  tallied_final : reachFinalDecision p = false;
  tallied_done : done p = true ↔ refusals l ≠ [] ∨ (n ≤ size (agreeing l))%nat;
  tallied_bound : ∀ s t, (s, REPLY_OK, t) ∈ l → t ≤ₜ p_timestamp p;
  tallied_attained : p_timestamp p = Timestamp0 ∨ ∃ s, (s, REPLY_OK, p_timestamp p) ∈ l
}.

Lemma refusals_snoc l s r t :
  refusals (l ++ [(s, r, t)]) = if decide (r ≠ REPLY_OK) then refusals l ++ [r] else refusals l.
Proof.
  unfold refusals. rewrite fmap_app, filter_app. simpl. rewrite filter_cons, filter_nil.
  case_decide; [done|]. apply app_nil_r.
Qed.

Lemma agreeing_snoc l s r t :
  agreeing (l ++ [(s, r, t)]) = if decide (r = REPLY_OK) then {[s]} ∪ agreeing l else agreeing l.
Proof.
  unfold agreeing. rewrite filter_app, filter_cons, filter_nil. simpl.
  case_decide; rewrite fmap_app, list_to_set_app_L; simpl; set_solver.
Qed.

Lemma answers_snoc l s r t p :
  answers (l ++ [(s, r, t)]) p = p' ← answers l p; Reply_shard s r t p'.
Proof.
  revert p. induction l as [|[[s' r'] t'] l IH]; intros p; simpl.
  - by destruct (Reply_shard s r t p).
  - destruct (Reply_shard s' r' t' p); simpl; [apply IH|done..].
Qed.

Lemma tallied_new id ps ms :
  (0 < length ps)%nat → Z.of_nat (length ps) < 2 ^ 31 →
  tallied (length ps) [] (Promise_prepare id ps ms).
Proof.
  intros Hn Hb. split; simpl; try done.
  - rewrite to_int_small by lia. done.
  - split; [done|]. unfold agreeing, refusals. simpl. intros [[]|H]; [done|]. exfalso. by apply Nat.le_ngt in H.
  - set_solver.
  - by left.
Qed.

Lemma tallied_refuse n l p s r t :
  r ≠ REPLY_OK → tallied n l p → tallied n (l ++ [(s, r, t)]) (Reply r (p <| fail := true |>)).
Proof.
  intros Hr [].
  assert (refusals (l ++ [(s, r, t)]) = refusals l ++ [r]) as Href by (rewrite refusals_snoc; by case_decide).
  assert (agreeing (l ++ [(s, r, t)]) = agreeing l) as Hagr by (rewrite agreeing_snoc; by case_decide).
  split; rewrite ?Href, ?Hagr; simpl; try done.
  - split; [|done]. intros _ [_ ?]%app_eq_nil. done.
  - by rewrite last_snoc.
  - split; [|done]. intros _. left. intros [_ ?]%app_eq_nil. done.
  - intros s' t' [?|[= -> <- ->]%list_elem_of_singleton]%elem_of_app; [eauto|done].
  - destruct tallied_attained0 as [?|[s' ?]]; [by left|]. right. exists s'. set_solver.
Qed.

Lemma size_union_singleton (s : Z) (X : gset Z) :
  (size X ≤ size ({[s]} ∪ X) ≤ S (size X))%nat.
Proof.
  destruct (decide (s ∈ X)) as [Hs|Hs].
  - replace ({[s]} ∪ X) with X by set_solver. lia.
  - rewrite size_union, size_singleton by set_solver. lia.
Qed.

Lemma later_bound (l : list answer) s t now :
  (∀ s t, (s, REPLY_OK, t) ∈ l → t ≤ₜ now) →
  ∀ s' t', (s', REPLY_OK, t') ∈ l ++ [(s, REPLY_OK, t)] → t' ≤ₜ if ts_lt now t then t else now.
Proof.
  intros Hb s' t' [Hin|[= -> ->]%list_elem_of_singleton]%elem_of_app.
  - specialize (Hb _ _ Hin). destruct (ts_lt now t) eqn:E; [|done].
    apply ts_lt_spec in E. etrans; [done|]. by apply TsLt_le.
  - destruct (ts_lt now t) eqn:E; [done|]. by apply ts_lt_false.
Qed.

Lemma later_attained (l : list answer) s t now :
  now = Timestamp0 ∨ (∃ s, (s, REPLY_OK, now) ∈ l) →
  let later := if ts_lt now t then t else now in
  later = Timestamp0 ∨ ∃ s', (s', REPLY_OK, later) ∈ l ++ [(s, REPLY_OK, t)].
Proof.
  intros Hnow. simpl. destruct (ts_lt now t); [right; exists s; set_solver|].
  destruct Hnow as [?|[s' ?]]; [by left|]. right. exists s'. set_solver.
Qed.

Lemma tallied_agree n l p s t :
  (0 < n)%nat → Z.of_nat n < 2 ^ 31 → tallied n l p →
  ∃ p', Reply_shard s REPLY_OK t p = Ok p' ∧ tallied n (l ++ [(s, REPLY_OK, t)]) p'.
Proof.
  intros Hn Hb []. unfold Reply_shard. rewrite Z.eqb_refl. cbn [negb].
  set (p1 := p <| preparereplies ::= <[s := REPLY_OK]> |>).
  set (p2 := if ts_lt (p_timestamp p1) t then p1 <| p_timestamp := t |> else p1).
  assert (preparereplies p2 = gset_to_gmap REPLY_OK ({[s]} ∪ agreeing l)) as Hvotes.
  { rewrite gset_to_gmap_union_singleton. unfold p2. case_match; simpl; by f_equal. }
  assert (p_timestamp p2 = if ts_lt (p_timestamp p) t then t else p_timestamp p) as Hts.
  { unfold p2, p1. simpl. by case_match. }
  assert (participantNumber p2 = Some (Z.of_nat n) ∧ fail p2 = fail p ∧ reply p2 = reply p ∧
    reachFinalDecision p2 = false ∧ done p2 = done p) as (Hnum & Hfail & Hreply & Hfinal & Hdone).
  { unfold p2. by destruct (ts_lt (p_timestamp p1) t). }
  clearbody p2. clear p1. rewrite Hnum, Hvotes. eexists. split; [done|].
  rewrite u64_small by (unfold is_u64, u64_modulus; lia).
  replace (size (gset_to_gmap REPLY_OK ({[s]} ∪ agreeing l))) with (size ({[s]} ∪ agreeing l))
    by (by rewrite <- size_dom, dom_gset_to_gmap).
  pose proof (size_union_singleton s (agreeing l)).
  assert (refusals (l ++ [(s, REPLY_OK, t)]) = refusals l) as Href by (rewrite refusals_snoc; by case_decide).
  assert (agreeing (l ++ [(s, REPLY_OK, t)]) = {[s]} ∪ agreeing l) as Hagr
    by (rewrite agreeing_snoc; by case_decide).
  destruct (Z.of_nat (size ({[s]} ∪ agreeing l)) =? Z.of_nat n) eqn:Hsize;
    (split; rewrite ?Href, ?Hagr; simpl; rewrite ?Hfail, ?Hreply, ?Hdone, ?tallied_done0; try done).
  1: split; [right; lia|done].
  3: split; (intros [?|?]; [by left|right; lia]).
  all: rewrite ?Hts; first [by apply later_bound|by apply later_attained].
Qed.

Lemma answers_tallied id ps ms l :
  (0 < length ps)%nat → Z.of_nat (length ps) < 2 ^ 31 →
  ∃ p, answers l (Promise_prepare id ps ms) = Ok p ∧ tallied (length ps) l p.
Proof.
  intros Hn Hb. induction l as [|[[s r] t] l (p & Hp & Ht)] using rev_ind.
  { eexists. split; [done|]. by apply tallied_new. }
  rewrite answers_snoc, Hp. simpl. destruct (decide (r = REPLY_OK)) as [->|Hr].
  - by apply tallied_agree.
  - unfold Reply_shard. rewrite (proj2 (Z.eqb_neq _ _)) by done. eexists. split; [done|].
    by apply tallied_refuse.
Qed.

Lemma first_refusal_all_ok l : (∀ s r, (s, r) ∈ l → r = REPLY_OK) → first_refusal l = None.
Proof.
  induction l as [|[s r] l IH]; intros Hl; [done|]. simpl.
  rewrite (Hl s r) by set_solver. simpl. apply IH. set_solver.
Qed.

Lemma tallied_verdict `{HashOrder} n l p : tallied n l p → GetPrepareReply p = verdict n l.
Proof.
  intros []. unfold GetPrepareReply, verdict, when_done.
  destruct (last (refusals l)) as [r|] eqn:Hl.
  - assert (refusals l ≠ []) as Hr by (intros Hr; by rewrite Hr in Hl).
    rewrite (proj2 tallied_done0), (proj2 tallied_fail0) by auto. by rewrite <- tallied_reply0.
  - apply last_None in Hl. assert (fail p = false) as -> by (destruct (fail p); naive_solver).
    rewrite tallied_final0, first_refusal_all_ok.
    + case_bool_decide; destruct (done p); naive_solver.
    + intros s r. rewrite elem_of_hash_order, tallied_votes0. by intros [_ ->]%lookup_gset_to_gmap_Some.
Qed.

(** The answer of a prepare promise is the one its answers call for, in whatever order and however
    often they arrive: the last refusal if some shard refused, [REPLY_OK] exactly when no shard
    refused and as many distinct shards agreed as there are participants, and otherwise the
    application keeps waiting.  The timestamp it then reads is the largest that an agreeing
    shard proposed. *)
Theorem promise_reply_unanimous (HO : HashOrder) (id : Z) (participants : list Z) (ms : Z)
    (l : list answer) :
  (0 < length participants)%nat → Z.of_nat (length participants) < 2 ^ 31 →
  ∃ p, answers l (Promise_prepare id participants ms) = Ok p ∧
    GetPrepareReply p = verdict (length participants) l ∧
    (∀ s t, (s, REPLY_OK, t) ∈ l → t ≤ₜ p_timestamp p) ∧
    (p_timestamp p = Timestamp0 ∨ ∃ s, (s, REPLY_OK, p_timestamp p) ∈ l).
Proof.
  intros Hn Hb. destruct (answers_tallied id participants ms l Hn Hb) as (p & Hp & Ht).
  exists p. split_and!; [done|by apply tallied_verdict|apply Ht..].
Qed.

Lemma promise_reply_unanimous_witness :
  ∃ p, answers [(4, REPLY_OK, MkTimestamp 7 0); (4, REPLY_OK, MkTimestamp 3 0); (9, REPLY_OK, MkTimestamp 5 0)]
      (Promise_prepare 1 [4; 9] 1000) = Ok p ∧
    @GetPrepareReply default_order p = Some REPLY_OK ∧ p_timestamp p = MkTimestamp 7 0.
Proof.
  destruct (promise_reply_unanimous default_order 1 [4; 9] 1000
    [(4, REPLY_OK, MkTimestamp 7 0); (4, REPLY_OK, MkTimestamp 3 0); (9, REPLY_OK, MkTimestamp 5 0)])
    as (p & Hp & Hr & _); [simpl; lia|done|].
  exists p. split_and!; [done|rewrite Hr; vm_compute; reflexivity|].
  vm_compute in Hp. by injection Hp as <-.
Defined.
