(* ===== verification/LRClient.v ===== *)
(** The replication client of one shard: [replication/lr/client.h] and [client.cc].

    It sends the requests of a client to the replicas of a shard and calls a continuation when
    the answer is there.  Requests of the two kinds that share the table [pendingReqs] are
    told apart by [dynamic_cast], which yields null for the other kind (the [ASSERT]s behind
    it are not compiled), or by [static_cast], which is undefined for the other kind.

    The continuations are functions that the shard client binds; a call of one is recorded in
    [invoked], and [ShardClient] says what the call does.  Every attempt to send is recorded
    with its result.  A timer calls its callback with the id of the transaction as long as it
    runs, so a run is a sequence of operations, messages and callbacks.  A callback that deletes
    its request also deletes the [Timeout] whose function is running; here the request is erased,
    and nothing is said about what the destroyed object does when the function returns. *)

From S2P Require Import LRLog QuorumSet LRReplica.
From S2P Require Import Prelude Timestamp Transaction.

(** ** Data *)

Inductive error_continuation := GetTimeoutCont | PrepareTimeoutCont.

Inductive invocation :=
| CallPrepare (tid shard state timestamp : Z)
| CallGet (readKey : list (string * Z)) (values : list string) (state : Z)
| CallParallel (tid state timestamp : Z)
| CallError (k : error_continuation) (tid : Z).

(** [struct PendingPrepare]; [state] has no initial value, [send_confirms] is never used, and
    [continuationInvoked] is set only right before the request is deleted. *)
Record PendingPrepare := MkPendingPrepare {
  p_txn : Transaction;
  p_leader : Z;
  p_error : option error_continuation;
  p_state : option LogEntryState;
  p_ts : Z;
  replicaReplies : gmap Z LogEntryState;
  reachFaultTolerance : bool;
  p_timer : bool
}.

#[global] Instance PendingPrepare_eta : Eta PendingPrepare := λ r,
  MkPendingPrepare (p_txn r) (p_leader r) (p_error r) (p_state r) (p_ts r) (replicaReplies r)
    (reachFaultTolerance r) (p_timer r).

Definition PendingPrepare_new (leader : Z) (txn : Transaction) (e : option error_continuation) :
    PendingPrepare :=
  MkPendingPrepare txn (to_int leader) e None 0 ∅ false false.

Record PendingGetDataRequest := MkPendingGetDataRequest { g_error : option error_continuation }.

(** The entries of [pendingReqs]. *)
Inductive PendingRequest :=
| ReqPrepare (r : PendingPrepare)
| ReqGetData (r : PendingGetDataRequest).

Record PendingParallelCommitRequest := MkPendingParallelCommitRequest {
  pc_participants : list Z;
  pc_error : option error_continuation
}.

Inductive client_out :=
| OutPrepare (m : PrepareTransaction)
| OutGetData (m : GetData)
| OutParallelCommit (m : ParallelModeCommit)
| OutCommit (m : Commit).

Inductive client_sent := ToReplica (replica : Z) (m : client_out) | ToAll (m : client_out).

(** [class LRClient]. *)
Record LRClient := MkLRClient {
  config : Configuration;
  clientid : Z;
  lc_mode : TpcMode;
  pendingReqs : gmap Z PendingRequest;
  pendingParallelCommits : gmap Z PendingParallelCommitRequest;
  lc_sends : list (client_sent * bool);
  invoked : list invocation
}.

#[global] Instance LRClient_eta : Eta LRClient := λ c,
  MkLRClient (config c) (clientid c) (lc_mode c) (pendingReqs c) (pendingParallelCommits c) (lc_sends c)
    (invoked c).

Definition LRClient_new (config : Configuration) (mode : TpcMode) (clientid : Z) : LRClient :=
  MkLRClient config clientid mode ∅ ∅ [] [].

Section client.
Context `{!Network}.

Abbreviation MC := (M LRClient).

Definition transport_send (x : client_sent) : MC bool := λ c,
  let ok := send_ok (length (lc_sends c)) in Ok (ok, c <| lc_sends ::= (λ l, l ++ [(x, ok)]) |>).

Definition invoke (i : invocation) : MC unit := modify (λ c, c <| invoked ::= (λ l, l ++ [i]) |>).

Definition store_req (tid : Z) (r : PendingRequest) : MC unit :=
  modify (λ c, c <| pendingReqs ::= <[tid := r]> |>).

Definition erase_req (tid : Z) : MC unit := modify (λ c, c <| pendingReqs ::= delete tid |>).

Definition erase_parallel (tid : Z) : MC unit :=
  modify (λ c, c <| pendingParallelCommits ::= delete tid |>).

(** The two casts. *)
Definition as_prepare (r : PendingRequest) : option PendingPrepare :=
  match r with ReqPrepare p => Some p | ReqGetData _ => None end.

Definition as_get (r : PendingRequest) : option PendingGetDataRequest :=
  match r with ReqPrepare _ => None | ReqGetData g => Some g end.

(** ** Prepare *)

(** The [switch] has no case for [MODE_RC]; an unset [CommitMode] is [MODE_SLOW]. *)
Definition mode_field (m : TpcMode) : CommitMode :=
  match m with
  | MODE_SLOW => CM_SLOW
  | MODE_FAST => CM_FAST
  | MODE_PARALLEL => CM_PARALLEL
  | MODE_CAROUSEL => CM_CAROUSEL
  | MODE_RC => CM_SLOW
  end.

Definition broadcasts (m : TpcMode) : bool :=
  bool_decide (m = MODE_CAROUSEL) || bool_decide (m = MODE_RC).

Definition SendPrepare `{HashOrder} (leader : Z) (req : PendingPrepare) : MC unit :=
  id ← deref (getID (p_txn req));
  ps ← deref (getPrimaryShard (p_txn req));
  c ← get_st;
  let reqMsg := OutPrepare
    {| pr_tid := id;
       pr_wset := (λ wp, MkWriteSet wp.1 wp.2) <$> hash_order (getWriteSet (p_txn req));
       pr_rset := (λ rp, MkReadSet rp.1 (ts_id rp.2) (timestamp rp.2)) <$> hash_order (getReadSet (p_txn req));
       pr_participants := getParticipants (p_txn req);
       pr_primaryShard := ps;
       pr_mode := mode_field (lc_mode c) |} in
  ok ← transport_send (if broadcasts (lc_mode c) then ToAll reqMsg else ToReplica leader reqMsg);
  if (ok : bool) then store_req id (ReqPrepare (req <| p_timer := true |>)) else erase_req id.

Definition InvokePrepare `{HashOrder} (sub_txn : Transaction) (leader : Z) (e : option error_continuation) :
    MC unit :=
  tid ← deref (getID sub_txn);
  let req := PendingPrepare_new leader sub_txn e in
  _ ← store_req tid (ReqPrepare req);
  SendPrepare leader req.

(** Both time-out callbacks: the entry found must be of the kind the callback casts to. *)
Definition PrepareTimeoutCallback (tid : Z) : MC unit :=
  c ← get_st;
  match pendingReqs c !! tid with
  | None => mret tt
  | Some r =>
      req ← deref (as_prepare r);
      _ ← erase_req tid;
      match p_error req with Some k => invoke (CallError k tid) | None => mret tt end
  end.

Definition count_votes (ok : bool) (replies : gmap Z LogEntryState) : Z :=
  map_sum (λ st, if eqb (bool_decide (st = LOG_STATE_PREPAREOK)) ok then 1 else 0) replies.

Definition CarouselCheck (cfg : Configuration) (req : PendingPrepare) : bool * PendingPrepare :=
  if reachFaultTolerance req then (true, req)
  else
    let superMajority := FastQuorumSize cfg in
    if Z.of_nat (size (replicaReplies req)) >=? u64 superMajority then
      let okCount := count_votes true (replicaReplies req) in
      let failCount := count_votes false (replicaReplies req) in
      let leaderReply := bool_decide (is_Some (replicaReplies req !! u64 (p_leader req))) in
      if (okCount >=? superMajority) && leaderReply then (true, req <| p_state := Some LOG_STATE_PREPAREOK |>)
      else if (failCount >=? superMajority) && leaderReply then (true, req <| p_state := Some LOG_STATE_ABORT |>)
      else (false, req)
    else (false, req).

Definition RCCheck (cfg : Configuration) (req : PendingPrepare) : bool * PendingPrepare :=
  let majority := QuorumSize cfg in
  if Z.of_nat (size (replicaReplies req)) >=? u64 majority then
    let okCount := count_votes true (replicaReplies req) in
    let failCount := count_votes false (replicaReplies req) in
    if okCount >=? majority then (true, req <| p_state := Some LOG_STATE_PREPAREOK |>)
    else if failCount >=? majority then (true, req <| p_state := Some LOG_STATE_ABORT |>)
    else (false, req)
  else (false, req).

(** The part of the handler that decides whether the answer is there: the request with the
    reply recorded, and whether to call the continuation.  In Carousel mode a reply of the
    leader that says it has replicated the transaction is noted, and takes effect at the next
    reply. *)
Definition record_reply (cfg : Configuration) (mode : TpcMode) (msg : PrepareTransactionReply)
    (req : PendingPrepare) : bool * PendingPrepare :=
  if broadcasts mode then
    let req1 := req <| replicaReplies ::= <[ptr_replica msg := ptr_state msg]> |>
                    <| p_ts ::= Z.max (ptr_timestamp msg) |> in
    if decide (mode = MODE_CAROUSEL) then
      let '(enough, req2) := CarouselCheck cfg req1 in
      if enough then (true, req2)
      else if ptr_reachFaultTolerance msg =? 1 then
        (false, req2 <| p_state := Some (ptr_state msg) |> <| LRClient.reachFaultTolerance := true |>
                     <| p_ts := ptr_timestamp msg |>)
      else (false, req2)
    else RCCheck cfg req1
  else (true, req <| p_state := Some (ptr_state msg) |> <| p_ts := ptr_timestamp msg |>).

Definition HandlePrepareTxnReply (msg : PrepareTransactionReply) : MC unit :=
  let tid := ptr_tid msg in
  c ← get_st;
  match pendingReqs c !! tid with
  | None => mret tt
  | Some r =>
      req ← deref (as_prepare r);
      let '(enough, req') := record_reply (config c) (lc_mode c) msg req in
      if (enough : bool) then
        st ← deref (p_state req');
        _ ← invoke (CallPrepare tid (ptr_shard msg)
                      (if decide (st = LOG_STATE_PREPAREOK) then 0 else 1) (p_ts req'));
        erase_req tid
      else store_req tid (ReqPrepare req')
  end.

(** ** Commit in the parallel mode *)

Definition InvokeParallelCommit (tid : Z) (participants : list Z) (replica_id : Z)
    (e : option error_continuation) : MC unit :=
  ok ← transport_send (ToReplica replica_id (OutParallelCommit (MkParallelModeCommit tid participants)));
  when ok (modify (λ c, c <| pendingParallelCommits ::=
                          <[tid := MkPendingParallelCommitRequest participants e]> |>)).

(** The callback of its timer. *)
Definition ParallelModeCommit_timeout (tid : Z) : MC unit :=
  c ← get_st;
  match pendingParallelCommits c !! tid with
  | None => mret tt
  | Some req =>
      _ ← erase_parallel tid;
      match pc_error req with Some k => invoke (CallError k tid) | None => mret tt end
  end.

(** The numbers of [enum LogEntryState] and [enum ReplyState]. *)
Definition state_int (st : LogEntryState) : Z :=
  match st with
  | LOG_STATE_COMMIT => 0
  | LOG_STATE_ABORT => 1
  | LOG_STATE_APPLY => 2
  | LOG_STATE_PREPAREOK => 3
  | LOG_STATE_UNDECIDE => 4
  end.

Definition reply_int (st : ReplyState) : Z :=
  match st with REP_OK => 0 | REP_FAIL => 1 | REP_TIMEOUT => 2 | REP_NETWORK_FAILURE => 3 end.

Definition HandleParallelModeCommitReply (msg : ParallelModeCommitReply) : MC unit :=
  let tid := pmr_tid msg in
  c ← get_st;
  match pendingParallelCommits c !! tid with
  | None => mret tt
  | Some _ =>
      _ ← erase_parallel tid;
      _ ← match pendingReqs c !! tid with
          | None => mret tt
          | Some r => _ ← deref (as_prepare r); erase_req tid
          end;
      invoke (CallParallel tid (state_int (pmr_state msg)) (pmr_timestamp msg))
  end.

(** ** Reads *)

Definition InvokeGetData (tid : Z) (keys : list string) (replica_id : Z) (e : option error_continuation) :
    MC unit :=
  ok ← transport_send (ToReplica replica_id (OutGetData (MkGetData tid keys)));
  when ok (store_req tid (ReqGetData (MkPendingGetDataRequest e))).

Definition GetDateTimeoutCallback (tid : Z) : MC unit :=
  c ← get_st;
  match pendingReqs c !! tid with
  | None => mret tt
  | Some r =>
      req ← deref (as_get r);
      _ ← erase_req tid;
      match g_error req with Some k => invoke (CallError k tid) | None => mret tt end
  end.

Definition HandleGetDataReply (msg : GetDataReply) : MC unit :=
  let tid := gdr_tid msg in
  c ← get_st;
  match pendingReqs c !! tid with
  | None => mret tt
  | Some r =>
      _ ← deref (as_get r);
      _ ← erase_req tid;
      invoke (CallGet ((λ k, (rkv_key k, rkv_timestamp k)) <$> gdr_keys msg) (rkv_value <$> gdr_keys msg)
                (reply_int (gdr_state msg)))
  end.

(** ** Decisions: the message carries no timestamp, so the receiver reads zero. *)

Definition InvokeCommit (tid leader : Z) (state : LogEntryState) : MC unit :=
  _ ← transport_send (ToReplica leader (OutCommit (MkCommit tid state 0)));
  mret tt.

(** ** Dispatch *)

Inductive client_message :=
| InPrepareReply (m : PrepareTransactionReply)
| InGetReply (m : GetDataReply)
| InParallelReply (m : ParallelModeCommitReply)
| InOther.

Definition ReceiveMessage (m : client_message) : MC unit :=
  match m with
  | InPrepareReply m => HandlePrepareTxnReply m
  | InGetReply m => HandleGetDataReply m
  | InParallelReply m => HandleParallelModeCommitReply m
  | InOther => mret tt
  end.

(** The callback of a timer. *)
Inductive client_timer := TimerPrepare | TimerGet | TimerParallel.

Definition TimerCallback (k : client_timer) (tid : Z) : MC unit :=
  match k with
  | TimerPrepare => PrepareTimeoutCallback tid
  | TimerGet => GetDateTimeoutCallback tid
  | TimerParallel => ParallelModeCommit_timeout tid
  end.

(** ** Runs *)

(** What happens to a client: an operation is invoked, a message arrives, a timer fires. *)
Inductive client_event :=
| EvPrepare (txn : Transaction) (leader : Z) (e : option error_continuation)
| EvGetData (tid : Z) (keys : list string) (replica : Z) (e : option error_continuation)
| EvParallelCommit (tid : Z) (participants : list Z) (replica : Z) (e : option error_continuation)
| EvCommit (tid leader : Z) (state : LogEntryState)
| EvMessage (m : client_message)
| EvTimer (k : client_timer) (tid : Z).

Definition client_handle `{HashOrder} (e : client_event) : MC unit :=
  match e with
  | EvPrepare txn leader e => InvokePrepare txn leader e
  | EvGetData tid keys replica e => InvokeGetData tid keys replica e
  | EvParallelCommit tid ps replica e => InvokeParallelCommit tid ps replica e
  | EvCommit tid leader st => InvokeCommit tid leader st
  | EvMessage m => ReceiveMessage m
  | EvTimer k tid => TimerCallback k tid
  end.
End client.

(** Events other than prepares and their replies change the state by sending, by storing and
    erasing requests for reads and by other calls. *)
Section other_events.
Context `{!Network, HO : HashOrder} (I : LRClient → Prop).
Hypothesis I_send : ∀ x, preserves I (transport_send x).
Hypothesis I_erase : ∀ tid, preserves I (erase_req tid).
Hypothesis I_get : ∀ tid g, preserves I (store_req tid (ReqGetData g)).
Hypothesis I_parallel : ∀ g : gmap Z PendingParallelCommitRequest → gmap Z PendingParallelCommitRequest,
  preserves I (modify (λ c, c <| pendingParallelCommits ::= g |>)).
Hypothesis I_call : ∀ i, match i with CallPrepare _ _ _ _ => False | _ => True end → preserves I (invoke i).

Hint Resolve I_send I_erase I_get I_parallel : preserve.
Hint Extern 1 (preserves _ (invoke _)) => apply I_call; exact Logic.I : preserve.

Definition is_prepare (ev : client_event) : Prop :=
  match ev with EvPrepare _ _ _ | EvMessage (InPrepareReply _) => True | _ => False end.

Lemma other_events_preserve ev : ¬ is_prepare ev → preserves I (client_handle ev).
Proof.
  intros Hev. destruct ev as [| | | |[]|k tid]; simpl in *; try done.
  - unfold InvokeGetData. auto with preserve.
  - unfold InvokeParallelCommit. auto with preserve.
  - unfold InvokeCommit. auto with preserve.
  - unfold HandleGetDataReply. apply preserves_get_bind. intros c Hc. case_match; auto with preserve.
  - unfold HandleParallelModeCommitReply, erase_parallel. apply preserves_get_bind. intros c Hc.
    repeat case_match; auto 10 with preserve.
  - apply preserves_ret.
  - destruct k; simpl;
      unfold PrepareTimeoutCallback, GetDateTimeoutCallback, ParallelModeCommit_timeout, erase_parallel;
      (apply preserves_get_bind; intros c Hc; case_match; [|auto with preserve]).
    1-2: (apply preserves_bind; [auto with preserve|]; intros req).
    all: apply preserves_bind; [auto with preserve|]; intros _; case_match; auto with preserve.
Qed.
End other_events.

(** ** An answer is backed by the replies it needs *)

Section support.
Context (cfg : Configuration) (mode : TpcMode) (arrived : PrepareTransactionReply → Prop).

(** A reply about [tid] that arrived, with its vote. *)
Definition replied (tid : Z) (ok : bool) (m : PrepareTransactionReply) : Prop :=
  arrived m ∧ ptr_tid m = tid ∧
  bool_decide (ptr_state m = LOG_STATE_PREPAREOK) = ok.

(** [q] distinct replicas replied with the vote [ok]. *)
Definition votes_from (q tid : Z) (ok : bool) : Prop :=
  ∃ X : gset Z, q ≤ Z.of_nat (size X) ∧ ∀ r, r ∈ X → ∃ m, replied tid ok m ∧ ptr_replica m = r.

Definition supported (tid : Z) (ok : bool) : Prop :=
  match mode with
  | MODE_RC => votes_from (QuorumSize cfg) tid ok
  | MODE_CAROUSEL =>
      votes_from (FastQuorumSize cfg) tid ok ∨ ∃ m, replied tid ok m ∧ ptr_reachFaultTolerance m = 1
  | _ => ∃ m, replied tid ok m
  end.

Definition backed_reply (tid : Z) (req : PendingPrepare) : Prop :=
  (∀ r st, replicaReplies req !! r = Some st → ∃ m,
     replied tid (bool_decide (st = LOG_STATE_PREPAREOK)) m ∧ ptr_replica m = r) ∧
  (reachFaultTolerance req = true → ∃ m st, p_state req = Some st ∧
     replied tid (bool_decide (st = LOG_STATE_PREPAREOK)) m ∧ ptr_reachFaultTolerance m = 1).

Definition backed_call (i : invocation) : Prop :=
  match i with
  | CallPrepare tid _ st _ => (st = 0 ∧ supported tid true) ∨ (st = 1 ∧ supported tid false)
  | _ => True
  end.

Record backed (c : LRClient) : Prop := {
  backed_config : config c = cfg;
  backed_mode : lc_mode c = mode;
  backed_reqs : ∀ tid req, pendingReqs c !! tid = Some (ReqPrepare req) → backed_reply tid req;
  backed_calls : Forall backed_call (invoked c)
}.

Lemma count_votes_support tid ok q (replies : gmap Z LogEntryState) :
  (∀ r st, replies !! r = Some st → ∃ m,
     replied tid (bool_decide (st = LOG_STATE_PREPAREOK)) m ∧ ptr_replica m = r) →
  q ≤ count_votes ok replies → votes_from q tid ok.
Proof.
  intros Hr Hq.
  exists (dom (filter (λ kv, eqb (bool_decide (kv.2 = LOG_STATE_PREPAREOK)) ok = true) replies)). split.
  - rewrite size_dom. unfold count_votes in Hq. by rewrite map_sum_count in Hq.
  - intros r [st [Hst Hok]%map_lookup_filter_Some]%elem_of_dom. simpl in Hok.
    apply eqb_prop in Hok. subst ok. by apply Hr.
Qed.

(** The votes that [CarouselCheck] and [RCCheck] find are there. *)
Lemma CarouselCheck_backed tid req req' :
  mode = MODE_CAROUSEL → backed_reply tid req → CarouselCheck cfg req = (true, req') →
  ∃ st, p_state req' = Some st ∧ supported tid (bool_decide (st = LOG_STATE_PREPAREOK)).
Proof.
  intros Hmode [Hrep Hft] Hc. unfold CarouselCheck in Hc. unfold supported. rewrite Hmode.
  destruct (reachFaultTolerance req).
  { injection Hc as <-. destruct (Hft eq_refl) as (m & st & ? & ? & ?). eauto 10. }
  destruct (_ >=? u64 _); [|done].
  destruct ((count_votes true _ >=? _) && _) eqn:Hok.
  { injection Hc as <-. eexists. split; [done|]. left. eapply count_votes_support; [done|]. simpl. lia. }
  destruct ((count_votes false _ >=? _) && _) eqn:Hno; [|done].
  injection Hc as <-. eexists. split; [done|]. left. eapply count_votes_support; [done|]. simpl. lia.
Qed.

Lemma RCCheck_backed tid req req' :
  mode = MODE_RC → backed_reply tid req → RCCheck cfg req = (true, req') →
  ∃ st, p_state req' = Some st ∧ supported tid (bool_decide (st = LOG_STATE_PREPAREOK)).
Proof.
  intros Hmode [Hrep Hft] Hc. unfold RCCheck in Hc. unfold supported. rewrite Hmode.
  destruct (_ >=? u64 _); [|done].
  destruct (count_votes true _ >=? _) eqn:Hok.
  { injection Hc as <-. eexists. split; [done|]. eapply count_votes_support; [done|]. simpl. lia. }
  destruct (count_votes false _ >=? _) eqn:Hno; [|done].
  injection Hc as <-. eexists. split; [done|]. eapply count_votes_support; [done|]. simpl. lia.
Qed.

Lemma CarouselCheck_false req req' : CarouselCheck cfg req = (false, req') → req' = req.
Proof. unfold CarouselCheck. intros. by repeat case_match; simplify_eq. Qed.

Lemma RCCheck_false req req' : RCCheck cfg req = (false, req') → req' = req.
Proof. unfold RCCheck. intros. by repeat case_match; simplify_eq. Qed.

Lemma backed_reply_insert tid req msg ts :
  replied tid (bool_decide (ptr_state msg = LOG_STATE_PREPAREOK)) msg → backed_reply tid req →
  backed_reply tid (req <| replicaReplies ::= <[ptr_replica msg := ptr_state msg]> |> <| p_ts := ts |>).
Proof.
  intros Hm [Hrep Hft]. split; [|done]. simpl. intros r st [[<- <-]|[_ ?]]%lookup_insert_Some; eauto.
Qed.

(** Recording a reply either yields a supported answer or keeps the request backed. *)
Lemma record_reply_backed tid req msg enough req' :
  replied tid (bool_decide (ptr_state msg = LOG_STATE_PREPAREOK)) msg →
  backed_reply tid req → record_reply cfg mode msg req = (enough, req') →
  if enough then ∃ st, p_state req' = Some st ∧ supported tid (bool_decide (st = LOG_STATE_PREPAREOK))
  else backed_reply tid req'.
Proof.
  intros Hm Hreq Hrec. unfold record_reply in Hrec. destruct (broadcasts mode) eqn:Hb.
  - set (req1 := req <| replicaReplies ::= _ |> <| p_ts ::= _ |>) in Hrec.
    assert (backed_reply tid req1) as Hreq1 by by apply backed_reply_insert. clearbody req1.
    destruct (decide (mode = MODE_CAROUSEL)) as [Hmode|Hmode].
    + destruct (CarouselCheck cfg req1) as [[] req2] eqn:Hc; simplify_eq.
      { by eapply CarouselCheck_backed. }
      apply CarouselCheck_false in Hc as ->. case_match; simplify_eq; [|done].
      split; [apply Hreq1|]. simpl. intros _. exists msg, (ptr_state msg). split_and!; [done..|lia].
    + assert (mode = MODE_RC) by (destruct mode; done).
      destruct enough; [by eapply RCCheck_backed|]. by apply RCCheck_false in Hrec as ->.
  - simplify_eq. eexists. split; [done|]. unfold supported. destruct mode; by eauto.
Qed.

Section preserve.
Context `{!Network, HO : HashOrder}.

Lemma backed_send x : preserves backed (transport_send x).
Proof. intros c Hc. destruct Hc. by split. Qed.

Lemma backed_invoke i : backed_call i → preserves backed (invoke i).
Proof. intros Hi. apply preserves_modify. intros c []. split; try done. simpl. apply Forall_app. auto. Qed.

Lemma backed_erase tid : preserves backed (erase_req tid).
Proof.
  apply preserves_modify. intros c []. split; try done. simpl. intros tid' req [_ ?]%lookup_delete_Some. eauto.
Qed.

Lemma backed_store tid r :
  (∀ req, r = ReqPrepare req → backed_reply tid req) → preserves backed (store_req tid r).
Proof.
  intros Hr. apply preserves_modify. intros c []. split; try done. simpl.
  intros tid' req [[<- ?]|[_ ?]]%lookup_insert_Some; eauto.
Qed.

Lemma backed_parallel (g : gmap Z PendingParallelCommitRequest → gmap Z PendingParallelCommitRequest) :
  preserves backed (modify (λ c, c <| pendingParallelCommits ::= g |>)).
Proof. apply preserves_modify. by intros c []. Qed.

Hint Resolve backed_send backed_erase backed_parallel : preserve.

Lemma new_backed_reply tid leader txn e : backed_reply tid (PendingPrepare_new leader txn e).
Proof. split; [|done]. intros r st. simpl. by rewrite lookup_empty. Qed.

Lemma HandlePrepareTxnReply_backed msg :
  arrived msg → preserves backed (HandlePrepareTxnReply msg).
Proof.
  intros Hin. unfold HandlePrepareTxnReply. apply preserves_get_bind. intros c Hc.
  destruct (pendingReqs c !! ptr_tid msg) as [r|] eqn:Hr; [|apply preserves_ret].
  apply preserves_bind_deref. intros req Hreq. destruct r as [req'|]; [|done]. simplify_eq/=.
  destruct (record_reply _ _ _ _) as [enough req'] eqn:Hrec.
  rewrite (backed_config c Hc), (backed_mode c Hc) in Hrec.
  eapply record_reply_backed in Hrec; [|by repeat split|by apply (backed_reqs c Hc)].
  destruct enough.
  - destruct Hrec as (st & Hst & Hsup). apply preserves_bind_deref. intros st' Hst'.
    assert (st' = st) as -> by congruence.
    apply preserves_bind; [|auto with preserve]. apply backed_invoke. simpl.
    destruct (decide (st = LOG_STATE_PREPAREOK)) as [E|E].
    + rewrite bool_decide_true in Hsup by done. auto.
    + rewrite bool_decide_false in Hsup by done. auto.
  - apply backed_store. by intros ? [= <-].
Qed.

Lemma InvokePrepare_backed txn leader e : preserves backed (InvokePrepare txn leader e).
Proof.
  unfold InvokePrepare, SendPrepare. apply preserves_bind; [apply preserves_deref|]. intros tid.
  apply preserves_bind. { apply backed_store. intros ? [= <-]. apply new_backed_reply. }
  intros _. apply preserves_bind; [apply preserves_deref|]. intros id.
  apply preserves_bind; [apply preserves_deref|]. intros ps.
  apply preserves_get_bind. intros c Hc. apply preserves_bind; [auto with preserve|]. intros [].
  - apply backed_store. intros ? [= <-]. apply (new_backed_reply id leader txn e).
  - apply backed_erase.
Qed.

Lemma client_handle_backed ev :
  (∀ m, ev = EvMessage (InPrepareReply m) → arrived m) → preserves backed (client_handle ev).
Proof.
  intros Hin. destruct ev as [| | | |[]|]; [apply InvokePrepare_backed|..|]; cycle 3;
    [apply HandlePrepareTxnReply_backed; auto|..].
  all: apply other_events_preserve; auto with preserve.
  all: try (intros; by apply backed_store).
  all: intros [] ?; by apply backed_invoke.
Qed.
End preserve.
End support.

(** Whatever the client of a shard is asked and whatever messages and time-outs it sees, it
    answers a prepare with success only on the replies the mode calls for: in RC mode
    [LOG_STATE_PREPAREOK] from a majority of distinct replicas; in Carousel mode from a fast
    quorum of them, or one reply of a leader that has replicated the transaction; in the other
    modes one reply.  It answers with failure only on as many refusals. *)
Theorem prepare_answer_supported (Net : Network) (HO : HashOrder) (cfg : Configuration) (mode : TpcMode)
    (clientid : Z) (tr : list client_event) (c : LRClient) (tid shard st ts : Z) :
  for_each tr client_handle (LRClient_new cfg mode clientid) = Ok (tt, c) →
  CallPrepare tid shard st ts ∈ invoked c →
  let arrived m := EvMessage (InPrepareReply m) ∈ tr in
  (st = 0 ∧ supported cfg mode arrived tid true) ∨ (st = 1 ∧ supported cfg mode arrived tid false).
Proof.
  intros Hrun Hin arrived.
  assert (wlp (for_each tr client_handle) (λ _, backed cfg mode arrived) (LRClient_new cfg mode clientid)) as Hb.
  { apply post_for_each; [by split|]. intros ev c' Hev Hc'. apply client_handle_backed; [|done]. by intros m ->. }
  apply wlp_run with (1 := Hb) in Hrun.
  by apply (proj1 (Forall_forall _ _) (backed_calls _ _ _ _ Hrun) _ Hin).
Qed.

(** ** At most one answer per request *)

Definition answers_prepare (tid : Z) (i : invocation) : bool :=
  match i with CallPrepare t _ _ _ => t =? tid | _ => false end.

Definition prepare_answers (tid : Z) (l : list invocation) : nat :=
  length (filter (λ i, answers_prepare tid i = true) l).

Definition asks_prepare (tid : Z) (e : client_event) : bool :=
  match e with EvPrepare txn _ _ => bool_decide (getID txn = Some tid) | _ => false end.

Definition prepare_requests (tid : Z) (l : list client_event) : nat :=
  length (filter (λ e, asks_prepare tid e = true) l).

(** The answers given and those that a pending request can still give. *)
Definition open_answer (tid : Z) (reqs : gmap Z PendingRequest) : nat :=
  match reqs !! tid with Some (ReqPrepare _) => 1 | _ => 0 end.

Definition answer_budget (tid : Z) (c : LRClient) : nat :=
  prepare_answers tid (invoked c) + open_answer tid (pendingReqs c).

Lemma prepare_answers_snoc tid l i :
  prepare_answers tid (l ++ [i]) = (prepare_answers tid l + if answers_prepare tid i then 1 else 0)%nat.
Proof.
  unfold prepare_answers. rewrite filter_app, length_app, filter_cons, filter_nil.
  case_decide as E; [by rewrite E|]. by destruct (answers_prepare tid i).
Qed.

Lemma open_answer_insert tid t r reqs :
  (open_answer tid (<[t := r]> reqs) ≤ Nat.max (open_answer tid reqs) (if decide (t = tid) then 1 else 0))%nat.
Proof.
  unfold open_answer. destruct (decide (t = tid)) as [->|Ht].
  - rewrite lookup_insert_eq. destruct r; repeat case_match; lia.
  - rewrite lookup_insert_ne by done. lia.
Qed.

Lemma open_answer_get tid t g reqs :
  (open_answer tid (<[t := ReqGetData g]> reqs) ≤ open_answer tid reqs)%nat.
Proof.
  unfold open_answer. destruct (decide (t = tid)) as [->|Ht].
  - rewrite lookup_insert_eq. lia.
  - by rewrite lookup_insert_ne.
Qed.

Lemma open_answer_delete tid t reqs : (open_answer tid (delete t reqs) ≤ open_answer tid reqs)%nat.
Proof.
  unfold open_answer. destruct (decide (t = tid)) as [->|Ht].
  - rewrite lookup_delete_eq. lia.
  - by rewrite lookup_delete_ne.
Qed.

Section budget.
Context `{!Network, HO : HashOrder} (tid : Z) (b : nat).

Abbreviation within := (λ c, (answer_budget tid c ≤ b)%nat).

Lemma budget_send x : preserves within (transport_send x).
Proof. by intros c Hc. Qed.

Lemma budget_invoke i : answers_prepare tid i = false → preserves within (invoke i).
Proof.
  intros Hi. apply preserves_modify. intros c. unfold answer_budget. simpl.
  rewrite prepare_answers_snoc, Hi. lia.
Qed.

Lemma budget_erase t : preserves within (erase_req t).
Proof.
  apply preserves_modify. intros c. unfold answer_budget. simpl.
  pose proof (open_answer_delete tid t (pendingReqs c)). lia.
Qed.

Lemma budget_parallel (g : gmap Z PendingParallelCommitRequest → gmap Z PendingParallelCommitRequest) :
  preserves within (modify (λ c, c <| pendingParallelCommits ::= g |>)).
Proof. by apply preserves_modify. Qed.

Lemma budget_get t g : preserves within (store_req t (ReqGetData g)).
Proof.
  apply preserves_modify. intros c. unfold answer_budget. simpl.
  pose proof (open_answer_get tid t g (pendingReqs c)). lia.
Qed.

Hint Resolve budget_send budget_erase budget_parallel budget_get : preserve.

(** A reply either leaves the request pending or exchanges it for the answer. *)
Lemma budget_reply msg : preserves within (HandlePrepareTxnReply msg).
Proof.
  intros c Hc. unfold HandlePrepareTxnReply. apply post_get.
  destruct (pendingReqs c !! ptr_tid msg) as [r|] eqn:Hr; [|done].
  destruct r as [req|]; [|done]. run. destruct (record_reply _ _ _ _) as [[] req'].
  - destruct (p_state req') as [st|]; [|done]. run. run. unfold post, answer_budget in *. simpl.
    rewrite prepare_answers_snoc. simpl. destruct (Z.eqb_spec (ptr_tid msg) tid) as [E|Ht].
    + unfold open_answer in *. rewrite E in Hr |- *. rewrite lookup_delete_eq. rewrite Hr in Hc. lia.
    + pose proof (open_answer_delete tid (ptr_tid msg) (pendingReqs c)). lia.
  - unfold post, answer_budget in *. simpl. unfold open_answer in *.
    destruct (decide (ptr_tid msg = tid)) as [E|Ht].
    + rewrite E in Hr |- *. rewrite lookup_insert_eq. by rewrite Hr in Hc.
    + by rewrite lookup_insert_ne.
Qed.

Lemma budget_event ev : asks_prepare tid ev = false → preserves within (client_handle ev).
Proof.
  intros Hev. assert (is_prepare ev ∨ ¬ is_prepare ev) as [Hp|Hp] by (destruct ev as [| | | |[]|]; simpl; tauto);
    [|apply other_events_preserve; auto with preserve; intros [] ?; by apply budget_invoke].
  destruct ev as [txn leader e| | | |[]|]; try done; simpl.
  - unfold InvokePrepare. apply preserves_bind_deref. intros t Ht. simpl in Hev.
    apply bool_decide_eq_false in Hev. assert (t ≠ tid) as Hne by congruence.
    assert (∀ req, preserves within (store_req t (ReqPrepare req))) as Hstore.
    { intros req. apply preserves_modify. intros c. unfold answer_budget. simpl.
      pose proof (open_answer_insert tid t (ReqPrepare req) (pendingReqs c)).
      destruct (decide (t = tid)); [done|lia]. }
    apply preserves_bind; [done|]. intros _. unfold SendPrepare. simpl. apply preserves_bind_deref.
    intros t' Ht'. assert (t' = t) as -> by congruence. apply preserves_bind; [auto with preserve|]. intros ps.
    apply preserves_get_bind. intros c Hc. apply preserves_bind; [auto with preserve|]. intros [].
    + done.
    + auto with preserve.
  - apply budget_reply.
Qed.
End budget.

(** A request for a prepare adds one possible answer. *)
Lemma budget_request `{!Network, HO : HashOrder} tid txn leader e c :
  wlp (client_handle (EvPrepare txn leader e))
    (λ _ c', (answer_budget tid c' ≤ S (answer_budget tid c))%nat) c.
Proof.
  destruct (getID txn) as [t|] eqn:Ht; [|by unfold client_handle, InvokePrepare; rewrite Ht].
  destruct (decide (t = tid)) as [->|Hne].
  2:{ eapply post_mono; [apply (budget_event tid (answer_budget tid c)); [|done]|simpl; intros; lia].
      simpl. rewrite Ht. apply bool_decide_eq_false. congruence. }
  unfold client_handle, InvokePrepare, SendPrepare. simpl. rewrite Ht.
  destruct (getPrimaryShard txn) as [ps|] eqn:Hps; [|done].
  do 3 run. run. do 2 run.
  destruct (send_ok _); unfold post, answer_budget; simpl.
  - unfold open_answer. rewrite insert_insert_eq, lookup_insert_eq. lia.
  - unfold open_answer. rewrite lookup_delete_eq. lia.
Qed.

Lemma prepare_requests_cons tid e l :
  prepare_requests tid (e :: l) = ((if asks_prepare tid e then 1 else 0) + prepare_requests tid l)%nat.
Proof.
  unfold prepare_requests. rewrite filter_cons. case_decide as E; [by rewrite E|].
  by destruct (asks_prepare tid e).
Qed.

Lemma budget_run `{!Network, HO : HashOrder} tid tr c :
  wlp (for_each tr client_handle)
    (λ _ c', (answer_budget tid c' ≤ answer_budget tid c + prepare_requests tid tr)%nat) c.
Proof.
  revert c. induction tr as [|ev tr IH]; intros c; [simpl; unfold post; simpl; lia|].
  simpl. apply post_bind.
  apply post_mono with (λ _ c',
    (answer_budget tid c' ≤ answer_budget tid c + if asks_prepare tid ev then 1 else 0)%nat).
  - destruct (asks_prepare tid ev) eqn:Ha.
    + destruct ev; try done. eapply post_mono; [apply (budget_request tid)|]. simpl. intros. lia.
    + eapply post_mono; [by apply (budget_event tid (answer_budget tid c))|]. simpl. intros. lia.
  - intros [] c' Hc'. eapply post_mono; [apply IH|]. intros [] c'' Hc''. cbv beta in *.
    rewrite prepare_requests_cons. lia.
Qed.

(** A client answers each prepare at most once: in every run, the answers given for a transaction
    are at most as many as the prepares requested for it, however many replies arrive. *)
Theorem prepare_answered_at_most_once (Net : Network) (HO : HashOrder) (cfg : Configuration) (mode : TpcMode)
    (clientid : Z) (tr : list client_event) (c : LRClient) (tid : Z) :
  for_each tr client_handle (LRClient_new cfg mode clientid) = Ok (tt, c) →
  (prepare_answers tid (invoked c) ≤ prepare_requests tid tr)%nat.
Proof.
  intros Hrun. pose proof (budget_run tid tr (LRClient_new cfg mode clientid)) as Hb.
  apply wlp_run with (1 := Hb) in Hrun. assert (answer_budget tid (LRClient_new cfg mode clientid) = 0%nat) as E.
  { unfold answer_budget, open_answer. simpl. by rewrite lookup_empty. }
  rewrite E in Hrun. unfold answer_budget in Hrun. lia.
Qed.

(** A run in RC mode with three replicas: two of them agree, the third is late. *)
Definition demo_txn : Transaction :=
  setPrimaryShard 0 (addParticipant 0 (addWriteSet "x" "1" (Transaction_id 5))).

Definition demo_reply (replica : Z) : client_event :=
  EvMessage (InPrepareReply (MkPrepareTransactionReply 5 LOG_STATE_PREPAREOK 0 replica 0 replica)).

Definition demo_run : list client_event :=
  [EvPrepare demo_txn 0 (Some PrepareTimeoutCont); demo_reply 2; demo_reply 1; demo_reply 0].

Definition always_sends : Network := λ _, true.

Definition demo_client : LRClient :=
  MkLRClient (MkConfiguration 3 1) 7 MODE_RC ∅ ∅
    [(ToAll (OutPrepare (MkPrepareTransaction 5 [MkWriteSet "x" "1"] [] [0] 0 CM_SLOW)), true)]
    [CallPrepare 5 0 0 2].

Lemma prepare_answer_supported_witness :
  let arrived m := EvMessage (InPrepareReply m) ∈ demo_run in
  (0 = 0 ∧ supported (MkConfiguration 3 1) MODE_RC arrived 5 true) ∨
  (0 = 1 ∧ supported (MkConfiguration 3 1) MODE_RC arrived 5 false).
Proof.
  apply (prepare_answer_supported always_sends default_order (MkConfiguration 3 1) MODE_RC 7 demo_run demo_client
           5 0 0 2).
  - vm_compute. reflexivity.
  - simpl. left.
Defined.

Lemma prepare_answered_at_most_once_witness :
  (prepare_answers 5 (invoked demo_client) ≤ prepare_requests 5 demo_run)%nat.
Proof.
  apply (prepare_answered_at_most_once always_sends default_order (MkConfiguration 3 1) MODE_RC 7 demo_run).
  vm_compute. reflexivity.
Defined.
