(* ===== verification/BufferClient.v ===== *)
(** The buffering client: [store/common/frontend/bufferclient.h] and [bufferclient.cc], over the
    interface [store/common/frontend/txnclient.h].

    A [BufferClient] keeps the read and write set of the transaction in progress for one shard
    and hands reads, prepares and decisions to a [TxnClient].  Promises are passed by pointer:
    they live in a store of promises that is part of the state of the [TxnClient], a pointer is
    an address in it, and following a pointer to a deleted promise is [Undefined].

    [Get] and [MultiGet] wait for the answer in the middle; each is given as the part before the
    wait, which says whether there is something left to do, and the part after it. *)

From S2P Require Import Prelude Timestamp Transaction Promise.

(** [#define]s of [txnclient.h]. *)
Definition GET_TIMEOUT : Z := 1000.
Definition PUT_TIMEOUT : Z := 250.
Definition PREPARE_TIMEOUT : Z := 1000.
Definition COMMIT_RETRIES : Z := 5.

Abbreviation address := nat.

(** [class TxnClient], with the promises its state can reach. *)
Class TxnClient (S : Type) := {
  heap : S → gmap address Promise;
  with_heap : (gmap address Promise → gmap address Promise) → S → S;
  tc_Begin : Z → M S unit;
  tc_Get : Z → string → address → M S unit;
  tc_Get_at : Z → string → Timestamp → address → M S unit;
  tc_MultiGet : Z → list string → address → M S unit;
  tc_Put : Z → string → string → address → M S unit;
  tc_Prepare : Z → Transaction → Timestamp → address → M S unit;
  tc_Commit : Z → Transaction → Z → M S unit;
  tc_Abort : Z → Transaction → M S unit;
  tc_ParallelModeCommit : Z → Transaction → address → M S unit
}.

(** The promises are a component of the state of their own. *)
Class TxnClientLaws (S : Type) `{TxnClient S} := {
  heap_with_heap : ∀ g (s : S), heap (with_heap g s) = g (heap s)
}.

Section heap.
Context {S : Type} `{!TxnClient S}.

(** [*p], and an assignment through [p]. *)
Definition promise_at (p : address) : M S Promise := s ← get_st; deref (heap s !! p).

Definition reply_to (p : address) (f : Promise → Promise) : M S unit :=
  x ← promise_at p; modify (with_heap <[p := f x]>).
End heap.

Record BufferClient := MkBufferClient { txn : Transaction; b_tid : option Z }.

#[global] Instance BufferClient_eta : Eta BufferClient := λ b, MkBufferClient (txn b) (b_tid b).

Definition BufferClient_new : BufferClient := MkBufferClient Transaction_default None.

Section buffer.
Context {S : Type} `{!TxnClient S}.

Abbreviation MB := (M (BufferClient * S)).

Definition below {A} (m : M S A) : MB A := λ bs,
  match m bs.2 with Ok (a, s) => Ok (a, (bs.1, s)) | Panic => Panic | Undefined => Undefined end.

Definition on_txn (f : Transaction → Transaction) : MB unit :=
  modify (λ bs, (bs.1 <| txn ::= f |>, bs.2)).

Definition the_txn : MB Transaction := gets (λ bs, txn bs.1).

Definition the_tid : MB Z := t ← gets (λ bs, b_tid bs.1); deref t.

Definition Begin (tid : Z) : MB unit :=
  _ ← modify (λ bs, (MkBufferClient (Transaction_id tid) (Some tid), bs.2));
  below (tc_Begin tid).

(** True when the part after the wait is still to come. *)
Definition Get_begin (key : string) (promise : address) : MB bool :=
  t ← the_txn;
  match getWriteSet t !! key with
  | Some value => _ ← below (reply_to promise (Reply_value REPLY_OK value)); mret false
  | None =>
      match getReadSet t !! key with
      | Some ts => tid ← the_tid; _ ← below (tc_Get_at tid key ts promise); mret false
      | None => tid ← the_tid; _ ← below (tc_Get tid key promise); mret true
      end
  end.

(** After the wait: the promise is done. *)
Definition Get_end (key : string) (promise : address) : MB unit :=
  p ← below (promise_at promise);
  when (reply p =? REPLY_OK) (on_txn (addReadSet key (p_timestamp p))).

Definition MultiGet_begin (keys : list string) (promise : address) : MB unit :=
  tid ← the_tid; below (tc_MultiGet tid keys promise).

Definition MultiGet_end (keys : list string) (promise : address) : MB unit :=
  p ← below (promise_at promise);
  when (reply p =? REPLY_OK) (for_each keys (λ key, on_txn (addReadSet key (p_timestamp p)))).

Definition Put (key value : string) (promise : address) : MB unit :=
  _ ← on_txn (addWriteSet key value);
  below (reply_to promise (Reply REPLY_OK)).

Definition Prepare (ts : Timestamp) (promise : address) : MB unit :=
  tid ← the_tid; t ← the_txn; below (tc_Prepare tid t ts promise).

Definition ParallelModeCommit (promise : address) : MB unit :=
  tid ← the_tid; t ← the_txn; below (tc_ParallelModeCommit tid t promise).

Definition Commit (ts : Z) : MB unit :=
  tid ← the_tid; t ← the_txn; below (tc_Commit tid t ts).

Definition Abort : MB unit :=
  tid ← the_tid; below (tc_Abort tid Transaction_default).

(** [addParticipant] takes a [uint64_t]. *)
Definition SetParticipants (ps : list Z) : MB unit :=
  for_each ps (λ p, on_txn (addParticipant (u64 p))).

Definition SetPrimaryShard (shard : Z) : MB unit := on_txn (setPrimaryShard shard).

Definition AddReadSet (key : string) (readTime : Timestamp) : MB unit := on_txn (addReadSet key readTime).

Definition AddWriteSet (key value : string) : MB unit := on_txn (addWriteSet key value).

Definition GetReadSet (b : BufferClient) : gmap string Timestamp := getReadSet (txn b).

Definition GetWriteSet (b : BufferClient) : gmap string string := getWriteSet (txn b).

(** ** Reads of one transaction *)

(** A sequence of writes. *)
Definition puts (kvs : list (string * string)) (promise : address) : MB unit :=
  for_each kvs (λ kv, Put kv.1 kv.2 promise).

Context `{!TxnClientLaws S}.

Lemma Put_run key value promise (b : BufferClient) (s : S) p :
  heap s !! promise = Some p →
  Put key value promise (b, s) =
    Ok (tt, (b <| txn ::= addWriteSet key value |>, with_heap <[promise := Reply REPLY_OK p]> s)).
Proof.
  intros Hp. unfold Put, reply_to, promise_at, below, on_txn. simpl.
  unfold mbind, M_bind. simpl. unfold get_st. simpl. by rewrite Hp.
Qed.

Lemma puts_run kvs promise (b : BufferClient) (s : S) :
  is_Some (heap s !! promise) →
  ∃ s', puts kvs promise (b, s) =
      Ok (tt, (b <| txn ::= (λ t, foldl (λ t kv, addWriteSet kv.1 kv.2 t) t kvs) |>, s')) ∧
    ∀ q, is_Some (heap s !! q) → is_Some (heap s' !! q).
Proof.
  revert b s. induction kvs as [|[k v] kvs IH]; intros b s [p Hp].
  { exists s. by destruct b. }
  unfold puts. simpl. unfold mbind at 1, M_bind. rewrite (Put_run _ _ _ _ _ p) by done.
  assert (∀ q, is_Some (heap s !! q) → is_Some (heap (with_heap <[promise := Reply REPLY_OK p]> s) !! q)) as Hq.
  { intros q Hq. rewrite heap_with_heap. destruct (decide (q = promise)) as [->|].
    - rewrite lookup_insert_eq. by eexists.
    - by rewrite lookup_insert_ne. }
  destruct (IH (b <| txn ::= addWriteSet k v |>) (with_heap <[promise := Reply REPLY_OK p]> s))
    as (s' & Hrun & Hs').
  { apply Hq. by eexists. }
  exists s'. split; [apply Hrun|]. auto.
Qed.

Lemma foldl_addWriteSet_ne kvs key t :
  key ∉ kvs.*1 → writeSet (foldl (λ t kv, addWriteSet kv.1 kv.2 t) t kvs) !! key = writeSet t !! key.
Proof.
  revert t. induction kvs as [|[k v] kvs IH]; intros t Hk; [done|]. simpl in *.
  rewrite IH by set_solver. simpl. apply lookup_insert_ne. set_solver.
Qed.

(** The write set decides a read before the shard is asked. *)
Lemma Get_begin_buffered key value promise (b : BufferClient) (s : S) p :
  writeSet (txn b) !! key = Some value → heap s !! promise = Some p →
  Get_begin key promise (b, s) =
    Ok (false, (b, with_heap <[promise := Reply_value REPLY_OK value p]> s)).
Proof.
  intros Hw Hp. unfold Get_begin, the_txn, below, reply_to, promise_at. unfold mbind, M_bind. simpl.
  unfold getWriteSet, gets. simpl. rewrite Hw. unfold get_st. simpl. by rewrite Hp.
Qed.

(** A transaction reads its own writes: whatever it did before, after writing [value] to [key]
    and then writing other keys, a read of [key] is answered at once with [value] and
    [REPLY_OK], and the shard is not asked; only the promise changes. *)
Theorem reads_own_writes (b : BufferClient) (s : S) (key value : string) (later : list (string * string))
    (wp rp : address) :
  is_Some (heap s !! wp) → is_Some (heap s !! rp) → key ∉ later.*1 →
  ∃ b' s' p, puts ((key, value) :: later) wp (b, s) = Ok (tt, (b', s')) ∧
    Get_begin key rp (b', s') = Ok (false, (b', with_heap <[rp := p]> s')) ∧
    GetReply p = Some REPLY_OK ∧ GetValue p = Some value.
Proof.
  intros Hwp Hrp Hk.
  destruct (puts_run ((key, value) :: later) wp b s Hwp) as (s' & Hrun & Hs').
  destruct (Hs' rp Hrp) as [q' Hq'].
  exists (b <| txn ::= (λ t, foldl (λ t kv, addWriteSet kv.1 kv.2 t) t ((key, value) :: later)) |>), s',
    (Reply_value REPLY_OK value q').
  split_and!; [done| |done..]. apply Get_begin_buffered; [|done].
  simpl. rewrite foldl_addWriteSet_ne by done. simpl. apply lookup_insert_eq.
Qed.
End buffer.
