(* ===== verification/ShardClient.v ===== *)
(** The client of one shard: [store/strongstore/shardclient.h] and [shardclient.cc].

    The thread of the application posts requests to the thread of the network
    ([transport->Timer(0, ...)]), which sends them through the replication client and runs the
    callbacks; the callbacks answer the promise [waiting] points to.  The posted requests are a
    list of the state, and running one is a step of its own.  The timeouts of the promises are
    real time and are not represented. *)

From S2P Require Import LRLog QuorumSet LRReplica LRClient.
From S2P Require Import Prelude Timestamp Transaction Promise BufferClient.

(** A request posted to the network thread. *)
Inductive task :=
| TaskGet (id : Z) (keys : list string) (promise : address)
| TaskPrepare (txn : Transaction) (promise : address)
| TaskParallel (id : Z) (participants : list Z) (promise : address).

(** [class ShardClient]; [blockingBegin] is never assigned after the constructor. *)
Record ShardClient := MkShardClient {
  sc_client_id : Z;
  shard : Z;
  replica : Z;
  leader : Z;
  sc_mode : TpcMode;
  client : LRClient;
  waiting : option address
}.

#[global] Instance ShardClient_eta : Eta ShardClient := λ s,
  MkShardClient (sc_client_id s) (shard s) (replica s) (leader s) (sc_mode s) (client s) (waiting s).

Definition ShardClient_new (tpcMode : TpcMode) (config : Configuration) (client_id shard closestReplica : Z) :
    res ShardClient :=
  if QuorumSet.n config =? 0 then Undefined
  else
    Ok {| sc_client_id := client_id;
          shard := shard;
          replica := if closestReplica =? -1 then to_int (client_id mod u64 (QuorumSet.n config)) else closestReplica;
          leader := Z.rem shard (QuorumSet.n config);
          sc_mode := tpcMode;
          client := LRClient_new config tpcMode 0;
          waiting := None |}.

(** The shard client with what it shares with the others: the promises, and the requests
    posted to the network thread. *)
Record ShardEnv := MkShardEnv {
  sc : ShardClient;
  promises : gmap address Promise;
  posted : list (Z * task)
}.

#[global] Instance ShardEnv_eta : Eta ShardEnv := λ e, MkShardEnv (sc e) (promises e) (posted e).

Section shard.
Context `{!Network, HO : HashOrder}.

Abbreviation MS := (M ShardEnv).

Definition promise (p : address) : MS Promise := e ← get_st; deref (promises e !! p).

Definition set_promise (l : address) (p : Promise) : MS unit := modify (λ e, e <| promises ::= <[l := p]> |>).

Definition set_waiting (w : option address) : MS unit := modify (λ e, e <| sc ::= (λ s, s <| waiting := w |>) |>).

Definition post_task (t : task) : MS unit := modify (λ e, e <| posted ::= (λ l, l ++ [(shard (sc e), t)]) |>).

(** ** Callbacks *)

(** [if (waiting != NULL) { w = waiting; waiting = NULL; ... }]. *)
Definition GetTimeout (tid : Z) : MS unit :=
  e ← get_st;
  match waiting (sc e) with
  | None => mret tt
  | Some l =>
      _ ← set_waiting None;
      p ← promise l;
      set_promise l (Reply REPLY_TIMEOUT p)
  end.

(** Without values the call is [w->Reply(state, Timestamp(), "")]: the literal converts to
    [bool] before it converts to [std::string], so this is the overload for parallel
    decisions. *)
Definition GetCallback (readKey : list (string * Z)) (values : list string) (state : Z) : MS unit :=
  e ← get_st;
  match waiting (sc e) with
  | None => mret tt
  | Some l =>
      _ ← set_waiting None;
      p ← promise l;
      match values with
      | v :: _ =>
          k ← deref (head readKey);
          set_promise l (Reply_read state (Timestamp1 k.2) v p)
      | [] => set_promise l (Reply_parallel state Timestamp0 true p)
      end
  end.

Definition timestamp_of (timestamp : Z) : Timestamp :=
  if timestamp >? 0 then MkTimestamp timestamp 0 else Timestamp0.

Definition PrepareCallback (tid shard state timestamp : Z) : MS unit :=
  e ← get_st;
  match waiting (sc e) with
  | None => mret tt
  | Some l =>
      p ← promise l;
      t ← lift_res (GetTid p);
      if negb (tid =? t) || HasReachFinalDecision p then mret tt
      else if bool_decide (sc_mode (sc e) = MODE_SLOW) || bool_decide (sc_mode (sc e) = MODE_RC) then
        _ ← set_waiting None;
        set_promise l (Reply_final state (timestamp_of timestamp) p)
      else
        p' ← lift_res (Reply_shard (to_int shard) state (timestamp_of timestamp) p);
        set_promise l p'
  end.

Definition PrepareTimeout (tid : Z) : MS unit :=
  e ← get_st;
  match waiting (sc e) with
  | None => mret tt
  | Some l =>
      p ← promise l;
      t ← lift_res (GetTid p);
      if t =? tid then
        p' ← lift_res (Reply_shard (shard (sc e)) REPLY_TIMEOUT Timestamp0 p);
        set_promise l p'
      else mret tt
  end.

Definition ParallelModeCommitCallback (tid state timestamp : Z) : MS unit :=
  e ← get_st;
  match waiting (sc e) with
  | None => mret tt
  | Some l =>
      p ← promise l;
      t ← lift_res (GetTid p);
      if t =? tid then
        _ ← set_waiting None;
        set_promise l (Reply_parallel state (timestamp_of timestamp) true p)
      else mret tt
  end.

(** The continuations bound to the requests. *)
Definition callback (i : invocation) : MS unit :=
  match i with
  | CallPrepare tid shard state ts => PrepareCallback tid shard state ts
  | CallGet readKey values state => GetCallback readKey values state
  | CallParallel tid state ts => ParallelModeCommitCallback tid state ts
  | CallError GetTimeoutCont tid => GetTimeout tid
  | CallError PrepareTimeoutCont tid => PrepareTimeout tid
  end.

(** The network thread runs the replication client and the continuations it calls. *)
Definition client_do (ev : client_event) : MS unit := λ e,
  match client_handle ev (client (sc e) <| invoked := [] |>) with
  | Ok (_, c) =>
      for_each (invoked c) callback (e <| sc ::= (λ s, s <| client := c <| invoked := [] |> |>) |>)
  | Panic => Panic
  | Undefined => Undefined
  end.

(** ** Requests of the application *)

Definition Begin (id : Z) : MS unit := mret tt.

(** [promise->GetTimeout()] follows the pointer. *)
Definition Get (id : Z) (key : string) (l : address) : MS unit :=
  _ ← promise l; post_task (TaskGet id [key] l).

Definition MultiGet (id : Z) (keys : list string) (l : address) : MS unit :=
  _ ← promise l; post_task (TaskGet id keys l).

Definition Get_at (id : Z) (key : string) (timestamp : Timestamp) (l : address) : MS unit := Get id key l.

Definition Put (id : Z) (key value : string) (l : address) : MS unit := panic.

Definition Prepare (id : Z) (txn : Transaction) (timestamp : Timestamp) (l : address) : MS unit :=
  post_task (TaskPrepare txn l).

Definition ParallelModeCommit (id : Z) (txn : Transaction) (l : address) : MS unit :=
  post_task (TaskParallel id (getParticipants txn) l).

(** The decision is sent by the thread of the application itself; [timestamp] is not used. *)
Definition Commit (id : Z) (txn : Transaction) (timestamp : Z) : MS unit :=
  _ ← set_waiting None;
  e ← get_st;
  client_do (EvCommit id (leader (sc e)) LOG_STATE_COMMIT).

Definition Abort (id : Z) (txn : Transaction) : MS unit :=
  _ ← set_waiting None;
  e ← get_st;
  client_do (EvCommit id (leader (sc e)) LOG_STATE_ABORT).

(** ** The posted requests, when the network thread runs them *)

Definition run_task (t : task) : MS unit :=
  e ← get_st;
  match t with
  | TaskGet id keys l =>
      _ ← set_waiting (Some l);
      client_do (EvGetData id keys (replica (sc e)) (Some GetTimeoutCont))
  | TaskPrepare txn l =>
      _ ← set_waiting (Some l);
      client_do (EvPrepare txn (leader (sc e)) (Some PrepareTimeoutCont))
  | TaskParallel id ps l =>
      _ ← set_waiting (Some l);
      client_do (EvParallelCommit id ps (leader (sc e)) None)
  end.

#[global] Instance ShardClient_TxnClient : TxnClient ShardEnv := {|
  heap := promises;
  with_heap := λ g e, e <| promises ::= g |>;
  tc_Begin := Begin;
  tc_Get := Get;
  tc_Get_at := Get_at;
  tc_MultiGet := MultiGet;
  tc_Put := Put;
  tc_Prepare := Prepare;
  tc_Commit := Commit;
  tc_Abort := Abort;
  tc_ParallelModeCommit := ParallelModeCommit
|}.

#[global] Instance ShardClient_TxnClientLaws : TxnClientLaws ShardEnv.
Proof. by split. Qed.
End shard.
