(* ===== verification/StrongClient.v ===== *)
(** The client of the strong store: [store/strongstore/client.h] and [client.cc].

    The application calls [Begin], [Get], [MultiGet], [Put], [Commit] and [Abort]; [Get],
    [MultiGet] and [Commit] wait for promises that the network thread answers.  The state says
    where the thread of the application waits ([app_state]); a call is a step up to the wait and
    further steps when the promise is done.  Steps of the network thread (running a posted
    request, receiving a message, firing a timer) come between them in any order.

    [bclient] is an array of [nshards] pointers: the code reserves the storage and assigns the
    elements without resizing the vector, so no index in range is out of the storage; the same
    goes for all reads.  The promises on the stack of a call die when it returns, the promise of
    a prepare is deleted.  The busy waiting of [Commit] in the Spanner modes only takes time; the
    clock of the time server ([GetTimeAndError]) is an argument of the step that reads it. *)

From S2P Require Import LRLog QuorumSet LRReplica LRClient Sharding.
From S2P Require Import Prelude Timestamp Transaction Promise BufferClient ShardClient.

(** Where the thread of the application is. *)
Inductive app_state :=
| Idle
| Getting (i : Z) (key : string) (l : address) (record : bool)
| MultiGetting (i : Z) (keys : list string) (rest : list (Z * list string)) (l : address) (value : option string)
| Preparing (retry_num : Z) (l : address).

#[global] Instance app_state_eq_dec : EqDecision app_state.
Proof. solve_decision. Defined.

(** What a call returned: [Get] and [MultiGet] a status and what they stored in the argument
    [value], if they did; [Put] a status; [Commit] a boolean. *)
Inductive outcome :=
| Returned
| ReturnedGet (status : Z) (value : option string)
| ReturnedPut (status : Z)
| ReturnedCommit (committed : bool).

Record Client := MkClient {
  client_id : Z;
  t_id : Z;
  nshards : Z;
  nreplicas : Z;
  close_replica : Z;
  participants : list Z;
  bclient : list (BufferClient * ShardClient);
  mode : Mode;
  tpcMode : TpcMode;
  tpcc : bool;
  commit_sleep : option Z;
  v : list Z;
  c_promises : gmap address Promise;
  c_posted : list (Z * task);
  next_promise : address;
  app : app_state
}.

#[global] Instance Client_eta : Eta Client := λ c,
  MkClient (client_id c) (t_id c) (nshards c) (nreplicas c) (close_replica c) (participants c) (bclient c)
    (mode c) (tpcMode c) (tpcc c) (commit_sleep c) (v c) (c_promises c) (c_posted c) (next_promise c) (app c).

(** The loop of the constructor that starts a client for each shard; [configs] are the parsed
    configuration files, [id] the random number drawn. *)
Fixpoint start_shards (tpcMode : TpcMode) (configs : list Configuration) (closestReplica id i : Z) :
    res (list (BufferClient * ShardClient)) :=
  match configs with
  | [] => Ok []
  | config :: configs' =>
      s ← ShardClient_new tpcMode config id i closestReplica;
      l ← start_shards tpcMode configs' closestReplica id (i + 1);
      Ok ((BufferClient_new, s) :: l)
  end.

Definition Client_new (mode : Mode) (tpcMode : TpcMode) (configs : list Configuration)
    (closestReplica n : Z) (tpcc : bool) (id : Z) : res Client :=
  shards ← start_shards tpcMode configs closestReplica id 0;
  Ok {| client_id := id; t_id := id / 10000 * 10000; nshards := Z.of_nat (length configs);
        nreplicas := n; close_replica := closestReplica; participants := []; bclient := shards;
        mode := mode; tpcMode := tpcMode; tpcc := tpcc; commit_sleep := None; v := [];
        c_promises := ∅; c_posted := []; next_promise := 0%nat; app := Idle |}.

Section client.
Context `{!Network, HO : HashOrder} `{!JsonLib}.

Abbreviation MC := (M Client).

(** [bclient[i]->...]. *)
Definition on_shard {A} (i : Z) (m : M (BufferClient * ShardEnv) A) : MC A := λ c,
  if i <? 0 then Undefined
  else
    match bclient c !! Z.to_nat i with
    | None => Undefined
    | Some (b, s) =>
        match m (b, MkShardEnv s (c_promises c) (c_posted c)) with
        | Ok (a, (b', e)) =>
            Ok (a, c <| bclient ::= <[Z.to_nat i := (b', sc e)]> |> <| c_promises := promises e |>
                     <| c_posted := posted e |>)
        | Panic => Panic
        | Undefined => Undefined
        end
    end.

Definition buffer_of (i : Z) : MC BufferClient := on_shard i (gets fst).

Definition new_promise (p : Promise) : MC address := λ c,
  Ok (next_promise c,
      c <| c_promises ::= <[next_promise c := p]> |> <| next_promise ::= S |>).

Definition delete_promise (l : address) : MC unit := modify (λ c, c <| c_promises ::= delete l |>).

Definition promise_of (l : address) : MC Promise := c ← get_st; deref (c_promises c !! l).

Definition set_app (a : app_state) : MC unit := modify (λ c, c <| app := a |>).

(** ** Begin *)

Definition Begin : MC outcome :=
  _ ← modify (λ c, c <| t_id ::= u64_incr |> <| participants := [] |> <| commit_sleep := Some (-1) |>);
  c ← get_st;
  _ ← for_each (seqZ 0 (nshards c)) (λ i, on_shard i (BufferClient.Begin (t_id c)));
  _ ← modify (λ c, c <| v := [] |>);
  mret Returned.

(** The shard of a key, and its entry in [participants]. *)
Definition shard_of (key : string) : MC Z :=
  c ← get_st;
  i ← lift_res (key_to_shard key (if tpcc c then 0 else nshards c));
  mret (to_int i).

Definition join (i : Z) : MC unit :=
  modify (λ c, c <| participants ::= (λ ps, if bool_decide (i ∈ ps) then ps else ps ++ [i]) |>).

(** ** Put *)

Definition Put (key value : string) : MC outcome :=
  i ← shard_of key;
  _ ← join i;
  l ← new_promise (Promise_ms PUT_TIMEOUT);
  _ ← on_shard i (BufferClient.Put key value l);
  p ← promise_of l;
  _ ← delete_promise l;
  mret (ReturnedPut (reply p)).

(** ** Get *)

Definition Get_call (key : string) : MC unit :=
  i ← shard_of key;
  _ ← join i;
  l ← new_promise (Promise_ms GET_TIMEOUT);
  record ← on_shard i (Get_begin key l);
  set_app (Getting i key l record).

Definition Get_return (i : Z) (key : string) (l : address) (record : bool) : MC (option outcome) :=
  p ← promise_of l;
  match GetReply p with
  | None => mret None
  | Some r =>
      _ ← when record (on_shard i (Get_end key l));
      _ ← delete_promise l;
      _ ← set_app Idle;
      mret (Some (ReturnedGet r (Some (p_value p))))
  end.

(** ** MultiGet *)

(** [key_shards[i].push_back(k)]. *)
Fixpoint place_keys (keys : list string) (key_shards : list (list string)) : MC (list (list string)) :=
  match keys with
  | [] => mret key_shards
  | k :: keys' =>
      i ← shard_of k;
      if (i <? 0) || (Z.of_nat (length key_shards) <=? i) then undefined
      else
        _ ← join i;
        place_keys keys' (alter (λ ks, ks ++ [k]) (Z.to_nat i) key_shards)
  end.

(** The next shard with keys, or the end of the loop. *)
Definition MultiGet_next (rest : list (Z * list string)) (l : address) (value : option string) : MC unit :=
  match rest with
  | [] => set_app (MultiGetting (-1) [] [] l value)
  | (i, keys) :: rest' =>
      p ← promise_of l;
      _ ← modify (λ c, c <| c_promises ::= <[l := Reset p]> |>);
      _ ← on_shard i (MultiGet_begin keys l);
      set_app (MultiGetting i keys rest' l value)
  end.

Definition MultiGet_call (keys : list string) : MC unit :=
  c ← get_st;
  key_shards ← place_keys keys (replicate (Z.to_nat (nshards c)) []);
  l ← new_promise (Promise_ms GET_TIMEOUT);
  MultiGet_next (filter (λ x, x.2 ≠ []) (imap (λ i ks, (Z.of_nat i, ks)) key_shards)) l None.

(** With no key at all the last [GetReply] waits for a promise nobody answers. *)
Definition MultiGet_return (i : Z) (keys : list string) (rest : list (Z * list string)) (l : address)
    (value : option string) : MC (option outcome) :=
  p ← promise_of l;
  match GetReply p with
  | None => mret None
  | Some r =>
      _ ← on_shard i (MultiGet_end keys l);
      let value' := if r =? 1 then value else Some (p_value p) in
      if (r =? 1) || bool_decide (rest = []) then
        _ ← delete_promise l;
        _ ← set_app Idle;
        mret (Some (ReturnedGet r value'))
      else _ ← MultiGet_next rest l value'; mret None
  end.

(** ** Prepare *)

(** The primary shard, and whether it is not a participant.  In the parallel mode the last
    participant, or else the last shard, whose leader is at the replica near the client. *)
Definition near (c : Client) (p : Z) : bool := Z.rem p (nreplicas c) =? close_replica c.

Definition choose_primary (c : Client) : res (Z * bool) :=
  match tpcMode c with
  | MODE_SLOW | MODE_RC =>
      let size := Z.of_nat (length (participants c)) in
      if size =? 0 then Undefined
      else match participants c !! Z.to_nat (t_id c mod size) with
           | Some p => Ok (p, false)
           | None => Undefined
           end
  | MODE_PARALLEL =>
      if (nreplicas c =? 0) && negb (bool_decide (participants c = [] ∧ nshards c = 0)) then Undefined
      else
        match last (filter (λ p, near c p = true) (participants c)) with
        | Some p => Ok (p, false)
        | None => Ok (default (-1) (last (filter (λ p, near c p = true) (seqZ 0 (nshards c)))), true)
        end
  | _ => Ok (-1, false)
  end.

(** The slow and RC modes: everything goes to the primary shard. *)
Definition gather (primaryShard : Z) : MC unit :=
  c ← get_st;
  for_each (participants c) (λ p,
    b ← buffer_of p;
    _ ← for_each (hash_order (GetReadSet b)) (λ k, on_shard primaryShard (AddReadSet k.1 k.2));
    b ← buffer_of p;
    for_each (hash_order (GetWriteSet b)) (λ k, on_shard primaryShard (AddWriteSet k.1 k.2))).

(** [Prepare] up to the wait; no promise when it returns at once. *)
Definition Prepare_call : MC (option address) :=
  c ← get_st;
  primary ← lift_res (choose_primary c);
  let '(primaryShard, primaryIsNotParticipant) := primary in
  let ps := participants c in
  l ← new_promise (Promise_prepare (t_id c) ps PREPARE_TIMEOUT);
  match tpcMode c with
  | MODE_SLOW | MODE_RC =>
      _ ← on_shard primaryShard (SetParticipants ps);
      if bool_decide (ps = []) then mret None
      else
        _ ← gather primaryShard;
        _ ← on_shard primaryShard (SetPrimaryShard primaryShard);
        _ ← on_shard primaryShard (BufferClient.Prepare Timestamp0 l);
        mret (Some l)
  | _ =>
      if bool_decide (ps = []) then mret None
      else
        _ ← for_each ps (λ p,
              _ ← on_shard p (SetParticipants ps);
              _ ← on_shard p (SetPrimaryShard primaryShard);
              _ ← on_shard p (BufferClient.Prepare Timestamp0 l);
              when (p =? primaryShard) (on_shard primaryShard (BufferClient.ParallelModeCommit l)));
        _ ← when primaryIsNotParticipant
              (_ ← on_shard primaryShard (SetParticipants ps);
               on_shard primaryShard (BufferClient.ParallelModeCommit l));
        mret (Some l)
  end.

(** ** Abort and Commit *)

Definition Abort : MC unit :=
  c ← get_st; for_each (participants c) (λ p, on_shard p BufferClient.Abort).

(** The commit timestamp of the Spanner modes, and the time to wait: the timestamp is later
    than the clock of the time server says. *)
Definition spanner_time (ts now err : Z) : Z * Z :=
  if now >? ts then (now, err)
  else
    let diff := u64 (u64 (u64 (Z.shiftr ts 32 - Z.shiftr now 32) * 1000000) +
                     u64 (Z.land ts 0xffffffff - Z.land now 0xffffffff)) in
    (ts, u64 (err + diff)).

(** The end of [Commit], with the clock of the time server. *)
Definition Commit_finish (status ts retry_num now err : Z) : MC outcome :=
  c ← get_st;
  _ ← (if status =? REPLY_OK then
         let spanner := bool_decide (mode c = MODE_SPAN_OCC) || bool_decide (mode c = MODE_SPAN_LOCK) in
         let '(ts', err') := if spanner then spanner_time ts now err else (ts, err) in
         _ ← when spanner (modify (λ c, c <| commit_sleep := Some (to_int err') |>));
         for_each (participants c) (λ p, on_shard p (BufferClient.Commit ts'))
       else Abort);
  _ ← modify (λ c, c <| v ::= (λ l, l ++ [retry_num]) |>);
  _ ← set_app Idle;
  mret (ReturnedCommit (status =? REPLY_OK)).

(** A round of the loop: [Prepare], and the wait if it did not return at once. *)
Definition Commit_round (retry_num now err : Z) : MC (option outcome) :=
  w ← Prepare_call;
  match w with
  | Some l => _ ← set_app (Preparing retry_num l); mret None
  | None => o ← Commit_finish 0 0 retry_num now err; mret (Some o)
  end.

Definition Commit_call (now err : Z) : MC (option outcome) := Commit_round 0 now err.

(** After the wait: the end of [Prepare] and the test of the loop. *)
Definition Commit_return (retry_num : Z) (l : address) (now err : Z) : MC (option outcome) :=
  p ← promise_of l;
  match GetPrepareReply p with
  | None => mret None
  | Some status =>
      let ts := timestamp (p_timestamp p) in
      _ ← delete_promise l;
      if (status =? REPLY_OK) || (status =? REPLY_ABORT) || (status =? REPLY_FAIL) then
        o ← Commit_finish status ts retry_num now err; mret (Some o)
      else if retry_num + 1 <? COMMIT_RETRIES then Commit_round (retry_num + 1) now err
      else o ← Commit_finish status ts (retry_num + 1) now err; mret (Some o)
  end.

(** ** Steps *)

(** What the application calls when it is idle. *)
Inductive call := CBegin | CGet (key : string) | CMultiGet (keys : list string) | CPut (key value : string)
| CCommit | CAbort.

Inductive label :=
| LCall (k : call) (now err : Z)
| LResume (now err : Z)
| LTask (j : nat)
| LMessage (i : Z) (m : client_message)
| LTimer (i : Z) (k : client_timer) (tid : Z).

Definition nothing (m : MC unit) : MC (option outcome) := _ ← m; mret None.

Definition step (a : label) : MC (option outcome) :=
  c ← get_st;
  match a with
  | LCall k now err =>
      if decide (app c = Idle) then
        match k with
        | CBegin => o ← Begin; mret (Some o)
        | CGet key => nothing (Get_call key)
        | CMultiGet keys => nothing (MultiGet_call keys)
        | CPut key value => o ← Put key value; mret (Some o)
        | CCommit => Commit_call now err
        | CAbort => _ ← Abort; mret (Some Returned)
        end
      else mret None
  | LResume now err =>
      match app c with
      | Idle => mret None
      | Getting i key l record => Get_return i key l record
      | MultiGetting i keys rest l value => MultiGet_return i keys rest l value
      | Preparing retry_num l => Commit_return retry_num l now err
      end
  | LTask j =>
      match c_posted c !! j with
      | None => mret None
      | Some (i, t) =>
          _ ← modify (λ c, c <| c_posted ::= (λ l, take j l ++ drop (S j) l) |>);
          nothing (on_shard i (below (run_task t)))
      end
  | LMessage i m => nothing (on_shard i (below (client_do (EvMessage m))))
  | LTimer i k tid => nothing (on_shard i (below (client_do (EvTimer k tid))))
  end.
End client.
