(* ===== verification/ClientSafety.v ===== *)
(** Commit of the strong store client is safe: every run of the client, with any interleaving of
    the application and the network thread and any loss, duplication, delay and reordering of
    messages, reports a commit only if the transaction is prepared at every participant, or the
    primary shard or the coordinators decided to commit it. *)

From S2P Require Import LRLog QuorumSet LRReplica LRClient Sharding.
From S2P Require Import Prelude Timestamp Transaction Promise BufferClient ShardClient StrongClient.

(** ** What an event does to the replication client *)

Section lr.
Context `{!Network, HO : HashOrder}.

(** The continuations stored with the requests are the ones [ShardClient] binds. *)
Definition bound_req (r : PendingRequest) : Prop :=
  match r with
  | ReqPrepare r => p_error r = Some PrepareTimeoutCont
  | ReqGetData g => g_error g = Some GetTimeoutCont
  end.

Record bound (c : LRClient) : Prop := {
  bound_reqs : ∀ tid r, pendingReqs c !! tid = Some r → bound_req r;
  bound_parallel : ∀ tid r, pendingParallelCommits c !! tid = Some r → pc_error r = None
}.

Definition binds (ev : client_event) : Prop :=
  match ev with
  | EvPrepare _ _ e => e = Some PrepareTimeoutCont
  | EvGetData _ _ _ e => e = Some GetTimeoutCont
  | EvParallelCommit _ _ _ e => e = None
  | _ => True
  end.

Definition is_get (r : PendingRequest) : bool := match r with ReqGetData _ => true | _ => false end.

(** Where a request in the table after the event comes from. *)
Definition from_event (ev : client_event) (tid : Z) (r : PendingRequest) : Prop :=
  match ev with
  | EvPrepare txn _ _ => getID txn = Some tid ∧ is_get r = false
  | EvGetData t _ _ _ => t = tid ∧ is_get r = true
  | _ => False
  end.

(** The call an event makes, by the request it answers. *)
Definition calls (ev : client_event) (c c' : LRClient) (i : invocation) : Prop :=
  match i with
  | CallPrepare tid sh st _ => ∃ m r, ev = EvMessage (InPrepareReply m) ∧ ptr_tid m = tid ∧ ptr_shard m = sh ∧
      pendingReqs c !! tid = Some (ReqPrepare r)
  | CallGet _ _ _ | CallError GetTimeoutCont _ =>
      ∃ t g, pendingReqs c !! t = Some (ReqGetData g) ∧ pendingReqs c' = delete t (pendingReqs c)
  | CallParallel tid st _ => ∃ m, ev = EvMessage (InParallelReply m) ∧ pmr_tid m = tid ∧
      st = state_int (pmr_state m) ∧ pendingParallelCommits c ≠ ∅
  | CallError PrepareTimeoutCont _ => True
  end.

Definition opens_parallel (ev : client_event) : Prop :=
  match ev with EvParallelCommit _ _ _ _ => True | _ => False end.

Record client_effect (ev : client_event) (c c' : LRClient) : Prop := {
  eff_bound : bound c';
  eff_reqs : ∀ tid r', pendingReqs c' !! tid = Some r' →
    (∃ r, pendingReqs c !! tid = Some r ∧ is_get r = is_get r') ∨ from_event ev tid r';
  eff_parallel : pendingParallelCommits c' ≠ ∅ → pendingParallelCommits c ≠ ∅ ∨ opens_parallel ev;
  eff_calls : invoked c' = [] ∨ ∃ i, invoked c' = [i] ∧ calls ev c c' i
}.

Lemma effect_same ev c c' :
  bound c' → (∀ tid r', pendingReqs c' !! tid = Some r' →
    (∃ r, pendingReqs c !! tid = Some r ∧ is_get r = is_get r') ∨ from_event ev tid r') →
  (pendingParallelCommits c' ≠ ∅ → pendingParallelCommits c ≠ ∅ ∨ opens_parallel ev) →
  invoked c' = [] → client_effect ev c c'.
Proof. intros. split; auto. Qed.

Lemma effect_refl ev c : bound c → invoked c = [] → client_effect ev c c.
Proof. intros. apply effect_same; eauto. Qed.

Lemma delete_reqs ev t (reqs : gmap Z PendingRequest) tid r' :
  delete t reqs !! tid = Some r' →
  (∃ r, reqs !! tid = Some r ∧ is_get r = is_get r') ∨ from_event ev tid r'.
Proof. intros [_ ?]%lookup_delete_Some. eauto. Qed.

Lemma delete_bound t (c c' : LRClient) :
  bound c → pendingReqs c' = delete t (pendingReqs c) → pendingParallelCommits c' = pendingParallelCommits c →
  bound c'.
Proof.
  intros [Hr Hp] Hreq Hpar. split.
  - intros tid r. rewrite Hreq. intros [_ ?]%lookup_delete_Some. eauto.
  - rewrite Hpar. done.
Qed.

Lemma effect_prepare txn leader c :
  bound c → invoked c = [] →
  wlp (client_handle (EvPrepare txn leader (Some PrepareTimeoutCont)))
    (λ _ c', client_effect (EvPrepare txn leader (Some PrepareTimeoutCont)) c c') c.
Proof.
  intros [Hr Hp] Hi. unfold client_handle, InvokePrepare, SendPrepare. simpl.
  destruct (getID txn) as [tid|] eqn:Ht; [|done]. do 3 run.
  destruct (getPrimaryShard txn); [|done]. run. run. run.
  assert (∀ req, p_error req = Some PrepareTimeoutCont → ∀ c', 
    pendingReqs c' = <[tid := ReqPrepare req]> (pendingReqs c) ∨ pendingReqs c' = delete tid (pendingReqs c) →
    pendingParallelCommits c' = pendingParallelCommits c → invoked c' = [] →
    client_effect (EvPrepare txn leader (Some PrepareTimeoutCont)) c c') as Hgen.
  { intros req Herr c' Hreq Hpar Hinv. destruct Hreq as [Hreq|Hreq].
    - apply effect_same; [split| |by rewrite Hpar; auto|done].
      + intros t r. rewrite Hreq. intros [[<- <-]|[_ ?]]%lookup_insert_Some; [done|eauto].
      + by rewrite Hpar.
      + intros t r. rewrite Hreq. intros [[<- <-]|[_ ?]]%lookup_insert_Some; [right; done|eauto].
    - apply effect_same; [by eapply delete_bound|rewrite Hreq; by apply delete_reqs|by rewrite Hpar; auto|done]. }
  destruct (send_ok _); unfold post; simpl.
  - eapply (Hgen (PendingPrepare_new leader txn (Some PrepareTimeoutCont) <| p_timer := true |>));
      [done| |done|done]. left. simpl. by rewrite insert_insert_eq.
  - eapply (Hgen (PendingPrepare_new leader txn (Some PrepareTimeoutCont))); [done| |done|done].
    right. simpl. apply delete_insert_eq.
Qed.

(** Removing a request and calling its continuation. *)
Lemma effect_call ev t i c c' :
  bound c → invoked c = [] → pendingReqs c' = delete t (pendingReqs c) →
  pendingParallelCommits c' = pendingParallelCommits c → invoked c' = invoked c ++ [i] → calls ev c c' i →
  client_effect ev c c'.
Proof.
  intros Hb Hi Hr Hp Hi' Hc. split.
  - by eapply delete_bound.
  - intros tid r'. rewrite Hr. apply delete_reqs.
  - rewrite Hp. auto.
  - right. exists i. by rewrite Hi', Hi.
Qed.

Lemma effect_reply m c :
  bound c → invoked c = [] →
  wlp (client_handle (EvMessage (InPrepareReply m)))
    (λ _ c', client_effect (EvMessage (InPrepareReply m)) c c') c.
Proof.
  intros Hb Hi. unfold client_handle. simpl. unfold HandlePrepareTxnReply. apply post_get.
  destruct (pendingReqs c !! ptr_tid m) as [r|] eqn:Hr; [|by apply effect_refl].
  destruct r as [req|]; [|done]. run.
  assert (p_error (record_reply (config c) (lc_mode c) m req).2 = p_error req) as Herr.
  { unfold record_reply, CarouselCheck, RCCheck. by repeat (case_match; simplify_eq/=). }
  destruct (record_reply _ _ _ _) as [[] req']; simpl in Herr.
  - destruct (p_state req') as [st|]; [|done]. run. run. unfold post. simpl.
    eapply effect_call; [done..|]. simpl. eauto 10.
  - unfold post. simpl. apply effect_same; [split|..|done]; simpl.
    + intros t r [[<- <-]|[_ ?]]%lookup_insert_Some; [simpl; rewrite Herr; apply (bound_reqs c Hb _ _ Hr)|].
      by eapply bound_reqs.
    + apply Hb.
    + intros t r [[<- <-]|[_ ?]]%lookup_insert_Some; left; eauto.
    + auto.
Qed.

Lemma effect_others ev c :
  ¬ is_prepare ev → binds ev → bound c → invoked c = [] →
  wlp (client_handle ev) (λ _ c', client_effect ev c c') c.
Proof.
  intros Hev Hbind Hb Hi. pose proof Hb as [Hr Hp]. destruct ev as [|tid ks rep e|tid ps rep e| |[]|k tid]; try done.
  - simpl in Hbind. subst e. unfold client_handle, InvokeGetData. run. unfold post.
    destruct (send_ok _); simpl; (apply effect_same; [split|..|done]; simpl; eauto).
    + intros t r [[<- <-]|[_ ?]]%lookup_insert_Some; [done|eauto].
    + intros t r [[<- <-]|[_ ?]]%lookup_insert_Some; [by right|eauto].
  - simpl in Hbind. subst e. unfold client_handle, InvokeParallelCommit. run. unfold post.
    destruct (send_ok _); simpl; (apply effect_same; [split|..|done]; simpl; eauto).
    intros t r [[<- <-]|[_ ?]]%lookup_insert_Some; [done|eauto].
  - unfold client_handle, InvokeCommit. run. apply effect_same; [by split|eauto|auto|done].
  - unfold client_handle. simpl. unfold HandleGetDataReply. apply post_get.
    destruct (pendingReqs c !! gdr_tid m) as [[|g]|] eqn:E; [done| |by apply effect_refl].
    do 2 run. unfold post. simpl. eapply effect_call; [done..|]. simpl. eauto.
  - unfold client_handle. simpl. unfold HandleParallelModeCommitReply. apply post_get.
    destruct (pendingParallelCommits c !! pmr_tid m) as [pc|] eqn:E; [|by apply effect_refl]. run.
    destruct (pendingReqs c !! pmr_tid m) as [[r|]|] eqn:Hreq; [run|done|run]; unfold post; simpl.
    all: split; simpl;
      [split; simpl; [first [done|intros t x [_ ?]%lookup_delete_Some; eauto]|
                      intros t x [_ ?]%lookup_delete_Some; eauto]
      |first [intros t r'; apply (delete_reqs (EvMessage (InParallelReply m)))|eauto]
      |intros _; left; intros Hemp; by rewrite Hemp, lookup_empty in E
      |right; rewrite Hi; eexists; split; [done|]; simpl; eexists; split_and!; [done..|];
       intros Hemp; by rewrite Hemp, lookup_empty in E].
  - by apply effect_refl.
  - destruct k; unfold client_handle; simpl.
    + unfold PrepareTimeoutCallback. apply post_get.
      destruct (pendingReqs c !! tid) as [[r|]|] eqn:E; [|done|by apply effect_refl].
      do 2 run. rewrite (Hr _ _ E : p_error r = _). unfold post. simpl. by eapply effect_call.
    + unfold GetDateTimeoutCallback. apply post_get.
      destruct (pendingReqs c !! tid) as [[|g]|] eqn:E; [done| |by apply effect_refl].
      do 2 run. rewrite (Hr _ _ E : g_error g = _). unfold post. simpl. eapply effect_call; [done..|]. simpl. eauto.
    + unfold ParallelModeCommit_timeout. apply post_get.
      destruct (pendingParallelCommits c !! tid) as [r|] eqn:E; [|by apply effect_refl].
      run. rewrite (Hp _ _ E). unfold post. simpl. apply effect_same; [split|..|done]; simpl; eauto.
      * intros t x [_ ?]%lookup_delete_Some. eauto.
      * intros _. left. intros Hemp. by rewrite Hemp, lookup_empty in E.
Qed.

Lemma client_handle_effect ev c :
  binds ev → bound c → invoked c = [] → wlp (client_handle ev) (λ _ c', client_effect ev c c') c.
Proof.
  intros. destruct ev as [txn leader e| | | |[]|]; try (apply effect_others; [by intros []|done..]).
  - simpl in *. subst e. by apply effect_prepare.
  - by apply effect_reply.
Qed.
End lr.

(** ** What an event does to a shard client and to the promises *)

Section shard.
Context `{!Network, HO : HashOrder}.
Context (cfg : Configuration) (tm : TpcMode) (arrived : PrepareTransactionReply → Prop) (i : Z).
Hypothesis i_range : 0 ≤ i < 2 ^ 31.

Record shard_ok (s : ShardClient) : Prop := {
  ok_shard : shard s = i;
  ok_mode : sc_mode s = tm;
  ok_backed : backed cfg tm arrived (client s);
  ok_bound : bound (client s);
  ok_parallel : tm ≠ MODE_PARALLEL → pendingParallelCommits (client s) = ∅;
  ok_invoked : invoked (client s) = []
}.

(** In these modes the primary shard decides. *)
Definition primary_decides (m : TpcMode) : bool := bool_decide (m = MODE_SLOW) || bool_decide (m = MODE_RC).

(** How an event answers a promise. *)
Inductive answered (ev : client_event) (c c' : LRClient) (p : Promise) : Promise → Prop :=
| answered_get t g p' :
    pendingReqs c !! t = Some (ReqGetData g) → pendingReqs c' = delete t (pendingReqs c) →
    p_tid p' = p_tid p → answered ev c c' p p'
| answered_final tid st t :
    primary_decides tm = true → p_tid p = Some tid → (st = REPLY_OK → supported cfg tm arrived tid true) →
    answered ev c c' p (Reply_final st t p)
| answered_shard tid st t r p' :
    primary_decides tm = false → p_tid p = Some tid → pendingReqs c !! tid = Some (ReqPrepare r) →
    (st = REPLY_OK → supported cfg tm arrived tid true) → Reply_shard i st t p = Ok p' → answered ev c c' p p'
| answered_timeout tid p' :
    p_tid p = Some tid → Reply_shard i REPLY_TIMEOUT Timestamp0 p = Ok p' → answered ev c c' p p'
| answered_parallel m t :
    tm = MODE_PARALLEL → ev = EvMessage (InParallelReply m) → p_tid p = Some (pmr_tid m) →
    answered ev c c' p (Reply_parallel (state_int (pmr_state m)) t true p).

Record shard_effect (ev : client_event) (e e' : ShardEnv) : Prop := {
  se_ok : shard_ok (sc e');
  se_posted : posted e' = posted e;
  se_waiting : waiting (sc e') = waiting (sc e) ∨ waiting (sc e') = None;
  se_reqs : ∀ tid r', pendingReqs (client (sc e')) !! tid = Some r' →
    (∃ r, pendingReqs (client (sc e)) !! tid = Some r ∧ is_get r = is_get r') ∨ from_event ev tid r';
  se_heap : promises e' = promises e ∨ ∃ l p p', waiting (sc e) = Some l ∧ promises e !! l = Some p ∧
    promises e' = <[l := p']> (promises e) ∧ answered ev (client (sc e)) (client (sc e')) p p'
}.

Definition honest (ev : client_event) : Prop :=
  ∀ m, ev = EvMessage (InPrepareReply m) → arrived m ∧ ptr_shard m = i.

Lemma wlp_promise {A} l (k : Promise → M ShardEnv A) Q e :
  (∀ p, promises e !! l = Some p → wlp (k p) Q e) → wlp (promise l ≫= k) Q e.
Proof.
  intros Hk. unfold promise, post, mbind, M_bind, get_st. simpl.
  destruct (promises e !! l) as [p|] eqn:Hp; [by apply (Hk p)|done].
Qed.

Lemma wlp_tid {A} p (k : Z → M ShardEnv A) Q e :
  (∀ t, p_tid p = Some t → wlp (k t) Q e) → wlp (lift_res (GetTid p) ≫= k) Q e.
Proof.
  intros Hk. apply wlp_bind_lift. unfold GetTid. destruct (p_tid p); [|done]. intros ? [= <-]. by apply Hk.
Qed.

Lemma shard_ok_waiting s w : shard_ok s → shard_ok (s <| waiting := w |>).
Proof. by intros []. Qed.

(** A callback answers the promise the shard client waits for, or none. *)
Definition callback_post (ev : client_event) (c : LRClient) (e e' : ShardEnv) : Prop :=
  shard_ok (sc e') ∧ posted e' = posted e ∧ client (sc e') = client (sc e) ∧
  (waiting (sc e') = waiting (sc e) ∨ waiting (sc e') = None) ∧
  (promises e' = promises e ∨ ∃ l p p', waiting (sc e) = Some l ∧ promises e !! l = Some p ∧
     promises e' = <[l := p']> (promises e) ∧ answered ev c (client (sc e)) p p').

Lemma callback_none ev c e : shard_ok (sc e) → callback_post ev c e e.
Proof. intros Hok. unfold callback_post. auto 10. Qed.

Lemma callback_answer ev c e l p p' w e' :
  shard_ok (sc e) → waiting (sc e) = Some l → promises e !! l = Some p →
  answered ev c (client (sc e)) p p' → w = waiting (sc e) ∨ w = None →
  e' = e <| sc ::= (λ s, s <| waiting := w |>) |> <| promises ::= <[l := p']> |> → callback_post ev c e e'.
Proof.
  intros Hok Hw Hp Ha Hw' ->. split_and!; simpl; [by apply shard_ok_waiting|done|done|done|].
  right. exists l, p, p'. by rewrite Hw.
Qed.

Lemma env_waiting_id e : e <| sc ::= (λ s, s <| waiting := waiting (sc e) |>) |> = e.
Proof. destruct e as [[] ? ?]. done. Qed.

Lemma callback_effect ev c e inv :
  honest ev → shard_ok (sc e) → (tm ≠ MODE_PARALLEL → pendingParallelCommits c = ∅) →
  calls ev c (client (sc e)) inv → backed_call cfg tm arrived inv →
  wlp (callback inv) (λ _ e', callback_post ev c e e') e.
Proof.
  intros Hh Hok Hpar Hc Hb.
  destruct inv as [tid sh st ts|rk vs st|tid st ts|[] tid]; simpl in *.
  - destruct Hc as (m & r & -> & <- & <- & Hr). destruct (Hh m eq_refl) as [Harr Hsh]. rewrite Hsh.
    unfold PrepareCallback. apply post_get. destruct (waiting (sc e)) as [l|] eqn:Hw; [|by apply callback_none].
    apply wlp_promise. intros p Hp. apply wlp_tid. intros t Ht. case_match eqn:Hskip; [by apply callback_none|].
    apply orb_false_elim in Hskip as [Htid%negb_false_iff%Z.eqb_eq _]. subst t.
    assert (st = REPLY_OK → supported cfg tm arrived (ptr_tid m) true) as Hsup.
    { unfold REPLY_OK. intros ->. by destruct Hb as [[_ ?]|[? _]]. }
    rewrite (ok_mode _ Hok). fold (primary_decides tm). destruct (primary_decides tm) eqn:Hpd.
    + run. eapply callback_answer; [done..| |by right|reflexivity]. by eapply answered_final.
    + apply wlp_bind_lift. intros p' Hp'. rewrite to_int_small in Hp' by lia.
      eapply callback_answer with (w := waiting (sc e)); [done..| |by left|by rewrite env_waiting_id].
      by eapply answered_shard.
  - destruct Hc as (t & g & Hg & Hd). unfold GetCallback. apply post_get.
    destruct (waiting (sc e)) as [l|] eqn:Hw; [|by apply callback_none].
    run. apply wlp_promise. simpl. intros p Hp. destruct vs as [|v vs].
    + eapply callback_answer; [done..| |by right|reflexivity]. by eapply answered_get.
    + apply wlp_bind_deref. intros k Hk.
      eapply callback_answer; [done..| |by right|reflexivity]. by eapply answered_get.
  - destruct Hc as (m & -> & <- & -> & Hne). unfold ParallelModeCommitCallback. apply post_get.
    destruct (waiting (sc e)) as [l|] eqn:Hw; [|by apply callback_none].
    apply wlp_promise. intros p Hp. apply wlp_tid. intros t Ht. case_match eqn:Htid; [|by apply callback_none].
    run. eapply callback_answer; [done..| |by right|reflexivity]. apply answered_parallel; [|done|].
    + destruct (decide (tm = MODE_PARALLEL)) as [|Hm]; [done|]. by apply Hpar in Hm.
    + rewrite Ht. f_equal. lia.
  - destruct Hc as (t & g & Hg & Hd). unfold GetTimeout. apply post_get.
    destruct (waiting (sc e)) as [l|] eqn:Hw; [|by apply callback_none].
    run. apply wlp_promise. simpl. intros p Hp.
    eapply callback_answer; [done..| |by right|reflexivity]. by eapply answered_get.
  - unfold PrepareTimeout. apply post_get.
    destruct (waiting (sc e)) as [l|] eqn:Hw; [|by apply callback_none].
    apply wlp_promise. intros p Hp. apply wlp_tid. intros t Ht. case_match; [|by apply callback_none].
    apply wlp_bind_lift. rewrite (ok_shard _ Hok). intros p' Hp'.
    eapply callback_answer with (w := waiting (sc e)); [done..| |by left|by rewrite env_waiting_id].
    by eapply answered_timeout.
Qed.

Lemma client_do_effect ev e :
  binds ev → honest ev → (opens_parallel ev → tm = MODE_PARALLEL) → shard_ok (sc e) →
  wlp (client_do ev) (λ _ e', shard_effect ev e e') e.
Proof.
  intros Hbind Hh Hopen Hok. pose proof Hok as [Hi Hm Hback Hbound Hpar Hinv]. unfold client_do, post.
  assert (client (sc e) <| invoked := [] |> = client (sc e)) as ->.
  { destruct (client (sc e)) eqn:E. simpl in *. by subst. }
  pose proof (client_handle_effect ev (client (sc e)) Hbind Hbound Hinv) as Heff.
  assert (wlp (client_handle ev) (λ _ c', backed cfg tm arrived c') (client (sc e))) as Hback'.
  { apply client_handle_backed; [|done]. intros m Hev. by apply Hh. }
  unfold post in Heff, Hback'. destruct (client_handle ev (client (sc e))) as [[[] c']| |]; [|done..].
  destruct Heff as [Hb' Hreqs Hpar' Hcalls].
  set (e1 := e <| sc ::= (λ s, s <| client := c' <| invoked := [] |> |>) |>).
  assert (shard_ok (sc e1)) as Hok1.
  { split; simpl; try done; [destruct Hback'; by split|by destruct Hb'|]. intros Hne.
    destruct (decide (pendingParallelCommits c' = ∅)) as [|Hc']; [done|].
    destruct (Hpar' Hc') as [Hc|Hc]; [by rewrite Hpar in Hc|]. by destruct (Hne (Hopen Hc)). }
  destruct Hcalls as [->|(inv & Hinv' & Hcall)].
  - simpl. split; simpl; [apply Hok1|done|by left|done|by left].
  - rewrite Hinv'. simpl. change (wlp (_ ← callback inv; mret tt) (λ _ e', shard_effect ev e e') e1).
    apply post_bind. eapply post_mono; [apply (callback_effect ev (client (sc e)) e1 inv Hh Hok1 Hpar)|].
    + destruct inv as [| | |[]]; done.
    + pose proof (backed_calls _ _ _ _ Hback') as Hall. rewrite Hinv' in Hall. by apply Forall_inv in Hall.
    + intros [] e' (Hok' & Hpost & Hcl & Hw & Hheap). apply post_ret. split; try done.
      * rewrite Hcl. done.
      * rewrite Hcl. apply Hheap.
Qed.
End shard.

(** ** The client *)

Section client.
Context `{!Network, HO : HashOrder, !JsonLib}.
Context (tr : list label) (configs : list Configuration) (tm : TpcMode).
Hypothesis configs_few : Z.of_nat (length configs) < 2 ^ 31.
Hypothesis honest_tr : ∀ i m, LMessage i (InPrepareReply m) ∈ tr → ptr_shard m = i.

Definition cfg_of (p : Z) : Configuration := default (MkConfiguration 0 0) (configs !! Z.to_nat p).

(** Replies that arrived from the replicas of shard [p]; shard [p] answered that the
    transaction is prepared; and somebody else decided to commit it. *)
Definition arrived_at (p : Z) (m : PrepareTransactionReply) : Prop := LMessage p (InPrepareReply m) ∈ tr.

Definition agreed (tid p : Z) : Prop := supported (cfg_of p) tm (arrived_at p) tid true.

Definition decided (tid : Z) : Prop :=
  (primary_decides tm = true ∧ ∃ p, agreed tid p) ∨
  (tm = MODE_PARALLEL ∧ ∃ i m, LMessage i (InParallelReply m) ∈ tr ∧ pmr_tid m = tid ∧
     pmr_state m = LOG_STATE_COMMIT).

(** *** Invariant *)

(** A request for a prepare of [tid] at shard [i] is one of the current transaction at a
    participant, or of an earlier transaction. *)
Definition request_ok (c : Client) (i tid : Z) : Prop :=
  tid ≤ t_id c ∧ (tid = t_id c → i ∈ participants c).

Definition task_ok (c : Client) (i : Z) (t : task) : Prop :=
  match t with
  | TaskPrepare txn _ => ∀ tid, getID txn = Some tid → request_ok c i tid
  | TaskParallel _ _ _ => tm = MODE_PARALLEL
  | TaskGet _ _ _ => True
  end.

Record core (c : Client) : Prop := {
  co_mode : tpcMode c = tm;
  co_nshards : nshards c = Z.of_nat (length configs);
  co_nodup : NoDup (participants c);
  co_parts : ∀ p, p ∈ participants c → 0 ≤ p < nshards c;
  co_length : (length (bclient c) ≤ length configs)%nat;
  co_shard : ∀ i b s, bclient c !! i = Some (b, s) →
    shard_ok (cfg_of (Z.of_nat i)) tm (arrived_at (Z.of_nat i)) (Z.of_nat i) s;
  co_buffer : ∀ i b s t, bclient c !! i = Some (b, s) → getID (txn b) = Some t → t ≤ t_id c;
  co_entry : ∀ i b s tid r, bclient c !! i = Some (b, s) →
    pendingReqs (client s) !! tid = Some (ReqPrepare r) → request_ok c (Z.of_nat i) tid;
  co_task : ∀ i t, (i, t) ∈ c_posted c → task_ok c i t
}.

(** There are at most as many participants as shards. *)
Lemma participants_few c : core c → Z.of_nat (length (participants c)) < 2 ^ 31.
Proof.
  intros Hc. assert (length (participants c) ≤ length (seqZ 0 (nshards c)))%nat as Hl.
  { apply submseteq_length, NoDup_submseteq; [apply Hc|]. intros p Hp. apply elem_of_seqZ.
    pose proof (co_parts c Hc p Hp). lia. }
  rewrite length_seqZ, (co_nshards c Hc) in Hl. lia.
Qed.

(** No read is under way. *)
Definition no_get_entries (c : Client) : Prop :=
  ∀ i b s tid g, bclient c !! i = Some (b, s) → pendingReqs (client s) !! tid = Some (ReqGetData g) → False.

Definition is_get_task (x : Z * task) : Prop := match x.2 with TaskGet _ _ _ => True | _ => False end.

#[local] Instance is_get_task_dec x : Decision (is_get_task x).
Proof. destruct x as [? []]; simpl; apply _. Defined.

Definition get_count (l : list (Z * task)) : nat := length (filter is_get_task l).

Definition no_get_tasks (l : list (Z * task)) : Prop := get_count l = 0%nat.

Definition calm (c : Client) : Prop := core c ∧ no_get_entries c ∧ no_get_tasks (c_posted c).

(** At most one read is under way. *)
Definition one_get (c : Client) : Prop :=
  (no_get_tasks (c_posted c) ∧ ∃ i t, ∀ i' b s t' g, bclient c !! i' = Some (b, s) →
     pendingReqs (client s) !! t' = Some (ReqGetData g) → i' = i ∧ t' = t) ∨
  (no_get_entries c ∧ (get_count (c_posted c) ≤ 1)%nat).

(** The promise of a prepare. *)
Record prepare_promise (tid : Z) (ps : list Z) (p : Promise) : Prop := {
  pp_tid : p_tid p = Some tid;
  pp_number : participantNumber p = Some (Z.of_nat (length ps));
  pp_votes : ∀ s r, preparereplies p !! s = Some r → s ∈ ps ∧ agreed tid s;
  pp_done : done p = true → fail p = false → reachFinalDecision p = false →
    size (preparereplies p) = length ps;
  pp_decided : fail p = true ∨ reachFinalDecision p = true → reply p = REPLY_OK → decided tid
}.

Record read_promise (c : Client) (p : Promise) : Prop := {
  rp_tid : p_tid p = None;
  rp_done : done p = true → no_get_entries c ∧ no_get_tasks (c_posted c);
  rp_one : one_get c
}.

Definition app_ok (c : Client) : Prop :=
  match app c with
  | Idle => no_get_entries c ∧ no_get_tasks (c_posted c)
  | Preparing _ l => no_get_entries c ∧ no_get_tasks (c_posted c) ∧
      ∃ p, c_promises c !! l = Some p ∧ prepare_promise (t_id c) (participants c) p
  | Getting _ _ l _ | MultiGetting _ _ _ l _ => ∃ p, c_promises c !! l = Some p ∧ read_promise c p
  end.

Definition safe (c : Client) : Prop := core c ∧ app_ok c.

(** *** Answers to the promise of a prepare *)

Lemma refused_promise tid ps p s st t p' :
  st ≠ REPLY_OK → prepare_promise tid ps p → Reply_shard s st t p = Ok p' → prepare_promise tid ps p'.
Proof.
  intros Hst [] Hr. unfold Reply_shard in Hr. rewrite (proj2 (Z.eqb_neq _ _)) in Hr by done.
  simpl in Hr. simplify_eq. by split.
Qed.

Lemma votes_bounded (ps : list Z) (votes : gmap Z Z) :
  (∀ s r, votes !! s = Some r → s ∈ ps) → (size votes ≤ length ps)%nat.
Proof.
  intros Hv. rewrite <- size_dom. change (length (elements (dom votes)) ≤ length ps)%nat.
  apply submseteq_length, NoDup_submseteq; [apply NoDup_elements|].
  intros s [r Hr]%elem_of_elements%elem_of_dom. eauto.
Qed.

Lemma agreed_promise tid ps p s t p' :
  Z.of_nat (length ps) < 2 ^ 31 → s ∈ ps → agreed tid s → prepare_promise tid ps p →
  Reply_shard s REPLY_OK t p = Ok p' → prepare_promise tid ps p'.
Proof.
  intros Hn Hs Ha [Htid Hnum Hv Hd Hdec] Hr. unfold Reply_shard in Hr. rewrite Z.eqb_refl in Hr. cbn [negb] in Hr.
  set (p1 := p <| preparereplies ::= <[s := REPLY_OK]> |>) in Hr.
  set (p2 := if ts_lt (p_timestamp p1) t then p1 <| p_timestamp := t |> else p1) in Hr.
  assert (preparereplies p2 = <[s := REPLY_OK]> (preparereplies p) ∧ participantNumber p2 = participantNumber p ∧
    fail p2 = fail p ∧ reply p2 = reply p ∧ reachFinalDecision p2 = reachFinalDecision p ∧ done p2 = done p ∧
    p_tid p2 = p_tid p) as (E1 & E2 & E3 & E4 & E5 & E6 & E7).
  { unfold p2. by destruct (ts_lt (p_timestamp p1) t). }
  clearbody p2. clear p1. rewrite E2, Hnum in Hr. injection Hr as <-.
  assert (∀ s' r, <[s := REPLY_OK]> (preparereplies p) !! s' = Some r → s' ∈ ps ∧ agreed tid s') as Hv'.
  { intros s' r [[<- <-]|[_ ?]]%lookup_insert_Some; eauto. }
  assert (size (preparereplies p) ≤ size (<[s := REPLY_OK]> (preparereplies p)) ≤ length ps)%nat as Hsize.
  { split; [rewrite map_size_insert; case_match; simpl; lia|]. apply votes_bounded. naive_solver. }
  rewrite E1, u64_small by (unfold is_u64, u64_modulus; lia).
  destruct (Z.of_nat (size _) =? _) eqn:Heq; split; simpl; rewrite ?E1, ?E2, ?E3, ?E4, ?E5, ?E6, ?E7; auto; [lia|].
  intros H1 H2 H3. specialize (Hd H1 H2 H3). lia.
Qed.

Lemma final_promise tid ps p st t f :
  f = Reply_final st t p ∨ f = Reply_parallel st t true p → (st = REPLY_OK → decided tid) →
  prepare_promise tid ps p → prepare_promise tid ps f.
Proof. intros Hf Hst []. destruct Hf as [-> | ->]; by split; simpl; auto. Qed.

(** The answers of an event keep the promise of a prepare. *)
Lemma answered_prepare_promise (i : Z) ev c c' tid ps p p' :
  Z.of_nat (length ps) < 2 ^ 31 →
  (∀ t g, pendingReqs c !! t ≠ Some (ReqGetData g)) →
  (∀ r, pendingReqs c !! tid = Some (ReqPrepare r) → i ∈ ps) →
  (∀ m, ev = EvMessage m → LMessage i m ∈ tr) →
  prepare_promise tid ps p → answered (cfg_of i) tm (arrived_at i) i ev c c' p p' → prepare_promise tid ps p'.
Proof.
  intros Hn Hg He Hev Hp Ha.
  destruct Ha as [? ? ? Hget|tid' st t Hpd Ht Hs|tid' st t r p' Hpd Ht Hr Hs Hreply|tid' p' Ht Hreply|m t Hm -> Ht].
  - by destruct (Hg _ _ Hget).
  - assert (tid' = tid) as -> by (rewrite (pp_tid _ _ _ Hp) in Ht; congruence).
    eapply final_promise; [by left| |done]. intros Hst. left. split; [done|]. exists i. by apply Hs.
  - assert (tid' = tid) as -> by (rewrite (pp_tid _ _ _ Hp) in Ht; congruence).
    destruct (decide (st = REPLY_OK)) as [->|Hst]; [|by eapply refused_promise].
    eapply agreed_promise; eauto. by apply Hs.
  - by apply (refused_promise _ _ p i REPLY_TIMEOUT Timestamp0).
  - assert (pmr_tid m = tid) as Htid by (rewrite (pp_tid _ _ _ Hp) in Ht; congruence).
    eapply final_promise; [by right| |done]. intros Hst. right. split; [done|]. exists i, m.
    split_and!; [by apply Hev|done|]. by destruct (pmr_state m).
Qed.

(** *** Steps of the network thread *)

Record net_effect (i : nat) (ev : client_event) (b : BufferClient) (s s' : ShardClient) (c c' : Client) : Prop := {
  ne_shard : bclient c !! i = Some (b, s);
  ne_ok : shard_ok (cfg_of (Z.of_nat i)) tm (arrived_at (Z.of_nat i)) (Z.of_nat i) s';
  ne_reqs : ∀ tid r', pendingReqs (client s') !! tid = Some r' →
    (∃ r, pendingReqs (client s) !! tid = Some r ∧ is_get r = is_get r') ∨ from_event ev tid r';
  ne_state : ∃ h, c' = c <| bclient ::= <[i := (b, s')]> |> <| c_promises := h |> <| c_posted := c_posted c |> ∧
    (h = c_promises c ∨ ∃ l p p', c_promises c !! l = Some p ∧ h = <[l := p']> (c_promises c) ∧
       answered (cfg_of (Z.of_nat i)) tm (arrived_at (Z.of_nat i)) (Z.of_nat i) ev (client s) (client s') p p')
}.

(** The event at shard [i] is one that can happen. *)
Definition event_ok (c : Client) (i : Z) (ev : client_event) : Prop :=
  match ev with
  | EvPrepare txn _ _ => ∀ tid, getID txn = Some tid → request_ok c i tid
  | EvParallelCommit _ _ _ _ => tm = MODE_PARALLEL
  | EvMessage m => LMessage i m ∈ tr
  | _ => True
  end.

Definition net_post (i : nat) (ev : client_event) (e e' : ShardEnv) : Prop :=
  ∃ w, shard_effect (cfg_of (Z.of_nat i)) tm (arrived_at (Z.of_nat i)) (Z.of_nat i) ev
         (e <| sc ::= (λ s, s <| waiting := w |>) |>) e'.

Lemma client_do_net (i : nat) ev e w :
  binds ev → (i < length configs)%nat →
  (∀ m, ev = EvMessage m → LMessage (Z.of_nat i) m ∈ tr) → (opens_parallel ev → tm = MODE_PARALLEL) →
  shard_ok (cfg_of (Z.of_nat i)) tm (arrived_at (Z.of_nat i)) (Z.of_nat i) (sc e) →
  wlp (client_do ev) (λ _ e', net_post i ev e e') (e <| sc ::= (λ s, s <| waiting := w |>) |>).
Proof.
  intros Hb Hi Hm Hp Hok. eapply post_mono.
  - apply (client_do_effect (cfg_of (Z.of_nat i)) tm (arrived_at (Z.of_nat i)) (Z.of_nat i)); [lia|done| |done|].
    + intros m ->. specialize (Hm _ eq_refl). split; [done|]. by apply honest_tr.
    + by apply shard_ok_waiting.
  - intros [] e' He'. by exists w.
Qed.

Lemma on_shard_net i (m : M (BufferClient * ShardEnv) unit) (evf : ShardClient → client_event) c :
  core c →
  (∀ b s, 0 ≤ i < Z.of_nat (length configs) → bclient c !! Z.to_nat i = Some (b, s) →
     wlp m (λ _ be, be.1 = b ∧ net_post (Z.to_nat i) (evf s) (MkShardEnv s (c_promises c) (c_posted c)) be.2)
       (b, MkShardEnv s (c_promises c) (c_posted c))) →
  wlp (on_shard i m) (λ _ c', ∃ b s s', 0 ≤ i < nshards c ∧ net_effect (Z.to_nat i) (evf s) b s s' c c') c.
Proof.
  intros Hc Hm. unfold on_shard, post. destruct (i <? 0) eqn:Hi; [done|].
  destruct (bclient c !! Z.to_nat i) as [[b s]|] eqn:Hs; [|done].
  assert (0 ≤ i < Z.of_nat (length configs)) as Hr.
  { apply lookup_lt_Some in Hs. pose proof (co_length c Hc). lia. }
  specialize (Hm b s Hr eq_refl). unfold post in Hm.
  destruct (m (b, _)) as [[[] [b' e']]| |]; [|done..]. simpl in Hm. destruct Hm as [-> [w He]].
  exists b, s, (sc e'). split; [by rewrite (co_nshards c Hc)|]. destruct He as [Hok Hpost _ Hreqs Hheap].
  split; [done|done|done|]. exists (promises e'). split; [by rewrite Hpost|].
  destruct Hheap as [->|(l & p & p' & _ & Hp & -> & Ha)]; [by left|]. right. by exists l, p, p'.
Qed.

Section net.
Context (i : nat) (ev : client_event) (b : BufferClient) (s s' : ShardClient) (c c' : Client).
Hypothesis Hne : net_effect i ev b s s' c c'.

(** What stays as it was. *)
Lemma net_fields :
  tpcMode c' = tpcMode c ∧ nshards c' = nshards c ∧ participants c' = participants c ∧ t_id c' = t_id c ∧
  c_posted c' = c_posted c ∧ app c' = app c ∧ next_promise c' = next_promise c.
Proof. destruct (ne_state _ _ _ _ _ _ _ Hne) as (h & -> & _). done. Qed.

Lemma net_bclient : bclient c' = <[i := (b, s')]> (bclient c).
Proof. destruct (ne_state _ _ _ _ _ _ _ Hne) as (h & -> & _). done. Qed.

Lemma net_lookup j b1 s1 :
  bclient c' !! j = Some (b1, s1) → (j = i ∧ b1 = b ∧ s1 = s') ∨ (j ≠ i ∧ bclient c !! j = Some (b1, s1)).
Proof.
  rewrite net_bclient. destruct (decide (j = i)) as [->|Hj].
  - rewrite list_lookup_insert_eq by (by eapply lookup_lt_Some, (ne_shard _ _ _ _ _ _ _ Hne)). naive_solver.
  - rewrite list_lookup_insert_ne by done. auto.
Qed.

Lemma net_core : core c → event_ok c (Z.of_nat i) ev → core c'.
Proof.
  intros Hc Hev. pose proof (ne_shard _ _ _ _ _ _ _ Hne) as Hs.
  destruct net_fields as (E1 & E2 & E3 & E4 & E5 & _ & _).
  split; rewrite ?E1, ?E2, ?E3, ?E4, ?E5; try apply Hc.
  - rewrite net_bclient, length_insert. apply Hc.
  - intros j b1 s1 [(-> & -> & ->)|(_ & Hj)]%net_lookup; [apply Hne|by eapply co_shard].
  - intros j b1 s1 t [(-> & -> & ->)|(_ & Hj)]%net_lookup Ht; [by eapply (co_buffer c Hc)|by eapply co_buffer].
  - intros j b1 s1 tid r Hj Hr. unfold request_ok. rewrite E3, E4.
    apply net_lookup in Hj as [(-> & -> & ->)|(_ & Hj)]; [|by eapply (co_entry c Hc)].
    destruct (ne_reqs _ _ _ _ _ _ _ Hne _ _ Hr) as [([r0|] & Hr0 & Hk)|Hf]; [|done|].
    + by eapply (co_entry c Hc).
    + destruct ev; simpl in Hf; try done; [|by destruct Hf]. apply Hev. by destruct Hf.
  - intros j t Ht. pose proof (co_task c Hc _ _ Ht) as Hok. unfold task_ok, request_ok in *. by rewrite E3, E4.
Qed.

(** Requests for reads are not added, except by their own event. *)
Lemma net_get_entry j b1 s1 t g :
  bclient c' !! j = Some (b1, s1) → pendingReqs (client s1) !! t = Some (ReqGetData g) →
  (∃ b0 s0 g0, bclient c !! j = Some (b0, s0) ∧ pendingReqs (client s0) !! t = Some (ReqGetData g0)) ∨
  (j = i ∧ ∃ ks r e, ev = EvGetData t ks r e).
Proof.
  intros [(-> & -> & ->)|(_ & Hj)]%net_lookup Hr; [|by left; eauto].
  destruct (ne_reqs _ _ _ _ _ _ _ Hne _ _ Hr) as [([|g0] & Hr0 & Hk)|Hf]; [done| |].
  - left. exists b, s, g0. split; [apply Hne|done].
  - destruct ev; simpl in Hf; try done; [by destruct Hf|]. destruct Hf as [-> _]. eauto 10.
Qed.

Lemma net_no_get_entries :
  no_get_entries c → (∀ t ks r e, ev ≠ EvGetData t ks r e) → no_get_entries c'.
Proof.
  intros Hg Hev j b1 s1 t g Hj Hr. destruct (net_get_entry _ _ _ _ _ Hj Hr) as [(? & ? & ? & ? & ?)|(_ & ? & ? & ? & ?)].
  - by eapply Hg.
  - by eapply Hev.
Qed.

(** A promise of a prepare stays one. *)
Lemma net_prepare_promise l p :
  core c → no_get_entries c → event_ok c (Z.of_nat i) ev →
  c_promises c !! l = Some p → prepare_promise (t_id c) (participants c) p →
  ∃ p', c_promises c' !! l = Some p' ∧ prepare_promise (t_id c) (participants c) p'.
Proof.
  intros Hc Hg Hev Hl Hp. destruct (ne_state _ _ _ _ _ _ _ Hne) as (h & -> & Hh). simpl.
  destruct Hh as [->|(l' & q & q' & Hq & -> & Ha)]; [eauto|].
  destruct (decide (l' = l)) as [->|Hne']; [|exists p; by rewrite lookup_insert_ne].
  rewrite lookup_insert_eq. exists q'. split; [done|]. simplify_eq.
  eapply answered_prepare_promise; [| | | |done|done].
  - apply (participants_few c Hc).
  - intros t g Hr. eapply Hg; [apply Hne|done].
  - intros r Hr. by apply (co_entry c Hc _ _ _ _ _ (ne_shard _ _ _ _ _ _ _ Hne) Hr).
  - intros m ->. apply Hev.
Qed.

(** A promise of a read stays one: the answer to it ends the read. *)
Lemma net_answered_read l p :
  c_promises c !! l = Some p → p_tid p = None → one_get c →
  ∃ p', c_promises c' !! l = Some p' ∧ p_tid p' = None ∧ (p' = p ∨ no_get_entries c' ∧ no_get_tasks (c_posted c')).
Proof.
  intros Hl Htid Hone. destruct net_fields as (_ & _ & _ & _ & E5 & _ & _).
  destruct (ne_state _ _ _ _ _ _ _ Hne) as (h & Hc' & Hh).
  assert (c_promises c' = h) as -> by by rewrite Hc'. clear Hc'.
  destruct Hh as [->|(l' & q & q' & Hq & -> & Ha)]; [by eauto|].
  destruct (decide (l' = l)) as [->|Hll]; [|exists p; rewrite lookup_insert_ne by done; eauto].
  simplify_eq. rewrite lookup_insert_eq. exists q'. split; [done|].
  destruct Ha as [t g q' Hg Hd Hq'| | | |]; try congruence. split; [congruence|]. right.
  pose proof (ne_shard _ _ _ _ _ _ _ Hne) as Hs.
  destruct Hone as [[Hnt (j & t0 & Hu)]|[Hn _]]; [|by destruct (Hn _ _ _ _ _ Hs Hg)].
  split; [|by rewrite E5]. destruct (Hu _ _ _ _ _ Hs Hg) as [<- <-].
  intros j' b1 s1 t' g' [(-> & -> & ->)|(Hj & Hb1)]%net_lookup Hg'.
  - rewrite Hd in Hg'. apply lookup_delete_Some in Hg' as [Htt Hg'].
    by destruct (Hu _ _ _ _ _ Hs Hg').
  - by destruct (Hu _ _ _ _ _ Hb1 Hg').
Qed.

Lemma net_read_promise l p :
  (∀ t ks r e, ev ≠ EvGetData t ks r e) →
  c_promises c !! l = Some p → read_promise c p →
  ∃ p', c_promises c' !! l = Some p' ∧ read_promise c' p'.
Proof.
  intros Hev Hl [Htid Hdone Hone]. destruct net_fields as (_ & _ & _ & _ & E5 & _ & _).
  destruct (net_answered_read l p Hl Htid Hone) as (p' & Hp' & Htid' & Heq). exists p'. split; [done|].
  split; [done| |].
  - destruct Heq as [->|?]; [|done]. intros Hd. rewrite E5. destruct (Hdone Hd). split; [|done].
    by apply net_no_get_entries.
  - unfold one_get. rewrite E5. destruct Hone as [[Hnt (j & t0 & Hu)]|[Hn Hnt]].
    + left. split; [done|]. exists j, t0. intros j' b1 s1 t' g' Hj' Hg'.
      destruct (net_get_entry _ _ _ _ _ Hj' Hg') as [(? & ? & ? & ? & ?)|(_ & ? & ? & ? & Hcontra)];
        [by eapply Hu|by destruct (Hev _ _ _ _ Hcontra)].
    + right. split; [|done]. by apply net_no_get_entries.
Qed.

(** The event that sends a read, when no other is under way. *)
Lemma net_start_read t ks r e l p :
  ev = EvGetData t ks r e → no_get_entries c → no_get_tasks (c_posted c) → done p = false →
  c_promises c !! l = Some p → p_tid p = None →
  ∃ p', c_promises c' !! l = Some p' ∧ read_promise c' p'.
Proof.
  intros Hev Hn Hnt Hd Hl Htid. destruct net_fields as (_ & _ & _ & _ & E5 & _ & _).
  destruct (net_answered_read l p Hl Htid) as (p' & Hp' & Htid' & Heq).
  { right. split; [done|]. rewrite Hnt. lia. }
  exists p'. split; [done|]. split; [done| |].
  - destruct Heq as [->|?]; [congruence|done].
  - left. split; [by rewrite E5|]. exists i, t. intros j' b1 s1 t' g' Hj' Hg'.
    destruct (net_get_entry _ _ _ _ _ Hj' Hg') as [(? & ? & ? & ? & ?)|(-> & ? & ? & ? & Hev')].
    + exfalso. by eapply Hn.
    + rewrite Hev in Hev'. by injection Hev'.
Qed.

(** A step of the network thread that sends no read. *)
Lemma net_safe : event_ok c (Z.of_nat i) ev → (∀ t ks r e, ev ≠ EvGetData t ks r e) → safe c → safe c'.
Proof.
  intros Hev Hget [Hc Happ]. split; [by apply net_core|].
  destruct net_fields as (_ & _ & E3 & E4 & E5 & E6 & _). unfold app_ok in *. rewrite E6.
  destruct (app c) as [|j key l rec|j keys rest l v|n l].
  - destruct Happ. rewrite E5. split; [by apply net_no_get_entries|done].
  - destruct Happ as (p & Hp & Hr). by eapply net_read_promise.
  - destruct Happ as (p & Hp & Hr). by eapply net_read_promise.
  - destruct Happ as (Hn & Hnt & p & Hp & Hr). rewrite E3, E4, E5. split_and!; [by apply net_no_get_entries|done|].
    by eapply net_prepare_promise.
Qed.
End net.

Lemma wlp_below {A} (m : M ShardEnv A) b e (P : ShardEnv → Prop) :
  wlp m (λ _ e', P e') e → wlp (below m) (λ _ be, be.1 = b ∧ P be.2) (b, e).
Proof. unfold post, below. simpl. by destruct (m e) as [[]| |]. Qed.

(** The shard of an index in range. *)
Lemma co_shard_at c i b s :
  core c → 0 ≤ i → bclient c !! Z.to_nat i = Some (b, s) →
  shard_ok (cfg_of i) tm (arrived_at i) i s.
Proof. intros Hc Hi Hs. pose proof (co_shard c Hc _ _ _ Hs) as Hok. by rewrite Z2Nat.id in Hok. Qed.

(** An event at shard [i]; the requests of the application set [waiting] first. *)
Definition event_at (w : option (option address)) (evf : ShardClient → client_event) : M ShardEnv unit :=
  e ← get_st;
  _ ← match w with Some w => set_waiting w | None => mret tt end;
  client_do (evf (sc e)).

Lemma event_at_net i evf w b s c :
  core c → 0 ≤ i < Z.of_nat (length configs) → bclient c !! Z.to_nat i = Some (b, s) →
  binds (evf s) → event_ok c i (evf s) →
  let e := MkShardEnv s (c_promises c) (c_posted c) in
  wlp (event_at w evf) (λ _ e', net_post (Z.to_nat i) (evf s) e e') e.
Proof.
  intros Hc Hi Hs Hb Hev e. pose proof (co_shard_at c i b s Hc ltac:(lia) Hs) as Hok.
  assert (∀ w, wlp (client_do (evf s)) (λ _ e', net_post (Z.to_nat i) (evf s) e e')
    (e <| sc ::= (λ s, s <| waiting := w |>) |>)) as Hdo.
  { intros w'. apply client_do_net; rewrite ?Z2Nat.id by lia; [done|lia| | |done].
    - intros m Hm. rewrite Hm in Hev. apply Hev.
    - by destruct (evf s). }
  unfold event_at. apply post_get. destruct w as [w|]; [run; apply Hdo|]. run.
  pose proof (Hdo (waiting (sc e))) as Hw. by rewrite env_waiting_id in Hw.
Qed.

Lemma wlp_nothing (m : M Client unit) c (Q : Client → Prop) :
  wlp m (λ _ c', Q c') c → wlp (nothing m) (λ o c', o = None ∧ Q c') c.
Proof. intros Hm. apply post_bind. eapply post_mono; [done|]. by intros [] c' Hc'. Qed.

Lemma on_shard_event i evf w c :
  core c → (∀ s, binds (evf s)) → (∀ s, event_ok c i (evf s)) →
  wlp (on_shard i (below (event_at w evf)))
    (λ _ c', ∃ b s s', 0 ≤ i < nshards c ∧ net_effect (Z.to_nat i) (evf s) b s s' c c') c.
Proof.
  intros Hc Hb Hev. apply on_shard_net; [done|]. intros b s Hi Hbs. apply wlp_below.
  by apply (event_at_net i evf w b s c Hc Hi Hbs).
Qed.

(** An event that sends no read. *)
Lemma event_safe i evf w c :
  safe c → (∀ s, binds (evf s)) → (∀ s, event_ok c i (evf s)) → (∀ s t ks r e, evf s ≠ EvGetData t ks r e) →
  wlp (on_shard i (below (event_at w evf))) (λ _, safe) c.
Proof.
  intros Hs Hb Hev Hget. eapply post_mono; [by apply on_shard_event; [apply Hs|..]|].
  intros [] c' (b & s & s' & Hi & Hne). eapply net_safe; [done| |done|done]. by rewrite Z2Nat.id by lia.
Qed.

(** *** Running a posted request *)

Definition without_task (j : nat) (c : Client) : Client := c <| c_posted ::= (λ l, take j l ++ drop (S j) l) |>.

Lemma take_drop_perm {A} (l : list A) j x :
  l !! j = Some x → l ≡ₚ x :: (take j l ++ drop (S j) l).
Proof. intros Hx. rewrite <- (take_drop_middle l j x Hx) at 1. by rewrite Permutation_middle. Qed.

Lemma get_count_perm l1 l2 : l1 ≡ₚ l2 → get_count l1 = get_count l2.
Proof. intros Hl. unfold get_count. by rewrite Hl. Qed.

Lemma get_count_cons x l : get_count (x :: l) = ((if decide (is_get_task x) then 1 else 0) + get_count l)%nat.
Proof. unfold get_count. rewrite filter_cons. by case_decide. Qed.

Lemma get_count_none l : (∀ x, x ∈ l → ¬ is_get_task x) → get_count l = 0%nat.
Proof.
  induction l as [|x l IH]; intros Hl; [done|]. rewrite get_count_cons, IH by set_solver.
  rewrite decide_False; [done|]. apply Hl. set_solver.
Qed.

Lemma without_task_count c j x :
  c_posted c !! j = Some x →
  get_count (c_posted c) =
    ((if decide (is_get_task x) then 1 else 0) + get_count (c_posted (without_task j c)))%nat.
Proof. intros Hx. rewrite (get_count_perm _ _ (take_drop_perm _ _ _ Hx)). apply get_count_cons. Qed.

Lemma without_task_core c j : core c → core (without_task j c).
Proof.
  intros []. split; try done. simpl. intros i t Ht. apply co_task0.
  rewrite <- (take_drop j (c_posted c)). apply elem_of_app in Ht as [Ht|Ht]; apply elem_of_app; [by left|right].
  rewrite <- Nat.add_1_r, <- drop_drop in Ht. rewrite <- (take_drop 1 (drop j (c_posted c))). set_solver.
Qed.

Lemma without_task_safe c j x :
  c_posted c !! j = Some x → safe c → safe (without_task j c).
Proof.
  intros Hx [Hc Happ]. split; [by apply without_task_core|].
  pose proof (without_task_count c j x Hx) as Hn. unfold app_ok in *.
  change (app (without_task j c)) with (app c).
  destruct (app c) as [|i key l rec|i keys rest l v|n l]; unfold no_get_tasks in *.
  - destruct Happ. split; [done|lia].
  - destruct Happ as (p & Hp & [Ht Hd Ho]). exists p. split; [done|]. split; [done|..].
    + intros Hdone. destruct (Hd Hdone). unfold no_get_tasks in *. split; [done|lia].
    + destruct Ho as [[? ?]|[? ?]]; [left|right]; unfold no_get_tasks in *; (split; [|done || lia]); done || lia.
  - destruct Happ as (p & Hp & [Ht Hd Ho]). exists p. split; [done|]. split; [done|..].
    + intros Hdone. destruct (Hd Hdone). unfold no_get_tasks in *. split; [done|lia].
    + destruct Ho as [[? ?]|[? ?]]; [left|right]; unfold no_get_tasks in *; (split; [|done || lia]); done || lia.
  - destruct Happ as (? & ? & ?). split_and!; [done|lia|done].
Qed.

(** The application waits for a read when a read is posted. *)
Lemma posted_get c j i id ks l :
  c_posted c !! j = Some (i, TaskGet id ks l) → safe c →
  no_get_entries c ∧ no_get_tasks (c_posted (without_task j c)) ∧
  ∃ l p, (∀ c', app c' = app c → core c' → (∃ p', c_promises c' !! l = Some p' ∧ read_promise c' p') → safe c') ∧
    c_promises c !! l = Some p ∧ p_tid p = None ∧ done p = false.
Proof.
  intros Hx [Hc Happ]. pose proof (without_task_count c j _ Hx) as Hn. rewrite decide_True in Hn by done.
  assert (∀ l p, c_promises c !! l = Some p → read_promise c p →
    no_get_entries c ∧ no_get_tasks (c_posted (without_task j c)) ∧ p_tid p = None ∧ done p = false) as Hread.
  { intros l' p Hp [Ht Hd Ho]. unfold no_get_tasks in *.
    assert (done p = false) by (destruct (done p); [destruct (Hd eq_refl); unfold no_get_tasks in *; lia|done]).
    destruct Ho as [[Hno _]|[He Hone]]; unfold no_get_tasks in *; [lia|]. split_and!; [done|lia|done|done]. }
  unfold app_ok in Happ. destruct (app c) as [|i' key l' rec|i' keys rest l' v|n l'] eqn:Happ'.
  - destruct Happ. unfold no_get_tasks in *. lia.
  - destruct Happ as (p & Hp & Hr). destruct (Hread _ _ Hp Hr) as (? & ? & ? & ?). split_and!; [done..|].
    exists l', p. split_and!; [|done..]. intros c' Ha Hc' Hp'. split; [done|]. unfold app_ok. by rewrite Ha.
  - destruct Happ as (p & Hp & Hr). destruct (Hread _ _ Hp Hr) as (? & ? & ? & ?). split_and!; [done..|].
    exists l', p. split_and!; [|done..]. intros c' Ha Hc' Hp'. split; [done|]. unfold app_ok. by rewrite Ha.
  - destruct Happ as (_ & ? & _). unfold no_get_tasks in *. lia.
Qed.

Lemma task_safe c j i t :
  c_posted c !! j = Some (i, t) → safe c →
  wlp (on_shard i (below (run_task t))) (λ _, safe) (without_task j c).
Proof.
  intros Hx Hs. pose proof (without_task_safe c j _ Hx Hs) as Hs'.
  pose proof (co_task c (proj1 Hs) i t (list_elem_of_lookup_2 _ _ _ Hx)) as Ht.
  destruct t as [id ks l|txn l|id ps l].
  - destruct (posted_get c j i id ks l Hx Hs) as (He & Hnt & l' & p & Hclose & Hp & Htid & Hd).
    eapply post_mono.
    + by apply (on_shard_event i (λ s, EvGetData id ks (replica s) (Some GetTimeoutCont)) (Some (Some l))); [apply Hs'|..].
    + intros [] c' (b & s & s' & Hi & Hne). destruct (net_fields _ _ _ _ _ _ _ Hne) as (_ & _ & _ & _ & _ & E6 & _).
      apply Hclose; [done| |].
      * by eapply net_core; [done|apply Hs'|].
      * by eapply (net_start_read _ _ _ _ _ _ _ Hne).
  - by apply (event_safe i (λ s, EvPrepare txn (leader s) (Some PrepareTimeoutCont)) (Some (Some l))).
  - by apply (event_safe i (λ s, EvParallelCommit id ps (leader s) None) (Some (Some l))).
Qed.

(** Steps of the network thread keep the invariant. *)
Lemma network_step_safe a c :
  (∀ i m, a = LMessage i m → a ∈ tr) → (∀ k now err, a ≠ LCall k now err) → (∀ now err, a ≠ LResume now err) →
  safe c → wlp (step a) (λ o c', o = None ∧ safe c') c.
Proof.
  intros Ha Hcall Hres Hs. unfold step. apply post_get. destruct a as [| |j|i m|i k tid]; [naive_solver..| | |].
  - destruct (c_posted c !! j) as [[i t]|] eqn:Hj; [|done]. run. apply wlp_nothing. by eapply task_safe.
  - apply wlp_nothing. apply (event_safe i (λ _, EvMessage m) None); [done|done|intros _; by eapply Ha|done].
  - apply wlp_nothing. by apply (event_safe i (λ _, EvTimer k tid) None).
Qed.

(** *** Steps of the application thread *)

(** Between waits the application works on the transaction [t] with participants [ps]; [P] is
    what is known of the promises. *)
Definition working (t : Z) (ps : list Z) (P : gmap address Promise → Prop) (c : Client) : Prop :=
  calm c ∧ t_id c = t ∧ participants c = ps ∧ P (c_promises c).

(** Writing back a shard whose buffer changed and whose requests were posted. *)
Lemma shard_update (c : Client) i b s b' h l :
  core c → no_get_entries c → bclient c !! i = Some (b, s) →
  (∀ t, getID (txn b') = Some t → t ≤ t_id c) → (∀ x, x ∈ l → task_ok c x.1 x.2) →
  let c' := c <| bclient ::= <[i := (b', s)]> |> <| c_promises := h |> <| c_posted := c_posted c ++ l |> in
  core c' ∧ no_get_entries c'.
Proof.
  intros Hc Hn Hs Hid Hl c'.
  assert (∀ j b1 s1, <[i := (b', s)]> (bclient c) !! j = Some (b1, s1) →
    ∃ b0, bclient c !! j = Some (b0, s1) ∧ (b1 = b0 ∨ b1 = b')) as Hlook.
  { intros j b1 s1. destruct (decide (j = i)) as [->|Hj].
    - rewrite list_lookup_insert_eq by (by eapply lookup_lt_Some). intros [= <- <-]. eauto.
    - rewrite list_lookup_insert_ne by done. eauto. }
  split.
  - destruct Hc. split; simpl; try done.
    + by rewrite length_insert.
    + intros j b1 s1 (b0 & Hb0 & _)%Hlook. eauto.
    + intros j b1 s1 t (b0 & Hb0 & [-> | ->])%Hlook; eauto.
    + intros j b1 s1 tid r (b0 & Hb0 & _)%Hlook. apply (co_entry0 _ _ _ _ _ Hb0).
    + intros j t [Ht|Ht]%elem_of_app; [by apply co_task0|]. by apply (Hl (j, t)).
  - intros j b1 s1 tid g (b0 & Hb0 & _)%Hlook. by eapply Hn.
Qed.

Lemma get_count_app l1 l2 : get_count (l1 ++ l2) = (get_count l1 + get_count l2)%nat.
Proof. unfold get_count. by rewrite filter_app, length_app. Qed.

Lemma calm_update (c : Client) i b s b' h l :
  calm c → bclient c !! i = Some (b, s) →
  (∀ t, getID (txn b') = Some t → t ≤ t_id c) →
  (∀ x, x ∈ l → task_ok c x.1 x.2) → get_count l = 0%nat →
  calm (c <| bclient ::= <[i := (b', s)]> |> <| c_promises := h |> <| c_posted := c_posted c ++ l |>).
Proof.
  intros (Hc & Hn & Hnt) Hs Hid Hl Hcount.
  destruct (shard_update c i b s b' h l Hc Hn Hs Hid Hl) as [Hc' Hn'].
  split_and!; [done..|]. unfold no_get_tasks in *. simpl. rewrite get_count_app. lia.
Qed.

(** [m] changes the buffer, keeping the transaction, and posts requests that satisfy [R]. *)
Definition buffers {A} (R : option Z → task → Prop) (m : M (BufferClient * ShardEnv) A) : Prop :=
  ∀ b e, wlp m (λ _ be, getID (txn be.1) = getID (txn b) ∧ sc be.2 = sc e ∧ promises be.2 = promises e ∧
    ∃ l, posted be.2 = posted e ++ l ∧ ∀ x, x ∈ l → x.1 = shard (sc e) ∧ R (getID (txn b)) x.2) (b, e).

Abbreviation no_request := (λ (_ : option Z) (_ : task), False).

Lemma buffers_working {A} t ps P R (m : M (BufferClient * ShardEnv) A) i :
  buffers R m →
  (∀ c id t0, t_id c = t → participants c = ps → (∀ n, id = Some n → n ≤ t) → R id t0 →
     task_ok c i t0 ∧ ¬ is_get_task (i, t0)) →
  preserves (working t ps P) (on_shard i m).
Proof.
  intros Hm HR c (Hcalm & Ht & Hps & HP). unfold on_shard, post. destruct (i <? 0) eqn:Hi; [done|].
  destruct (bclient c !! Z.to_nat i) as [[b s]|] eqn:Hs; [|done].
  specialize (Hm b (MkShardEnv s (c_promises c) (c_posted c))). unfold post in Hm.
  destruct (m (b, _)) as [[a [b' [s' h' q']]]| |]; [|done..]. simpl in Hm.
  destruct Hm as (Hid & -> & -> & l & -> & Hl).
  assert (∀ id, getID (txn b) = Some id → id ≤ t_id c) as Hbid by (intros id; by apply (co_buffer c (proj1 Hcalm) _ _ _ _ Hs)).
  pose proof (ok_shard _ _ _ _ _ (co_shard_at c i b s (proj1 Hcalm) ltac:(lia) Hs)) as Hsh.
  assert (∀ x, x ∈ l → x.1 = i ∧ task_ok c x.1 x.2 ∧ ¬ is_get_task x) as Hl'.
  { intros [j t0] Hx. destruct (Hl _ Hx) as [Hj HRx]. simpl in *. rewrite Hsh in Hj. subst j.
    split; [done|]. apply (HR c (getID (txn b))); [done|done| |done]. by rewrite <- Ht. }
  split_and!; [|done..]. apply (calm_update c _ b s b' _ l); [done|done| | |].
  - intros t0. rewrite Hid. apply Hbid.
  - intros x Hx. by destruct (Hl' x Hx) as (? & ? & _).
  - apply get_count_none. intros x Hx. by apply Hl'.
Qed.

Section buffers.
Context (R : option Z → task → Prop).

Lemma buffers_ret {A} (a : A) : buffers R (mret a).
Proof. intros b e. apply post_ret. split_and!; [done..|]. exists []. rewrite app_nil_r. split; [done|]. set_solver. Qed.

Lemma buffers_bind {A B} (m : M (BufferClient * ShardEnv) A) (k : A → M (BufferClient * ShardEnv) B) :
  buffers R m → (∀ a, buffers R (k a)) → buffers R (m ≫= k).
Proof.
  intros Hm Hk b e. apply post_bind. eapply post_mono; [apply Hm|].
  intros a [b1 e1] (Hid & Hsc & Hh & l & Hl & HR). simpl in *. eapply post_mono; [apply Hk|].
  intros a' [b2 e2] (Hid' & Hsc' & Hh' & l' & Hl' & HR'). simpl in *. split_and!; [congruence..|].
  exists (l ++ l'). split; [rewrite Hl', Hl; by rewrite (assoc_L (++))|].
  intros x [Hx|Hx]%elem_of_app; [by apply HR|]. destruct (HR' x Hx) as [? ?]. by rewrite <- Hsc, <- Hid.
Qed.

Lemma buffers_for_each {A} (l : list A) body : (∀ x, buffers R (body x)) → buffers R (for_each l body).
Proof.
  intros Hb. induction l as [|x l IH]; simpl; [apply buffers_ret|]. apply buffers_bind; auto.
Qed.

Lemma buffers_on_txn f : (∀ t, getID (f t) = getID t) → buffers R (on_txn f).
Proof.
  intros Hf b e. unfold on_txn, post. simpl. split_and!; [apply Hf|done|done|]. exists [].
  rewrite app_nil_r. split; [done|]. set_solver.
Qed.

Lemma buffers_gets {A} (f : _ → A) : buffers R (gets f).
Proof. intros b e. unfold post. simpl. split_and!; [done..|]. exists []. rewrite app_nil_r. split; [done|]. set_solver. Qed.

Lemma buffers_tid : buffers R the_tid.
Proof.
  apply buffers_bind; [apply buffers_gets|]. intros [t|]; [apply buffers_ret|]. by intros b e.
Qed.

Lemma buffers_when c m : buffers R m → buffers R (when c m).
Proof. destruct c; [done|]. intros _. apply buffers_ret. Qed.

Lemma buffers_promise l : buffers R (below (promise_at l)).
Proof.
  intros b e. unfold post, below, promise_at, mbind, M_bind. simpl. unfold get_st, deref. simpl.
  destruct (promises e !! l); [|done]. simpl. split_and!; [done..|]. exists []. rewrite app_nil_r. split; [done|]. set_solver.
Qed.
End buffers.

Create HintDb buffers.
Hint Resolve buffers_ret buffers_bind buffers_for_each buffers_on_txn buffers_gets buffers_tid buffers_when
  buffers_promise : buffers.

Lemma buffers_SetParticipants ps : buffers no_request (SetParticipants ps).
Proof. unfold SetParticipants. auto with buffers. Qed.

Lemma buffers_Get_end key l : buffers no_request (Get_end key l).
Proof. unfold Get_end. auto with buffers. Qed.

Lemma buffers_MultiGet_end keys l : buffers no_request (MultiGet_end keys l).
Proof. unfold MultiGet_end. auto 10 with buffers. Qed.

(** The requests of a prepare. *)
Definition prepare_request (id : option Z) (t : task) : Prop :=
  match t with TaskPrepare txn _ => getID txn = id | _ => False end.

Definition parallel_request (_ : option Z) (t : task) : Prop :=
  match t with TaskParallel _ _ _ => True | _ => False end.

Lemma buffers_Prepare ts l : buffers prepare_request (BufferClient.Prepare ts l).
Proof.
  unfold BufferClient.Prepare. apply buffers_bind; [apply buffers_tid|]. intros tid b e.
  unfold post. simpl. split_and!; [done..|]. eexists. split; [done|].
  by intros x ->%list_elem_of_singleton.
Qed.

Lemma buffers_Parallel l : buffers parallel_request (BufferClient.ParallelModeCommit l).
Proof.
  unfold BufferClient.ParallelModeCommit. apply buffers_bind; [apply buffers_tid|]. intros tid b e.
  unfold post. simpl. split_and!; [done..|]. eexists. split; [done|].
  by intros x ->%list_elem_of_singleton.
Qed.

Lemma working_quiet {A} t ps P (m : M (BufferClient * ShardEnv) A) i :
  buffers no_request m → preserves (working t ps P) (on_shard i m).
Proof. intros Hm. by eapply buffers_working. Qed.

Lemma working_prepare t ps P i ts l :
  i ∈ ps → preserves (working t ps P) (on_shard i (BufferClient.Prepare ts l)).
Proof.
  intros Hi. eapply buffers_working; [apply buffers_Prepare|].
  intros c id [|txn l'|] Ht Hps Hid HR; simpl in *; try done. split; [|auto].
  intros tid Htid. rewrite HR in Htid. unfold request_ok. rewrite Ht, Hps. eauto.
Qed.

Lemma working_parallel t ps P i l :
  tm = MODE_PARALLEL → preserves (working t ps P) (on_shard i (BufferClient.ParallelModeCommit l)).
Proof.
  intros Htm. eapply buffers_working; [apply buffers_Parallel|].
  intros c id [| |] Ht Hps Hid HR; simpl in *; try done. split; [done|auto].
Qed.

(** *** Decisions *)

Abbreviation any := (λ _ : gmap address Promise, True).

Lemma working_net t ps i ev b s s' c c' :
  working t ps any c → net_effect i ev b s s' c c' → event_ok c (Z.of_nat i) ev →
  (∀ t ks r e, ev ≠ EvGetData t ks r e) → working t ps any c'.
Proof.
  intros ((Hc & Hn & Hnt) & Ht & Hps & _) Hne Hev Hget.
  destruct (net_fields _ _ _ _ _ _ _ Hne) as (_ & _ & E3 & E4 & E5 & _ & _).
  split_and!; [|congruence..|done]. split_and!; [by eapply net_core|by eapply net_no_get_entries|by rewrite E5].
Qed.

Definition buffer_tid (c : Client) (i : Z) : Z :=
  match bclient c !! Z.to_nat i with Some (b, _) => default 0 (b_tid b) | None => 0 end.

Lemma decision_net (m : M (BufferClient * ShardEnv) unit) st i c :
  m = (tid ← the_tid; below (event_at (Some None) (λ s, EvCommit tid (leader s) st))) → core c →
  wlp (on_shard i m) (λ _ c', ∃ b s s', 0 ≤ i < nshards c ∧
    net_effect (Z.to_nat i) (EvCommit (buffer_tid c i) (leader s) st) b s s' c c') c.
Proof.
  intros -> Hc. apply (on_shard_net i _ (λ s, EvCommit (buffer_tid c i) (leader s) st)); [done|].
  intros b s Hi Hbs. unfold buffer_tid. rewrite Hbs. destruct b as [tx [tid|]]; [|done].
  run. apply wlp_below.
  by apply (event_at_net i (λ s, EvCommit tid (leader s) st) (Some None) _ s c Hc Hi Hbs).
Qed.

Lemma working_decision t ps i (m : M (BufferClient * ShardEnv) unit) st :
  m = (tid ← the_tid; below (event_at (Some None) (λ s, EvCommit tid (leader s) st))) →
  preserves (working t ps any) (on_shard i m).
Proof.
  intros Hm c Hw. eapply post_mono; [by eapply decision_net; [|apply Hw]|].
  intros [] c' (b & s & s' & Hi & Hne). by eapply working_net.
Qed.

Lemma working_Commit t ps i ts : preserves (working t ps any) (on_shard i (BufferClient.Commit ts)).
Proof. by apply (working_decision t ps i _ LOG_STATE_COMMIT). Qed.

Lemma working_Abort t ps i : preserves (working t ps any) (on_shard i BufferClient.Abort).
Proof. by apply (working_decision t ps i _ LOG_STATE_ABORT). Qed.

(** Parts of the state that the invariant does not mention. *)
Lemma working_modify t ps P (f : Client → Client) :
  (∀ c, tpcMode (f c) = tpcMode c ∧ nshards (f c) = nshards c ∧ participants (f c) = participants c ∧
     t_id (f c) = t_id c ∧ bclient (f c) = bclient c ∧ c_posted (f c) = c_posted c ∧
     c_promises (f c) = c_promises c) →
  preserves (working t ps P) (modify f).
Proof.
  intros Hf. apply preserves_modify. intros c (([] & Hn & Hnt) & Ht & Hps & HP).
  destruct (Hf c) as (E1 & E2 & E3 & E4 & E5 & E6 & E7).
  split_and!; [split_and!|by rewrite E4|by rewrite E3|by rewrite E7].
  - split; rewrite ?E1, ?E2, ?E3, ?E5, ?E6; try done; unfold task_ok, request_ok in *; rewrite ?E3, ?E4; done.
  - unfold no_get_entries. by rewrite E5.
  - by rewrite E6.
Qed.

Lemma working_promises t ps (P P' : gmap address Promise → Prop) (f : gmap address Promise → gmap address Promise) :
  (∀ h, P h → P' (f h)) →
  ∀ c, working t ps P c → working t ps P' (c <| c_promises ::= f |>).
Proof.
  intros Hf c (([] & Hn & Hnt) & Ht & Hps & HP). split_and!; [|done|done|by apply Hf].
  split_and!; [by split|done|done].
Qed.

(** *** Commit *)

Definition awaited (t : Z) (ps : list Z) (l : address) (h : gmap address Promise) : Prop :=
  ∃ p, h !! l = Some p ∧ prepare_promise t ps p.

Lemma new_prepare_promise t ps ms : Z.of_nat (length ps) < 2 ^ 31 → prepare_promise t ps (Promise_prepare t ps ms).
Proof.
  intros Hn. split; simpl; try done.
  - by rewrite to_int_small by lia.
  - by intros [].
Qed.

Lemma working_gather t ps P primary : preserves (working t ps P) (gather primary).
Proof.
  apply preserves_bind; [apply preserves_get|]. intros c. apply preserves_for_each. intros p.
  apply preserves_bind; [apply working_quiet, buffers_gets|]. intros b.
  apply preserves_bind; [apply preserves_for_each; intros k; apply working_quiet; by apply buffers_on_txn|].
  intros _. apply preserves_bind; [apply working_quiet, buffers_gets|]. intros b'.
  apply preserves_for_each. intros k. apply working_quiet. by apply buffers_on_txn.
Qed.

(** The primary shard is a participant in the modes where it decides; a shard is asked to commit
    in parallel only in the parallel mode. *)
Lemma choose_primary_spec c primary np :
  core c → choose_primary c = Ok (primary, np) →
  (primary_decides tm = true → primary ∈ participants c) ∧
  (tm ≠ MODE_PARALLEL → primary_decides tm = false → primary = -1 ∧ np = false).
Proof.
  intros Hc. unfold choose_primary. rewrite (co_mode c Hc). unfold primary_decides.
  destruct tm; simpl; intros Hp; split; try done; intros; simplify_eq; try done.
  all: destruct (Z.of_nat (length (participants c)) =? 0); [done|];
    destruct (participants c !! _) eqn:E; simplify_eq; by eapply list_elem_of_lookup_2.
Qed.

Lemma post_conj {S A} (m : M S A) (Q1 Q2 : A → S → Prop) s :
  wlp m Q1 s → wlp m Q2 s → wlp m (λ a s', Q1 a s' ∧ Q2 a s') s.
Proof. unfold post. by destruct (m s) as [[]| |]. Qed.

Section prepare.
Context (t : Z) (ps : list Z) (P : gmap address Promise → Prop) (l : address) (primary : Z) (np : bool).

(** The two halves of [Prepare], once the promise is there. *)
Definition send_slow : M Client (option address) :=
  _ ← on_shard primary (SetParticipants ps);
  if bool_decide (ps = []) then mret None
  else
    _ ← gather primary;
    _ ← on_shard primary (SetPrimaryShard primary);
    _ ← on_shard primary (BufferClient.Prepare Timestamp0 l);
    mret (Some l).

Definition send_all : M Client (option address) :=
  if bool_decide (ps = []) then mret None
  else
    _ ← for_each ps (λ p,
          _ ← on_shard p (SetParticipants ps);
          _ ← on_shard p (SetPrimaryShard primary);
          _ ← on_shard p (BufferClient.Prepare Timestamp0 l);
          when (p =? primary) (on_shard primary (BufferClient.ParallelModeCommit l)));
    _ ← when np
          (_ ← on_shard primary (SetParticipants ps);
           on_shard primary (BufferClient.ParallelModeCommit l));
    mret (Some l).

Hypothesis ps_range : ∀ p, p ∈ ps → 0 ≤ p.

Lemma working_primary i : preserves (working t ps P) (on_shard i (SetPrimaryShard primary)).
Proof. apply working_quiet. by apply buffers_on_txn. Qed.

Lemma send_slow_working : primary ∈ ps → preserves (working t ps P) send_slow.
Proof.
  intros Hp. unfold send_slow.
  apply preserves_bind; [apply working_quiet, buffers_SetParticipants|]. intros _. case_bool_decide; [apply preserves_ret|].
  apply preserves_bind; [apply working_gather|]. intros _. apply preserves_bind; [apply working_primary|]. intros _.
  apply preserves_bind; [by apply working_prepare|]. intros _. apply preserves_ret.
Qed.

Lemma send_all_working :
  (tm ≠ MODE_PARALLEL → primary = -1 ∧ np = false) → preserves (working t ps P) send_all.
Proof.
  intros Hp. unfold send_all. case_bool_decide; [apply preserves_ret|].
  assert (∀ i, tm = MODE_PARALLEL ∨ i = -1 → preserves (working t ps P) (on_shard i (BufferClient.ParallelModeCommit l))) as Hpar.
  { intros i [Htm| ->]; [by apply working_parallel|]. by intros c Hc. }
  apply preserves_bind.
  - intros c Hc. apply post_for_each; [done|]. intros p c' Hin Hc'. revert c' Hc'.
    apply preserves_bind; [apply working_quiet, buffers_SetParticipants|]. intros _.
    apply preserves_bind; [apply working_primary|]. intros _.
    apply preserves_bind; [by apply working_prepare|]. intros _. apply preserves_when. intros Hpp. apply Hpar.
    destruct (decide (tm = MODE_PARALLEL)) as [|Hm]; [by left|right]. by apply Hp.
  - intros _. apply preserves_bind; [|intros _; apply preserves_ret]. apply preserves_when. intros Hnp.
    apply preserves_bind; [apply working_quiet, buffers_SetParticipants|]. intros _. apply Hpar. left.
    destruct (decide (tm = MODE_PARALLEL)) as [|Hm]; [done|]. destruct (Hp Hm). congruence.
Qed.

Definition sent_or_empty (w : option address) (_ : Client) : Prop := w = Some l ∨ w = None ∧ ps = [].

Lemma send_slow_result c : wlp send_slow sent_or_empty c.
Proof.
  apply (result_bind _ _ (λ w, w = Some l ∨ w = None ∧ ps = [])). intros _ c1.
  case_bool_decide; [by right|]. apply (result_bind _ _ (λ w, w = Some l ∨ w = None ∧ ps = [])). intros _ c2.
  apply (result_bind _ _ (λ w, w = Some l ∨ w = None ∧ ps = [])). intros _ c3.
  apply (result_bind _ _ (λ w, w = Some l ∨ w = None ∧ ps = [])). intros _ c4. by left.
Qed.

Lemma send_all_result c : wlp send_all sent_or_empty c.
Proof.
  unfold send_all. case_bool_decide; [by right|].
  apply (result_bind _ _ (λ w, w = Some l ∨ w = None ∧ ps = [])). intros _ c2.
  apply (result_bind _ _ (λ w, w = Some l ∨ w = None ∧ ps = [])). intros _ c3. by left.
Qed.
End prepare.

Lemma Prepare_call_working c :
  calm c →
  wlp Prepare_call (λ w c',
    (∃ l, w = Some l ∧ working (t_id c) (participants c) (awaited (t_id c) (participants c) l) c') ∨
    (w = None ∧ participants c = [] ∧ working (t_id c) (participants c) any c')) c.
Proof.
  intros Hcalm. unfold Prepare_call. apply post_get. apply wlp_bind_lift. intros [primary np] Hprim.
  destruct (choose_primary_spec c primary np (proj1 Hcalm) Hprim) as [Hdec Hpar].
  set (t := t_id c) in *. set (ps := participants c) in *. rewrite (co_mode c (proj1 Hcalm)).
  run. set (l := next_promise c). set (c1 := c <| c_promises ::= _ |> <| next_promise ::= S |>).
  assert (working t ps (awaited t ps l) c1) as Hc1.
  { assert (working t ps any c) as Hw by done.
    apply (working_promises t ps any (awaited t ps l) <[l := Promise_prepare t ps PREPARE_TIMEOUT]>) in Hw.
    - by apply (working_modify t ps (awaited t ps l) (λ c, c <| next_promise ::= S |>)) in Hw.
    - intros h _. exists (Promise_prepare t ps PREPARE_TIMEOUT). rewrite lookup_insert_eq. split; [done|].
      apply new_prepare_promise. apply (participants_few c (proj1 Hcalm)). }
  clearbody c1. fold (send_slow ps l primary). fold (send_all ps l primary np).
  assert (wlp (if primary_decides tm then send_slow ps l primary else send_all ps l primary np)
    (λ w c', working t ps (awaited t ps l) c' ∧ sent_or_empty ps l w c') c1) as Hsend.
  { apply post_conj.
    - destruct (primary_decides tm) eqn:Hpd; [by apply send_slow_working; [apply Hdec|]|].
      apply send_all_working; [|done]. intros Hm. by apply Hpar.
    - destruct (primary_decides tm); [apply send_slow_result|apply send_all_result]. }
  eapply post_mono with (Q := λ w c', working t ps (awaited t ps l) c' ∧ sent_or_empty ps l w c').
  - by destruct tm.
  - intros w c' [Hw [->|[-> Hps]]]; [left; by exists l|]. right. split_and!; [done..|].
    by destruct Hw as (? & ? & ? & _).
Qed.

Definition commit_ok (tid : Z) (ps : list Z) : Prop := (∀ p, p ∈ ps → agreed tid p) ∨ decided tid.

(** What holds after a step: the invariant, and that a reported commit is justified. *)
Definition stepped (o : option outcome) (c : Client) : Prop :=
  safe c ∧ (o = Some (ReturnedCommit true) → commit_ok (t_id c) (participants c)).

Lemma set_app_working t ps P a : preserves (working t ps P) (set_app a).
Proof. by apply working_modify. Qed.

Lemma idle_safe t ps P c : working t ps P c → safe (c <| app := Idle |>).
Proof.
  intros Hw. apply (working_modify t ps P (λ c, c <| app := Idle |>)) in Hw; [|done].
  destruct Hw as ((Hc & Hn & Hnt) & _). by split.
Qed.

Lemma Abort_working t ps : preserves (working t ps any) Abort.
Proof.
  apply preserves_bind; [apply preserves_get|]. intros c. apply preserves_for_each. intros p. apply working_Abort.
Qed.

Lemma Commit_finish_working status ts n now err t ps c :
  working t ps any c → (status = REPLY_OK → commit_ok t ps) →
  wlp (Commit_finish status ts n now err) (λ o c', stepped (Some o) c') c.
Proof.
  intros Hw Hok. unfold Commit_finish. apply post_get. apply post_bind. eapply post_mono.
  - apply (preserves_elim (working t ps any)); [done|]. apply preserves_if; intros _; [|apply Abort_working].
    match goal with |- preserves _ (let '(_, _) := ?x in _) => destruct x as [ts' err'] end.
    apply preserves_bind; [apply preserves_when; intros _; by apply working_modify|]. intros _.
    apply preserves_for_each. intros p. apply working_Commit.
  - intros [] c1 Hc1. apply post_bind. eapply post_mono.
    { by apply (preserves_elim (working t ps any)); [exact Hc1|apply working_modify]. }
    intros [] c2 Hc2. run. apply post_ret. split; [by eapply idle_safe|].
    intros [= Hst%Z.eqb_eq]. destruct Hc2 as (_ & Ht & Hps & _). simpl. rewrite Ht, Hps. auto.
Qed.

Lemma Commit_round_safe n now err c :
  calm c → wlp (Commit_round n now err) (λ o c', stepped o c') c.
Proof.
  intros Hcalm. unfold Commit_round. apply post_bind. eapply post_mono; [by apply Prepare_call_working|].
  intros w c1 [(l & -> & Hw)|(-> & Hps & Hw)].
  - run. apply post_ret. split; [|done]. destruct Hw as ((Hc & Hn & Hnt) & Ht & Hp & Hl).
    assert (core (c1 <| app := Preparing n l |>)) as Hc' by by destruct Hc.
    split; [done|]. unfold app_ok. simpl. split_and!; [done..|]. rewrite Ht, Hp. apply Hl.
  - apply post_bind. eapply post_mono; [apply (Commit_finish_working 0 0 n now err _ _ c1 Hw)|by intros o c' Ho].
    intros _. left. rewrite Hps. set_solver.
Qed.

(** The answer of the promise, when it is success. *)
Lemma prepare_promise_ok t ps p :
  NoDup ps → prepare_promise t ps p → GetPrepareReply p = Some REPLY_OK → commit_ok t ps.
Proof.
  intros Hnd [Htid Hnum Hv Hd Hdec] Hr. unfold GetPrepareReply, when_done in Hr.
  destruct (done p) eqn:Hdone; [|done]. injection Hr as Hr.
  destruct (fail p) eqn:Hf; [right; auto|]. destruct (reachFinalDecision p) eqn:Hfin; [right; auto|].
  left. specialize (Hd eq_refl eq_refl eq_refl). intros s Hs.
  assert (dom (preparereplies p) = list_to_set ps) as Hdom.
  { apply set_subseteq_size_eq.
    - intros x [r Hx]%elem_of_dom. apply elem_of_list_to_set. naive_solver.
    - rewrite size_dom, Hd, size_list_to_set by done. done. }
  assert (s ∈ dom (preparereplies p)) as [r Hr']%elem_of_dom by (rewrite Hdom; by apply elem_of_list_to_set).
  by apply (Hv s r).
Qed.

Lemma Commit_return_safe n l now err c :
  safe c → app c = Preparing n l → wlp (Commit_return n l now err) (λ o c', stepped o c') c.
Proof.
  intros [Hc Happ] Ha. unfold app_ok in Happ. rewrite Ha in Happ. destruct Happ as (Hn & Hnt & p & Hp & Hpp).
  unfold Commit_return, promise_of. apply post_bind, post_get. rewrite Hp. apply post_ret.
  destruct (GetPrepareReply p) as [status|] eqn:Hst.
  2:{ apply post_ret. split; [|done]. split; [done|]. unfold app_ok. rewrite Ha. eauto. }
  run. set (c1 := c <| c_promises ::= _ |>).
  assert (working (t_id c) (participants c) any c1) as Hw.
  { by apply (working_promises _ _ any any (delete l)). }
  assert (status = REPLY_OK → commit_ok (t_id c) (participants c)) as Hok.
  { intros ->. eapply prepare_promise_ok; [apply Hc|done|done]. }
  clearbody c1. case_match.
  - apply post_bind. eapply post_mono; [by apply (Commit_finish_working _ _ _ _ _ _ _ c1 Hw)|]. by intros o c' Ho.
  - case_match; [apply Commit_round_safe, Hw|].
    apply post_bind. eapply post_mono; [by apply (Commit_finish_working _ _ _ _ _ _ _ c1 Hw)|]. by intros o c' Ho.
Qed.

(** *** Reads and writes *)

Lemma wlp_shard_of {A} key (k : Z → M Client A) Q c :
  (∀ i, wlp (k i) Q c) → wlp (shard_of key ≫= k) Q c.
Proof.
  intros Hk. apply post_bind. unfold shard_of. apply post_get, wlp_bind_lift. intros i _. apply post_ret, Hk.
Qed.

Lemma wlp_promise_of {A} l (k : Promise → M Client A) Q c :
  (∀ p, c_promises c !! l = Some p → wlp (k p) Q c) → wlp (promise_of l ≫= k) Q c.
Proof. intros Hk. apply post_bind, post_get. destruct (c_promises c !! l) as [p|]; [by apply Hk|done]. Qed.

(** A call through [bclient[i]] returns only for the index of a shard. *)
Lemma wlp_on_shard_range {A B} i (m : M (BufferClient * ShardEnv) A) (k : A → M Client B) Q c :
  (0 ≤ i < Z.of_nat (length (bclient c)) → wlp (on_shard i m ≫= k) Q c) → wlp (on_shard i m ≫= k) Q c.
Proof.
  intros Hk. destruct (decide (0 ≤ i < Z.of_nat (length (bclient c)))) as [|Hr]; [auto|].
  unfold post, mbind, M_bind, on_shard. destruct (i <? 0) eqn:Hi; [done|].
  destruct (bclient c !! Z.to_nat i) eqn:Hs; [|done]. apply lookup_lt_Some in Hs. lia.
Qed.

Definition joined (i : Z) (c : Client) : Client :=
  c <| participants ::= (λ ps, if bool_decide (i ∈ ps) then ps else ps ++ [i]) |>.

Lemma joined_calm c i : calm c → 0 ≤ i < nshards c → calm (joined i c).
Proof.
  intros (Hc & Hn & Hnt) Hi. split; [|done].
  assert (∀ p, p ∈ participants c → p ∈ participants (joined i c)) as Hincl.
  { simpl. intros p Hp. case_bool_decide; set_solver. }
  destruct Hc. split; simpl; try done.
  - case_bool_decide as Hin; [done|]. apply NoDup_app. split_and!; [done| |apply NoDup_singleton].
    intros x Hx ->%list_elem_of_singleton. done.
  - intros p. case_bool_decide; [auto|]. intros [?| ->%list_elem_of_singleton]%elem_of_app; auto.
  - intros j b s tid r Hj Hr. destruct (co_entry0 _ _ _ _ _ Hj Hr). split; auto.
  - intros j t Ht. specialize (co_task0 j t Ht). destruct t; simpl in *; try done.
    intros tid Htid. destruct (co_task0 tid Htid). split; auto.
Qed.

(** A new promise for a read or a write. *)
Definition promised (p : Promise) (c : Client) : Client :=
  c <| c_promises ::= <[next_promise c := p]> |> <| next_promise ::= S |>.

Lemma promised_calm p c : calm c → calm (promised p c).
Proof. intros ([] & Hn & Hnt). split_and!; [by split|done|done]. Qed.

(** The shard after the join, when the call goes on. *)
Lemma wlp_join {A B} i p (m : address → M (BufferClient * ShardEnv) A) (k : address → A → M Client B) Q c :
  calm c →
  (calm (promised p (joined i c)) →
   wlp (on_shard i (m (next_promise c)) ≫= k (next_promise c)) Q (promised p (joined i c))) →
  wlp (_ ← join i; l ← new_promise p; on_shard i (m l) ≫= k l) Q c.
Proof.
  intros Hcalm Hk. run. run. apply wlp_on_shard_range. intros Hr. apply Hk, promised_calm, joined_calm; [done|].
  rewrite (co_nshards c (proj1 Hcalm)). pose proof (co_length c (proj1 Hcalm)). simpl in Hr. lia.
Qed.

Lemma calm_safe c : calm c → app c = Idle → safe c.
Proof. intros (Hc & Hn & Hnt) Ha. split; [done|]. unfold app_ok. by rewrite Ha. Qed.

(** The invariant of the call of a single shard, seen from the client. *)
Lemma wlp_on_shard {A} i (m : M (BufferClient * ShardEnv) A) (Q : A → Client → Prop) c :
  (∀ b s, 0 ≤ i → bclient c !! Z.to_nat i = Some (b, s) →
     wlp m (λ a be, Q a (c <| bclient ::= <[Z.to_nat i := (be.1, sc be.2)]> |> <| c_promises := promises be.2 |>
                           <| c_posted := posted be.2 |>)) (b, MkShardEnv s (c_promises c) (c_posted c))) →
  wlp (on_shard i m) Q c.
Proof.
  intros Hm. unfold on_shard, post. destruct (i <? 0) eqn:Hi; [done|].
  destruct (bclient c !! Z.to_nat i) as [[b s]|] eqn:Hs; [|done].
  apply Z.ltb_ge in Hi. specialize (Hm b s Hi eq_refl). unfold post in Hm. by destruct (m (b, _)) as [[a [b' e']]| |].
Qed.

Lemma calm_buffer (c : Client) i b s b' h :
  calm c → bclient c !! i = Some (b, s) → getID (txn b') = getID (txn b) →
  calm (c <| bclient ::= <[i := (b', s)]> |> <| c_promises := h |> <| c_posted := c_posted c |>).
Proof.
  intros Hc Hs Hid. rewrite <- (app_nil_r (c_posted c)). apply (calm_update c i b s b' h []); [done|done| | |done].
  - intros t. rewrite Hid. by apply (co_buffer c (proj1 Hc) _ _ _ _ Hs).
  - set_solver.
Qed.

Lemma Put_safe key value c :
  calm c → app c = Idle → wlp (o ← Put key value; mret (Some o)) (λ o c', stepped o c') c.
Proof.
  intros Hcalm Ha. apply post_bind. unfold Put. apply wlp_shard_of. intros i.
  apply (wlp_join i (Promise_ms PUT_TIMEOUT) (BufferClient.Put key value)); [done|]. intros Hcalm1.
  set (l := next_promise c). set (c1 := promised _ (joined i c)) in *.
  assert (c_promises c1 !! l = Some (Promise_ms PUT_TIMEOUT)) as Hl by apply lookup_insert_eq.
  assert (app c1 = Idle) as Ha1 by done. clearbody l c1. apply post_bind. apply wlp_on_shard.
  intros b s Hi Hs. apply wlp_run. intros [] be Hrun.
  rewrite (Put_run key value l b _ (Promise_ms PUT_TIMEOUT)) in Hrun by done. injection Hrun as <-.
  apply wlp_promise_of. intros p _. run. apply post_ret. split; [|done]. apply calm_safe; [|done].
  exact (calm_buffer c1 (Z.to_nat i) b s (MkBufferClient (addWriteSet key value (txn b)) (b_tid b))
           (delete l (<[l := Reply REPLY_OK (Promise_ms PUT_TIMEOUT)]> (c_promises c1))) Hcalm1 Hs eq_refl).
Qed.

(** A read is answered from the write set, or posted. *)
Lemma Get_begin_spec key l b e p :
  promises e !! l = Some p →
  wlp (Get_begin key l) (λ _ be, be.1 = b ∧ sc be.2 = sc e ∧
    ((∃ p', promises be.2 = <[l := p']> (promises e) ∧ p_tid p' = p_tid p ∧ posted be.2 = posted e) ∨
     (promises be.2 = promises e ∧ ∃ id ks, posted be.2 = posted e ++ [(shard (sc e), TaskGet id ks l)]))) (b, e).
Proof.
  intros Hp. destruct (getWriteSet (txn b) !! key) as [value|] eqn:Hw.
  - apply wlp_run. intros a be Hrun. rewrite (Get_begin_buffered key value l b e p) in Hrun by done.
    injection Hrun as <- <-. simpl. split_and!; [done..|]. left. eauto.
  - assert (∀ id, Get id key l e = Ok (tt, e <| posted ::= (λ q, q ++ [(shard (sc e), TaskGet id [key] l)]) |>)) as Hget.
    { intros id. unfold Get, promise, mbind, M_bind, get_st. simpl. by rewrite Hp. }
    unfold Get_begin. run. cbn [fst]. rewrite Hw. destruct b as [tx [tid|]], (getReadSet _ !! key).
    all: try done.
    all: run; unfold post, below, mbind, M_bind; simpl; unfold Get_at; rewrite Hget; simpl.
    all: split_and!; [done..|right]; eauto.
Qed.

(** The state after a read was begun: its promise is the one the application waits for. *)
Lemma begun_read c i b s l p h q a :
  calm c → bclient c !! i = Some (b, s) → c_promises c !! l = Some p → p_tid p = None → done p = false →
  ((∃ p', h = <[l := p']> (c_promises c) ∧ p_tid p' = p_tid p ∧ q = c_posted c) ∨
   (h = c_promises c ∧ ∃ j id ks, q = c_posted c ++ [(j, TaskGet id ks l)])) →
  (∃ i key rec, a = Getting i key l rec) ∨ (∃ i ks rest v, a = MultiGetting i ks rest l v) →
  safe (c <| bclient ::= <[i := (b, s)]> |> <| c_promises := h |> <| c_posted := q |> <| app := a |>).
Proof.
  intros Hcalm Hs Hl Htid Hd Hcase Ha. set (c' := c <| bclient ::= _ |> <| c_promises := h |> <| c_posted := q |>).
  assert (core c' ∧ no_get_entries c' ∧ ∃ p, h !! l = Some p ∧ read_promise c' p) as (Hc' & Hn' & p' & Hp' & Hr').
  { pose proof Hcalm as (Hc & Hn & Hnt).
    assert (∀ t, getID (txn b) = Some t → t ≤ t_id c) as Hid by (intros t; by apply (co_buffer c Hc _ _ _ _ Hs)).
    destruct Hcase as [(p' & -> & Hp' & ->)|(-> & j & id & ks & ->)].
    - destruct (calm_buffer c i b s b (<[l := p']> (c_promises c)) Hcalm Hs eq_refl) as (? & ? & ?).
      split_and!; [done..|]. exists p'. rewrite lookup_insert_eq. split; [done|]. split; [congruence|done|].
      right. split; [done|]. unfold no_get_tasks in Hnt. simpl. rewrite Hnt. lia.
    - destruct (shard_update c i b s b (c_promises c) [(j, TaskGet id ks l)] Hc Hn Hs Hid) as [Hc2 Hn2].
      { by intros x ->%list_elem_of_singleton. }
      split_and!; [done..|]. exists p. split; [done|]. split; [done|congruence|].
      right. split; [done|]. unfold no_get_tasks in Hnt. simpl. rewrite get_count_app, Hnt. done. }
  split; [by destruct Hc'|]. unfold app_ok. simpl.
  destruct Ha as [(? & ? & ? & ->)|(? & ? & ? & ? & ->)]; exists p'; (split; [done|]); by destruct Hr'.
Qed.

Lemma Get_call_safe key c :
  calm c → wlp (nothing (Get_call key)) (λ o c', stepped o c') c.
Proof.
  intros Hcalm. apply post_bind. unfold Get_call. apply wlp_shard_of. intros i.
  apply (wlp_join i (Promise_ms GET_TIMEOUT) (Get_begin key)); [done|]. intros Hcalm1.
  set (l := next_promise c). set (c1 := promised _ (joined i c)) in *.
  assert (c_promises c1 !! l = Some (Promise_ms GET_TIMEOUT)) as Hl by apply lookup_insert_eq. clearbody l c1.
  apply post_bind, wlp_on_shard. intros b s Hi Hs.
  eapply post_mono; [by apply (Get_begin_spec key l b _ (Promise_ms GET_TIMEOUT))|].
  intros rec [b' e'] (-> & Hsc & Hcase). cbn [fst snd] in *. rewrite Hsc. split; [|done].
  eapply begun_read; [done|done|done|done|done| |by left; eauto].
  destruct Hcase as [?|(? & id & ks & ?)]; [by left|right]. eauto.
Qed.

Lemma Get_return_safe i key l rec c :
  safe c → app c = Getting i key l rec → wlp (Get_return i key l rec) (λ o c', stepped o c') c.
Proof.
  intros [Hc Happ] Ha. pose proof Happ as Happ'. unfold app_ok in Happ. rewrite Ha in Happ.
  destruct Happ as (p & Hp & [Htid Hd Ho]).
  unfold Get_return, promise_of. apply post_bind, post_get. rewrite Hp. apply post_ret.
  unfold GetReply, when_done. destruct (done p); [|by apply post_ret].
  assert (working (t_id c) (participants c) any c) as Hw.
  { destruct (Hd eq_refl). by split_and!. }
  apply post_bind. eapply post_mono.
  { apply (preserves_elim (working (t_id c) (participants c) any)); [done|]. apply preserves_when. intros _.
    apply working_quiet, buffers_Get_end. }
  intros [] c1 Hc1. run. run. apply post_ret. split; [|done].
  eapply (idle_safe _ _ any), (working_promises _ _ any any); done.
Qed.

Lemma place_keys_calm keys key_shards c :
  calm c → Z.of_nat (length key_shards) = nshards c →
  wlp (place_keys keys key_shards) (λ _ c', calm c') c.
Proof.
  revert key_shards c. induction keys as [|k keys IH]; intros key_shards c Hc Hlen; [done|].
  simpl. apply wlp_shard_of. intros i. case_match eqn:Hr; [done|]. run. apply IH.
  - apply joined_calm; [done|]. lia.
  - by rewrite length_alter.
Qed.

Lemma MultiGet_begin_spec keys l b e p :
  promises e !! l = Some p →
  wlp (MultiGet_begin keys l) (λ _ be, be.1 = b ∧ sc be.2 = sc e ∧ promises be.2 = promises e ∧
    ∃ id, posted be.2 = posted e ++ [(shard (sc e), TaskGet id keys l)]) (b, e).
Proof.
  intros Hp. unfold MultiGet_begin. destruct b as [tx [tid|]]; [|done]. run. apply wlp_run. intros [] [b' e'] Hrun.
  unfold below in Hrun. simpl in Hrun. unfold MultiGet, promise, mbind, M_bind, get_st in Hrun. simpl in Hrun.
  rewrite Hp in Hrun. simpl in Hrun. injection Hrun as <- <-. simpl. eauto.
Qed.

Lemma MultiGet_next_safe rest l value c p :
  calm c → c_promises c !! l = Some p → p_tid p = None →
  wlp (MultiGet_next rest l value) (λ _ c', safe c') c.
Proof.
  intros Hcalm Hl Htid. destruct rest as [|[i keys] rest]; simpl.
  - pose proof Hcalm as (Hc & Hn & Hnt). split; [by destruct Hc|]. unfold app_ok. simpl. exists p. split; [done|].
    split; [done|done|]. right. split; [done|]. unfold no_get_tasks in Hnt. simpl. lia.
  - apply wlp_promise_of. intros p' Hp'. simplify_eq. set (c1 := c <| c_promises ::= <[l := Reset p]> |>).
    apply (post_bind_run _ _ _ _ _ tt c1); [done|].
    assert (calm c1) as Hcalm1. { pose proof Hcalm as ([] & Hn & Hnt). split_and!; [by split|done|done]. }
    assert (c_promises c1 !! l = Some (Reset p)) as Hl1 by apply lookup_insert_eq. clearbody c1.
    apply post_bind, wlp_on_shard. intros b s Hi Hs. eapply post_mono; [by apply (MultiGet_begin_spec keys l b _ (Reset p))|].
    intros [] [b' e'] (-> & Hsc & Hh & id & Hq). cbn [fst snd] in *. rewrite Hsc, Hh, Hq.
    eapply (begun_read c1); [done|done|done|done|done| |by right; eauto]. right. eauto.
Qed.

Lemma MultiGet_call_safe keys c : calm c → wlp (nothing (MultiGet_call keys)) (λ o c', stepped o c') c.
Proof.
  intros Hcalm. apply post_bind. unfold MultiGet_call. apply post_get, post_bind. eapply post_mono.
  { apply place_keys_calm; [done|]. rewrite length_replicate. rewrite (co_nshards c (proj1 Hcalm)). lia. }
  intros ks c1 Hc1. run. eapply post_mono.
  { apply (MultiGet_next_safe _ _ _ _ (Promise_ms GET_TIMEOUT)); [by apply promised_calm|apply lookup_insert_eq|done]. }
  intros [] c2 Hc2. by split.
Qed.

Lemma MultiGet_return_safe i keys rest l value c :
  safe c → app c = MultiGetting i keys rest l value →
  wlp (MultiGet_return i keys rest l value) (λ o c', stepped o c') c.
Proof.
  intros [Hc Happ] Ha. pose proof Happ as Happ'. unfold app_ok in Happ. rewrite Ha in Happ.
  destruct Happ as (p & Hp & [Htid Hd Ho]).
  unfold MultiGet_return. apply wlp_promise_of. intros p' Hp'. simplify_eq.
  unfold GetReply, when_done. destruct (done p); [|by apply post_ret].
  set (P := λ h : gmap address Promise, h !! l = Some p).
  assert (working (t_id c) (participants c) P c) as Hw.
  { destruct (Hd eq_refl). by split_and!. }
  apply post_bind. eapply post_mono.
  { apply (preserves_elim (working (t_id c) (participants c) P)); [done|]. apply working_quiet, buffers_MultiGet_end. }
  intros [] c1 Hc1. destruct ((reply p =? 1) || bool_decide (rest = [])).
  - run. run. apply post_ret. split; [|done]. eapply (idle_safe _ _ any), (working_promises _ _ P any); done.
  - apply post_bind. eapply post_mono; [apply (MultiGet_next_safe _ _ _ c1 p); [apply Hc1|apply Hc1|done]|].
    intros [] c2 Hc2. by split.
Qed.

(** *** Begin *)

Definition next_transaction (c : Client) : Client :=
  c <| t_id ::= u64_incr |> <| participants := [] |> <| commit_sleep := Some (-1) |>.

Lemma next_transaction_calm c :
  0 ≤ t_id c < 2 ^ 64 - 1 → calm c → calm (next_transaction c) ∧ t_id (next_transaction c) = t_id c + 1.
Proof.
  intros Ht (Hc & Hn & Hnt). assert (u64_incr (t_id c) = t_id c + 1) as Hinc.
  { apply u64_incr_small; lia. }
  split; [|done]. split; [|done].
  assert (∀ i tid, request_ok c i tid → request_ok (next_transaction c) i tid) as Hreq.
  { intros i tid [Hle _]. unfold request_ok. simpl. rewrite Hinc. lia. }
  destruct Hc. split; simpl; try done.
  - apply NoDup_nil_2.
  - set_solver.
  - intros i b s t Hs Hid. rewrite Hinc. specialize (co_buffer0 _ _ _ _ Hs Hid). lia.
  - intros i b s tid r Hs Hr. by eapply Hreq, co_entry0.
  - intros i t Hin. specialize (co_task0 i t Hin). destruct t; simpl in *; try done. eauto.
Qed.

Lemma working_Begin t ps i : preserves (working t ps any) (on_shard i (BufferClient.Begin t)).
Proof.
  intros c (Hcalm & Ht & Hps & _). apply wlp_on_shard. intros b s Hi Hs. unfold post. simpl.
  split_and!; [|done..]. rewrite <- (app_nil_r (c_posted c)).
  apply (calm_update c (Z.to_nat i) b s (MkBufferClient (Transaction_id t) (Some t)) (c_promises c) []); [done|done| |set_solver|done].
  simpl. intros t' [= <-]. lia.
Qed.

Lemma on_shard_app {A} a i (m : M (BufferClient * ShardEnv) A) : preserves (λ c, app c = a) (on_shard i m).
Proof. intros c Hc. apply wlp_on_shard. intros. eapply post_mono; [apply wlp_any|done]. Qed.

Lemma Begin_safe c :
  calm c → app c = Idle → 0 ≤ t_id c < 2 ^ 64 - 1 → wlp (o ← Begin; mret (Some o)) (λ o c', stepped o c') c.
Proof.
  intros Hcalm Ha Ht. destruct (next_transaction_calm c Ht Hcalm) as [Hcalm1 Ht1].
  apply post_bind. unfold Begin. run. fold (next_transaction c). set (c1 := next_transaction c) in *.
  assert (app c1 = Idle) as Ha1 by done. clearbody c1. apply post_get, post_bind.
  eapply post_mono.
  { apply (post_conj _ (λ _, working (t_id c1) (participants c1) any) (λ _ c', app c' = Idle)).
    - apply preserves_for_each; [intros i; apply working_Begin|done].
    - apply preserves_for_each; [intros i; apply on_shard_app|done]. }
  intros [] c2 [Hc2 Ha2]. run. apply post_ret. split; [|done].
  apply (working_modify _ _ any (λ c, c <| v := [] |>)) in Hc2; [|done]. apply calm_safe; [apply Hc2|done].
Qed.

Lemma Abort_safe c : calm c → app c = Idle → wlp (_ ← Abort; mret (Some Returned)) (λ o c', stepped o c') c.
Proof.
  intros Hcalm Ha. apply post_bind. eapply post_mono.
  { apply (post_conj _ (λ _, working (t_id c) (participants c) any) (λ _ c', app c' = Idle)).
    - by apply Abort_working.
    - unfold Abort. apply post_get. apply preserves_for_each; [intros i; apply on_shard_app|done]. }
  intros [] c1 [Hc1 Ha1]. apply post_ret. split; [|done]. apply calm_safe; [apply Hc1|done].
Qed.

(** Every step keeps the invariant, and reports only justified commits. *)
Lemma step_safe a c : (∀ i m, a = LMessage i m → a ∈ tr) → safe c → 0 ≤ t_id c < 2 ^ 64 - 1 → wlp (step a) (λ o c', stepped o c') c.
Proof.
  intros Ha Hs Ht. destruct a as [k now err|now err|j|i m|i k tid].
  - unfold step. apply post_get. destruct (decide (app c = Idle)) as [Hi|Hi]; [|by apply post_ret].
    assert (calm c) as Hcalm.
    { destruct Hs as [Hc Happ]. unfold app_ok in Happ. rewrite Hi in Happ. by split. }
    destruct k; [by apply Begin_safe|by apply Get_call_safe|by apply MultiGet_call_safe|by apply Put_safe| |by apply Abort_safe].
    by apply Commit_round_safe.
  - unfold step. apply post_get. destruct (app c) as [|i key l rec|i keys rest l v|n l] eqn:Happ.
    + by apply post_ret.
    + by apply Get_return_safe.
    + by apply MultiGet_return_safe.
    + by apply Commit_return_safe.
  - eapply post_mono; [by apply network_step_safe|]. by intros o c' [-> Hc'].
  - eapply post_mono; [by apply network_step_safe|]. by intros o c' [-> Hc'].
  - eapply post_mono; [by apply network_step_safe|]. by intros o c' [-> Hc'].
Qed.
End client.

(** ** Transaction ids *)

Section ids.
Context `{!Network, HO : HashOrder, !JsonLib} (t : Z).

Abbreviation current := (λ c, t_id c = t).

Lemma id_on_shard {A} i (m : M (BufferClient * ShardEnv) A) : preserves current (on_shard i m).
Proof. intros c Hc. apply wlp_on_shard. intros. eapply post_mono; [apply wlp_any|done]. Qed.

Lemma id_modify (f : Client → Client) : (∀ c, t_id (f c) = t_id c) → preserves current (modify f).
Proof. intros Hf. apply preserves_modify. intros c. by rewrite Hf. Qed.

Lemma id_new_promise p : preserves current (new_promise p).
Proof. by intros c Hc. Qed.

Hint Resolve id_on_shard id_new_promise : preserve.
Hint Extern 1 (preserves _ (modify _)) => apply id_modify; reflexivity : preserve.
Hint Unfold nothing shard_of join delete_promise promise_of set_app buffer_of : preserve.

Ltac keep_id :=
  repeat first
    [ progress intros
    | progress autounfold with preserve
    | solve [auto with preserve]
    | apply preserves_bind
    | apply preserves_for_each
    | apply preserves_when
    | case_match ].

Lemma id_place_keys keys key_shards : preserves current (place_keys keys key_shards).
Proof. revert key_shards. induction keys as [|k keys IH]; simpl; intros; keep_id. Qed.

Lemma id_MultiGet_next rest l value : preserves current (MultiGet_next rest l value).
Proof. destruct rest; simpl; keep_id. Qed.

Lemma id_Abort : preserves current Abort.
Proof. unfold Abort. keep_id. Qed.

Lemma id_Commit_finish status ts n now err : preserves current (Commit_finish status ts n now err).
Proof. pose proof id_Abort. unfold Commit_finish. keep_id. Qed.

Lemma id_Prepare_call : preserves current Prepare_call.
Proof. unfold Prepare_call, gather. keep_id. Qed.

Lemma id_Commit_round n now err : preserves current (Commit_round n now err).
Proof. pose proof id_Prepare_call. pose proof id_Commit_finish. unfold Commit_round. keep_id. Qed.

Lemma id_step a : (∀ now err, a ≠ LCall CBegin now err) → preserves current (step a).
Proof.
  intros Ha. pose proof id_place_keys. pose proof id_MultiGet_next. pose proof id_Abort. pose proof id_Commit_finish.
  pose proof id_Commit_round.
  unfold step, Commit_call, Get_return, MultiGet_return, Commit_return, Put, Get_call, MultiGet_call.
  apply preserves_bind; [apply preserves_get|]. intros c. destruct a as [[] now err| | | |]; keep_id. naive_solver.
Qed.
End ids.

(** ** Runs *)

Section runs.
Context `{!Network, HO : HashOrder, !JsonLib}.

Definition run_client (tr : list label) : M Client unit := for_each tr (λ a, _ ← step a; mret tt).

Lemma start_shards_lookup tm configs close id k shards :
  start_shards tm configs close id k = Ok shards →
  length shards = length configs ∧
  ∀ i b s, shards !! i = Some (b, s) → ∃ cfg, configs !! i = Some cfg ∧ b = BufferClient_new ∧
    ShardClient_new tm cfg id (k + Z.of_nat i) close = Ok s.
Proof.
  revert k shards. induction configs as [|cfg configs IH]; intros k shards Hs; simpl in Hs; [by simplify_eq|].
  apply res_bind_Ok in Hs as (s & Hs & (l & Hl & [= <-])%res_bind_Ok). destruct (IH _ _ Hl) as [Hlen Hlook].
  split; [simpl; by rewrite Hlen|]. intros [|i] b s' Hi; simpl in Hi; simplify_eq.
  - exists cfg. split_and!; [done..|]. by rewrite Z.add_0_r.
  - destruct (Hlook _ _ _ Hi) as (cfg' & ? & ? & ?). exists cfg'. split_and!; [done..|].
    etransitivity; [|eassumption]. f_equal. lia.
Qed.

Lemma Client_new_safe tr mode tm configs close n tpcc id c :
  0 ≤ id → Client_new mode tm configs close n tpcc id = Ok c → safe tr configs tm c ∧ 0 ≤ t_id c ≤ id.
Proof.
  intros Hid (shards & Hs & [= <-])%res_bind_Ok.
  destruct (start_shards_lookup _ _ _ _ _ _ Hs) as [Hlen Hlook].
  assert (∀ i b s, shards !! i = Some (b, s) → b = BufferClient_new ∧ ∃ cfg, configs !! i = Some cfg ∧
    shard s = Z.of_nat i ∧ sc_mode s = tm ∧ client s = LRClient_new cfg tm 0) as Hinit.
  { intros i b s (cfg & Hcfg & Hb & Hnew)%Hlook. split; [done|]. exists cfg. split; [done|].
    unfold ShardClient_new in Hnew. case_match; [done|]. by injection Hnew as <-. }
  split; [split; [split|split]|]; simpl; try done.
  - apply NoDup_nil_2.
  - set_solver.
  - by rewrite Hlen.
  - intros i b s (_ & cfg & Hcfg & Hsh & Hm & Hcl)%Hinit. split; rewrite ?Hcl; try done.
    split; try done. simpl. unfold cfg_of. by rewrite Nat2Z.id, Hcfg.
  - intros i b s t (-> & _)%Hinit [= <-]. pose proof (Z.div_pos id 10000). lia.
  - intros i b s tid r (_ & cfg & _ & _ & _ & Hcl)%Hinit. rewrite Hcl. simpl. by rewrite lookup_empty.
  - set_solver.
  - intros i b s tid g (_ & cfg & _ & _ & _ & Hcl)%Hinit. rewrite Hcl. simpl. by rewrite lookup_empty.
  - pose proof (Z.mul_div_le id 10000). pose proof (Z.div_pos id 10000). lia.
Qed.

Lemma Begin_id c : 0 ≤ t_id c → wlp (o ← Begin; mret (Some o)) (λ _ c', 0 ≤ t_id c' ≤ t_id c + 1) c.
Proof.
  intros Ht. apply post_bind. unfold Begin. run. set (c1 := next_transaction c).
  assert (0 ≤ t_id c1 ≤ t_id c + 1) as Hc1.
  { simpl. unfold u64_incr. pose proof (u64_range (t_id c + 1)) as [? ?]. split; [done|].
    unfold u64. apply Z.mod_le; [lia|done]. }
  apply post_get, post_bind. eapply post_mono.
  - apply (preserves_elim (λ c, t_id c = t_id c1)); [done|]. apply preserves_for_each. intros i. apply id_on_shard.
  - intros [] c2 Hc2. run. apply post_ret. simpl. by rewrite Hc2.
Qed.

Lemma step_id a c : 0 ≤ t_id c → wlp (step a) (λ _ c', 0 ≤ t_id c' ≤ t_id c + 1) c.
Proof.
  intros Ht. assert ((∃ now err, a = LCall CBegin now err) ∨ ∀ now err, a ≠ LCall CBegin now err) as [(now & err & ->)|Hne].
  { destruct a as [[] now err| | | |]; eauto. }
  - unfold step. apply post_get. case_decide; [by apply Begin_id|]. apply post_ret. lia.
  - eapply post_mono; [by apply (id_step (t_id c) a Hne)|]. simpl. intros _ c' ->. lia.
Qed.

Lemma run_safe tr configs tm (Hfew : Z.of_nat (length configs) < 2 ^ 31)
    (Hhonest : ∀ i m, LMessage i (InPrepareReply m) ∈ tr → ptr_shard m = i) l c :
  (∀ a, a ∈ l → a ∈ tr) → safe tr configs tm c → 0 ≤ t_id c → t_id c + Z.of_nat (length l) < 2 ^ 64 - 1 →
  wlp (run_client l) (λ _ c', safe tr configs tm c' ∧ 0 ≤ t_id c' < 2 ^ 64 - 1) c.
Proof.
  revert c. induction l as [|a l IH]; intros c Hl Hs Ht Hb; simpl in *.
  { apply post_ret. split; [done|lia]. }
  apply post_bind, post_bind. eapply post_mono.
  { apply (post_conj _ (λ o c', stepped tr configs tm o c') (λ _ c', 0 ≤ t_id c' ≤ t_id c + 1)); [|by apply step_id].
    apply step_safe; [done|done|intros i m ->; set_solver|done|lia]. }
  intros o c1 [[Hs1 _] Ht1]. apply post_ret. apply IH; [set_solver|done|lia|lia].
Qed.

(** C3: The client commits safely.  Start a client, let the application and the network thread take
    any steps (calls, posted requests, messages lost, duplicated, delayed or reordered, timers),
    where every reply to a prepare names the shard it comes from.  When [Commit] then returns
    true, every participant of the transaction answered that it is prepared, with the replies
    its mode calls for; or, in the slow and RC modes, the primary shard decided so; or, in the
    parallel mode, a coordinator reported the commit. *)
Theorem client_commit_justified (md : Mode) (tm : TpcMode) (configs : list Configuration) (close n : Z) (tc : bool)
    (id : Z) (tr : list label) (a : label) (c0 c c' : Client) :
  0 ≤ id → id + Z.of_nat (length tr) < 2 ^ 64 - 1 → Z.of_nat (length configs) < 2 ^ 31 →
  (∀ i m, LMessage i (InPrepareReply m) ∈ tr → ptr_shard m = i) →
  Client_new md tm configs close n tc id = Ok c0 →
  run_client tr c0 = Ok (tt, c) →
  step a c = Ok (Some (ReturnedCommit true), c') →
  (∀ p, p ∈ participants c' → agreed tr configs tm (t_id c') p) ∨ decided tr configs tm (t_id c').
Proof.
  intros Hid Hb Hfew Hhonest Hnew Hrun Hstep.
  destruct (Client_new_safe tr _ _ _ _ _ _ _ _ Hid Hnew) as [Hs0 Ht0].
  pose proof (run_safe tr configs tm Hfew Hhonest tr c0 (λ _ H, H) Hs0 ltac:(lia) ltac:(lia)) as Hrun'.
  apply wlp_run with (1 := Hrun') in Hrun as [Hs Ht].
  assert (∀ i m, a ≠ LMessage i m) as Hnm.
  { intros i m ->. assert (wlp (step (LMessage i m)) (λ o _, o = None) c) as Hnone.
    - unfold step. apply post_get. apply post_bind. eapply post_mono; [apply wlp_any|done].
    - by apply wlp_run with (1 := Hnone) in Hstep. }
  assert (wlp (step a) (stepped tr configs tm) c) as Hst.
  { apply step_safe; [done|done| |done|done]. intros i m ->. by destruct (Hnm i m). }
  apply wlp_run with (1 := Hst) in Hstep as [_ Hok]. by apply Hok.
Qed.
End runs.

(** A client of two shards in the fast mode writes a key of each and commits; both shards
    answer that they are prepared. *)
Definition demo_ok (i : Z) : label :=
  LMessage i (InPrepareReply (MkPrepareTransactionReply 10001 LOG_STATE_PREPAREOK i (5 + i) 0 0)).

Definition demo_labels : list label :=
  [LCall CBegin 0 0; LCall (CPut "a" "1") 0 0; LCall (CPut "b" "2") 0 0; LCall CCommit 0 0;
   LTask 1; LTask 0; demo_ok 0; demo_ok 1; demo_ok 1].

Definition demo_configs : list Configuration := [MkConfiguration 3 1; MkConfiguration 3 1].

Definition result_state {A} (d : Client) (r : res (A * Client)) : Client :=
  match r with Ok (_, c) => c | _ => d end.

Definition demo_client : Client :=
  MkClient 0 0 0 0 0 [] [] MODE_UNKNOWN MODE_FAST false None [] ∅ [] 0 Idle.

Definition demo_start : Client :=
  match Client_new MODE_OCC MODE_FAST demo_configs (-1) 3 false 10007 with Ok c => c | _ => demo_client end.

Definition demo_waiting : Client :=
  result_state demo_client (@run_client always_sends default_order demo_json demo_labels demo_start).

Definition demo_committed : Client :=
  result_state demo_client (@step always_sends default_order demo_json (LResume 0 0) demo_waiting).

Lemma client_commit_justified_witness :
  participants demo_committed = [0; 1] ∧
  ((∀ p, p ∈ participants demo_committed → agreed demo_labels demo_configs MODE_FAST (t_id demo_committed) p) ∨
   decided demo_labels demo_configs MODE_FAST (t_id demo_committed)).
Proof.
  split; [vm_compute; reflexivity|].
  apply (@client_commit_justified always_sends default_order demo_json MODE_OCC MODE_FAST demo_configs (-1) 3 false 10007
    demo_labels (LResume 0 0) demo_start demo_waiting demo_committed).
  - lia.
  - vm_compute. reflexivity.
  - vm_compute. reflexivity.
  - intros i m Hin. unfold demo_labels in Hin.
    repeat (apply elem_of_cons in Hin as [Hin|Hin]; [first [discriminate Hin|by injection Hin as -> ->]|]).
    by apply not_elem_of_nil in Hin.
  - vm_compute. reflexivity.
  - vm_compute. reflexivity.
  - vm_compute. reflexivity.
Defined.
