(* ===== verification/EndToEnd.v ===== *)
(** Client and shard replica together: what the messages of the strong store client do at the
    leader of a shard ([LRReplica]), and what repeated messages do to the client. *)

From S2P Require Import LRLog QuorumSet.
From S2P Require Import LRReplica LRClient Sharding.
From S2P Require Import LockServer VersionStore TxnStore OCCStore LockStore StrongServer.
From S2P Require Import Prelude Timestamp Transaction Promise BufferClient ShardClient StrongClient ClientSafety.

(** ** The decision of the client at the leader *)

Section decision.
Context `{!Network} `{HO : HashOrder} {T : Type} `{!TxnStore.TxnStore T} `{!TxnStoreLaws T}.
Context `{!Codec Request} `{!Codec StrongServer.Reply} `{!CodecLaw Request}.

(** The keys a log entry writes already have a version at the timestamp zero, as every key
    loaded at startup has. *)
Definition loaded_keys (e : LogEntry) (st : VersionedKVStore) : Prop :=
  ∀ k, is_Some (wset e !! k) → ∃ w, w ∈ versions st k ∧ write w = Timestamp0.

Lemma install_loaded tid e st k :
  wf st → loaded_keys e st → versions (install_all 0 tid (wset e) st) k = versions st k.
Proof.
  intros Hwf He. rewrite install_all_versions. destruct (wset e !! k) as [v|] eqn:Hk; [|done].
  destruct (He k) as (w & Hw & Hz); [by eexists|]. by eapply set_insert_existing.
Qed.

(** The shard client sends a decision without a timestamp, whatever timestamp it is given. *)
Lemma Commit_sends id txn ts (s : ShardEnv) :
  ∃ s' ok, ShardClient.Commit id txn ts s = Ok (tt, s') ∧
    lc_sends (client (sc s')) =
      lc_sends (client (sc s)) ++ [(ToReplica (leader (sc s)) (OutCommit (MkCommit id LOG_STATE_COMMIT 0)), ok)].
Proof. eexists _, _. split; reflexivity. Qed.

(** C38: A committed write to a loaded key is lost.  Keys are loaded at the timestamp zero.  The
    decision the shard client sends for a commit has no timestamp, whatever the client decided;
    the leader that has the transaction prepared applies it at zero, where a version exists
    already.  The handler returns, the transaction is recorded as committed, and the versions
    of all keys are what they were. *)
Theorem client_commit_loses_writes (id ts lsn : Z) (txn : Transaction) (s : ShardEnv) (e : LogEntry)
    (r : LRReplica (Server T)) :
  awaits_decision r id lsn e → loaded_keys e (data (store (LRReplica.app r))) →
  ∃ s' r' m ok,
    ShardClient.Commit id txn ts s = Ok (tt, s') ∧
    lc_sends (client (sc s')) = lc_sends (client (sc s)) ++ [(ToReplica (leader (sc s)) (OutCommit m), ok)] ∧
    HandleCommit m r = Ok (tt, r') ∧
    committedTxns r' !! id = Some (LOG_STATE_COMMIT, 0) ∧
    ∀ k, versions (data (store (LRReplica.app r'))) k = versions (data (store (LRReplica.app r))) k.
Proof.
  intros Hr Hload. destruct (Commit_sends id txn ts s) as (s' & ok & Hrun & Hsent).
  pose proof (HandleCommit_run id lsn e 0 r Hr) as Hc.
  apply wp_run in Hc as ([] & r' & Hrun' & _ & Hd & _ & _ & _ & Hco & _).
  exists s', r', (MkCommit id LOG_STATE_COMMIT 0), ok. split_and!; try done.
  intros k. rewrite Hd. apply install_loaded; [|done]. apply store_ok_wf, Hr.
Qed.
End decision.

(** ** A late reply to a read *)

Section late.
Context `{HN : Network} `{HO : HashOrder} `{!JsonLib}.

(** A repeated reply to a read crashes the client.  Requests for reads and for prepares share a
    table under the transaction id.  When a reply to a read arrives at a shard whose client
    waits for the prepare of that transaction, the entry found is not a read; the result of the
    failed cast is used without a test.  The repeated reply reaches that state in an ordinary
    run: a read, its reply, a commit, and the reply once more. *)
Theorem late_read_reply_crashes (c : Client) (i : nat) (b : BufferClient) (s : ShardClient) (req : PendingPrepare)
    (m : GetDataReply) :
  bclient c !! i = Some (b, s) → pendingReqs (client s) !! gdr_tid m = Some (ReqPrepare req) →
  step (LMessage (Z.of_nat i) (InGetReply m)) c = Undefined.
Proof.
  intros Hi Hreq. unfold step, nothing, below, on_shard, client_do. unfold mbind, M_bind, get_st.
  destruct (Z.of_nat i <? 0) eqn:Hneg; [done|]. rewrite Nat2Z.id, Hi. simpl.
  unfold HandleGetDataReply, mbind, M_bind, get_st. simpl. by rewrite Hreq.
Qed.
End late.

(** ** Concrete instances *)

#[local] Existing Instances request_codec reply_codec request_codec_law default_order demo_clock demo_json.
#[local] Existing Instance always_sends.

Definition demo_shard_env : ShardEnv :=
  MkShardEnv (MkShardClient 7 0 0 0 MODE_FAST (LRClient_new (MkConfiguration 3 1) MODE_FAST 0) None)
    {[0%nat := Promise_ms PUT_TIMEOUT; 1%nat := Promise_ms GET_TIMEOUT]} [].

Lemma demo_loaded : loaded_keys demo_entry demo_data.
Proof.
  intros k [v Hk]. exists (MkVersion Timestamp0 "null"). split; [|done].
  assert (k = "x") as ->. { simpl in Hk. by apply lookup_singleton_Some in Hk as [<- _]. }
  by apply list_elem_of_singleton.
Qed.

Lemma client_commit_loses_writes_witness :
  ∃ s' r' m ok,
    ShardClient.Commit 1 Transaction_default 9 demo_shard_env = Ok (tt, s') ∧
    lc_sends (client (sc s')) = [] ++ [(ToReplica 0 (OutCommit m), ok)] ∧
    HandleCommit m demo_acknowledged = Ok (tt, r') ∧
    committedTxns r' !! 1 = Some (LOG_STATE_COMMIT, 0) ∧
    ∀ k, versions (data (store (LRReplica.app r'))) k =
         versions (data (store (LRReplica.app demo_acknowledged))) k.
Proof.
  apply (client_commit_loses_writes 1 9 0 Transaction_default demo_shard_env demo_entry demo_acknowledged
           demo_acknowledged_awaits).
  rewrite demo_acknowledged_store. exact demo_loaded.
Defined.

Lemma reads_own_writes_witness :
  ∃ b' s' p, puts [("k", "1"); ("j", "2")] 0%nat (BufferClient_new, demo_shard_env) = Ok (tt, (b', s')) ∧
    Get_begin "k" 1%nat (b', s') = Ok (false, (b', with_heap <[1%nat := p]> s')) ∧
    GetReply p = Some REPLY_OK ∧ GetValue p = Some "1".
Proof.
  apply (reads_own_writes BufferClient_new demo_shard_env "k" "1" [("j", "2")] 0%nat 1%nat).
  - by eexists.
  - by eexists.
  - set_solver.
Defined.

(** A client of one shard reads a key and commits; the reply to the read comes twice. *)
Definition demo_read_reply : GetDataReply := MkGetDataReply 10001 [MkReadKeyVersion "a" "1" 0] 0 REP_OK.

Definition demo_read_run : list label :=
  [LCall CBegin 0 0; LCall (CGet "a") 0 0; LTask 0; LMessage 0 (InGetReply demo_read_reply); LResume 0 0;
   LCall CCommit 0 0; LTask 0].

Definition demo_reader : Client :=
  result_state demo_client
    (run_client demo_read_run
       match Client_new MODE_OCC MODE_FAST [MkConfiguration 3 1] (-1) 3 false 10007 with Ok c => c | _ => demo_client end).

Lemma late_read_reply_crashes_witness :
  app demo_reader = Preparing 0 1%nat ∧
  step (LMessage 0 (InGetReply demo_read_reply)) demo_reader = Undefined.
Proof.
  split; [vm_compute; reflexivity|].
  eapply (late_read_reply_crashes demo_reader 0).
  - vm_compute. reflexivity.
  - vm_compute. reflexivity.
Defined.
