(* ===== verification/TapirStore.v ===== *)
(** The store of TAPIR: [store/tapirstore/store.h] and [store.cc].

    Transactions are validated at a timestamp the client proposes, against the committed
    versions and against the transactions that are prepared.  A [std::set<Timestamp>] is the
    list of its elements in increasing order; the reference parameter [proposedTimestamp] is
    passed in and returned. *)

From S2P Require Import Prelude Timestamp Transaction VersionStore.

(** ** Sets of timestamps *)

Fixpoint ts_set_insert (t : Timestamp) (s : list Timestamp) : list Timestamp :=
  match s with
  | [] => [t]
  | w :: s' => if ts_lt t w then t :: s else if ts_lt w t then w :: ts_set_insert t s' else s
  end.

(** The position of the first element after [t]. *)
Fixpoint ts_upper_bound (t : Timestamp) (s : list Timestamp) : nat :=
  match s with
  | [] => O
  | w :: s' => if ts_lt t w then O else S (ts_upper_bound t s')
  end.

(** ** The store *)

Record Store := MkStore {
  linearizable : bool;
  store : VersionedKVStore;
  prepared : gmap Z (Timestamp * Transaction)
}.

#[global] Instance Store_eta : Eta Store := λ s, MkStore (linearizable s) (store s) (prepared s).

Definition Store_new (linearizable : bool) : Store := MkStore linearizable VersionedKVStore_empty ∅.

Abbreviation times := (gmap string (list Timestamp)).

(** [m[key].insert(t)]. *)
Definition add_time (t : Timestamp) (m : times) (key : string) : times :=
  <[key := ts_set_insert t (default [] (m !! key))]> m.

Section store.
Context `{HO : HashOrder}.

Abbreviation MT := (M Store).

Definition Get (id : Z) (key : string) (value : Timestamp * string) : MT (Z * (Timestamp * string)) :=
  s ← get_st;
  let '(ret, value') := get (store s) key value in
  mret (if (ret : bool) then REPLY_OK else REPLY_FAIL, value').

Definition Get_at (id : Z) (key : string) (timestamp : Timestamp) (value : Timestamp * string) :
    MT (Z * (Timestamp * string)) :=
  s ← get_st;
  let '(ret, value') := get_at (store s) key timestamp value in
  mret (if (ret : bool) then REPLY_OK else REPLY_FAIL, value').

Definition GetPreparedWrites (p : gmap Z (Timestamp * Transaction)) : times :=
  foldl (λ m e, foldl (add_time e.2.1) m (hash_order (getWriteSet e.2.2)).*1) ∅ (hash_order p).

Definition GetPreparedReads (p : gmap Z (Timestamp * Transaction)) : times :=
  foldl (λ m e, foldl (add_time e.2.1) m (hash_order (getReadSet e.2.2)).*1) ∅ (hash_order p).

(** The body of the loop over the read set: the status [Prepare] returns with, if any. *)
Definition check_read (lin : bool) (st : VersionedKVStore) (pWrites : times) (timestamp : Timestamp)
    (read : string * Timestamp) : option Z :=
  let '(ret, range) := getRange st read.1 read.2 (Timestamp0, Timestamp0) in
  if negb ret then None
  else if ts_ne range.1 read.2 then None
  else if negb (isValid range.2) then
    match pWrites !! read.1 with
    | Some ws => if lin || negb (bool_decide (ts_upper_bound timestamp ws = O)) then Some REPLY_ABSTAIN else None
    | None => None
    end
  else if lin || ts_gt timestamp range.2 then Some REPLY_FAIL
  else
    match pWrites !! read.1 with
    | Some ws =>
        if existsb (λ writeTime, ts_gt writeTime range.1 && ts_lt writeTime timestamp) ws
        then Some REPLY_ABSTAIN else None
    | None => None
    end.

(** [*upper_bound(timestamp)] of the set of a key, if there is one. *)
Definition later_time (m : times) (key : string) (timestamp : Timestamp) : option Timestamp :=
  match m !! key with Some ts => ts !! ts_upper_bound timestamp ts | None => None end.

(** The part of the loop over the write set for a key in the store. *)
Definition check_stored (lin : bool) (st : VersionedKVStore) (timestamp : Timestamp) (key : string) :
    res (option (Z * Timestamp)) :=
  let '(ret, val) := get st key (Timestamp0, "") in
  if (ret : bool) then
    if lin && ts_gt val.1 timestamp then Ok (Some (REPLY_RETRY, val.1))
    else
      '(read, lastRead) ← (if lin then Ok (getLastRead st key Timestamp0)
                           else getLastRead_at st key timestamp Timestamp0);
      Ok (if (read : bool) && ts_gt lastRead timestamp then Some (REPLY_RETRY, lastRead) else None)
  else Ok None.

Definition check_write (lin : bool) (st : VersionedKVStore) (pWrites pReads : times) (timestamp : Timestamp)
    (proposed : Timestamp) (write : string * string) : res (option (Z * Timestamp)) :=
  conflict ← check_stored lin st timestamp write.1;
  match conflict with
  | Some r => Ok (Some r)
  | None =>
      match (if lin then later_time pWrites write.1 timestamp else None) with
      | Some t => Ok (Some (REPLY_RETRY, t))
      | None =>
          match later_time pReads write.1 timestamp with
          | Some _ => Ok (Some (REPLY_ABSTAIN, proposed))
          | None => Ok None
          end
      end
  end.

Fixpoint check_writes (lin : bool) (st : VersionedKVStore) (pWrites pReads : times) (timestamp : Timestamp)
    (proposed : Timestamp) (writes : list (string * string)) : res (option (Z * Timestamp)) :=
  match writes with
  | [] => Ok None
  | write :: writes' =>
      conflict ← check_write lin st pWrites pReads timestamp proposed write;
      match conflict with
      | Some r => Ok (Some r)
      | None => check_writes lin st pWrites pReads timestamp proposed writes'
      end
  end.

(** The validation, in a state where the transaction is not prepared. *)
Definition validate (s : Store) (txn : Transaction) (timestamp proposed : Timestamp) :
    res (option (Z * Timestamp)) :=
  let pWrites := GetPreparedWrites (prepared s) in
  let pReads := GetPreparedReads (prepared s) in
  match omap (check_read (linearizable s) (store s) pWrites timestamp) (hash_order (getReadSet txn)) with
  | status :: _ => Ok (Some (status, proposed))
  | [] => check_writes (linearizable s) (store s) pWrites pReads timestamp proposed (hash_order (getWriteSet txn))
  end.

(** The checks, and the transaction becomes prepared. *)
Definition prepare_checked (id : Z) (txn : Transaction) (timestamp proposed : Timestamp) : MT (Z * Timestamp) :=
  s ← get_st;
  conflict ← lift_res (validate s txn timestamp proposed);
  match conflict with
  | Some r => mret r
  | None => _ ← modify (λ s, s <| prepared ::= <[id := (timestamp, txn)]> |>); mret (REPLY_OK, proposed)
  end.

Definition Prepare (id : Z) (txn : Transaction) (timestamp proposed : Timestamp) : MT (Z * Timestamp) :=
  s ← get_st;
  match prepared s !! id with
  | Some p =>
      if ts_eq p.1 timestamp then mret (REPLY_OK, proposed)
      else
        _ ← modify (λ s, s <| prepared ::= delete id |>);
        prepare_checked id txn timestamp proposed
  | None => prepare_checked id txn timestamp proposed
  end.

(** [Commit(timestamp, txn)]. *)
Definition Commit_txn (timestamp : Timestamp) (txn : Transaction) (st : VersionedKVStore) : VersionedKVStore :=
  let st' := foldl (λ st read, commitGet read.1 read.2 timestamp st) st (hash_order (getReadSet txn)) in
  foldl (λ st write, put write.1 write.2 timestamp st) st' (hash_order (getWriteSet txn)).

(** [Commit(id, timestamp)]: [timestamp] is not used, and [prepared[id]] is a default pair when
    the transaction is not prepared. *)
Definition Commit (id timestamp : Z) : MT unit :=
  modify (λ s,
    let p := default (Timestamp0, Transaction_default) (prepared s !! id) in
    s <| store ::= Commit_txn p.1 p.2 |> <| prepared ::= delete id |>).

Definition Abort (id : Z) (txn : Transaction) : MT unit := modify (λ s, s <| prepared ::= delete id |>).

Definition Load (key value : string) (timestamp : Timestamp) : MT unit :=
  modify (λ s, s <| store ::= put key value timestamp |>).
End store.

(** ** Sets of timestamps in order *)

Lemma elem_of_ts_set_insert t x s : x ∈ ts_set_insert t s ↔ x = t ∨ x ∈ s.
Proof.
  induction s as [|w s IH]; simpl; [set_solver|].
  destruct (ts_lt t w) eqn:Htw; [set_solver|]. destruct (ts_lt w t) eqn:Hwt; [set_solver|].
  apply ts_lt_false in Htw, Hwt. assert (w = t) as -> by (by apply (anti_symm TsLe)). set_solver.
Qed.

Lemma ts_set_insert_sorted t s : StronglySorted TsLt s → StronglySorted TsLt (ts_set_insert t s).
Proof.
  induction s as [|w s IH]; simpl; intros Hs; [repeat constructor|].
  inversion Hs as [|? ? Hs' Hall]; subst.
  destruct (ts_lt t w) eqn:Htw; [|destruct (ts_lt w t) eqn:Hwt; [|done]].
  - apply ts_lt_spec in Htw. constructor; [done|]. constructor; [done|].
    eapply Forall_impl; [done|]. intros u Hu. by etrans.
  - apply ts_lt_spec in Hwt. constructor; [by apply IH|].
    apply Forall_forall. intros u [->|Hu]%elem_of_ts_set_insert; [done|].
    rewrite Forall_forall in Hall. by apply Hall.
Qed.

(** Nothing before the upper bound: all elements are later. *)
Lemma ts_upper_bound_begin t s :
  StronglySorted TsLt s → ts_upper_bound t s = O ↔ ∀ w, w ∈ s → t <ₜ w.
Proof.
  intros Hs. destruct s as [|w s]; simpl; [set_solver|].
  inversion Hs as [|? ? _ Hall]; subst. rewrite Forall_forall in Hall.
  destruct (ts_lt t w) eqn:Htw.
  - apply ts_lt_spec in Htw. split; [|done]. intros _ u [->|Hu]%elem_of_cons; [done|].
    specialize (Hall u Hu). by etrans.
  - apply ts_lt_false in Htw. split; [done|]. intros Hlt. specialize (Hlt w ltac:(set_solver)).
    by apply TsLt_not_le in Hlt.
Qed.

Lemma ts_upper_bound_at t s w : s !! ts_upper_bound t s = Some w → w ∈ s ∧ t <ₜ w.
Proof.
  induction s as [|u s IH]; simpl; [done|]. destruct (ts_lt t u) eqn:Htu; simpl.
  - intros [= <-]. apply ts_lt_spec in Htu. set_solver.
  - intros [? ?]%IH. set_solver.
Qed.

Lemma ts_upper_bound_end t s : s !! ts_upper_bound t s = None ↔ ∀ w, w ∈ s → w ≤ₜ t.
Proof.
  induction s as [|u s IH]; simpl; [set_solver|]. destruct (ts_lt t u) eqn:Htu; simpl.
  - split; [done|]. intros Hle. apply ts_lt_spec, TsLt_not_le in Htu. destruct Htu. apply Hle. set_solver.
  - apply ts_lt_false in Htu. rewrite IH. set_solver.
Qed.

(** ** Pending reads and writes *)

Section pending.
Context `{HO : HashOrder}.
Implicit Types (p : gmap Z (Timestamp * Transaction)) (k : string) (t : Timestamp).

Definition pending_write p k t : Prop :=
  ∃ id txn, p !! id = Some (t, txn) ∧ is_Some (writeSet txn !! k).

Definition pending_read p k t : Prop :=
  ∃ id txn, p !! id = Some (t, txn) ∧ is_Some (readSet txn !! k).

Definition times_of (m : times) k : list Timestamp := default [] (m !! k).

Definition times_sorted (m : times) : Prop := ∀ k, StronglySorted TsLt (times_of m k) ∧ m !! k ≠ Some [].

Lemma add_times t ks (m : times) :
  times_sorted m →
  times_sorted (foldl (add_time t) m ks) ∧
  ∀ k u, u ∈ times_of (foldl (add_time t) m ks) k ↔ u ∈ times_of m k ∨ u = t ∧ k ∈ ks.
Proof.
  revert m. induction ks as [|k' ks IH]; intros m Hm; simpl; [set_solver|].
  assert (∀ k, times_of (add_time t m k') k =
    if decide (k' = k) then ts_set_insert t (times_of m k') else times_of m k) as Hadd.
  { intros k. unfold times_of, add_time. rewrite lookup_insert. by case_decide. }
  destruct (IH (add_time t m k')) as [Hs Hel].
  { intros k. rewrite Hadd. split; [case_decide; [apply ts_set_insert_sorted|]; apply Hm|].
    unfold add_time. rewrite lookup_insert. case_decide; [|apply Hm].
    destruct (default [] _); simpl; repeat case_match; done. }
  split; [done|]. intros k u. rewrite Hel, Hadd.
  case_decide; subst; rewrite ?elem_of_ts_set_insert; set_solver.
Qed.

Lemma gather_times (keys : Transaction → list string) (l : list (Z * (Timestamp * Transaction))) (m : times) :
  times_sorted m →
  let m' := foldl (λ m e, foldl (add_time e.2.1) m (keys e.2.2)) m l in
  times_sorted m' ∧ ∀ k u, u ∈ times_of m' k ↔ u ∈ times_of m k ∨ ∃ id txn, (id, (u, txn)) ∈ l ∧ k ∈ keys txn.
Proof.
  revert m. induction l as [|[id [t txn]] l IH]; intros m Hm; simpl; [set_solver|].
  destruct (add_times t (keys txn) m Hm) as [Hs Hel].
  destruct (IH _ Hs) as [Hs' Hel']. split; [done|]. intros k u. rewrite Hel', Hel.
  setoid_rewrite elem_of_cons. naive_solver.
Qed.

Lemma times_sorted_empty : times_sorted ∅.
Proof. intros k. unfold times_of. rewrite lookup_empty. split; [constructor|done]. Qed.

Lemma GetPreparedWrites_spec p :
  times_sorted (GetPreparedWrites p) ∧ ∀ k t, t ∈ times_of (GetPreparedWrites p) k ↔ pending_write p k t.
Proof.
  destruct (gather_times (λ txn, (hash_order (getWriteSet txn)).*1) (hash_order p) ∅ times_sorted_empty) as [Hs Hel].
  split; [done|]. intros k t. unfold GetPreparedWrites. rewrite Hel. unfold pending_write, times_of at 1.
  rewrite lookup_empty. setoid_rewrite elem_of_hash_order. setoid_rewrite elem_of_hash_order_keys. set_solver.
Qed.

Lemma GetPreparedReads_spec p :
  times_sorted (GetPreparedReads p) ∧ ∀ k t, t ∈ times_of (GetPreparedReads p) k ↔ pending_read p k t.
Proof.
  destruct (gather_times (λ txn, (hash_order (getReadSet txn)).*1) (hash_order p) ∅ times_sorted_empty) as [Hs Hel].
  split; [done|]. intros k t. unfold GetPreparedReads. rewrite Hel. unfold pending_read, times_of at 1.
  rewrite lookup_empty. setoid_rewrite elem_of_hash_order. setoid_rewrite elem_of_hash_order_keys. set_solver.
Qed.

Lemma later_time_None (m : times) k t : later_time m k t = None ↔ ∀ u, u ∈ times_of m k → u ≤ₜ t.
Proof.
  unfold later_time, times_of. destruct (m !! k) as [s|]; simpl; [apply ts_upper_bound_end|set_solver].
Qed.
End pending.

(** ** What the checks accept *)

Section checks.
Context `{HO : HashOrder}.
Implicit Types (st : VersionedKVStore) (k : string) (v b t ts : Timestamp).

(** [v] is the timestamp of a version of [k], and [b] that of the next one. *)
Definition stored st k v : Prop := ∃ w, w ∈ versions st k ∧ write w = v.

Definition next_version st k v b : Prop :=
  stored st k b ∧ v <ₜ b ∧ ∀ w, w ∈ versions st k → v <ₜ write w → b ≤ₜ write w.

Definition newest st k v : Prop := ∀ w, w ∈ versions st k → write w ≤ₜ v.

(** Timestamps of versions are zero, for loaded keys, or pass [isValid]. *)
Definition times_valid st : Prop := ∀ k w, w ∈ versions st k → write w = Timestamp0 ∨ isValid (write w) = true.

Lemma getRange_fails st k t r r' :
  wf st → getRange st k t r = (false, r') → ∀ w, w ∈ versions st k → t <ₜ write w.
Proof.
  intros Hwf. unfold getRange. destruct (inStore st k) eqn:Hin.
  - fold (latest_at (versions st k) t). destruct (versions st k !! getValue st k t) eqn:Hl; [by repeat case_match|].
    intros _. by apply latest_at_None.
  - apply inStore_false in Hin. rewrite Hin. set_solver.
Qed.

Lemma getRange_returns st k t r a b :
  wf st → getRange st k t r = (true, (a, b)) →
  (∃ w, valid_at (versions st k) t w ∧ write w = a) ∧ (next_version st k a b ∨ b = r.2 ∧ newest st k a).
Proof.
  intros Hwf. unfold getRange. destruct (inStore st k); [|done].
  destruct (versions st k !! getValue st k t) as [w|] eqn:Hl; [|done].
  assert (valid_at (versions st k) t w) as Hv by (by apply latest_at_spec).
  destruct (versions st k !! S (getValue st k t)) as [n|] eqn:Hn; intros [= <- <-]; (split; [by exists w|]).
  - left. split_and!.
    + exists n. split; [by eapply list_elem_of_lookup_2|done].
    + pose proof (sorted_lookup_le _ _ _ _ _ (Hwf k) (Nat.le_succ_diag_r _) Hl Hn) as [Heq|]; [|done].
      exfalso. pose proof (sorted_NoDup_write _ (Hwf k)) as Hnd.
      assert (getValue st k t = S (getValue st k t)); [|lia].
      eapply (NoDup_lookup _ _ _ (write w) Hnd); rewrite list_lookup_fmap; [by rewrite Hl|by rewrite Hn, Heq].
    + intros u [j Hu]%list_elem_of_lookup Hlt. destruct (decide (j ≤ getValue st k t)%nat).
      * pose proof (sorted_lookup_le _ _ _ _ _ (Hwf k) l Hu Hl) as Hle. by apply TsLt_not_le in Hlt.
      * eapply (sorted_lookup_le _ (S (getValue st k t)) j); [apply Hwf|lia|done..].
  - right. split; [done|]. intros u [j Hu]%list_elem_of_lookup.
    apply lookup_ge_None in Hn. pose proof (lookup_lt_Some _ _ _ Hu).
    eapply sorted_lookup_le; [apply Hwf| |done..]. lia.
Qed.

Lemma isValid_pos t : isValid t = true → 0 < timestamp t ∧ 0 < ts_id t.
Proof. unfold isValid. lia. Qed.

(** A read of a stored version gets it, with the next version if there is one. *)
Lemma getRange_stored st k v r :
  wf st → stored st k v →
  ∃ b, getRange st k v r = (true, (v, b)) ∧ (next_version st k v b ∨ b = r.2 ∧ newest st k v).
Proof.
  intros Hwf (w & Hw & <-). destruct (getRange st k (write w) r) as [[] [a b]] eqn:Hr.
  - destruct (getRange_returns _ _ _ _ _ _ Hwf Hr) as [(u & (Hu & Hle & Hmax) & <-) Hnext].
    assert (write u = write w) as Heq by (apply (anti_symm TsLe); [done|by apply Hmax]).
    rewrite Heq in *. eauto.
  - pose proof (getRange_fails _ _ _ _ _ Hwf Hr w Hw) as Hlt. by destruct (irreflexivity TsLt _ Hlt).
Qed.

(** The read set entry [(k, v)] does not conflict. *)
Definition read_ok (lin : bool) st (pending : Timestamp → Prop) ts k v : Prop :=
  stored st k v →
  (∀ b, next_version st k v b → lin = false ∧ ts ≤ₜ b ∧ ∀ u, pending u → v <ₜ u → ts ≤ₜ u) ∧
  (newest st k v → ∀ u, pending u → lin = false ∧ ts <ₜ u).

Lemma check_read_unstored lin st pWrites ts k v :
  wf st → ¬ stored st k v → check_read lin st pWrites ts (k, v) = None.
Proof.
  intros Hwf Hv. unfold check_read; simpl.
  destruct (getRange st k v _) as [[] [a b]] eqn:Hr; [|done]. simpl.
  apply getRange_returns in Hr as [(w & (Hw & _ & _) & <-) _]; [|done].
  destruct (ts_ne (write w) v) eqn:Hne; [done|]. destruct Hv. exists w. split; [done|].
  apply dec_stable. by rewrite <- ts_ne_spec, Hne.
Qed.

Lemma next_version_valid st k v b : times_valid st → stored st k v → next_version st k v b → isValid b = true.
Proof.
  intros Hval (w & Hw & <-) ((n & Hn & <-) & Hlt & _).
  destruct (Hval k n Hn) as [Hz|]; [|done]. exfalso.
  destruct (Hval k w Hw) as [Hw0|Hwv]; rewrite Hz in Hlt.
  - rewrite Hw0 in Hlt. by destruct (irreflexivity TsLt _ Hlt).
  - apply isValid_pos in Hwv. destruct Hlt as [Hlt|[Heq Hlt]]; simpl in *; lia.
Qed.

Lemma newest_next st k v b : newest st k v → next_version st k v b → False.
Proof. intros Hn ((w & Hw & <-) & Hlt & _). apply TsLt_not_le in Hlt. by apply Hlt, Hn. Qed.

Lemma next_version_unique st k v b b' : next_version st k v b → next_version st k v b' → b = b'.
Proof.
  intros ((w & Hw & <-) & Hlt & Hmin) ((w' & Hw' & <-) & Hlt' & Hmin').
  apply (anti_symm TsLe); auto.
Qed.

Lemma check_read_accepts lin st (pWrites : times) ts k v :
  wf st → times_valid st → times_sorted pWrites →
  check_read lin st pWrites ts (k, v) = None ↔ read_ok lin st (λ u, u ∈ times_of pWrites k) ts k v.
Proof.
  intros Hwf Hval Hpw. destruct (Hpw k) as [Hsort Hne].
  assert ((∃ b, getRange st k v (Timestamp0, Timestamp0) = (true, (v, b)) ∧
                (next_version st k v b ∨ b = Timestamp0 ∧ newest st k v)) ∧ stored st k v ∨ ¬ stored st k v)
    as [[(b & Hr & Hb) Hst]|Hst].
  { destruct (getRange st k v (Timestamp0, Timestamp0)) as [[] [a b]] eqn:Hr.
    - destruct (decide (a = v)) as [->|Hav].
      + left. destruct (getRange_returns _ _ _ _ _ _ Hwf Hr) as [(w & (Hw & _ & _) & Hwv) Hb].
        split; [eauto|by exists w].
      + right. intros Hst. destruct (getRange_stored _ _ _ (Timestamp0, Timestamp0) Hwf Hst) as (b' & Hr' & _). congruence.
    - right. intros Hst. destruct (getRange_stored _ _ _ (Timestamp0, Timestamp0) Hwf Hst) as (b' & Hr' & _). congruence. }
  2: { split; [done|]. intros _. by apply check_read_unstored. }
  unfold check_read; simpl. rewrite Hr; simpl.
  assert (ts_ne v v = false) as -> by (apply not_true_iff_false; rewrite ts_ne_spec; intros Hnv; by apply Hnv).
  unfold read_ok. destruct Hb as [Hnext|[-> Hnew]].
  - rewrite (next_version_valid st k v b) by done. simpl.
    transitivity (lin = false ∧ ts ≤ₜ b ∧ ∀ u, u ∈ times_of pWrites k → v <ₜ u → ts ≤ₜ u).
    + destruct lin; simpl; [naive_solver|]. destruct (ts_gt ts b) eqn:Hgt.
      { apply ts_gt_spec, TsLt_not_le in Hgt. naive_solver. }
      apply ts_gt_false in Hgt. unfold times_of. destruct (pWrites !! k) as [ws|]; simpl; [|set_solver].
      destruct (existsb _ ws) eqn:Hex.
      * apply existsb_exists in Hex as (u & Hu & [Hvu Hut]%andb_true_iff).
        apply ts_gt_spec in Hvu. apply ts_lt_spec, TsLt_not_le in Hut.
        split; [done|]. intros (_ & _ & Hall). destruct Hut. apply Hall; [by apply list_elem_of_In|done].
      * split; [|done]. intros _. split_and!; [done..|]. intros u Hu Hvu.
        apply ts_lt_false, not_true_iff_false. intros Hut. apply not_true_iff_false in Hex. apply Hex.
        apply existsb_exists. exists u. split; [by apply list_elem_of_In|].
        rewrite Hut, andb_true_r. by apply ts_gt_spec.
    + split.
      * intros Hall _. split; [|intros Hnew; by destruct (newest_next st k v b)].
        intros b' Hb'. by rewrite (next_version_unique _ _ _ _ _ Hb' Hnext).
      * intros Hall. by apply Hall.
  - simpl. transitivity (∀ u, u ∈ times_of pWrites k → lin = false ∧ ts <ₜ u).
    + unfold times_of in *. destruct (pWrites !! k) as [ws|]; simpl in *; [|set_solver].
      destruct lin; simpl.
      * split; [done|]. destruct ws as [|u ws]; [done|]. intros Hall. destruct (Hall u); [set_solver|done].
      * case_bool_decide as Hub; rewrite ts_upper_bound_begin in Hub by done; simpl; naive_solver.
    + split; [|intros Hall; by apply Hall]. intros Hall _. split; [|done].
      intros b Hb. by destruct (newest_next st k v b).
Qed.

(** The write of [k] does not conflict. *)
Definition write_ok (lin : bool) st (writes reads : Timestamp → Prop) ts k : Prop :=
  (lin = true → newest st k ts ∧ ∀ u, writes u → u ≤ₜ ts) ∧ ∀ u, reads u → u ≤ₜ ts.

Lemma check_stored_ok lin st ts k :
  wf st → lastReads st = ∅ →
  ∃ c, check_stored lin st ts k = Ok c ∧ (c = None ↔ (lin = true → newest st k ts)) ∧
    ∀ r, c = Some r → r.1 ≠ REPLY_OK.
Proof.
  intros Hwf Hl. unfold check_stored. rewrite get_last.
  destruct (last (versions st k)) as [w|] eqn:Hw.
  - simpl. destruct (lin && ts_gt (write w) ts) eqn:Hc.
    + eexists. split; [done|]. split; [|by intros r [= <-]]. split; [done|]. intros Hn. apply andb_true_iff in Hc as [Hlin Hgt].
      apply ts_gt_spec, TsLt_not_le in Hgt. destruct Hgt. apply Hn; [done|]. by apply last_Some_elem_of.
    + exists None. split.
      * unfold getLastRead, getLastRead_at. rewrite Hl, lookup_empty, Hw. by destruct lin, (inStore st k).
      * split; [|done]. split; [|done]. intros _ ->. simpl in Hc. apply ts_gt_false in Hc.
        intros u Hu. etrans; [by eapply last_sorted_max|done].
  - exists None. split; [done|]. split; [|done]. split; [|done]. apply last_None in Hw. unfold newest. rewrite Hw. set_solver.
Qed.

Lemma check_write_accepts lin st (pWrites pReads : times) ts proposed k (v : string) :
  wf st → lastReads st = ∅ →
  ∃ c, check_write lin st pWrites pReads ts proposed (k, v) = Ok c ∧
    (c = None ↔ write_ok lin st (λ u, u ∈ times_of pWrites k) (λ u, u ∈ times_of pReads k) ts k) ∧
    ∀ r, c = Some r → r.1 ≠ REPLY_OK.
Proof.
  intros Hwf Hl. unfold check_write, write_ok; simpl.
  destruct (check_stored_ok lin st ts k Hwf Hl) as ([r|] & -> & Hc & Hr); simpl.
  { eexists. split; [done|]. split; [|done]. split; [done|]. intros [Hlin _].
    assert (Some r = None); [|done]. apply Hc. naive_solver. }
  destruct (if lin then _ else _) as [t|] eqn:Hw.
  { eexists. split; [done|]. split; [|by intros r [= <-]]. split; [done|]. destruct lin; [|done]. intros [Hlin _].
    assert (later_time pWrites k ts = None) by (apply later_time_None; by apply Hlin). congruence. }
  destruct (later_time pReads k ts) as [t|] eqn:Hp.
  { eexists. split; [done|]. split; [|by intros r [= <-]]. split; [done|]. intros [_ Hall].
    apply later_time_None in Hall. congruence. }
  eexists. split; [done|]. split; [|done]. split; [|done]. intros _.
  rewrite later_time_None in Hp. split; [|done]. intros ->. split; [by apply Hc|]. by apply later_time_None.
Qed.

Lemma check_writes_accepts lin st (pWrites pReads : times) ts proposed l :
  wf st → lastReads st = ∅ →
  ∃ c, check_writes lin st pWrites pReads ts proposed l = Ok c ∧
    (c = None ↔ ∀ k (v : string), (k, v) ∈ l →
       write_ok lin st (λ u, u ∈ times_of pWrites k) (λ u, u ∈ times_of pReads k) ts k) ∧
    ∀ r, c = Some r → r.1 ≠ REPLY_OK.
Proof.
  intros Hwf Hl. induction l as [|[k v] l IH]; simpl; [exists None; set_solver|].
  destruct (check_write_accepts lin st pWrites pReads ts proposed k v Hwf Hl) as ([r|] & -> & Hc & Hr); simpl.
  - exists (Some r). split; [done|]. split; [|done]. split; [done|]. intros Hall. apply Hc, (Hall k v). set_solver.
  - destruct IH as (c & -> & Hc' & Hr'). exists c. split; [done|]. split; [|done]. rewrite Hc'.
    split; [|set_solver]. intros Hall k' v' [[= -> ->]|Hin]%elem_of_cons; [by apply Hc|eauto].
Qed.

Lemma check_read_status lin st pWrites ts r s : check_read lin st pWrites ts r = Some s → s ≠ REPLY_OK.
Proof. unfold check_read. repeat case_match; intros [= <-]; done. Qed.

(** A transaction conflicts with nothing committed and nothing prepared. *)
Definition conflict_free (s : Store) (txn : Transaction) ts : Prop :=
  (∀ k v, readSet txn !! k = Some v →
     read_ok (linearizable s) (store s) (pending_write (prepared s) k) ts k v) ∧
  (∀ k, is_Some (writeSet txn !! k) →
     write_ok (linearizable s) (store s) (pending_write (prepared s) k) (pending_read (prepared s) k) ts k).

Lemma read_ok_proper lin st P Q ts k v : (∀ u, P u ↔ Q u) → read_ok lin st P ts k v ↔ read_ok lin st Q ts k v.
Proof. intros HPQ. unfold read_ok. by setoid_rewrite HPQ. Qed.

Lemma write_ok_proper lin st P Q P' Q' ts k :
  (∀ u, P u ↔ Q u) → (∀ u, P' u ↔ Q' u) → write_ok lin st P P' ts k ↔ write_ok lin st Q Q' ts k.
Proof. intros HPQ HPQ'. unfold write_ok. setoid_rewrite HPQ. by setoid_rewrite HPQ'. Qed.

Lemma omap_nil {A B} (f : A → option B) l : omap f l = [] ↔ ∀ x, x ∈ l → f x = None.
Proof.
  induction l as [|x l IH]; simpl; [set_solver|]. destruct (f x) eqn:Hx.
  - split; [done|]. intros Hall. specialize (Hall x). set_solver.
  - rewrite IH. set_solver.
Qed.

Lemma validate_accepts s txn ts proposed :
  wf (store s) → lastReads (store s) = ∅ → times_valid (store s) →
  ∃ c, validate s txn ts proposed = Ok c ∧ (c = None ↔ conflict_free s txn ts) ∧ ∀ r, c = Some r → r.1 ≠ REPLY_OK.
Proof.
  intros Hwf Hl Hval. unfold validate, conflict_free, getReadSet, getWriteSet.
  destruct (GetPreparedWrites_spec (prepared s)) as [Hsw Hw], (GetPreparedReads_spec (prepared s)) as [_ Hr].
  assert (∀ k v, check_read (linearizable s) (store s) (GetPreparedWrites (prepared s)) ts (k, v) = None ↔
    read_ok (linearizable s) (store s) (pending_write (prepared s) k) ts k v) as Hread.
  { intros k v. rewrite check_read_accepts by done. apply read_ok_proper. apply Hw. }
  destruct (omap _ _) as [|st0 l] eqn:Homap.
  - rewrite omap_nil in Homap.
    destruct (check_writes_accepts (linearizable s) (store s) (GetPreparedWrites (prepared s))
      (GetPreparedReads (prepared s)) ts proposed (hash_order (writeSet txn)) Hwf Hl) as (c & -> & Hc & Hst).
    exists c. split; [done|]. split; [|done]. rewrite Hc. split.
    + intros Hall. split.
      * intros k v Hk. apply Hread, Homap. by apply elem_of_hash_order.
      * intros k [v Hk]. eapply write_ok_proper; [symmetry; apply Hw|symmetry; apply Hr|].
        eapply Hall. by apply elem_of_hash_order.
    + intros [_ Hall] k v Hk%elem_of_hash_order.
      eapply write_ok_proper; [apply Hw|apply Hr|]. apply Hall. by eexists.
  - eexists. split; [done|]. split.
    + split; [done|]. intros [Hall _]. assert (omap (check_read (linearizable s) (store s)
        (GetPreparedWrites (prepared s)) ts) (hash_order (readSet txn)) = []) as Hnil; [|by rewrite Hnil in Homap].
      apply omap_nil. intros [k v] Hin%elem_of_hash_order. by apply Hread, Hall.
    + intros r [= <-]. simpl. assert (st0 ∈ st0 :: l) as Hin by set_solver. rewrite <- Homap in Hin.
      apply list_elem_of_omap in Hin as (x & _ & Hx). by eapply check_read_status.
Qed.
End checks.

(** ** Reachable stores *)

Section reachable.
Context `{HO : HashOrder}.
Implicit Types (s : Store) (k : string) (v t ts : Timestamp).

(** Keys are loaded before the first message, and clients propose valid timestamps.  A
    transaction may have read anything, also versions this store does not have. *)
Inductive tstep : Store → Store → Prop :=
| tstep_load s k x s' : prepared s = ∅ → Load k x Timestamp0 s = Ok (tt, s') → tstep s s'
| tstep_prepare s id txn ts proposed r s' :
    isValid ts = true → Prepare id txn ts proposed s = Ok (r, s') → tstep s s'
| tstep_commit s id n s' : Commit id n s = Ok (tt, s') → tstep s s'
| tstep_abort s id txn s' : Abort id txn s = Ok (tt, s') → tstep s s'.

Definition treachable s : Prop := ∃ lin, rtc tstep (Store_new lin) s.

(** No version of [k] and no write of [k] by a transaction other than [id] lies between [v] and
    [ts]. *)
Definition undisturbed s (id : Z) k v ts : Prop :=
  (∀ w, w ∈ versions (store s) k → v <ₜ write w → ts ≤ₜ write w) ∧
  (∀ id' ts' txn', id' ≠ id → prepared s !! id' = Some (ts', txn') → is_Some (writeSet txn' !! k) →
     v <ₜ ts' → ts ≤ₜ ts').

Record tapir_ok s : Prop := {
  to_wf : wf (store s);
  to_reads : lastReads (store s) = ∅;
  to_times : times_valid (store s);
  to_prepared : ∀ id ts txn, prepared s !! id = Some (ts, txn) → isValid ts = true
}.

(** The prepared transaction [id] read the stored version [v] of [k], undisturbed. *)
Record guarded (id : Z) ts (txn : Transaction) k v s : Prop := {
  gu_prepared : prepared s !! id = Some (ts, txn);
  gu_read : readSet txn !! k = Some v;
  gu_stored : stored (store s) k v;
  gu_undisturbed : undisturbed s id k v ts
}.

Lemma tapir_ok_new lin : tapir_ok (Store_new lin).
Proof.
  split; simpl; [apply wf_empty|done| |].
  - intros k w. unfold versions. simpl. rewrite lookup_empty. set_solver.
  - intros id ts txn. by rewrite lookup_empty.
Qed.

(** Forgetting a prepared transaction. *)
Lemma tapir_ok_delete s id : tapir_ok s → tapir_ok (s <| prepared ::= delete id |>).
Proof.
  intros [Hwf Hl Hval Hp]. split; simpl; [done..|]. intros id' ts txn [_ Hid]%lookup_delete_Some. eauto.
Qed.

Lemma guarded_delete id ts txn k v s id' :
  id' ≠ id → guarded id ts txn k v s → guarded id ts txn k v (s <| prepared ::= delete id' |>).
Proof.
  intros Hne [Hp Hr Hst [Hw Hpw]]. split; simpl; [by rewrite lookup_delete_ne|done..|].
  split; [done|]. simpl. intros id2 ts2 txn2 Hne2 [_ Hid2]%lookup_delete_Some. by eapply Hpw.
Qed.

(** The reads of an accepted transaction are undisturbed... *)
Lemma guarded_accepted s id txn ts k v :
  wf (store s) → prepared s !! id = None → conflict_free s txn ts →
  readSet txn !! k = Some v → stored (store s) k v →
  guarded id ts txn k v (s <| prepared ::= <[id := (ts, txn)]> |>).
Proof.
  intros Hwf Hnone [Hread _] Hk Hst. split; simpl; [apply lookup_insert_eq|done..|].
  destruct (Hread k v Hk Hst) as [Hnext Hnew].
  destruct (getRange_stored (store s) k v (Timestamp0, Timestamp0) Hwf Hst) as (b & _ & [Hb|[_ Hb]]).
  - destruct (Hnext b Hb) as (_ & Hle & Hpend). split; simpl.
    + intros w Hw Hvw. etrans; [done|]. by apply Hb.
    + intros id2 ts2 txn2 Hne2 [[<- _]|[_ Hid2]]%lookup_insert_Some Hw2 Hlt; [done|].
      apply Hpend; [|done]. by exists id2, txn2.
  - split; simpl.
    + intros w Hw Hvw. apply TsLt_not_le in Hvw. by destruct (Hvw (Hb w Hw)).
    + intros id2 ts2 txn2 Hne2 [[<- _]|[_ Hid2]]%lookup_insert_Some Hw2 Hlt; [done|].
      right. apply (Hnew Hb). by exists id2, txn2.
Qed.

(** ... and it disturbs no read. *)
Lemma guarded_other id ts txn k v s id' txn' ts' :
  id' ≠ id → conflict_free s txn' ts' → guarded id ts txn k v s →
  guarded id ts txn k v (s <| prepared ::= <[id' := (ts', txn')]> |>).
Proof.
  intros Hne [_ Hwrite] [Hp Hr Hst [Hw Hpw]]. split; simpl; [by rewrite lookup_insert_ne|done..|].
  split; [done|]. simpl.
  intros id2 ts2 txn2 Hne2 [[<- [= <- <-]]|[_ Hid2]]%lookup_insert_Some Hw2 Hlt; [|by eapply Hpw].
  destruct (Hwrite k Hw2) as [_ Hreads]. apply Hreads. exists id, txn. split; [done|by eexists].
Qed.

(** Installing a write set at one timestamp. *)
Lemma versions_puts ts (l : list (string * string)) st k w :
  w ∈ versions (foldl (λ st x, put x.1 x.2 ts st) st l) k →
  w ∈ versions st k ∨ write w = ts ∧ k ∈ l.*1.
Proof.
  revert st. induction l as [|[k' x] l IH]; intros st; simpl; [by left|].
  intros [Hw|[? ?]]%IH; [|set_solver]. rewrite versions_put in Hw. case_decide; [|set_solver]. subst.
  apply elem_of_set_insert in Hw as [->|Hw]; set_solver.
Qed.

Lemma stored_puts ts (l : list (string * string)) st k v :
  stored st k v → stored (foldl (λ st x, put x.1 x.2 ts st) st l) k v.
Proof.
  revert st. induction l as [|[k' x] l IH]; intros st Hst; simpl; [done|]. apply IH.
  destruct Hst as (w & Hw & <-). exists w. split; [|done]. rewrite versions_put.
  case_decide; [|done]. subst. by apply set_insert_keeps.
Qed.

Lemma puts_keep ts (l : list (string * string)) st :
  wf st → wf (foldl (λ st x, put x.1 x.2 ts st) st l) ∧
  lastReads (foldl (λ st x, put x.1 x.2 ts st) st l) = lastReads st.
Proof.
  revert st. induction l as [|[k' x] l IH]; intros st Hwf; simpl; [done|].
  destruct (IH (put k' x ts st)) as [? ?]; [by apply put_wf|done].
Qed.

Lemma commitGets_id ts (l : list (string * Timestamp)) st :
  lastReads st = ∅ → foldl (λ st x, commitGet x.1 x.2 ts st) st l = st.
Proof.
  intros Hl. induction l as [|x l IH]; [done|]. simpl. by rewrite commitGet_lastReads_empty.
Qed.

(** The write set [Commit] installs is empty unless the transaction is prepared. *)
Lemma committed_prepared s id k :
  let p := default (Timestamp0, Transaction_default) (prepared s !! id) in
  k ∈ (hash_order (getWriteSet p.2)).*1 → prepared s !! id = Some p ∧ is_Some (writeSet p.2 !! k).
Proof.
  simpl. rewrite elem_of_hash_order_keys. unfold getWriteSet. destruct (prepared s !! id); simpl; [done|].
  rewrite lookup_empty. by intros [].
Qed.

Lemma tapir_ok_commit s id n : tapir_ok s → wp (Commit id n) (λ _ s', tapir_ok s') s.
Proof.
  intros [Hwf Hl Hval Hp]. unfold Commit, post, modify; simpl. unfold Commit_txn. rewrite commitGets_id by done.
  set (p := default _ _). destruct (puts_keep p.1 (hash_order (getWriteSet p.2)) (store s) Hwf) as [Hwf' Hl'].
  split; simpl; [done|by rewrite Hl'| |].
  - intros k w [Hw|[-> [Hpid _]%committed_prepared]]%versions_puts; [by eapply Hval|]. right.
    apply (Hp id p.1 p.2). rewrite <- surjective_pairing. exact Hpid.
  - intros id' ts txn [_ Hid]%lookup_delete_Some. eauto.
Qed.

Lemma guarded_commit id ts txn k v s id' n :
  lastReads (store s) = ∅ → id' ≠ id → guarded id ts txn k v s →
  wp (Commit id' n) (λ _ s', guarded id ts txn k v s') s.
Proof.
  intros Hl Hne [Hp Hr Hst [Hw Hpw]]. unfold Commit, post, modify; simpl. unfold Commit_txn.
  rewrite commitGets_id by done. set (p := default _ _).
  split; simpl; [by rewrite lookup_delete_ne|done|by apply stored_puts|]. split; simpl.
  - intros w [Hin|[-> [Hpid Hwk]%committed_prepared]]%versions_puts Hlt; [by apply Hw|].
    eapply (Hpw id' p.1 p.2); [done|rewrite <- surjective_pairing; exact Hpid|done..].
  - intros id2 ts2 txn2 Hne2 [_ Hid2]%lookup_delete_Some. by eapply Hpw.
Qed.

Lemma Prepare_run s id txn ts proposed :
  tapir_ok s → prepared s !! id = None →
  ∃ r s', Prepare id txn ts proposed s = Ok (r, s') ∧ (r.1 = REPLY_OK ↔ conflict_free s txn ts) ∧
    s' = if decide (r.1 = REPLY_OK) then s <| prepared ::= <[id := (ts, txn)]> |> else s.
Proof.
  intros [Hwf Hl Hval _] Hid. unfold Prepare, prepare_checked, mbind, M_bind, get_st. rewrite Hid.
  destruct (validate_accepts s txn ts proposed Hwf Hl Hval) as (c & Hc & Hfree & Hst). rewrite Hc. simpl.
  destruct c as [r|]; simpl.
  - exists r, s. specialize (Hst r eq_refl). rewrite decide_False by done. split_and!; [done| |done].
    split; [done|]. intros Hcf%Hfree. done.
  - eexists _, _. split; [done|]. simpl. split; [|done]. split; [|done]. intros _. by apply Hfree.
Qed.

(** The transaction is prepared at [ts]. *)
#[local] Instance prepared_at_dec s id ts : Decision (∃ txn0, prepared s !! id = Some (ts, txn0)).
Proof.
  destruct (prepared s !! id) as [[ts0 txn0]|]; [destruct (decide (ts0 = ts)) as [->|]|];
    [left; by eexists|right; intros [? [=]]; congruence..].
Defined.

(** What [Prepare] answers and leaves behind, also for a transaction that is prepared. *)
Definition prepare_outcome s (id : Z) (txn : Transaction) ts proposed (r : Z * Timestamp) (s' : Store) : Prop :=
  ((∃ txn0, prepared s !! id = Some (ts, txn0)) → r = (REPLY_OK, proposed) ∧ s' = s) ∧
  (¬ (∃ txn0, prepared s !! id = Some (ts, txn0)) →
     let s0 := s <| prepared ::= delete id |> in
     (r.1 = REPLY_OK ↔ conflict_free s0 txn ts) ∧
     s' = if decide (r.1 = REPLY_OK) then s0 <| prepared ::= <[id := (ts, txn)]> |> else s0).

Lemma Prepare_total s id txn ts proposed :
  tapir_ok s →
  ∃ r s', Prepare id txn ts proposed s = Ok (r, s') ∧ prepare_outcome s id txn ts proposed r s'.
Proof.
  intros Hok. destruct (prepared s !! id) as [[ts0 txn0]|] eqn:Hid; [destruct (decide (ts0 = ts)) as [->|Hne]|].
  - eexists _, _. split.
    + unfold Prepare, mbind, M_bind, get_st. rewrite Hid. simpl.
      assert (ts_eq ts ts = true) as -> by by apply ts_eq_spec. done.
    + split; [done|]. intros []. eauto.
  - destruct (Prepare_run (s <| prepared ::= delete id |>) id txn ts proposed) as (r & s' & Hrun & Hr);
      [by apply tapir_ok_delete|apply lookup_delete_eq|]. exists r, s'. split.
    + rewrite <- Hrun. unfold Prepare, mbind, M_bind, get_st. rewrite Hid. simpl.
      assert (ts_eq ts0 ts = false) as -> by (apply not_true_iff_false; by rewrite ts_eq_spec).
      by rewrite lookup_delete_eq.
    + split; [intros (txn1 & [=])|done]; congruence.
  - destruct (Prepare_run s id txn ts proposed Hok Hid) as (r & s' & Hrun & Hr). exists r, s'. split; [done|].
    split; [intros (txn1 & [=])|]; [congruence|]. intros _.
    assert (s <| prepared ::= delete id |> = s) as ->; [|done].
    destruct s; simpl in *. f_equal. by apply delete_id.
Qed.

Lemma tstep_ok s s' : tapir_ok s → tstep s s' → tapir_ok s'.
Proof.
  intros Hok Hstep. destruct Hstep as [s k x s' Hnone Hrun|s id txn ts proposed r s' Hts Hrun|s id n s' Hrun|s id txn s' Hrun].
  - injection Hrun as <-. destruct Hok as [Hwf Hl Hval Hp]. split; simpl; [by apply put_wf|done| |done].
    intros k' w Hw. rewrite versions_put in Hw. case_decide; [|by eapply Hval].
    apply elem_of_set_insert in Hw as [->|Hw]; [by left|by eapply Hval].
  - destruct (Prepare_total s id txn ts proposed Hok) as (r' & s1 & Hrun' & Hold & Hnew).
    rewrite Hrun in Hrun'. injection Hrun' as <- <-.
    destruct (decide (∃ txn0, prepared s !! id = Some (ts, txn0))) as [Hin|Hin]; [by destruct (Hold Hin) as [_ ->]|].
    destruct (Hnew Hin) as [_ ->]. pose proof (tapir_ok_delete s id Hok) as Hok0. case_decide; [|done].
    destruct Hok0 as [Hwf Hl Hval Hp]. split; simpl; [done..|].
    intros id' ts' txn' [[_ [= <- _]]|[_ Hid]]%lookup_insert_Some; [done|]. by eapply Hp.
  - pose proof (tapir_ok_commit s id n Hok) as Hwp. unfold post in Hwp. by rewrite Hrun in Hwp.
  - injection Hrun as <-. by apply tapir_ok_delete.
Qed.

Lemma treachable_ok s : treachable s → tapir_ok s.
Proof.
  intros [lin Hr]. revert Hr. apply (rtc_ind_r tapir_ok); [apply tapir_ok_new|]. eauto using tstep_ok.
Qed.

(** A step after which the transaction is still prepared. *)
Definition tstep_keeping (id : Z) ts (txn : Transaction) s s' : Prop :=
  tstep s s' ∧ prepared s' !! id = Some (ts, txn).

Lemma guarded_step id ts txn k v s s' :
  tapir_ok s → guarded id ts txn k v s → tstep_keeping id ts txn s s' → guarded id ts txn k v s'.
Proof.
  intros Hok Hg [Hstep Hkeep]. pose proof (gu_prepared _ _ _ _ _ _ Hg) as Hid.
  destruct Hstep as [s k' x s' Hnone Hrun|s id' txn' ts' proposed r s' Hts Hrun|s id' n s' Hrun|s id' txn' s' Hrun].
  - by rewrite Hnone, lookup_empty in Hid.
  - destruct (Prepare_total s id' txn' ts' proposed Hok) as (r' & s1 & Hrun' & Hold & Hnew).
    rewrite Hrun in Hrun'. injection Hrun' as <- <-.
    destruct (decide (∃ txn0, prepared s !! id' = Some (ts', txn0))) as [Hin|Hin]; [by destruct (Hold Hin) as [_ ->]|].
    destruct (Hnew Hin) as [Hiff Hs']. subst s'. destruct (decide (id' = id)) as [->|Hne].
    + case_decide; simpl in Hkeep; [|by rewrite lookup_delete_eq in Hkeep].
      rewrite lookup_insert_eq in Hkeep. injection Hkeep as -> ->. destruct Hin. eauto.
    + pose proof (guarded_delete _ _ _ _ _ _ id' Hne Hg) as Hg0. case_decide as Hr; [|done].
      apply guarded_other; [done|by apply Hiff|done].
  - assert (id' ≠ id) as Hne.
    { intros ->. injection Hrun as <-. simpl in Hkeep. by rewrite lookup_delete_eq in Hkeep. }
    pose proof (guarded_commit _ _ _ _ _ _ id' n (to_reads _ Hok) Hne Hg) as Hwp.
    unfold post in Hwp. by rewrite Hrun in Hwp.
  - injection Hrun as <-. simpl in Hkeep. apply guarded_delete; [|done]. intros ->. by rewrite lookup_delete_eq in Hkeep.
Qed.

(** C14: [Prepare] decides by conflicts alone.  In every reachable store it returns for every
    transaction.  When the transaction is prepared at the same timestamp it answers
    [REPLY_OK] and changes nothing.  Otherwise an older preparation of it is forgotten, and
    in the resulting store it answers [REPLY_OK] exactly when no read and no write of the
    transaction conflicts with a committed version or a prepared transaction, whatever the
    order in which the sets are visited; it then records the transaction with its timestamp,
    and otherwise changes nothing more. *)
Theorem tapir_prepare_decides_by_conflicts s (id : Z) (txn : Transaction) ts (proposed : Timestamp) :
  treachable s →
  ∃ r s', Prepare id txn ts proposed s = Ok (r, s') ∧
    ((∃ txn0, prepared s !! id = Some (ts, txn0)) → r = (REPLY_OK, proposed) ∧ s' = s) ∧
    (¬ (∃ txn0, prepared s !! id = Some (ts, txn0)) →
       let s0 := s <| prepared ::= delete id |> in
       (r.1 = REPLY_OK ↔ conflict_free s0 txn ts) ∧
       s' = if decide (r.1 = REPLY_OK) then s0 <| prepared ::= <[id := (ts, txn)]> |> else s0).
Proof. intros Hr. by apply Prepare_total, treachable_ok. Qed.

Lemma guarded_read s id ts txn k v t d :
  wf (store s) → guarded id ts txn k v s → v ≤ₜ t → t <ₜ ts →
  ∃ x, get_at (store s) k t d = (true, (v, x)).
Proof.
  intros Hwf [_ _ (w & Hw & <-) [Hver _]] Hvt Hlt. exists (value w). rewrite get_at_latest.
  assert (latest_at (versions (store s) k) t = Some w) as ->; [|done].
  apply latest_at_spec; [apply Hwf|]. split_and!; [done..|]. intros u Hu Hut.
  destruct (decide (write w <ₜ write u)) as [Hwu|Hwu].
  - pose proof (Hver u Hu Hwu) as Hle. exfalso. assert (ts ≤ₜ t) as Htt by (by etrans). by apply TsLt_not_le in Hlt.
  - by apply TsLt_not_lt.
Qed.

(** C13: Reads of prepared transactions stay valid.  Take any reachable store, in both modes,
    and let it accept a transaction at a valid timestamp [ts] at which it was not already
    prepared.  If the transaction read version [v] of [k] and the store has that version at
    this moment (reads of versions it does not have are not checked), then as long as the
    transaction stays prepared, whatever is prepared, committed and aborted meanwhile, a
    read of [k] at any time from [v] up to [ts] returns [v], and no other prepared
    transaction is going to write [k] in between. *)
Theorem tapir_prepared_reads_stay_valid s0 s1 s (id : Z) (txn : Transaction) ts (proposed p : Timestamp) k v :
  treachable s0 → isValid ts = true → ¬ (∃ txn0, prepared s0 !! id = Some (ts, txn0)) →
  Prepare id txn ts proposed s0 = Ok ((REPLY_OK, p), s1) →
  readSet txn !! k = Some v → stored (store s0) k v →
  rtc (tstep_keeping id ts txn) s1 s →
  (∀ t d, v ≤ₜ t → t <ₜ ts → ∃ x, get_at (store s) k t d = (true, (v, x))) ∧
  (∀ id' ts' txn', id' ≠ id → prepared s !! id' = Some (ts', txn') → is_Some (writeSet txn' !! k) →
     ts' ≤ₜ v ∨ ts ≤ₜ ts').
Proof.
  intros Hok%treachable_ok Hts Hnew Hrun Hk Hst Hsteps.
  assert (tapir_ok s1 ∧ guarded id ts txn k v s1) as Hg1.
  { split; [eapply tstep_ok; [done|by eapply tstep_prepare]|].
    destruct (Prepare_total s0 id txn ts proposed Hok) as (r & s2 & Hrun' & _ & Hout).
    rewrite Hrun in Hrun'. injection Hrun' as <- <-. destruct (Hout Hnew) as [Hiff ->]. simpl in *.
    pose proof (guarded_accepted (s0 <| prepared ::= delete id |>) id txn ts k v) as Hacc. simpl in Hacc.
    apply Hacc; [apply Hok|apply lookup_delete_eq|by apply Hiff|done..]. }
  assert (tapir_ok s ∧ guarded id ts txn k v s) as [Hoks Hg].
  { revert Hsteps. apply (rtc_ind_r (λ s, tapir_ok s ∧ guarded id ts txn k v s)); [done|].
    intros s2 s3 _ Hstep [Hok2 Hg2]. split; [by eapply tstep_ok, Hstep|by eapply guarded_step]. }
  split.
  - intros t d. eapply guarded_read; [apply Hoks|done].
  - intros id' ts' txn' Hne Hid' Hw. destruct (gu_undisturbed _ _ _ _ _ _ Hg) as [_ Hpw].
    destruct (decide (v <ₜ ts')) as [Hlt|Hle]; [right; by eapply Hpw|left]. by apply TsLt_not_lt.
Qed.
End reachable.

(** ** Committed reads *)

Section committed.
Context `{HO : HashOrder}.
Implicit Types (s : Store) (k : string) (v t ts : Timestamp).

(** The transaction that writes [x] to [k] and nothing else. *)
Definition blind_write k (x : string) : Transaction := addWriteSet k x Transaction_default.

(** [id] alone is concerned with [k], which it reads at its newest version [v]. *)
Record only_reader s (id : Z) (txn : Transaction) ts k v : Prop := {
  or_prepared : prepared s !! id = Some (ts, txn);
  or_reads : readSet txn !! k = Some v;
  or_no_write : writeSet txn !! k = None;
  or_others : ∀ id' ts' txn', id' ≠ id → prepared s !! id' = Some (ts', txn') →
    readSet txn' !! k = None ∧ writeSet txn' !! k = None;
  or_newest : newest (store s) k v
}.

Lemma blind_write_free s k x ts :
  conflict_free s (blind_write k x) ts ↔
  write_ok (linearizable s) (store s) (pending_write (prepared s) k) (pending_read (prepared s) k) ts k.
Proof.
  unfold conflict_free. simpl. split.
  - intros [_ Hw]. apply Hw. rewrite lookup_insert_eq. by eexists.
  - intros Hw. split; [intros k' v'; by rewrite lookup_empty|].
    intros k' [x' Hk']. apply lookup_insert_Some in Hk' as [[<- _]|[_ Hk']]; [done|by rewrite lookup_empty in Hk'].
Qed.

Lemma versions_commit_other ts txn st k :
  lastReads st = ∅ → writeSet txn !! k = None → versions (Commit_txn ts txn st) k = versions st k.
Proof.
  intros Hl Hk. unfold Commit_txn. rewrite commitGets_id by done.
  assert (k ∉ (hash_order (getWriteSet txn)).*1) as Hin.
  { rewrite elem_of_hash_order_keys. unfold getWriteSet. rewrite Hk. by intros []. }
  revert Hin. generalize (hash_order (getWriteSet txn)). intros l. revert st Hl.
  induction l as [|[k' y] l IH]; intros st Hl Hin; simpl in *; [done|].
  rewrite IH by (done || set_solver). rewrite versions_put. case_decide; [set_solver|done].
Qed.

(** While the reader is prepared the write conflicts; without it, it does not. *)
Lemma blind_write_blocked s id txn ts k v x ts2 :
  only_reader s id txn ts k v → ts2 <ₜ ts → ¬ conflict_free s (blind_write k x) ts2.
Proof.
  intros Ho Hlt [_ Hreads]%blind_write_free. apply TsLt_not_le in Hlt. apply Hlt, Hreads.
  exists id, txn. split; [apply Ho|]. rewrite (or_reads _ _ _ _ _ _ Ho). by eexists.
Qed.

Definition after_commit s (id : Z) (txn : Transaction) ts : Store :=
  s <| store ::= Commit_txn ts txn |> <| prepared ::= delete id |>.

Lemma blind_write_unblocked s id txn ts k v x ts2 :
  lastReads (store s) = ∅ → only_reader s id txn ts k v → v <ₜ ts2 →
  conflict_free (after_commit s id txn ts) (blind_write k x) ts2.
Proof.
  intros Hl [Hid Hk Hnw Hothers Hnew] Hlt. apply blind_write_free. simpl. split.
  - intros _. split.
    + intros w. rewrite versions_commit_other by done. intros Hw. right. eapply TsLe_lt_trans; [by apply Hnew|done].
    + intros u (id' & txn' & [Hne Hid']%lookup_delete_Some & Hw').
      destruct (Hothers id' u txn') as [_ Hn]; [done..|]. rewrite Hn in Hw'. by destruct Hw'.
  - intros u (id' & txn' & [Hne Hid']%lookup_delete_Some & Hr').
    destruct (Hothers id' u txn') as [Hn _]; [done..|]. rewrite Hn in Hr'. by destruct Hr'.
Qed.

Lemma blind_write_versions st k x ts2 :
  lastReads st = ∅ →
  versions (Commit_txn ts2 (blind_write k x) st) k = set_insert (MkVersion ts2 x) (versions st k).
Proof.
  intros Hl. unfold Commit_txn. rewrite commitGets_id by done.
  assert (hash_order (getWriteSet (blind_write k x)) = [(k, x)]) as ->.
  { apply Permutation_singleton_r. rewrite hash_order_perm.
    replace (getWriteSet (blind_write k x)) with ({[k := x]} : gmap string string) by (symmetry; apply insert_empty).
    by rewrite map_to_list_singleton. }
  simpl. by rewrite versions_put, decide_True.
Qed.

Lemma read_after_insert st k x v ts2 t d :
  wf st → newest st k v → v <ₜ ts2 → ts2 ≤ₜ t →
  match latest_at (set_insert (MkVersion ts2 x) (versions st k)) t with
  | Some w => (true, (write w, value w))
  | None => (false, d)
  end = (true, (ts2, x)).
Proof.
  intros Hwf Hnew Hlt Hle.
  assert (latest_at (set_insert (MkVersion ts2 x) (versions st k)) t = Some (MkVersion ts2 x)) as ->; [|done].
  apply latest_at_spec; [apply set_insert_sorted, Hwf|]. split_and!; [|done|].
  - apply set_insert_new. simpl. intros w Hw Heq. apply Hnew in Hw. rewrite Heq in Hw. by apply TsLt_not_le in Hlt.
  - simpl. intros w [->|Hw]%elem_of_set_insert _; [done|]. right. eapply TsLe_lt_trans; [by apply Hnew|done].
Qed.

(** Committed reads are not protected.  A transaction read the newest version [v] of [k] and is
    prepared at [ts].  A write of [k] at a time between [v] and [ts] is refused.  But when the
    transaction has committed, nothing remembers its read: the same write is accepted, and once
    it is committed too, a read of [k] just before [ts] returns it in place of [v]. *)
Theorem tapir_committed_reads_unprotected s (id id2 n n2 : Z) (txn : Transaction) k (x : string) v ts ts2
    (proposed : Timestamp) :
  treachable s → only_reader s id txn ts k v → prepared s !! id2 = None →
  v <ₜ ts2 → ts2 <ₜ ts →
  (∃ r, Prepare id2 (blind_write k x) ts2 proposed s = Ok (r, s) ∧ r.1 ≠ REPLY_OK) ∧
  ∃ s1 r s2 s3, Commit id n s = Ok (tt, s1) ∧
    Prepare id2 (blind_write k x) ts2 proposed s1 = Ok (r, s2) ∧ r.1 = REPLY_OK ∧
    Commit id2 n2 s2 = Ok (tt, s3) ∧
    ∀ t d, ts2 ≤ₜ t → t <ₜ ts → get_at (store s3) k t d = (true, (ts2, x)).
Proof.
  intros Hok%treachable_ok Ho Hid2 Hv Hts. split.
  { destruct (Prepare_run s id2 (blind_write k x) ts2 proposed Hok Hid2) as (r & s' & Hrun & Hiff & ->).
    pose proof (blind_write_blocked _ _ _ _ _ _ x _ Ho Hts) as Hnot. rewrite <- Hiff in Hnot.
    rewrite decide_False in Hrun by done. by exists r. }
  assert (Commit id n s = Ok (tt, after_commit s id txn ts)) as Hc.
  { unfold Commit, modify, after_commit. simpl. by rewrite (or_prepared _ _ _ _ _ _ Ho). }
  pose proof (tapir_ok_commit s id n Hok) as Hok1. unfold post in Hok1. rewrite Hc in Hok1.
  destruct (Prepare_run (after_commit s id txn ts) id2 (blind_write k x) ts2 proposed Hok1) as (r & s2 & Hrun & Hiff & ->).
  { simpl. by apply lookup_delete_None; right. }
  assert (r.1 = REPLY_OK) as Hr by (apply Hiff; eapply blind_write_unblocked; [apply Hok|done..]).
  rewrite decide_True in Hrun by done.
  eexists _, r, _, _. split_and!; [exact Hc|exact Hrun|done|reflexivity|].
  intros t d Ht2 _. rewrite get_at_latest. simpl. rewrite lookup_insert_eq. simpl.
  rewrite blind_write_versions by apply Hok1. apply (read_after_insert _ _ _ v); [apply Hok1| |done..].
  intros w. simpl. rewrite versions_commit_other by apply Hok || apply Ho. apply Ho.
Qed.
End committed.

(** ** Concrete instances *)

#[local] Existing Instance default_order.

(** A linearizable store with the key [k], which transaction 1 read and is prepared to commit
    at time 10. *)
Definition demo_reader : Transaction := addReadSet "k" Timestamp0 Transaction_default.

Definition demo_data : VersionedKVStore := put "k" "null" Timestamp0 VersionedKVStore_empty.

Definition demo_loaded : Store := MkStore true demo_data ∅.

Definition demo_prepared : Store := MkStore true demo_data {[1 := (MkTimestamp 10 1, demo_reader)]}.

Lemma demo_loaded_reachable : treachable demo_loaded.
Proof. exists true. eapply rtc_once. by eapply (tstep_load _ "k" "null"). Qed.

Lemma demo_stored : stored demo_data "k" Timestamp0.
Proof. exists (MkVersion Timestamp0 "null"). split; [|done]. by apply list_elem_of_singleton. Qed.

Lemma demo_prepared_reachable : treachable demo_prepared.
Proof.
  destruct demo_loaded_reachable as [lin Hr]. exists lin. eapply rtc_r; [exact Hr|].
  eapply (tstep_prepare _ 1 demo_reader (MkTimestamp 10 1) Timestamp0 (REPLY_OK, Timestamp0)).
  - reflexivity.
  - vm_compute. reflexivity.
Qed.

Lemma tapir_prepare_decides_by_conflicts_witness :
  (∃ s', Prepare 1 demo_reader (MkTimestamp 10 1) (MkTimestamp 3 3) demo_prepared =
     Ok ((REPLY_OK, MkTimestamp 3 3), s') ∧ s' = demo_prepared) ∧
  ∃ r s', Prepare 1 demo_reader (MkTimestamp 12 1) Timestamp0 demo_prepared = Ok (r, s') ∧
    (r.1 = REPLY_OK ↔ conflict_free demo_loaded demo_reader (MkTimestamp 12 1)).
Proof.
  split.
  - destruct (tapir_prepare_decides_by_conflicts demo_prepared 1 demo_reader (MkTimestamp 10 1) (MkTimestamp 3 3)
      demo_prepared_reachable) as (r & s' & Hrun & Hold & _).
    destruct Hold as [-> ->]; [by eexists|]. eexists. split; [exact Hrun|reflexivity].
  - destruct (tapir_prepare_decides_by_conflicts demo_prepared 1 demo_reader (MkTimestamp 12 1) Timestamp0
      demo_prepared_reachable) as (r & s' & Hrun & _ & Hnew).
    destruct Hnew as [Hiff _]; [intros (txn0 & [=])|]. exists r, s'. split; [exact Hrun|exact Hiff].
Defined.

(** While transaction 1 is prepared, transaction 2, which writes [k] later, is prepared and
    committed. *)
Definition demo_between : Store :=
  MkStore true demo_data (<[2 := (MkTimestamp 12 1, addWriteSet "k" "new" Transaction_default)]> (prepared demo_prepared)).

Definition demo_after : Store :=
  MkStore true (put "k" "new" (MkTimestamp 12 1) demo_data) (prepared demo_prepared).

Lemma tapir_prepared_reads_stay_valid_witness :
  ∃ x, get_at (store demo_after) "k" (MkTimestamp 9 9) (Timestamp0, "") = (true, (Timestamp0, x)).
Proof.
  apply (tapir_prepared_reads_stay_valid demo_loaded demo_prepared demo_after 1 demo_reader (MkTimestamp 10 1)
    Timestamp0 Timestamp0 "k" Timestamp0).
  - apply demo_loaded_reachable.
  - reflexivity.
  - intros (txn0 & [=]).
  - vm_compute. reflexivity.
  - reflexivity.
  - apply demo_stored.
  - apply (rtc_l _ _ demo_between); [|apply rtc_once].
    + split; [|reflexivity].
      eapply (tstep_prepare _ 2 (addWriteSet "k" "new" Transaction_default) (MkTimestamp 12 1) Timestamp0
        (REPLY_OK, Timestamp0) demo_between); vm_compute; reflexivity.
    + split; [|reflexivity]. eapply (tstep_commit _ 2 0). vm_compute. reflexivity.
  - right. left. simpl. lia.
  - left. simpl. lia.
Defined.

Lemma tapir_committed_reads_unprotected_witness :
  (∃ r, Prepare 2 (blind_write "k" "x") (MkTimestamp 5 2) Timestamp0 demo_prepared = Ok (r, demo_prepared) ∧
        r.1 ≠ REPLY_OK) ∧
  ∃ s1 r s2 s3, Commit 1 0 demo_prepared = Ok (tt, s1) ∧
    Prepare 2 (blind_write "k" "x") (MkTimestamp 5 2) Timestamp0 s1 = Ok (r, s2) ∧ r.1 = REPLY_OK ∧
    Commit 2 0 s2 = Ok (tt, s3) ∧
    ∀ t d, MkTimestamp 5 2 ≤ₜ t → t <ₜ MkTimestamp 10 1 → get_at (store s3) "k" t d = (true, (MkTimestamp 5 2, "x")).
Proof.
  apply (tapir_committed_reads_unprotected demo_prepared 1 2 0 0 demo_reader "k" "x" Timestamp0).
  - apply demo_prepared_reachable.
  - split.
    + reflexivity.
    + reflexivity.
    + reflexivity.
    + intros id' ts' txn' Hne Hid'. simpl in Hid'. by apply lookup_singleton_Some in Hid' as [<- _].
    + intros w Hw. apply list_elem_of_singleton in Hw as ->. by left.
  - reflexivity.
  - left. simpl. lia.
  - left. simpl. lia.
Defined.
