(* ===== verification/IRRecord.v ===== *)
(** The record of inconsistent replication: [replication/ir/record.h] and [record.cc], with
    [RecordEntryProto] and [RecordProto] of [ir-proto.proto] and [Request] of
    [replication/common/request.proto].

    [std::map<opid_t, RecordEntry>] is a finite map; where the code iterates over it, the
    entries come in the order of their keys. *)

From S2P Require Import Prelude.

(** ** Operation ids *)

Abbreviation opid_t := (Z * Z)%type.

(** The order of [std::pair]. *)
Definition opid_le (a b : opid_t) : Prop := a.1 < b.1 ∨ a.1 = b.1 ∧ a.2 ≤ b.2.

#[global] Instance opid_le_dec a b : Decision (opid_le a b).
Proof. unfold opid_le. apply _. Defined.

(** The entries of a [std::map] in the order of iteration. *)
Definition in_order {A} (m : gmap opid_t A) : list (opid_t * A) :=
  merge_sort (λ x y, opid_le x.1 y.1) (map_to_list m).

Lemma in_order_perm {A} (m : gmap opid_t A) : in_order m ≡ₚ map_to_list m.
Proof. apply merge_sort_Permutation. Qed.

Lemma elem_of_in_order {A} (m : gmap opid_t A) k x : (k, x) ∈ in_order m ↔ m !! k = Some x.
Proof. rewrite in_order_perm. apply elem_of_map_to_list. Qed.

Lemma in_order_NoDup {A} (m : gmap opid_t A) : NoDup (in_order m).*1.
Proof. rewrite in_order_perm. apply NoDup_fst_map_to_list. Qed.

(** ** Entries *)

Inductive RecordEntryState := RECORD_STATE_TENTATIVE | RECORD_STATE_FINALIZED.
Inductive RecordEntryType := RECORD_TYPE_INCONSISTENT | RECORD_TYPE_CONSENSUS.

#[global] Instance RecordEntryState_eq_dec : EqDecision RecordEntryState.
Proof. solve_decision. Defined.
#[global] Instance RecordEntryType_eq_dec : EqDecision RecordEntryType.
Proof. solve_decision. Defined.

Record Request := MkRequest { req_op : string; req_clientid : Z; req_clientreqid : Z }.

Record RecordEntry := MkRecordEntry {
  e_view : Z;
  e_opid : opid_t;
  e_state : RecordEntryState;
  e_type : RecordEntryType;
  e_request : Request;
  e_result : string
}.

#[global] Instance RecordEntry_eta : Eta RecordEntry := λ e,
  MkRecordEntry (e_view e) (e_opid e) (e_state e) (e_type e) (e_request e) (e_result e).

(** ** The record *)

(** [class Record], with its only member. *)
Abbreviation IRRecord := (gmap opid_t RecordEntry).

(** The assertion that the operation is new is not compiled. *)
Definition Add_entry (entry : RecordEntry) (r : IRRecord) : IRRecord := <[e_opid entry := entry]> r.

Definition Add (view : Z) (opid : opid_t) (request : Request) (state : RecordEntryState) (type : RecordEntryType)
    (r : IRRecord) : IRRecord :=
  Add_entry (MkRecordEntry view opid state type request "") r.

Definition Add_result (view : Z) (opid : opid_t) (request : Request) (state : RecordEntryState)
    (type : RecordEntryType) (result : string) (r : IRRecord) : IRRecord :=
  alter (λ e, e <| e_result := result |>) opid (Add view opid request state type r).

Definition Find (opid : opid_t) (r : IRRecord) : option RecordEntry := r !! opid.

(** An assignment through the pointer [Find] returns. *)
Definition set_entry (opid : opid_t) (f : RecordEntry → RecordEntry) (r : IRRecord) : bool * IRRecord :=
  match Find opid r with
  | None => (false, r)
  | Some e => (true, <[opid := f e]> r)
  end.

Definition SetStatus (op : opid_t) (state : RecordEntryState) : IRRecord → bool * IRRecord :=
  set_entry op (λ e, e <| e_state := state |>).

Definition SetResult (op : opid_t) (result : string) : IRRecord → bool * IRRecord :=
  set_entry op (λ e, e <| e_result := result |>).

Definition SetRequest (op : opid_t) (req : Request) : IRRecord → bool * IRRecord :=
  set_entry op (λ e, e <| e_request := req |>).

Definition Remove (opid : opid_t) (r : IRRecord) : IRRecord := delete opid r.

Definition Empty (r : IRRecord) : bool := bool_decide (r = ∅).

Definition Entries (r : IRRecord) : gmap opid_t RecordEntry := r.

(** ** Messages *)

Record RecordEntryProto := MkRecordEntryProto {
  ep_view : Z;
  ep_opid : opid_t;
  ep_state : RecordEntryState;
  ep_type : RecordEntryType;
  ep_op : string;
  ep_result : string
}.

Abbreviation RecordProto := (list RecordEntryProto).

Definition entry_ToProto (e : RecordEntry) : RecordEntryProto :=
  {| ep_view := e_view e; ep_opid := e_opid e; ep_state := e_state e; ep_type := e_type e;
     ep_op := req_op (e_request e); ep_result := e_result e |}.

Definition ToProto (r : IRRecord) : RecordProto := (λ p, entry_ToProto p.2) <$> in_order r.

(** [Record(const RecordProto &)]. *)
Definition Record_of_proto (p : RecordProto) : IRRecord :=
  foldl (λ r e,
    Add_result (ep_view e) (ep_opid e) (MkRequest (ep_op e) (ep_opid e).1 (ep_opid e).2) (ep_state e) (ep_type e)
      (ep_result e) r) ∅ p.

(** ** Well-formed records *)

(** An entry is filed under its operation id, which is the one of its request. *)
Definition entry_ok (opid : opid_t) (e : RecordEntry) : Prop :=
  e_opid e = opid ∧ req_clientid (e_request e) = opid.1 ∧ req_clientreqid (e_request e) = opid.2.

Definition record_ok (r : IRRecord) : Prop := map_Forall entry_ok r.

Lemma Add_result_insert (view : Z) (opid : opid_t) (request : Request) (state : RecordEntryState)
    (type : RecordEntryType) (result : string) (r : IRRecord) :
  Add_result view opid request state type result r =
  <[opid := MkRecordEntry view opid state type request result]> r.
Proof. unfold Add_result, Add, Add_entry. simpl. by rewrite alter_insert_eq. Qed.

Lemma record_ok_empty : record_ok ∅.
Proof. apply map_Forall_empty. Qed.

Lemma record_ok_insert opid e r : record_ok r → entry_ok opid e → record_ok (<[opid := e]> r).
Proof. intros Hr He. by apply map_Forall_insert_2. Qed.

Lemma set_entry_ok opid f r :
  record_ok r → (∀ e, entry_ok opid e → entry_ok opid (f e)) → record_ok (set_entry opid f r).2.
Proof.
  intros Hr Hf. unfold set_entry, Find. destruct (r !! opid) as [e|] eqn:He; [|done].
  apply record_ok_insert; [done|]. by apply Hf, Hr.
Qed.

Lemma Record_of_proto_ok p : record_ok (Record_of_proto p).
Proof.
  unfold Record_of_proto. assert (∀ r, record_ok r → record_ok (foldl (λ r e,
    Add_result (ep_view e) (ep_opid e) (MkRequest (ep_op e) (ep_opid e).1 (ep_opid e).2) (ep_state e) (ep_type e)
      (ep_result e) r) r p)) as Hgen; [|apply Hgen, record_ok_empty].
  induction p as [|e p IH]; intros r Hr; simpl; [done|]. apply IH. rewrite Add_result_insert.
  by apply record_ok_insert.
Qed.

Create HintDb record.
#[export] Hint Resolve record_ok_empty record_ok_insert Record_of_proto_ok : record.

Lemma entry_roundtrip opid e :
  entry_ok opid e →
  MkRecordEntry (e_view e) (e_opid e) (e_state e) (e_type e)
    (MkRequest (req_op (e_request e)) (e_opid e).1 (e_opid e).2) (e_result e) = e.
Proof.
  destruct e as [v o st ty [op c rq] res]. intros (Ho & Hc & Hr); simpl in *. by subst.
Qed.

Lemma Record_of_entries (l : list (opid_t * RecordEntry)) r0 :
  (∀ o e, (o, e) ∈ l → entry_ok o e) →
  foldl (λ r e, Add_result (ep_view e) (ep_opid e) (MkRequest (ep_op e) (ep_opid e).1 (ep_opid e).2) (ep_state e)
    (ep_type e) (ep_result e) r) r0 ((λ p, entry_ToProto p.2) <$> l) =
  foldl (λ r p, <[p.1 := p.2]> r) r0 l.
Proof.
  revert r0. induction l as [|[o e] l IH]; intros r0 Hok; simpl; [done|].
  rewrite IH by set_solver. f_equal. rewrite Add_result_insert; simpl.
  assert (entry_ok o e) as He by (apply Hok; set_solver). rewrite (entry_roundtrip o e He).
  by rewrite (proj1 He).
Qed.

Lemma Record_roundtrip r : record_ok r → Record_of_proto (ToProto r) = r.
Proof.
  intros Hr. unfold Record_of_proto, ToProto. rewrite Record_of_entries.
  - rewrite foldl_insert_list_to_map by apply in_order_NoDup. rewrite map_union_empty.
    rewrite (list_to_map_proper _ (map_to_list r)); [apply list_to_map_to_list|apply in_order_NoDup|apply in_order_perm].
  - intros o e Hin%elem_of_in_order. by apply Hr.
Qed.
