(* ===== verification/IRReplica.v ===== *)
(** A replica of inconsistent replication: [replication/ir/replica.h] and [replica.cc], with the
    messages of [ir-proto.proto], [ReplicaStatus] of [replication/common/replica.h] and
    [lib/persistent_register.cc].

    Clients propose and finalize operations; the replica keeps them in its record and calls the
    application.  In a view change the replicas send their records to the leader of the next
    view, which merges them.  The file of the persistent register is a member of the state;
    errors of the file system, which stop the process, are not represented, except that reading
    an empty file is one of them.  The replica is modelled as it is built, with [NASSERT]
    defined: what an [ASSERT] has as its argument is not evaluated.  What the view change timer
    fires is an event of a run. *)

From S2P Require Import StrongServer.
From S2P Require Import QuorumSet LRReplica.
From S2P Require Import Prelude IRRecord.

(** The order of the keys of a [std::map] from strings. *)
Definition string_key_le {A} (x y : string * A) : Prop := String.leb x.1 y.1 = true.

#[global] Instance string_key_le_dec {A} (x y : string * A) : Decision (string_key_le x y).
Proof. unfold string_key_le. apply _. Defined.

(** ** The application *)

(** [class IRAppReplica]. *)
Class IRAppReplica (S : Type) := {
  ExecInconsistentUpcall : string → M S unit;
  ExecConsensusUpcall : string → M S string;
  UnloggedUpcall : string → M S string;
  Sync : gmap opid_t RecordEntry → M S unit;
  Merge : gmap opid_t (list RecordEntry) → gmap opid_t (list RecordEntry) → gmap opid_t string →
    M S (gmap opid_t string)
}.

(** ** Messages *)

Record DoViewChangeMessage := MkDoViewChange {
  dvc_replicaIdx : Z; dvc_record : option RecordProto; dvc_new_view : Z; dvc_latest_normal_view : Z
}.

Record StartViewMessage := MkStartView { sv_record : RecordProto; sv_new_view : Z }.

Record PersistedViewInfo := MkPersistedViewInfo { pv_view : Z; pv_latest_normal_view : Z }.

Inductive ir_message :=
| ProposeInconsistent (req : Request)
| FinalizeInconsistent (opid : opid_t)
| ProposeConsensus (req : Request)
| FinalizeConsensus (opid : opid_t) (result : string)
| DoViewChange (m : DoViewChangeMessage)
| StartView (m : StartViewMessage)
| UnloggedRequestMsg (req : Request)
| UnexpectedMsg.

Inductive ir_reply :=
| ReplyInconsistent (view replicaIdx : Z) (opid : opid_t) (finalized : bool)
| ReplyConsensus (view replicaIdx : Z) (opid : opid_t) (result : string) (finalized : bool)
| Confirm (view replicaIdx : Z) (opid : opid_t)
| UnloggedReply (reply : string) (clientreqid : Z)
| SendDoViewChange (m : DoViewChangeMessage)
| SendStartView (m : StartViewMessage).

(** To the sender of a request, to a replica, to all replicas. *)
Inductive ir_sent := ToRemote (remote : Z) (m : ir_reply) | ToReplicaIdx (i : Z) (m : ir_reply) | ToAllReplicas (m : ir_reply).

(** ** The replica *)

Inductive ReplicaStatus := STATUS_NORMAL | STATUS_VIEW_CHANGE | STATUS_RECOVERING.

#[global] Instance ReplicaStatus_eq_dec : EqDecision ReplicaStatus.
Proof. solve_decision. Defined.

Record IRReplica (S : Type) := MkIRReplica {
  config : Configuration;
  myIdx : Z;
  app : S;
  status : ReplicaStatus;
  view : Z;
  latest_normal_view : Z;
  persistent_view_info : option string;
  record : IRRecord;
  do_view_change_quorum : QuorumSet Z DoViewChangeMessage;
  sends : list (ir_sent * bool)
}.
Arguments MkIRReplica {_} _ _ _ _ _ _ _ _ _ _.
Arguments config {_} _.
Arguments myIdx {_} _.
Arguments app {_} _.
Arguments status {_} _.
Arguments view {_} _.
Arguments latest_normal_view {_} _.
Arguments persistent_view_info {_} _.
Arguments record {_} _.
Arguments do_view_change_quorum {_} _.
Arguments sends {_} _.

#[global] Instance IRReplica_eta {S} : Eta (IRReplica S) := λ r,
  MkIRReplica (config r) (myIdx r) (app r) (status r) (view r) (latest_normal_view r) (persistent_view_info r)
    (record r) (do_view_change_quorum r) (sends r).

Section replica.
Context {S : Type} `{!IRAppReplica S} `{!Network} `{!Codec PersistedViewInfo}.

Abbreviation MI := (M (IRReplica S)).

(** A call of the application. *)
Definition on_app {A} (m : M S A) : MI A := λ r,
  match m (app r) with
  | Ok (a, s) => Ok (a, r <| app := s |>)
  | Panic => Panic
  | Undefined => Undefined
  end.

(** The result of a send only decides about a warning in the log. *)
Definition transport_send (x : ir_sent) : MI unit :=
  modify (λ r, r <| sends ::= (λ l, l ++ [(x, send_ok (length l))]) |>).

(** ** Operations of the clients *)

Definition HandleProposeInconsistent (remote : Z) (req : Request) : MI unit :=
  let opid := (req_clientid req, req_clientreqid req) in
  r ← get_st;
  match Find opid (record r) with
  | Some entry =>
      transport_send (ToRemote remote
        (ReplyInconsistent (e_view entry) (myIdx r) opid (bool_decide (e_state entry = RECORD_STATE_FINALIZED))))
  | None =>
      _ ← modify (λ r, r <| record ::= Add (view r) opid req RECORD_STATE_TENTATIVE RECORD_TYPE_INCONSISTENT |>);
      transport_send (ToRemote remote (ReplyInconsistent (view r) (myIdx r) opid false))
  end.

Definition HandleFinalizeInconsistent (remote : Z) (opid : opid_t) : MI unit :=
  r ← get_st;
  match Find opid (record r) with
  | Some entry =>
      if decide (e_state entry = RECORD_STATE_TENTATIVE) then
        _ ← modify (λ r, r <| record ::= (λ t, (SetStatus opid RECORD_STATE_FINALIZED t).2) |>);
        _ ← on_app (ExecInconsistentUpcall (req_op (e_request entry)));
        transport_send (ToRemote remote (Confirm (view r) (myIdx r) opid))
      else mret tt
  | None => mret tt
  end.

Definition HandleProposeConsensus (remote : Z) (req : Request) : MI unit :=
  let opid := (req_clientid req, req_clientreqid req) in
  r ← get_st;
  match Find opid (record r) with
  | Some entry =>
      transport_send (ToRemote remote
        (ReplyConsensus (e_view entry) (myIdx r) opid (e_result entry)
           (bool_decide (e_state entry = RECORD_STATE_FINALIZED))))
  | None =>
      result ← on_app (ExecConsensusUpcall (req_op req));
      _ ← modify (λ r, r <| record ::=
            Add_result (view r) opid req RECORD_STATE_TENTATIVE RECORD_TYPE_CONSENSUS result |>);
      transport_send (ToRemote remote (ReplyConsensus (view r) (myIdx r) opid result false))
  end.

Definition HandleFinalizeConsensus (remote : Z) (opid : opid_t) (result : string) : MI unit :=
  r ← get_st;
  match Find opid (record r) with
  | Some entry =>
      _ ← modify (λ r, r <| record ::= (λ t, (SetStatus opid RECORD_STATE_FINALIZED t).2) |>);
      _ ← when (negb (bool_decide (result = e_result entry)))
            (modify (λ r, r <| record ::= alter (λ e, e <| e_result := result |>) opid |>));
      transport_send (ToRemote remote (Confirm (view r) (myIdx r) opid))
  | None => mret tt
  end.

Definition HandleUnlogged (remote : Z) (req : Request) : MI unit :=
  res ← on_app (UnloggedUpcall (req_op req));
  transport_send (ToRemote remote (UnloggedReply res (req_clientreqid req))).

(** ** View changes *)

(** [PersistentRegister]: an absent file reads as the empty string; [fread] of the zero bytes of
    an empty one does not return 1, which the code takes for an error. *)
Definition PersistentRegister_Write (output : string) : MI unit :=
  modify (λ r, r <| persistent_view_info := Some output |>).

Definition PersistentRegister_Read (file : option string) : res string :=
  match file with
  | None => Ok ""
  | Some EmptyString => Panic
  | Some s => Ok s
  end.

(** The view info is serialized in the argument of an [ASSERT], which is not compiled: [output]
    is still empty when it is written. *)
Definition PersistViewInfo : MI unit := PersistentRegister_Write "".

Definition RecoverViewInfo : MI unit :=
  r ← get_st;
  s ← lift_res (PersistentRegister_Read (persistent_view_info r));
  let info : PersistedViewInfo := ParseFromString s in
  modify (λ r, r <| view := pv_view info |> <| latest_normal_view := pv_latest_normal_view info |>).

Definition BroadcastDoViewChangeMessages : MI unit :=
  r ← get_st;
  let msg := MkDoViewChange (myIdx r) None (view r) (latest_normal_view r) in
  leader_idx ← lift_res (GetLeaderIndex (config r) (view r));
  _ ← for_each (seqZ 0 (QuorumSet.n (config r))) (λ i,
        when (negb ((i =? myIdx r) || (i =? leader_idx))) (transport_send (ToReplicaIdx i (SendDoViewChange msg))));
  when (negb (leader_idx =? myIdx r))
    (transport_send (ToReplicaIdx leader_idx
       (SendDoViewChange (MkDoViewChange (myIdx r) (Some (ToProto (record r))) (view r) (latest_normal_view r))))).

(** The [max] of the first loop of [IrMergeRecords], over the messages in the order of the
    replicas. *)
Definition by_replica (records : gmap Z DoViewChangeMessage) : list (Z * DoViewChangeMessage) :=
  merge_sort key_le (map_to_list records).

Definition max_latest_normal_view (lnv : Z) (records : gmap Z DoViewChangeMessage) : Z :=
  foldl (λ m p, Z.max m (dvc_latest_normal_view p.2)) lnv (by_replica records).

(** The records of the latest normal view, the leader's own last.  The assertion that a message
    has a record is not compiled; an absent one reads as empty. *)
Definition latest_records (lnv : Z) (own : IRRecord) (records : gmap Z DoViewChangeMessage) : list IRRecord :=
  let max := max_latest_normal_view lnv records in
  omap (λ p, if dvc_latest_normal_view p.2 =? max
             then Some (Record_of_proto (default [] (dvc_record p.2))) else None) (by_replica records) ++
  (if lnv =? max then [own] else []).

(** The entries of all records: [R] collects the inconsistent and the finalized ones,
    [entries_by_opid] groups the tentative ones. *)
Definition add_new (entry : RecordEntry) (opid : opid_t) (R : IRRecord) : IRRecord :=
  match Find opid R with None => Add_entry entry R | Some _ => R end.

Definition group_entry (acc : IRRecord * gmap opid_t (list RecordEntry)) (p : opid_t * RecordEntry) :
    IRRecord * gmap opid_t (list RecordEntry) :=
  let '(R, entries_by_opid) := acc in
  let '(opid, entry) := p in
  if decide (e_type entry = RECORD_TYPE_INCONSISTENT) then (add_new entry opid R, entries_by_opid)
  else if decide (e_state entry = RECORD_STATE_FINALIZED) then
    (add_new entry opid R, delete opid entries_by_opid)
  else
    match Entries R !! e_opid entry with
    | None => (R, <[e_opid entry := default [] (entries_by_opid !! e_opid entry) ++ [entry]]> entries_by_opid)
    | Some _ => (R, entries_by_opid)
    end.

Definition group_entries (records : list IRRecord) : IRRecord * gmap opid_t (list RecordEntry) :=
  foldl (λ acc r, foldl group_entry acc (in_order r)) (∅, ∅) records.

(** How often a result occurs, and the first result, in the order of strings, that occurs
    [ceil(f / 2) + 1] times. *)
Definition count_results (entries : list RecordEntry) : gmap string Z :=
  foldl (λ m e, <[e_result e := default 0 (m !! e_result e) + 1]> m) ∅ entries.

Definition majority (c : Configuration) : Z := (f c + 1) / 2 + 1.

Definition majority_result (c : Configuration) (entries : list RecordEntry) : option string :=
  head ((λ p, p.1) <$> filter (λ p, majority c ≤ p.2)
    (merge_sort string_key_le (map_to_list (count_results entries)))).

(** [d], [u] and [majority_results_in_d]. *)
Definition split_entries (c : Configuration) (entries_by_opid : gmap opid_t (list RecordEntry)) :
    gmap opid_t (list RecordEntry) * gmap opid_t (list RecordEntry) * gmap opid_t string :=
  (filter (λ p, is_Some (majority_result c p.2)) entries_by_opid,
   filter (λ p, ¬ is_Some (majority_result c p.2)) entries_by_opid,
   omap (majority_result c) entries_by_opid).

(** The merged operations; an operation [Merge] returns that was not asked for has no first
    entry. *)
Definition merge_result (view : Z) (entries_by_opid : gmap opid_t (list RecordEntry)) (merged : IRRecord)
    (p : opid_t * string) : res IRRecord :=
  match default [] (entries_by_opid !! p.1) with
  | [] => Undefined
  | entry :: _ => Ok (Add_result view p.1 (e_request entry) RECORD_STATE_FINALIZED (e_type entry) p.2 merged)
  end.

Fixpoint merge_results (view : Z) (entries_by_opid : gmap opid_t (list RecordEntry)) (merged : IRRecord)
    (results : list (opid_t * string)) : res IRRecord :=
  match results with
  | [] => Ok merged
  | p :: results' =>
      merged' ← merge_result view entries_by_opid merged p;
      merge_results view entries_by_opid merged' results'
  end.

Definition IrMergeRecords (records : gmap Z DoViewChangeMessage) : MI IRRecord :=
  r ← get_st;
  let latest := latest_records (latest_normal_view r) (record r) records in
  _ ← when (latest_normal_view r =? max_latest_normal_view (latest_normal_view r) records)
        (modify (λ r, r <| record := ∅ |>));
  let '(R, entries_by_opid) := group_entries latest in
  let '(d, u, majority_results_in_d) := split_entries (config r) entries_by_opid in
  _ ← on_app (Sync (Entries R));
  results_by_opid ← on_app (Merge d u majority_results_in_d);
  merged ← lift_res (merge_results (view r) entries_by_opid ∅ (in_order results_by_opid));
  mret (foldl (λ R p, Add_entry p.2 R) R (in_order (Entries merged))).

(** The end of [HandleDoViewChange], from the test for the leader on. *)
Definition collect_view_change (msg : DoViewChangeMessage) : MI unit :=
  r ← get_st;
  leader ← lift_res (GetLeaderIndex (config r) (view r));
  if negb (myIdx r =? leader) then mret tt
  else
    let '(quorum, q) :=
      AddAndCheckForQuorum (dvc_new_view msg) (to_int (dvc_replicaIdx msg)) msg (do_view_change_quorum r) in
    _ ← modify (λ r, r <| do_view_change_quorum := q |>);
    match quorum with
    | None => mret tt
    | Some records =>
        merged ← IrMergeRecords records;
        _ ← modify (λ r, r <| record := merged |> <| status := STATUS_NORMAL |>
                           <| view := dvc_new_view msg |> <| latest_normal_view := dvc_new_view msg |>);
        _ ← PersistViewInfo;
        transport_send (ToAllReplicas (SendStartView (MkStartView (ToProto merged) (dvc_new_view msg))))
    end.

Definition HandleDoViewChange (msg : DoViewChangeMessage) : MI unit :=
  r ← get_st;
  if dvc_new_view msg <? view r then mret tt
  else if dvc_new_view msg =? view r then
    if decide (status r = STATUS_NORMAL) then mret tt else collect_view_change msg
  else
    _ ← modify (λ r, r <| view := dvc_new_view msg |>);
    _ ← PersistViewInfo;
    _ ← modify (λ r, if decide (status r = STATUS_NORMAL) then r <| status := STATUS_VIEW_CHANGE |> else r);
    _ ← BroadcastDoViewChangeMessages;
    collect_view_change msg.

Definition HandleStartView (msg : StartViewMessage) : MI unit :=
  r ← get_st;
  if sv_new_view msg <? view r then mret tt
  else if (sv_new_view msg =? view r) && bool_decide (status r = STATUS_NORMAL) then mret tt
  else
    let record' := Record_of_proto (sv_record msg) in
    _ ← modify (λ r, r <| record := record' |>);
    _ ← on_app (Sync (Entries record'));
    _ ← modify (λ r, r <| status := STATUS_NORMAL |> <| view := sv_new_view msg |>
                       <| latest_normal_view := sv_new_view msg |>);
    PersistViewInfo.

Definition HandleViewChangeTimeout : MI unit :=
  _ ← modify (λ r, if decide (status r = STATUS_NORMAL) then r <| status := STATUS_VIEW_CHANGE |> else r);
  _ ← modify (λ r, r <| view ::= u64_incr |>);
  _ ← PersistViewInfo;
  BroadcastDoViewChangeMessages.

(** ** Dispatch *)

Inductive ir_event := IrMessage (remote : Z) (m : ir_message) | IrTimeout.

Definition HandleMessage (remote : Z) (m : ir_message) : MI unit :=
  match m with
  | ProposeInconsistent req => HandleProposeInconsistent remote req
  | FinalizeInconsistent opid => HandleFinalizeInconsistent remote opid
  | ProposeConsensus req => HandleProposeConsensus remote req
  | FinalizeConsensus opid result => HandleFinalizeConsensus remote opid result
  | DoViewChange m => HandleDoViewChange m
  | StartView m => HandleStartView m
  | UnloggedRequestMsg req => HandleUnlogged remote req
  | UnexpectedMsg => panic
  end.

Definition ir_handle (e : ir_event) : MI unit :=
  match e with IrMessage remote m => HandleMessage remote m | IrTimeout => HandleViewChangeTimeout end.

(** ** The constructor; [file] is what the file of the register holds, if it exists. *)

Definition IRReplica_start (config : Configuration) (myIdx : Z) (app : S) (file : option string) : IRReplica S :=
  MkIRReplica config myIdx app STATUS_NORMAL 0 0 file ∅ (QuorumSet_new (f config)) [].

Definition IRReplica_new : MI unit :=
  r ← get_st;
  match persistent_view_info r with
  | Some _ =>
      _ ← modify (λ r, r <| status := STATUS_RECOVERING |>);
      _ ← RecoverViewInfo;
      _ ← modify (λ r, r <| view ::= u64_incr |>);
      r ← get_st;
      leader ← lift_res (GetLeaderIndex (config r) (view r));
      _ ← when (myIdx r =? leader) (modify (λ r, r <| view ::= u64_incr |>));
      _ ← PersistViewInfo;
      BroadcastDoViewChangeMessages
  | None => PersistViewInfo
  end.
End replica.

(** ** Views *)

Section views.
Context {S : Type} `{!IRAppReplica S} `{!Network} `{!Codec PersistedViewInfo}.
Implicit Types r : IRReplica S.

(** The messages of view [v] the leader has collected. *)
Definition collected r (v : Z) : gmap Z DoViewChangeMessage :=
  default ∅ (messages (do_view_change_quorum r) !! v).

(** The record is well-formed; the view is the latest normal one in normal operation, and a later
    one otherwise; a quorum of the current view is not yet complete
    unless the view change is, and nothing is collected for later views. *)
Record ir_ok r : Prop := {
  io_record : record_ok (record r);
  io_views : latest_normal_view r ≤ view r;
  io_normal : status r = STATUS_NORMAL → latest_normal_view r = view r;
  io_behind : status r ≠ STATUS_NORMAL → latest_normal_view r < view r;
  io_required : numRequired (do_view_change_quorum r) = f (config r);
  io_later : ∀ v, view r < v → collected r v = ∅;
  io_current : status r ≠ STATUS_NORMAL → collected r (view r) = ∅ ∨ Z.of_nat (size (collected r (view r))) < f (config r)
}.

(** What the file holds, whatever the views are. *)
Definition persisted r : Prop := persistent_view_info r = Some "".

(** The members view changes depend on. *)
Record same_views r r' : Prop := {
  sw_config : config r' = config r;
  sw_idx : myIdx r' = myIdx r;
  sw_status : status r' = status r;
  sw_view : view r' = view r;
  sw_normal : latest_normal_view r' = latest_normal_view r;
  sw_file : persistent_view_info r' = persistent_view_info r;
  sw_quorum : do_view_change_quorum r' = do_view_change_quorum r
}.

#[global] Instance same_views_preorder : PreOrder same_views.
Proof.
  split; [by split|]. intros r1 r2 r3 [] []. split; congruence.
Qed.

Lemma same_views_ok r r' : same_views r r' → ir_ok r → persisted r → record_ok (record r') → ir_ok r' ∧ persisted r'.
Proof.
  intros [Hc Hi Hs Hv Hn Hf Hq] [Hr Hvw Hno Hbe Hre Hl Hcur] Hp Hr'.
  unfold collected in *. split; [split|]; unfold collected, persisted in *; rewrite ?Hc, ?Hs, ?Hv, ?Hn, ?Hf, ?Hq; done.
Qed.

(** A command that only sends and calls the application. *)
Definition quiet {A} (m : M (IRReplica S) A) : Prop :=
  ∀ r, wlp m (λ _ r', same_views r r' ∧ record r' = record r) r.

Lemma quiet_bind {A B} (m : M (IRReplica S) A) (k : A → M (IRReplica S) B) :
  quiet m → (∀ a, quiet (k a)) → quiet (m ≫= k).
Proof.
  intros Hm Hk r. apply post_bind. eapply post_mono; [apply Hm|]. intros a r1 [H1 E1].
  eapply post_mono; [apply Hk|]. intros b r2 [H2 E2]. split; [by etrans|congruence].
Qed.

Lemma quiet_ret {A} (a : A) : quiet (mret a).
Proof. by intros r. Qed.

Lemma quiet_lift {A} (x : res A) : quiet (lift_res x).
Proof. by intros r; destruct x. Qed.

Lemma quiet_get : quiet get_st.
Proof. by intros r. Qed.

Lemma quiet_send x : quiet (transport_send x).
Proof. by intros r. Qed.

Lemma quiet_app {A} (m : M S A) : quiet (on_app m).
Proof. intros r. unfold post, on_app. by destruct (m (app r)) as [[]| |]. Qed.

Lemma quiet_when b m : quiet m → quiet (when b m).
Proof. destruct b; [done|]. intros _. apply quiet_ret. Qed.

Lemma quiet_for_each {A} (l : list A) body : (∀ x, quiet (body x)) → quiet (for_each l body).
Proof. intros Hb. induction l as [|x l IH]; simpl; [apply quiet_ret|]. by apply quiet_bind. Qed.

Lemma quiet_broadcast : quiet BroadcastDoViewChangeMessages.
Proof.
  unfold BroadcastDoViewChangeMessages. apply quiet_bind; [apply quiet_get|]. intros r.
  apply quiet_bind; [apply quiet_lift|]. intros leader. apply quiet_bind.
  - apply quiet_for_each. intros i. apply quiet_when, quiet_send.
  - intros []. apply quiet_when, quiet_send.
Qed.

Lemma wlp_quiet {A B} (m : M (IRReplica S) A) (k : A → M (IRReplica S) B) Q r :
  quiet m → (∀ a r', same_views r r' → record r' = record r → wlp (k a) Q r') → wlp (m ≫= k) Q r.
Proof.
  intros Hm Hk. apply post_bind. eapply post_mono; [apply Hm|]. intros a r' [Hs He]. by apply Hk.
Qed.

(** ** The operations of the clients leave the views alone *)

Lemma client_operation_ok remote m r :
  match m with DoViewChange _ | StartView _ => False | _ => True end →
  ir_ok r → persisted r →
  wlp (HandleMessage remote m) (λ _ r', same_views r r' ∧ record_ok (record r')) r.
Proof.
  intros Hm Hok Hp. pose proof (io_record r Hok) as Hr. destruct m as [req|opid|req|opid result|dvc|sv|req|]; simpl; try done.
  - unfold HandleProposeInconsistent. apply post_get. destruct (Find _ _); [by split|]. run.
    split; [by split|]. simpl. by apply record_ok_insert.
  - unfold HandleFinalizeInconsistent. apply post_get. destruct (Find _ _); [|by split]. case_decide; [|by split]. run.
    apply wlp_quiet; [apply quiet_app|]. intros [] r1 Hs He. split; [by destruct Hs; split|].
    unfold transport_send, modify. simpl. rewrite He. simpl. by apply set_entry_ok.
  - unfold HandleProposeConsensus. apply post_get. destruct (Find _ _); [by split|].
    apply wlp_quiet; [apply quiet_app|]. intros res r1 Hs He. run.
    split; [by destruct Hs; split|]. simpl. rewrite He, Add_result_insert. by apply record_ok_insert.
  - unfold HandleFinalizeConsensus. apply post_get. destruct (Find _ _) as [e|]; [|by split]. run.
    assert (record_ok (SetStatus opid RECORD_STATE_FINALIZED (record r)).2) as Hset by (by apply set_entry_ok).
    destruct (bool_decide _); simpl.
    + run. by split.
    + run. split; [by split|]. simpl. unfold record_ok. intros o e' [[-> (e0 & He0 & ->)]|[Hne He']]%lookup_alter_Some.
      * by apply Hset in He0.
      * by apply Hset in He'.
  - unfold HandleUnlogged. apply wlp_quiet; [apply quiet_app|]. intros res r1 Hs He. split; [by destruct Hs; split|].
    unfold transport_send, modify. simpl. by rewrite He.
Qed.
(** ** Merging keeps records well-formed *)

Definition groups_ok (g : gmap opid_t (list RecordEntry)) : Prop := map_Forall (λ o es, Forall (entry_ok o) es) g.

Lemma add_new_ok opid e R : record_ok R → entry_ok opid e → record_ok (add_new e opid R).
Proof.
  intros HR He. unfold add_new, Find. destruct (R !! opid); [done|]. unfold Add_entry. rewrite (proj1 He).
  by apply record_ok_insert.
Qed.

Lemma group_entry_ok (acc : IRRecord * gmap opid_t (list RecordEntry)) (opid : opid_t) (e : RecordEntry) :
  record_ok acc.1 → groups_ok acc.2 → entry_ok opid e →
  record_ok (group_entry acc (opid, e)).1 ∧ groups_ok (group_entry acc (opid, e)).2.
Proof.
  destruct acc as [R g]. simpl. intros HR Hg He. pose proof (proj1 He) as Ho.
  case_decide; [|case_decide]; simpl.
  - split; [by apply add_new_ok|done].
  - split; [by apply add_new_ok|]. by apply map_Forall_delete.
  - rewrite Ho. destruct (Entries R !! opid); simpl; [done|]. split; [done|].
    apply map_Forall_insert_2; [|done]. apply Forall_app. split; [|by constructor].
    destruct (g !! opid) as [es|] eqn:Hes; simpl; [by apply (Hg opid)|constructor].
Qed.

Lemma group_record_ok (acc : IRRecord * gmap opid_t (list RecordEntry)) (t : IRRecord) :
  record_ok acc.1 → groups_ok acc.2 → record_ok t →
  record_ok (foldl group_entry acc (in_order t)).1 ∧ groups_ok (foldl group_entry acc (in_order t)).2.
Proof.
  intros HR Hg Hr. assert (∀ o e, (o, e) ∈ in_order t → entry_ok o e) as Hin.
  { intros o e He%elem_of_in_order. by apply Hr. }
  revert acc HR Hg Hin. generalize (in_order t). clear t Hr. intros l. induction l as [|[o e] l IH]; intros acc HR Hg Hin;
    simpl; [done|].
  destruct (group_entry_ok acc o e HR Hg) as [HR' Hg']; [apply Hin; set_solver|]. apply IH; [done..|set_solver].
Qed.

Lemma group_entries_ok (records : list IRRecord) :
  Forall record_ok records → record_ok (group_entries records).1 ∧ groups_ok (group_entries records).2.
Proof.
  unfold group_entries. assert (∀ acc : IRRecord * gmap opid_t (list RecordEntry), record_ok acc.1 → groups_ok acc.2 → Forall record_ok records →
    record_ok (foldl (λ acc (t : IRRecord), foldl group_entry acc (in_order t)) acc records).1 ∧
    groups_ok (foldl (λ acc (t : IRRecord), foldl group_entry acc (in_order t)) acc records).2) as Hgen.
  { induction records as [|r records IH]; intros acc HR Hg Hall; simpl; [done|].
    inversion Hall; subst. destruct (group_record_ok acc r HR Hg) as [HR' Hg']; [done|]. by apply IH. }
  apply (Hgen (∅, ∅)); [apply record_ok_empty|apply map_Forall_empty].
Qed.

Lemma latest_records_ok lnv own records : record_ok own → Forall record_ok (latest_records lnv own records).
Proof.
  intros Hown. unfold latest_records. apply Forall_app. split.
  - apply Forall_forall. intros r (p & _ & Hp)%list_elem_of_omap. case_match; [|done]. injection Hp as <-.
    apply Record_of_proto_ok.
  - case_match; [|constructor]. by apply Forall_singleton.
Qed.

(** What the merged operations are: the first entry of the group with the result of [Merge]. *)
Lemma merge_results_spec view g merged results m :
  merge_results view g merged results = Ok m → NoDup results.*1 →
  ∀ o, m !! o = match (list_to_map results : gmap opid_t string) !! o with
                | Some x => (λ e, MkRecordEntry view o RECORD_STATE_FINALIZED (e_type e) (e_request e) x) <$>
                              (g !! o ≫= head)
                | None => merged !! o
                end ∧ (o ∈ results.*1 → is_Some (g !! o ≫= head)).
Proof.
  revert merged. induction results as [|[o1 x1] results IH]; intros merged Hm Hnd o; simpl in *.
  { injection Hm as <-. split; [done|set_solver]. }
  apply NoDup_cons in Hnd as [Hn Hnd]. apply res_bind_Ok in Hm as (merged' & H1 & H2).
  unfold merge_result in H1. simpl in H1. destruct (g !! o1) as [[|e es]|] eqn:Hg; simpl in H1; try done.
  injection H1 as <-. destruct (IH _ H2 Hnd o) as [Ho Hin]. rewrite Ho. split.
  - rewrite Add_result_insert. destruct (decide (o1 = o)) as [->|Hne].
    + rewrite (lookup_insert_eq (list_to_map results : gmap opid_t string)). rewrite not_elem_of_list_to_map_1 by done.
      rewrite lookup_insert_eq, Hg. done.
    + rewrite (lookup_insert_ne (list_to_map results : gmap opid_t string)) by done. case_match; [done|]. by rewrite lookup_insert_ne.
  - intros [->|?]%elem_of_cons; [by rewrite Hg|by apply Hin].
Qed.

Lemma add_entries_union (m R : IRRecord) :
  record_ok m → foldl (λ R p, Add_entry p.2 R) R (in_order m) = m ∪ R.
Proof.
  intros Hm. rewrite (foldl_ext _ (λ R p, <[p.1 := p.2]> R)).
  - rewrite foldl_insert_list_to_map by apply in_order_NoDup. f_equal.
    rewrite (list_to_map_proper _ (map_to_list m)); [apply list_to_map_to_list|apply in_order_NoDup|apply in_order_perm].
  - intros R' [o e] Hin%elem_of_in_order. unfold Add_entry. simpl. by rewrite (proj1 (Hm _ _ Hin)).
Qed.

Lemma merge_results_ok view g results m :
  groups_ok g → merge_results view g ∅ (in_order results) = Ok m → record_ok m.
Proof.
  intros Hg Hm o e He. destruct (merge_results_spec _ _ _ _ _ Hm (in_order_NoDup results) o) as [Ho _].
  rewrite Ho in He. case_match; [|by rewrite lookup_empty in He].
  apply fmap_Some in He as (e0 & He0 & ->). apply bind_Some in He0 as (es & Hes & Hhd).
  specialize (Hg o es Hes). destruct es as [|e1 es]; [done|]. injection Hhd as ->.
  inversion Hg as [|? ? He1 _]; subst. destruct He1 as (_ & Hc & Hr). by repeat split.
Qed.

(** The run of [IrMergeRecords]. *)
Definition merges r (records : gmap Z DoViewChangeMessage) (merged : IRRecord) : Prop :=
  let '(R, g) := group_entries (latest_records (latest_normal_view r) (record r) records) in
  let '(d, u, maj) := split_entries (config r) g in
  ∃ s1 s2 results m, Sync R (app r) = Ok (tt, s1) ∧ Merge d u maj s1 = Ok (results, s2) ∧
    merge_results (view r) g ∅ (in_order results) = Ok m ∧ record_ok m ∧ merged = m ∪ R ∧ record_ok merged.

Lemma IrMergeRecords_run r records :
  record_ok (record r) →
  wlp (IrMergeRecords records) (λ merged r', same_views r r' ∧ merges r records merged) r.
Proof.
  intros Hr. unfold IrMergeRecords, merges. apply post_get. apply post_bind.
  eapply (post_mono _ _ (λ _ r', same_views r r' ∧ app r' = app r)); [by destruct (_ =? _)|].
  intros [] r1 [Hs Ha].
  destruct (group_entries_ok (latest_records (latest_normal_view r) (record r) records)) as [HR Hg];
    [by apply latest_records_ok|].
  destruct (group_entries _) as [R g]. simpl in HR, Hg. destruct (split_entries (config r) g) as [[d u] maj].
  apply post_bind. unfold post at 1, on_app. rewrite Ha. unfold Entries. destruct (Sync R (app r)) as [[[] s1]| |] eqn:Hsync; try done.
  apply post_bind. unfold post at 1. simpl. destruct (Merge d u maj s1) as [[results s2]| |] eqn:Hmerge; try done.
  apply wlp_bind_lift. intros m Hm. apply post_ret. split; [by destruct Hs; split|].
  exists s1, s2, results, m. pose proof (merge_results_ok _ _ _ _ Hg Hm) as Hmok.
  split_and!; try done; [by apply add_entries_union|]. rewrite add_entries_union by done.
  intros o e [He|[_ He]]%lookup_union_Some_raw; [by apply Hmok|by apply HR].
Qed.

(** ** Every event keeps the invariant and the view does not go back *)

Definition advanced r r' : Prop := ir_ok r' ∧ persisted r' ∧ view r ≤ view r' ∧ config r' = config r ∧ myIdx r' = myIdx r.

Lemma collect_view_change_ok msg r r0 :
  ir_ok r → persisted r → status r ≠ STATUS_NORMAL → dvc_new_view msg = view r →
  view r0 ≤ view r → config r = config r0 → myIdx r = myIdx r0 →
  wlp (collect_view_change msg) (λ _ r', advanced r0 r') r.
Proof.
  intros Hok Hp Hst Hv Hle Hcf Hix. unfold collect_view_change. apply post_get. apply wlp_bind_lift. intros leader _.
  destruct (negb _); [by split_and!|].
  destruct (AddAndCheckForQuorum _ _ _ _) as [quorum q] eqn:Hq. run.
  set (r1 := r <| do_view_change_quorum := q |>).
  destruct Hok as [Hr Hvw Hno Hbe Hre Hl Hcur].
  unfold AddAndCheckForQuorum, CheckForQuorum_at in Hq. injection Hq as Hquorum Hq. simpl in Hquorum, Hq.
  rewrite !lookup_insert_eq in Hquorum, Hq. simpl in Hquorum, Hq. rewrite insert_insert_eq in Hq.
  assert (∀ v, collected r1 v = if decide (v = view r) then <[to_int (dvc_replicaIdx msg) := msg]> (collected r v)
                                else collected r v) as Hcol.
  { intros v. unfold collected, r1. simpl. rewrite <- Hq. simpl. rewrite <- Hv, lookup_insert.
    case_decide as E; case_decide as E'; subst; done. }
  assert (numRequired q = f (config r)) as Hnum by (rewrite <- Hq; done).
  assert (∀ v, view r < v → collected r1 v = ∅) as Hl1.
  { intros v Hlt. rewrite Hcol, decide_False by lia. by apply Hl. }
  destruct quorum as [records|].
  - apply post_bind. eapply post_mono; [by apply (IrMergeRecords_run r1)|].
    intros merged r2 [[Hc2 Hi2 Hs2 Hv2 Hn2 Hf2 Hq2] Hm]. unfold merges in Hm. destruct (group_entries _) as [R g].
    destruct (split_entries _ g) as [[d u] maj]. destruct Hm as (s1 & s2 & results & m & _ & _ & _ & _ & _ & Hmok).
    do 2 run. unfold transport_send, post, modify. simpl. simpl in Hc2, Hi2.
    split_and!; simpl; [|done|lia|congruence|congruence].
    split; simpl; try done; unfold collected in *; simpl; rewrite ?Hq2, ?Hc2; [done|]. rewrite Hv. by apply Hl1.
  - apply post_ret. unfold r1. split_and!; simpl; [|done|lia|done|done].
    split; simpl; try done. intros _. right. fold r1. rewrite Hcol, decide_True by done. rewrite <- Hv.
    unfold collected. destruct (_ >=? _) eqn:Hsz in Hquorum; [done|]. rewrite Hre in Hsz. lia.
Qed.

Lemma HandleDoViewChange_ok msg r :
  ir_ok r → persisted r → wlp (HandleDoViewChange msg) (λ _ r', advanced r r') r.
Proof.
  intros Hok Hp. unfold HandleDoViewChange. apply post_get.
  destruct (dvc_new_view msg <? view r) eqn:H1; [by split_and!|]. destruct (dvc_new_view msg =? view r) eqn:H2.
  { case_decide; [by split_and!|]. apply collect_view_change_ok; done || lia. }
  do 3 run. apply wlp_quiet; [apply quiet_broadcast|]. intros [] r2 Hs He.
  set (r1 := if decide _ then _ else _) in Hs, He.
  assert (config r1 = config r ∧ myIdx r1 = myIdx r ∧ view r1 = dvc_new_view msg ∧
    latest_normal_view r1 = latest_normal_view r ∧ record r1 = record r ∧ status r1 ≠ STATUS_NORMAL ∧
    do_view_change_quorum r1 = do_view_change_quorum r ∧ persisted r1) as (Hc1 & Hi1 & Hv1 & Hn1 & Hr1 & Hs1 & Hq1 & Hp1).
  { unfold r1. by case_decide; split_and!. }
  destruct Hok as [Hr Hvw Hno Hbe Hre Hl Hcur].
  assert (ir_ok r1) as Hok1.
  { split; rewrite ?Hr1, ?Hv1, ?Hn1, ?Hc1; unfold collected in *; rewrite ?Hq1; try done; [lia|lia| |].
    - intros v Hv. apply Hl. lia.
    - intros _. left. apply Hl. lia. }
  destruct (same_views_ok r1 r2) as [Hok2 Hp2]; [done..|by rewrite He, Hr1|].
  destruct Hs as [Hc2 Hi2 Hs2 Hv2 Hn2 Hf2 Hq2].
  apply collect_view_change_ok; [done|done|congruence|congruence|rewrite Hv2, Hv1; lia|congruence|congruence].
Qed.

Lemma HandleStartView_ok msg r :
  ir_ok r → persisted r → wlp (HandleStartView msg) (λ _ r', advanced r r') r.
Proof.
  intros Hok Hp. unfold HandleStartView. apply post_get.
  destruct (sv_new_view msg <? view r) eqn:H1; [by split_and!|]. destruct (_ && _); [by split_and!|].
  destruct Hok as [Hr Hvw Hno Hbe Hre Hl Hcur]. run.
  apply wlp_quiet; [apply quiet_app|]. intros [] r1 [Hc1 Hi1 Hs1 Hv1 Hn1 Hf1 Hq1] He1. run.
  unfold PersistViewInfo, post, modify. simpl. simpl in *. split_and!; simpl; [|done|lia|done|done].
  split; simpl; try done; unfold collected in *; simpl; rewrite ?Hq1, ?He1, ?Hc1; [apply Record_of_proto_ok|done|].
  intros v Hv. apply Hl. lia.
Qed.

Lemma HandleViewChangeTimeout_ok r :
  ir_ok r → persisted r → 0 ≤ view r < 2 ^ 64 - 1 → wlp HandleViewChangeTimeout (λ _ r', advanced r r') r.
Proof.
  intros Hok Hp Hb. unfold HandleViewChangeTimeout. do 3 run.
  eapply post_mono; [apply quiet_broadcast|]. intros [] r2 [Hs He].
  set (r1 := update_field _ _ _) in Hs, He. destruct Hok as [Hr Hvw Hno Hbe Hre Hl Hcur].
  assert (config r1 = config r ∧ myIdx r1 = myIdx r ∧ view r1 = view r + 1 ∧
    latest_normal_view r1 = latest_normal_view r ∧ record r1 = record r ∧ status r1 ≠ STATUS_NORMAL ∧
    do_view_change_quorum r1 = do_view_change_quorum r ∧ persisted r1) as (Hc1 & Hi1 & Hv1 & Hn1 & Hr1 & Hs1 & Hq1 & Hp1).
  { assert (u64_incr (view r) = view r + 1) as Hu by (apply u64_incr_small; lia).
    unfold r1. case_decide; split_and!; simpl; done. }
  assert (ir_ok r1) as Hok1.
  { split; rewrite ?Hr1, ?Hv1, ?Hn1, ?Hc1; unfold collected in *; rewrite ?Hq1; try done; [lia|lia| |].
    - intros v Hv. apply Hl. lia.
    - intros _. left. apply Hl. lia. }
  destruct (same_views_ok r1 r2) as [Hok2 Hp2]; [done..|by rewrite He, Hr1|].
  destruct Hs as [Hc2 Hi2 Hs2 Hv2 Hn2 Hf2 Hq2]. split_and!; [done|done|lia|congruence|congruence].
Qed.

Lemma ir_handle_ok e r :
  ir_ok r → persisted r → 0 ≤ view r < 2 ^ 64 - 1 → wlp (ir_handle e) (λ _ r', advanced r r') r.
Proof.
  intros Hok Hp Hb. destruct e as [remote m|]; [|by apply HandleViewChangeTimeout_ok].
  assert (match m with DoViewChange _ | StartView _ => False | _ => True end ∨
    (∃ x, m = DoViewChange x) ∨ ∃ x, m = StartView x) as [Hm|[[x ->]|[x ->]]] by (destruct m; eauto).
  - eapply post_mono; [by apply client_operation_ok|]. intros [] r' [Hs Hr'].
    destruct (same_views_ok r r') as [Hok' Hp']; [done..|]. destruct Hs. split_and!; [done|done|lia|congruence|congruence].
  - by apply HandleDoViewChange_ok.
  - by apply HandleStartView_ok.
Qed.

(** A run in which the view stays below the largest one. *)
Definition ir_run (es : list ir_event) : M (IRReplica S) unit := for_each es ir_handle.

Fixpoint no_wrap (es : list ir_event) r : Prop :=
  match es with
  | [] => True
  | e :: es' => view r < 2 ^ 64 - 1 ∧ match ir_handle e r with Ok (_, r') => no_wrap es' r' | _ => True end
  end.

Lemma ir_run_ok es r :
  ir_ok r → persisted r → 0 ≤ view r → no_wrap es r → wlp (ir_run es) (λ _ r', advanced r r') r.
Proof.
  revert r. induction es as [|e es IH]; intros r Hok Hp Hv Hw; [by split_and!|].
  destruct Hw as [Hb Hw]. unfold ir_run. simpl. apply post_bind.
  pose proof (ir_handle_ok e r Hok Hp ltac:(lia)) as Hstep. unfold post in Hstep |- *.
  destruct (ir_handle e r) as [[[] r1]| |]; [|done..]. destruct Hstep as (Hok1 & Hp1 & Hv1 & Hc1 & Hi1).
  specialize (IH r1 Hok1 Hp1 ltac:(lia) Hw). unfold post in IH. unfold ir_run in IH.
  destruct (for_each es ir_handle r1) as [[[] r2]| |]; [|done..].
  destruct IH as (Hok2 & Hp2 & Hv2 & Hc2 & Hi2). split_and!; [done|done|lia|congruence|congruence].
Qed.

Lemma no_wrap_app es es' r :
  no_wrap (es ++ es') r → no_wrap es r ∧ ∀ r', ir_run es r = Ok (tt, r') → no_wrap es' r'.
Proof.
  revert r. induction es as [|e es IH]; intros r Hw; [by split; [|intros r' [= <-]]|].
  destruct Hw as [Hb Hw]. unfold ir_run. simpl. unfold mbind, M_bind.
  destruct (ir_handle e r) as [[[] r1]| |]; [|by split..]. destruct (IH r1 Hw) as [Hes Hes']. by split.
Qed.

Lemma ir_start_ok c i s : ∃ r, IRReplica_new (IRReplica_start c i s None) = Ok (tt, r) ∧ ir_ok r ∧ persisted r ∧ view r = 0.
Proof.
  eexists. split; [reflexivity|]. split_and!; [|done|done].
  by split.
Qed.

(** A start with the file that a replica has written. *)
Lemma restart_panics c i (s : S) r : persisted r → IRReplica_new (IRReplica_start c i s (persistent_view_info r)) = Panic.
Proof. intros Hp. by rewrite Hp. Qed.

(** C16: Views only advance, and a replica cannot be restarted.  Start a replica for the first time
    and let any events happen, short of the view wrapping around.  The record is then
    well-formed; the view is not negative; in normal operation it is the latest normal view, and
    otherwise a later one; and no event from there makes the view smaller.  But the file on disk
    is empty: whoever starts the replica again from it, with any configuration and application,
    gets a panic from the constructor. *)
Theorem ir_views_monotone_restart_panics (c : Configuration) (i : Z) (s : S) (es es' : list ir_event) (r0 r r' : IRReplica S) :
  IRReplica_new (IRReplica_start c i s None) = Ok (tt, r0) → no_wrap (es ++ es') r0 →
  ir_run es r0 = Ok (tt, r) → ir_run es' r = Ok (tt, r') →
  record_ok (record r) ∧ 0 ≤ view r ≤ view r' ∧
  (status r = STATUS_NORMAL → latest_normal_view r = view r) ∧
  (status r ≠ STATUS_NORMAL → latest_normal_view r < view r) ∧
  persistent_view_info r = Some "" ∧
  ∀ c' i' (s' : S), IRReplica_new (IRReplica_start c' i' s' (persistent_view_info r)) = Panic.
Proof.
  intros Hnew [Hw Hw']%no_wrap_app Hrun Hrun'. destruct (ir_start_ok c i s) as (r1 & Hnew' & Hok & Hp & Hv).
  rewrite Hnew in Hnew'. injection Hnew' as <-.
  pose proof (ir_run_ok es r0 Hok Hp ltac:(lia) Hw) as Hall.
  pose proof Hrun as Hrun0. apply wlp_run with (1 := Hall) in Hrun as (Hok1 & Hp1 & Hle & _).
  pose proof (ir_run_ok es' r Hok1 Hp1 ltac:(lia) (Hw' _ Hrun0)) as Hall'.
  apply wlp_run with (1 := Hall') in Hrun' as (_ & _ & Hle' & _).
  split_and!; [apply Hok1|lia|lia|apply Hok1|apply Hok1|exact Hp1|]. intros. by apply restart_panics.
Qed.
End views.

(** ** Execution of operations *)

Section execution.
Context {S : Type} `{!IRAppReplica S} `{!Network} `{!Codec PersistedViewInfo}.
Implicit Types r : IRReplica S.


















End execution.

(** ** Concrete instances *)

(** An application that logs what it executes, and takes the first result it sees where there is
    no majority. *)
#[global] Instance log_app : IRAppReplica (list string) := {|
  ExecInconsistentUpcall op := modify (λ s, s ++ [op]);
  ExecConsensusUpcall op := _ ← modify (λ s, s ++ [op]); mret "ok";
  UnloggedUpcall op := mret "";
  Sync _ := mret tt;
  Merge d u maj := mret (maj ∪ omap (λ es, e_result <$> head es) u)
|}.

Definition view_info_codec : Codec PersistedViewInfo := {|
  SerializeToString i := digits (encode (pv_view i, pv_latest_normal_view i));
  ParseFromString s := default (MkPersistedViewInfo 0 0) ((λ p, MkPersistedViewInfo p.1 p.2) <$> decode (undigits s))
|}.

#[local] Existing Instances reliable view_info_codec.

Definition demo_config : Configuration := MkConfiguration 3 1.

Definition result_replica (r : IRReplica (list string)) (m : M (IRReplica (list string)) unit) : IRReplica (list string) :=
  match m r with Ok (_, r') => r' | _ => r end.

Definition demo_start (i : Z) : IRReplica (list string) :=
  result_replica (IRReplica_start demo_config i [] None) IRReplica_new.

(** Proposals and finalizations, some twice, and a timeout. *)
Definition demo_ops : list ir_event :=
  [IrMessage 7 (ProposeInconsistent (MkRequest "a" 7 1)); IrMessage 7 (ProposeConsensus (MkRequest "b" 7 2));
   IrMessage 7 (FinalizeInconsistent (7, 1)); IrMessage 7 (ProposeConsensus (MkRequest "b" 7 2));
   IrMessage 7 (FinalizeInconsistent (7, 1)); IrMessage 7 (FinalizeConsensus (7, 2) "ok")].

Definition demo_ran (i : Z) : IRReplica (list string) := result_replica (demo_start i) (ir_run (demo_ops ++ [IrTimeout])).


Lemma ir_views_monotone_restart_panics_witness :
  view (demo_ran 1) = 1 ∧ status (demo_ran 1) = STATUS_VIEW_CHANGE ∧
  record_ok (record (demo_ran 1)) ∧ 0 ≤ view (demo_ran 1) ≤ view (result_replica (demo_ran 1) (ir_run [IrTimeout])) ∧
  (status (demo_ran 1) = STATUS_NORMAL → latest_normal_view (demo_ran 1) = view (demo_ran 1)) ∧
  (status (demo_ran 1) ≠ STATUS_NORMAL → latest_normal_view (demo_ran 1) < view (demo_ran 1)) ∧
  persistent_view_info (demo_ran 1) = Some "" ∧
  ∀ c' i' (s' : list string), IRReplica_new (IRReplica_start c' i' s' (persistent_view_info (demo_ran 1))) = Panic.
Proof.
  split; [vm_compute; reflexivity|]. split; [vm_compute; reflexivity|].
  apply (ir_views_monotone_restart_panics demo_config 1 [] (demo_ops ++ [IrTimeout]) [IrTimeout] (demo_start 1)
    (demo_ran 1) (result_replica (demo_ran 1) (ir_run [IrTimeout]))).
  - vm_compute. reflexivity.
  - vm_compute. repeat split.
  - vm_compute. reflexivity.
  - vm_compute. reflexivity.
Defined.
