(* ===== verification/IRMerge.v ===== *)
(** Merging records in a view change of inconsistent replication: what
    [IRReplica::IrMergeRecords] makes of the entries of a consensus operation.

    A client takes the result of a consensus operation on the fast path when
    [FastQuorumSize] replicas answer with it.  Among the [f + 1] participants of a view change
    their entries are then a majority that [IrMergeRecords] finds, and finalized entries are
    kept.  The file that follows puts the replicas together and shows that such results are in
    every later view. *)

From S2P Require Import StrongServer.
From S2P Require Import QuorumSet LRReplica.
From S2P Require Import Prelude IRRecord IRReplica.

(** ** Counting results *)

Section counting.
Implicit Types (es : list RecordEntry) (x : string).

Definition with_result x es : list RecordEntry := filter (λ e, e_result e = x) es.

Lemma count_results_lookup es x :
  default 0 (count_results es !! x) = Z.of_nat (length (with_result x es)) ∧
  (is_Some (count_results es !! x) ↔ with_result x es ≠ []).
Proof.
  unfold count_results, with_result. induction es as [|e es [IH IHs]] using rev_ind.
  { simpl. rewrite lookup_empty. split; [done|]. split; [by intros []|done]. }
  rewrite foldl_app, filter_app. simpl. rewrite lookup_insert, filter_cons, length_app. case_decide as He.
  - subst. simpl. rewrite IH. split; [lia|]. split; [|by eexists].
    intros _ Hnil. apply app_nil in Hnil as [_ ?]. done.
  - simpl. rewrite IH, app_nil_r. split; [lia|done].
Qed.

Lemma two_results x y es : x ≠ y → (length (with_result x es) + length (with_result y es) ≤ length es)%nat.
Proof.
  intros Hxy. unfold with_result. induction es as [|e es IH]; simpl; [lia|].
  rewrite !filter_cons. repeat case_decide; simpl; subst; done || lia.
Qed.

(** A result that occurs often enough is the one found, when there are too few entries for
    another one. *)
Lemma majority_result_unique c x es :
  1 ≤ majority c ≤ Z.of_nat (length (with_result x es)) → Z.of_nat (length es) < 2 * majority c →
  majority_result c es = Some x.
Proof.
  intros [Hpos Hx] Hlen. unfold majority_result.
  set (l := merge_sort _ _). assert (l ≡ₚ map_to_list (count_results es)) as Hl by apply merge_sort_Permutation.
  assert (∀ y k, (y, k) ∈ l → majority c ≤ k → y = x) as Honly.
  { intros y k Hin Hk. rewrite Hl in Hin. apply elem_of_map_to_list in Hin.
    destruct (count_results_lookup es y) as [Hy _]. rewrite Hin in Hy. simpl in Hy. apply dec_stable. intros Hne.
    pose proof (two_results y x es Hne). lia. }
  assert ((x, Z.of_nat (length (with_result x es))) ∈ filter (λ p, majority c ≤ p.2) l) as Hin.
  { apply list_elem_of_filter. split; [done|]. rewrite Hl. apply elem_of_map_to_list.
    destruct (count_results_lookup es x) as [Hc Hs]. destruct (count_results es !! x) as [k|] eqn:Hk; simpl in Hc; [by subst|].
    assert (is_Some (None : option Z)) as [? ?]; [|done]. apply Hs. intros Hnil. rewrite Hnil in Hx. simpl in Hx. lia. }
  destruct (filter _ l) as [|[y k] l'] eqn:Hf; [set_solver|]. simpl. f_equal.
  assert ((y, k) ∈ filter (λ p, majority c ≤ p.2) l) as Hy by (rewrite Hf; set_solver).
  apply list_elem_of_filter in Hy as [Hk Hy]. by eapply Honly.
Qed.
End counting.

(** ** Grouping *)

Section grouping.
Implicit Types (l : list (opid_t * RecordEntry)) (o : opid_t) (e : RecordEntry).

Definition entries_of o l : list RecordEntry := omap (λ p, if decide (p.1 = o) then Some p.2 else None) l.

Definition finalized e : Prop := e_state e = RECORD_STATE_FINALIZED.

#[global] Instance finalized_dec e : Decision (finalized e).
Proof. unfold finalized. apply _. Defined.

(** What the grouping holds for an operation all entries of which are consensus entries: the
    first finalized entry; or else all its entries, none of them finalized. *)
Definition grouped o l (acc : IRRecord * gmap opid_t (list RecordEntry)) : Prop :=
  acc.1 !! o = head (filter finalized (entries_of o l)) ∧
  acc.2 !! o = match filter finalized (entries_of o l), entries_of o l with
               | [], (_ :: _) as es => Some es
               | _, _ => None
               end.

Lemma entries_of_app o l1 l2 : entries_of o (l1 ++ l2) = entries_of o l1 ++ entries_of o l2.
Proof. apply omap_app. Qed.

Lemma entries_of_snoc o l o' e :
  entries_of o (l ++ [(o', e)]) = entries_of o l ++ if decide (o' = o) then [e] else [].
Proof. rewrite entries_of_app. unfold entries_of at 2. simpl. by case_decide. Qed.

Lemma add_new_lookup o o' e (R : IRRecord) :
  e_opid e = o' → add_new e o' R !! o = if decide (o' = o) then Some (default e (R !! o)) else R !! o.
Proof.
  intros Ho. unfold add_new, Find, Add_entry. rewrite Ho. destruct (R !! o') eqn:HR; case_decide; subst.
  - by rewrite HR.
  - done.
  - by rewrite lookup_insert_eq, HR.
  - by rewrite lookup_insert_ne.
Qed.

Lemma group_entry_other o o' e acc l :
  o' ≠ o → e_opid e = o' → grouped o l acc → grouped o (l ++ [(o', e)]) (group_entry acc (o', e)).
Proof.
  intros Hne Ho Hg. unfold grouped in *. rewrite entries_of_snoc, decide_False, app_nil_r by done.
  destruct acc as [R g]. simpl in *. destruct Hg as [HR Hgr].
  case_decide; [|case_decide]; simpl.
  - rewrite add_new_lookup, decide_False by done. done.
  - rewrite add_new_lookup, decide_False by done. by rewrite lookup_delete_ne.
  - destruct (Entries R !! e_opid e); simpl; [done|]. by rewrite lookup_insert_ne by congruence.
Qed.

Lemma group_entry_same o e acc l :
  e_opid e = o → e_type e = RECORD_TYPE_CONSENSUS → grouped o l acc →
  grouped o (l ++ [(o, e)]) (group_entry acc (o, e)).
Proof.
  intros Ho Hty Hg. unfold grouped in *. rewrite entries_of_snoc, decide_True by done.
  rewrite filter_app, filter_cons. destruct acc as [R g]. simpl in *. destruct Hg as [HR Hgr].
  rewrite (decide_False (P := e_type e = RECORD_TYPE_INCONSISTENT)) by (by rewrite Hty).
  destruct (filter finalized (entries_of o l)) as [|e1 fs] eqn:Hfs; simpl in *.
  - case_decide as Hfin; simpl.
    + rewrite decide_True by done. simpl. rewrite add_new_lookup, decide_True, HR, lookup_delete_eq by done. done.
    + rewrite decide_False by done. simpl. unfold Entries. rewrite Ho, HR. simpl. rewrite lookup_insert_eq, Hgr.
      split; [done|]. destruct (entries_of o l); done.
  - case_decide as Hfin; simpl.
    + rewrite add_new_lookup, decide_True, HR, lookup_delete_eq by done. done.
    + unfold Entries. rewrite Ho, HR. done.
Qed.

Lemma group_list o l :
  (∀ o' e, (o', e) ∈ l → e_opid e = o' ∧ (o' = o → e_type e = RECORD_TYPE_CONSENSUS)) →
  grouped o l (foldl group_entry (∅, ∅) l).
Proof.
  induction l as [|[o' e] l IH] using rev_ind; intros Hl.
  { unfold grouped. simpl. by rewrite !lookup_empty. }
  rewrite foldl_app. simpl. destruct (Hl o' e) as [Ho Hty]; [set_solver|].
  specialize (IH ltac:(set_solver)). destruct (decide (o' = o)) as [->|Hne].
  - apply group_entry_same; auto.
  - by apply group_entry_other.
Qed.

Lemma group_entries_list (ts : list IRRecord) : group_entries ts = foldl group_entry (∅, ∅) (ts ≫= in_order).
Proof.
  unfold group_entries. generalize (∅ : IRRecord, ∅ : gmap opid_t (list RecordEntry)).
  induction ts as [|t ts IH]; intros acc; simpl; [done|]. by rewrite foldl_app, IH.
Qed.

(** Each record has at most one entry for an operation. *)
Lemma entries_of_record o (t : IRRecord) : entries_of o (in_order t) = option_list (t !! o).
Proof.
  assert (∀ l, NoDup l.*1 → entries_of o l = option_list ((list_to_map l : IRRecord) !! o)) as Hgen.
  { induction l as [|[o' e] l IH]; intros Hnd; simpl; [by rewrite lookup_empty|].
    apply NoDup_cons in Hnd as [Hn Hnd]. case_decide; subst; simpl.
    - rewrite lookup_insert_eq. simpl. f_equal. fold (entries_of o l). rewrite (IH Hnd).
      by rewrite not_elem_of_list_to_map_1.
    - fold (entries_of o l). rewrite (IH Hnd). by rewrite lookup_insert_ne. }
  rewrite Hgen by apply in_order_NoDup. do 2 f_equal.
  rewrite (list_to_map_proper _ (map_to_list t)); [apply list_to_map_to_list|apply in_order_NoDup|apply in_order_perm].
Qed.

Lemma entries_of_records o (ts : list IRRecord) : entries_of o (ts ≫= in_order) = omap (λ t : IRRecord, t !! o) ts.
Proof.
  induction ts as [|t ts IH]; [done|]. change ((t :: ts) ≫= in_order) with (in_order t ++ (ts ≫= in_order)).
  rewrite entries_of_app, IH, entries_of_record. simpl. by destruct (t !! o).
Qed.
End grouping.

(** ** Replicas in common *)

Section common.
Context {A : Type}.
Implicit Types (X : gset Z) (L : list (Z * A)) (h : Z * A → option RecordEntry).

Lemma members_counted X L h x :
  (∀ p, p ∈ L → p.1 ∈ X → ∃ e, h p = Some e ∧ e_result e = x) →
  (length (filter (λ p, p.1 ∈ X) L) ≤ length (with_result x (omap h L)))%nat.
Proof.
  induction L as [|p L IH]; intros HX; [done|]. rewrite filter_cons.
  change (omap h (p :: L)) with (match h p with Some y => y :: omap h L | None => omap h L end).
  specialize (IH ltac:(set_solver)). unfold with_result in *. case_decide as Hp.
  - destruct (HX p) as (e & -> & He); [set_solver|done|]. rewrite filter_cons, decide_True by done. simpl. lia.
  - destruct (h p); [|done]. rewrite filter_cons. case_decide; simpl; lia.
Qed.

Lemma size_members X L : X ⊆ list_to_set L.*1 → (size X ≤ length (filter (λ p, p.1 ∈ X) L))%nat.
Proof.
  intros HX. unfold size, set_size. simpl. rewrite <- (length_fmap fst (filter _ L)).
  apply submseteq_length, NoDup_submseteq; [apply NoDup_elements|].
  intros j Hj%elem_of_elements. pose proof (HX j Hj) as Hin. rewrite elem_of_list_to_set in Hin.
  apply list_elem_of_fmap in Hin as (p & -> & Hp). apply list_elem_of_fmap. exists p. split; [done|].
  by apply list_elem_of_filter.
Qed.

Lemma length_omap_le {B C} (g : B → option C) l : (length (omap g l) ≤ length l)%nat.
Proof.
  induction l as [|b l IH]; [done|].
  change (omap g (b :: l)) with (match g b with Some y => y :: omap g l | None => omap g l end).
  destruct (g b); simpl; lia.
Qed.

(** Two sets of replicas of [n] have at least the surplus in common. *)
Lemma replicas_in_common (F Q : gset Z) (n : Z) :
  0 ≤ n → (∀ j, j ∈ F ∪ Q → 0 ≤ j < n) →
  Z.of_nat (size F) + Z.of_nat (size Q) - n ≤ Z.of_nat (size (F ∩ Q)).
Proof.
  intros Hn Hrange. assert (size (F ∪ Q) ≤ Z.to_nat n)%nat as Hle.
  { assert (F ∪ Q ⊆ (list_to_set (seqZ 0 n) : gset Z)) as Hsub.
    { intros j Hj%Hrange. apply elem_of_list_to_set, elem_of_seqZ. lia. }
    apply subseteq_size in Hsub. by rewrite size_list_to_set, length_seqZ in Hsub by apply NoDup_seqZ. }
  rewrite size_union_alt in Hle. pose proof (size_difference_alt Q F) as Hd.
  assert (F ∩ Q = Q ∩ F) as -> by set_solver. pose proof (subseteq_size (Q ∩ F) Q ltac:(set_solver)). lia.
Qed.
End common.

(** ** The view change *)

Section change.
Context {S : Type} `{!IRAppReplica S} `{!Network} `{!Codec PersistedViewInfo}.
Implicit Types (r : IRReplica S) (records : gmap Z DoViewChangeMessage).

(** The replicas that take part, with their latest normal views and their records. *)
Definition participants r records : gmap Z (Z * IRRecord) :=
  <[myIdx r := (latest_normal_view r, record r)]>
    ((λ m, (dvc_latest_normal_view m, Record_of_proto (default [] (dvc_record m)))) <$> records).

Definition latest_view r records : Z := max_latest_normal_view (latest_normal_view r) records.

Definition take_latest (v : Z) (p : Z * (Z * IRRecord)) : option IRRecord :=
  if p.2.1 =? v then Some p.2.2 else None.

Lemma foldl_max {A} (g : A → Z) l a :
  let m := foldl (λ m p, Z.max m (g p)) a l in
  a ≤ m ∧ (∀ p, p ∈ l → g p ≤ m) ∧ (m = a ∨ ∃ p, p ∈ l ∧ m = g p).
Proof.
  revert a. induction l as [|b l IH]; intros a; simpl; [split_and!; [lia|set_solver|by left]|].
  destruct (IH (Z.max a (g b))) as (Hle & Hall & Hor). split_and!; [lia| |].
  - intros p [->|Hp]%elem_of_cons; [lia|by apply Hall].
  - destruct Hor as [->|(p & Hp & ->)]; [|right; exists p; set_solver].
    destruct (Z.max_spec a (g b)) as [[_ ->]|[_ ->]]; [right; exists b; set_solver|by left].
Qed.

(** The latest normal view is the largest of the participants'. *)
Lemma latest_view_spec r records :
  records !! myIdx r = None →
  (∀ j w t, participants r records !! j = Some (w, t) → w ≤ latest_view r records) ∧
  ∃ j t, participants r records !! j = Some (latest_view r records, t).
Proof.
  intros Hi. unfold latest_view, max_latest_normal_view.
  destruct (foldl_max (λ p : Z * DoViewChangeMessage, dvc_latest_normal_view p.2) (by_replica records) (latest_normal_view r))
    as (Hle & Hall & Hor). unfold participants.
  assert (∀ j m, (j, m) ∈ by_replica records ↔ records !! j = Some m) as Hby.
  { intros j m. unfold by_replica. rewrite merge_sort_Permutation. apply elem_of_map_to_list. }
  split.
  - intros j w t [[<- [= <- <-]]|[_ Hm]]%lookup_insert_Some; [done|].
    rewrite lookup_fmap in Hm. apply fmap_Some in Hm as (m & Hm & [= -> _]). by apply (Hall (j, m)), Hby.
  - destruct Hor as [->|([j m] & Hin & ->)].
    + exists (myIdx r). eexists. by rewrite lookup_insert_eq.
    + apply Hby in Hin. exists j. eexists. rewrite lookup_insert_ne, lookup_fmap, Hin; [done|]. intros <-. by rewrite Hi in Hin.
Qed.
End change.

(** What the application promises: it keeps the results of the operations it is given with a
    majority result. *)
Class MergeKeepsMajority (S : Type) `{!IRAppReplica S} :=
  merge_majority : ∀ d u maj (s : S) results s', Merge d u maj s = Ok (results, s') →
    ∀ o x, maj !! o = Some x → results !! o = Some x.

Section survival.
Context {S : Type} `{!IRAppReplica S} `{!MergeKeepsMajority S} `{!Network} `{!Codec PersistedViewInfo}.
Implicit Types (r : IRReplica S) (records : gmap Z DoViewChangeMessage) (o : opid_t) (x : string).

Lemma latest_records_perm r records :
  records !! myIdx r = None →
  latest_records (latest_normal_view r) (record r) records ≡ₚ
  omap (take_latest (latest_view r records)) (map_to_list (participants r records)).
Proof.
  intros Hi. unfold latest_records, participants. fold (latest_view r records).
  assert (by_replica records ≡ₚ map_to_list records) as -> by apply merge_sort_Permutation.
  rewrite map_to_list_insert by (by rewrite lookup_fmap, Hi). rewrite map_to_list_fmap. simpl.
  rewrite Permutation_app_comm. unfold take_latest at 1. simpl.
  assert (∀ l : list (Z * DoViewChangeMessage),
    omap (λ p, if dvc_latest_normal_view p.2 =? latest_view r records
               then Some (Record_of_proto (default [] (dvc_record p.2))) else None) l =
    omap (take_latest (latest_view r records))
      (prod_map id (λ m, (dvc_latest_normal_view m, Record_of_proto (default [] (dvc_record m)))) <$> l)) as Hl.
  { induction l as [|[j m] l IH]; [done|]. simpl. unfold take_latest at 1. simpl.
    destruct (_ =? _); [f_equal|]; exact IH. }
  rewrite Hl. by destruct (_ =? _).
Qed.

(** In the records of the latest normal view, all entries for [o] are consensus entries. *)
Definition consensus_only r records o : Prop :=
  ∀ j t e, participants r records !! j = Some (latest_view r records, t) → t !! o = Some e →
    e_type e = RECORD_TYPE_CONSENSUS.

(** The finalized ones have result [x]. *)
Definition agrees r records o x : Prop :=
  ∀ j t e, participants r records !! j = Some (latest_view r records, t) → t !! o = Some e →
    finalized e → e_result e = x.

(** The replicas of [F] answered [x]: those that take part are of the latest view and have it
    in their record. *)
Definition answered r records (F : gset Z) o x : Prop :=
  ∀ j lnv t, j ∈ F → participants r records !! j = Some (lnv, t) →
    lnv = latest_view r records ∧ ∃ e, t !! o = Some e ∧ e_result e = x.

Definition entry_at o (v : Z) (p : Z * (Z * IRRecord)) : option RecordEntry :=
  take_latest v p ≫= λ t : IRRecord, t !! o.

Lemma omap_omap {B C D} (g : C → option D) (h : B → option C) (l : list B) :
  omap g (omap h l) = omap (λ b, h b ≫= g) l.
Proof. induction l as [|b l IH]; [done|]. simpl. destruct (h b) as [y|]; simpl; [|exact IH]. destruct (g y); [f_equal|]; exact IH. Qed.

Lemma merge_perm_entries r records o :
  records !! myIdx r = None →
  omap (λ t : IRRecord, t !! o) (latest_records (latest_normal_view r) (record r) records) ≡ₚ
  omap (entry_at o (latest_view r records)) (map_to_list (participants r records)).
Proof.
  intros Hi. rewrite (latest_records_perm r records Hi). by rewrite omap_omap.
Qed.

Lemma with_result_perm x es es' : es ≡ₚ es' → length (with_result x es) = length (with_result x es').
Proof. intros Hp. unfold with_result. by rewrite Hp. Qed.

(** Enough of the entries for [o] carry [x], and there are too few of them for another result. *)
Lemma entries_counted r records (F : gset Z) o x :
  let c := config r in
  0 ≤ f c → QuorumSet.n c = 2 * f c + 1 → Z.of_nat (size records) = f c → records !! myIdx r = None →
  (∀ j, j ∈ F ∪ dom (participants r records) → 0 ≤ j < QuorumSet.n c) →
  FastQuorumSize c ≤ Z.of_nat (size F) → answered r records F o x →
  let es := omap (λ t : IRRecord, t !! o) (latest_records (latest_normal_view r) (record r) records) in
  1 ≤ majority c ≤ Z.of_nat (length (with_result x es)) ∧ Z.of_nat (length es) < 2 * majority c.
Proof.
  intros c Hf Hn Hsz Hi Hrange Hfast Hans es.
  pose proof (merge_perm_entries r records o Hi) as Hperm. fold es in Hperm.
  set (P := participants r records) in *. set (L := map_to_list P) in *.
  assert (Z.of_nat (size P) = f c + 1) as HP.
  { unfold P, participants. rewrite map_size_insert_None by (by rewrite lookup_fmap, Hi). rewrite map_size_fmap. lia. }
  assert (length es ≤ length L)%nat as Hlen.
  { rewrite Hperm. apply length_omap_le. }
  assert (length L = size P) as HL by apply length_map_to_list.
  pose proof (replicas_in_common F (dom P) (QuorumSet.n c) ltac:(lia) Hrange) as Hcommon. rewrite size_dom in Hcommon.
  assert (size (F ∩ dom P) ≤ length (with_result x es))%nat as Hcount.
  { rewrite (with_result_perm _ _ _ Hperm). etrans; [apply (size_members (F ∩ dom P) L)|apply members_counted].
    - intros j [_ Hj]%elem_of_intersection. apply elem_of_list_to_set. apply elem_of_dom in Hj as [v Hv].
      apply list_elem_of_fmap. exists (j, v). split; [done|]. by apply elem_of_map_to_list.
    - intros [j [lnv t]] Hin [HF _]%elem_of_intersection. apply elem_of_map_to_list in Hin.
      destruct (Hans j lnv t HF Hin) as [-> (e & He & Hx)]. exists e. split; [|done].
      unfold entry_at, take_latest. simpl. by rewrite Z.eqb_refl. }
  unfold FastQuorumSize, majority in *. rewrite Z.quot_div_nonneg in Hfast by lia.
  Z.to_euclidean_division_equations. lia.
Qed.

Lemma latest_record r records t :
  records !! myIdx r = None → t ∈ latest_records (latest_normal_view r) (record r) records →
  ∃ j, participants r records !! j = Some (latest_view r records, t).
Proof.
  intros Hi Ht. rewrite (latest_records_perm r records Hi) in Ht. apply list_elem_of_omap in Ht as ([j [lnv t']] & Hj & Htl).
  apply elem_of_map_to_list in Hj. unfold take_latest in Htl. simpl in Htl. destruct (lnv =? _) eqn:Hl; [|done].
  injection Htl as ->. exists j. rewrite Hj. do 2 f_equal. lia.
Qed.

Lemma latest_entry r records o' e :
  record_ok (record r) → records !! myIdx r = None →
  (o', e) ∈ (latest_records (latest_normal_view r) (record r) records ≫= in_order) →
  e_opid e = o' ∧ ∃ j t, participants r records !! j = Some (latest_view r records, t) ∧ t !! o' = Some e.
Proof.
  intros Hr Hi Hin. apply list_elem_of_bind in Hin as (t & Hin & Ht). apply elem_of_in_order in Hin. split.
  - pose proof (latest_records_ok (latest_normal_view r) (record r) records Hr) as Hall.
    rewrite Forall_forall in Hall. by apply (Hall t Ht o' e).
  - destruct (latest_record r records t Hi Ht) as [j Hj]. by exists j, t.
Qed.

(** The entries for [o] in the records of the latest normal view. *)
Definition latest_entries r records o : list RecordEntry :=
  omap (λ t : IRRecord, t !! o) (latest_records (latest_normal_view r) (record r) records).

Lemma elem_of_latest_entries r records o e :
  records !! myIdx r = None →
  e ∈ latest_entries r records o →
  ∃ j t, participants r records !! j = Some (latest_view r records, t) ∧ t !! o = Some e.
Proof.
  intros Hi (t & Ht & He)%list_elem_of_omap. destruct (latest_record r records t Hi Ht) as [j Hj]. by exists j, t.
Qed.

Lemma latest_entries_intro r records o j t e :
  records !! myIdx r = None → participants r records !! j = Some (latest_view r records, t) → t !! o = Some e →
  e ∈ latest_entries r records o.
Proof.
  intros Hi Hj He. apply list_elem_of_omap. exists t. split; [|done]. rewrite (latest_records_perm r records Hi).
  apply list_elem_of_omap. exists (j, (latest_view r records, t)). split; [by apply elem_of_map_to_list|].
  unfold take_latest. simpl. by rewrite Z.eqb_refl.
Qed.

(** What the merged record holds for a consensus operation: the first finalized entry; or else
    what the application made of the entries. *)
Lemma merged_lookup r records merged o :
  records !! myIdx r = None → consensus_only r records o → record_ok (record r) → merges r records merged →
  let es := latest_entries r records o in
  match filter finalized es with
  | e1 :: _ => merged !! o = Some e1
  | [] => ∃ d u maj s1 s2 (results : gmap opid_t string), Merge d u maj s1 = Ok (results, s2) ∧
            maj !! o = (if es is [] then None else majority_result (config r) es) ∧
            merged !! o = (λ p, MkRecordEntry (view r) o RECORD_STATE_FINALIZED (e_type p.2) (e_request p.2) p.1) <$>
                            (x ← results !! o; e ← head es; Some (x, e))
  end.
Proof.
  intros Hi Hcon Hr Hm es. set (ts := latest_records (latest_normal_view r) (record r) records) in *.
  assert (grouped o (ts ≫= in_order) (group_entries ts)) as [HR Hg].
  { rewrite group_entries_list. apply group_list. intros o' e (Ho & j & t & Hj & Ht)%latest_entry; [|done..].
    split; [done|]. intros ->. by apply (Hcon j t). }
  rewrite entries_of_records in HR, Hg. change (omap _ ts) with es in HR, Hg.
  unfold merges in Hm. fold ts in Hm. destruct (group_entries ts) as [R g]. simpl in HR, Hg, Hm.
  destruct Hm as (s1 & s2 & results & m & _ & Hmerge & Hres & _ & -> & _).
  destruct (merge_results_spec _ _ _ _ _ Hres (in_order_NoDup results) o) as [Hmo Hin].
  rewrite (list_to_map_proper _ (map_to_list results)), list_to_map_to_list in Hmo by (apply in_order_NoDup || apply in_order_perm).
  destruct (filter finalized es) as [|e1 fs] eqn:Hfs; simpl in HR.
  - eexists _, _, _, s1, s2, results. split; [exact Hmerge|]. rewrite lookup_omap, Hg, lookup_union, Hmo, HR.
    rewrite lookup_empty. split; [by destruct es|]. destruct (results !! o) as [x|]; [|done].
    rewrite Hg. by destruct es as [|e es0].
  - assert (results !! o = None) as Hno.
    { apply eq_None_not_Some. intros [y Hy]. assert (o ∈ (in_order results).*1) as Ho.
      { apply list_elem_of_fmap. exists (o, y). split; [done|]. by apply elem_of_in_order. }
      apply Hin in Ho. rewrite Hg in Ho. by destruct Ho. }
    rewrite Hno, lookup_empty in Hmo. by rewrite lookup_union, Hmo, HR.
Qed.

(** The merged entry of a consensus operation is finalized. *)
Lemma merged_consensus r records merged o e :
  records !! myIdx r = None → consensus_only r records o → record_ok (record r) → merges r records merged →
  merged !! o = Some e → finalized e ∧ e_type e = RECORD_TYPE_CONSENSUS.
Proof.
  intros Hi Hcon Hr Hm He. pose proof (merged_lookup r records merged o Hi Hcon Hr Hm) as Hl. simpl in Hl.
  destruct (filter finalized _) as [|e1 fs] eqn:Hfs.
  - destruct Hl as (d & u & maj & s1 & s2 & results & _ & _ & Hl). rewrite Hl in He.
    apply fmap_Some in He as ([x e0] & Hxe & ->). split; [done|]. simpl.
    apply bind_Some in Hxe as (x' & _ & Hxe). apply bind_Some in Hxe as (e0' & Hhd & [= -> ->]).
    assert (e0 ∈ latest_entries r records o) as (j & t & Hj & Ht)%elem_of_latest_entries; [|by apply (Hcon j t)|done].
    apply head_Some_elem_of in Hhd. done.
  - rewrite Hl in He. injection He as ->.
    assert (e ∈ filter finalized (latest_entries r records o)) as [Hf Hin]%list_elem_of_filter by (rewrite Hfs; set_solver).
    split; [done|]. apply elem_of_latest_entries in Hin as (j & t & Hj & Ht); [|done]. by apply (Hcon j t).
Qed.

(** A finalized result survives when all finalized entries of the latest view carry it. *)
Lemma merged_finalized_kept r records merged o x j t e :
  records !! myIdx r = None → consensus_only r records o → agrees r records o x → record_ok (record r) →
  merges r records merged →
  participants r records !! j = Some (latest_view r records, t) → t !! o = Some e → finalized e →
  ∃ e', merged !! o = Some e' ∧ finalized e' ∧ e_result e' = x.
Proof.
  intros Hi Hcon Hagr Hr Hm Hj Ht Hf. pose proof (merged_lookup r records merged o Hi Hcon Hr Hm) as Hl. simpl in Hl.
  pose proof (latest_entries_intro r records o j t e Hi Hj Ht) as Hin.
  destruct (filter finalized _) as [|e1 fs] eqn:Hfs.
  { assert (e ∈ filter finalized (latest_entries r records o)) as Hcontra by (by apply list_elem_of_filter).
    rewrite Hfs in Hcontra. set_solver. }
  assert (e1 ∈ filter finalized (latest_entries r records o)) as [Hf1 Hin1]%list_elem_of_filter by (rewrite Hfs; set_solver).
  apply elem_of_latest_entries in Hin1 as (j1 & t1 & Hj1 & Ht1); [|done].
  exists e1. split_and!; [done..|]. by apply (Hagr j1 t1).
Qed.

(** A result that a fast quorum gave survives. *)
Lemma merged_result_kept r records merged (F : gset Z) o x :
  let c := config r in
  0 ≤ f c → QuorumSet.n c = 2 * f c + 1 → Z.of_nat (size records) = f c → records !! myIdx r = None →
  (∀ j, j ∈ F ∪ dom (participants r records) → 0 ≤ j < QuorumSet.n c) →
  FastQuorumSize c ≤ Z.of_nat (size F) → answered r records F o x →
  consensus_only r records o → agrees r records o x → record_ok (record r) → merges r records merged →
  ∃ e, merged !! o = Some e ∧ finalized e ∧ e_result e = x.
Proof.
  intros c Hf Hn Hsz Hi Hrange Hfast Hans Hcon Hagr Hr Hm.
  destruct (entries_counted r records F o x Hf Hn Hsz Hi Hrange Hfast Hans) as [Hmaj Hfew].
  pose proof (merged_lookup r records merged o Hi Hcon Hr Hm) as Hl. simpl in Hl. fold (latest_entries r records o) in *.
  destruct (filter finalized _) as [|e1 fs] eqn:Hfs.
  - destruct Hl as (d & u & maj & s1 & s2 & results & Hmerge & Hmj & Hl).
    destruct (latest_entries r records o) as [|e0 es0] eqn:Hes; [simpl in Hmaj; lia|]. rewrite <- Hes in *.
    assert (results !! o = Some x) as Hx.
    { eapply merge_majority; [exact Hmerge|]. rewrite Hmj. by apply majority_result_unique. }
    rewrite Hx, Hes in Hl. simpl in Hl. rewrite Hl. by eexists.
  - assert (e1 ∈ filter finalized (latest_entries r records o)) as [Hf1 Hin1]%list_elem_of_filter by (rewrite Hfs; set_solver).
    apply elem_of_latest_entries in Hin1 as (j1 & t1 & Hj1 & Ht1); [|done].
    exists e1. split_and!; [done..|]. by apply (Hagr j1 t1).
Qed.
End survival.

(** ** Concrete instances *)

#[global] Instance log_app_majority : MergeKeepsMajority (list string).
Proof.
  intros d u maj s results s' [= <- _] o x Hx. by rewrite lookup_union, Hx, union_Some_l.
Qed.
