(* ===== verification/IRSystem.v ===== *)
(** The replicas of a group of inconsistent replication and the network between them
    ([replication/ir/replica.cc]): what a client was told on the fast path is in the record of
    every later view.

    A system is the [2f + 1] replicas, each started once: a replica that stops does not come
    back, since the constructor panics on the file the replica has written.  A step lets one
    replica handle a request of a client, its timer, or a message that another replica has
    sent to it; messages are lost, duplicated, delayed and reordered as the steps have it. *)

From Stdlib Require Import FunctionalExtensionality.
From stdpp Require Import functions.
From S2P Require Import StrongServer.
From S2P Require Import QuorumSet LRReplica.
From S2P Require Import Prelude IRRecord IRReplica IRMerge.

(** ** What an event does to a replica *)

Section effects.
Context {S : Type} `{!IRAppReplica S} `{!Network} `{!Codec PersistedViewInfo}.
Implicit Types (r : IRReplica S) (o : opid_t).

(** The members of the replica that view changes and records are about. *)
Record same_but_record r r' : Prop := {
  sb_config : config r' = config r;
  sb_idx : myIdx r' = myIdx r;
  sb_status : status r' = status r;
  sb_view : view r' = view r;
  sb_normal : latest_normal_view r' = latest_normal_view r;
  sb_quorum : do_view_change_quorum r' = do_view_change_quorum r
}.

(** Answers to clients. *)
Definition to_client (x : ir_sent * bool) : Prop := match x.1 with ToRemote _ _ => True | _ => False end.

(** No request treats [o] as an inconsistent operation. *)
Definition consensus_operation o (e : ir_event) : Prop :=
  match e with
  | IrMessage _ (ProposeInconsistent req) => (req_clientid req, req_clientreqid req) ≠ o
  | IrMessage _ (FinalizeInconsistent opid) => opid ≠ o
  | _ => True
  end.

(** What a request of a client does to the entry of a consensus operation. *)
Inductive entry_change o (e : ir_event) (a b : option RecordEntry) : Prop :=
| entry_same : b = a → entry_change o e a b
| entry_new (en : RecordEntry) :
    a = None → b = Some en → e_type en = RECORD_TYPE_CONSENSUS → e_state en = RECORD_STATE_TENTATIVE →
    entry_change o e a b
| entry_finalized (remote : Z) (y : string) (en : RecordEntry) :
    e = IrMessage remote (FinalizeConsensus o y) → a = Some en →
    b = Some (en <| e_state := RECORD_STATE_FINALIZED |> <| e_result := y |>) → entry_change o e a b.

Definition from_client (e : ir_event) : Prop :=
  match e with IrMessage _ (DoViewChange _ | StartView _) | IrTimeout => False | _ => True end.

#[global] Instance from_client_dec e : Decision (from_client e).
Proof. destruct e as [? []|]; simpl; apply _. Defined.

Record client_effect (e : ir_event) r r' : Prop := {
  ce_same : same_but_record r r';
  ce_sends : ∃ l, sends r' = sends r ++ l ∧ Forall to_client l;
  ce_entry : ∀ o, consensus_operation o e → entry_change o e (record r !! o) (record r' !! o)
}.

Lemma on_app_same {A} (m : M S A) r a r' :
  on_app m r = Ok (a, r') → r' = r <| app := app r' |>.
Proof. unfold on_app. destruct (m (app r)) as [[a0 s]| |]; [|done..]. by intros [= -> <-]. Qed.

Ltac client_done := split; [by split|by eexists; split; [done|repeat constructor]|].

Lemma client_effect_ok e r : from_client e → wlp (ir_handle e) (λ _ r', client_effect e r r') r.
Proof.
  intros He. destruct e as [remote m|]; [|done]. destruct m as [req|opid|req|opid result|dvc|sv|req|]; simpl in *; try done.
  - unfold HandleProposeInconsistent, Find. apply post_get. destruct (record r !! _) eqn:Hf.
    + client_done. intros o _. by apply entry_same.
    + run. client_done. simpl. intros o Ho. apply entry_same. unfold Add, Add_entry. simpl. by rewrite lookup_insert_ne.
  - unfold HandleFinalizeInconsistent, Find. apply post_get. destruct (record r !! opid) as [e|] eqn:Hf.
    2: { split; [by split|by exists []; rewrite app_nil_r|]. intros o _. by apply entry_same. }
    case_decide; [|split; [by split|by exists []; rewrite app_nil_r|]; intros o _; by apply entry_same].
    run. apply post_bind. apply wlp_run. intros [] r2 ->%on_app_same. client_done.
    intros o Ho. apply entry_same. simpl. unfold SetStatus, set_entry, Find. rewrite Hf. simpl. by rewrite lookup_insert_ne.
  - unfold HandleProposeConsensus, Find. apply post_get. destruct (record r !! _) eqn:Hf.
    + client_done. intros o _. by apply entry_same.
    + apply post_bind. apply wlp_run. intros res r1 ->%on_app_same. run. client_done.
      intros o _. simpl. rewrite Add_result_insert. destruct (decide ((req_clientid req, req_clientreqid req) = o)) as [<-|Hne].
      * rewrite lookup_insert_eq. by eapply entry_new.
      * apply entry_same. by rewrite lookup_insert_ne.
  - unfold HandleFinalizeConsensus, Find. apply post_get. destruct (record r !! opid) as [e|] eqn:Hf.
    2: { split; [by split|by exists []; rewrite app_nil_r|]. intros o _. by apply entry_same. }
    run. apply post_bind.
    assert (∀ o t, t = <[opid := e <| e_state := RECORD_STATE_FINALIZED |> <| e_result := result |>]> (record r) →
      entry_change o (IrMessage remote (FinalizeConsensus opid result)) (record r !! o) (t !! o)) as Hch.
    { intros o t ->. destruct (decide (opid = o)) as [<-|Hne].
      - rewrite lookup_insert_eq. by eapply entry_finalized.
      - apply entry_same. by rewrite lookup_insert_ne. }
    destruct (bool_decide _) eqn:Heq; simpl; client_done; simpl; intros o _; apply Hch;
      unfold SetStatus, set_entry, Find; rewrite Hf; simpl.
    + apply bool_decide_eq_true in Heq as ->. by destruct e.
    + by rewrite alter_insert_eq.
  - unfold HandleUnlogged. apply post_bind. apply wlp_run. intros res r1 ->%on_app_same. client_done. intros o _. by apply entry_same.
Qed.

(** The message that enters a view: to another replica, with the record if that replica leads. *)
Definition announces r (x : ir_sent * bool) : Prop :=
  ∃ i m, x.1 = ToReplicaIdx i (SendDoViewChange m) ∧ i ≠ myIdx r ∧ dvc_replicaIdx m = myIdx r ∧
    dvc_new_view m = view r ∧ dvc_latest_normal_view m = latest_normal_view r ∧
    (GetLeaderIndex (config r) (view r) = Ok i → dvc_record m = Some (ToProto (record r))).

(** The replica enters view [v] and says so. *)
Record entered (v : Z) r r' : Prop := {
  en_config : config r' = config r;
  en_idx : myIdx r' = myIdx r;
  en_status : status r' ≠ STATUS_NORMAL;
  en_later : view r < v;
  en_view : view r' = v;
  en_normal : latest_normal_view r' = latest_normal_view r;
  en_quorum : do_view_change_quorum r' = do_view_change_quorum r;
  en_record : record r' = record r;
  en_sends : ∃ l, sends r' = sends r ++ l ∧ Forall (announces r') l
}.

Lemma broadcast_effect r :
  wlp BroadcastDoViewChangeMessages (λ _ r', same_but_record r r' ∧ record r' = record r ∧
    ∃ l, sends r' = sends r ++ l ∧ Forall (announces r) l) r.
Proof.
  set (Q := λ r', same_but_record r r' ∧ record r' = record r ∧ ∃ l, sends r' = sends r ++ l ∧ Forall (announces r) l).
  assert (∀ r' x, Q r' → announces r (x, send_ok (length (sends r'))) → wlp (transport_send x) (λ _, Q) r') as Hsend.
  { intros r' x ([Hc Hi Hs Hv Hn Hq] & Hr & l & Hl & Hall) Hx. split_and!; [by split|done|].
    exists (l ++ [(x, send_ok (length (sends r')))]). split; [by simpl; rewrite app_assoc, <- Hl|].
    apply Forall_app. split; [done|]. by constructor. }
  unfold BroadcastDoViewChangeMessages. apply post_get. apply wlp_bind_lift. intros leader Hlead. apply post_bind.
  eapply post_mono.
  - apply (post_for_each _ _ _ Q); [split_and!; [by split|done|by exists []; rewrite app_nil_r]|].
    intros i r' _ HQ. destruct (negb _) eqn:Hb; simpl; [|done]. apply Hsend; [done|].
    eexists i, _. split_and!; try done; [simpl; lia|]. rewrite Hlead. intros [= ->]. lia.
  - intros [] r' HQ. destruct (negb _) eqn:Hb; simpl; [|done]. apply Hsend; [done|].
    eexists leader, _. split_and!; try done. lia.
Qed.

Lemma entered_after v r r1 :
  config r1 = config r → myIdx r1 = myIdx r → status r1 ≠ STATUS_NORMAL → view r < v → view r1 = v →
  latest_normal_view r1 = latest_normal_view r → do_view_change_quorum r1 = do_view_change_quorum r →
  record r1 = record r → sends r1 = sends r →
  wlp BroadcastDoViewChangeMessages (λ _ r', entered v r r') r1.
Proof.
  intros Hc Hi Hs Hlt Hv Hn Hq Hr Hse. eapply post_mono; [apply broadcast_effect|].
  intros [] r' ([Hc' Hi' Hs' Hv' Hn' Hq'] & Hr' & l & Hl & Hall). split; try congruence. exists l. split; [congruence|].
  eapply Forall_impl; [exact Hall|]. intros x (i & m & ? & ? & ? & ? & ? & ?). exists i, m.
  by rewrite Hi', Hc', Hv', Hn', Hr'.
Qed.

Lemma timeout_effect r :
  view r < 2 ^ 64 - 1 → 0 ≤ view r → wlp HandleViewChangeTimeout (λ _ r', entered (view r + 1) r r') r.
Proof.
  intros Hb H0. unfold HandleViewChangeTimeout. do 3 run.
  assert (u64_incr (view r) = view r + 1) as Hu by (apply u64_incr_small; lia).
  apply entered_after; try (by case_decide); try lia; by case_decide.
Qed.

(** The messages of a view with one more. *)
Definition collected_with r (msg : DoViewChangeMessage) : gmap Z DoViewChangeMessage :=
  <[to_int (dvc_replicaIdx msg) := msg]> (collected r (dvc_new_view msg)).

(** A message for the current view at its leader: it is stored, or it completes the quorum. *)
Inductive collects (msg : DoViewChangeMessage) r r' : Prop :=
| collects_nothing : r' = r → collects msg r r'
| collects_more :
    GetLeaderIndex (config r) (view r) = Ok (myIdx r) →
    same_but_record r (r' <| do_view_change_quorum := do_view_change_quorum r |>) →
    record r' = record r → sends r' = sends r →
    (∀ v, collected r' v = if decide (v = view r) then collected_with r msg else collected r v) →
    collects msg r r'
| collects_quorum :
    GetLeaderIndex (config r) (view r) = Ok (myIdx r) → Z.of_nat (size (collected_with r msg)) = f (config r) →
    merges r (collected_with r msg) (record r') → config r' = config r → myIdx r' = myIdx r →
    status r' = STATUS_NORMAL → view r' = view r → latest_normal_view r' = view r →
    (∀ v, collected r' v = if decide (v = view r) then collected_with r msg else collected r v) →
    (∃ b, sends r' = sends r ++ [(ToAllReplicas (SendStartView (MkStartView (ToProto (record r')) (view r))), b)]) →
    collects msg r r'.

Lemma collected_insert v r msg q :
  dvc_new_view msg = view r →
  messages q = <[dvc_new_view msg := collected_with r msg]> (messages (do_view_change_quorum r)) →
  default ∅ (messages q !! v) = if decide (v = view r) then collected_with r msg else collected r v.
Proof.
  intros Hv ->. rewrite lookup_insert, <- Hv. case_decide as E; case_decide as E'; subst; done.
Qed.

Lemma IrMergeRecords_sends r records : wlp (IrMergeRecords records) (λ _ r', sends r' = sends r) r.
Proof.
  unfold IrMergeRecords. apply post_get. apply post_bind.
  eapply (post_mono _ _ (λ _ r', sends r' = sends r)); [by destruct (_ =? _)|]. intros [] r1 H1.
  destruct (group_entries _) as [R g]. destruct (split_entries (config r) g) as [[d u] maj].
  apply post_bind, wlp_run. intros [] r2 H2%on_app_same. apply post_bind, wlp_run. intros results r3 H3%on_app_same.
  apply wlp_bind_lift. intros m _. apply post_ret. by rewrite H3, H2.
Qed.

Lemma collect_effect msg r :
  ir_ok r → status r ≠ STATUS_NORMAL → dvc_new_view msg = view r → 1 ≤ f (config r) →
  wlp (collect_view_change msg) (λ _ r', collects msg r r') r.
Proof.
  intros [Hr Hvw Hno Hbe Hre Hl Hcur] Hst Hv Hf. unfold collect_view_change. apply post_get. apply wlp_bind_lift.
  intros leader Hlead. destruct (negb _) eqn:Hme; [by apply collects_nothing|].
  assert (leader = myIdx r) as -> by lia.
  destruct (AddAndCheckForQuorum _ _ _ _) as [quorum q] eqn:Hq. run.
  unfold AddAndCheckForQuorum, CheckForQuorum_at in Hq. injection Hq as Hquorum Hq. simpl in Hquorum, Hq.
  rewrite !lookup_insert_eq in Hquorum, Hq. simpl in Hquorum, Hq. rewrite insert_insert_eq in Hq.
  fold (collected r (dvc_new_view msg)) in Hquorum, Hq. fold (collected_with r msg) in Hquorum, Hq. rewrite Hre in Hquorum.
  assert (∀ v, default ∅ (messages q !! v) = if decide (v = view r) then collected_with r msg else collected r v) as Hcol.
  { intros v. apply collected_insert; [done|]. by rewrite <- Hq. }
  destruct quorum as [records|]; [|by apply collects_more].
  destruct (_ >=? _) eqn:Hsz in Hquorum; [|done]. injection Hquorum as <-.
  assert (Z.of_nat (size (collected_with r msg)) = f (config r)) as Hsize.
  { unfold collected_with in *. rewrite Hv in *. specialize (Hcur Hst).
    assert (size (<[to_int (dvc_replicaIdx msg) := msg]> (collected r (view r))) ≤ 1 + size (collected r (view r)))%nat.
    { rewrite map_size_insert. case_match; cbv [id]; lia. }
    assert (Z.of_nat (size (collected r (view r))) < f (config r)); [|lia].
    destruct Hcur as [->|]; [rewrite map_size_empty; lia|done]. }
  apply post_bind. eapply post_mono.
  { apply wlp_and; [by apply (IrMergeRecords_run (r <| do_view_change_quorum := q |>))|apply IrMergeRecords_sends]. }
  intros merged r2 [[[Hc2 Hi2 Hs2 Hv2 Hn2 Hf2 Hq2] Hm] Hsame]. simpl in Hsame. do 2 run. unfold post, transport_send, modify. simpl.
  apply collects_quorum; simpl; try done.
  - intros v. unfold collected. simpl. rewrite Hq2. apply Hcol.
  - eexists. by rewrite Hsame, Hv.
Qed.

Lemma entered_ok v r r' : ir_ok r → entered v r r' → ir_ok r'.
Proof.
  intros [Hr Hvw Hno Hbe Hre Hl Hcur] [Hc Hi Hs Hlt Hv Hn Hq Hrec _].
  split; unfold collected in *; rewrite ?Hc, ?Hv, ?Hn, ?Hq, ?Hrec; try done; [lia|lia| |].
  - intros v' Hv'. apply Hl. lia.
  - intros _. left. apply Hl. lia.
Qed.

(** The handler of a message for a view change: ignored, or after the view is entered. *)
Inductive changes (msg : DoViewChangeMessage) r r' : Prop :=
| changes_nothing : r' = r → changes msg r r'
| changes_collect r1 :
    r1 = r ∨ entered (dvc_new_view msg) r r1 → ir_ok r1 → status r1 ≠ STATUS_NORMAL → dvc_new_view msg = view r1 →
    collects msg r1 r' → changes msg r r'.

Lemma dvc_effect msg r :
  ir_ok r → 1 ≤ f (config r) → wlp (HandleDoViewChange msg) (λ _ r', changes msg r r') r.
Proof.
  intros Hok Hf. unfold HandleDoViewChange. apply post_get.
  destruct (dvc_new_view msg <? view r) eqn:H1; [by apply changes_nothing|]. destruct (dvc_new_view msg =? view r) eqn:H2.
  { case_decide as Hn; [by apply changes_nothing|]. eapply post_mono; [apply collect_effect; done || lia|].
    intros [] r' Hc. eapply (changes_collect _ _ _ r); [by left|done|done|lia|done]. }
  do 3 run. apply post_bind. eapply post_mono.
  - apply (entered_after (dvc_new_view msg) r); try (by case_decide); lia.
  - intros [] r1 Hen. pose proof (entered_ok _ _ _ Hok Hen) as Hok1.
    eapply post_mono; [apply collect_effect; [done|apply Hen|symmetry; apply Hen|by rewrite (en_config _ _ _ Hen)]|].
    intros [] r' Hc. eapply (changes_collect _ _ _ r1); [by right|done|apply Hen|symmetry; apply Hen|done].
Qed.

(** A new record, of the current view or a later one. *)
Inductive starts (msg : StartViewMessage) r r' : Prop :=
| starts_nothing : r' = r → starts msg r r'
| starts_view :
    view r ≤ sv_new_view msg → (status r = STATUS_NORMAL → view r < sv_new_view msg) →
    config r' = config r → myIdx r' = myIdx r → view r' = sv_new_view msg → latest_normal_view r' = sv_new_view msg →
    do_view_change_quorum r' = do_view_change_quorum r → record r' = Record_of_proto (sv_record msg) →
    sends r' = sends r → starts msg r r'.

Lemma sv_effect msg r : wlp (HandleStartView msg) (λ _ r', starts msg r r') r.
Proof.
  unfold HandleStartView. apply post_get. destruct (_ <? _) eqn:H1; [by apply starts_nothing|].
  destruct (_ && _) eqn:H2; [by apply starts_nothing|]. run. apply post_bind, wlp_run. intros [] r1 ->%on_app_same. run.
  apply starts_view; simpl; try done; [lia|]. intros Hn. rewrite bool_decide_eq_true_2 in H2 by done. lia.
Qed.
End effects.

(** ** The system *)

Section system.
Context {S : Type} `{!IRAppReplica S} `{!Network} `{!Codec PersistedViewInfo}.
Implicit Types (r : IRReplica S) (N : Z → IRReplica S) (o : opid_t) (x : string).

(** The replicas, and what they answered to proposals of consensus operations while they were in
    normal operation: the replica, its view, the operation and the result. *)
Record ir_system := MkSystem { node : Z → IRReplica S; told : list (Z * Z * opid_t * string) }.

Definition normal_answer (e : ir_event) r r' : list (Z * Z * opid_t * string) :=
  match e, last (sends r') with
  | IrMessage _ (ProposeConsensus _), Some (ToRemote _ (ReplyConsensus _ i opid x _), _) =>
      if decide (status r = STATUS_NORMAL) then [(i, view r, opid, x)] else []
  | _, _ => []
  end.

Definition ir_do (a : Z * ir_event) (s : ir_system) : res ir_system :=
  match ir_handle a.2 (node s a.1) with
  | Ok (_, r') => Ok (MkSystem (<[a.1 := r']> (node s)) (told s ++ normal_answer a.2 (node s a.1) r'))
  | Panic => Panic
  | Undefined => Undefined
  end.

(** Every replica after its first start. *)
Definition ir_started (c : Configuration) (apps : Z → S) : ir_system :=
  MkSystem (λ i, match IRReplica_new (IRReplica_start c i (apps i) None) with
                 | Ok (_, r) => r
                 | _ => IRReplica_start c i (apps i) None
                 end) [].

Section steps.
Variable c : Configuration.

Definition in_range (i : Z) : Prop := 0 ≤ i < QuorumSet.n c.

(** Replica [j] has sent the message to replica [i]; replica [j] has sent the message to all. *)
Definition dvc_sent N (j i : Z) (m : DoViewChangeMessage) : Prop :=
  in_range j ∧ ∃ b, (ToReplicaIdx i (SendDoViewChange m), b) ∈ sends (N j).

Definition sv_sent N (j : Z) (m : StartViewMessage) : Prop :=
  in_range j ∧ ∃ b, (ToAllReplicas (SendStartView m), b) ∈ sends (N j).

Definition delivered N (i : Z) (e : ir_event) : Prop :=
  match e with
  | IrMessage _ (DoViewChange m) => ∃ j, dvc_sent N j i m
  | IrMessage _ (StartView m) => ∃ j, sv_sent N j m
  | _ => True
  end.

(** A step of a replica that [G] allows; the view does not wrap around. *)
Inductive ir_step (G : ir_system → Z * ir_event → Prop) (s s' : ir_system) : Prop :=
| ir_step_do (a : Z * ir_event) :
    in_range a.1 → view (node s a.1) < 2 ^ 64 - 1 → delivered (node s) a.1 a.2 → G s a → ir_do a s = Ok s' →
    ir_step G s s'.

(** *** The network *)

Record net_ok N : Prop := {
  no_node : ∀ i, in_range i → ir_ok (N i) ∧ config (N i) = c ∧ myIdx (N i) = i ∧ 0 ≤ latest_normal_view (N i);
  no_dvc : ∀ j i m, dvc_sent N j i m →
    dvc_replicaIdx m = j ∧ i ≠ j ∧ dvc_new_view m ≤ view (N j) ∧ dvc_latest_normal_view m < dvc_new_view m;
  no_collected : ∀ i w j m, in_range i → collected (N i) w !! j = Some m →
    dvc_sent N j i m ∧ dvc_new_view m = w ∧ GetLeaderIndex c w = Ok i;
  no_sv : ∀ j m, sv_sent N j m →
    GetLeaderIndex c (sv_new_view m) = Ok j ∧ 0 < sv_new_view m ≤ latest_normal_view (N j);
  no_unique : ∀ j m m', sv_sent N j m → sv_sent N j m' → sv_new_view m = sv_new_view m' → m = m'
}.

(** What a step of a replica may send. *)
Inductive may_send r' (y : ir_sent * bool) : Prop :=
| may_answer : to_client y → may_send r' y
| may_announce : announces r' y → latest_normal_view r' < view r' → may_send r' y.

(** A step of replica [i] as the network sees it: it sends nothing of a new view, or it starts
    the view it leads. *)
Record node_step N (i : Z) r' : Prop := {
  ns_range : in_range i;
  ns_ok : ir_ok r';
  ns_config : config r' = c;
  ns_idx : myIdx r' = i;
  ns_view : view (N i) ≤ view r';
  ns_normal : latest_normal_view (N i) ≤ latest_normal_view r';
  ns_collected : ∀ w j m, collected r' w !! j = Some m →
    collected (N i) w !! j = Some m ∨ dvc_sent N j i m ∧ dvc_new_view m = w ∧ GetLeaderIndex c w = Ok i;
  ns_sends : (∃ l, sends r' = sends (N i) ++ l ∧ Forall (may_send r') l) ∨
    (∃ b, sends r' = sends (N i) ++ [(ToAllReplicas (SendStartView (MkStartView (ToProto (record r')) (latest_normal_view r'))), b)]) ∧
    latest_normal_view (N i) < latest_normal_view r' ∧ GetLeaderIndex c (latest_normal_view r') = Ok i
}.

Section node_step.
Context N (i : Z) (r' : IRReplica S) (Hstep : node_step N i r').

Lemma node_updated j : in_range j → view (N j) ≤ view (<[i := r']> N j) ∧
  latest_normal_view (N j) ≤ latest_normal_view (<[i := r']> N j).
Proof.
  intros Hj. destruct (decide (j = i)) as [->|Hne].
  - rewrite fn_lookup_insert. split; apply Hstep.
  - rewrite fn_lookup_insert_ne by done. done.
Qed.

Lemma sends_grow j y : y ∈ sends (N j) → y ∈ sends (<[i := r']> N j).
Proof.
  destruct (decide (j = i)) as [->|Hne]; [rewrite fn_lookup_insert|by rewrite fn_lookup_insert_ne].
  destruct (ns_sends _ _ _ Hstep) as [(l & -> & _)|((b & ->) & _)]; set_solver.
Qed.

Lemma dvc_sent_grow j k m : dvc_sent N j k m → dvc_sent (<[i := r']> N) j k m.
Proof. intros (Hj & b & Hin). split; [done|]. exists b. by apply sends_grow. Qed.

Lemma sv_sent_grow j m : sv_sent N j m → sv_sent (<[i := r']> N) j m.
Proof. intros (Hj & b & Hin). split; [done|]. exists b. by apply sends_grow. Qed.

(** The messages are the old ones, or are about what the replica has now. *)
Lemma dvc_sent_step j k m :
  dvc_sent (<[i := r']> N) j k m →
  dvc_sent N j k m ∨
  j = i ∧ k ≠ i ∧ dvc_replicaIdx m = i ∧ dvc_new_view m = view r' ∧ dvc_latest_normal_view m = latest_normal_view r' ∧
    latest_normal_view r' < view r' ∧ (GetLeaderIndex c (view r') = Ok k → dvc_record m = Some (ToProto (record r'))).
Proof.
  intros (Hj & b & Hin). destruct (decide (j = i)) as [->|Hne].
  2: { rewrite fn_lookup_insert_ne in Hin by done. left. split; [done|by exists b]. }
  rewrite fn_lookup_insert in Hin. destruct (ns_sends _ _ _ Hstep) as [(l & Hl & Hall)|((b' & Hl) & _)]; rewrite Hl in Hin.
  - apply elem_of_app in Hin as [Hin|Hin]; [left; split; [done|by exists b]|]. right.
    rewrite Forall_forall in Hall. destruct (Hall _ Hin) as [[]|(k' & m' & [= <- <-] & Hk & Hi & Hv & Hn & Hr) Hlt].
    destruct Hstep. rewrite ns_idx0, ns_config0 in *. by split_and!.
  - apply elem_of_app in Hin as [Hin|Hin]; [left; split; [done|by exists b]|]. set_solver.
Qed.

Lemma sv_sent_step j m :
  sv_sent (<[i := r']> N) j m →
  sv_sent N j m ∨
  j = i ∧ m = MkStartView (ToProto (record r')) (latest_normal_view r') ∧
    latest_normal_view (N i) < latest_normal_view r' ∧ GetLeaderIndex c (latest_normal_view r') = Ok i.
Proof.
  intros (Hj & b & Hin). destruct (decide (j = i)) as [->|Hne].
  2: { rewrite fn_lookup_insert_ne in Hin by done. left. split; [done|by exists b]. }
  rewrite fn_lookup_insert in Hin. destruct (ns_sends _ _ _ Hstep) as [(l & Hl & Hall)|((b' & Hl) & Hlt & Hlead)]; rewrite Hl in Hin.
  - apply elem_of_app in Hin as [Hin|Hin]; [left; split; [done|by exists b]|].
    rewrite Forall_forall in Hall. by destruct (Hall _ Hin) as [[]|(k' & m' & [=] & _)].
  - apply elem_of_app in Hin as [Hin|Hin]; [left; split; [done|by exists b]|]. right.
    apply list_elem_of_singleton in Hin as [= -> ->]. by split_and!.
Qed.

Lemma net_ok_step : net_ok N → net_ok (<[i := r']> N).
Proof.
  intros [Hnode Hdvc Hcol Hsv Huni]. pose proof Hstep as [Hri Hok Hc Hi Hv Hn Hcl _].
  destruct (Hnode i Hri) as (_ & _ & _ & H0). split.
  - intros j Hj. destruct (decide (j = i)) as [->|Hne]; [|rewrite fn_lookup_insert_ne by done; by apply Hnode].
    rewrite fn_lookup_insert. split_and!; [done..|lia].
  - intros j k m [Hs|(-> & Hk & Hidx & Hnv & Hln & Hlt & _)]%dvc_sent_step.
    + destruct (Hdvc _ _ _ Hs) as (? & ? & ? & ?). pose proof (node_updated j (proj1 Hs)). split_and!; [done..|lia|done].
    + rewrite fn_lookup_insert. split_and!; [done..|lia|lia].
  - intros k w j m Hk Hm. assert (dvc_sent N j k m ∧ dvc_new_view m = w ∧ GetLeaderIndex c w = Ok k) as (Hs & ? & ?);
      [|split_and!; [by apply dvc_sent_grow|done..]].
    destruct (decide (k = i)) as [->|Hne]; [|rewrite fn_lookup_insert_ne in Hm by done; by apply Hcol].
    rewrite fn_lookup_insert in Hm. destruct (Hcl _ _ _ Hm) as [Hm'|?]; [by apply Hcol|done].
  - intros j m [Hs|(-> & -> & Hlt & Hlead)]%sv_sent_step; simpl.
    + destruct (Hsv _ _ Hs) as [? ?]. pose proof (node_updated j (proj1 Hs)). split; [done|lia].
    + rewrite fn_lookup_insert. split; [done|lia].
  - intros j m m' [Hs|(-> & -> & Hlt & Hlead)]%sv_sent_step [Hs'|(E & -> & Hlt' & Hlead')]%sv_sent_step; simpl; intros Heq.
    + by eapply Huni.
    + subst. destruct (Hsv _ _ Hs). lia.
    + destruct (Hsv _ _ Hs'). lia.
    + done.
Qed.
End node_step.

(** The effects of the handlers are such steps. *)
Lemma client_node_step N i e r' :
  net_ok N → in_range i → ir_ok r' → client_effect e (N i) r' → node_step N i r'.
Proof.
  intros Hnet Hi Hok [[Hc Hx Hs Hv Hn Hq] (l & Hl & Hall) _]. destruct (no_node N Hnet i Hi) as (_ & Hc0 & Hi0 & _).
  split; try congruence || lia; [|left; exists l; split; [done|]].
  - intros w j m Hm. left. unfold collected in *. by rewrite Hq in Hm.
  - eapply Forall_impl; [exact Hall|]. intros y Hy. by apply may_answer.
Qed.

Lemma entered_node_step N i v r' :
  net_ok N → in_range i → entered v (N i) r' → node_step N i r'.
Proof.
  intros Hnet Hi Hen. destruct (no_node N Hnet i Hi) as (Hok0 & Hc0 & Hi0 & _).
  pose proof (entered_ok _ _ _ Hok0 Hen) as Hok. destruct Hen as [Hc Hx Hs Hlt Hv Hn Hq Hr (l & Hl & Hall)].
  split; try congruence || lia; [|left; exists l; split; [done|]].
  - intros w j m Hm. left. unfold collected in *. by rewrite Hq in Hm.
  - eapply Forall_impl; [exact Hall|]. intros y Hy. apply may_announce; [done|]. by apply (io_behind _ Hok).
Qed.

Lemma starts_node_step N i m r' :
  net_ok N → in_range i → ir_ok r' → starts m (N i) r' → node_step N i r'.
Proof.
  intros Hnet Hi Hok Hst. destruct (no_node N Hnet i Hi) as (Hok0 & Hc0 & Hi0 & _).
  destruct Hst as [->|Hle Hlt Hc Hx Hv Hn Hq Hr Hs].
  - split; try done; [by left|]. left. exists []. by rewrite app_nil_r.
  - pose proof (io_views _ Hok0). split; try congruence || lia.
    + intros w j m' Hm. left. unfold collected in *. by rewrite Hq in Hm.
    + left. exists []. by rewrite app_nil_r.
Qed.

Hypothesis Hsmall : QuorumSet.n c < 2 ^ 31.

Lemma collected_with_sent N i j0 msg j m :
  net_ok N → in_range i → dvc_sent N j0 i msg → dvc_new_view msg = view (N i) →
  GetLeaderIndex c (view (N i)) = Ok i → collected_with (N i) msg !! j = Some m →
  dvc_sent N j i m ∧ dvc_new_view m = view (N i).
Proof.
  intros Hnet Hi Hs Hv Hlead. unfold collected_with. destruct (no_dvc N Hnet _ _ _ Hs) as (Hj0 & _).
  rewrite Hj0, to_int_small by (destruct Hs as [[] _]; lia).
  intros [[-> ->]|[Hne Hm]]%lookup_insert_Some; [done|]. rewrite Hv in Hm.
  by destruct (no_collected N Hnet i _ j m Hi Hm) as (? & ? & _).
Qed.

Lemma collects_node_step N i j0 msg r' :
  net_ok N → in_range i → ir_ok r' → dvc_sent N j0 i msg → dvc_new_view msg = view (N i) →
  status (N i) ≠ STATUS_NORMAL → collects msg (N i) r' → node_step N i r'.
Proof.
  intros Hnet Hi Hok Hsent Hv Hst Hcs. destruct (no_node N Hnet i Hi) as (Hok0 & Hc0 & Hi0 & _).
  assert (GetLeaderIndex (config (N i)) (view (N i)) = Ok (myIdx (N i)) → ∀ w j m,
    (if decide (w = view (N i)) then collected_with (N i) msg else collected (N i) w) !! j = Some m →
    collected (N i) w !! j = Some m ∨ dvc_sent N j i m ∧ dvc_new_view m = w ∧ GetLeaderIndex c w = Ok i) as Hcol.
  { rewrite Hc0, Hi0. intros Hlead w j m Hm. case_decide as Hw; [|by left]. subst w. right.
    by destruct (collected_with_sent N i j0 msg j m Hnet Hi Hsent Hv Hlead Hm). }
  destruct Hcs as [->|Hlead [Hc Hx Hs Hvw Hn Hq] Hr Hse Hcl|Hlead Hsz Hm Hc Hx Hs Hvw Hn Hcl [b Hse]].
  - split; try done; [by left|]. left. exists []. by rewrite app_nil_r.
  - simpl in *. split; try congruence || lia.
    + intros w j m. rewrite Hcl. by apply Hcol.
    + left. exists []. by rewrite app_nil_r.
  - pose proof (io_behind _ Hok0 Hst). split; try congruence || lia.
    + intros w j m. rewrite Hcl. by apply Hcol.
    + right. rewrite Hn. split; [by exists b|]. split; [done|]. by rewrite Hc0, Hi0 in Hlead.
Qed.

(** *** Records *)

(** A record of replica [j] with its latest normal view: the present one, or one it has sent to
    a leader. *)
Definition snap N (j w : Z) (t : IRRecord) : Prop :=
  in_range j ∧
  (w = latest_normal_view (N j) ∧ t = record (N j) ∨
   ∃ i m, dvc_sent N j i m ∧ GetLeaderIndex c (dvc_new_view m) = Ok i ∧ w = dvc_latest_normal_view m ∧
     t = Record_of_proto (default [] (dvc_record m))).

(** The record view [w] started with. *)
Definition base N (w : Z) (t : IRRecord) : Prop :=
  ∃ j m, sv_sent N j m ∧ sv_new_view m = w ∧ t = Record_of_proto (sv_record m).

Lemma base_unique N w t t' : net_ok N → base N w t → base N w t' → t = t'.
Proof.
  intros Hnet (j & m & Hs & <- & ->) (j' & m' & Hs' & Hw & ->).
  destruct (no_sv N Hnet j m Hs) as [Hl _], (no_sv N Hnet j' m' Hs') as [Hl' _]. rewrite Hw, Hl in Hl'.
  injection Hl' as <-. by rewrite (no_unique N Hnet j m m').
Qed.

Lemma own_snap N j : in_range j → snap N j (latest_normal_view (N j)) (record (N j)).
Proof. intros Hj. split; [done|by left]. Qed.

Section records.
Context N (i : Z) (r' : IRReplica S) (Hnet : net_ok N) (Hstep : node_step N i r').

Lemma snap_step j w t :
  snap (<[i := r']> N) j w t → snap N j w t ∨ j = i ∧ w = latest_normal_view r' ∧ t = record r'.
Proof.
  intros (Hj & [[-> ->]|(k & m & Hs & Hlead & -> & ->)]).
  - destruct (decide (j = i)) as [->|Hne]; [rewrite fn_lookup_insert; by right|].
    rewrite fn_lookup_insert_ne by done. left. by apply own_snap.
  - apply (dvc_sent_step N i r' Hstep) in Hs as [Hs|(-> & _ & _ & Hnv & -> & _ & Hrec)].
    + left. split; [done|]. right. by exists k, m.
    + right. rewrite Hnv in Hlead. rewrite (Hrec Hlead). simpl. split_and!; [done..|].
      apply Record_roundtrip, (io_record _ (ns_ok _ _ _ Hstep)).
Qed.

(** A view started in the step is one that had not started. *)
Lemma base_step w t :
  base (<[i := r']> N) w t →
  base N w t ∨ w = latest_normal_view r' ∧ t = record r' ∧ latest_normal_view (N i) < w ∧ ∀ t', ¬ base N w t'.
Proof.
  intros (j & m & Hs & Hw & ->). apply (sv_sent_step N i r' Hstep) in Hs as [Hs|(-> & -> & Hlt & Hlead)].
  { left. by exists j, m. }
  right. simpl in Hw. subst w. split_and!; [done| |done|].
  - apply Record_roundtrip, (io_record _ (ns_ok _ _ _ Hstep)).
  - intros t' (j' & m' & Hs' & Hw' & _). destruct (no_sv N Hnet j' m' Hs') as [Hl Hle].
    rewrite Hw', Hlead in Hl. injection Hl as <-. lia.
Qed.

Lemma base_grow w t : base N w t → base (<[i := r']> N) w t.
Proof. intros (j & m & Hs & Hw & Ht). exists j, m. split; [by apply sv_sent_grow|done]. Qed.
End records.

(** *** One operation that [F] answered with [x] in view [v] *)

Section operation.
Context (F : gset Z) (v : Z) (o : opid_t) (x : string).

Definition has_result (t : IRRecord) : Prop := ∃ e, t !! o = Some e ∧ e_result e = x.

Definition has_final (t : IRRecord) : Prop := ∃ e, t !! o = Some e ∧ finalized e ∧ e_result e = x.

(** A replica that has answered [x] in view [v]. *)
Record told_ok N (j : Z) : Prop := {
  tk_range : in_range j;
  tk_normal : v ≤ latest_normal_view (N j);
  tk_now : latest_normal_view (N j) = v → has_result (record (N j));
  tk_sent : ∀ i m, dvc_sent N j i m → GetLeaderIndex c (dvc_new_view m) = Ok i → v < dvc_new_view m →
    v ≤ dvc_latest_normal_view m ∧
    (dvc_latest_normal_view m = v → has_result (Record_of_proto (default [] (dvc_record m))));
  tk_base : ∀ t e, base N v t → t !! o = Some e → e_result e = x;
  tk_started : 0 < v → ∃ t, base N v t
}.

(** It has answered, or may still do so: it has not left view [v]. *)
Definition could N (T : list (Z * Z * opid_t * string)) (j : Z) : Prop := (j, v, o, x) ∈ T ∨ view (N j) ≤ v.

Record op_ok N (T : list (Z * Z * opid_t * string)) : Prop := {
  oo_type : ∀ j w t e, snap N j w t → t !! o = Some e → e_type e = RECORD_TYPE_CONSENSUS;
  oo_base : ∀ w t e, base N w t → t !! o = Some e → finalized e ∧ e_type e = RECORD_TYPE_CONSENSUS;
  oo_started : ∀ j w t, snap N j w t → 0 < w → ∃ t', base N w t';
  oo_kept : ∀ j t t0 e0, snap N j v t → base N v t0 → t0 !! o = Some e0 →
    ∃ e, t !! o = Some e ∧ e_result e = e_result e0;
  oo_final : ∀ j t e, snap N j v t → t !! o = Some e → finalized e →
    e_result e = x ∨ ∃ t0 e0, base N v t0 ∧ t0 !! o = Some e0 ∧ e_result e = e_result e0;
  oo_told : ∀ j, (j, v, o, x) ∈ T → told_ok N j;
  oo_later : (∀ j, j ∈ F → could N T j) →
    (∀ w t, base N w t → v < w → has_final t) ∧ (∀ j w t, snap N j w t → v < w → has_final t)
}.

(** The guard: [o] is used as a consensus operation, and finalized only with [x], after all of
    [F] has answered. *)
Definition fast_path (s : ir_system) (a : Z * ir_event) : Prop :=
  consensus_operation o a.2 ∧
  ∀ remote y, a.2 = IrMessage remote (FinalizeConsensus o y) → y = x ∧ ∀ j, j ∈ F → (j, v, o, x) ∈ told s.

(** **** Steps that change neither the record nor the latest normal view *)

Lemma told_ok_step N i r' j :
  net_ok N → node_step N i r' → told_ok N j →
  (j = i → latest_normal_view r' = v → has_result (record r')) → told_ok (<[i := r']> N) j.
Proof.
  intros Hnet Hstep [Hj Hn Hnow Hsent Hb Hst] Hown. pose proof (node_updated N i r' Hstep j Hj) as [_ Hle].
  split; try done; [lia|..].
  - destruct (decide (j = i)) as [->|Hne]; [rewrite fn_lookup_insert; auto|by rewrite fn_lookup_insert_ne].
  - intros k m [Hs|(-> & _ & _ & Hnv & Hln & _ & Hrec)]%(dvc_sent_step N i r' Hstep) Hlead Hlt; [by eapply Hsent|].
    rewrite fn_lookup_insert in Hle. rewrite Hnv in Hlead. rewrite Hln, (Hrec Hlead). split; [lia|]. intros Hv.
    simpl. rewrite Record_roundtrip by apply (io_record _ (ns_ok _ _ _ Hstep)). auto.
  - intros t e Ht He. apply (base_step N i r' Hnet Hstep) in Ht as [Ht|(Hv & -> & Hlt & Hnone)]; [by eapply Hb|].
    destruct (decide (0 < v)) as [H0|H0]; [destruct (Hst H0) as [t' Ht']; by apply Hnone in Ht'|].
    destruct (no_node N Hnet i (ns_range _ _ _ Hstep)) as (_ & _ & _ & ?). lia.
  - intros H0. destruct (Hst H0) as [t Ht]. exists t. by eapply base_grow.
Qed.

(** A step of a replica keeps the invariant, if the record it leaves fits. *)
Record fits N (T : list (Z * Z * opid_t * string)) (i : Z) r' : Prop := {
  fi_type : ∀ e, record r' !! o = Some e → e_type e = RECORD_TYPE_CONSENSUS;
  fi_base : ∀ e, base (<[i := r']> N) (latest_normal_view r') (record r') → ¬ base N (latest_normal_view r') (record r') →
    record r' !! o = Some e → finalized e;
  fi_started : 0 < latest_normal_view r' → ∃ t, base (<[i := r']> N) (latest_normal_view r') t;
  fi_kept : latest_normal_view r' = v → ∀ t0 e0, base (<[i := r']> N) v t0 → t0 !! o = Some e0 →
    ∃ e, record r' !! o = Some e ∧ e_result e = e_result e0;
  fi_final : latest_normal_view r' = v → ∀ e, record r' !! o = Some e → finalized e →
    e_result e = x ∨ ∃ t0 e0, base (<[i := r']> N) v t0 ∧ t0 !! o = Some e0 ∧ e_result e = e_result e0;
  fi_later : (∀ j, j ∈ F → could N T j) → v < latest_normal_view r' → has_final (record r');
  fi_told : (i, v, o, x) ∈ T → latest_normal_view r' = v → has_result (record r')
}.

Hypothesis HF : ∀ j, j ∈ F → in_range j.

Lemma op_ok_step N T T' i r' :
  net_ok N → node_step N i r' → op_ok N T → fits N T i r' →
  (∀ j, (j, v, o, x) ∈ T' → (j, v, o, x) ∈ T ∨ view (N j) ≤ v ∧ told_ok (<[i := r']> N) j) →
  op_ok (<[i := r']> N) T'.
Proof.
  intros Hnet Hstep [Hty Hba Hst Hke Hfi Hto Hla] [Fty Fba Fst Fke Ffi Fla Fto] HT.
  assert (∀ j, j ∈ F → could (<[i := r']> N) T' j → could N T j) as Hcould.
  { intros j Hj [[Hin|[Hv _]]%HT|Hv]; [by left|by right|right]. pose proof (node_updated N i r' Hstep j (HF j Hj)). lia. }
  split.
  - intros j w t e [Hs|(-> & -> & ->)]%(snap_step N i r' Hstep) He; [by eapply Hty|by apply Fty].
  - intros w t e Hb He. pose proof Hb as [Hb'|(-> & -> & _ & Hnone)]%(base_step N i r' Hnet Hstep); [by eapply Hba|].
    split; [|by apply Fty]. apply Fba; [done|apply Hnone|done].
  - intros j w t [Hs|(-> & -> & ->)]%(snap_step N i r' Hstep) Hw; [|by apply Fst].
    destruct (Hst _ _ _ Hs Hw) as [t' Ht']. exists t'. by eapply base_grow.
  - intros j t t0 e0 [Hs|(-> & -> & ->)]%(snap_step N i r' Hstep) Hb He0; [|by eapply Fke].
    apply (base_step N i r' Hnet Hstep) in Hb as [Hb|(Hw & -> & Hlt & Hnone)]; [by eapply Hke|].
    destruct (no_node N Hnet i (ns_range _ _ _ Hstep)) as (_ & _ & _ & H0).
    destruct (Hst _ _ _ Hs ltac:(lia)) as [t' Ht']. by apply Hnone in Ht'.
  - intros j t e [Hs|(-> & -> & ->)]%(snap_step N i r' Hstep) He Hf; [|by apply Ffi].
    destruct (Hfi _ _ _ Hs He Hf) as [?|(t0 & e0 & Hb & ? & ?)]; [by left|right].
    exists t0, e0. split_and!; [by eapply base_grow|done..].
  - intros j [Hin|[_ Hk]]%HT; [|done]. apply told_ok_step; [done..|by apply Hto|]. intros ->. by apply Fto.
  - intros Hc. assert (∀ j, j ∈ F → could N T j) as Hc' by (intros j Hj; by apply Hcould; auto).
    destruct (Hla Hc') as [Hlb Hls]. split.
    + intros w t [Hb|(-> & -> & _)]%(base_step N i r' Hnet Hstep) Hlt; [by eapply Hlb|by apply Fla].
    + intros j w t [Hs|(-> & -> & ->)]%(snap_step N i r' Hstep) Hlt; [by eapply Hls|by apply Fla].
Qed.

(** **** The kinds of steps *)

Lemma base_same N i r' w t :
  net_ok N → node_step N i r' → latest_normal_view r' = latest_normal_view (N i) → base (<[i := r']> N) w t → base N w t.
Proof. intros Hnet Hstep Hn [Hb|(-> & _ & Hlt & _)]%(base_step N i r' Hnet Hstep); [done|lia]. Qed.

(** The entry and the latest normal view stay. *)
Lemma fits_quiet N T i r' :
  net_ok N → node_step N i r' → op_ok N T →
  latest_normal_view r' = latest_normal_view (N i) → record r' !! o = record (N i) !! o → fits N T i r'.
Proof.
  intros Hnet Hstep [Hty Hba Hst Hke Hfi Hto Hla] Hn Hr. pose proof (own_snap N i (ns_range _ _ _ Hstep)) as Hown.
  assert (∀ w t, base (<[i := r']> N) w t → base N w t) as Hb by (intros w t; by apply base_same).
  split; unfold has_final, has_result; rewrite ?Hn, ?Hr.
  - intros e He. by eapply Hty.
  - intros e Hb1 Hb2 _. by apply Hb in Hb1.
  - intros H0. destruct (Hst _ _ _ Hown H0) as [t Ht]. exists t. by eapply base_grow.
  - intros Hv t0 e0 Ht0 He0. rewrite Hv in Hown. eapply Hke; [done|by apply Hb|done].
  - intros Hv e He Hf. rewrite Hv in Hown. destruct (Hfi _ _ _ Hown He Hf) as [?|(t0 & e0 & ? & ? & ?)]; [by left|right].
    exists t0, e0. split_and!; [by eapply base_grow|done..].
  - intros Hc Hlt. by eapply (proj2 (Hla Hc)).
  - intros Hin Hv. by apply (tk_now _ _ (Hto i Hin)).
Qed.

(** The record is the one of a view that has started. *)
Lemma fits_started N T i r' :
  net_ok N → node_step N i r' → op_ok N T →
  latest_normal_view (N i) < latest_normal_view r' → base N (latest_normal_view r') (record r') → fits N T i r'.
Proof.
  intros Hnet Hstep [Hty Hba Hst Hke Hfi Hto Hla] Hlt Hown.
  pose proof (base_grow N i r' Hstep _ _ Hown) as Hown'. pose proof (net_ok_step N i r' Hstep Hnet) as Hnet'. split.
  - intros e He. by eapply Hba.
  - intros e _ Hno. done.
  - intros _. by eexists.
  - intros Hv t0 e0 Ht0 He0. rewrite Hv in Hown'. rewrite (base_unique _ _ _ _ Hnet' Ht0 Hown') in He0. by eexists.
  - intros Hv e He Hf. right. rewrite Hv in Hown'. by exists (record r'), e.
  - intros Hc Hw. by eapply (proj1 (Hla Hc)).
  - intros Hin Hv. pose proof (tk_normal _ _ (Hto i Hin)). lia.
Qed.

(** The client proposes or finalizes the operation. *)
Lemma fits_client N T i e r' :
  net_ok N → node_step N i r' → op_ok N T → F ≠ ∅ →
  latest_normal_view r' = latest_normal_view (N i) → entry_change o e (record (N i) !! o) (record r' !! o) →
  (∀ remote y, e = IrMessage remote (FinalizeConsensus o y) → y = x ∧ ∀ j, j ∈ F → (j, v, o, x) ∈ T) →
  fits N T i r'.
Proof.
  intros Hnet Hstep Hop HF0 Hn Hch Hfin. pose proof (own_snap N i (ns_range _ _ _ Hstep)) as Hown.
  assert (∀ w t, base (<[i := r']> N) w t → base N w t) as Hb by (intros w t; by apply base_same).
  assert (0 < latest_normal_view r' → ∃ t, base (<[i := r']> N) (latest_normal_view r') t) as Hstarted.
  { rewrite Hn. intros H0. destruct (oo_started _ _ Hop _ _ _ Hown H0) as [t Ht]. exists t. by eapply base_grow. }
  destruct Hch as [Hr|en Ha Hr Hc Ht|remote y en -> Ha Hr].
  - by apply fits_quiet.
  - destruct Hop as [Hty Hba Hst Hke Hfi Hto Hla]. split; rewrite ?Hr.
    + by intros e0 [= <-].
    + intros e0 Hb1 Hb2 _. by apply Hb in Hb1.
    + done.
    + intros Hv t0 e0 Ht0 He0. rewrite <- Hn, Hv in Hown. destruct (Hke _ _ _ _ Hown (Hb _ _ Ht0) He0) as (e1 & He1 & _).
      by rewrite Ha in He1.
    + intros _ e0 [= <-] Hf. unfold finalized in Hf. by rewrite Ht in Hf.
    + rewrite Hn. intros Hcd Hlt. destruct (proj2 (Hla Hcd) _ _ _ Hown Hlt) as (e1 & He1 & _). by rewrite Ha in He1.
    + rewrite Hn. intros Hin Hv. destruct (tk_now _ _ (Hto i Hin) Hv) as (e1 & He1 & _). by rewrite Ha in He1.
  - destruct (Hfin _ _ eq_refl) as [-> Hall]. destruct Hop as [Hty Hba Hst Hke Hfi Hto Hla].
    apply set_choose_L in HF0 as [j Hj]. pose proof (Hto j (Hall j Hj)) as Htold.
    split; unfold has_final, has_result; rewrite ?Hr.
    + intros e0 [= <-]. by apply (Hty i _ _ en Hown).
    + intros e0 Hb1 Hb2 _. by apply Hb in Hb1.
    + done.
    + intros Hv t0 e0 Ht0 He0. eexists. split; [done|]. simpl. symmetry. eapply (tk_base _ _ Htold); [by apply Hb|done].
    + intros _ e0 [= <-] _. by left.
    + by intros _ _; eexists.
    + by intros _ _; eexists.
Qed.

(** What a replica answers is in its record. *)
Lemma normal_answer_spec e r r' y :
  ir_handle e r = Ok (tt, r') → y ∈ normal_answer e r r' →
  status r = STATUS_NORMAL ∧ ∃ o' x' en, y = (myIdx r, view r, o', x') ∧ record r' !! o' = Some en ∧ e_result en = x'.
Proof.
  unfold normal_answer. destruct e as [remote [| |req| | | | |]|]; try (by intros _ ?%not_elem_of_nil). intros Hrun.
  assert (wlp (HandleProposeConsensus remote req) (λ _ r', ∃ b w fin en l,
    sends r' = l ++ [(ToRemote remote (ReplyConsensus w (myIdx r) (req_clientid req, req_clientreqid req) (e_result en) fin), b)] ∧
    record r' !! (req_clientid req, req_clientreqid req) = Some en) r) as Hall.
  { unfold HandleProposeConsensus, Find. apply post_get. destruct (record r !! _) as [en|] eqn:Hf.
    - eexists _, _, _, en, _. by split.
    - apply post_bind, wlp_run. intros res r1 ->%on_app_same. run. eexists _, _, _, _, _. simpl.
      rewrite Add_result_insert, lookup_insert_eq. split; [|done]. done. }
  apply wlp_run with (1 := Hall) in Hrun as (b & w & fin & en & l & Hl & Hen). rewrite Hl, last_snoc.
  case_decide as Hst; [|by intros ?%not_elem_of_nil]. intros ->%list_elem_of_singleton. split; [done|].
  by eexists _, _, en.
Qed.

Lemma told_now N T i e r' j :
  net_ok N → node_step N i r' → fits N T i r' → same_but_record (N i) r' → ir_handle e (N i) = Ok (tt, r') →
  (j, v, o, x) ∈ normal_answer e (N i) r' → view (N j) ≤ v ∧ told_ok (<[i := r']> N) j.
Proof.
  intros Hnet Hstep Hfit [_ _ _ Hvw Hn _] Hrun Hin. destruct (no_node N Hnet i (ns_range _ _ _ Hstep)) as (Hok & _ & Hi & _).
  apply (normal_answer_spec _ _ _ _ Hrun) in Hin as (Hst & o' & x' & en & [= -> Hv <- <-] & Hen & Hx). rewrite Hi.
  pose proof (io_normal _ Hok Hst) as Hnv. split; [lia|].
  pose proof (net_ok_step N i r' Hstep Hnet) as Hnet'. split; rewrite ?fn_lookup_insert.
  - apply Hstep.
  - lia.
  - intros _. by exists en.
  - intros k m Hs _ Hlt. destruct (no_dvc _ Hnet' _ _ _ Hs) as (_ & _ & Hle & _). rewrite fn_lookup_insert in Hle. lia.
  - intros t e0 Ht He0. destruct (fi_kept _ _ _ _ Hfit ltac:(lia) _ _ Ht He0) as (e1 & He1 & <-). by simplify_eq.
  - intros H0. rewrite Hv, <- Hnv, <- Hn. apply (fi_started _ _ _ _ Hfit). lia.
Qed.

(** **** Completing a view change *)

Section quorum.
Context `{!MergeKeepsMajority S}.
Hypothesis Hf : 1 ≤ f c.
Hypothesis Hn : QuorumSet.n c = 2 * f c + 1.
Hypothesis Hfast : FastQuorumSize c ≤ Z.of_nat (size F).

Variables (N : Z → IRReplica S) (T : list (Z * Z * opid_t * string)) (i j0 : Z) (msg : DoViewChangeMessage) (r' : IRReplica S).
Hypothesis Hnet : net_ok N.
Hypothesis Hop : op_ok N T.
Hypothesis Hi : in_range i.
Hypothesis Hsent : dvc_sent N j0 i msg.
Hypothesis Hview : dvc_new_view msg = view (N i).
Hypothesis Hlead : GetLeaderIndex c (view (N i)) = Ok i.

Let records := collected_with (N i) msg.

Lemma records_own : records !! myIdx (N i) = None.
Proof.
  destruct (no_node N Hnet i Hi) as (_ & _ & -> & _). apply eq_None_not_Some. intros [m Hm].
  destruct (collected_with_sent N i j0 msg i m Hnet Hi Hsent Hview Hlead Hm) as [Hs _].
  by destruct (no_dvc N Hnet _ _ _ Hs) as (_ & ? & _).
Qed.

(** A participant: the leader, or a replica that has sent its record for this view. *)
Lemma participant_snap j w t :
  participants (N i) records !! j = Some (w, t) →
  snap N j w t ∧ view (N i) ≤ view (N j) ∧
  (told_ok N j → v < view (N i) → v ≤ w ∧ (w = v → has_result t)).
Proof.
  destruct (no_node N Hnet i Hi) as (_ & _ & Hidx & _). unfold participants. rewrite Hidx.
  intros [[<- [= <- <-]]|[Hne Hm]]%lookup_insert_Some.
  - split_and!; [by apply own_snap|lia|]. intros Ht _. by split; [apply Ht|apply Ht].
  - rewrite lookup_fmap in Hm. apply fmap_Some in Hm as (m & Hm & [= -> ->]).
    destruct (collected_with_sent N i j0 msg j m Hnet Hi Hsent Hview Hlead Hm) as [Hs Hnv].
    destruct (no_dvc N Hnet _ _ _ Hs) as (_ & _ & Hle & _). rewrite <- Hnv in Hlead |- *. split_and!; [|done|].
    + split; [apply Hs|]. right. by exists i, m.
    + intros Ht Hlt. by apply (tk_sent _ _ Ht i m).
Qed.

Lemma participants_consensus : consensus_only (N i) records o.
Proof. intros j t e [Hs _]%participant_snap. by apply (oo_type _ _ Hop _ _ _ _ Hs). Qed.

(** A member of [F] takes part. *)
Lemma quorum_member :
  Z.of_nat (size records) = f c → ∃ j w t, j ∈ F ∧ participants (N i) records !! j = Some (w, t).
Proof.
  intros Hsz. assert (Z.of_nat (size (dom (participants (N i) records))) = f c + 1) as HP.
  { rewrite size_dom. unfold participants. rewrite map_size_insert_None by (by rewrite lookup_fmap, records_own).
    rewrite map_size_fmap. lia. }
  pose proof (replicas_in_common F (dom (participants (N i) records)) (QuorumSet.n c) ltac:(lia)) as Hcommon.
  assert (F ∩ dom (participants (N i) records) ≠ ∅) as [j [Hj [[w t] Hwt]%elem_of_dom]%elem_of_intersection]%set_choose_L.
  { intros Hemp. rewrite Hemp, size_empty in Hcommon. unfold FastQuorumSize in Hfast.
    rewrite Z.quot_div_nonneg in Hfast by lia. pose proof (Z.div_pos (f c + 1) 2 ltac:(lia) ltac:(lia)).
    enough (f c + 1 + (f c + 1) ≤ QuorumSet.n c) by lia. rewrite Hn. enough (Z.of_nat (size F) + (f c + 1) - QuorumSet.n c ≤ 0) by lia.
    rewrite <- HP. apply Hcommon. intros j [Hj|[[w t] [[Hr _] _]%participant_snap]%elem_of_dom]%elem_of_union; [by apply HF|done]. }
  by exists j, w, t.
Qed.

Lemma quorum_keeps merged :
  Z.of_nat (size records) = f c → merges (N i) records merged →
  (∀ j, j ∈ F → could N T j) → v < view (N i) → has_final merged.
Proof.
  intros Hsz Hm Hcd Hlt. destruct (no_node N Hnet i Hi) as (Hok & Hc & _). pose proof (io_record _ Hok) as Hrec.
  assert (∀ j w t, j ∈ F → participants (N i) records !! j = Some (w, t) → told_ok N j) as Htold.
  { intros j w t Hj (_ & Hvw & _)%participant_snap. destruct (Hcd j Hj) as [Hin|?]; [|lia]. by apply (oo_told _ _ Hop). }
  assert (∀ j w t, j ∈ F → participants (N i) records !! j = Some (w, t) → v ≤ w ∧ (w = v → has_result t)) as Hmem.
  { intros j w t Hj Hp. pose proof (Htold _ _ _ Hj Hp). apply participant_snap in Hp as (_ & _ & Hp). by apply Hp. }
  destruct (latest_view_spec (N i) records records_own) as [Hmax (jm & tm & Hjm)].
  destruct (quorum_member Hsz) as (j1 & w1 & t1 & Hj1 & Hp1).
  destruct (Hmem _ _ _ Hj1 Hp1) as [Hv1 _]. pose proof (Hmax _ _ _ Hp1). pose proof (Htold _ _ _ Hj1 Hp1) as Ht1.
  destruct (decide (latest_view (N i) records = v)) as [Hlv|Hlv].
  - eapply (merged_result_kept (N i) records merged F o x); rewrite ?Hc; try done; [lia|apply records_own|..].
    + intros j [Hj|[[w t] [[Hr _] _]%participant_snap]%elem_of_dom]%elem_of_union; [by apply HF|done].
    + intros j w t Hj Hp. destruct (Hmem _ _ _ Hj Hp) as [Hle Hres]. specialize (Hmax _ _ _ Hp).
      split; [lia|]. apply Hres. lia.
    + apply participants_consensus.
    + intros j t e (Hs & _)%participant_snap He Hfin. rewrite Hlv in Hs.
      destruct (oo_final _ _ Hop _ _ _ Hs He Hfin) as [?|(t0 & e0 & Hb & He0 & ->)]; [done|]. by eapply (tk_base _ _ Ht1).
  - assert (∀ j t, participants (N i) records !! j = Some (latest_view (N i) records, t) → has_final t) as Hall.
    { intros j t (Hs & _)%participant_snap. apply (proj2 (oo_later _ _ Hop Hcd) _ _ _ Hs). lia. }
    destruct (Hall _ _ Hjm) as (e & He & Hfin & _).
    eapply (merged_finalized_kept (N i) records merged o x jm tm e); try done; [apply records_own|apply participants_consensus|].
    intros j t e' Hp He' _. destruct (Hall _ _ Hp) as (e1 & He1 & _ & Hx1). by simplify_eq.
Qed.

Lemma fits_quorum :
  node_step N i r' → status (N i) ≠ STATUS_NORMAL → Z.of_nat (size records) = f c → merges (N i) records (record r') →
  latest_normal_view r' = view (N i) →
  (∃ b, sends r' = sends (N i) ++ [(ToAllReplicas (SendStartView (MkStartView (ToProto (record r')) (view (N i)))), b)]) →
  fits N T i r'.
Proof.
  intros Hstep Hst Hsz Hm Hnv [b Hs]. destruct (no_node N Hnet i Hi) as (Hok & _ & _ & _).
  pose proof (io_behind _ Hok Hst) as Hlt. pose proof (io_record _ Hok) as Hrec. rewrite <- Hnv in Hs, Hlt.
  assert (∀ e, record r' !! o = Some e → finalized e ∧ e_type e = RECORD_TYPE_CONSENSUS) as Hent.
  { intros e. by apply (merged_consensus (N i) records); [apply records_own|apply participants_consensus|..]. }
  assert (base (<[i := r']> N) (latest_normal_view r') (record r')) as Hb.
  { exists i, (MkStartView (ToProto (record r')) (latest_normal_view r')).
    split_and!; [split; [done|]; exists b; rewrite fn_lookup_insert, Hs; set_solver|done|].
    symmetry. apply Record_roundtrip, (io_record _ (ns_ok _ _ _ Hstep)). }
  pose proof (net_ok_step N i r' Hstep Hnet) as Hnet'. split.
  - intros e He. by apply Hent.
  - intros e _ _ He. by apply Hent.
  - intros _. by eexists.
  - intros Hv t0 e0 Ht0 He0. rewrite Hv in Hb. rewrite (base_unique _ _ _ _ Hnet' Ht0 Hb) in He0. by eexists.
  - intros Hv e He _. right. rewrite Hv in Hb. by exists (record r'), e.
  - intros Hcd Hvlt. apply quorum_keeps; [done..|lia].
  - intros Hin Hv. pose proof (tk_normal _ _ (oo_told _ _ Hop i Hin)). lia.
Qed.
End quorum.

(** *** Every step keeps the invariants *)

Section invariant.
Context `{!MergeKeepsMajority S}.
Hypothesis Hf : 1 ≤ f c.
Hypothesis Hn : QuorumSet.n c = 2 * f c + 1.
Hypothesis Hfast : FastQuorumSize c ≤ Z.of_nat (size F).

Lemma fast_nonempty : F ≠ ∅.
Proof.
  intros ->. rewrite size_empty in Hfast. unfold FastQuorumSize in Hfast. rewrite Z.quot_div_nonneg in Hfast by lia.
  pose proof (Z.div_pos (f c + 1) 2 ltac:(lia) ltac:(lia)). lia.
Qed.

Definition sys_ok N (T : list (Z * Z * opid_t * string)) : Prop := net_ok N ∧ op_ok N T.

Lemma sys_quiet N T i r' :
  sys_ok N T → node_step N i r' → latest_normal_view r' = latest_normal_view (N i) → record r' = record (N i) →
  sys_ok (<[i := r']> N) T.
Proof.
  intros [Hnet Hop] Hstep Hl Hr. split; [by apply net_ok_step|].
  eapply op_ok_step; [done..|apply fits_quiet; [done..|by rewrite Hr]|]. by left.
Qed.

Lemma sys_collects N T i j0 msg r' :
  sys_ok N T → in_range i → ir_ok r' → dvc_sent N j0 i msg → dvc_new_view msg = view (N i) →
  status (N i) ≠ STATUS_NORMAL → collects msg (N i) r' → sys_ok (<[i := r']> N) T.
Proof.
  intros [Hnet Hop] Hi Hok Hs Hv Hst Hcs. pose proof (collects_node_step N i j0 msg r' Hnet Hi Hok Hs Hv Hst Hcs) as Hstep.
  destruct (no_node N Hnet i Hi) as (_ & Hc & Hidx & _).
  destruct Hcs as [->|Hlead Hsame Hr Hse _|Hlead Hsz Hm _ _ _ _ Hnv _ Hse].
  1: by apply sys_quiet. 1: by apply sys_quiet; [..|destruct Hsame|].
  rewrite Hc, Hidx in Hlead. rewrite Hc in Hsz. split; [by apply net_ok_step|].
  eapply op_ok_step; [done..| |by left]. eapply fits_quorum; eauto.
Qed.

Lemma sys_step s s' : ir_step fast_path s s' → (∀ i, in_range i → persisted (node s i)) →
  sys_ok (node s) (told s) → sys_ok (node s') (told s').
Proof.
  intros [a Hi Hw Hdel [Hcon Hfin] Hdo] Hpers [Hnet Hop]. unfold ir_do in Hdo.
  destruct a as [i e]. simpl in Hi, Hw, Hdel, Hcon, Hfin, Hdo.
  destruct (ir_handle e (node s i)) as [[[] r']| |] eqn:Hrun; [|done..]. injection Hdo as <-. simpl.
  destruct (no_node _ Hnet i Hi) as (Hok & Hc & _ & H0). pose proof (io_views _ Hok) as Hvw.
  pose proof (ir_handle_ok e (node s i) Hok (Hpers i Hi) ltac:(lia)) as Hadv.
  apply wlp_run with (1 := Hadv) in Hrun as Hok'. destruct Hok' as (Hok' & _).
  destruct (decide (from_client e)) as [Hcl|Hcl].
  { pose proof (client_effect_ok e (node s i) Hcl) as Hall. apply wlp_run with (1 := Hall) in Hrun as Heff.
    pose proof (client_node_step _ i e r' Hnet Hi Hok' Heff) as Hstep. destruct Heff as [Hsame _ Hent].
    assert (fits (node s) (told s) i r') as Hfit.
    { eapply fits_client; [done..|apply fast_nonempty|apply Hsame|by apply Hent|done]. }
    split; [by apply net_ok_step|]. eapply op_ok_step; [done..|].
    intros j [Hin|Hin]%elem_of_app; [by left|right]. by eapply told_now. }
  assert (normal_answer e (node s i) r' = []) as ->; [|rewrite app_nil_r].
  { destruct e as [remote []|]; simpl in Hcl; tauto || done. }
  assert (sys_ok (node s) (told s)) as Hsys by done.
  destruct e as [remote [| | | |m|m| |]|]; simpl in Hcl; try tauto.
  - destruct Hdel as [j0 Hs]. pose proof (dvc_effect m (node s i) Hok ltac:(by rewrite Hc)) as Hall.
    apply wlp_run with (1 := Hall) in Hrun as [->|r1 Hr1 Hok1 Hst Hv Hcs].
    { apply sys_quiet; try done. eapply starts_node_step with (m := MkStartView [] 0); [done..|]. by apply starts_nothing. }
    destruct Hr1 as [->|Hen]; [by eapply sys_collects|].
    pose proof (entered_node_step _ i _ r1 Hnet Hi Hen) as Hstep1.
    replace (<[i := r']> (node s)) with (<[i := r']> (<[i := r1]> (node s))).
    + eapply sys_collects; rewrite ?fn_lookup_insert; try done; [|by eapply dvc_sent_grow].
      by apply sys_quiet; [..|apply Hen|apply Hen].
    + apply functional_extensionality. intros j. destruct (decide (i = j)) as [<-|Hne];
        [by rewrite !fn_lookup_insert|by rewrite !fn_lookup_insert_ne].
  - destruct Hdel as [j0 Hs]. pose proof (sv_effect m (node s i)) as Hall. apply wlp_run with (1 := Hall) in Hrun as Heff.
    pose proof (starts_node_step _ i m r' Hnet Hi Hok' Heff) as Hstep.
    destruct Heff as [->|Hle Hlt _ _ _ Hnv _ Hr _]; [by apply sys_quiet|].
    split; [by apply net_ok_step|]. eapply op_ok_step; [done..| |by left]. eapply fits_started; [done..| |].
    + rewrite Hnv. destruct (decide (status (node s i) = STATUS_NORMAL)) as [Hst|Hst]; [specialize (Hlt Hst); lia|].
      pose proof (io_behind _ Hok Hst). lia.
    + exists j0, m. by rewrite Hnv, Hr.
  - assert (wlp HandleViewChangeTimeout (λ _ r', entered (view (node s i) + 1) (node s i) r') (node s i)) as Hall.
    { apply timeout_effect; lia. }
    apply wlp_run with (1 := Hall) in Hrun as Hen. apply sys_quiet; [done|by eapply entered_node_step|apply Hen..].
Qed.

Lemma persisted_step s s' : ir_step fast_path s s' → (∀ i, in_range i → persisted (node s i)) →
  sys_ok (node s) (told s) → ∀ i, in_range i → persisted (node s' i).
Proof.
  intros [[k e] Hk Hw _ _ Hdo] Hpers [Hnet _] i Hi. unfold ir_do in Hdo. simpl in Hk, Hw, Hdo.
  destruct (ir_handle e (node s k)) as [[[] r']| |] eqn:Hrun; [|done..]. injection Hdo as <-. simpl.
  destruct (decide (i = k)) as [->|Hne]; [|rewrite fn_lookup_insert_ne by done; by apply Hpers].
  destruct (no_node _ Hnet k Hk) as (Hok & _ & _ & H0). pose proof (io_views _ Hok) as Hvw.
  pose proof (ir_handle_ok e (node s k) Hok (Hpers k Hk) ltac:(lia)) as Hadv.
  apply wlp_run with (1 := Hadv) in Hrun as (_ & Hp & _). by rewrite fn_lookup_insert.
Qed.

Lemma started_ok apps :
  sys_ok (node (ir_started c apps)) [] ∧ ∀ i, in_range i → persisted (node (ir_started c apps) i).
Proof.
  assert (∀ j k m, ¬ dvc_sent (node (ir_started c apps)) j k m) as Hd by (intros j k m (_ & b & []%not_elem_of_nil)).
  assert (∀ j m, ¬ sv_sent (node (ir_started c apps)) j m) as Hv by (intros j m (_ & b & []%not_elem_of_nil)).
  assert (∀ j w t, snap (node (ir_started c apps)) j w t → w = 0 ∧ t = ∅) as Hs.
  { intros j w t (_ & [[-> ->]|(k & m & Hm & _)]); [done|by apply Hd in Hm]. }
  assert (∀ w t, ¬ base (node (ir_started c apps)) w t) as Hb.
  { intros w t (j & m & Hm & _). by apply Hv in Hm. }
  split; [split|done].
  - split; [by intros i _; split_and!|..].
    + by intros j k m ?%Hd.
    + by intros i w j m _ ?.
    + by intros j m ?%Hv.
    + by intros j m m' ?%Hv.
  - split.
    + intros j w t e [_ ->]%Hs He. by rewrite lookup_empty in He.
    + by intros w t e ?%Hb.
    + intros j w t [-> _]%Hs. lia.
    + by intros j t t0 e0 _ ?%Hb.
    + intros j t e [_ ->]%Hs He. by rewrite lookup_empty in He.
    + by intros j ?%not_elem_of_nil.
    + intros Hcd. split; [intros w t Ht; by apply Hb in Ht|]. intros j w t [-> ->]%Hs Hlt.
      destruct (set_choose_L _ fast_nonempty) as [k Hk]. destruct (Hcd k Hk) as [?%not_elem_of_nil|Hle]; [done|].
      simpl in Hle. lia.
Qed.

Lemma reachable_ok apps s :
  rtc (ir_step fast_path) (ir_started c apps) s →
  sys_ok (node s) (told s) ∧ ∀ i, in_range i → persisted (node s i).
Proof.
  apply (rtc_ind_r (λ s, sys_ok (node s) (told s) ∧ ∀ i, in_range i → persisted (node s i))); [apply started_ok|].
  intros s1 s2 _ Hstep [Hsys Hp]. split; [by eapply sys_step|by eapply persisted_step].
Qed.
End invariant.
End operation.
End steps.

(** C5: What a client was told on the fast path is in every later view.  A group of [2f + 1]
    replicas, each started for the first time, takes any steps: requests of clients, timeouts,
    view changes; messages are lost, duplicated, delayed and reordered, and replicas stop for good
    (the constructor panics on the file a replica leaves), short of a view wrapping around.  The replicas of [F], at
    least [FastQuorumSize] of them, answer [x] to the proposal of a consensus operation [o] while
    they are in normal operation in view [v].  About [o] the clients are assumed to do what the
    fast path does: they use it as a consensus operation only, and finalize it only with [x] and
    after all of [F] has answered.  The application is assumed to keep in [Merge] the majority
    results it is given.  Then every replica that ever takes part in a view after [v] has [o] in
    its record, finalized with result [x]. *)
Theorem ir_fast_result_survives `{!MergeKeepsMajority S} (c : Configuration) (apps : Z → S) (F : gset Z) (v : Z) o x
    (s : ir_system) :
  1 ≤ f c → QuorumSet.n c = 2 * f c + 1 → QuorumSet.n c < 2 ^ 31 →
  (∀ j, j ∈ F → in_range c j) → FastQuorumSize c ≤ Z.of_nat (size F) →
  rtc (ir_step c (fast_path F v o x)) (ir_started c apps) s →
  (∀ j, j ∈ F → (j, v, o, x) ∈ told s) →
  ∀ i, in_range c i → v < latest_normal_view (node s i) →
  ∃ e, record (node s i) !! o = Some e ∧ finalized e ∧ e_result e = x.
Proof.
  intros Hf Hn Hsmall HF Hfast Hrun Htold i Hi Hlt.
  destruct (reachable_ok c Hsmall F v o x HF Hf Hn Hfast apps s Hrun) as [[_ Hop] _].
  assert (∀ j, j ∈ F → could v o x (node s) (told s) j) as Hcd by (intros j Hj; left; auto).
  by apply (proj2 (oo_later _ _ _ _ _ _ _ Hop Hcd) i _ _ (own_snap c (node s) i Hi)).
Qed.

(** ** Scripts *)

(** A script says which replica handles what: a request, its timer, or the [k]-th message that
    replica [j] has sent. *)
Inductive source := Client (remote : Z) (m : ir_message) | Timer | Peer (j : Z) (k : nat).

Definition resolve (s : ir_system) (i : Z) (a : source) : option ir_event :=
  match a with
  | Client remote m => if decide (from_client (IrMessage remote m)) then Some (IrMessage remote m) else None
  | Timer => Some IrTimeout
  | Peer j k =>
      match sends (node s j) !! k with
      | Some (ToReplicaIdx i' (SendDoViewChange m), _) => if decide (i' = i) then Some (IrMessage j (DoViewChange m)) else None
      | Some (ToAllReplicas (SendStartView m), _) => Some (IrMessage j (StartView m))
      | _ => None
      end
  end.

Definition sources_ok (c : Configuration) (i : Z) (a : source) : bool :=
  bool_decide (in_range c i) && match a with Peer j _ => bool_decide (in_range c j) | _ => true end.

Fixpoint play (c : Configuration) (l : list (Z * source)) (s : ir_system) : option ir_system :=
  match l with
  | [] => Some s
  | (i, a) :: l' =>
      if sources_ok c i a && (view (node s i) <? 2 ^ 64 - 1) then
        e ← resolve s i a;
        match ir_do (i, e) s with Ok s' => play c l' s' | _ => None end
      else None
  end.

Lemma resolve_delivered c s i a e : sources_ok c i a = true → resolve s i a = Some e → delivered c (node s) i e.
Proof.
  unfold sources_ok. intros [_ Ha]%andb_prop He. destruct a as [remote m| |j k]; simpl in He.
  - case_decide as Hc; [|done]. injection He as <-. destruct m; done.
  - by injection He as <-.
  - apply bool_decide_eq_true in Ha. destruct (sends (node s j) !! k) as [[y b]|] eqn:Hk; [|done].
    apply list_elem_of_lookup_2 in Hk. destruct y as [|i' []|[]]; try done.
    + case_decide as Hi; [|done]. injection He as <-. subst i'. exists j. split; [done|by exists b].
    + injection He as <-. exists j. split; [done|by exists b].
Qed.

Lemma play_reachable c (G : ir_system → Z * ir_event → Prop) l s s' :
  (∀ s i e, ¬ from_client e → G s (i, e)) → (∀ s i remote m, (i, Client remote m) ∈ l → G s (i, IrMessage remote m)) →
  play c l s = Some s' → rtc (ir_step c G) s s'.
Proof.
  intros Hp. revert s. induction l as [|[i a] l IH]; intros s Hcl Hplay; simpl in Hplay; [by injection Hplay as <-|].
  destruct (sources_ok c i a && _) eqn:Hg; [|done]. apply andb_prop in Hg as [Hok Hv]. apply bind_Some in Hplay as (e & He & Hplay).
  destruct (ir_do (i, e) s) as [s1| |] eqn:Hdo; [|done..]. eapply rtc_l; [|apply (IH s1); [set_solver|done]].
  pose proof Hok as [Hi%bool_decide_eq_true _]%andb_prop.
  apply (ir_step_do c G s s1 (i, e)); simpl; [done|lia|by eapply resolve_delivered| |done].
  destruct a as [remote m| |j k]; simpl in He.
  - case_decide; [|done]. injection He as <-. apply Hcl. set_solver.
  - injection He as <-. apply Hp. by intros [].
  - apply Hp. destruct (sends (node s j) !! k) as [[[|i' []|[]] b]|]; try done; [case_decide; [|done]|]; injection He as <-; by intros [].
Qed.
End system.

(** ** Concrete runs *)

#[local] Existing Instances reliable view_info_codec.

Definition demo_group : ir_system := ir_started demo_config (λ _, [] : list string).

Definition played (l : list (Z * source)) (s : ir_system) : ir_system := default s (play demo_config l s).

Definition demo_proposal : source := Client 7 (ProposeConsensus (MkRequest "b" 7 2)).

Definition demo_replicas : gset Z := {[0; 1; 2]}.

Lemma demo_replicas_in_range j : j ∈ demo_replicas → in_range demo_config j.
Proof. unfold demo_replicas, in_range. rewrite !elem_of_union, !elem_of_singleton. simpl. lia. Qed.

(** A run in which clients only propose operation 2 of client 7. *)
Lemma demo_play v (l : list (Z * source)) s :
  (∀ i remote m, (i, Client remote m) ∈ l → m = ProposeConsensus (MkRequest "b" 7 2)) →
  is_Some (play demo_config l s) →
  rtc (ir_step demo_config (fast_path demo_replicas v (7, 2) "ok")) s (played l s).
Proof.
  intros Hcl [s' Hs']. unfold played. rewrite Hs'. eapply play_reachable; [| |exact Hs'].
  - intros s0 i e He. split; simpl; [by destruct e as [? []|]; simpl in *; tauto|]. intros remote y ->. by destruct He.
  - intros s0 i remote m Hin%Hcl. subst m. by split.
Qed.

(** All three replicas answer in view 0.  Replicas 1 and 2 time out; replica 1 leads view 1 and
    completes the view change with the record of replica 2; replica 0 is told. *)
Definition fast_script : list (Z * source) :=
  [(0, demo_proposal); (1, demo_proposal); (2, demo_proposal); (1, Timer); (2, Timer); (1, Peer 2 2); (0, Peer 1 3)].

Lemma ir_fast_result_survives_witness :
  latest_normal_view (node (played fast_script demo_group) 0) = 1 ∧
  ∃ e, record (node (played fast_script demo_group) 0) !! (7, 2) = Some e ∧ finalized e ∧ e_result e = "ok".
Proof.
  split; [vm_compute; reflexivity|].
  apply (ir_fast_result_survives demo_config (λ _, []) demo_replicas 0 (7, 2) "ok" (played fast_script demo_group)).
  - simpl. lia.
  - reflexivity.
  - simpl. lia.
  - apply demo_replicas_in_range.
  - vm_compute. discriminate.
  - apply demo_play; [|vm_compute; by eexists].
    intros i remote m Hin. unfold fast_script, demo_proposal in Hin. set_solver.
  - intros j Hj. unfold demo_replicas in Hj. rewrite !elem_of_union, !elem_of_singleton in Hj.
    assert (told (played fast_script demo_group) = [(0, 0, (7, 2), "ok"); (1, 0, (7, 2), "ok"); (2, 0, (7, 2), "ok")]) as ->
      by (vm_compute; reflexivity).
    destruct Hj as [[-> | ->] | ->]; set_solver.
  - unfold in_range. simpl. lia.
  - vm_compute. reflexivity.
Defined.

(** All three replicas time out; replica 1 completes the view change to view 1.  Then all three
    answer a proposal, replicas 0 and 2 while their view change is still going on. *)
Definition answers_script : list (Z * source) :=
  [(0, Timer); (1, Timer); (2, Timer); (1, Peer 2 1); (0, demo_proposal); (1, demo_proposal); (2, demo_proposal)].

(** Replicas 0 and 2 receive the record of view 1, and change to view 2. *)
Definition forget_script : list (Z * source) :=
  [(0, Peer 1 2); (2, Peer 1 2); (0, Timer); (2, Timer); (2, Peer 0 4); (0, Peer 2 5); (1, Peer 2 5)].

Definition demo_answered : ir_system := played answers_script demo_group.

Definition demo_forgotten : ir_system := played forget_script demo_answered.

(** C39: An answer given during a view change is lost.  The handler of proposals does not ask for
    the status.  There is a run of three replicas, with the guard of the theorem above, in which
    all three answer [ok] to a consensus operation with view 1, a fast quorum of matching
    replies; from there, without a crash and with no messages but those the replicas sent, the
    group reaches a state in which all three are in normal operation in view 2 and none of them
    has the operation. *)
Theorem ir_answer_in_view_change_lost :
  rtc (ir_step demo_config (fast_path demo_replicas 1 (7, 2) "ok")) demo_group demo_answered ∧
  FastQuorumSize demo_config = 3 ∧
  (∀ j, j ∈ [0; 1; 2] → ∃ b, (ToRemote 7 (ReplyConsensus 1 j (7, 2) "ok" false), b) ∈ sends (node demo_answered j)) ∧
  rtc (ir_step demo_config (fast_path demo_replicas 1 (7, 2) "ok")) demo_answered demo_forgotten ∧
  (∀ j, j ∈ [0; 1; 2] → status (node demo_forgotten j) = STATUS_NORMAL ∧ view (node demo_forgotten j) = 2 ∧
     record (node demo_forgotten j) !! (7, 2) = None).
Proof.
  split_and!.
  - apply demo_play; [|vm_compute; by eexists].
    intros i remote m Hin. unfold answers_script, demo_proposal in Hin. set_solver.
  - reflexivity.
  - intros j Hj. exists true. rewrite list_elem_of_lookup.
    assert (j = 0 ∨ j = 1 ∨ j = 2) as [-> |[-> | ->]] by set_solver; [exists 2%nat|exists 3%nat|exists 2%nat]; vm_compute; reflexivity.
  - apply demo_play; [|vm_compute; by eexists].
    intros i remote m Hin. unfold forget_script in Hin. set_solver.
  - intros j Hj. assert (j = 0 ∨ j = 1 ∨ j = 2) as [-> |[-> | ->]] by set_solver; vm_compute; done.
Qed.
