(* ===== verification/TapirServer.v ===== *)
(** The application of a TAPIR replica: [store/tapirstore/server.h] and [server.cc], with the
    messages of [tapir-proto.proto].

    The server answers the upcalls of inconsistent replication with its [Store]; the wire format
    of the messages is a parameter ([Codec]).  It does not implement [Sync] and [Merge]. *)

From S2P Require Import StrongServer.
From S2P Require Import VersionStore QuorumSet LRReplica Sharding.
From S2P Require Import Prelude Timestamp Transaction TapirStore IRRecord IRReplica.

(** ** Messages *)

Inductive Operation := GET | PREPARE | COMMIT | ABORT.

Record GetMessage := MkGetMessage { get_key : string; get_timestamp : option TimestampMessage }.
Record PrepareMessage := MkPrepareMessage { prepare_txn : TransactionMessage; prepare_timestamp : option TimestampMessage }.
Record CommitMessage := MkCommitMessage { commit_timestamp : Z }.
Record AbortMessage := MkAbortMessage { abort_txn : TransactionMessage }.

Record Request := MkRequest {
  op : Operation;
  txnid : Z;
  req_get : option GetMessage;
  req_prepare : option PrepareMessage;
  req_commit : option CommitMessage;
  req_abort : option AbortMessage
}.

Record Reply := MkReply { status : Z; rep_value : option string; rep_timestamp : option TimestampMessage }.

(** The default instances of absent messages. *)
Definition get_of (r : Request) : GetMessage := default (MkGetMessage "" None) (req_get r).
Definition prepare_of (r : Request) : PrepareMessage := default (MkPrepareMessage no_txn None) (req_prepare r).
Definition commit_of (r : Request) : CommitMessage := default (MkCommitMessage 0) (req_commit r).
Definition abort_of (r : Request) : AbortMessage := default (MkAbortMessage no_txn) (req_abort r).
Definition no_timestamp : TimestampMessage := MkTimestampMessage 0 0.

(** ** The server: its only member is the store. *)

Section server.
Context `{HO : HashOrder} `{!Codec Request} `{!Codec Reply}.

Definition Server_new (linearizable : bool) : Store := Store_new linearizable.

Definition ExecInconsistentUpcall (str1 : string) : M Store unit :=
  let request : Request := ParseFromString str1 in
  match op request with
  | COMMIT => Commit (txnid request) (commit_timestamp (commit_of request))
  | ABORT => Abort (txnid request) (Transaction_of_msg (abort_txn (abort_of request)))
  | _ => panic
  end.

Definition ExecConsensusUpcall (str1 : string) : M Store string :=
  let request : Request := ParseFromString str1 in
  match op request with
  | PREPARE =>
      '(st, proposed) ← Prepare (txnid request) (Transaction_of_msg (prepare_txn (prepare_of request)))
                          (Timestamp_of_msg (default no_timestamp (prepare_timestamp (prepare_of request)))) Timestamp0;
      mret (SerializeToString (MkReply st None (if isValid proposed then Some (serialize proposed) else None)))
  | _ => panic
  end.

Definition UnloggedUpcall (str1 : string) : M Store string :=
  let request : Request := ParseFromString str1 in
  match op request with
  | GET =>
      match get_timestamp (get_of request) with
      | Some ts =>
          '(st, val) ← Get_at (txnid request) (get_key (get_of request)) (Timestamp_of_msg ts) (Timestamp0, "");
          mret (SerializeToString (MkReply st (if st =? 0 then Some val.2 else None) None))
      | None =>
          '(st, val) ← Get (txnid request) (get_key (get_of request)) (Timestamp0, "");
          mret (SerializeToString (if st =? 0 then MkReply st (Some val.2) (Some (serialize val.1))
                                   else MkReply st None None))
      end
  | _ => panic
  end.

(** [Panic("Unimplemented!")]. *)
Definition Sync (record : gmap opid_t RecordEntry) : M Store unit := panic.

Definition Merge (d u : gmap opid_t (list RecordEntry)) (majority_results_in_d : gmap opid_t string) :
    M Store (gmap opid_t string) := panic.

Definition Load (key value : string) (timestamp : Timestamp) : M Store unit := TapirStore.Load key value timestamp.

(** The loading loop of [main]; [lines] are the results of the [nKeys] calls of [getline]. *)
Definition load_keys (myShard maxShard : Z) (lines : list string) : M Store unit :=
  for_each lines (λ key,
    mine ← lift_res (loads_key myShard maxShard key);
    when mine (Load key "null" Timestamp0)).

#[global] Instance TapirServer_AppReplica : IRAppReplica Store := {|
  IRReplica.ExecInconsistentUpcall := ExecInconsistentUpcall;
  IRReplica.ExecConsensusUpcall := ExecConsensusUpcall;
  IRReplica.UnloggedUpcall := UnloggedUpcall;
  IRReplica.Sync := Sync;
  IRReplica.Merge := Merge
|}.

(** ** View changes *)

Context `{!Network} `{!Codec PersistedViewInfo}.

(** A TAPIR replica does not survive a view change.  Whatever its state, it stops in [Panic] when
    it receives the record of a later view, and when it leads a view change and merges records;
    the timer that starts view changes fires every ten seconds whether or not replicas fail. *)
Theorem tapir_view_change_panics (r : IRReplica Store) :
  (∀ msg, view r < sv_new_view msg → HandleStartView msg r = Panic) ∧
  (∀ records, IrMergeRecords records r = Panic).
Proof.
  split.
  - intros msg Hv. unfold HandleStartView, mbind, M_bind, get_st. destruct (sv_new_view msg <? view r) eqn:H1; [lia|].
    destruct (sv_new_view msg =? view r) eqn:H2; [lia|]. done.
  - intros records. unfold IrMergeRecords, mbind, M_bind, get_st. destruct (_ =? _); simpl;
      destruct (group_entries _) as [R g]; done.
Qed.
End server.
