(* ===== verification/IRClient.v ===== *)
(** The client of inconsistent replication: [replication/ir/client.h] and [client.cc], with the
    error codes of [replication/common/client.h].

    A request is an object with a timer, in a table under its id; it dies when it is erased, and
    its timers with it.  A timer is what it calls and whether it runs; one that fires is started
    again before its callback runs ([Timeout::Reset] of [lib/transport.cc]).  The continuations a
    request was given are recorded as calls.  The application's [decide] is a function of the
    request.  A timeout callback that deletes its request also deletes the [Timeout] whose
    function is running; here the request is erased, and nothing is said about what the
    destroyed object does when the function returns. *)

From S2P Require Import StrongServer.
From S2P Require Import QuorumSet LRReplica.
From S2P Require Import Prelude IRRecord IRReplica.

#[global] Instance viewstamp_t_eq_dec : EqDecision viewstamp_t.
Proof. solve_decision. Defined.

#[global] Instance viewstamp_t_countable : Countable viewstamp_t :=
  inj_countable' (λ v, (QuorumSet.view v, opnum v)) (λ p, MkViewstamp p.1 p.2)
    (λ v, match v with MkViewstamp _ _ => eq_refl end).

(** ** Requests *)

Inductive ErrorCode := TIMEOUT | MISMATCHED_CONSENSUS_VIEWS.

(** What a timer calls. *)
Inductive ir_timer := CallResendInconsistent | CallResendConsensus | CallUnloggedTimeout | CallResendConfirmation (isConsensus : bool).

(** The messages a client receives: [ReplyConsensusMessage], and what it keeps of the others. *)
Record ReplyConsensusMessage := MkReplyConsensus {
  rc_view : Z; rc_replicaIdx : Z; rc_opid : opid_t; rc_result : string; rc_finalized : bool
}.

Abbreviation result_set_t := (gmap string Z).

(** [struct PendingConsensusRequest], less the members of [PendingRequest]. *)
Record ConsensusState := MkConsensusState {
  consensusReplyQuorum : QuorumSet Z ReplyConsensusMessage;
  decide_fn : result_set_t → string;
  decideResult : string;
  quorumSize : Z;
  superQuorumSize : Z;
  on_slow_path : bool;
  error_continuation : bool;
  transition_to_slow_path_timer : bool;
  reply_consensus_view : Z;
  sent_confirms : bool
}.

#[global] Instance ConsensusState_eta : Eta ConsensusState := λ c,
  MkConsensusState (consensusReplyQuorum c) (decide_fn c) (decideResult c) (quorumSize c) (superQuorumSize c)
    (on_slow_path c) (error_continuation c) (transition_to_slow_path_timer c) (reply_consensus_view c) (sent_confirms c).

(** The class of a request. *)
Inductive RequestKind :=
| Unlogged (has_error_continuation : bool)
| Inconsistent (inconsistentReplyQuorum : QuorumSet viewstamp_t bool)
| Consensus (c : ConsensusState).

(** [struct PendingRequest]; a quorum of confirmations keeps no more than who sent them. *)
Record PendingRequest := MkPendingRequest {
  request : string;
  clientReqId : Z;
  continuationInvoked : bool;
  timer : ir_timer;
  timer_active : bool;
  confirmQuorum : QuorumSet viewstamp_t unit;
  kind : RequestKind
}.

#[global] Instance PendingRequest_eta : Eta PendingRequest := λ r,
  MkPendingRequest (request r) (clientReqId r) (continuationInvoked r) (timer r) (timer_active r) (confirmQuorum r) (kind r).

(** ** The client *)

Inductive ir_client_sent :=
| SendPropose (consensus : bool) (req : Request)
| SendFinalizeInconsistent (opid : opid_t)
| SendFinalizeConsensus (opid : opid_t) (result : string)
| SendUnlogged (replicaIdx : Z) (req : Request).

Inductive ir_call :=
| Continue (reqId : Z) (request reply : string)
| ContinueError (reqId : Z) (request : string) (err : ErrorCode).

Record IRClient := MkIRClient {
  ic_config : Configuration;
  clientid : Z;
  lastReqId : Z;
  pendingReqs : gmap Z PendingRequest;
  ic_sends : list (ir_client_sent * bool);
  calls : list ir_call
}.

#[global] Instance IRClient_eta : Eta IRClient := λ c,
  MkIRClient (ic_config c) (clientid c) (lastReqId c) (pendingReqs c) (ic_sends c) (calls c).

Definition IRClient_new (config : Configuration) (clientid : Z) : IRClient := MkIRClient config clientid 0 ∅ [] [].

Section client.
Context `{!Network}.

Abbreviation MI := (M IRClient).

Definition send (x : ir_client_sent) : MI bool := λ c,
  let ok := send_ok (length (ic_sends c)) in Ok (ok, c <| ic_sends ::= (λ l, l ++ [(x, ok)]) |>).

Definition invoke (x : ir_call) : MI unit := modify (λ c, c <| calls ::= (λ l, l ++ [x]) |>).

Definition store_req (req : PendingRequest) : MI unit :=
  modify (λ c, c <| pendingReqs ::= <[clientReqId req := req]> |>).

Definition erase_req (reqId : Z) : MI unit := modify (λ c, c <| pendingReqs ::= delete reqId |>).

Definition next_id : MI Z := _ ← modify (λ c, c <| lastReqId ::= u64_incr |>); gets lastReqId.

(** A consensus request with another state. *)
Definition with_consensus (f : ConsensusState → ConsensusState) (req : PendingRequest) : PendingRequest :=
  match kind req with Consensus s => req <| kind := Consensus (f s) |> | _ => req end.

(** ** Sending *)

Definition SendInconsistent (req : PendingRequest) : MI unit :=
  c ← get_st;
  ok ← send (SendPropose false (MkRequest (request req) (clientid c) (clientReqId req)));
  if (ok : bool) then store_req (req <| timer_active := true |>) else erase_req (clientReqId req).

Definition InvokeInconsistent (req_str : string) : MI unit :=
  reqId ← next_id;
  c ← get_st;
  let req := MkPendingRequest req_str reqId false CallResendInconsistent false
               (QuorumSet_new (QuorumSize (ic_config c))) (Inconsistent (QuorumSet_new (QuorumSize (ic_config c)))) in
  _ ← store_req req;
  SendInconsistent req.

Definition SendConsensus (req : PendingRequest) : MI unit :=
  c ← get_st;
  ok ← send (SendPropose true (MkRequest (request req) (clientid c) (clientReqId req)));
  if (ok : bool) then store_req (req <| timer_active := true |>) else erase_req (clientReqId req).

(** The sizes are converted to [size_t]. *)
Definition InvokeConsensus (req_str : string) (decide : result_set_t → string) (has_error : bool) : MI unit :=
  reqId ← next_id;
  c ← get_st;
  let q := QuorumSize (ic_config c) in
  let req := MkPendingRequest req_str reqId false CallResendConsensus false (QuorumSet_new q)
               (Consensus (MkConsensusState (QuorumSet_new q) decide "" (u64 q) (u64 (FastQuorumSize (ic_config c)))
                             false has_error true 0 false)) in
  _ ← store_req req;
  SendConsensus req.

Definition InvokeUnlogged (replicaIdx : Z) (req_str : string) (has_error : bool) : MI unit :=
  reqId ← next_id;
  c ← get_st;
  ok ← send (SendUnlogged replicaIdx (MkRequest req_str (clientid c) reqId));
  when ok (store_req (MkPendingRequest req_str reqId false CallUnloggedTimeout true (QuorumSet_new 1) (Unlogged has_error))).

(** ** The finalize phase of a consensus request *)

(** The number of replies with each result, and the first view of a message that is not zero. *)
Definition count_replies (msgs : gmap Z ReplyConsensusMessage) : result_set_t :=
  foldl (λ m p, <[rc_result p.2 := default 0 (m !! rc_result p.2) + 1]> m) ∅ (merge_sort key_le (map_to_list msgs)).

Definition view_of (msgs : gmap Z ReplyConsensusMessage) : Z :=
  foldl (λ v p, if v =? 0 then rc_view p.2 else v) 0 (merge_sort key_le (map_to_list msgs)).

Definition HandleSlowPathConsensus (reqid : Z) (msgs : gmap Z ReplyConsensusMessage) (finalized_result_found : bool)
    (req : PendingRequest) (s : ConsensusState) : MI unit :=
  let s1 := if finalized_result_found then s
            else s <| decideResult := decide_fn s (count_replies msgs) |> <| reply_consensus_view := view_of msgs |> in
  c ← get_st;
  ok ← send (SendFinalizeConsensus (clientid c, reqid) (decideResult s1));
  if (ok : bool) then
    store_req (req <| timer := CallResendConfirmation true |> <| timer_active := true |>
                   <| kind := Consensus (s1 <| sent_confirms := true |>) |>)
  else erase_req reqid.

(** The first result, in the order of strings, with a super quorum. *)
Definition super_quorum_result (superQuorumSize : Z) (msgs : gmap Z ReplyConsensusMessage) : option string :=
  head ((λ p, p.1) <$> filter (λ p, superQuorumSize ≤ p.2)
    (merge_sort string_key_le (map_to_list (count_replies msgs)))).

(** When the finalize message cannot be sent, the request is deleted and then used. *)
Definition HandleFastPathConsensus (reqid : Z) (msgs : gmap Z ReplyConsensusMessage) (req : PendingRequest)
    (s : ConsensusState) : MI unit :=
  match super_quorum_result (superQuorumSize s) msgs with
  | Some result =>
      let s1 := s <| decideResult := result |> in
      c ← get_st;
      ok ← send (SendFinalizeConsensus (clientid c, reqid) result);
      if (ok : bool) then
        let req1 := req <| timer := CallResendConfirmation true |> <| timer_active := true |>
                        <| kind := Consensus (s1 <| sent_confirms := true |>) |> in
        if continuationInvoked req then store_req req1
        else
          _ ← invoke (Continue reqid (request req) result);
          store_req (req1 <| continuationInvoked := true |>)
      else _ ← erase_req reqid; undefined
  | None =>
      HandleSlowPathConsensus reqid msgs false req
        (s <| on_slow_path := true |> <| transition_to_slow_path_timer := false |>)
  end.

(** [CheckForQuorum()] over the views in order. *)
Definition TransitionToConsensusSlowPath (req : PendingRequest) (s : ConsensusState) : MI unit :=
  let s1 := s <| on_slow_path := true |> <| transition_to_slow_path_timer := false |> in
  match CheckForQuorum Z.le (consensusReplyQuorum s) with
  | Some msgs => HandleSlowPathConsensus (clientReqId req) msgs false req s1
  | None => store_req (req <| kind := Consensus s1 |>)
  end.

Definition ResendConfirmation (req : PendingRequest) (isConsensus : bool) : MI unit :=
  c ← get_st;
  if isConsensus then
    match kind req with
    | Consensus s =>
        ok ← send (SendFinalizeConsensus (clientid c, clientReqId req) (decideResult s));
        if (ok : bool) then store_req (req <| timer_active := true |>) else erase_req (clientReqId req)
    | _ => undefined
    end
  else
    ok ← send (SendFinalizeInconsistent (clientid c, clientReqId req));
    if (ok : bool) then store_req (req <| timer_active := true |>) else erase_req (clientReqId req).

(** ** Replies *)

(** When the finalize message cannot be sent, the new timer is not started. *)
Definition HandleInconsistentReply (view replicaIdx : Z) (opid : opid_t) (finalized : bool) : MI unit :=
  let reqId := opid.2 in
  c ← get_st;
  match pendingReqs c !! reqId with
  | None => mret tt
  | Some req =>
      match kind req with
      | Inconsistent q =>
          let '(quorum, q') := AddAndCheckForQuorum (MkViewstamp view reqId) (to_int replicaIdx) finalized q in
          let req1 := req <| kind := Inconsistent q' |> in
          match quorum with
          | None => store_req req1
          | Some _ =>
              if continuationInvoked req then store_req req1
              else
                ok ← send (SendFinalizeInconsistent opid);
                _ ← invoke (Continue reqId (request req) "");
                store_req (req1 <| timer := CallResendConfirmation false |> <| timer_active := ok |>
                                <| continuationInvoked := true |>)
          end
      | _ => undefined
      end
  end.

Definition HandleConsensusReply (msg : ReplyConsensusMessage) : MI unit :=
  let reqId := (rc_opid msg).2 in
  c ← get_st;
  match pendingReqs c !! reqId with
  | None => mret tt
  | Some req =>
      match kind req with
      | Consensus s =>
          if sent_confirms s then mret tt
          else
            let q := QuorumSet.Add (rc_view msg) (to_int (rc_replicaIdx msg)) msg (consensusReplyQuorum s) in
            let msgs := (GetMessages (rc_view msg) q).1 in
            let s1 := s <| consensusReplyQuorum := q |> in
            if rc_finalized msg then
              HandleSlowPathConsensus reqId msgs true req
                (s1 <| on_slow_path := true |> <| transition_to_slow_path_timer := false |>
                    <| decideResult := rc_result msg |> <| reply_consensus_view := rc_view msg |>)
            else if on_slow_path s && (quorumSize s <=? Z.of_nat (size msgs)) then
              HandleSlowPathConsensus reqId msgs false req s1
            else if negb (on_slow_path s) && (superQuorumSize s <=? Z.of_nat (size msgs)) then
              HandleFastPathConsensus reqId msgs req s1
            else store_req (req <| kind := Consensus s1 |>)
      | _ => undefined
      end
  end.

Definition HandleConfirm (view replicaIdx : Z) (opid : opid_t) : MI unit :=
  let reqId := opid.2 in
  c ← get_st;
  match pendingReqs c !! reqId with
  | None => mret tt
  | Some req =>
      let '(quorum, q) := AddAndCheckForQuorum (MkViewstamp view reqId) (to_int replicaIdx) tt (confirmQuorum req) in
      match quorum with
      | None => store_req (req <| confirmQuorum := q |>)
      | Some _ =>
          _ ← erase_req reqId;
          if continuationInvoked req then mret tt
          else
            match kind req with
            | Consensus s =>
                if view =? reply_consensus_view s then invoke (Continue reqId (request req) (decideResult s))
                else when (error_continuation s) (invoke (ContinueError reqId (request req) MISMATCHED_CONSENSUS_VIEWS))
            | _ => undefined
            end
      end
  end.

Definition HandleUnloggedReply (reply : string) (reqId : Z) : MI unit :=
  c ← get_st;
  match pendingReqs c !! reqId with
  | None => mret tt
  | Some req => _ ← erase_req reqId; invoke (Continue reqId (request req) reply)
  end.

(** The cast is unchecked. *)
Definition UnloggedRequestTimeoutCallback (reqId : Z) : MI unit :=
  c ← get_st;
  match pendingReqs c !! reqId with
  | None => mret tt
  | Some req =>
      match kind req with
      | Unlogged has_error =>
          _ ← erase_req reqId;
          when has_error (invoke (ContinueError reqId (request req) TIMEOUT))
      | _ => undefined
      end
  end.

(** ** Dispatch *)

Inductive ir_client_message :=
| InReplyInconsistent (view replicaIdx : Z) (opid : opid_t) (finalized : bool)
| InReplyConsensus (msg : ReplyConsensusMessage)
| InConfirm (view replicaIdx : Z) (opid : opid_t)
| InUnloggedReply (reply : string) (clientreqid : Z)
| InUnexpected.

Definition ReceiveMessage (m : ir_client_message) : MI unit :=
  match m with
  | InReplyInconsistent view i opid fin => HandleInconsistentReply view i opid fin
  | InReplyConsensus msg => HandleConsensusReply msg
  | InConfirm view i opid => HandleConfirm view i opid
  | InUnloggedReply reply reqId => HandleUnloggedReply reply reqId
  | InUnexpected => panic
  end.

(** The timer of a request fires, if it runs. *)
Definition fire_timer (reqId : Z) : MI unit :=
  c ← get_st;
  match pendingReqs c !! reqId with
  | Some req =>
      if timer_active req then
        match timer req with
        | CallResendInconsistent => SendInconsistent req
        | CallResendConsensus => SendConsensus req
        | CallUnloggedTimeout => UnloggedRequestTimeoutCallback reqId
        | CallResendConfirmation isConsensus => ResendConfirmation req isConsensus
        end
      else mret tt
  | None => mret tt
  end.

(** So does the timer of the fast path. *)
Definition fire_slow_timer (reqId : Z) : MI unit :=
  c ← get_st;
  match pendingReqs c !! reqId with
  | Some req =>
      match kind req with
      | Consensus s => when (transition_to_slow_path_timer s) (TransitionToConsensusSlowPath req s)
      | _ => mret tt
      end
  | None => mret tt
  end.

Inductive ir_client_event :=
| EvInvokeInconsistent (request : string)
| EvInvokeConsensus (request : string) (decide : result_set_t → string) (has_error : bool)
| EvInvokeUnlogged (replicaIdx : Z) (request : string) (has_error : bool)
| EvReceive (m : ir_client_message)
| EvFire (reqId : Z)
| EvFireSlow (reqId : Z).

Definition ir_client_handle (e : ir_client_event) : MI unit :=
  match e with
  | EvInvokeInconsistent request => InvokeInconsistent request
  | EvInvokeConsensus request decide has_error => InvokeConsensus request decide has_error
  | EvInvokeUnlogged i request has_error => InvokeUnlogged i request has_error
  | EvReceive m => ReceiveMessage m
  | EvFire reqId => fire_timer reqId
  | EvFireSlow reqId => fire_slow_timer reqId
  end.
End client.

(** ** What justifies an answer *)

Section support.
Context (cfg : Configuration).
Implicit Types (tr : list ir_client_event) (id v : Z) (x : string).

Definition is_invoke (e : ir_client_event) : Prop :=
  match e with EvInvokeInconsistent _ | EvInvokeConsensus _ _ _ | EvInvokeUnlogged _ _ _ => True | _ => False end.

#[global] Instance is_invoke_dec e : Decision (is_invoke e).
Proof. destruct e; simpl; apply _. Defined.

(** Requests are numbered from one in the order they are invoked. *)
Definition invocations tr : list ir_client_event := filter is_invoke tr.

Definition invocation tr id : option ir_client_event :=
  if id <=? 0 then None else invocations tr !! Z.to_nat (id - 1).

(** Replica [j] answered [x] in view [v]; replica [j] confirmed in view [v]. *)
Definition replied tr id j v (m : ReplyConsensusMessage) : Prop :=
  EvReceive (InReplyConsensus m) ∈ tr ∧ (rc_opid m).2 = id ∧ to_int (rc_replicaIdx m) = j ∧ rc_view m = v.

Definition confirmed tr id j v : Prop :=
  ∃ i opid, EvReceive (InConfirm v i opid) ∈ tr ∧ opid.2 = id ∧ to_int i = j.

(** The fast path: a super quorum of replicas answered [x] in one view. *)
Definition fast_answer tr id x : Prop :=
  ∃ v (Q : gset Z), FastQuorumSize cfg ≤ Z.of_nat (size Q) ∧
    ∀ j, j ∈ Q → ∃ m, replied tr id j v m ∧ rc_result m = x.

(** The slow path: [x] was finalized in view [v], or decided from the answers of a quorum in
    view [v]. *)
Definition slow_result tr id (dec : result_set_t → string) x v : Prop :=
  (∃ j m, replied tr id j v m ∧ rc_finalized m = true ∧ rc_result m = x) ∨
  (∃ msgs : gmap Z ReplyConsensusMessage, QuorumSize cfg ≤ Z.of_nat (size msgs) ∧
     (∀ j m, msgs !! j = Some m → replied tr id j v m) ∧ x = dec (count_replies msgs)).

Definition quorum_confirmed tr id v : Prop :=
  ∃ Q : gset Z, QuorumSize cfg ≤ Z.of_nat (size Q) ∧ ∀ j, j ∈ Q → confirmed tr id j v.

Definition slow_answer tr id (dec : result_set_t → string) x : Prop :=
  ∃ v, slow_result tr id dec x v ∧ quorum_confirmed tr id v.

(** Everything only grows with the events. *)
Lemma consensus_replied_mono tr e id j v m : replied tr id j v m → replied (tr ++ [e]) id j v m.
Proof. intros (? & ? & ? & ?). split_and!; set_solver. Qed.

Lemma confirmed_mono tr e id j v : confirmed tr id j v → confirmed (tr ++ [e]) id j v.
Proof. intros (i & o & ? & ? & ?). exists i, o. set_solver. Qed.

Lemma fast_answer_mono tr e id x : fast_answer tr id x → fast_answer (tr ++ [e]) id x.
Proof.
  intros (v & Q & HQ & Hall). exists v, Q. split; [done|]. intros j Hj. destruct (Hall j Hj) as (m & Hm & ?).
  exists m. split; [by apply consensus_replied_mono|done].
Qed.

Lemma slow_result_mono tr e id dec x v : slow_result tr id dec x v → slow_result (tr ++ [e]) id dec x v.
Proof.
  intros [(j & m & Hm & ? & ?)|(msgs & Hs & Hall & ?)].
  - left. exists j, m. split; [by apply consensus_replied_mono|done].
  - right. exists msgs. split_and!; [done| |done]. intros j m Hj. by apply consensus_replied_mono, Hall.
Qed.

Lemma slow_answer_mono tr e id dec x : slow_answer tr id dec x → slow_answer (tr ++ [e]) id dec x.
Proof.
  intros (v & Hr & Q & HQ & Hall). exists v. split; [by apply slow_result_mono|]. exists Q. split; [done|].
  intros j Hj. by apply confirmed_mono, Hall.
Qed.

Lemma invocation_app tr e id : id ≤ Z.of_nat (length (invocations tr)) → invocation (tr ++ [e]) id = invocation tr id.
Proof.
  intros Hid. unfold invocation. destruct (id <=? 0) eqn:Hz; [done|].
  unfold invocations in *. rewrite filter_app, lookup_app_l; [done|]. lia.
Qed.
End support.

(** ** The invariant of a client *)

Section invariant.
Context `{!Network} (cfg : Configuration) (Hf : 0 ≤ f cfg < 2 ^ 30).
Implicit Types (tr : list ir_client_event) (c : IRClient) (id : Z) (req : PendingRequest).

Definition finalize_sent c id : Prop :=
  ∃ o ok, o.2 = id ∧ ((SendFinalizeInconsistent o, ok) ∈ ic_sends c ∨ ∃ x, (SendFinalizeConsensus o x, ok) ∈ ic_sends c).

Definition replies_ok tr id (q : QuorumSet Z ReplyConsensusMessage) : Prop :=
  numRequired q = QuorumSize cfg ∧
  ∀ v j m, default ∅ (messages q !! v) !! j = Some m → replied tr id j v m.

Definition confirms_ok tr id (q : QuorumSet viewstamp_t unit) : Prop :=
  ∀ vs j, is_Some (default ∅ (messages q !! vs) !! j) → opnum vs = id → confirmed tr id j (QuorumSet.view vs).

(** A consensus request belongs to its invocation; until it has sent its confirmations nobody
    can have been asked to finalize it, and after that its result is justified. *)
Definition consensus_ok tr c id req (s : ConsensusState) : Prop :=
  (∃ has_error, invocation tr id = Some (EvInvokeConsensus (request req) (decide_fn s) has_error)) ∧
  quorumSize s = QuorumSize cfg ∧ superQuorumSize s = FastQuorumSize cfg ∧
  numRequired (confirmQuorum req) = QuorumSize cfg ∧ replies_ok tr id (consensusReplyQuorum s) ∧
  (if sent_confirms s
   then continuationInvoked req = true ∨ slow_result cfg tr id (decide_fn s) (decideResult s) (reply_consensus_view s)
   else ¬ finalize_sent c id ∧ continuationInvoked req = false).

Definition pend_ok tr c id req : Prop :=
  clientReqId req = id ∧ 1 ≤ id ≤ lastReqId c ∧ confirms_ok tr id (confirmQuorum req) ∧
  match kind req with
  | Unlogged _ => (∃ i h, invocation tr id = Some (EvInvokeUnlogged i (request req) h)) ∧ ¬ finalize_sent c id ∧
      continuationInvoked req = false ∧ ∀ b, timer req ≠ CallResendConfirmation b
  | Inconsistent _ => invocation tr id = Some (EvInvokeInconsistent (request req)) ∧
      timer req ≠ CallResendConfirmation true
  | Consensus s => consensus_ok tr c id req s ∧ ∀ b, timer req = CallResendConfirmation b → b = true ∧ sent_confirms s = true
  end.

Definition call_id (x : ir_call) : Z := match x with Continue id _ _ | ContinueError id _ _ => id end.

(** What a continuation of a consensus request may be called with. *)
Definition call_ok tr (x : ir_call) : Prop :=
  match x with
  | Continue id rq res => ∀ rq' dec h, invocation tr id = Some (EvInvokeConsensus rq' dec h) →
      rq = rq' ∧ (fast_answer cfg tr id res ∨ slow_answer cfg tr id dec res)
  | ContinueError _ _ _ => True
  end.

Definition answers id (l : list ir_call) : nat := length (filter (λ x, call_id x = id) l).

Record client_ok tr c : Prop := {
  ck_config : ic_config c = cfg;
  ck_last : lastReqId c = Z.of_nat (length (invocations tr)) ∧ lastReqId c < 2 ^ 64;
  ck_pending : ∀ id req, pendingReqs c !! id = Some req → pend_ok tr c id req;
  ck_calls : ∀ x, x ∈ calls c → call_ok tr x ∧ call_id x ≤ lastReqId c;
  ck_once : ∀ id, (answers id (calls c) ≤ 1)%nat;
  ck_open : ∀ id req, pendingReqs c !! id = Some req → continuationInvoked req = false → answers id (calls c) = 0%nat;
  ck_fin : ∀ id, finalize_sent c id → id ≤ lastReqId c
}.

Lemma call_answers_snoc id l x : answers id (l ++ [x]) = (answers id l + if decide (call_id x = id) then 1 else 0)%nat.
Proof. unfold answers. rewrite filter_app, length_app, filter_cons. by case_decide. Qed.

(** Another event that is not an invocation. *)
Lemma client_ok_event tr c e : ¬ is_invoke e → client_ok tr c → client_ok (tr ++ [e]) c.
Proof.
  intros He [Hc [Hl Hb] Hp Hcalls Ho Hop Hfin].
  assert (invocations (tr ++ [e]) = invocations tr) as Hinv.
  { unfold invocations. rewrite filter_app, filter_cons, decide_False by done. simpl. by rewrite app_nil_r. }
  assert (∀ id, invocation (tr ++ [e]) id = invocation tr id) as Hiv by (intros id; unfold invocation; by rewrite Hinv).
  split; try done; [by rewrite Hinv| |].
  - intros id req Hreq. destruct (Hp id req Hreq) as (Hid & Hr & Hconf & Hk). split_and!; [done|apply Hr|apply Hr| |].
    + intros vs j Hj Hvs. by apply confirmed_mono, Hconf.
    + destruct (kind req) as [|q|s]; rewrite ?Hiv; [done..|].
      destruct Hk as [(Hinvk & Hq & Hs & Hn & [Hrn Hrep] & Hconfs) Htm]. split; [|done].
      unfold consensus_ok. rewrite Hiv. split_and!; try done.
      * split; [done|]. intros v j m Hm. by apply consensus_replied_mono, Hrep.
      * case_match; [|done]. destruct Hconfs as [|Hsl]; [by left|right]. by apply slow_result_mono.
  - intros x Hx. destruct (Hcalls x Hx) as [Hok Hid]. split; [|done]. destruct x as [id rq res|]; [|done].
    intros rq' dec h. rewrite Hiv. intros Hi. destruct (Hok rq' dec h Hi) as [-> [Hfa|Hsl]]; split; try done.
    + left. by apply fast_answer_mono.
    + right. by apply slow_answer_mono.
Qed.

(** The call a step makes for request [id], if any. *)
Definition call_step tr id req (c c' : IRClient) : Prop :=
  calls c' = calls c ∨
  ∃ x, calls c' = calls c ++ [x] ∧ call_id x = id ∧ call_ok tr x ∧ continuationInvoked req = false.

(** Finalize messages concern [id] only. *)
Definition fin_step id (c c' : IRClient) : Prop := ∀ id', finalize_sent c' id' → id' = id ∨ finalize_sent c id'.

Lemma pend_ok_fin tr c c' id req :
  lastReqId c' = lastReqId c → (finalize_sent c' id → finalize_sent c id) → pend_ok tr c id req → pend_ok tr c' id req.
Proof.
  intros Hl Hfin (Hid & Hr & Hconf & Hk). split_and!; [done|rewrite ?Hl; apply Hr..|done|].
  destruct (kind req) as [|q|s]; [naive_solver|done|].
  destruct Hk as [(Hinv & Hq & Hs & Hn & Hrep & Hc) Htm]. split; [|done]. unfold consensus_ok. split_and!; try done.
  case_match; [done|]. naive_solver.
Qed.

Lemma client_ok_change tr c c' id req (new : option PendingRequest) :
  client_ok tr c → pendingReqs c !! id = Some req →
  ic_config c' = ic_config c → lastReqId c' = lastReqId c →
  pendingReqs c' = partial_alter (λ _, new) id (pendingReqs c) →
  fin_step id c c' → call_step tr id req c c' →
  (∀ req', new = Some req' → pend_ok tr c' id req' ∧
     (continuationInvoked req' = false → continuationInvoked req = false ∧ calls c' = calls c)) →
  client_ok tr c'.
Proof.
  intros [Hc Hl Hp Hcalls Ho Hop Hfin] Hreq Hc' Hl' Hpend Hfs Hcs Hnew.
  destruct (Hp id req Hreq) as (_ & Hrange & _).
  split; rewrite ?Hc', ?Hl'; [done|done|..].
  - intros id' req'. rewrite Hpend. destruct (decide (id' = id)) as [->|Hne].
    + rewrite lookup_partial_alter_eq. intros Hn. by apply Hnew.
    + rewrite lookup_partial_alter_ne by done. intros Hr'. apply (pend_ok_fin tr c); [done| |by apply Hp].
      intros Hf'. by destruct (Hfs id' Hf').
  - intros x Hx. destruct Hcs as [Heq|(y & Heq & Hy & Hok & _)]; rewrite Heq in Hx; [by apply Hcalls|].
    apply elem_of_app in Hx as [Hx|Hx%list_elem_of_singleton]; [by apply Hcalls|]. subst. split; [done|lia].
  - intros id'. destruct Hcs as [->|(y & -> & Hy & _ & Hni)]; [done|]. rewrite call_answers_snoc.
    specialize (Ho id'). case_decide; [|lia]. subst. rewrite (Hop _ req) by done. lia.
  - intros id' req'. rewrite Hpend. destruct (decide (id' = id)) as [->|Hne].
    + rewrite lookup_partial_alter_eq. intros Hn Hni. destruct (Hnew _ Hn) as [_ Hcl].
      destruct (Hcl Hni) as [Hni' Heq]. rewrite Heq. by eapply Hop.
    + rewrite lookup_partial_alter_ne by done. intros Hr' Hni. destruct Hcs as [->|(y & -> & Hy & _)]; [by eapply Hop|].
      rewrite call_answers_snoc, decide_False by congruence. rewrite (Hop id' req') by done. lia.
  - intros id' Hf'. destruct (Hfs id' Hf') as [->|Hf'']; [lia|by apply Hfin].
Qed.

Lemma finalize_sent_same c c' id : ic_sends c' = ic_sends c → finalize_sent c' id → finalize_sent c id.
Proof. intros Hs. unfold finalize_sent. by rewrite Hs. Qed.

(** One more message, of which [is_fin] says whether it finalizes. *)
Lemma finalize_sent_snoc c c' x ok id :
  ic_sends c' = ic_sends c ++ [(x, ok)] → finalize_sent c' id →
  finalize_sent c id ∨
  match x with SendFinalizeInconsistent o | SendFinalizeConsensus o _ => o.2 = id | _ => False end.
Proof.
  unfold finalize_sent. intros -> (o & ok' & Ho & Hin). destruct Hin as [Hin|[res Hin]];
    apply elem_of_app in Hin as [Hin|[= <- <-]%list_elem_of_singleton]; eauto 10.
Qed.

(** A message that is not about finalizing, and the request kept with its timer or dropped. *)
Lemma resend_ok tr c id req x :
  match x with SendFinalizeInconsistent _ | SendFinalizeConsensus _ _ => False | _ => True end →
  client_ok tr c → pendingReqs c !! id = Some req →
  wlp (ok ← send x; if (ok : bool) then store_req (req <| timer_active := true |>) else erase_req (clientReqId req))
    (λ _ c', client_ok tr c') c.
Proof.
  intros Hx Hc Hreq. pose proof (ck_pending _ _ Hc id req Hreq) as Hp. pose proof (proj1 Hp) as Hid. subst id.
  unfold send, store_req, erase_req. run.
  set (c1 := c <| ic_sends ::= _ |>).
  assert (∀ id', finalize_sent c1 id' → finalize_sent c id') as Hfin.
  { intros id' Hf'. destruct (finalize_sent_snoc c c1 x _ id' eq_refl Hf') as [?|Hbad]; [done|]. by destruct x. }
  destruct (send_ok _); unfold post, modify.
  - eapply (client_ok_change tr c _ (clientReqId req) req (Some (req <| timer_active := true |>))); try done; [by intros id' Hf'; right; apply Hfin|by left|].
    intros req' [= <-]. split; [|done]. apply (pend_ok_fin tr c); [done|apply Hfin|exact Hp].
  - eapply (client_ok_change tr c _ (clientReqId req) req None); try done; [by intros id' Hf'; right; apply Hfin|by left].
Qed.

Lemma ResendConfirmation_ok tr c id req b :
  client_ok tr c → pendingReqs c !! id = Some req → timer req = CallResendConfirmation b →
  wlp (ResendConfirmation req b) (λ _ c', client_ok tr c') c.
Proof.
  intros Hc Hreq Ht. destruct (ck_pending _ _ Hc id req Hreq) as (Hid & Hr & Hconf & Hk). subst id.
  assert (∀ x, match x with SendFinalizeInconsistent o | SendFinalizeConsensus o _ => o.2 = clientReqId req | _ => False end →
    match kind req with Unlogged _ => False | Inconsistent _ => True | Consensus s => sent_confirms s = true end →
    wlp (ok ← send x; if (ok : bool) then store_req (req <| timer_active := true |>) else erase_req (clientReqId req))
      (λ _ c', client_ok tr c') c) as Hgen.
  { intros x Hx Hkind. unfold send, store_req, erase_req. run. set (c1 := c <| ic_sends ::= _ |>).
    assert (fin_step (clientReqId req) c c1) as Hfin.
    { intros id' Hf'. destruct (finalize_sent_snoc c c1 x _ id' eq_refl Hf') as [?|Hbad]; [by right|]. left. destruct x; naive_solver. }
    destruct (send_ok _); unfold post, modify.
    - eapply (client_ok_change tr c _ (clientReqId req) req (Some (req <| timer_active := true |>))); try done; [by left|].
      intros req' [= <-]. split; [|done]. split_and!; [done|apply Hr|apply Hr|done|]. simpl.
      destruct (kind req) as [|q|s]; [done|done|]. destruct Hk as [(? & ? & ? & ? & ? & Hc1) ?]. split; [|done].
      unfold consensus_ok. simpl. rewrite Hkind in *. by split_and!.
    - eapply (client_ok_change tr c _ (clientReqId req) req None); try done. by left. }
  unfold ResendConfirmation. apply post_get. destruct b.
  - destruct (kind req) as [|q|s] eqn:Hkind; [done..|]. apply Hgen; [done|]. by destruct Hk as [_ Htm]; apply (Htm true).
  - apply Hgen; [done|]. destruct (kind req) as [|q|s]; [|done|].
    + by destruct Hk as (_ & _ & _ & Htm); destruct (Htm false).
    + destruct Hk as [_ Htm]. by destruct (Htm false Ht).
Qed.

(** ** Counting replies *)

Lemma length_filter_map (P : Z * ReplyConsensusMessage → Prop) `{!∀ p, Decision (P p)} (m : gmap Z ReplyConsensusMessage) :
  length (filter P (map_to_list m)) = size (filter P m).
Proof.
  induction m as [|k x m Hk IH] using map_ind.
  { by rewrite map_to_list_empty, map_filter_empty. }
  rewrite map_to_list_insert, filter_cons by done. case_decide as Hp.
  - rewrite map_filter_insert_True, map_size_insert_None by (done || by rewrite map_lookup_filter_None; left). simpl. by rewrite IH.
  - rewrite map_filter_insert_False, delete_id by done. done.
Qed.

Lemma count_replies_lookup (msgs : gmap Z ReplyConsensusMessage) x k :
  count_replies msgs !! x = Some k → k = Z.of_nat (size (filter (λ p, rc_result p.2 = x) msgs)).
Proof.
  intros Hk. unfold count_replies in Hk. set (l := merge_sort _ _) in Hk.
  assert (l ≡ₚ map_to_list msgs) as Hl by apply merge_sort_Permutation.
  assert (∀ l' : list (Z * ReplyConsensusMessage),
    default 0 (foldl (λ m p, <[rc_result p.2 := default 0 (m !! rc_result p.2) + 1]> m) (∅ : gmap string Z) l' !! x) =
    Z.of_nat (length (filter (λ p, rc_result p.2 = x) l'))) as Hcount.
  { induction l' as [|p l' IH] using rev_ind; [done|].
    rewrite foldl_app, filter_app, length_app. simpl. rewrite lookup_insert, filter_cons. case_decide; subst; simpl.
    - rewrite IH. lia.
    - rewrite IH. simpl. lia. }
  specialize (Hcount l). rewrite Hk in Hcount. simpl in Hcount. rewrite Hcount. f_equal.
  rewrite Hl. apply length_filter_map.
Qed.

Lemma view_of_common (msgs : gmap Z ReplyConsensusMessage) v :
  (∀ j m, msgs !! j = Some m → rc_view m = v) → (0 < size msgs)%nat → view_of msgs = v.
Proof.
  intros Hv Hs. unfold view_of. set (l := merge_sort _ _).
  assert (l ≡ₚ map_to_list msgs) as Hl by apply merge_sort_Permutation.
  assert (∀ p, p ∈ l → rc_view p.2 = v) as Hall.
  { intros [j m] Hp. rewrite Hl in Hp. apply elem_of_map_to_list in Hp. by apply Hv in Hp. }
  assert (length l = size msgs) as Hlen by (by rewrite Hl, length_map_to_list).
  assert (∀ l' a, (a = 0 ∨ a = v) → (∀ p, p ∈ l' → rc_view p.2 = v) →
    foldl (λ v (p : Z * ReplyConsensusMessage), if v =? 0 then rc_view p.2 else v) a l' = match l' with [] => a | _ => v end) as Hgen.
  { induction l' as [|p l' IH]; intros a Ha Hl'; [done|]. simpl.
    assert ((if a =? 0 then rc_view p.2 else a) = v) as -> by (rewrite (Hl' p) by set_solver; destruct (a =? 0) eqn:Ez; [done|destruct Ha; [lia|done]]).
    rewrite IH by set_solver. by destruct l'. }
  rewrite Hgen; [|by left|done]. destruct l; [simpl in Hlen; lia|done].
Qed.

(** A result with a super quorum of replies in one view. *)
Lemma super_quorum_answer tr id v (msgs : gmap Z ReplyConsensusMessage) x :
  (∀ j m, msgs !! j = Some m → replied tr id j v m) →
  super_quorum_result (FastQuorumSize cfg) msgs = Some x → fast_answer cfg tr id x.
Proof.
  intros Hall Hx. unfold super_quorum_result in Hx. set (l := merge_sort _ _) in Hx.
  assert (l ≡ₚ map_to_list (count_replies msgs)) as Hl by apply merge_sort_Permutation.
  destruct (filter _ l) as [|[y k] l'] eqn:Hfl; [done|]. injection Hx as ->.
  assert ((x, k) ∈ filter (λ p, FastQuorumSize cfg ≤ p.2) l) as [Hk Hin]%list_elem_of_filter by (rewrite Hfl; set_solver).
  simpl in Hk. rewrite Hl in Hin. apply elem_of_map_to_list, count_replies_lookup in Hin.
  exists v, (dom (filter (λ p, rc_result p.2 = x) msgs)). split; [rewrite size_dom; lia|].
  intros j [m Hm]%elem_of_dom. apply map_lookup_filter_Some in Hm as [Hm Hr]. exists m. split; [by apply Hall|done].
Qed.

(** ** The finalize phase *)

(** The state of a request in the finalize phase. *)
Lemma finalizing_ok tr c c' id req s :
  pend_ok tr c id req → kind req = Consensus s → lastReqId c' = lastReqId c →
  ∀ s' ci, decide_fn s' = decide_fn s → quorumSize s' = quorumSize s → superQuorumSize s' = superQuorumSize s →
  replies_ok tr id (consensusReplyQuorum s') → sent_confirms s' = true →
  (ci = true ∨ slow_result cfg tr id (decide_fn s) (decideResult s') (reply_consensus_view s')) →
  pend_ok tr c' id (MkPendingRequest (request req) (clientReqId req) ci (CallResendConfirmation true) true
                      (confirmQuorum req) (Consensus s')).
Proof.
  intros (Hid & Hr & Hconf & Hk) Hkind Hl s' ci Hd Hq Hsq Hrep Hsent Hor. rewrite Hkind in Hk.
  destruct Hk as [((h & Hinv) & Hq0 & Hs0 & Hn & _ & _) _].
  split_and!; [done|rewrite ?Hl; apply Hr..|done|]. simpl. split; [|naive_solver].
  unfold consensus_ok. simpl. rewrite Hsent, Hd, Hq, Hsq. split_and!; try done. by exists h.
Qed.

Lemma HandleSlowPathConsensus_ok tr c id req s msgs (fin : bool) s1 :
  client_ok tr c → pendingReqs c !! id = Some req → kind req = Consensus s →
  decide_fn s1 = decide_fn s → quorumSize s1 = quorumSize s → superQuorumSize s1 = superQuorumSize s →
  replies_ok tr id (consensusReplyQuorum s1) →
  (if fin then slow_result cfg tr id (decide_fn s) (decideResult s1) (reply_consensus_view s1)
   else ∃ v, QuorumSize cfg ≤ Z.of_nat (size msgs) ∧ ∀ j m, msgs !! j = Some m → replied tr id j v m) →
  wlp (HandleSlowPathConsensus id msgs fin req s1) (λ _ c', client_ok tr c') c.
Proof.
  intros Hc Hreq Hkind Hd Hq Hsq Hrep Hjust. pose proof (ck_pending _ _ Hc id req Hreq) as Hp.
  assert (clientReqId req = id) as Hid by apply Hp. subst id.
  unfold HandleSlowPathConsensus. set (s2 := if fin then s1 else _).
  assert (decide_fn s2 = decide_fn s ∧ quorumSize s2 = quorumSize s ∧ superQuorumSize s2 = superQuorumSize s ∧
    consensusReplyQuorum s2 = consensusReplyQuorum s1 ∧
    slow_result cfg tr (clientReqId req) (decide_fn s) (decideResult s2) (reply_consensus_view s2)) as (Hd2 & Hq2 & Hsq2 & Hr2 & Hsl).
  { unfold s2. destruct fin; [done|]. split_and!; try done. simpl. destruct Hjust as (v & Hsz & Hall).
    rewrite (view_of_common msgs v), Hd.
    - right. by exists msgs.
    - intros j m Hm. by apply Hall in Hm as (_ & _ & _ & ?).
    - unfold QuorumSize in Hsz. lia. }
  apply post_get. unfold send, store_req, erase_req. run. set (x := SendFinalizeConsensus _ _).
  set (c1 := c <| ic_sends ::= _ |>).
  assert (fin_step (clientReqId req) c c1) as Hfin.
  { intros id' Hf'. destruct (finalize_sent_snoc c c1 x _ id' eq_refl Hf') as [?|Hbad]; [by right|by left]. }
  destruct (send_ok _); unfold post, modify.
  - eapply (client_ok_change tr c _ (clientReqId req) req (Some _)); [done|done|done|done|reflexivity|done|by left|].
    intros req' [= <-]. split.
    + eapply (finalizing_ok tr c _ _ req s Hp Hkind); simpl; [done..| |done|by right]. by rewrite Hr2.
    + simpl. intros Hci. done.
  - eapply (client_ok_change tr c _ (clientReqId req) req None); try done. by left.
Qed.

Lemma HandleFastPathConsensus_ok tr c id req s msgs s1 v :
  client_ok tr c → pendingReqs c !! id = Some req → kind req = Consensus s → continuationInvoked req = false →
  decide_fn s1 = decide_fn s → quorumSize s1 = quorumSize s → superQuorumSize s1 = superQuorumSize s →
  replies_ok tr id (consensusReplyQuorum s1) →
  FastQuorumSize cfg ≤ Z.of_nat (size msgs) → (∀ j m, msgs !! j = Some m → replied tr id j v m) →
  wlp (HandleFastPathConsensus id msgs req s1) (λ _ c', client_ok tr c') c.
Proof.
  intros Hc Hreq Hkind Hni Hd Hq Hsq Hrep Hsz Hall. pose proof (ck_pending _ _ Hc id req Hreq) as Hp.
  assert (clientReqId req = id) as Hid by apply Hp. subst id.
  assert (superQuorumSize s = FastQuorumSize cfg ∧ ∃ h, invocation tr (clientReqId req) =
    Some (EvInvokeConsensus (request req) (decide_fn s) h)) as [Hfast [h Hinv]].
  { destruct Hp as (_ & _ & _ & Hk). rewrite Hkind in Hk. destruct Hk as [(Hi & _ & Hs & _) _]. by split. }
  unfold HandleFastPathConsensus. rewrite Hsq, Hfast.
  destruct (super_quorum_result _ msgs) as [x|] eqn:Hx.
  - pose proof (super_quorum_answer _ _ _ _ _ Hall Hx) as Hans.
    apply post_get. unfold send. run. set (y := SendFinalizeConsensus _ _). set (c1 := c <| ic_sends ::= _ |>).
    destruct (send_ok _); [|done]. rewrite Hni. unfold invoke. run. unfold store_req, post, modify.
    eapply (client_ok_change tr c _ (clientReqId req) req (Some _)); [done|done|done|done|reflexivity| | |].
    + intros id' Hf'. destruct (finalize_sent_snoc c c1 y true id' eq_refl Hf') as [?|Hbad]; [by right|by left].
    + right. exists (Continue (clientReqId req) (request req) x). split_and!; [done|done| |done].
      intros rq' dec h'. rewrite Hinv. intros [= <- <- _]. split; [done|by left].
    + intros req' [= <-]. split; [|done].
      eapply (finalizing_ok tr c _ _ req s Hp Hkind); simpl; [done..|by left].
  - eapply HandleSlowPathConsensus_ok; [done..|]. exists v. split; [|done].
    unfold FastQuorumSize, QuorumSize in *. rewrite Z.quot_div_nonneg in Hsz by lia. Z.to_euclidean_division_equations. lia.
Qed.

Lemma Add_replies_ok tr id m q :
  EvReceive (InReplyConsensus m) ∈ tr → (rc_opid m).2 = id → replies_ok tr id q →
  replies_ok tr id (QuorumSet.Add (rc_view m) (to_int (rc_replicaIdx m)) m q).
Proof.
  intros Hm Hid [Hn Hq]. split; [done|]. intros v j m'. rewrite Add_messages. case_decide as Hv; [|by apply Hq].
  intros [[<- <-]|[_ Hj]]%lookup_insert_Some; [by split_and!|]. rewrite <- Hv. by apply Hq.
Qed.

Lemma HandleConsensusReply_ok tr c m :
  client_ok tr c → EvReceive (InReplyConsensus m) ∈ tr → wlp (HandleConsensusReply m) (λ _ c', client_ok tr c') c.
Proof.
  intros Hc Hm. unfold HandleConsensusReply. apply post_get. destruct (pendingReqs c !! _) as [req|] eqn:Hreq; [|done].
  destruct (kind req) as [|q|s] eqn:Hkind; [done..|]. destruct (sent_confirms s) eqn:Hsent; [done|].
  pose proof (ck_pending _ _ Hc _ req Hreq) as Hp. destruct Hp as (Hid & Hr & Hconf & Hk). rewrite Hkind in Hk.
  destruct Hk as [(Hinv & Hq & Hsq & Hn & Hrep & Hfs) Htm]. rewrite Hsent in Hfs. destruct Hfs as [Hfs Hni].
  set (q1 := QuorumSet.Add _ _ _ _). assert (replies_ok tr (rc_opid m).2 q1) as Hrep1 by (by apply Add_replies_ok).
  set (msgs := (GetMessages (rc_view m) q1).1).
  assert (∀ j m', msgs !! j = Some m' → replied tr (rc_opid m).2 j (rc_view m) m') as Hall.
  { intros j m' Hj. apply Hrep1. apply Hj. }
  destruct (rc_finalized m) eqn:Hfin.
  - eapply HandleSlowPathConsensus_ok; [done..|]. left. exists (to_int (rc_replicaIdx m)), m. by split_and!.
  - destruct (on_slow_path s && _) eqn:Hslow.
    + eapply HandleSlowPathConsensus_ok; [done..|]. exists (rc_view m). split; [|done].
      apply andb_true_iff in Hslow as [_ Hle]. rewrite Hq in Hle. lia.
    + destruct (negb (on_slow_path s) && _) eqn:Hfst.
      * apply andb_true_iff in Hfst as [_ Hle]. rewrite Hsq in Hle.
        eapply HandleFastPathConsensus_ok; try done. lia.
      * unfold store_req, post, modify. eapply (client_ok_change tr c _ (rc_opid m).2 req (Some _));
          [done|done|done|done|simpl; by rewrite Hid|by intros id' Hf'; right|by left|].
        intros req' [= <-]. split; [|done]. split_and!; [done|apply Hr|apply Hr|done|]. simpl. split; [|naive_solver].
        unfold consensus_ok. simpl. rewrite Hsent. by split_and!.
Qed.

Lemma first_quorum_spec {A} ids (q : QuorumSet Z A) msgs :
  first_quorum ids q = Some msgs →
  ∃ v, msgs = default ∅ (messages q !! v) ∧ numRequired q ≤ Z.of_nat (size msgs).
Proof.
  induction ids as [|v ids IH]; simpl; [done|]. destruct (Z.of_nat _ >=? numRequired q) eqn:Hs; [|done].
  intros [= <-]. exists v. split; [done|lia].
Qed.

Lemma TransitionToConsensusSlowPath_ok tr c id req s :
  client_ok tr c → pendingReqs c !! id = Some req → kind req = Consensus s →
  wlp (TransitionToConsensusSlowPath req s) (λ _ c', client_ok tr c') c.
Proof.
  intros Hc Hreq Hkind. pose proof (ck_pending _ _ Hc _ req Hreq) as Hp.
  assert (clientReqId req = id) as Hid by apply Hp. subst id.
  destruct Hp as (_ & Hr & Hconf & Hk). rewrite Hkind in Hk.
  destruct Hk as [(Hinv & Hq & Hsq & Hn & [Hrn Hrep] & Hfs) Htm].
  unfold TransitionToConsensusSlowPath. destruct (CheckForQuorum _ _) as [msgs|] eqn:Hcq.
  - apply first_quorum_spec in Hcq as (v & -> & Hsz). rewrite Hrn in Hsz.
    eapply HandleSlowPathConsensus_ok; [done..|]. exists v. split; [done|]. intros j m. apply Hrep.
  - unfold store_req, post, modify. eapply (client_ok_change tr c _ (clientReqId req) req (Some _));
      [done|done|done|done|reflexivity|by intros id' Hf'; right|by left|].
    intros req' [= <-]. split; [|done]. split_and!; [done|apply Hr|apply Hr|done|]. simpl. split; [|done].
    unfold consensus_ok. simpl. by split_and!.
Qed.

Lemma HandleInconsistentReply_ok tr c v i o fin :
  client_ok tr c → wlp (HandleInconsistentReply v i o fin) (λ _ c', client_ok tr c') c.
Proof.
  intros Hc. unfold HandleInconsistentReply. apply post_get. destruct (pendingReqs c !! _) as [req|] eqn:Hreq; [|done].
  destruct (kind req) as [|q|s] eqn:Hkind; [done| |done].
  pose proof (ck_pending _ _ Hc _ req Hreq) as (Hid & Hr & Hconf & Hk). rewrite Hkind in Hk. destruct Hk as [Hinv Htm].
  destruct (AddAndCheckForQuorum _ _ _ _) as [quorum q'].
  assert (∀ c', lastReqId c' = lastReqId c → ∀ t a b, t ≠ CallResendConfirmation true →
    pend_ok tr c' o.2 (MkPendingRequest (request req) (clientReqId req) a t b (confirmQuorum req) (Inconsistent q'))) as Hpend.
  { intros c' Hl' t a b Ht. split_and!; [done|rewrite ?Hl'; apply Hr..|done|]. by split. }
  assert (wlp (store_req (req <| kind := Inconsistent q' |>)) (λ _ c', client_ok tr c') c) as Hstore.
  { unfold store_req, post, modify. eapply (client_ok_change tr c _ o.2 req (Some _));
      [done|done|done|done|simpl; rewrite Hid; reflexivity|by intros id' Hf'; right|by left|].
    intros req' [= <-]. split; [|done]. rewrite <- Hid at 2. by apply Hpend. }
  destruct quorum as [msgs|]; [|done]. destruct (continuationInvoked req) eqn:Hci; [done|].
  unfold send, invoke. do 2 run. set (c1 := c <| ic_sends ::= _ |>). unfold store_req, post, modify.
  eapply (client_ok_change tr c _ o.2 req (Some _)); [done|done|done|done|simpl; rewrite Hid; reflexivity| | |].
  - intros id' Hf'. destruct (finalize_sent_snoc c c1 (SendFinalizeInconsistent o) _ id' eq_refl Hf') as [?|Hbad]; [by right|by left].
  - right. exists (Continue o.2 (request req) ""). split_and!; [done|done| |done]. intros rq' dec h. by rewrite Hinv.
  - intros req' [= <-]. split; [|done]. rewrite <- Hid at 2. by apply Hpend.
Qed.

Lemma AddAndCheck_confirm tr id v i o q quorum q' :
  EvReceive (InConfirm v i o) ∈ tr → o.2 = id → confirms_ok tr id q →
  AddAndCheckForQuorum (MkViewstamp v id) (to_int i) tt q = (quorum, q') →
  numRequired q' = numRequired q ∧ confirms_ok tr id q' ∧
  ∀ msgs, quorum = Some msgs → numRequired q ≤ Z.of_nat (size msgs) ∧ ∀ j, is_Some (msgs !! j) → confirmed tr id j v.
Proof.
  intros Hm Ho Hq Hadd. assert (q' = QuorumSet.Add (MkViewstamp v id) (to_int i) tt q) as Hq'.
  { unfold QuorumSet.Add. by rewrite Hadd. }
  assert (confirms_ok tr id q') as Hok.
  { intros vs j. rewrite Hq', Add_messages. case_decide as Hvs; [|by apply Hq].
    subst vs. simpl. intros [u Hj] _. apply lookup_insert_Some in Hj as [[<- _]|[_ Hj]]; [by exists i, o|].
    apply (Hq (MkViewstamp v id) j); [by eexists|done]. }
  split_and!; [by rewrite Hq'|done|]. intros msgs ->.
  unfold AddAndCheckForQuorum, CheckForQuorum_at in Hadd. simpl in Hadd. rewrite lookup_insert_eq in Hadd. simpl in Hadd.
  injection Hadd as Hms Hq''. destruct (_ >=? _) eqn:Hs; [|done]. injection Hms as <-. split; [lia|].
  intros j Hj. apply (Hok (MkViewstamp v id)); [|done]. rewrite <- Hq''. simpl. by rewrite lookup_insert_eq.
Qed.

Lemma HandleConfirm_ok tr c v i o :
  client_ok tr c → EvReceive (InConfirm v i o) ∈ tr → finalize_sent c o.2 →
  wlp (HandleConfirm v i o) (λ _ c', client_ok tr c') c.
Proof.
  intros Hc Hm Hfin. unfold HandleConfirm. apply post_get. destruct (pendingReqs c !! _) as [req|] eqn:Hreq; [|done].
  pose proof (ck_pending _ _ Hc _ req Hreq) as (Hid & Hr & Hconf & Hk).
  destruct (AddAndCheckForQuorum _ _ _ _) as [quorum q'] eqn:Hadd.
  destruct (AddAndCheck_confirm tr o.2 v i o _ _ _ Hm eq_refl Hconf Hadd) as (Hnum & Hconf' & Hquorum).
  destruct quorum as [msgs|].
  - destruct (Hquorum msgs eq_refl) as [Hsz Hall]. unfold erase_req. run. set (c1 := c <| pendingReqs ::= _ |>).
    assert (client_ok tr c1) as Hc1.
    { eapply (client_ok_change tr c c1 o.2 req None); try done; [by intros id' Hf'; right|by left]. }
    destruct (continuationInvoked req) eqn:Hci; [done|]. destruct (kind req) as [|q|s] eqn:Hkind; [done..|].
    destruct Hk as [((h & Hinv) & Hq & Hsq & Hn & Hrep & Hsent) Htm].
    destruct (sent_confirms s); [|by destruct Hsent]. destruct Hsent as [?|Hslow]; [congruence|].
    assert (∀ x, call_ok tr x → call_id x = o.2 → wlp (invoke x) (λ _ c', client_ok tr c') c1) as Hcall.
    { intros x Hx Hxid. unfold invoke, post, modify. eapply (client_ok_change tr c _ o.2 req None); try done.
      - by intros id' Hf'; right.
      - right. by exists x. }
    destruct (v =? reply_consensus_view s) eqn:Hv.
    + apply Hcall; [|done]. intros rq' dec h'. rewrite Hinv. intros [= <- <- _]. split; [done|right].
      exists v. replace v with (reply_consensus_view s) at 1 by lia. split; [done|].
      exists (dom msgs). rewrite size_dom, <- Hn. split; [done|]. intros j Hj%elem_of_dom. by apply Hall.
    + destruct (error_continuation s); simpl; [by apply Hcall|done].
  - unfold store_req, post, modify. eapply (client_ok_change tr c _ o.2 req (Some _));
      [done|done|done|done|simpl; rewrite Hid; reflexivity|by intros id' Hf'; right|by left|].
    intros req' [= <-]. split; [|done]. split_and!; [done|apply Hr|apply Hr|done|]. simpl.
    destruct (kind req) as [|q|s]; [done..|]. destruct Hk as [(Hinv & Hq & Hsq & Hn & Hrep & Hsent) Htm]. split; [|done].
    unfold consensus_ok. simpl. rewrite Hnum. by split_and!.
Qed.

Lemma HandleUnloggedReply_ok tr c reply id :
  client_ok tr c → (∃ i rq h, invocation tr id = Some (EvInvokeUnlogged i rq h)) →
  wlp (HandleUnloggedReply reply id) (λ _ c', client_ok tr c') c.
Proof.
  intros Hc (i & rq & h & Hinv). unfold HandleUnloggedReply. apply post_get.
  destruct (pendingReqs c !! id) as [req|] eqn:Hreq; [|done].
  pose proof (ck_pending _ _ Hc _ req Hreq) as (Hid & Hr & Hconf & Hk).
  unfold erase_req. run. unfold invoke, post, modify.
  eapply (client_ok_change tr c _ id req None); try done; [by intros id' Hf'; right|]. right.
  exists (Continue id (request req) reply). split_and!; [done|done|intros rq' dec h'; by rewrite Hinv|].
  destruct (kind req); [by destruct Hk as (_ & _ & ? & _)|by destruct Hk as [Hk _]; rewrite Hinv in Hk|].
  destruct Hk as [((h' & Hk) & _) _]. by rewrite Hinv in Hk.
Qed.

Lemma UnloggedRequestTimeoutCallback_ok tr c id :
  client_ok tr c → wlp (UnloggedRequestTimeoutCallback id) (λ _ c', client_ok tr c') c.
Proof.
  intros Hc. unfold UnloggedRequestTimeoutCallback. apply post_get.
  destruct (pendingReqs c !! id) as [req|] eqn:Hreq; [|done].
  pose proof (ck_pending _ _ Hc _ req Hreq) as (Hid & Hr & Hconf & Hk). destruct (kind req) as [h| |]; [|done..].
  unfold erase_req. run. destruct h; unfold invoke, post, modify; simpl;
    (eapply (client_ok_change tr c _ id req None); try done; [by intros id' Hf'; right|]).
  - right. exists (ContinueError id (request req) TIMEOUT). split_and!; try done. apply Hk.
  - by left.
Qed.

(** ** A new request *)

(** The invocation is recorded under the next number. *)
Lemma invocation_last tr e :
  is_invoke e → invocation (tr ++ [e]) (Z.of_nat (length (invocations tr)) + 1) = Some e ∧
  length (invocations (tr ++ [e])) = (length (invocations tr) + 1)%nat.
Proof.
  intros He. unfold invocation. assert (invocations (tr ++ [e]) = invocations tr ++ [e]) as ->.
  { unfold invocations. by rewrite filter_app, filter_cons, decide_True. }
  set (l := invocations tr). split; [|by rewrite length_app].
  rewrite (proj2 (Z.leb_gt _ _)) by lia. apply list_lookup_middle. lia.
Qed.

(** A state with the next number and the new request, or none. *)
Lemma client_ok_invoke tr c c' e (new : option PendingRequest) :
  is_invoke e → client_ok tr c → lastReqId c + 1 < 2 ^ 64 →
  ic_config c' = ic_config c → lastReqId c' = lastReqId c + 1 → calls c' = calls c →
  pendingReqs c' = partial_alter (λ _, new) (lastReqId c + 1) (pendingReqs c) →
  (∀ id, finalize_sent c' id → finalize_sent c id) →
  (∀ req, new = Some req → pend_ok (tr ++ [e]) c' (lastReqId c + 1) req ∧ continuationInvoked req = false) →
  client_ok (tr ++ [e]) c'.
Proof.
  intros He [Hc [Hl Hb] Hp Hcalls Ho Hop Hfin] Hlt Hc' Hl' Hca Hpend Hfs Hnew.
  destruct (invocation_last tr e He) as [Hinv Hlen].
  assert (∀ id, id ≤ lastReqId c → invocation (tr ++ [e]) id = invocation tr id) as Hiv.
  { intros id Hid. apply invocation_app. lia. }
  assert (∀ id, lastReqId c < id → answers id (calls c) = 0%nat) as Hnone.
  { intros id Hid. unfold answers. apply length_zero_iff_nil.
    destruct (filter _ (calls c)) as [|x l] eqn:Hf'; [done|]. exfalso.
    assert (x ∈ filter (λ x, call_id x = id) (calls c)) as [Hx Hin]%list_elem_of_filter by (rewrite Hf'; set_solver).
    destruct (Hcalls x Hin) as [_ Hle]. lia. }
  split; rewrite ?Hc', ?Hl', ?Hca; [done| | | |done| |].
  - rewrite Hlen. lia.
  - intros id req. rewrite Hpend. destruct (decide (id = lastReqId c + 1)) as [->|Hne].
    + rewrite lookup_partial_alter_eq. intros Hn. by apply Hnew.
    + rewrite lookup_partial_alter_ne by done. intros Hreq.
      destruct (Hp id req Hreq) as (Hid & Hr & Hconf & Hk). split_and!; [done|lia|lia| |].
      * intros vs j Hj Hvs. by apply confirmed_mono, Hconf.
      * destruct (kind req) as [|q|s]; rewrite ?Hiv by lia; [naive_solver|done|].
        destruct Hk as [(Hinvk & Hq & Hs & Hn & [Hrn Hrep] & Hconfs) Htm]. split; [|done].
        unfold consensus_ok. rewrite Hiv by lia. split_and!; try done.
        -- split; [done|]. intros v j m Hm. by apply consensus_replied_mono, Hrep.
        -- case_match; [|naive_solver]. destruct Hconfs as [|Hsl]; [by left|right]. by apply slow_result_mono.
  - intros x Hx. destruct (Hcalls x Hx) as [Hok Hid]. split; [|lia]. destruct x as [id rq res|]; [|done].
    intros rq' dec h. simpl in Hid. rewrite Hiv by lia. intros Hi. destruct (Hok rq' dec h Hi) as [-> [Hfa|Hsl]]; split; try done.
    + left. by apply fast_answer_mono.
    + right. by apply slow_answer_mono.
  - intros id req. rewrite Hpend. destruct (decide (id = lastReqId c + 1)) as [->|Hne].
    + intros _ _. apply Hnone. lia.
    + rewrite lookup_partial_alter_ne by done. apply Hop.
  - intros id Hf'. apply Hfs, Hfin in Hf'. lia.
Qed.

Lemma confirms_ok_new tr id n : confirms_ok tr id (QuorumSet_new n).
Proof. intros vs j [u Hj] _. simpl in Hj. by rewrite lookup_empty in Hj. Qed.

Lemma replies_ok_new tr id : replies_ok tr id (QuorumSet_new (QuorumSize cfg)).
Proof. split; [done|]. intros v j m Hj. simpl in Hj. by rewrite lookup_empty in Hj. Qed.

(** The common end of the three invocations: the request is stored, the message is sent, and the
    request is kept with its timer running or dropped. *)
Lemma invoke_ok tr c e req x :
  is_invoke e → client_ok tr c → lastReqId c + 1 < 2 ^ 64 →
  match x with SendFinalizeInconsistent _ | SendFinalizeConsensus _ _ => False | _ => True end →
  clientReqId req = lastReqId c + 1 → continuationInvoked req = false →
  (∀ c', lastReqId c' = lastReqId c + 1 → ¬ finalize_sent c' (lastReqId c + 1) →
     pend_ok (tr ++ [e]) c' (lastReqId c + 1) (req <| timer_active := true |>)) →
  ∀ c1, ic_config c1 = ic_config c → lastReqId c1 = lastReqId c + 1 → calls c1 = calls c → ic_sends c1 = ic_sends c →
  (∃ y, pendingReqs c1 = partial_alter (λ _, y) (lastReqId c + 1) (pendingReqs c)) →
  wlp (ok ← send x; if (ok : bool) then store_req (req <| timer_active := true |>) else erase_req (clientReqId req))
    (λ _ c', client_ok (tr ++ [e]) c') c1.
Proof.
  intros He Hc Hb Hx Hid Hci Hpend c1 Hc1 Hl1 Hca1 Hs1 [y Hp1]. unfold send, store_req, erase_req. run. set (c2 := c1 <| ic_sends ::= _ |>).
  assert (∀ c3, ic_sends c3 = ic_sends c2 → ∀ id, finalize_sent c3 id → finalize_sent c id) as Hfs.
  { intros c3 Hs3 id Hf'. eapply finalize_sent_same in Hf'; [|exact Hs3].
    destruct (finalize_sent_snoc c1 c2 x _ id eq_refl Hf') as [Hf''|Hbad]; [by eapply finalize_sent_same|by destruct x]. }
  assert (¬ finalize_sent c (lastReqId c + 1)) as Hno.
  { intros Hf'. pose proof (ck_fin _ _ Hc _ Hf'). lia. }
  destruct (send_ok _); unfold post, modify.
  - eapply (client_ok_invoke tr c _ e (Some (req <| timer_active := true |>))); try done.
    + simpl. rewrite Hp1, Hid. apply partial_alter_partial_alter_eq.
    + by apply Hfs.
    + intros req' [= <-]. split; [|done]. apply Hpend; [done|]. intros Hf'. apply Hno. by eapply Hfs.
  - eapply (client_ok_invoke tr c _ e None); try done.
    + simpl. rewrite Hp1, Hid. apply partial_alter_partial_alter_eq.
    + by apply Hfs.
Qed.

Lemma QuorumSize_u64 : u64 (QuorumSize cfg) = QuorumSize cfg.
Proof. apply u64_small. unfold is_u64, u64_modulus, QuorumSize. lia. Qed.

Lemma FastQuorumSize_u64 : u64 (FastQuorumSize cfg) = FastQuorumSize cfg.
Proof.
  apply u64_small. unfold is_u64, u64_modulus, FastQuorumSize. rewrite Z.quot_div_nonneg by lia.
  Z.to_euclidean_division_equations. lia.
Qed.

(** The three invocations. *)
Lemma invocation_ok tr c e :
  is_invoke e → client_ok tr c → lastReqId c + 1 < 2 ^ 64 →
  wlp (ir_client_handle e) (λ _ c', client_ok (tr ++ [e]) c') c.
Proof.
  intros He Hc Hb. pose proof (ck_config _ _ Hc) as Hcfg. pose proof (ck_last _ _ Hc) as [Hlast _].
  destruct (invocation_last tr e He) as [Hinv _]. rewrite <- Hlast in Hinv.
  assert (u64_incr (lastReqId c) = lastReqId c + 1) as Hn by (apply u64_incr_small; lia).
  destruct e as [rq|rq dec h|i rq h| | |]; try done; unfold ir_client_handle.
  - unfold InvokeInconsistent, SendInconsistent, next_id. do 2 run. apply post_get. cbv zeta.
    set (req := MkPendingRequest _ _ _ _ _ _ _). run. apply post_get.
    eapply (invoke_ok tr c (EvInvokeInconsistent rq) req); [done|exact Hc|done|done|exact Hn|done| |done|exact Hn|done|done|].
    + intros c' Hl' Hno. split_and!; [exact Hn|lia|lia|apply confirms_ok_new|]. by split.
    + eexists. simpl. by rewrite Hn.
  - unfold InvokeConsensus, SendConsensus, next_id. do 2 run. apply post_get. cbv zeta.
    set (req := MkPendingRequest _ _ _ _ _ _ _). run. apply post_get.
    eapply (invoke_ok tr c (EvInvokeConsensus rq dec h) req); [done|exact Hc|done|done|exact Hn|done| |done|exact Hn|done|done|].
    + intros c' Hl' Hno. split_and!; [exact Hn|lia|lia|apply confirms_ok_new|]. split; [|done].
      unfold consensus_ok. simpl. rewrite Hcfg, QuorumSize_u64, FastQuorumSize_u64.
      split_and!; try done; by eexists.
    + eexists. simpl. by rewrite Hn.
  - unfold InvokeUnlogged, next_id. do 2 run. apply post_get. cbv zeta.
    set (req := MkPendingRequest _ _ _ _ _ _ _).
    assert (wlp (ok ← send (SendUnlogged i (MkRequest rq (clientid c) (lastReqId c + 1)));
      if (ok : bool) then store_req (req <| timer_active := true |>) else erase_req (clientReqId req))
      (λ _ c', client_ok (tr ++ [EvInvokeUnlogged i rq h]) c') (c <| lastReqId ::= u64_incr |>)) as Hinvoke.
    { eapply (invoke_ok tr c (EvInvokeUnlogged i rq h) req); [done|exact Hc|done|done|exact Hn|done| |done|exact Hn|done|done|].
      - intros c' Hl' Hno. split_and!; [exact Hn|lia|lia|apply confirms_ok_new|]. by split_and!; [eexists _, _|..].
      - exists (pendingReqs c !! (lastReqId c + 1)). simpl. by rewrite partial_alter_self. }
    assert (pendingReqs c !! (lastReqId c + 1) = None) as Hnone.
    { destruct (pendingReqs c !! _) as [req'|] eqn:Hreq'; [|done].
      destruct (ck_pending _ _ Hc _ _ Hreq') as (_ & ? & _). lia. }
    revert Hinvoke. unfold req. unfold post, send, erase_req, when, store_req, modify, mbind, M_bind. simpl. rewrite Hn.
    destruct (send_ok _); simpl; [done|]. by rewrite delete_id.
Qed.

(** ** Runs *)

(** What a network that makes nothing up delivers: replies to unlogged requests for unlogged
    requests, and confirmations after the finalize message. *)
Definition honest tr c (e : ir_client_event) : Prop :=
  match e with
  | EvReceive (InUnloggedReply _ id) => ∃ i rq h, invocation tr id = Some (EvInvokeUnlogged i rq h)
  | EvReceive (InConfirm _ _ o) => finalize_sent c o.2
  | _ => True
  end.

Fixpoint honest_run tr c (l : list ir_client_event) : Prop :=
  match l with
  | [] => True
  | e :: l => honest tr c e ∧ match ir_client_handle e c with Ok (_, c') => honest_run (tr ++ [e]) c' l | _ => True end
  end.

Definition honestb tr c (e : ir_client_event) : bool :=
  match e with
  | EvReceive (InUnloggedReply _ id) => match invocation tr id with Some (EvInvokeUnlogged _ _ _) => true | _ => false end
  | EvReceive (InConfirm _ _ o) =>
      existsb (λ p, match p.1 with
                    | SendFinalizeInconsistent o' | SendFinalizeConsensus o' _ => o'.2 =? o.2
                    | _ => false
                    end) (ic_sends c)
  | _ => true
  end.

Fixpoint honest_runb tr c (l : list ir_client_event) : bool :=
  match l with
  | [] => true
  | e :: l => honestb tr c e && match ir_client_handle e c with Ok (_, c') => honest_runb (tr ++ [e]) c' l | _ => true end
  end.

Lemma honest_runb_sound l : ∀ tr c, honest_runb tr c l = true → honest_run tr c l.
Proof.
  induction l as [|e l IH]; intros tr c; [done|]. simpl. intros [He Hl]%andb_true_iff. split.
  - destruct e as [| | |[| |v i o|r id|]| |]; try done; simpl in *.
    + apply existsb_exists in He as ([x ok] & Hin%list_elem_of_In & Hx). simpl in Hx.
      destruct x as [|o'|o' res|]; [done| | |done]; exists o', ok; (split; [lia|]); [by left|right; by exists res].
    + destruct (invocation tr id) as [[]|]; try done. eauto.
  - destruct (ir_client_handle e c) as [[[] c']| |]; auto.
Qed.

Lemma fire_timer_ok tr c id : client_ok tr c → wlp (fire_timer id) (λ _ c', client_ok tr c') c.
Proof.
  intros Hc. unfold fire_timer. apply post_get. destruct (pendingReqs c !! id) as [req|] eqn:Hreq; [|done].
  destruct (timer_active req); [|done]. destruct (timer req) as [| | |b] eqn:Ht.
  - apply post_get. by eapply resend_ok.
  - apply post_get. by eapply resend_ok.
  - by apply UnloggedRequestTimeoutCallback_ok.
  - by eapply ResendConfirmation_ok.
Qed.

Lemma fire_slow_timer_ok tr c id : client_ok tr c → wlp (fire_slow_timer id) (λ _ c', client_ok tr c') c.
Proof.
  intros Hc. unfold fire_slow_timer. apply post_get. destruct (pendingReqs c !! id) as [req|] eqn:Hreq; [|done].
  destruct (kind req) as [| |s] eqn:Hk; [done..|]. destruct (transition_to_slow_path_timer s); [|done].
  by eapply TransitionToConsensusSlowPath_ok.
Qed.

Lemma step_ok tr c e :
  client_ok tr c → lastReqId c + 1 < 2 ^ 64 → honest tr c e →
  wlp (ir_client_handle e) (λ _ c', client_ok (tr ++ [e]) c') c.
Proof.
  intros Hc Hb Hh. destruct (decide (is_invoke e)) as [He|He]; [by apply invocation_ok|].
  pose proof (client_ok_event tr c e He Hc) as Hc'.
  destruct e as [| | |[v i o fin|m|v i o|reply id|]|id|id]; try done; simpl.
  - by apply HandleInconsistentReply_ok.
  - apply HandleConsensusReply_ok; [done|set_solver].
  - apply HandleConfirm_ok; [done|set_solver|done].
  - apply HandleUnloggedReply_ok; [done|]. destruct Hh as (i & rq & h & Hi). exists i, rq, h.
    rewrite invocation_app; [done|]. unfold invocation in Hi. case_match; [done|]. apply lookup_lt_Some in Hi. lia.
  - by apply fire_timer_ok.
  - by apply fire_slow_timer_ok.
Qed.

Lemma client_run_ok l : ∀ tr c c', client_ok tr c → honest_run tr c l → Z.of_nat (length (tr ++ l)) < 2 ^ 64 →
  for_each l ir_client_handle c = Ok (tt, c') → client_ok (tr ++ l) c'.
Proof.
  induction l as [|e l IH]; intros tr c c' Hc Hh Hlen Hrun.
  { injection Hrun as <-. by rewrite app_nil_r. }
  destruct Hh as [Hh Hl]. rewrite length_app in Hlen. simpl in Hlen.
  assert (lastReqId c + 1 < 2 ^ 64) as Hb.
  { destruct (ck_last _ _ Hc) as [-> _]. unfold invocations. pose proof (length_filter is_invoke tr). lia. }
  simpl in Hrun. pose proof (step_ok tr c e Hc Hb Hh) as Hs. unfold post in Hs.
  unfold mbind, M_bind in Hrun. destruct (ir_client_handle e c) as [[[] c1]| |] eqn:He; try done.
  change (e :: l) with ([e] ++ l). rewrite (assoc_L (++) tr [e] l). eapply IH; try done. rewrite !length_app. simpl. lia.
Qed.

Lemma IRClient_new_ok cid : client_ok [] (IRClient_new cfg cid).
Proof.
  split; try done; [intros x Hx; set_solver|intros id; unfold answers; simpl; lia|].
  intros id (o & ok & _ & [Hin|[x Hin]]); set_solver.
Qed.
End invariant.

(** C6: A consensus request is answered with a justified result.  In every run over a network that
    makes nothing up, the result the continuation of a consensus request is called with either was
    given in one view by a fast quorum of distinct replicas, or was finalized or decided from the
    replies of a quorum of distinct replicas in a view in which a quorum of distinct replicas
    confirmed it. *)
Theorem ir_consensus_answer_justified (Net : Network) (cfg : Configuration) (cid : Z)
    (tr : list ir_client_event) (c : IRClient) (id : Z) (rq res rq' : string) (dec : result_set_t → string) (h : bool) :
  0 ≤ f cfg < 2 ^ 30 → Z.of_nat (length tr) < 2 ^ 64 → honest_run [] (IRClient_new cfg cid) tr →
  for_each tr ir_client_handle (IRClient_new cfg cid) = Ok (tt, c) →
  Continue id rq res ∈ calls c → invocation tr id = Some (EvInvokeConsensus rq' dec h) →
  rq = rq' ∧ (fast_answer cfg tr id res ∨ slow_answer cfg tr id dec res).
Proof.
  intros Hf Hlen Hh Hrun Hin Hinv.
  pose proof (client_run_ok cfg Hf tr [] _ c (IRClient_new_ok cfg Hf cid) Hh Hlen Hrun) as Hok.
  destruct (ck_calls _ _ _ Hok _ Hin) as [Hcall _]. by apply (Hcall rq' dec h).
Qed.

(** A client of inconsistent replication answers each request at most once: in every run over a
    network that makes nothing up, at most one continuation is called for a request number, and
    only for numbers it has given out. *)
Theorem ir_answered_at_most_once (Net : Network) (cfg : Configuration) (cid : Z)
    (tr : list ir_client_event) (c : IRClient) (id : Z) :
  0 ≤ f cfg < 2 ^ 30 → Z.of_nat (length tr) < 2 ^ 64 → honest_run [] (IRClient_new cfg cid) tr →
  for_each tr ir_client_handle (IRClient_new cfg cid) = Ok (tt, c) →
  (answers id (calls c) ≤ 1)%nat ∧
  ((0 < answers id (calls c))%nat → id ≤ Z.of_nat (length (invocations tr))).
Proof.
  intros Hf Hlen Hh Hrun.
  pose proof (client_run_ok cfg Hf tr [] _ c (IRClient_new_ok cfg Hf cid) Hh Hlen Hrun) as Hok.
  split; [apply (ck_once _ _ _ Hok)|]. unfold answers. intros Hpos.
  destruct (filter _ (calls c)) as [|x l] eqn:Hl; [simpl in Hpos; lia|].
  assert (x ∈ filter (λ x, call_id x = id) (calls c)) as [Hx Hin]%list_elem_of_filter by (rewrite Hl; set_solver).
  destruct (ck_calls _ _ _ Hok x Hin) as [_ Hle]. destruct (ck_last _ _ _ Hok) as [Hlast _]. simpl in *. lia.
Qed.

(** ** Examples *)

(** Three replicas; the first request is answered on the fast path, the second after the timer
    of the fast path, two replies and two confirmations, and the third without a log. *)
Definition demo_consensus_reply (id i : Z) (x : string) : ir_client_event :=
  EvReceive (InReplyConsensus (MkReplyConsensus 4 i (7, id) x false)).

Definition demo_decide : result_set_t → string := λ m, if bool_decide (is_Some (m !! "no")) then "no" else "yes".

Definition demo_ir_run : list ir_client_event :=
  [EvInvokeConsensus "a" demo_decide true; demo_consensus_reply 1 0 "yes"; demo_consensus_reply 1 1 "yes";
   demo_consensus_reply 1 2 "yes"; EvInvokeConsensus "b" demo_decide true; demo_consensus_reply 2 0 "yes";
   EvFireSlow 2; demo_consensus_reply 2 2 "no"; EvReceive (InConfirm 4 2 (7, 2)); EvReceive (InConfirm 4 1 (7, 2));
   EvInvokeUnlogged 0 "c" false; EvReceive (InUnloggedReply "r" 3)].

Definition demo_ir_client : IRClient :=
  match for_each demo_ir_run (ir_client_handle (H := λ _, true)) (IRClient_new (MkConfiguration 3 1) 7) with
  | Ok (_, c) => c
  | _ => IRClient_new (MkConfiguration 3 1) 7
  end.

Lemma demo_ir_calls : calls demo_ir_client = [Continue 1 "a" "yes"; Continue 2 "b" "no"; Continue 3 "c" "r"].
Proof. vm_compute. reflexivity. Qed.

Lemma demo_ir_honest : honest_run (H := λ _, true) [] (IRClient_new (MkConfiguration 3 1) 7) demo_ir_run.
Proof. apply honest_runb_sound. vm_compute. reflexivity. Qed.

Lemma ir_consensus_answer_justified_witness :
  "b" = "b" ∧ (fast_answer (MkConfiguration 3 1) demo_ir_run 2 "no" ∨
               slow_answer (MkConfiguration 3 1) demo_ir_run 2 demo_decide "no").
Proof.
  apply (ir_consensus_answer_justified (λ _, true) (MkConfiguration 3 1) 7 demo_ir_run demo_ir_client 2 "b" "no" "b"
           demo_decide true).
  - done.
  - done.
  - exact demo_ir_honest.
  - vm_compute. reflexivity.
  - rewrite demo_ir_calls. set_solver.
  - reflexivity.
Defined.

Lemma ir_answered_at_most_once_witness :
  (answers 2 (calls demo_ir_client) ≤ 1)%nat ∧
  ((0 < answers 2 (calls demo_ir_client))%nat → 2 ≤ Z.of_nat (length (invocations demo_ir_run))).
Proof.
  apply (ir_answered_at_most_once (λ _, true) (MkConfiguration 3 1) 7 demo_ir_run demo_ir_client 2).
  - done.
  - done.
  - exact demo_ir_honest.
  - vm_compute. reflexivity.
Defined.
