(* ===== verification/ConfigFile.v ===== *)
(** Configuration files: [transport::ReplicaAddress] and [transport::Configuration] of
    [lib/configuration.h] and [lib/configuration.cc].

    A [std::string] is a list of characters.  The results of [find_first_of] and
    [find_first_not_of] are [size_t]; the code keeps them in [unsigned int], which turns
    [string::npos] into [2^32 - 1], so its tests for [npos] never succeed.  A line of a file is
    shorter than [2^32 - 1] characters in the theorems.

    The constructor ends in [Panic] or with an exception that nobody catches; both are values of
    [failure].  It is shown to read back every configuration written in the documented form. *)

From S2P Require Import QuorumSet.
From S2P Require Import Prelude.
From Stdlib Require Import Ascii.

Abbreviation str := (list ascii).

(** ** Strings of the standard library *)

Definition npos : Z := 2 ^ 64 - 1.

(** The conversion to [unsigned int]. *)
Definition to_uint (z : Z) : Z := z mod 2 ^ 32.

(** The first index, from [pos] on, of a character with property [p]. *)
Fixpoint index_of (p : ascii → bool) (l : str) (i : Z) : Z :=
  match l with
  | [] => npos
  | c :: l => if p c then i else index_of p l (i + 1)
  end.

Definition find_from (p : ascii → bool) (line : str) (pos : Z) : Z :=
  if pos >? Z.of_nat (length line) then npos else index_of p (drop (Z.to_nat pos) line) pos.

Definition find_first_of (cs : str) : str → Z → Z := find_from (λ c, bool_decide (c ∈ cs)).

Definition find_first_not_of (cs : str) : str → Z → Z := find_from (λ c, bool_decide (c ∉ cs)).

(** How a constructor fails. *)
Inductive failure := PanicStop | OutOfRange | InvalidArgument.

(** [substr(pos, len)]. *)
Definition substr (line : str) (pos len : Z) : str + failure :=
  if pos >? Z.of_nat (length line) then inr OutOfRange
  else inl (take (Z.to_nat len) (drop (Z.to_nat pos) line)).

(** [strcasecmp(a.c_str(), b) == 0]: up to the first null character, letters without case. *)
Definition tolower (c : ascii) : ascii :=
  let k := N_of_ascii c in if (65 <=? k)%N && (k <=? 90)%N then ascii_of_N (k + 32) else c.

Fixpoint c_str (l : str) : str :=
  match l with
  | [] => []
  | c :: l => if bool_decide (c = zero) then [] else c :: c_str l
  end.

Definition strcasecmp (a b : str) : bool := bool_decide (tolower <$> c_str a = tolower <$> c_str b).

(** [isspace], and the value of a digit. *)
Definition isspace (c : ascii) : bool :=
  let k := N_of_ascii c in (k =? 32)%N || ((9 <=? k)%N && (k <=? 13)%N).

Definition digit (c : ascii) : option Z :=
  let k := N_of_ascii c in if (48 <=? k)%N && (k <=? 57)%N then Some (Z.of_N k - 48) else None.

Fixpoint skip_space (l : str) : str :=
  match l with
  | c :: l' => if isspace c then skip_space l' else l
  | [] => []
  end.

Fixpoint digits_value (l : str) (v : Z) : Z :=
  match l with
  | c :: l' => match digit c with Some d => digits_value l' (v * 10 + d) | None => v end
  | [] => v
  end.

(** [stoul(s)]: blanks, a sign, and digits up to the first other character; the negative of a
    number is taken modulo [2^64]. *)
Definition unsigned_value (l : str) : Z + failure :=
  match l with
  | c :: _ =>
      match digit c with
      | Some _ => let v := digits_value l 0 in if v <? 2 ^ 64 then inl v else inr OutOfRange
      | None => inr InvalidArgument
      end
  | [] => inr InvalidArgument
  end.

Definition stoul (s : str) : Z + failure :=
  match skip_space s with
  | c :: l =>
      if bool_decide (c = "-"%char) then
        match unsigned_value l with inl v => inl (u64 (- v)) | inr e => inr e end
      else if bool_decide (c = "+"%char) then unsigned_value l
      else unsigned_value (c :: l)
  | [] => inr InvalidArgument
  end.

(** ** Addresses and configurations *)

Record ReplicaAddress := MkReplicaAddress { host : str; port : str }.

#[global] Instance ReplicaAddress_eq_dec : EqDecision ReplicaAddress.
Proof. solve_decision. Defined.

(** [class Configuration]; [multicastAddress] is set exactly when [hasMulticast] is. *)
Record Config := MkConfig { c_n : Z; c_f : Z; replicas : list ReplicaAddress; multicastAddress : option ReplicaAddress }.

#[global] Instance Config_eta : Eta Config := λ c, MkConfig (c_n c) (c_f c) (replicas c) (multicastAddress c).

#[global] Instance Config_eq_dec : EqDecision Config.
Proof. solve_decision. Defined.

(** The parameters the protocols use. *)
Definition quorums (c : Config) : Configuration := MkConfiguration (c_n c) (c_f c).

Definition replica (c : Config) (idx : Z) : res ReplicaAddress :=
  if idx <? 0 then Undefined else from_option Ok Undefined (replicas c !! Z.to_nat idx).

Definition multicast (c : Config) : option ReplicaAddress := multicastAddress c.

(** ** The constructor from a file *)

(** The calls of [getline] in [while (!file.eof())]: the end of the file ends the last line. *)
Fixpoint lines (file : str) : list str :=
  match file with
  | [] => [[]]
  | c :: file =>
      if bool_decide (c = "010"%char) then [] :: lines file
      else match lines file with l :: ls => (c :: l) :: ls | [] => [[c]] end
  end.

Definition blanks : str := [" "%char; "009"%char].

(** The argument of a line with an address: [host:port] from [t2] on.  The tests for [npos] are
    written as in the code. *)
Definition address_argument (line : str) (t1 : Z) : ReplicaAddress + failure :=
  let t2 := to_uint (find_first_not_of blanks line t1) in
  if t2 =? npos then inr PanicStop
  else
    let t3 := to_uint (find_first_of [":"%char] line t2) in
    if t3 =? npos then inr PanicStop
    else
      match substr line t2 (to_uint (t3 - t2)) with
      | inr e => inr e
      | inl host =>
          match substr line (to_uint (t3 + 1)) npos with
          | inr e => inr e
          | inl port => inl (MkReplicaAddress host port)
          end
      end.

(** A line with the directive [cmd]; [f] is an [int]. *)
Definition read_directive (line cmd : str) (t1 : Z) (c : Config) : Config + failure :=
  if strcasecmp cmd (String.list_ascii_of_string "f") then
    let t2 := to_uint (find_first_not_of blanks line t1) in
    if t2 =? npos then inr PanicStop
    else
      match substr line t2 npos with
      | inr e => inr e
      | inl arg =>
          match stoul arg with
          | inl v => inl (c <| c_f := to_int v |>)
          | inr InvalidArgument => inr PanicStop
          | inr e => inr e
          end
      end
  else if strcasecmp cmd (String.list_ascii_of_string "replica") then
    match address_argument line t1 with
    | inl a => inl (c <| replicas ::= (λ l, l ++ [a]) |>)
    | inr e => inr e
    end
  else if strcasecmp cmd (String.list_ascii_of_string "multicast") then
    match address_argument line t1 with
    | inl a => inl (c <| multicastAddress := Some a |>)
    | inr e => inr e
    end
  else inr PanicStop.

(** One round of the loop. *)
Definition read_line (line : str) (c : Config) : Config + failure :=
  match line with
  | [] => inl c
  | first :: _ =>
      if bool_decide (first = "#"%char) then inl c
      else
        let t1 := to_uint (find_first_of blanks line 0) in
        read_directive line (take (Z.to_nat t1) line) t1 c
  end.

Fixpoint read_lines (ls : list str) (c : Config) : Config + failure :=
  match ls with
  | [] => inl c
  | l :: ls => match read_line l c with inl c => read_lines ls c | inr e => inr e end
  end.

Definition Configuration_of_file (file : str) : Config + failure :=
  match read_lines (lines file) (MkConfig 0 (-1) [] None) with
  | inr e => inr e
  | inl c =>
      let c := c <| c_n := to_int (Z.of_nat (length (replicas c))) |> in
      if c_n c =? 0 then inr PanicStop
      else if c_f c =? -1 then inr PanicStop
      else inl c
  end.

(** ** Files in the documented form *)

(** A line: a comment, or a directive in capital or small letters, blanks, and its argument. *)
Inductive item :=
| Comment (text : str)
| SetF (cmd sep : str) (arg : str) (v : Z)
| AddReplica (cmd sep : str) (a : ReplicaAddress)
| SetMulticast (cmd sep : str) (a : ReplicaAddress).

Definition render_address (a : ReplicaAddress) : str := host a ++ ":"%char :: port a.

Definition render (i : item) : str :=
  match i with
  | Comment text => text
  | SetF cmd sep arg _ => cmd ++ sep ++ arg
  | AddReplica cmd sep a | SetMulticast cmd sep a => cmd ++ sep ++ render_address a
  end.

Definition render_file (items : list item) : str := concat ((λ i, render i ++ ["010"%char]) <$> items).

(** A number in decimal digits; what follows them is ignored. *)
Definition number (arg : str) (v : Z) : Prop :=
  ∃ (d : ascii) (ds rest : str), arg = (d :: ds) ++ rest ∧ Forall (λ c, is_Some (digit c)) (d :: ds) ∧
    (∀ c, head rest = Some c → digit c = None) ∧
    v = foldl (λ v c, v * 10 + default 0 (digit c)) 0 (d :: ds) ∧ v < 2 ^ 31.

Definition is_blank (c : ascii) : Prop := c ∈ blanks.

Definition spelled (cmd : str) (s : string) : Prop := tolower <$> cmd = String.list_ascii_of_string s.

Definition address_ok (a : ReplicaAddress) : Prop :=
  (∃ c h, host a = (c :: h) ∧ ¬ is_blank c) ∧ ":"%char ∉ host a.

Definition item_ok (i : item) : Prop :=
  ("010"%char ∉ render i) ∧ Z.of_nat (length (render i)) < 2 ^ 32 - 1 ∧
  match i with
  | Comment text => text = [] ∨ head text = Some "#"%char
  | SetF cmd sep arg v => spelled cmd "f" ∧ sep ≠ [] ∧ Forall is_blank sep ∧ number arg v
  | AddReplica cmd sep a => spelled cmd "replica" ∧ sep ≠ [] ∧ Forall is_blank sep ∧ address_ok a
  | SetMulticast cmd sep a => spelled cmd "multicast" ∧ sep ≠ [] ∧ Forall is_blank sep ∧ address_ok a
  end.

(** What a line means. *)
Definition apply_item (c : Config) (i : item) : Config :=
  match i with
  | Comment _ => c
  | SetF _ _ _ v => c <| c_f := v |>
  | AddReplica _ _ a => c <| replicas ::= (λ l, l ++ [a]) |>
  | SetMulticast _ _ a => c <| multicastAddress := Some a |>
  end.

Lemma lines_line l rest : "010"%char ∉ l → lines (l ++ "010"%char :: rest) = l :: lines rest.
Proof.
  induction l as [|c l IH]; intros Hn; [done|]. simpl. rewrite bool_decide_false by set_solver.
  by rewrite IH by set_solver.
Qed.

Lemma index_of_app p (l1 l2 : str) i :
  Forall (λ c, p c = false) l1 → index_of p (l1 ++ l2) i = index_of p l2 (i + Z.of_nat (length l1)).
Proof.
  intros Hl. revert i. induction Hl as [|c l1 Hc _ IH]; intros i; simpl; [by rewrite Z.add_0_r|].
  rewrite Hc, IH. f_equal. lia.
Qed.

(** The search from the end of [l0] stops behind [l1]. *)
Lemma find_from_at p (l0 l1 l2 : str) c :
  Forall (λ c, p c = false) l1 → p c = true →
  find_from p (l0 ++ l1 ++ c :: l2) (Z.of_nat (length l0)) = Z.of_nat (length l0 + length l1).
Proof.
  intros Hl Hc. unfold find_from. rewrite length_app. destruct (Z.gtb_spec (Z.of_nat (length l0)) (Z.of_nat (length l0 + length (l1 ++ c :: l2)))); [lia|].
  rewrite Nat2Z.id, drop_app_length, index_of_app by done. simpl. rewrite Hc. lia.
Qed.

Lemma to_uint_small z : 0 ≤ z < 2 ^ 32 → to_uint z = z.
Proof. intros ?. by apply Z.mod_small. Qed.

Lemma substr_app (l0 l1 l2 : str) len :
  len = Z.of_nat (length l1) → substr (l0 ++ l1 ++ l2) (Z.of_nat (length l0)) len = inl l1.
Proof.
  intros ->. unfold substr. rewrite length_app.
  destruct (Z.gtb_spec (Z.of_nat (length l0)) (Z.of_nat (length l0 + length (l1 ++ l2)))); [lia|].
  by rewrite !Nat2Z.id, drop_app_length, take_app_length.
Qed.

Lemma substr_rest (l0 l1 : str) : Z.of_nat (length l1) ≤ npos → substr (l0 ++ l1) (Z.of_nat (length l0)) npos = inl l1.
Proof.
  intros Hl. unfold substr. rewrite length_app.
  destruct (Z.gtb_spec (Z.of_nat (length l0)) (Z.of_nat (length l0 + length l1))); [lia|].
  by rewrite Nat2Z.id, drop_app_length, take_ge by lia.
Qed.

(** A directive has no blanks and no null character, and is recognized in any spelling. *)
Lemma spelled_no cmd s c : spelled cmd s → tolower c = c → c ∉ String.list_ascii_of_string s → c ∉ cmd.
Proof. intros <- Hc Hn Hin. apply Hn. rewrite <- Hc. by apply list_elem_of_fmap_2. Qed.

Lemma c_str_id l : zero ∉ l → c_str l = l.
Proof. induction l as [|c l IH]; intros Hz; [done|]. simpl. rewrite bool_decide_false by set_solver. by rewrite IH by set_solver. Qed.

Lemma strcasecmp_spelled cmd s t :
  spelled cmd s → zero ∉ String.list_ascii_of_string s →
  strcasecmp cmd (String.list_ascii_of_string t) =
  bool_decide (String.list_ascii_of_string s = tolower <$> c_str (String.list_ascii_of_string t)).
Proof.
  intros Hs Hz. unfold strcasecmp. rewrite c_str_id by (by apply (spelled_no cmd s)). by rewrite Hs.
Qed.

(** The words of a line. *)
Lemma words cmd sep s c rest :
  spelled cmd s → sep ≠ [] → Forall is_blank sep → ¬ is_blank c →
  (" "%char ∉ String.list_ascii_of_string s) ∧ ("009"%char ∉ String.list_ascii_of_string s) →
  Z.of_nat (length (cmd ++ sep ++ c :: rest)) < 2 ^ 32 - 1 →
  to_uint (find_first_of blanks (cmd ++ sep ++ c :: rest) 0) = Z.of_nat (length cmd) ∧
  to_uint (find_first_not_of blanks (cmd ++ sep ++ c :: rest) (Z.of_nat (length cmd))) = Z.of_nat (length (cmd ++ sep)).
Proof.
  intros Hs Hne Hsep Hc [Hn1 Hn2] Hlen. rewrite !length_app in Hlen. simpl in Hlen.
  assert (Forall (λ c, bool_decide (c ∈ blanks) = false) cmd) as Hcmd.
  { apply Forall_forall. intros x Hx. apply bool_decide_eq_false. unfold blanks.
    intros [-> | ->%list_elem_of_singleton]%elem_of_cons; revert Hx; by apply (spelled_no cmd s). }
  destruct sep as [|b sep]; [done|]. apply Forall_cons in Hsep as [Hb Hsep]. simpl in Hlen. split.
  - unfold find_first_of. pose proof (find_from_at (λ c, bool_decide (c ∈ blanks)) [] cmd (sep ++ c :: rest) b Hcmd) as Hf.
    change (Z.of_nat (length [])) with 0 in Hf. simpl in *. rewrite Hf by (by apply bool_decide_eq_true). apply to_uint_small. lia.
  - unfold find_first_not_of. rewrite (find_from_at _ cmd (b :: sep) rest c).
    + rewrite length_app. apply to_uint_small. simpl. lia.
    + apply Forall_cons. split; [by apply bool_decide_eq_false; auto|].
      eapply Forall_impl; [exact Hsep|]. intros x Hx. apply bool_decide_eq_false. auto.
    + by apply bool_decide_eq_true.
Qed.

Lemma digits_value_number ds rest v :
  Forall (λ c, is_Some (digit c)) ds → (∀ c, head rest = Some c → digit c = None) →
  digits_value (ds ++ rest) v = foldl (λ v c, v * 10 + default 0 (digit c)) v ds.
Proof.
  intros Hds Hrest. revert v. induction Hds as [|c ds [d Hd] _ IH]; intros v; simpl.
  - destruct rest as [|c rest]; [done|]. simpl. by rewrite (Hrest c).
  - rewrite Hd. simpl. apply IH.
Qed.

Lemma digit_range c d : digit c = Some d → 0 ≤ d ≤ 9.
Proof.
  unfold digit. cbv zeta. destruct (_ && _) eqn:Hc; [|done]. intros [= <-].
  apply andb_true_iff in Hc as [H1%N.leb_le H2%N.leb_le]. lia.
Qed.

Lemma digits_nonneg ds v : 0 ≤ v → 0 ≤ foldl (λ v c, v * 10 + default 0 (digit c)) v ds.
Proof.
  revert v. induction ds as [|c ds IH]; intros v Hv; simpl; [done|]. apply IH.
  destruct (digit c) as [d|] eqn:Hd; simpl; [apply digit_range in Hd|]; lia.
Qed.

(** A digit is neither a blank nor a sign. *)
Lemma digit_plain c : is_Some (digit c) → isspace c = false ∧ c ≠ "-"%char ∧ c ≠ "+"%char ∧ ¬ is_blank c.
Proof.
  intros [d Hd]. split_and!; [|by intros -> ..|].
  - unfold digit, isspace in *. cbv zeta in *. destruct (_ && _) eqn:Hc in Hd; [|done].
    apply andb_true_iff in Hc as [H1%N.leb_le H2%N.leb_le]. apply orb_false_iff. split; [apply N.eqb_neq; lia|].
    apply andb_false_iff. right. apply N.leb_gt. lia.
  - unfold is_blank, blanks. by intros [-> | ->%list_elem_of_singleton]%elem_of_cons.
Qed.

Lemma stoul_number arg v : number arg v → stoul arg = inl v ∧ 0 ≤ v < 2 ^ 31.
Proof.
  intros (d & ds & rest & -> & Hds & Hrest & -> & Hv). pose proof (Forall_inv Hds) as Hd.
  destruct (digit_plain d Hd) as (Hsp & Hm & Hp & _). split; [|split; [by apply digits_nonneg|done]].
  unfold stoul. cbn [app skip_space]. rewrite Hsp, bool_decide_false, bool_decide_false by done.
  unfold unsigned_value. destruct Hd as [k Hk]. rewrite Hk. change (d :: ds ++ rest) with ((d :: ds) ++ rest).
  rewrite digits_value_number by done. by rewrite (proj2 (Z.ltb_lt _ _)) by lia.
Qed.

Lemma address_argument_ok cmd sep s a :
  spelled cmd s → sep ≠ [] → Forall is_blank sep → address_ok a →
  (" "%char ∉ String.list_ascii_of_string s) ∧ ("009"%char ∉ String.list_ascii_of_string s) →
  Z.of_nat (length (cmd ++ sep ++ render_address a)) < 2 ^ 32 - 1 →
  to_uint (find_first_of blanks (cmd ++ sep ++ render_address a) 0) = Z.of_nat (length cmd) ∧
  address_argument (cmd ++ sep ++ render_address a) (Z.of_nat (length cmd)) = inl a.
Proof.
  intros Hs Hne Hsep [(c & h & Hh & Hc) Hcolon] Hn Hlen. destruct a as [hst prt]. simpl in Hh, Hcolon. subst hst.
  unfold render_address in *. simpl in *.
  destruct (words cmd sep s c (h ++ ":"%char :: prt) Hs Hne Hsep Hc Hn Hlen) as [Ht1 Ht2]. split; [done|].
  unfold address_argument. rewrite Ht2. rewrite !length_app in Hlen. simpl in Hlen. rewrite length_app in Hlen. simpl in Hlen.
  set (line := cmd ++ sep ++ c :: h ++ ":"%char :: prt).
  assert (line = (cmd ++ sep) ++ (c :: h) ++ ":"%char :: prt) as Hl0 by (unfold line; by rewrite <- (assoc_L (++))).
  assert (line = ((cmd ++ sep) ++ (c :: h) ++ [":"%char]) ++ prt) as Hl1.
  { rewrite Hl0. by rewrite <- !(assoc_L (++)). }
  assert (to_uint (find_first_of [":"%char] line (Z.of_nat (length (cmd ++ sep)))) =
    Z.of_nat (length (cmd ++ sep) + length (c :: h))) as Ht3.
  { rewrite Hl0. unfold find_first_of. rewrite find_from_at.
    - apply to_uint_small. rewrite length_app. simpl. lia.
    - apply Forall_forall. intros x Hx. apply bool_decide_eq_false. intros ->%list_elem_of_singleton. by apply Hcolon.
    - by apply bool_decide_eq_true, list_elem_of_singleton. }
  rewrite Ht3. unfold npos at 1 2.
  destruct (Z.eqb_spec (Z.of_nat (length (cmd ++ sep))) (2 ^ 64 - 1)); [rewrite length_app in *; lia|].
  destruct (Z.eqb_spec (Z.of_nat (length (cmd ++ sep) + length (c :: h))) (2 ^ 64 - 1)); [rewrite length_app in *; simpl in *; lia|].
  rewrite Hl0 at 1. rewrite substr_app.
  - rewrite Hl1. replace (to_uint _) with (Z.of_nat (length ((cmd ++ sep) ++ (c :: h) ++ [":"%char]))).
    + rewrite substr_rest; [done|]. unfold npos. lia.
    + symmetry. rewrite to_uint_small; rewrite !length_app; simpl; lia.
  - rewrite to_uint_small; simpl; lia.
Qed.

Lemma read_line_directive cmd s rest c :
  spelled cmd s → s ≠ "" → "#"%char ∉ String.list_ascii_of_string s →
  to_uint (find_first_of blanks (cmd ++ rest) 0) = Z.of_nat (length cmd) →
  read_line (cmd ++ rest) c = read_directive (cmd ++ rest) cmd (Z.of_nat (length cmd)) c.
Proof.
  intros Hs Hne Hhash Ht1. destruct cmd as [|x cmd]; [by destruct s|].
  unfold read_line. cbn [app]. rewrite bool_decide_false.
  - change (x :: cmd ++ rest) with ((x :: cmd) ++ rest). by rewrite Ht1, Nat2Z.id, take_app_length.
  - intros ->. by apply (spelled_no ("#"%char :: cmd) s "#"%char Hs eq_refl Hhash), list_elem_of_here.
Qed.

(** The three directives; none is another in capital letters. *)
Ltac plain := vm_compute; set_solver.

Lemma read_line_ok c i : item_ok i → read_line (render i) c = inl (apply_item c i).
Proof.
  intros (_ & Hlen & Hi). destruct i as [text|cmd sep arg v|cmd sep a|cmd sep a]; simpl in *.
  - destruct Hi as [-> |Hh]; [done|]. destruct text as [|x text]; [done|]. by injection Hh as ->.
  - destruct Hi as (Hs & Hne & Hsep & Hnum). destruct (stoul_number arg v Hnum) as [Hv Hr].
    destruct Hnum as (d & ds & rest & -> & Hds & _). simpl in *. destruct (digit_plain d (Forall_inv Hds)) as (_ & _ & _ & Hd).
    destruct (words cmd sep "f" d (ds ++ rest) Hs Hne Hsep Hd) as [Ht1 Ht2]; [plain|exact Hlen|].
    rewrite (read_line_directive cmd "f"); [|done|done|plain|exact Ht1].
    unfold read_directive. rewrite (strcasecmp_spelled cmd "f") by (done || plain). rewrite bool_decide_true by done.
    rewrite Ht2. unfold npos at 1. destruct (Z.eqb_spec (Z.of_nat (length (cmd ++ sep))) (2 ^ 64 - 1)).
    { rewrite !length_app in *. lia. }
    rewrite (assoc_L (++)), substr_rest; [|rewrite !length_app in *; unfold npos; lia].
    rewrite Hv. by rewrite to_int_small by lia.
  - destruct Hi as (Hs & Hne & Hsep & Ha).
    destruct (address_argument_ok cmd sep "replica" a Hs Hne Hsep Ha) as [Ht1 Harg]; [plain|exact Hlen|].
    rewrite (read_line_directive cmd "replica"); [|done|done|plain|exact Ht1].
    unfold read_directive. rewrite !(strcasecmp_spelled cmd "replica") by (done || plain).
    rewrite bool_decide_false by done. rewrite bool_decide_true by done. by rewrite Harg.
  - destruct Hi as (Hs & Hne & Hsep & Ha).
    destruct (address_argument_ok cmd sep "multicast" a Hs Hne Hsep Ha) as [Ht1 Harg]; [plain|exact Hlen|].
    rewrite (read_line_directive cmd "multicast"); [|done|done|plain|exact Ht1].
    unfold read_directive. rewrite !(strcasecmp_spelled cmd "multicast") by (done || plain).
    rewrite !bool_decide_false by done. rewrite bool_decide_true by done. by rewrite Harg.
Qed.

Lemma lines_render items : Forall item_ok items → lines (render_file items) = (render <$> items) ++ [[]].
Proof.
  induction 1 as [|i items (Hn & _) _ IH]; [done|]. unfold render_file. simpl.
  rewrite <- (assoc_L (++)). simpl. rewrite lines_line by done. f_equal. exact IH.
Qed.

Lemma read_lines_render items c : Forall item_ok items → read_lines ((render <$> items) ++ [[]]) c = inl (foldl apply_item c items).
Proof.
  intros Hi. revert c. induction Hi as [|i items Hi _ IH]; intros c; [done|]. simpl. by rewrite read_line_ok.
Qed.

(** A configuration file in the documented form is read as it is meant.  Its lines are empty, comments, or
    the directives [f], [replica] and [multicast] in small or capital letters, followed by blanks and
    the argument; the result has the number given last, the replicas in order, the last multicast
    address, and as many replicas as were listed, provided there is a replica and a number. *)
Theorem config_file_roundtrip (items : list item) :
  let c := foldl apply_item (MkConfig 0 (-1) [] None) items in
  Forall item_ok items → 0 < Z.of_nat (length (replicas c)) < 2 ^ 31 → c_f c ≠ -1 →
  Configuration_of_file (render_file items) = inl (c <| c_n := Z.of_nat (length (replicas c)) |>).
Proof.
  intros c Hi Hn Hf. unfold Configuration_of_file. rewrite lines_render, read_lines_render by done. fold c. cbv zeta.
  rewrite to_int_small by lia. simpl. destruct (Z.eqb_spec (Z.of_nat (length (replicas c))) 0); [lia|].
  by destruct (Z.eqb_spec (c_f c) (-1)).
Qed.

(** ** Malformed lines *)

Lemma index_of_none p l i : Forall (λ c, p c = false) l → index_of p l i = npos.
Proof. intros Hl. revert i. induction Hl as [|c l Hc _ IH]; intros i; simpl; [done|]. by rewrite Hc. Qed.

Lemma find_from_none p l pos : Forall (λ c, p c = false) l → find_from p l pos = npos.
Proof. intros Hl. unfold find_from. destruct (_ >? _); [done|]. apply index_of_none. by apply Forall_drop. Qed.

Lemma spelled_no_blank cmd s :
  spelled cmd s → (" "%char ∉ String.list_ascii_of_string s) ∧ ("009"%char ∉ String.list_ascii_of_string s) →
  Forall (λ c, bool_decide (c ∈ blanks) = false) cmd.
Proof.
  intros Hs [Hn1 Hn2]. apply Forall_forall. intros x Hx. apply bool_decide_eq_false. unfold blanks.
  intros [-> | ->%list_elem_of_singleton]%elem_of_cons; revert Hx; by apply (spelled_no cmd s).
Qed.

(** The tests for missing arguments never fire.  The positions are kept in 32 bits and compared with the
    64-bit [npos].  So a [replica] line without a colon is accepted: the host is the argument and the
    port the whole line; and a directive without argument ends in an exception that nobody catches,
    not in the message that was meant. *)
Theorem config_argument_tests_dead (cmd sep arg : str) (c : Config) :
  Z.of_nat (length (cmd ++ sep ++ arg)) < 2 ^ 32 - 1 →
  (spelled cmd "replica" → sep ≠ [] → Forall is_blank sep → (∃ x l, arg = (x :: l) ∧ ¬ is_blank x) → ":"%char ∉ arg →
     read_line (cmd ++ sep ++ arg) c = inl (c <| replicas ::= (λ l, l ++ [MkReplicaAddress arg (cmd ++ sep ++ arg)]) |>)) ∧
  (spelled cmd "f" ∨ spelled cmd "replica" ∨ spelled cmd "multicast" → read_line cmd c = inr OutOfRange).
Proof.
  intros Hlen. rewrite !length_app in Hlen. split.
  - intros Hs Hne Hsep (x & l & -> & Hx) Hcolon. simpl in Hlen.
    destruct (words cmd sep "replica" x l Hs Hne Hsep Hx) as [Ht1 Ht2]; [plain|rewrite !length_app; simpl; lia|].
    rewrite (read_line_directive cmd "replica"); [|done|done|plain|exact Ht1].
    unfold read_directive. rewrite !(strcasecmp_spelled cmd "replica") by (done || plain).
    rewrite bool_decide_false by done. rewrite bool_decide_true by done.
    unfold address_argument. rewrite Ht2. unfold find_first_of, find_from.
    destruct (Z.gtb_spec (Z.of_nat (length (cmd ++ sep))) (Z.of_nat (length (cmd ++ sep ++ x :: l)))); [rewrite !length_app in *; lia|].
    rewrite Nat2Z.id, (assoc_L (++)), drop_app_length, index_of_none.
    2: { apply Forall_forall. intros y Hy. apply bool_decide_eq_false. intros ->%list_elem_of_singleton. done. }
    change (to_uint npos) with (2 ^ 32 - 1). change (to_uint (2 ^ 32 - 1 + 1)) with 0. unfold npos at 1 2.
    destruct (Z.eqb_spec (Z.of_nat (length (cmd ++ sep))) (2 ^ 64 - 1)); [rewrite length_app in *; lia|].
    destruct (Z.eqb_spec (2 ^ 32 - 1) (2 ^ 64 - 1)); [lia|].
    unfold substr. rewrite (length_app (cmd ++ sep)).
    destruct (Z.gtb_spec (Z.of_nat (length (cmd ++ sep))) (Z.of_nat (length (cmd ++ sep) + length (x :: l)))); [lia|].
    destruct (Z.gtb_spec 0 (Z.of_nat (length (cmd ++ sep) + length (x :: l)))); [lia|].
    rewrite Nat2Z.id, drop_app_length. rewrite !take_ge; [done|..].
    + rewrite length_drop, length_app, length_app. simpl. unfold npos. lia.
    + rewrite to_uint_small; rewrite ?length_app; simpl; lia.
  - intros Hs. assert (∃ s, spelled cmd s ∧ (s = "f" ∨ s = "replica" ∨ s = "multicast")) as (s & Hcmd & Hcase).
    { destruct Hs as [?|[?|?]]; eauto 10. }
    assert (Forall (λ c, bool_decide (c ∈ blanks) = false) cmd) as Hnb.
    { apply (spelled_no_blank cmd s Hcmd). destruct Hcase as [-> |[-> | ->]]; plain. }
    assert (∀ p, find_from p cmd (2 ^ 32 - 1) = npos) as Hend.
    { intros p. unfold find_from. destruct (Z.gtb_spec (2 ^ 32 - 1) (Z.of_nat (length cmd))); [done|lia]. }
    assert (∀ len, substr cmd (2 ^ 32 - 1) len = inr OutOfRange) as Hsub.
    { intros len. unfold substr. destruct (Z.gtb_spec (2 ^ 32 - 1) (Z.of_nat (length cmd))); [done|lia]. }
    assert (address_argument cmd (2 ^ 32 - 1) = inr OutOfRange) as Harg.
    { unfold address_argument, find_first_not_of, find_first_of. cbv zeta. rewrite !Hend.
      change (to_uint npos) with (2 ^ 32 - 1). rewrite ?Hend. change (to_uint npos) with (2 ^ 32 - 1). by rewrite Hsub. }
    assert (read_directive cmd cmd (2 ^ 32 - 1) c = inr OutOfRange) as Hdir.
    { unfold read_directive, find_first_not_of. cbv zeta. rewrite Hend. change (to_uint npos) with (2 ^ 32 - 1).
      rewrite Hsub, Harg. destruct Hcase as [-> |[-> | ->]];
        (rewrite !(strcasecmp_spelled cmd _ _ Hcmd) by plain); by rewrite ?bool_decide_true, ?bool_decide_false by done. }
    destruct cmd as [|y cmd]; [destruct Hcase as [-> |[-> | ->]]; done|].
    unfold read_line, find_first_of. cbv zeta. rewrite find_from_none by done. change (to_uint npos) with (2 ^ 32 - 1).
    assert (y ≠ "#"%char) as Hy.
    { intros ->. apply (spelled_no ("#"%char :: cmd) s "#"%char Hcmd eq_refl); [|by apply list_elem_of_here].
      destruct Hcase as [-> |[-> | ->]]; plain. }
    rewrite bool_decide_false by done. rewrite take_ge by (simpl in *; lia). done.
Qed.

(** ** Examples *)

Definition demo_file : list item :=
  let s := String.list_ascii_of_string in
  [Comment (s "# three replicas"); SetF (s "F") (s " ") (s "1") 1; Comment [];
   AddReplica (s "replica") (s "  ") (MkReplicaAddress (s "10.0.0.1") (s "7087"));
   AddReplica (s "Replica") (s " ") (MkReplicaAddress (s "10.0.0.2") (s "7087"));
   AddReplica (s "replica") (s " ") (MkReplicaAddress (s "10.0.0.3") (s "7087"));
   SetMulticast (s "multicast") (s " ") (MkReplicaAddress (s "224.0.0.1") (s "9000"))].

Lemma demo_address h p :
  match h with c :: _ => bool_decide (c ∉ blanks) | [] => false end = true → bool_decide (":"%char ∉ h) = true →
  address_ok (MkReplicaAddress h p).
Proof.
  intros H1 H2%bool_decide_eq_true. split; [|done]. destruct h as [|c h]; [done|].
  apply bool_decide_eq_true in H1. by exists c, h.
Qed.

Lemma demo_file_ok : Forall item_ok demo_file.
Proof.
  assert (number ["1"%char] 1) as Hnum.
  { exists "1"%char, [], []. split_and!; try done. repeat constructor. by eexists. }
  repeat (apply Forall_cons; split); [..|constructor];
    (split; [apply (bool_decide_unpack _); vm_compute; reflexivity|]; split; [vm_compute; reflexivity|]);
    try (by left); try (by right);
    (split; [reflexivity|]; split; [discriminate|]; split; [repeat constructor; vm_compute; set_solver|]);
    first [exact Hnum|apply demo_address; vm_compute; reflexivity].
Qed.

Lemma config_file_roundtrip_witness :
  Configuration_of_file (render_file demo_file) =
    inl (MkConfig 3 1
           [MkReplicaAddress (String.list_ascii_of_string "10.0.0.1") (String.list_ascii_of_string "7087");
            MkReplicaAddress (String.list_ascii_of_string "10.0.0.2") (String.list_ascii_of_string "7087");
            MkReplicaAddress (String.list_ascii_of_string "10.0.0.3") (String.list_ascii_of_string "7087")]
           (Some (MkReplicaAddress (String.list_ascii_of_string "224.0.0.1") (String.list_ascii_of_string "9000")))).
Proof. apply (config_file_roundtrip demo_file demo_file_ok); vm_compute; done. Defined.

Lemma config_argument_tests_dead_witness :
  let s := String.list_ascii_of_string in
  read_line (s "replica" ++ s " " ++ s "10.0.0.1") (MkConfig 0 1 [] None) =
    inl (MkConfig 0 1 [MkReplicaAddress (s "10.0.0.1") (s "replica 10.0.0.1")] None) ∧
  read_line (s "replica") (MkConfig 0 1 [] None) = inr OutOfRange.
Proof.
  intros s. destruct (config_argument_tests_dead (s "replica") (s " ") (s "10.0.0.1") (MkConfig 0 1 [] None)) as [H1 H2].
  - vm_compute. reflexivity.
  - split; [apply H1|apply H2; right; left; reflexivity].
    + reflexivity.
    + discriminate.
    + repeat constructor.
    + eexists _, _. split; [reflexivity|]. apply (bool_decide_unpack _). vm_compute. reflexivity.
    + apply (bool_decide_unpack _). vm_compute. reflexivity.
Defined.
