(* ===== verification/Timers.v ===== *)
(** Timers of the transport and the restartable timeouts built on them: [Timer],
    [CancelTimer], [CancelAllTimers] and [OnTimer] of [lib/udptransport.cc] (the same in
    [lib/tcptransport.cc]) and the class [Timeout] of [lib/transport.cc].

    Timeouts are named by their addresses and callbacks by numbers; [callbacks] says what a
    callback does to the timers.  [pending] are the events libevent waits for, named by the ids
    of their timers, which never repeat: the increment of [lastTimerId] beyond [INT_MAX] is
    undefined.  A timeout that is deleted destroys its callback, which is undefined while that
    callback runs. *)

From stdpp Require Import gmultiset.
From S2P Require Import Prelude.

(** What is called when a timer expires: a function of the program, or the closure that
    [Timeout::Reset] makes. *)
Inductive timer_callback := User (k : Z) | Expire (p : Z).

(** [UDPTransportTimerInfo], with the time given to [event_add] (seconds, microseconds). *)
Record TimerInfo := MkTimerInfo { info_id : Z; info_cb : timer_callback; info_tv : Z * Z }.

Record Timeout := MkTimeout { ms : Z; cb : Z; timerId : Z }.

#[global] Instance Timeout_eta : Eta Timeout := λ r, MkTimeout (ms r) (cb r) (timerId r).

(** A null pointer in [timers] is [None]; [fired] lists the callbacks called. *)
Record Timers := MkTimers {
  lastTimerId : Z;
  timers : gmap Z (option TimerInfo);
  pending : gmap Z TimerInfo;
  timeouts : gmap Z Timeout;
  fired : list Z
}.

#[global] Instance Timers_eta : Eta Timers := λ t,
  MkTimers (lastTimerId t) (timers t) (pending t) (timeouts t) (fired t).

Definition Timers_new : Timers := MkTimers 0 ∅ ∅ ∅ [].

Definition INT_MAX : Z := 2 ^ 31 - 1.

(** ** Timers *)

Abbreviation MT := (M Timers).

Definition Timer (ms : Z) (cb : timer_callback) : MT Z :=
  t ← get_st;
  if lastTimerId t =? INT_MAX then undefined
  else
    let id := lastTimerId t + 1 in
    let info := MkTimerInfo id cb (ms / 1000, ms mod 1000 * 1000) in
    _ ← modify (λ t, t <| lastTimerId := id |> <| timers ::= <[id := Some info]> |> <| pending ::= <[id := info]> |>);
    mret id.

(** [timers[id]] inserts a null pointer for an id that is not there. *)
Definition CancelTimer (id : Z) : MT bool :=
  t ← get_st;
  let entry := default None (timers t !! id) in
  _ ← modify (λ t, t <| timers ::= <[id := entry]> |>);
  match entry with
  | None => mret false
  | Some info =>
      _ ← modify (λ t, t <| pending ::= delete (info_id info) |> <| timers ::= delete (info_id info) |>);
      mret true
  end.

(** The loop, whose rounds [fuel] bounds. *)
Fixpoint CancelAllTimers (fuel : nat) : MT unit :=
  match fuel with
  | O => undefined
  | S fuel =>
      t ← get_st;
      match by_key (timers t) with
      | [] => mret tt
      | (id, _) :: _ => _ ← CancelTimer id; CancelAllTimers fuel
      end
  end.

(** ** Timeouts *)

Definition set_timeout (p : Z) (f : Timeout → Timeout) : MT unit :=
  t ← get_st;
  o ← deref (timeouts t !! p);
  modify (λ t, t <| timeouts ::= <[p := f o]> |>).

Definition timeout_of (p : Z) : MT Timeout := t ← get_st; deref (timeouts t !! p).

Definition Active (p : Z) : MT bool := o ← timeout_of p; mret (negb (timerId o =? 0)).

Definition SetTimeout (p ms' : Z) : MT unit := set_timeout p (λ o, o <| ms := ms' |>).

Definition Stop (p : Z) : MT unit :=
  o ← timeout_of p;
  when (0 <? timerId o)
    (_ ← CancelTimer (timerId o);
     set_timeout p (λ o, o <| timerId := 0 |>)).

Definition Reset (p : Z) : MT Z :=
  _ ← Stop p;
  o ← timeout_of p;
  id ← Timer (ms o) (Expire p);
  _ ← set_timeout p (λ o, o <| timerId := id |>);
  mret (ms o).

Definition Start (p : Z) : MT Z := Reset p.

Definition Timeout_new (p ms cb : Z) : MT unit :=
  t ← get_st;
  match timeouts t !! p with
  | Some _ => undefined
  | None => modify (λ t, t <| timeouts ::= <[p := MkTimeout ms cb 0]> |>)
  end.

Definition Timeout_delete (p : Z) : MT unit :=
  _ ← Stop p;
  modify (λ t, t <| timeouts ::= delete p |>).

(** ** Callbacks *)

(** What code does with timers: the operations above, and [Timer] with a callback of its own. *)
Inductive action :=
| ANew (p ms cb : Z)
| ADelete (p : Z)
| ASetTimeout (p ms : Z)
| AStart (p : Z)
| AReset (p : Z)
| AStop (p : Z)
| ATimer (ms k : Z).

Class Callbacks := callbacks : Z → list action.

(** [running] is the timeout whose callback runs. *)
Definition perform (running : option Z) (a : action) : MT unit :=
  match a with
  | ANew p ms cb => Timeout_new p ms cb
  | ADelete p => if decide (running = Some p) then undefined else Timeout_delete p
  | ASetTimeout p ms => SetTimeout p ms
  | AStart p => _ ← Start p; mret tt
  | AReset p => _ ← Reset p; mret tt
  | AStop p => Stop p
  | ATimer ms k => _ ← Timer ms (User k); mret tt
  end.

Section callbacks.
Context `{!Callbacks}.

Definition call (running : option Z) (k : Z) : MT unit :=
  _ ← modify (λ t, t <| fired ::= (λ l, l ++ [k]) |>);
  for_each (callbacks k) (perform running).

Definition call_callback (c : timer_callback) : MT unit :=
  match c with
  | User k => call None k
  | Expire p =>
      _ ← set_timeout p (λ o, o <| timerId := 0 |>);
      _ ← Reset p;
      o ← timeout_of p;
      call (Some p) (cb o)
  end.

Definition OnTimer (info : TimerInfo) : MT unit :=
  _ ← modify (λ t, t <| timers ::= delete (info_id info) |> <| pending ::= delete (info_id info) |>);
  call_callback (info_cb info).

(** libevent calls [TimerCallback] for an event it waits for, which it no longer does then. *)
Definition TimerCallback (id : Z) : MT unit :=
  t ← get_st;
  info ← deref (pending t !! id);
  _ ← modify (λ t, t <| pending ::= delete id |>);
  OnTimer info.
End callbacks.

(** ** What the timers are for

    A timeout is armed or not; an armed timeout may expire, which calls its callback and
    leaves it armed until it is stopped.  A callback given to [Timer] is called once. *)

Record Clock := MkClock { armed : gmap Z (Z * bool); once : gmultiset Z; called : list Z }.

#[global] Instance Clock_eta : Eta Clock := λ c, MkClock (armed c) (once c) (called c).

Definition Clock_new : Clock := MkClock ∅ ∅ [].

Definition arm (p : Z) (b : bool) : M Clock unit :=
  c ← get_st;
  x ← deref (armed c !! p);
  modify (λ c, c <| armed ::= <[p := (x.1, b)]> |>).

Definition spec_perform (running : option Z) (a : action) : M Clock unit :=
  match a with
  | ANew p _ cb =>
      c ← get_st;
      match armed c !! p with
      | Some _ => undefined
      | None => modify (λ c, c <| armed ::= <[p := (cb, false)]> |>)
      end
  | ADelete p =>
      if decide (running = Some p) then undefined
      else c ← get_st; _ ← deref (armed c !! p); modify (λ c, c <| armed ::= delete p |>)
  | ASetTimeout p _ => c ← get_st; _ ← deref (armed c !! p); mret tt
  | AStart p | AReset p => arm p true
  | AStop p => arm p false
  | ATimer _ k => modify (λ c, c <| once ::= (λ m, {[+ k +]} ⊎ m) |>)
  end.

Section spec.
Context `{!Callbacks}.

Definition spec_call (running : option Z) (k : Z) : M Clock unit :=
  _ ← modify (λ c, c <| called ::= (λ l, l ++ [k]) |>);
  for_each (callbacks k) (spec_perform running).

Definition expire (c : timer_callback) : M Clock unit :=
  match c with
  | User k =>
      c ← get_st;
      if decide (k ∈ once c) then
        _ ← modify (λ c, c <| once ::= (λ m, m ∖ {[+ k +]}) |>);
        spec_call None k
      else undefined
  | Expire p =>
      c ← get_st;
      x ← deref (armed c !! p);
      if x.2 : bool then spec_call (Some p) x.1 else undefined
  end.
End spec.

(** ** The invariant *)

Record wf (t : Timers) : Prop := {
  wf_last : 0 ≤ lastTimerId t ≤ INT_MAX;
  wf_timers : timers t = Some <$> pending t;
  wf_id : ∀ i info, pending t !! i = Some info → info_id info = i ∧ 1 ≤ i ≤ lastTimerId t;
  wf_owner : ∀ p o, timeouts t !! p = Some o → timerId o ≠ 0 →
    ∃ info, pending t !! timerId o = Some info ∧ info_cb info = Expire p;
  wf_owned : ∀ i info p, pending t !! i = Some info → info_cb info = Expire p →
    ∃ o, timeouts t !! p = Some o ∧ timerId o = i
}.

Definition user (info : TimerInfo) : option Z := match info_cb info with User k => Some k | Expire _ => None end.

(** The callbacks of the program that wait for their timer. *)
Definition users (m : gmap Z TimerInfo) : list Z := omap user (map_to_list m).*2.

Record represents (t : Timers) (c : Clock) : Prop := {
  rep_armed : armed c = (λ o, (cb o, negb (timerId o =? 0))) <$> timeouts t;
  rep_once : once c = list_to_set_disj (users (pending t));
  rep_called : called c = fired t
}.

Lemma users_insert m i info : m !! i = None → users (<[i := info]> m) ≡ₚ option_list (user info) ++ users m.
Proof. intros Hi. unfold users. rewrite map_to_list_insert by done. simpl. by destruct (user info). Qed.

Lemma users_delete m i info : m !! i = Some info → users m ≡ₚ option_list (user info) ++ users (delete i m).
Proof.
  intros Hi. rewrite <- (users_insert (delete i m) i info) by apply lookup_delete_eq. by rewrite insert_delete_id.
Qed.

(** ** Stopping and starting a timeout *)

Definition disarm (p : Z) (o : Timeout) (t : Timers) : Timers :=
  t <| pending ::= delete (timerId o) |> <| timers ::= delete (timerId o) |>
    <| timeouts ::= <[p := o <| timerId := 0 |>]> |>.

Definition rearm (p : Z) (o : Timeout) (t : Timers) : Timers :=
  let id := lastTimerId t + 1 in
  let info := MkTimerInfo id (Expire p) (ms o / 1000, ms o mod 1000 * 1000) in
  t <| lastTimerId := id |> <| timers ::= <[id := Some info]> |> <| pending ::= <[id := info]> |>
    <| timeouts ::= <[p := o <| timerId := id |>]> |>.

Lemma pending_positive t i : wf t → i ≤ 0 → pending t !! i = None.
Proof.
  intros Ht Hi. destruct (pending t !! i) as [info|] eqn:E; [|done]. apply (wf_id _ Ht) in E. lia.
Qed.

Lemma pending_fresh t : wf t → pending t !! (lastTimerId t + 1) = None.
Proof.
  intros Ht. destruct (pending t !! _) as [info|] eqn:E; [|done]. apply (wf_id _ Ht) in E. lia.
Qed.

Lemma timers_lookup t i : wf t → timers t !! i = Some <$> pending t !! i.
Proof. intros Ht. by rewrite (wf_timers _ Ht), lookup_fmap. Qed.

Lemma owner_positive t p o : wf t → timeouts t !! p = Some o → timerId o ≠ 0 → 1 ≤ timerId o.
Proof. intros Ht Ho Hn. destruct (wf_owner _ Ht p o Ho Hn) as (info & Hi & _). apply (wf_id _ Ht) in Hi. lia. Qed.

Lemma disarm_stopped p o t : wf t → timeouts t !! p = Some o → timerId o = 0 → disarm p o t = t.
Proof.
  intros Ht Ho E. pose proof (pending_positive t 0 Ht ltac:(lia)) as Hp. pose proof (timers_lookup t 0 Ht) as Htm.
  rewrite Hp in Htm. unfold disarm. destruct t, o. cbn in *. subst. f_equal; [by apply delete_id..|by apply insert_id].
Qed.

Lemma Stop_run p o t : wf t → timeouts t !! p = Some o → Stop p t = Ok (tt, disarm p o t).
Proof.
  intros Ht Ho. unfold Stop, timeout_of, mbind, M_bind, get_st. rewrite Ho. simpl. unfold mret, M_ret.
  destruct (decide (timerId o = 0)) as [E|E].
  - rewrite E. simpl. by rewrite disarm_stopped.
  - pose proof (owner_positive t p o Ht Ho E) as Hpos. rewrite (proj2 (Z.ltb_lt _ _)) by lia.
    destruct (wf_owner _ Ht p o Ho E) as (info & Hi & _). destruct (wf_id _ Ht _ _ Hi) as [Hid _].
    unfold when, CancelTimer, set_timeout, mbind, M_bind, get_st, modify. rewrite timers_lookup, Hi by done. simpl.
    unfold mret, M_ret. rewrite Hid. rewrite Ho. simpl. unfold disarm. simpl. by rewrite delete_insert_eq.
Qed.

Lemma Reset_run p o t :
  wf t → timeouts t !! p = Some o → lastTimerId t < INT_MAX →
  Reset p t = Ok (ms o, rearm p (o <| timerId := 0 |>) (disarm p o t)).
Proof.
  intros Ht Ho Hl. unfold Reset, mbind, M_bind. rewrite (Stop_run p o t Ht Ho). unfold timeout_of, Timer, set_timeout, mbind, M_bind, get_st, modify.
  simpl. rewrite lookup_insert_eq. simpl. rewrite (proj2 (Z.eqb_neq _ _)) by lia. simpl. rewrite lookup_insert_eq. done.
Qed.

Lemma wf_disarm p o t : wf t → timeouts t !! p = Some o → wf (disarm p o t).
Proof.
  intros Ht Ho. pose proof Ht as [Hl Htm Hid Hown Howd]. split; simpl; [done| | | |].
  - by rewrite Htm, fmap_delete.
  - intros i info [_ Hi]%lookup_delete_Some. by apply Hid.
  - intros p' o' [[<- <-]|[Hp Ho']]%lookup_insert_Some Hn; [done|].
    destruct (Hown p' o' Ho' Hn) as (info & Hi & Hc). exists info. split; [|done]. rewrite lookup_delete_ne; [done|].
    intros E. destruct (Hown p o Ho ltac:(congruence)) as (info' & Hi' & Hc'). rewrite E in Hi'. congruence.
  - intros i info p' [Hne Hi]%lookup_delete_Some Hc. destruct (Howd i info p' Hi Hc) as (o' & Ho' & Eo). exists o'.
    split; [|done]. rewrite lookup_insert_ne; [done|]. intros <-. congruence.
Qed.

Lemma wf_rearm p o t : wf t → timeouts t !! p = Some o → timerId o = 0 → lastTimerId t < INT_MAX → wf (rearm p o t).
Proof.
  intros Ht Ho E0 Hlt. pose proof Ht as [Hl Htm Hid Hown Howd]. pose proof (pending_fresh t Ht) as Hf. split; simpl; [lia| | | |].
  - by rewrite Htm, fmap_insert.
  - intros i info [[<- <-]|[_ Hi]]%lookup_insert_Some; [simpl; lia|]. destruct (Hid i info Hi). lia.
  - intros p' o' [[<- <-]|[Hp Ho']]%lookup_insert_Some Hn.
    + eexists. simpl. by rewrite lookup_insert_eq.
    + destruct (Hown p' o' Ho' Hn) as (info & Hi & Hc). exists info. split; [|done]. rewrite lookup_insert_ne; congruence.
  - intros i info p' [[<- <-]|[Hne Hi]]%lookup_insert_Some Hc.
    + simpl in Hc. injection Hc as <-. eexists. by rewrite lookup_insert_eq.
    + destruct (Howd i info p' Hi Hc) as (o' & Ho' & Eo). exists o'. split; [|done]. rewrite lookup_insert_ne; [done|].
      intros <-. assert (o' = o) as -> by congruence. pose proof (Hid i info Hi). lia.
Qed.

Lemma represents_disarm p o t c :
  wf t → timeouts t !! p = Some o → represents t c → represents (disarm p o t) (c <| armed ::= <[p := (cb o, false)]> |>).
Proof.
  intros Ht Ho [Ha Hu Hc]. split; simpl; [by rewrite Ha, fmap_insert| |done]. rewrite Hu. apply list_to_set_disj_perm.
  destruct (decide (timerId o = 0)) as [E|E].
  - by rewrite delete_id by (apply (pending_positive t); [done|lia]).
  - destruct (wf_owner _ Ht p o Ho E) as (info & Hi & Hcb). rewrite (users_delete _ _ _ Hi). unfold user. by rewrite Hcb.
Qed.

Lemma represents_rearm p o t c :
  wf t → timeouts t !! p = Some o → represents t c → represents (rearm p o t) (c <| armed ::= <[p := (cb o, true)]> |>).
Proof.
  intros Ht Ho [Ha Hu Hc]. split; simpl; [| |done].
  - rewrite Ha, fmap_insert. simpl. rewrite (proj2 (Z.eqb_neq _ _)); [done|]. pose proof (wf_last _ Ht). lia.
  - rewrite Hu. apply list_to_set_disj_perm. by rewrite users_insert by (by apply pending_fresh).
Qed.

(** The state after [Reset]. *)
Definition restart (p : Z) (o : Timeout) (t : Timers) : Timers := rearm p (o <| timerId := 0 |>) (disarm p o t).

Lemma wf_restart p o t c :
  wf t → timeouts t !! p = Some o → lastTimerId t < INT_MAX → represents t c →
  wf (restart p o t) ∧ represents (restart p o t) (c <| armed ::= <[p := (cb o, true)]> |>).
Proof.
  intros Ht Ho Hl Hr. pose proof (wf_disarm p o t Ht Ho) as Hd.
  assert (timeouts (disarm p o t) !! p = Some (o <| timerId := 0 |>)) as Ho' by (simpl; by rewrite lookup_insert_eq).
  split; [by apply wf_rearm|]. pose proof (represents_rearm _ _ _ _ Hd Ho' (represents_disarm p o t c Ht Ho Hr)) as Hr'.
  destruct Hr' as [Ha Hu Hc]. split; [|done..]. unfold restart. rewrite <- Ha. simpl. by rewrite insert_insert_eq.
Qed.

(** ** The simulation *)

Lemma armed_lookup t c p x :
  represents t c → armed c !! p = Some x → ∃ o, timeouts t !! p = Some o ∧ x = (cb o, negb (timerId o =? 0)).
Proof. intros [Ha _ _] Hp. rewrite Ha, lookup_fmap in Hp. destruct (timeouts t !! p); [|done]. simpl in Hp. naive_solver. Qed.

(** What [t'] may be after one operation on [t]. *)
Definition simulates (t : Timers) (c' : Clock) (t' : Timers) : Prop :=
  wf t' ∧ represents t' c' ∧ lastTimerId t ≤ lastTimerId t' ≤ lastTimerId t + 1.

Lemma new_sim p ms k t c :
  wf t → represents t c → timeouts t !! p = None →
  simulates t (c <| armed ::= <[p := (k, false)]> |>) (t <| timeouts ::= <[p := MkTimeout ms k 0]> |>).
Proof.
  intros [Hl Htm Hid Hown Howd] [Ha Hu Hc] Hp. split_and!; [|split; simpl; [by rewrite Ha, fmap_insert|done..]|simpl; lia..].
  split; simpl; [done..| |].
  - intros p' o' [[<- <-]|[_ Ho']]%lookup_insert_Some Hn; [done|by apply Hown].
  - intros i info p' Hi Hcb. destruct (Howd i info p' Hi Hcb) as (o' & Ho' & Eo). exists o'. split; [|done].
    rewrite lookup_insert_ne; [done|]. congruence.
Qed.

Lemma set_ms_sim p o ms' t c :
  wf t → represents t c → timeouts t !! p = Some o →
  simulates t c (t <| timeouts ::= <[p := o <| ms := ms' |>]> |>).
Proof.
  intros [Hl Htm Hid Hown Howd] [Ha Hu Hc] Hp. split_and!; [split; simpl; [done..| |]|split; simpl; [|done..]|simpl; lia..].
  - intros p' o' [[<- <-]|[_ Ho']]%lookup_insert_Some Hn; [exact (Hown p o Hp Hn)|by apply Hown].
  - intros i info p' Hi Hcb. destruct (Howd i info p' Hi Hcb) as (o' & Ho' & Eo).
    destruct (decide (p' = p)) as [->|Hne]; [|exists o'; by rewrite lookup_insert_ne].
    eexists. rewrite lookup_insert_eq. split; [done|]. simpl. congruence.
  - rewrite Ha, fmap_insert. simpl. rewrite insert_id; [done|]. by rewrite lookup_fmap, Hp.
Qed.

Lemma delete_sim p o t c :
  wf t → represents t c → timeouts t !! p = Some o →
  simulates t (c <| armed ::= delete p |>) (disarm p o t <| timeouts ::= delete p |>).
Proof.
  intros Ht Hr Hp. pose proof (wf_disarm p o t Ht Hp) as Hd. destruct (represents_disarm p o t c Ht Hp Hr) as [Ha Hu Hc].
  destruct Hd as [Hl Htm Hid Hown Howd]. split_and!; [split; simpl in *; [done..| |]|split; simpl in *; [|done..]|simpl; lia..].
  - intros p' o' [_ Ho']%lookup_delete_Some. by apply Hown.
  - intros i info p' Hi Hcb. destruct (Howd i info p' Hi Hcb) as (o' & Ho' & Eo). exists o'. split; [|done].
    rewrite lookup_delete_ne; [done|]. intros <-. rewrite lookup_insert_eq in Ho'. simplify_eq. simpl in *.
    pose proof (Hid _ _ Hi). lia.
  - rewrite fmap_delete, <- Ha. by rewrite delete_insert_eq.
Qed.

Lemma timer_sim ms k t c :
  wf t → represents t c → lastTimerId t < INT_MAX →
  let id := lastTimerId t + 1 in let info := MkTimerInfo id (User k) (ms / 1000, ms mod 1000 * 1000) in
  simulates t (c <| once ::= (λ m, {[+ k +]} ⊎ m) |>)
    (t <| lastTimerId := id |> <| timers ::= <[id := Some info]> |> <| pending ::= <[id := info]> |>).
Proof.
  intros Ht [Ha Hu Hc] Hlt id info. pose proof Ht as [Hl Htm Hid Hown Howd]. pose proof (pending_fresh t Ht) as Hf.
  split_and!; [split; simpl; [lia| | | |]|split; simpl; [done| |done]|simpl; lia..].
  - by rewrite Htm, fmap_insert.
  - intros i info' [[<- <-]|[_ Hi]]%lookup_insert_Some; [simpl; lia|]. destruct (Hid i info' Hi). lia.
  - intros p o Ho Hn. destruct (Hown p o Ho Hn) as (info' & Hi & Hcb). exists info'. split; [|done].
    rewrite lookup_insert_ne; [done|]. subst id. congruence.
  - intros i info' p [[<- <-]|[_ Hi]]%lookup_insert_Some Hcb; [done|]. by apply (Howd i info').
  - rewrite Hu, <- list_to_set_disj_cons. apply list_to_set_disj_perm. by rewrite users_insert.
Qed.

Lemma perform_sim running a t c c' :
  wf t → represents t c → lastTimerId t < INT_MAX → spec_perform running a c = Ok (tt, c') →
  ∃ t', perform running a t = Ok (tt, t') ∧ simulates t c' t'.
Proof.
  intros Ht Hr Hl Hs. pose proof (wf_last _ Ht) as Hl0.
  assert (∀ p b, arm p b c = Ok (tt, c') → ∃ o, timeouts t !! p = Some o ∧ c' = c <| armed ::= <[p := (cb o, b)]> |>) as Harm.
  { intros p b. unfold arm, mbind, M_bind, get_st. destruct (armed c !! p) as [x|] eqn:Hx; [|done].
    destruct (armed_lookup _ _ _ _ Hr Hx) as (o & Ho & ->). intros [= <-]. by exists o. }
  assert (∀ p o, timeouts t !! p = Some o → simulates t (c <| armed ::= <[p := (cb o, true)]> |>) (restart p o t)) as Hrestart.
  { intros p o Ho. destruct (wf_restart p o t c Ht Ho Hl Hr). split_and!; [done..|simpl; lia|simpl; lia]. }
  assert (∀ p, spec_perform running a c = arm p true c → (perform running a = (_ ← Reset p; mret tt)) →
    ∃ t', perform running a t = Ok (tt, t') ∧ simulates t c' t') as Hreset.
  { intros p Es ->. rewrite Es in Hs. destruct (Harm _ _ Hs) as (o & Ho & ->). exists (restart p o t).
    split; [|by apply Hrestart]. unfold mbind, M_bind. by rewrite (Reset_run p o). }
  destruct a as [p m k|p|p m|p|p|p|m k]; [| | |by apply (Hreset p)|by apply (Hreset p)| |]; unfold spec_perform, mbind, M_bind, get_st in Hs; unfold perform.
  - destruct (armed c !! p) eqn:Hx; [done|]. injection Hs as <-. rewrite (rep_armed _ _ Hr), lookup_fmap in Hx.
    unfold Timeout_new, mbind, M_bind, get_st. destruct (timeouts t !! p) eqn:Hp; [done|]. eexists. split; [done|]. by apply new_sim.
  - destruct (decide (running = Some p)); [done|]. destruct (armed c !! p) as [x|] eqn:Hx; [|done]. injection Hs as <-.
    destruct (armed_lookup _ _ _ _ Hr Hx) as (o & Ho & _). unfold Timeout_delete, mbind, M_bind. rewrite (Stop_run p o) by done.
    eexists. split; [done|]. by apply delete_sim.
  - destruct (armed c !! p) as [x|] eqn:Hx; [|done]. injection Hs as <-.
    destruct (armed_lookup _ _ _ _ Hr Hx) as (o & Ho & _). unfold SetTimeout, set_timeout, mbind, M_bind, get_st. rewrite Ho.
    eexists. split; [done|]. by apply set_ms_sim.
  - destruct (Harm _ _ Hs) as (o & Ho & ->). rewrite (Stop_run p o) by done. eexists. split; [done|].
    split_and!; [by apply wf_disarm|by apply represents_disarm|simpl; lia..].
  - injection Hs as <-. unfold Timer, mbind, M_bind, get_st. rewrite (proj2 (Z.eqb_neq _ _)) by lia. eexists. split; [done|].
    by apply timer_sim.
Qed.

Lemma perform_all_sim running l : ∀ t c c',
  wf t → represents t c → lastTimerId t + Z.of_nat (length l) ≤ INT_MAX → for_each l (spec_perform running) c = Ok (tt, c') →
  ∃ t', for_each l (perform running) t = Ok (tt, t') ∧ wf t' ∧ represents t' c' ∧ lastTimerId t' ≤ lastTimerId t + Z.of_nat (length l).
Proof.
  induction l as [|a l IH]; intros t c c' Ht Hr Hl Hs; simpl in *.
  - injection Hs as <-. exists t. split_and!; [done..|lia].
  - unfold mbind, M_bind in Hs. destruct (spec_perform running a c) as [[[] c1]| |] eqn:Hs1; [|done..].
    destruct (perform_sim running a t c c1 Ht Hr ltac:(lia) Hs1) as (t1 & Hrun1 & Ht1 & Hr1 & Hl1).
    destruct (IH t1 c1 c' Ht1 Hr1 ltac:(lia) Hs) as (t' & Hrun & Ht' & Hr' & Hl').
    exists t'. split_and!; [|done..|lia]. unfold mbind, M_bind. by rewrite Hrun1.
Qed.

Section refinement.
Context `{!Callbacks}.

(** Enough ids are left for a timer to expire. *)
Definition ids_left (t : Timers) : Prop := ∀ k, lastTimerId t + 1 + Z.of_nat (length (callbacks k)) ≤ INT_MAX.

Lemma call_sim running k t c c' :
  wf t → represents t c → lastTimerId t + Z.of_nat (length (callbacks k)) ≤ INT_MAX → spec_call running k c = Ok (tt, c') →
  ∃ t', call running k t = Ok (tt, t') ∧ wf t' ∧ represents t' c'.
Proof.
  intros Ht Hr Hl Hs. unfold spec_call, mbind, M_bind, modify in Hs.
  destruct (perform_all_sim running (callbacks k) (t <| fired ::= (λ l, l ++ [k]) |>) (c <| called ::= (λ l, l ++ [k]) |>) c')
    as (t' & Hrun & Ht' & Hr' & _); [by destruct Ht; split| |done..|by exists t'].
  destruct Hr as [Ha Hu Hc]. split; simpl; [done..|by rewrite Hc].
Qed.

Lemma expire_user_sim i info k t c :
  wf t → represents t c → pending t !! i = Some info → info_cb info = User k → k ∈ once c →
  let t' := t <| timers ::= delete i |> <| pending ::= delete i |> in
  wf t' ∧ represents t' (c <| once ::= (λ m, m ∖ {[+ k +]}) |>).
Proof.
  intros [Hl Htm Hid Hown Howd] [Ha Hu Hc] Hi Hcb Hk. split; (split; simpl; try done).
  - by rewrite Htm, fmap_delete.
  - intros i' info' [_ Hi']%lookup_delete_Some. by apply Hid.
  - intros p o Ho Hn. destruct (Hown p o Ho Hn) as (info' & Hi' & Hcb'). exists info'. split; [|done].
    rewrite lookup_delete_ne; [done|]. intros ->. congruence.
  - intros i' info' p [_ Hi']%lookup_delete_Some. by apply Howd.
  - rewrite Hu, (list_to_set_disj_perm _ _ (users_delete _ _ _ Hi)). unfold user. rewrite Hcb. simpl. multiset_solver.
Qed.

Lemma expire_sim i info t c c' :
  wf t → represents t c → ids_left t → pending t !! i = Some info → expire (info_cb info) c = Ok (tt, c') →
  ∃ t', TimerCallback i t = Ok (tt, t') ∧ wf t' ∧ represents t' c'.
Proof.
  intros Ht Hr Hl Hi Hs. destruct (wf_id _ Ht i info Hi) as [Hid Hpos]. pose proof (wf_last _ Ht) as Hl0.
  unfold TimerCallback, OnTimer. rewrite (bind_run get_st _ t t t) by done. rewrite Hi.
  do 3 (erewrite bind_run by reflexivity). rewrite Hid. simpl. rewrite delete_delete_eq.
  destruct (info_cb info) as [k|p] eqn:Hcb; unfold expire, mbind, M_bind, get_st in Hs.
  - destruct (decide (k ∈ once c)) as [Hk|]; [|done]. simpl in Hs.
    destruct (expire_user_sim i info k t c Ht Hr Hi Hcb Hk) as [Ht1 Hr1]. specialize (Hl k).
    apply (call_sim None k _ _ c' Ht1 Hr1); [simpl; lia|done].
  - destruct (wf_owned _ Ht i info p Hi Hcb) as (o & Ho & Eo). specialize (Hl (cb o)).
    destruct (armed c !! p) as [x|] eqn:Hx; [|done]. destruct (armed_lookup _ _ _ _ Hr Hx) as (o' & Ho' & ->).
    assert (o' = o) as -> by congruence. simpl in Hs. destruct (timerId o =? 0) eqn:Hn; [done|]. simpl in Hs.
    assert (∀ t1, t1 = disarm p o t →
      ∃ t', (_ ← Reset p; o ← timeout_of p; call (Some p) (cb o)) t1 = Ok (tt, t') ∧ wf t' ∧ represents t' c') as Hrest.
    { intros t1 ->. pose proof (wf_disarm p o t Ht Ho) as Hd. set (o0 := o <| timerId := 0 |>).
      assert (timeouts (disarm p o t) !! p = Some o0) as Ho0 by (simpl; by rewrite lookup_insert_eq).
      rewrite (bind_run _ _ _ _ _ (Reset_run p o0 _ Hd Ho0 ltac:(simpl; lia))).
      rewrite disarm_stopped by done. change (rearm p (o0 <| timerId := 0 |>) (disarm p o t)) with (restart p o t).
      destruct (wf_restart p o t c Ht Ho ltac:(lia) Hr) as [Htr Hrr]. unfold timeout_of at 1.
      unfold mbind, M_bind, get_st. simpl. rewrite lookup_insert_eq. simpl.
      apply (call_sim (Some p) (cb o) (restart p o t) _ c' Htr Hrr); [simpl; lia|].
      assert (c <| armed ::= <[p := (cb o, true)]> |> = c) as ->; [|done].
      destruct c. simpl. by rewrite insert_id by done. }
    unfold call_callback. erewrite bind_run by (unfold set_timeout, mbind, M_bind, get_st; simpl; rewrite Ho; reflexivity).
    apply Hrest. unfold disarm. by rewrite Eo.
Qed.

(** Corresponding runs of the timers and of their specification. *)
Inductive runs : Timers → Clock → Prop :=
| runs_new : runs Timers_new Clock_new
| runs_perform t c a c' t' : runs t c → ids_left t →
    spec_perform None a c = Ok (tt, c') → perform None a t = Ok (tt, t') → runs t' c'
| runs_expire t c i info c' t' : runs t c → ids_left t → pending t !! i = Some info →
    expire (info_cb info) c = Ok (tt, c') → TimerCallback i t = Ok (tt, t') → runs t' c'.

Lemma new_represents : wf Timers_new ∧ represents Timers_new Clock_new.
Proof.
  split; [|done]. split; [done|done|..]; intros *; simpl; by rewrite lookup_empty.
Qed.

Lemma ids_left_lt t : ids_left t → lastTimerId t < INT_MAX.
Proof. intros Hl. specialize (Hl 0). lia. Qed.

Lemma runs_ok t c : runs t c → wf t ∧ represents t c.
Proof.
  induction 1 as [|t c a c' t' _ [Ht Hr] Hl Hs Hrun|t c i info c' t' _ [Ht Hr] Hl Hi Hs Hrun]; [apply new_represents| |].
  - destruct (perform_sim None a t c c' Ht Hr (ids_left_lt t Hl) Hs) as (t1 & Hrun1 & Ht1 & Hr1 & _). by assert (t1 = t') as <- by congruence.
  - destruct (expire_sim i info t c c' Ht Hr Hl Hi Hs) as (t1 & Hrun1 & Ht1 & Hr1). by assert (t1 = t') as <- by congruence.
Qed.

(** C31: The timers of the transport implement restartable timeouts: after every run, each
    operation and each expiry that the specification allows returns and leads to a state that
    corresponds again, whatever the callbacks do with the timers; and a timeout is armed
    exactly when libevent waits for one timer, and no other, that will call it. *)
Theorem timeouts_refine t c :
  runs t c → ids_left t →
  (∀ a c', spec_perform None a c = Ok (tt, c') → ∃ t', perform None a t = Ok (tt, t') ∧ runs t' c') ∧
  (∀ i info c', pending t !! i = Some info → expire (info_cb info) c = Ok (tt, c') →
     ∃ t', TimerCallback i t = Ok (tt, t') ∧ runs t' c') ∧
  (∀ p k, armed c !! p = Some (k, true) → ∃ i info, pending t !! i = Some info ∧ info_cb info = Expire p) ∧
  (∀ p i j info info', pending t !! i = Some info → pending t !! j = Some info' →
     info_cb info = Expire p → info_cb info' = Expire p → i = j ∧ ∃ k, armed c !! p = Some (k, true)).
Proof.
  intros Hrun Hl. destruct (runs_ok t c Hrun) as [Ht Hr]. split_and!.
  - intros a c' Hs. destruct (perform_sim None a t c c' Ht Hr (ids_left_lt t Hl) Hs) as (t' & Ht' & _).
    exists t'. split; [done|]. by eapply runs_perform.
  - intros i info c' Hi Hs. destruct (expire_sim i info t c c' Ht Hr Hl Hi Hs) as (t' & Ht' & _).
    exists t'. split; [done|]. by eapply runs_expire.
  - intros p k Hp. destruct (armed_lookup _ _ _ _ Hr Hp) as (o & Ho & [= -> Hn]).
    destruct (wf_owner _ Ht p o Ho) as (info & Hi & Hcb); [|eauto]. destruct (Z.eqb_spec (timerId o) 0); [done|done].
  - intros p i j info info' Hi Hj Hc Hc'. destruct (wf_owned _ Ht i info p Hi Hc) as (o & Ho & Eo).
    destruct (wf_owned _ Ht j info' p Hj Hc') as (o' & Ho' & Eo'). assert (o' = o) as -> by congruence. split; [congruence|].
    exists (cb o). rewrite (rep_armed _ _ Hr), lookup_fmap, Ho. simpl. pose proof (wf_id _ Ht i info Hi).
    by rewrite (proj2 (Z.eqb_neq _ _)) by lia.
Qed.
End refinement.

(** A timeout 5 whose callback 1 sets timer 2. *)
Definition timers_demo_callbacks : Callbacks := λ k, if k =? 1 then [ATimer 10 2] else [].

Lemma timers_demo_step t c a t' c' :
  runs (H := timers_demo_callbacks) t c → spec_perform None a c = Ok (tt, c') → perform None a t = Ok (tt, t') →
  lastTimerId t ≤ 9 → runs (H := timers_demo_callbacks) t' c'.
Proof.
  intros Hrun Hs Ht Hl. eapply runs_perform; [exact Hrun| |exact Hs|exact Ht].
  intros k. unfold callbacks, timers_demo_callbacks, INT_MAX. destruct (k =? 1); simpl; lia.
Qed.

Lemma timeouts_refine_witness :
  ∃ t0 c0 t c, runs (H := timers_demo_callbacks) t0 c0 ∧ called c0 = [] ∧
    TimerCallback (H := timers_demo_callbacks) 2 t0 = Ok (tt, t) ∧ runs (H := timers_demo_callbacks) t c ∧ called c = [1].
Proof.
  pose proof (timers_demo_step _ _ (ANew 5 1500 1) _ _ (runs_new (H := timers_demo_callbacks)) eq_refl eq_refl ltac:(simpl; lia)) as Hrun1.
  pose proof (timers_demo_step _ _ (AStart 5) _ _ Hrun1 eq_refl eq_refl ltac:(simpl; lia)) as Hrun2.
  pose proof (timers_demo_step _ _ (AReset 5) _ _ Hrun2 eq_refl eq_refl ltac:(simpl; lia)) as Hrun.
  destruct (timeouts_refine (H := timers_demo_callbacks) _ _ Hrun) as (_ & Hfire & _).
  { intros k. unfold callbacks, timers_demo_callbacks, INT_MAX. destruct (k =? 1); simpl; lia. }
  destruct (Hfire 2 (MkTimerInfo 2 (Expire 5) (1, 500000)) _ eq_refl eq_refl) as (t & Ht & Hr).
  eexists _, _, t, _. split_and!; [exact Hrun|reflexivity|exact Ht|exact Hr|reflexivity].
Defined.

(** ** Cancelling everything *)

Lemma by_key_nil {A} (m : gmap Z A) : by_key m = [] → m = ∅.
Proof. intros E. pose proof (by_key_perm m) as Hp. rewrite E in Hp. by apply map_to_list_empty_iff, Permutation_nil. Qed.

Lemma by_key_cons {A} (m : gmap Z A) k x l : by_key m = (k, x) :: l → m !! k = Some x.
Proof. intros E. apply elem_of_map_to_list. rewrite <- (by_key_perm m), E. left. Qed.

(** A null pointer is never removed. *)
Lemma CancelTimer_null i j t b t' :
  (∀ k info, timers t !! k = Some (Some info) → info_id info = k) → timers t !! i = Some None →
  CancelTimer j t = Ok (b, t') →
  (∀ k info, timers t' !! k = Some (Some info) → info_id info = k) ∧ timers t' !! i = Some None.
Proof.
  intros Hk Hi. unfold CancelTimer, mbind, M_bind, get_st, modify.
  destruct (timers t !! j) as [[info|]|] eqn:Hj; simpl; intros [= <- <-]; simpl.
  - rewrite (Hk j info Hj), delete_insert_eq. split; [|rewrite lookup_delete_ne; [done|congruence]].
    intros k info' [_ Hk']%lookup_delete_Some. by apply Hk.
  - by rewrite insert_id.
  - split; [|rewrite lookup_insert_ne; [done|congruence]]. intros k info' [[_ ?]|[_ ?]]%lookup_insert_Some; [done|by apply Hk].
Qed.

Lemma CancelAllTimers_null i fuel : ∀ t,
  (∀ k info, timers t !! k = Some (Some info) → info_id info = k) → timers t !! i = Some None →
  ∀ t', CancelAllTimers fuel t ≠ Ok (tt, t').
Proof.
  induction fuel as [|fuel IH]; intros t Hk Hi t'; [done|]. cbn [CancelAllTimers].
  rewrite (bind_run get_st _ t t t) by done. destruct (by_key (timers t)) as [|[j x] l] eqn:E.
  - apply by_key_nil in E. by rewrite E, lookup_empty in Hi.
  - unfold mbind, M_bind. destruct (CancelTimer j t) as [[b t1]| |] eqn:Hc; [|done..].
    destruct (CancelTimer_null i j t b t1 Hk Hi Hc). by apply IH.
Qed.

(** After a run of the program [CancelAllTimers] ends, within one round per timer, and no
    timer is left. *)
Theorem cancel_all_timers_ends `{!Callbacks} t c :
  runs t c → ∃ t', CancelAllTimers (S (size (timers t))) t = Ok (tt, t') ∧ timers t' = ∅ ∧ pending t' = ∅.
Proof.
  intros Hrun. destruct (runs_ok t c Hrun) as [Ht _]. destruct Ht as [_ Htm Hid _ _].
  assert (∀ i info, pending t !! i = Some info → info_id info = i) as Hid' by (intros; by apply Hid).
  clear Hrun Hid. remember (size (timers t)) as n eqn:Hn. revert t Htm Hid' Hn. induction n as [|n IH]; intros t Htm Hid Hn.
  - exists t. symmetry in Hn. apply map_size_empty_inv in Hn. split_and!; [|done|by rewrite Hn in Htm; symmetry in Htm; apply fmap_empty_inv in Htm].
    cbn [CancelAllTimers]. rewrite (bind_run get_st _ t t t) by done. rewrite Hn. done.
  - cbn [CancelAllTimers]. rewrite (bind_run get_st _ t t t) by done. destruct (by_key (timers t)) as [|[j x] l] eqn:E.
    { apply by_key_nil in E. by rewrite E in Hn. }
    apply by_key_cons in E. pose proof E as E'. rewrite Htm, lookup_fmap in E'. destruct (pending t !! j) as [info|] eqn:Hj; [|done].
    injection E' as <-. pose proof (Hid j info Hj) as Hij.
    erewrite bind_run by (unfold CancelTimer, mbind, M_bind, get_st, modify; rewrite E; simpl; rewrite Hij; reflexivity).
    apply IH; simpl.
    + rewrite delete_insert_eq. by rewrite Htm, fmap_delete.
    + intros i info' [_ Hi]%lookup_delete_Some. by apply Hid.
    + rewrite delete_insert_eq. rewrite map_size_delete, E. lia.
Qed.

(** Once [CancelTimer] was called with an id that names no timer, [CancelAllTimers] never
    ends: the lookup leaves a null entry, which its loop does not remove. *)
Theorem cancel_unknown_timer_hangs `{!Callbacks} t c i fuel :
  runs t c → timers t !! i = None → ∀ t', (_ ← CancelTimer i; CancelAllTimers fuel) t ≠ Ok (tt, t').
Proof.
  intros Hrun Hi t'. destruct (runs_ok t c Hrun) as [Ht _].
  assert (CancelTimer i t = Ok (false, t <| timers ::= <[i := None]> |>)) as Hc
    by (unfold CancelTimer, mbind, M_bind, get_st; rewrite Hi; done).
  rewrite (bind_run _ _ _ _ _ Hc). apply (CancelAllTimers_null i); simpl; [|by rewrite lookup_insert_eq].
  intros k info [[_ ?]|[_ Hk]]%lookup_insert_Some; [done|]. rewrite (wf_timers _ Ht), lookup_fmap in Hk.
  destruct (pending t !! k) eqn:Hp; [|done]. simplify_eq/=. by apply (wf_id _ Ht).
Qed.

Lemma cancel_all_timers_ends_witness :
  ∃ t t', (_ ← perform None (ANew 5 1500 1); perform None (AStart 5)) Timers_new = Ok (tt, t) ∧
    CancelAllTimers 2 t = Ok (tt, t') ∧ timers t' = ∅ ∧ pending t' = ∅.
Proof.
  pose proof (timers_demo_step _ _ (ANew 5 1500 1) _ _ (runs_new (H := timers_demo_callbacks)) eq_refl eq_refl ltac:(simpl; lia)) as Hrun1.
  pose proof (timers_demo_step _ _ (AStart 5) _ _ Hrun1 eq_refl eq_refl ltac:(simpl; lia)) as Hrun.
  destruct (cancel_all_timers_ends (H := timers_demo_callbacks) _ _ Hrun) as (t' & Ht' & He).
  eexists _, t'. split; [reflexivity|]. split; [exact Ht'|exact He].
Defined.

Lemma cancel_unknown_timer_hangs_witness :
  timers Timers_new !! 4 = None ∧ (_ ← CancelTimer 4; CancelAllTimers 100) Timers_new ≠ Ok (tt, Timers_new).
Proof.
  split; [reflexivity|].
  exact (cancel_unknown_timer_hangs (H := timers_demo_callbacks) Timers_new Clock_new 4 100 runs_new eq_refl Timers_new).
Defined.
