(* ===== verification/UDPTransport.v ===== *)
(** The UDP transport: sending, fragmenting, reassembling and dispatching of messages in
    [lib/udptransport.cc] and [lib/udptransport.h].

    A buffer is a list of bytes; [size_t] fields are eight bytes in little-endian order.  A
    read beyond the bytes received is undefined behaviour.  A socket is a queue of what
    [recvfrom] returns next.  [dropRate] and [reorderRate] only matter by whether they are
    positive and by the outcome of each roll, which [Dice] supplies.  Receivers, configurations
    and addresses are numbers; what is delivered to a receiver is recorded.  A message is the
    name of its type and its serialization. *)

From coqutil Require Import Byte Word.LittleEndianList.
From S2P Require Import LRReplica.
From S2P Require Import Prelude.

Abbreviation bytes := (list Byte.byte).

Definition MAX_UDP_MESSAGE_SIZE : Z := 15000.
Definition BUFSIZE : Z := 65536.

(** The outcome of the [k]-th roll: below the rate or not. *)
Class Dice := roll : nat → bool.

(** What [recvfrom] returns: a datagram with its sender, or an error other than [EAGAIN]. *)
Inductive recv := Received (sender : Z) (buf : bytes) | ReceiveError.

Record FragInfo := MkFragInfo { msgId : Z; data : bytes }.

Record ReorderBuffer := MkReorderBuffer { ro_addr : Z; ro_msgType : bytes; ro_message : bytes; ro_fd : Z }.

(** [reorderBuffer] is [None] when it is not valid. *)
Record UDPTransport := MkUDPTransport {
  drops : bool;
  reorders : bool;
  reorderBuffer : option ReorderBuffer;
  receivers : gmap Z (option Z);
  fds : gmap Z Z;
  multicastConfigs : gmap Z Z;
  replicaReceivers : gmap Z (gmap Z Z);
  replicaAddresses : gmap Z (gmap Z Z);
  lastFragMsgId : Z;
  fragInfo : gmap Z FragInfo;
  rolls : nat;
  sockets : gmap Z (list recv);
  sent : list (Z * Z * bytes * bool);
  delivered : list (Z * Z * bytes * bytes)
}.

#[global] Instance UDPTransport_eta : Eta UDPTransport := λ t,
  MkUDPTransport (drops t) (reorders t) (reorderBuffer t) (receivers t) (fds t) (multicastConfigs t)
    (replicaReceivers t) (replicaAddresses t) (lastFragMsgId t) (fragInfo t) (rolls t) (sockets t) (sent t)
    (delivered t).

(** The members as the constructor leaves them. *)
Definition UDPTransport_new (drops reorders : bool) : UDPTransport :=
  MkUDPTransport drops reorders None ∅ ∅ ∅ ∅ ∅ 0 ∅ 0 ∅ [] [].

(** ** Encoding *)

Definition size_t (n : Z) : bytes := le_split 8 n.

(** The [size_t] at a pointer, and what is behind it. *)
Definition read_size (buf : bytes) : res (Z * bytes) :=
  if decide (8 ≤ length buf)%nat then Ok (le_combine (take 8 buf), drop 8 buf) else Undefined.

(** [string(ptr, len)], and what is behind it. *)
Definition read_string (len : Z) (buf : bytes) : res (bytes * bytes) :=
  if decide (len ≤ Z.of_nat (length buf)) then Ok (take (Z.to_nat len) buf, drop (Z.to_nat len) buf) else Undefined.

Definition SerializeMessage (type data : bytes) : bytes :=
  size_t (Z.of_nat (length type)) ++ type ++ size_t (Z.of_nat (length data)) ++ data.

Definition DecodePacket (buf : bytes) : res (bytes * bytes) :=
  '(typeLen, p1) ← read_size buf;
  '(type, p2) ← read_string typeLen p1;
  '(msgLen, p3) ← read_size p2;
  '(msg, _) ← read_string msgLen p3;
  Ok (type, msg).

Section transport.
Context `{!Network} `{!Dice}.

Abbreviation MU := (M UDPTransport).

(** ** Sending *)

Definition sendto (fd dst : Z) (buf : bytes) : MU bool := λ t,
  let ok := send_ok (length (sent t)) in Ok (ok, t <| sent ::= (λ l, l ++ [(fd, dst, buf, ok)]) |>).

Definition fragment (id fragStart msgLen : Z) (chunk : bytes) : bytes :=
  size_t 0 ++ size_t id ++ size_t fragStart ++ size_t msgLen ++ chunk.

(** The loop over the fragments; [rest] is the buffer from [fragStart] on, and [fuel] bounds the
    rounds. *)
Fixpoint send_fragments (fuel : nat) (fd dst id fragStart msgLen : Z) (rest : bytes) : MU bool :=
  match fuel with
  | O => undefined
  | S fuel =>
      if fragStart <? msgLen then
        let fragLen := Z.min (msgLen - fragStart) MAX_UDP_MESSAGE_SIZE in
        ok ← sendto fd dst (fragment id fragStart msgLen (take (Z.to_nat fragLen) rest));
        if (ok : bool)
        then send_fragments fuel fd dst id (fragStart + MAX_UDP_MESSAGE_SIZE) msgLen (drop (Z.to_nat fragLen) rest)
        else mret false
      else mret true
  end.

(** [fds[src]]: an absent key is inserted with the value 0. *)
Definition fd_of (src : Z) : MU Z := λ t,
  let fd := default 0 (fds t !! src) in Ok (fd, t <| fds ::= <[src := fd]> |>).

Definition SendMessageInternal (src dst : Z) (type data : bytes) : MU bool :=
  let buf := SerializeMessage type data in
  let msgLen := Z.of_nat (length buf) in
  fd ← fd_of src;
  if msgLen <=? MAX_UDP_MESSAGE_SIZE then sendto fd dst buf
  else
    _ ← modify (λ t, t <| lastFragMsgId ::= u64_incr |>);
    id ← gets lastFragMsgId;
    send_fragments (S (length buf)) fd dst id 0 msgLen buf.

(** ** Receiving *)

(** A fragment; the result is the packet it completes, if any. *)
Definition reassemble (sender id fragStart msgLen : Z) (chunk : bytes) : MU (option bytes) := λ t,
  let i0 := default (MkFragInfo 0 []) (fragInfo t !! sender) in
  let i1 := if msgId i0 =? 0 then MkFragInfo id [] else i0 in
  let i2 := if negb (msgId i1 =? id) then MkFragInfo id [] else i1 in
  if negb (fragStart =? Z.of_nat (length (data i2))) then Ok (None, t <| fragInfo ::= <[sender := i2]> |>)
  else
    let d := data i2 ++ chunk in
    if Z.of_nat (length d) =? msgLen
    then Ok (Some d, t <| fragInfo ::= <[sender := MkFragInfo 0 []]> |>)
    else Ok (None, t <| fragInfo ::= <[sender := MkFragInfo (msgId i2) d]> |>).

(** The decoding of a datagram; [None] when the loop continues with the next one. *)
Definition decode_datagram (sender : Z) (buf : bytes) : MU (option (bytes * bytes)) :=
  '(typeLen, p1) ← lift_res (read_size buf);
  if negb (typeLen =? 0) then m ← lift_res (DecodePacket buf); mret (Some m)
  else
    '(id, p2) ← lift_res (read_size p1);
    '(fragStart, p3) ← lift_res (read_size p2);
    '(msgLen, p4) ← lift_res (read_size p3);
    packet ← reassemble sender id fragStart msgLen p4;
    match packet with
    | Some d => m ← lift_res (DecodePacket d); mret (Some m)
    | None => mret None
    end.

Definition next_roll : MU bool := λ t, Ok (roll (rolls t), t <| rolls ::= S |>).

(** [receiver->ReceiveMessage(senderAddr, msgType, msg)]. *)
Definition ReceiveMessage (receiver sender : Z) (type msg : bytes) : MU unit :=
  modify (λ t, t <| delivered ::= (λ l, l ++ [(receiver, sender, type, msg)]) |>).

(** Delivery to the receiver of the socket, or to the replicas of a multicast configuration.
    [replicaReceivers[cfg]], [replicaAddresses[cfg]] and [receivers[fd]] insert absent keys. *)
Definition deliver (fd sender : Z) (type msg : bytes) : MU unit :=
  t ← get_st;
  match multicastConfigs t !! fd with
  | Some cfg =>
      let rs := default ∅ (replicaReceivers t !! cfg) in
      _ ← modify (λ t, t <| replicaReceivers ::= <[cfg := rs]> |>);
      for_each (by_key rs) (λ kv,
        t ← get_st;
        let addrs := default ∅ (replicaAddresses t !! cfg) in
        _ ← modify (λ t, t <| replicaAddresses ::= <[cfg := addrs]> |>);
        raddr ← deref (addrs !! kv.1);
        when (negb (raddr =? sender)) (ReceiveMessage kv.2 sender type msg))
  | None =>
      let r := default None (receivers t !! fd) in
      _ ← modify (λ t, t <| receivers ::= <[fd := r]> |>);
      receiver ← deref r;
      ReceiveMessage receiver sender type msg
  end.

(** The dispatch of a decoded message; the result is the socket the loop reads next. *)
Definition dispatch (fd sender : Z) (type msg : bytes) : MU Z :=
  t ← get_st;
  dropped ← (if drops t then next_roll else mret false);
  if (dropped : bool) then mret fd
  else
    t ← get_st;
    held ← (if bool_decide (reorderBuffer t = None) && reorders t then next_roll else mret false);
    if (held : bool) then
      _ ← modify (λ t, t <| reorderBuffer := Some (MkReorderBuffer sender type msg fd) |>);
      mret fd
    else
      _ ← deliver fd sender type msg;
      t ← get_st;
      match reorderBuffer t with
      | None => mret fd
      | Some b =>
          _ ← modify (λ t, t <| reorderBuffer := None |>);
          _ ← deliver (ro_fd b) (ro_addr b) (ro_msgType b) (ro_message b);
          mret (ro_fd b)
      end.

(** The loop of [OnReadable]: until the socket has nothing left.  An error of [recvfrom] is only
    logged, and the buffer, which holds nothing, is decoded. *)
Fixpoint read_loop (fuel : nat) (fd : Z) : MU unit :=
  match fuel with
  | O => undefined
  | S fuel =>
      t ← get_st;
      match default [] (sockets t !! fd) with
      | [] => mret tt
      | ReceiveError :: _ => undefined
      | Received sender buf :: rest =>
          _ ← modify (λ t, t <| sockets ::= <[fd := rest]> |>);
          m ← decode_datagram sender (take (Z.to_nat BUFSIZE) buf);
          match m with
          | None => read_loop fuel fd
          | Some (type, msg) => fd' ← dispatch fd sender type msg; read_loop fuel fd'
          end
      end
  end.

(** What all sockets hold; every round of the loop takes one of them. *)
Definition queued (t : UDPTransport) : nat := Z.to_nat (map_sum (λ l, Z.of_nat (length l)) (sockets t)).

Definition OnReadable (fd : Z) : MU unit := t ← get_st; read_loop (S (queued t)) fd.
End transport.

(** ** Encoding and decoding *)

Lemma length_size_t z : length (size_t z) = 8%nat.
Proof. apply length_le_split. Qed.

Lemma read_size_app z rest : 0 ≤ z < 2 ^ 64 → read_size (size_t z ++ rest) = Ok (z, rest).
Proof.
  intros Hz. unfold read_size. rewrite decide_True by (rewrite length_app, length_size_t; lia).
  rewrite take_app_length', drop_app_length' by (by rewrite length_size_t).
  unfold size_t. rewrite le_combine_split. rewrite Z.mod_small; [done|exact Hz].
Qed.

Lemma read_string_app l rest : read_string (Z.of_nat (length l)) (l ++ rest) = Ok (l, rest).
Proof.
  unfold read_string. rewrite decide_True by (rewrite length_app; lia).
  by rewrite Nat2Z.id, take_app_length, drop_app_length.
Qed.

(** Lengths fit a [size_t]. *)
Definition fits (l : bytes) : Prop := Z.of_nat (length l) < 2 ^ 64.

Lemma decode_serialize type msg : fits (SerializeMessage type msg) → DecodePacket (SerializeMessage type msg) = Ok (type, msg).
Proof.
  unfold fits, SerializeMessage. rewrite !length_app, !length_size_t. intros Hf.
  pose proof (read_string_app msg []) as Hm. rewrite app_nil_r in Hm.
  unfold DecodePacket, mbind, res_bind. rewrite read_size_app by lia. rewrite read_string_app, read_size_app by lia.
  by rewrite Hm.
Qed.

(** ** What a sender puts on the wire *)

Abbreviation message := (bytes * bytes)%type.

Definition wire (m : message) : bytes := SerializeMessage m.1 m.2.

Lemma decode_whole a m t : m.1 ≠ [] → fits (wire m) → decode_datagram a (wire m) t = Ok (Some m, t).
Proof.
  intros Hty Hf. assert (DecodePacket (wire m) = Ok m) as Hd by (destruct m; by apply decode_serialize).
  unfold fits, wire, SerializeMessage in Hf. rewrite !length_app, !length_size_t in Hf.
  assert (read_size (wire m) = Ok (Z.of_nat (length m.1), m.1 ++ size_t (Z.of_nat (length m.2)) ++ m.2)) as Hr
    by (apply read_size_app; lia).
  unfold decode_datagram. rewrite Hr, Hd. unfold mbind at 1, M_bind at 1. cbn [lift_res].
  assert ((Z.of_nat (length m.1) =? 0) = false) as ->; [|done].
  apply Z.eqb_neq. destruct m.1; [done|simpl; lia].
Qed.

Definition large (m : message) : Prop := MAX_UDP_MESSAGE_SIZE < Z.of_nat (length (wire m)).

#[global] Instance large_dec m : Decision (large m).
Proof. unfold large. apply _. Defined.

(** Large messages are numbered from one. *)
Definition numbered (hist : list message) (id : Z) : option message :=
  if id <=? 0 then None else filter large hist !! Z.to_nat (id - 1).

(** A datagram of one of the messages: the whole message, or a piece of a large one. *)
Definition datagram_of (hist : list message) (b : bytes) : Prop :=
  (∃ m, m ∈ hist ∧ ¬ large m ∧ b = wire m) ∨
  (∃ id m start, numbered hist id = Some m ∧ 0 ≤ start < Z.of_nat (length (wire m)) ∧ id < 2 ^ 64 ∧
     b = fragment id start (Z.of_nat (length (wire m)))
           (take (Z.to_nat (Z.min (Z.of_nat (length (wire m)) - start) MAX_UDP_MESSAGE_SIZE))
              (drop (Z.to_nat start) (wire m)))).

Lemma numbered_app hist m id x : numbered hist id = Some x → numbered (hist ++ [m]) id = Some x.
Proof.
  unfold numbered. destruct (id <=? 0); [done|]. intros Hx. rewrite filter_app. by apply lookup_app_l_Some.
Qed.

Lemma datagram_of_app hist m b : datagram_of hist b → datagram_of (hist ++ [m]) b.
Proof.
  intros [(x & Hx & Hl & Hb)|(id & x & start & Hx & Hs & Hid & Hb)].
  - left. exists x. set_solver.
  - right. exists id, x, start. split; [by apply numbered_app|done].
Qed.

Lemma numbered_last hist m : large m → numbered (hist ++ [m]) (Z.of_nat (length (filter large hist)) + 1) = Some m.
Proof.
  intros Hm. unfold numbered. rewrite (proj2 (Z.leb_gt _ _)) by lia.
  rewrite filter_app, filter_cons, decide_True by done. apply list_lookup_middle. lia.
Qed.

(** A message to be sent, with its source and destination. *)
Abbreviation request := (Z * Z * bytes * bytes)%type.

Section sending.
Context `{!Network}.

Definition content (x : request) : message := (x.1.2, x.2).

Definition send_message (x : request) : M UDPTransport unit :=
  _ ← SendMessageInternal x.1.1.1 x.1.1.2 x.1.2 x.2; mret tt.

Record sender_ok (hist : list message) (t : UDPTransport) : Prop := {
  so_last : lastFragMsgId t = Z.of_nat (length (filter large hist));
  so_sent : ∀ fd dst b ok, (fd, dst, b, ok) ∈ sent t → datagram_of hist b
}.

(** The loop over the fragments returns and sends pieces of the message. *)
Lemma send_fragments_ok hist fd dst id m : numbered hist id = Some m → id < 2 ^ 64 → ∀ fuel start t,
  0 ≤ start → (Z.to_nat (Z.of_nat (length (wire m)) - start) < fuel)%nat →
  (∀ fd dst b ok, (fd, dst, b, ok) ∈ sent t → datagram_of hist b) →
  wp (send_fragments fuel fd dst id start (Z.of_nat (length (wire m))) (drop (Z.to_nat start) (wire m)))
    (λ _ t', lastFragMsgId t' = lastFragMsgId t ∧ ∀ fd dst b ok, (fd, dst, b, ok) ∈ sent t' → datagram_of hist b) t.
Proof.
  intros Hm Hid. induction fuel as [|fuel IH]; intros start t Hs Hfuel Hsent; [lia|]. cbn [send_fragments].
  destruct (Z.ltb_spec start (Z.of_nat (length (wire m)))) as [Hlt|Hge]; [|by split].
  unfold sendto. run. set (t1 := t <| sent ::= _ |>).
  assert (∀ fd dst b ok, (fd, dst, b, ok) ∈ sent t1 → datagram_of hist b) as Hsent1.
  { intros fd' dst' b ok [Hin|Heq%list_elem_of_singleton]%elem_of_app; [by eapply Hsent|]. simplify_eq.
    right. exists id, m, start. done. }
  destruct (send_ok _); [|by split].
  rewrite drop_drop. set (k := Z.min _ _). assert (0 < k ≤ MAX_UDP_MESSAGE_SIZE) as Hk by (unfold k, MAX_UDP_MESSAGE_SIZE; lia).
  destruct (decide (start + MAX_UDP_MESSAGE_SIZE ≤ Z.of_nat (length (wire m)))) as [Hle|Hgt].
  - replace (Z.to_nat start + Z.to_nat k)%nat with (Z.to_nat (start + MAX_UDP_MESSAGE_SIZE)) by (unfold k, MAX_UDP_MESSAGE_SIZE in *; lia).
    apply (IH _ t1); [unfold MAX_UDP_MESSAGE_SIZE; lia|unfold MAX_UDP_MESSAGE_SIZE in *; lia|done].
  - destruct fuel as [|fuel']; [unfold MAX_UDP_MESSAGE_SIZE in *; lia|]. cbn [send_fragments].
    rewrite (proj2 (Z.ltb_ge _ _)) by lia. by split.
Qed.

Lemma send_message_ok hist t x :
  sender_ok hist t → Z.of_nat (length hist) + 1 < 2 ^ 64 →
  wp (send_message x) (λ _ t', sender_ok (hist ++ [content x]) t') t.
Proof.
  intros [Hl Hs] Hlen. destruct x as [[[src dst] type] msg]. unfold content, send_message. simpl.
  unfold SendMessageInternal. cbv zeta. apply post_bind. unfold fd_of at 1. run. set (fd := default 0 _). set (t1 := t <| fds ::= _ |>).
  change (SerializeMessage type msg) with (wire (type, msg)).
  assert (∀ fd dst b ok, (fd, dst, b, ok) ∈ sent t1 → datagram_of (hist ++ [(type, msg)]) b) as Hs1.
  { intros fd' dst' b ok Hin. eapply datagram_of_app, Hs, Hin. }
  pose proof (length_filter large hist) as Hfl.
  destruct (Z.leb_spec (Z.of_nat (length (wire (type, msg)))) MAX_UDP_MESSAGE_SIZE) as [Hle|Hgt].
  - assert (¬ large (type, msg)) as Hnl by (unfold large; lia). unfold sendto, post, mret, M_ret. split; simpl.
    + rewrite Hl, filter_app, filter_cons, decide_False by done. simpl. by rewrite app_nil_r.
    + intros fd' dst' b ok [Hin|Heq%list_elem_of_singleton]%elem_of_app; [by eapply Hs1|]. simplify_eq.
      left. exists (type, msg). set_solver.
  - run. run. set (t2 := t1 <| lastFragMsgId ::= _ |>).
    assert (lastFragMsgId t2 = Z.of_nat (length (filter large hist)) + 1) as Hid.
    { unfold t2, t1. simpl. rewrite Hl. apply u64_incr_small; lia. }
    rewrite Hid. eapply post_mono.
    + apply (send_fragments_ok (hist ++ [(type, msg)]) fd dst _ (type, msg) (numbered_last hist (type, msg) Hgt) ltac:(lia) _ 0 t2);
        [lia|lia|exact Hs1].
    + intros ok t3 [Hl3 Hs3]. unfold post, mret, M_ret. split; [|exact Hs3].
      rewrite Hl3, Hid, filter_app, filter_cons, decide_True by done. rewrite length_app. simpl. lia.
Qed.

Lemma send_messages_ok l : ∀ hist t, sender_ok hist t → Z.of_nat (length (hist ++ (content <$> l))) < 2 ^ 64 →
  wp (for_each l send_message) (λ _ t', sender_ok (hist ++ (content <$> l)) t') t.
Proof.
  induction l as [|x l IH]; intros hist t Ht Hlen; [simpl; rewrite app_nil_r; exact Ht|].
  rewrite length_app, length_fmap in Hlen. simpl in Hlen.
  assert (hist ++ (content <$> x :: l) = (hist ++ [content x]) ++ (content <$> l)) as -> by (by rewrite <- (assoc_L (++))).
  cbn [for_each]. apply post_bind. eapply post_mono; [apply (send_message_ok hist t x Ht); lia|]. intros u t1 Ht1. simpl in Ht1.
  apply IH; [done|]. rewrite !length_app, length_fmap. simpl. lia.
Qed.

Lemma sender_ok_new d r : sender_ok [] (UDPTransport_new d r).
Proof. split; [done|]. intros fd dst b ok Hin. by apply elem_of_nil in Hin. Qed.
End sending.

(** ** What a receiver delivers *)

Section receiving.
Context `{!Dice} (hist : Z → list message).
Context (Hhist : ∀ a m, m ∈ hist a → m.1 ≠ [] ∧ fits (wire m)).
Implicit Types (t : UDPTransport) (a fd : Z).

(** Everything that arrives was put on the wire by its sender. *)
Definition genuine (x : recv) : Prop :=
  match x with Received a b => datagram_of (hist a) b | ReceiveError => False end.

(** A socket with a receiver, or with a multicast configuration all of whose replicas have an
    address. *)
Definition can_deliver t fd : Prop :=
  match multicastConfigs t !! fd with
  | Some cfg => ∀ i r, default ∅ (replicaReceivers t !! cfg) !! i = Some r →
      is_Some (default ∅ (replicaAddresses t !! cfg) !! i)
  | None => is_Some (default None (receivers t !! fd))
  end.

(** The tables mean the same: at most empty entries were inserted. *)
Record same_tables t t' : Prop := {
  st_multicast : multicastConfigs t' = multicastConfigs t;
  st_receivers : ∀ fd, default None (receivers t' !! fd) = default None (receivers t !! fd);
  st_replicas : ∀ cfg, default ∅ (replicaReceivers t' !! cfg) = default ∅ (replicaReceivers t !! cfg);
  st_addresses : ∀ cfg, default ∅ (replicaAddresses t' !! cfg) = default ∅ (replicaAddresses t !! cfg)
}.

#[local] Instance same_tables_preorder : PreOrder same_tables.
Proof.
  split; [by split|]. intros t1 t2 t3 [A1 B1 C1 D1] [A2 B2 C2 D2].
  split; intros; [by rewrite A2|by rewrite B2|by rewrite C2|by rewrite D2].
Qed.

Lemma can_deliver_same t t' fd : same_tables t t' → can_deliver t fd → can_deliver t' fd.
Proof.
  intros [A B C D]. unfold can_deliver. rewrite A. destruct (multicastConfigs t !! fd); [by rewrite C, D|by rewrite B].
Qed.

Definition frag_ok a (i : FragInfo) : Prop :=
  msgId i = 0 ∨ ∃ m, numbered (hist a) (msgId i) = Some m ∧ data i = take (length (data i)) (wire m).

Record receiver_ok t : Prop := {
  rk_sockets : ∀ fd q x, sockets t !! fd = Some q → x ∈ q → genuine x ∧ can_deliver t fd;
  rk_frag : ∀ a i, fragInfo t !! a = Some i → frag_ok a i;
  rk_reorder : ∀ b, reorderBuffer t = Some b → (ro_msgType b, ro_message b) ∈ hist (ro_addr b) ∧ can_deliver t (ro_fd b);
  rk_delivered : ∀ r a ty msg, (r, a, ty, msg) ∈ delivered t → (ty, msg) ∈ hist a
}.

(** The part of the state that delivery leaves alone. *)
Definition kept t t' : Prop :=
  same_tables t t' ∧ sockets t' = sockets t ∧ fragInfo t' = fragInfo t ∧ reorderBuffer t' = reorderBuffer t.

#[local] Instance kept_preorder : PreOrder kept.
Proof.
  split; [by split|]. intros t1 t2 t3 (A1 & B1 & C1 & D1) (A2 & B2 & C2 & D2). split_and!; [by etrans|congruence..].
Qed.

Lemma receiver_ok_kept t t' :
  receiver_ok t → kept t t' → (∀ r a ty msg, (r, a, ty, msg) ∈ delivered t' → (ty, msg) ∈ hist a) → receiver_ok t'.
Proof.
  intros [Hs Hf Hr Hd] (Ht & Es & Ef & Er) Hd'. split; rewrite ?Es, ?Ef, ?Er; [|done| |done].
  - intros fd q x Hq Hx. destruct (Hs fd q x Hq Hx) as [Hg Hc]. split; [done|by eapply can_deliver_same].
  - intros b Hb. destruct (Hr b Hb) as [Hg Hc]. split; [done|by eapply can_deliver_same].
Qed.

Lemma ReceiveMessage_ok t r a ty msg :
  receiver_ok t → (ty, msg) ∈ hist a → wp (ReceiveMessage r a ty msg) (λ _ t', receiver_ok t' ∧ kept t t') t.
Proof.
  intros Ht Hm. unfold ReceiveMessage, post, modify. split; [|by split_and!].
  eapply receiver_ok_kept; [exact Ht|by split_and!|]. simpl.
  intros r' a' ty' msg' [Hin|Heq%list_elem_of_singleton]%elem_of_app; [by eapply rk_delivered|]. by simplify_eq.
Qed.

Lemma default_insert {A} (m : gmap Z A) (d : A) k j : default d (<[k := default d (m !! k)]> m !! j) = default d (m !! j).
Proof. rewrite lookup_insert. case_decide; by subst. Qed.

Lemma deliver_ok t fd a ty msg :
  receiver_ok t → can_deliver t fd → (ty, msg) ∈ hist a →
  wp (deliver fd a ty msg) (λ _ t', receiver_ok t' ∧ kept t t') t.
Proof.
  intros Ht Hc Hm. unfold deliver. apply post_get. unfold can_deliver in Hc.
  destruct (multicastConfigs t !! fd) as [cfg|] eqn:Hmc.
  - set (rs := default ∅ (replicaReceivers t !! cfg)) in *. cbv zeta. run. set (t1 := t <| replicaReceivers ::= _ |>).
    assert (kept t t1) as Hk1.
    { split_and!; [|done..]. split; try done. intros c. apply default_insert. }
    apply (post_for_each _ _ _ (λ t', receiver_ok t' ∧ kept t t')).
    { split; [|done]. by apply (receiver_ok_kept t t1 Ht Hk1), (rk_delivered _ Ht). }
    intros [i r] t2 Hin [Ht2 Hk2]. rewrite by_key_perm in Hin. apply elem_of_map_to_list in Hin.
    destruct (Hc i r Hin) as [raddr Hraddr]. apply post_get. cbv zeta. run. set (t3 := t2 <| replicaAddresses ::= _ |>).
    assert (kept t2 t3) as Hk3.
    { split_and!; [|done..]. split; try done. intros c. apply default_insert. }
    simpl. rewrite (st_addresses _ _ (proj1 Hk2)), Hraddr. run.
    assert (receiver_ok t3) as Ht3 by (by apply (receiver_ok_kept t2 t3 Ht2 Hk3), (rk_delivered _ Ht2)).
    destruct (raddr =? a); simpl; [by split; [|etrans; [exact Hk2|]]|].
    eapply post_mono; [by apply ReceiveMessage_ok|]. intros u t4 [Ht4 Hk4]. split; [done|]. etrans; [exact Hk2|by etrans].
  - destruct Hc as [r Hr]. cbv zeta. run. set (t1 := t <| receivers ::= _ |>).
    assert (kept t t1) as Hk1.
    { split_and!; [|done..]. split; try done. intros c. apply default_insert. }
    rewrite Hr. run. eapply post_mono; [apply ReceiveMessage_ok; [|done]|].
    + by apply (receiver_ok_kept t t1 Ht Hk1), (rk_delivered _ Ht).
    + intros u t2 [Ht2 Hk2]. split; [done|by etrans].
Qed.

Lemma numbered_elem l id m : numbered l id = Some m → m ∈ l ∧ 1 ≤ id.
Proof.
  unfold numbered. destruct (Z.leb_spec id 0); [done|]. intros Hm%list_elem_of_lookup_2.
  apply list_elem_of_filter in Hm as [_ Hm]. split; [done|lia].
Qed.

Lemma wire_decode a m : m ∈ hist a → DecodePacket (wire m) = Ok m.
Proof. intros Hm. destruct m as [ty msg]. apply decode_serialize, (Hhist a _ Hm). Qed.

(** What decoding leaves alone. *)
Definition same_but_fragments t t' : Prop :=
  same_tables t t' ∧ sockets t' = sockets t ∧ reorderBuffer t' = reorderBuffer t ∧ delivered t' = delivered t.

Lemma set_fragment_ok t a i :
  receiver_ok t → frag_ok a i →
  let t' := t <| fragInfo ::= <[a := i]> |> in receiver_ok t' ∧ same_but_fragments t t'.
Proof.
  intros [Hs Hf Hr Hd] Hi. simpl. split; [|by split_and!]. split; simpl; [done| |done..].
  intros a' i' [[-> ->]|[_ Hi']]%lookup_insert_Some; [done|by apply Hf].
Qed.

(** A piece of a message: the pieces kept so far stay a prefix of that message, and the packet
    completed is the message. *)
Lemma reassemble_ok t a id m start :
  receiver_ok t → numbered (hist a) id = Some m → 0 ≤ start →
  let len := Z.of_nat (length (wire m)) in
  wp (reassemble a id start len (take (Z.to_nat (Z.min (len - start) MAX_UDP_MESSAGE_SIZE)) (drop (Z.to_nat start) (wire m))))
    (λ p t', receiver_ok t' ∧ same_but_fragments t t' ∧ (p = None ∨ p = Some (wire m))) t.
Proof.
  intros Ht Hm Hstart len. destruct (numbered_elem _ _ _ Hm) as [_ Hid]. unfold reassemble, post. cbv zeta.
  set (i0 := default _ _). set (i1 := if msgId i0 =? 0 then _ else i0). set (i2 := if negb _ then _ else i1).
  assert (frag_ok a i0) as Hi0.
  { unfold i0. destruct (fragInfo t !! a) eqn:Hi; [by eapply rk_frag|by left]. }
  assert (msgId i2 = id ∧ data i2 = take (length (data i2)) (wire m)) as [Hi2 Hd2].
  { unfold i2, i1. destruct (Z.eqb_spec (msgId i0) 0) as [E|E]; simpl; [by rewrite Z.eqb_refl|].
    destruct (Z.eqb_spec (msgId i0) id) as [E'|E']; simpl; [|done].
    destruct Hi0 as [|(m' & Hm' & Hd)]; [done|]. split; [done|]. rewrite E' in Hm'. by simplify_eq. }
  assert (∀ d, d = take (length d) (wire m) → frag_ok a (MkFragInfo (msgId i2) d)) as Hfrag.
  { intros d Hd. right. exists m. by rewrite Hi2. }
  destruct (Z.eqb_spec start (Z.of_nat (length (data i2)))) as [Es|Es]; simpl.
  2: { destruct (set_fragment_ok t a i2 Ht) as [? ?]; [destruct i2; by apply Hfrag|]. auto. }
  set (chunk := take _ _). set (d := data i2 ++ chunk).
  assert (d = take (length d) (wire m)) as Hd.
  { assert (∃ k, d = take k (wire m)) as [k Hk].
    { unfold d, chunk. rewrite Es, Nat2Z.id. set (k := Z.to_nat _).
      exists (length (data i2) + k)%nat. rewrite <- take_take_drop. by rewrite <- Hd2. }
    rewrite Hk, length_take. destruct (Nat.le_gt_cases k (length (wire m))).
    - by rewrite Nat.min_l.
    - by rewrite Nat.min_r, !take_ge by lia. }
  destruct (Z.eqb_spec (Z.of_nat (length d)) len) as [El|El].
  - destruct (set_fragment_ok t a (MkFragInfo 0 []) Ht) as [? ?]; [by left|]. split_and!; [done..|]. right.
    rewrite Hd. rewrite take_ge by lia. done.
  - destruct (set_fragment_ok t a (MkFragInfo (msgId i2) d) Ht (Hfrag d Hd)) as [? ?]. auto.
Qed.

Lemma decode_datagram_ok t a b :
  receiver_ok t → datagram_of (hist a) b →
  wp (decode_datagram a b)
    (λ m t', receiver_ok t' ∧ same_but_fragments t t' ∧ ∀ x, m = Some x → x ∈ hist a) t.
Proof.
  intros Ht [(m & Hm & _ & ->)|(id & m & start & Hm & Hs & Hid & ->)].
  - destruct (Hhist a m Hm) as [Hty Hf]. unfold post. rewrite decode_whole by done.
    split_and!; [done|by split_and!|]. by intros x [= <-].
  - destruct (numbered_elem _ _ _ Hm) as [Hin Hid1]. destruct (Hhist a m Hin) as [_ Hf]. unfold fits in Hf.
    unfold decode_datagram, fragment. do 4 (rewrite read_size_app by lia; run; cbn [negb Z.eqb]). apply post_bind.
    eapply post_mono; [apply (reassemble_ok t a id m start Ht Hm); lia|].
    intros p t' (Ht' & Hk & [->| ->]).
    + by unfold post, mret, M_ret.
    + rewrite (wire_decode a m Hin). run. unfold post, mret, M_ret. split_and!; [done..|]. by intros x [= <-].
Qed.


Lemma kept_socket t t' : kept t t' → sockets t' = sockets t.
Proof. by intros (_ & ? & _). Qed.

Lemma set_reorder_ok t o :
  receiver_ok t →
  (∀ b, o = Some b → (ro_msgType b, ro_message b) ∈ hist (ro_addr b) ∧ can_deliver t (ro_fd b)) →
  receiver_ok (t <| reorderBuffer := o |>).
Proof. intros [Hs Hf Hr Hd] Ho. by split. Qed.

(** Dispatch delivers the message, or the message and the one held back, or nothing. *)
Lemma dispatch_ok t fd a ty msg :
  receiver_ok t → can_deliver t fd → (ty, msg) ∈ hist a →
  wp (dispatch fd a ty msg) (λ _ t', receiver_ok t' ∧ same_tables t t' ∧ sockets t' = sockets t) t.
Proof.
  intros Ht Hc Hm. unfold dispatch. apply post_get, post_bind.
  apply (post_mono _ _ (λ _ t', receiver_ok t' ∧ kept t t')).
  { destruct (drops t); [|by split]. split; [|by split_and!]. destruct Ht. by split. }
  intros d t1 [Ht1 Hk1]. destruct d; [unfold post, mret, M_ret; split_and!; [done|apply Hk1|by apply kept_socket]|].
  apply post_get, post_bind. apply (post_mono _ _ (λ _ t', receiver_ok t' ∧ kept t t')).
  { destruct (_ && _); [|by split]. split; [destruct Ht1; by split|]. etrans; [exact Hk1|by split_and!]. }
  intros h t2 [Ht2 Hk2]. assert (can_deliver t2 fd) as Hc2 by (eapply can_deliver_same, Hc; apply Hk2).
  destruct h.
  { run. unfold post, mret, M_ret. split_and!; [|etrans; [apply Hk2|by split]|by apply (kept_socket t t2)].
    apply set_reorder_ok; [done|]. by intros b [= <-]. }
  apply post_bind. eapply post_mono; [by apply deliver_ok|]. intros u t3 [Ht3 Hk3].
  assert (kept t t3) as Hk by (by etrans). apply post_get.
  destruct (reorderBuffer t3) as [b|] eqn:Hb.
  2: { unfold post, mret, M_ret. split_and!; [done|apply Hk|by apply kept_socket]. }
  destruct (rk_reorder t3 Ht3 b Hb) as [Hbm Hbc]. run. set (t4 := t3 <| reorderBuffer := None |>).
  assert (receiver_ok t4) as Ht4 by (by apply set_reorder_ok).
  apply post_bind. eapply post_mono; [by apply (deliver_ok t4 (ro_fd b))|]. intros u' t5 [Ht5 Hk5].
  unfold post, mret, M_ret. split_and!; [done|etrans; [apply Hk|etrans; [|apply Hk5]]; by split|].
  rewrite (kept_socket _ _ Hk5). by apply (kept_socket t t3).
Qed.

(** Every round takes one datagram from some socket, so that the loop ends. *)
Lemma queued_take t fd x q :
  sockets t !! fd = Some (x :: q) → queued t = S (queued (t <| sockets ::= <[fd := q]> |>)).
Proof.
  intros Hq. unfold queued. simpl. rewrite map_sum_update, Hq.
  pose proof (map_sum_nonneg (λ l : list recv, Z.of_nat (length l)) (delete fd (sockets t)) (λ l, Nat2Z.is_nonneg (length l))) as Hnn.
  rewrite (map_sum_split _ (sockets t) fd), Hq. cbn [from_option length]. lia.
Qed.

Lemma datagram_size l b : (∀ m, m ∈ l → fits (wire m)) → datagram_of l b → Z.of_nat (length b) ≤ BUFSIZE.
Proof.
  intros Hl [(m & _ & Hs & ->)|(id & m & start & Hm & Hs & Hid & ->)].
  - unfold large, MAX_UDP_MESSAGE_SIZE, BUFSIZE in *. lia.
  - unfold fragment. rewrite !length_app, !length_size_t, length_take. unfold MAX_UDP_MESSAGE_SIZE, BUFSIZE. lia.
Qed.

Lemma read_loop_ok fuel : ∀ fd t,
  (queued t < fuel)%nat → receiver_ok t →
  wp (read_loop fuel fd) (λ _ t', receiver_ok t' ∧ same_tables t t') t.
Proof.
  induction fuel as [|fuel IH]; intros fd t Hfuel Ht; [lia|]. cbn [read_loop]. apply post_get.
  destruct (sockets t !! fd) as [[|x q]|] eqn:Hq; simpl; [by split| |by split].
  destruct (rk_sockets t Ht fd _ x Hq) as [Hg Hc]; [set_solver|]. destruct x as [a b|]; [|done]. simpl in Hg.
  run. pose proof (queued_take t fd _ _ Hq) as Hqt. set (t1 := t <| sockets ::= _ |>) in *.
  assert (receiver_ok t1) as Ht1.
  { destruct Ht as [Hs Hf Hr Hd]. split; [|done..]. simpl. intros fd' q' y [[-> ->]|[_ Hq']]%lookup_insert_Some Hy.
    - apply (Hs fd' _ y Hq). by right.
    - by apply (Hs fd' q'). }
  rewrite take_ge by (pose proof (datagram_size (hist a) b (λ m Hm, proj2 (Hhist a m Hm)) Hg); lia).
  apply post_bind. eapply post_mono; [by apply (decode_datagram_ok t1 a b)|].
  intros m t2 (Ht2 & (Hsame & Es & _) & Hm). assert (queued t2 = queued t1) as Eq by (unfold queued; by rewrite Es).
  assert (same_tables t t2) as Hs2 by (etrans; [|exact Hsame]; by split).
  destruct m as [[ty msg]|].
  - apply post_bind. eapply post_mono.
    { apply (dispatch_ok t2 fd a ty msg Ht2); [by eapply can_deliver_same|by apply Hm]. }
    intros fd' t3 (Ht3 & Hs3 & E3). eapply post_mono.
    + apply IH; [|done]. unfold queued in *. rewrite E3. lia.
    + intros u t4 [Ht4 Hs4]. split; [done|]. etrans; [exact Hs2|by etrans].
  - eapply post_mono; [apply IH; [lia|done]|]. intros u t4 [Ht4 Hs4]. split; [done|by etrans].
Qed.
End receiving.

(** ** Runs of a receiver *)

(** A datagram arrives at a socket, or the event loop finds a socket readable. *)
Inductive event := Arrive (fd sender : Z) (b : bytes) | Readable (fd : Z).

Definition handle `{!Dice} (e : event) : M UDPTransport unit :=
  match e with
  | Arrive fd a b => modify (λ t, t <| sockets ::= <[fd := default [] (sockets t !! fd) ++ [Received a b]]> |>)
  | Readable fd => OnReadable fd
  end.

(** Nothing has arrived, and nothing is held back or half received. *)
Definition idle (t : UDPTransport) : Prop :=
  sockets t = ∅ ∧ fragInfo t = ∅ ∧ reorderBuffer t = None ∧ delivered t = [].

Lemma idle_ok hist t : idle t → receiver_ok hist t.
Proof.
  intros (Es & Ef & Er & Ed). split.
  - intros fd q x. by rewrite Es, lookup_empty.
  - intros a i. by rewrite Ef, lookup_empty.
  - intros b. by rewrite Er.
  - intros r a ty msg. rewrite Ed. by intros Hin%elem_of_nil.
Qed.

Lemma handle_ok `{!Dice} hist (Hhist : ∀ a m, m ∈ hist a → m.1 ≠ [] ∧ fits (wire m)) t e :
  receiver_ok hist t →
  match e with Arrive fd a b => datagram_of (hist a) b ∧ can_deliver t fd | Readable _ => True end →
  wp (handle e) (λ _ t', receiver_ok hist t' ∧ same_tables t t') t.
Proof.
  intros Ht He. destruct e as [fd a b|fd]; simpl.
  - destruct Ht as [Hs Hf Hr Hd]. unfold post, modify. split; [|by split]. split; [|done..]. simpl.
    intros fd' q x [[-> <-]|[_ Hq]]%lookup_insert_Some Hx; [|by apply (Hs fd' q)].
    apply elem_of_app in Hx as [Hx|Hx%list_elem_of_singleton]; [|by subst].
    destruct (sockets t !! fd') as [q0|] eqn:Hq0; [by apply (Hs fd' q0)|by apply elem_of_nil in Hx].
  - unfold OnReadable. apply post_get, read_loop_ok; [done|lia|done].
Qed.

Lemma handle_all_ok `{!Dice} hist (Hhist : ∀ a m, m ∈ hist a → m.1 ≠ [] ∧ fits (wire m)) evs t :
  receiver_ok hist t →
  (∀ fd a b, Arrive fd a b ∈ evs → datagram_of (hist a) b ∧ can_deliver t fd) →
  wp (for_each evs handle) (λ _ t', receiver_ok hist t' ∧ same_tables t t') t.
Proof.
  intros Ht Hevs. apply (post_for_each _ _ _ (λ t', receiver_ok hist t' ∧ same_tables t t')); [by split|].
  intros e t1 He [Ht1 Hs1]. eapply post_mono.
  - apply (handle_ok hist Hhist t1 e Ht1). destruct e as [fd a b|]; [|done].
    destruct (Hevs fd a b He). split; [done|by eapply can_deliver_same].
  - intros u t2 [Ht2 Hs2]. split; [done|]. destruct Hs1 as [A1 B1 C1 D1], Hs2 as [A2 B2 C2 D2].
    split; intros; [by rewrite A2|by rewrite B2|by rewrite C2|by rewrite D2].
Qed.

(** C29: However the network loses, duplicates and reorders datagrams, and whatever is dropped
    and held back on purpose, a transport's event handling returns and delivers only messages
    that the named sender was asked to send, with their type and contents: no message is made
    up from fragments of different ones. *)
Theorem udp_delivers_only_what_was_sent `{!Dice} (net : Z → Network) (reqs : Z → list request)
    (T : Z → UDPTransport) (R : UDPTransport) (evs : list event) :
  (∀ a, for_each (reqs a) (send_message (H := net a)) (UDPTransport_new false false) = Ok (tt, T a)) →
  (∀ a x, x ∈ reqs a → x.1.2 ≠ [] ∧ fits (SerializeMessage x.1.2 x.2)) →
  (∀ a, Z.of_nat (length (reqs a)) < 2 ^ 64) →
  idle R →
  (∀ fd a b, Arrive fd a b ∈ evs → (∃ sfd dst, (sfd, dst, b, true) ∈ sent (T a)) ∧ can_deliver R fd) →
  ∃ R', for_each evs handle R = Ok (tt, R') ∧
    ∀ r a ty msg, (r, a, ty, msg) ∈ delivered R' → ∃ src dst, (src, dst, ty, msg) ∈ reqs a.
Proof.
  intros HT Hreqs Hlen HR Hevs. set (hist a := content <$> reqs a).
  assert (∀ a m, m ∈ hist a → m.1 ≠ [] ∧ fits (wire m)) as Hhist.
  { intros a m (x & -> & Hx)%list_elem_of_fmap. by apply (Hreqs a). }
  assert (∀ a, sender_ok (hist a) (T a)) as Hsend.
  { intros a. pose proof (send_messages_ok (H := net a) (reqs a) [] (UDPTransport_new false false) (sender_ok_new _ _)) as Hs.
    unfold post in Hs. rewrite HT in Hs. apply Hs. simpl. by rewrite length_fmap. }
  pose proof (handle_all_ok hist Hhist evs R (idle_ok hist R HR)) as Hw.
  apply wp_run in Hw as ([] & R' & Hrun & HR' & _).
  - exists R'. split; [done|]. intros r a ty msg Hin.
    apply (rk_delivered _ _ HR') in Hin. apply list_elem_of_fmap in Hin as ([[[src dst] ty'] msg'] & [= -> ->] & Hx). eauto.
  - intros fd a b He. destruct (Hevs fd a b He) as [(sfd & dst & Hb) Hc]. split; [|done]. by eapply so_sent.
Qed.

Section demo.
Definition demo_type : bytes := [Byte.x41; Byte.x42].
Definition demo_message : bytes := [Byte.x07; Byte.x08].
Definition udp_demo_reqs (a : Z) : list request := if a =? 7 then [(0, 1, demo_type, demo_message); (0, 1, demo_type, [])] else [].
Definition udp_demo_network : Network := λ _, true.
Definition udp_demo_dice : Dice := λ _, false.

Definition udp_demo_sender (a : Z) : UDPTransport :=
  match for_each (udp_demo_reqs a) (send_message (H := udp_demo_network)) (UDPTransport_new false false) with
  | Ok (_, t) => t
  | _ => UDPTransport_new false false
  end.

Definition udp_demo_receiver : UDPTransport := UDPTransport_new true true <| receivers := {[3 := Some 9]} |>.

Definition udp_demo_datagram (i : nat) : bytes := default [] (x ← sent (udp_demo_sender 7) !! i; Some x.1.2).

(** The second datagram overtakes the first one, and comes again. *)
Definition udp_demo_events : list event :=
  [Arrive 3 7 (udp_demo_datagram 1); Arrive 3 7 (udp_demo_datagram 0); Arrive 3 7 (udp_demo_datagram 1); Readable 3].

Lemma udp_delivers_only_what_was_sent_witness :
  ∃ R', for_each udp_demo_events (handle (H := udp_demo_dice)) udp_demo_receiver = Ok (tt, R') ∧
    ∀ r a ty msg, (r, a, ty, msg) ∈ delivered R' → ∃ src dst, (src, dst, ty, msg) ∈ udp_demo_reqs a.
Proof.
  apply (udp_delivers_only_what_was_sent (H := udp_demo_dice) (λ _, udp_demo_network) udp_demo_reqs udp_demo_sender).
  - intros a. unfold udp_demo_sender, udp_demo_reqs. destruct (a =? 7); vm_compute; reflexivity.
  - intros a x. unfold udp_demo_reqs. destruct (a =? 7); [|by intros ?%elem_of_nil].
    rewrite !elem_of_cons. intros [->|[->|?%elem_of_nil]]; [..|done]; (split; [done|]); vm_compute; reflexivity.
  - intros a. unfold udp_demo_reqs. destruct (a =? 7); vm_compute; reflexivity.
  - by split_and!.
  - intros fd a b He. split.
    + exists 0, 1. unfold udp_demo_events in He. rewrite !elem_of_cons in He.
      destruct He as [[= -> -> ->]|[[= -> -> ->]|[[= -> -> ->]|[?|?%elem_of_nil]]]];
        [apply (list_elem_of_lookup_2 _ 1)|apply (list_elem_of_lookup_2 _ 0)|apply (list_elem_of_lookup_2 _ 1)|done|done]; reflexivity.
    + unfold udp_demo_events in He. rewrite !elem_of_cons in He.
      destruct He as [[= -> -> ->]|[[= -> -> ->]|[[= -> -> ->]|[?|?%elem_of_nil]]]]; [..|done|done]; by exists 9.
Defined.
End demo.

(** ** A message that arrives as it was sent *)

Section roundtrip.
Context `{!Network} `{!Dice} (Hnet : ∀ n, send_ok n = true).

(** The datagrams of the fragments from [start] on, with [rest] of the message left. *)
Fixpoint pieces (fuel : nat) (id start len : Z) (rest : bytes) : list bytes :=
  match fuel with
  | O => []
  | S fuel =>
      if start <? len then
        let k := Z.to_nat (Z.min (len - start) MAX_UDP_MESSAGE_SIZE) in
        fragment id start len (take k rest) :: pieces fuel id (start + MAX_UDP_MESSAGE_SIZE) len (drop k rest)
      else []
  end.

Definition sent_by (fd dst : Z) (b : bytes) : Z * Z * bytes * bool := (fd, dst, b, true).

Lemma send_fragments_run fd dst id len fuel : ∀ start rest t,
  0 ≤ start → (Z.to_nat (len - start) < fuel)%nat →
  send_fragments fuel fd dst id start len rest t =
    Ok (true, t <| sent ::= (λ l, l ++ (sent_by fd dst <$> pieces fuel id start len rest)) |>).
Proof.
  induction fuel as [|fuel IH]; intros start rest t Hs Hf; [lia|]. cbn [send_fragments pieces].
  destruct (Z.ltb_spec start len) as [Hlt|Hge].
  - unfold mbind at 1, M_bind at 1, sendto. rewrite Hnet. rewrite IH by (unfold MAX_UDP_MESSAGE_SIZE; lia).
    destruct t. simpl. by rewrite <- (assoc_L (++)).
  - destruct t. simpl. by rewrite app_nil_r.
Qed.

(** What the receiver has of packet [id] when a fragment of it arrives. *)
Definition slot (t : UDPTransport) (a id : Z) : FragInfo :=
  let i0 := default (MkFragInfo 0 []) (fragInfo t !! a) in
  let i1 := if msgId i0 =? 0 then MkFragInfo id [] else i0 in
  if negb (msgId i1 =? id) then MkFragInfo id [] else i1.

Lemma slot_fresh t a id : (∀ i, fragInfo t !! a = Some i → msgId i ≠ id) → id ≠ 0 → slot t a id = MkFragInfo id [].
Proof.
  intros Hf Hid. unfold slot. destruct (fragInfo t !! a) as [i|]; simpl; [|by rewrite Z.eqb_refl].
  destruct (Z.eqb_spec (msgId i) 0); simpl; [by rewrite Z.eqb_refl|].
  by rewrite (proj2 (Z.eqb_neq _ _) (Hf i eq_refl)).
Qed.

Lemma slot_insert t a id d : id ≠ 0 → slot (t <| fragInfo ::= <[a := MkFragInfo id d]> |>) a id = MkFragInfo id d.
Proof.
  intros Hid. unfold slot. simpl. rewrite lookup_insert_eq. simpl. rewrite (proj2 (Z.eqb_neq _ _) Hid).
  cbn [msgId]. by rewrite Z.eqb_refl.
Qed.

(** A socket of [fd] that delivers to [r], in a transport that neither drops nor holds back. *)
Record plain (fd r : Z) (t : UDPTransport) : Prop := {
  pl_drops : drops t = false;
  pl_reorders : reorders t = false;
  pl_reorderBuffer : reorderBuffer t = None;
  pl_multicast : multicastConfigs t !! fd = None;
  pl_receiver : receivers t !! fd = Some (Some r)
}.

Lemma dispatch_plain fd r a ty msg t :
  plain fd r t → dispatch fd a ty msg t =
    Ok (fd, t <| receivers ::= <[fd := Some r]> |> <| delivered ::= (λ l, l ++ [(r, a, ty, msg)]) |>).
Proof.
  intros [Hd Hr Hb Hm Hrc]. unfold dispatch, deliver, mbind, M_bind, get_st. rewrite Hd. simpl. unfold mret, M_ret.
  rewrite Hr, andb_false_r, Hm, Hrc. simpl. by rewrite Hb, Hr.
Qed.

(** The last round of the loop: the message is delivered and the socket is empty. *)
Lemma read_loop_last fuel fd r a m t :
  plain fd r t → sockets t !! fd = Some [] →
  ∃ t', (fd' ← dispatch fd a m.1 m.2; read_loop (S fuel) fd') t = Ok (tt, t') ∧
    delivered t' = delivered t ++ [(r, a, m.1, m.2)] ∧ sockets t' = sockets t.
Proof.
  intros Hp Hs. unfold mbind, M_bind at 1. rewrite (dispatch_plain fd r) by done. cbn [read_loop].
  unfold mbind, M_bind, get_st. simpl. rewrite Hs. simpl. eexists. by split_and!.
Qed.

Lemma set_socket_plain fd r t q : plain fd r t → plain fd r (t <| sockets ::= <[fd := q]> |>).
Proof. intros []. by split. Qed.

Lemma set_fragments_plain fd r t f : plain fd r t → plain fd r (t <| fragInfo ::= f |>).
Proof. intros []. by split. Qed.

Lemma decode_fragment a id start len chunk :
  0 ≤ id < 2 ^ 64 → 0 ≤ start < len → len < 2 ^ 64 →
  ∀ t, decode_datagram a (fragment id start len chunk) t =
    (packet ← reassemble a id start len chunk;
     match packet with Some d => m ← lift_res (DecodePacket d); mret (Some m) | None => mret None end) t.
Proof.
  intros Hid Hs Hl t. unfold decode_datagram, fragment.
  do 4 (erewrite bind_run by (rewrite read_size_app by lia; reflexivity); cbn [negb Z.eqb]). done.
Qed.

Lemma reassemble_slot t a id d len chunk :
  slot t a id = MkFragInfo id d →
  reassemble a id (Z.of_nat (length d)) len chunk t =
    if Z.of_nat (length (d ++ chunk)) =? len then Ok (Some (d ++ chunk), t <| fragInfo ::= <[a := MkFragInfo 0 []]> |>)
    else Ok (None, t <| fragInfo ::= <[a := MkFragInfo id (d ++ chunk)]> |>).
Proof.
  intros Hs. unfold reassemble. unfold slot in Hs. cbv zeta in *. rewrite Hs. cbn [data msgId]. by rewrite Z.eqb_refl.
Qed.

Lemma pieces_end fuel id start len rest : len ≤ start → pieces fuel id start len rest = [].
Proof. intros Hs. destruct fuel; simpl; [done|]. by rewrite (proj2 (Z.ltb_ge _ _)). Qed.

Lemma read_loop_datagram fuel fd a b q t :
  sockets t !! fd = Some (Received a b :: q) → Z.of_nat (length b) ≤ BUFSIZE →
  read_loop (S fuel) fd t =
    (m ← decode_datagram a b;
     match m with None => read_loop fuel fd | Some (ty, msg) => fd' ← dispatch fd a ty msg; read_loop fuel fd' end)
      (t <| sockets ::= <[fd := q]> |>).
Proof.
  intros Hq Hb. cbn [read_loop]. rewrite (bind_run get_st _ t t t) by done. rewrite Hq. cbn [from_option Datatypes.id].
  erewrite bind_run by reflexivity. by rewrite take_ge by lia.
Qed.

(** The fragments that are left complete the message. *)
Lemma read_pieces fd r a id m :
  let w := wire m in let len := Z.of_nat (length w) in
  0 < id < 2 ^ 64 → fits w → ∀ fuel start rfuel t,
  0 ≤ start < len → (Z.to_nat (len - start) < fuel)%nat →
  let ps := pieces fuel id start len (drop (Z.to_nat start) w) in
  (length ps < rfuel)%nat → plain fd r t → sockets t !! fd = Some (Received a <$> ps) →
  slot t a id = MkFragInfo id (take (Z.to_nat start) w) →
  ∃ t', read_loop rfuel fd t = Ok (tt, t') ∧ delivered t' = delivered t ++ [(r, a, m.1, m.2)] ∧
    sockets t' !! fd = Some [].
Proof.
  intros w len Hid Hw. unfold fits in Hw. fold len in Hw.
  induction fuel as [|fuel IH]; intros start rfuel t Hs Hf; [lia|]. cbn [pieces].
  rewrite (proj2 (Z.ltb_lt _ _)) by lia. cbv zeta. set (k := Z.min _ _). set (chunk := take _ _). cbn [fmap list_fmap].
  intros Hlen Hp Hq Hslot. destruct rfuel as [|rfuel]; [simpl in Hlen; lia|].
  assert (length chunk = Z.to_nat k) as Hchunk.
  { unfold chunk. rewrite length_take, length_drop. unfold k, len in *. lia. }
  rewrite (read_loop_datagram rfuel fd a _ _ t Hq)
    by (unfold fragment; rewrite !length_app, !length_size_t; unfold k, MAX_UDP_MESSAGE_SIZE, BUFSIZE in *; lia).
  set (t1 := t <| sockets ::= _ |>).
  set (next := pieces fuel id _ len _) in *.
  assert (sockets t1 !! fd = Some (Received a <$> next)) as Hq1 by (unfold t1; simpl; by rewrite lookup_insert_eq).
  assert (plain fd r t1) as Hp1 by (by apply set_socket_plain).
  assert (slot t1 a id = MkFragInfo id (take (Z.to_nat start) w)) as Hslot1 by exact Hslot.
  assert (take (Z.to_nat start) w ++ chunk = take (Z.to_nat (start + k)) w) as Hd.
  { unfold chunk. rewrite take_take_drop. f_equal. unfold k, MAX_UDP_MESSAGE_SIZE. lia. }
  assert (Z.of_nat (length (take (Z.to_nat start) w)) = start) as Hstart by (rewrite length_take; unfold len in *; lia).
  assert (Z.of_nat (length (take (Z.to_nat (start + k)) w)) = start + k) as Hk by (rewrite length_take; unfold k, len, MAX_UDP_MESSAGE_SIZE in *; lia).
  pose proof (reassemble_slot t1 a id _ len chunk Hslot1) as Hre. rewrite Hstart, Hd, Hk in Hre.
  unfold mbind at 1, M_bind at 1. rewrite decode_fragment by lia.
  unfold mbind at 1, M_bind at 1. rewrite Hre. clear Hre.
  destruct (Z.eqb_spec (start + k) len) as [E|E].
  - rewrite take_ge by (unfold len in E; lia).
    assert (DecodePacket w = Ok m) as -> by (destruct m; by apply decode_serialize).
    simpl. destruct m as [ty msg]. unfold mbind at 1. unfold next in Hq1. rewrite pieces_end in Hq1 by (unfold k, MAX_UDP_MESSAGE_SIZE in *; lia).
    destruct rfuel as [|rfuel]; [unfold next in Hlen; rewrite pieces_end in Hlen by (unfold k, MAX_UDP_MESSAGE_SIZE in *; lia); simpl in Hlen; lia|].
    destruct (read_loop_last rfuel fd r a (ty, msg) (t1 <| fragInfo ::= <[a := MkFragInfo 0 []]> |>)) as (t' & Hrun & Hdel & Hsock);
      [by apply set_fragments_plain|done|]. exists t'. split_and!; [done..|]. by rewrite Hsock.
  - assert (k = MAX_UDP_MESSAGE_SIZE) as Ek by (unfold k, MAX_UDP_MESSAGE_SIZE in *; lia).
    assert (next = pieces fuel id (start + MAX_UDP_MESSAGE_SIZE) len (drop (Z.to_nat (start + MAX_UDP_MESSAGE_SIZE)) w)) as En.
    { unfold next. rewrite drop_drop. do 2 f_equal. unfold MAX_UDP_MESSAGE_SIZE in *; lia. }
    rewrite En in Hq1, Hlen.
    destruct (IH (start + MAX_UDP_MESSAGE_SIZE) rfuel (t1 <| fragInfo ::= <[a := MkFragInfo id (take (Z.to_nat (start + k)) w)]> |>))
      as (t' & Hrun & Hdel & Hsock);
      [unfold MAX_UDP_MESSAGE_SIZE in *; lia|unfold MAX_UDP_MESSAGE_SIZE in *; lia|simpl in Hlen; lia|by apply set_fragments_plain|done| |].
    + rewrite slot_insert by lia. by rewrite Ek.
    + by exists t'.
Qed.

(** On a network that loses nothing, a send succeeds; and a receiver that neither drops nor
    holds back, has nothing else on the socket and has not seen the number of the packet from
    this sender, delivers the message exactly once, with its type and contents, and leaves the
    socket empty: also when the message was cut into fragments. *)
Theorem udp_message_roundtrip (src dst : Z) (ty msg : bytes) (T : UDPTransport) :
  ty ≠ [] → fits (SerializeMessage ty msg) → 0 ≤ lastFragMsgId T < 2 ^ 64 - 1 →
  ∃ T' ds, SendMessageInternal src dst ty msg T = Ok (true, T') ∧
    sent T' = sent T ++ (sent_by (default 0 (fds T !! src)) dst <$> ds) ∧
    ∀ (fd r a : Z) (R : UDPTransport),
      plain fd r R → sockets R !! fd = Some (Received a <$> ds) →
      (∀ i, fragInfo R !! a = Some i → msgId i ≠ lastFragMsgId T + 1) →
      ∃ R', OnReadable fd R = Ok (tt, R') ∧ delivered R' = delivered R ++ [(r, a, ty, msg)] ∧
        sockets R' !! fd = Some [].
Proof.
  intros Hty Hfit Hlast. unfold SendMessageInternal. cbv zeta. set (fd0 := default 0 _).
  erewrite bind_run by (unfold fd_of; reflexivity). change (SerializeMessage ty msg) with (wire (ty, msg)) in *.
  set (len := Z.of_nat (length (wire (ty, msg)))). fold fd0.
  assert (∀ fd ds R, sockets R !! fd = Some ds → (length ds < S (queued R))%nat) as Hqueued.
  { intros fd ds R Hq. unfold queued. rewrite (map_sum_split _ _ fd), Hq. cbn [from_option].
    pose proof (map_sum_nonneg (λ l : list recv, Z.of_nat (length l)) (delete fd (sockets R)) (λ l, Nat2Z.is_nonneg (length l))). lia. }
  destruct (Z.leb_spec len MAX_UDP_MESSAGE_SIZE) as [Hle|Hgt].
  - eexists _, [wire (ty, msg)]. split; [unfold sendto; by rewrite Hnet|]. split; [done|]. intros fd r a R Hp Hq _.
    unfold OnReadable. rewrite (bind_run get_st _ R R R) by done.
    specialize (Hqueued _ _ _ Hq). destruct (queued R) as [|n]; [simpl in Hqueued; lia|].
    rewrite (read_loop_datagram (S n) fd a _ _ R Hq) by (unfold len, MAX_UDP_MESSAGE_SIZE, BUFSIZE in *; lia).
    unfold mbind at 1, M_bind at 1. rewrite decode_whole by done.
    destruct (read_loop_last n fd r a (ty, msg) (R <| sockets ::= <[fd := []]> |>)) as (R' & Hrun & Hdel & Hsock);
      [by apply set_socket_plain|simpl; by rewrite lookup_insert_eq|].
    exists R'. split_and!; [exact Hrun|done|]. rewrite Hsock. simpl. by rewrite lookup_insert_eq.
  - erewrite bind_run by reflexivity. erewrite bind_run by reflexivity. set (T1 := T <| fds ::= _ |> <| lastFragMsgId ::= _ |>).
    assert (lastFragMsgId T1 = lastFragMsgId T + 1) as Hid by (unfold T1; simpl; apply u64_incr_small; lia).
    rewrite Hid, send_fragments_run by lia. eexists _, _. split_and!; [done..|]. intros fd r a R Hp Hq Hfrag.
    unfold OnReadable. rewrite (bind_run get_st _ R R R) by done. specialize (Hqueued _ _ _ Hq). rewrite length_fmap in Hqueued.
    apply (read_pieces fd r a (lastFragMsgId T + 1) (ty, msg) ltac:(lia) Hfit (S (length (wire (ty, msg)))) 0);
      [unfold MAX_UDP_MESSAGE_SIZE in *; lia|lia|done..|]. by apply slot_fresh; [|lia].
Qed.
End roundtrip.

Definition udp_demo_long : bytes := repeat Byte.x07 (Z.to_nat 40000).

Definition udp_demo_inbox (ds : list bytes) : UDPTransport :=
  UDPTransport_new false false <| receivers := {[3 := Some 9]} |> <| sockets := {[3 := Received 7 <$> ds]} |>.

Lemma udp_message_roundtrip_witness :
  ∃ T' ds, SendMessageInternal (H := udp_demo_network) 0 1 demo_type udp_demo_long (UDPTransport_new false false) = Ok (true, T') ∧
    sent T' = sent_by 0 1 <$> ds ∧
    ∃ R', OnReadable (H0 := udp_demo_dice) 3 (udp_demo_inbox ds) = Ok (tt, R') ∧ delivered R' = [(9, 7, demo_type, udp_demo_long)].
Proof.
  destruct (udp_message_roundtrip (H := udp_demo_network) (H0 := udp_demo_dice) (λ n, eq_refl) 0 1 demo_type udp_demo_long
    (UDPTransport_new false false)) as (T' & ds & Hsend & Hds & Hrecv).
  - done.
  - unfold fits, SerializeMessage. rewrite !length_app, !length_size_t. unfold udp_demo_long. rewrite repeat_length. simpl length. lia.
  - simpl. lia.
  - exists T', ds. split_and!; [done..|]. destruct (Hrecv 3 9 7 (udp_demo_inbox ds)) as (R' & Hrun & Hdel & _); [by split|done..|]. eauto.
Defined.
