(* ===== verification/TCPTransport.v ===== *)
(** The TCP transport: connections, framing of messages and their delivery in
    [lib/tcptransport.cc].

    A [bufferevent] of libevent is named by a number that is not used again; it has the bytes
    received and not yet consumed, the bytes written, and the receiver of the listener it was
    made for.  Using one that was freed is undefined.  [Dialer] decides which connection attempts
    fail at once, [Network] which writes succeed.  The [ASSERT]s expand to nothing in the build,
    so the magic number is not checked.  The timers are those of [Timers]. *)

From coqutil Require Import Byte Word.LittleEndianList.
From S2P Require Import LRReplica.
From S2P Require Import UDPTransport.
From S2P Require Import Prelude.

Definition MAGIC : Z := 0x06121983.

Record BufferEvent := MkBufferEvent { bev_receiver : Z; bev_in : bytes; bev_out : bytes }.

#[global] Instance BufferEvent_eta : Eta BufferEvent := λ b, MkBufferEvent (bev_receiver b) (bev_in b) (bev_out b).

Record TCPTransport := MkTCPTransport {
  bevs : gmap Z BufferEvent;
  nextBev : Z;
  tcpOutgoing : gmap Z Z;
  tcpAddresses : gmap Z Z;
  tcp_attempts : nat;
  tcp_writes : nat;
  tcp_delivered : list (Z * Z * bytes * bytes)
}.

#[global] Instance TCPTransport_eta : Eta TCPTransport := λ t,
  MkTCPTransport (bevs t) (nextBev t) (tcpOutgoing t) (tcpAddresses t) (tcp_attempts t) (tcp_writes t) (tcp_delivered t).

Definition TCPTransport_new : TCPTransport := MkTCPTransport ∅ 0 ∅ ∅ 0 0 [].

Class Dialer := connect_ok : nat → bool.

Inductive bev_event := BEV_EVENT_CONNECTED | BEV_EVENT_ERROR | BEV_EVENT_EOF.

Abbreviation MTcp := (M TCPTransport).

(** [std::map::insert] leaves an entry that is there. *)
Definition insert_new {A} (k : Z) (x : A) (m : gmap Z A) : gmap Z A :=
  match m !! k with Some _ => m | None => <[k := x]> m end.

Definition frame (m : message) : bytes :=
  let totalLen := Z.of_nat (length m.1) + 8 + Z.of_nat (length m.2) + 8 + 8 + 4 in
  le_split 4 MAGIC ++ size_t totalLen ++ size_t (Z.of_nat (length m.1)) ++ m.1 ++
    size_t (Z.of_nat (length m.2)) ++ m.2.

(** [bufferevent_socket_new] with the callbacks of a listener for [receiver]. *)
Definition bufferevent_socket_new (receiver : Z) : MTcp Z := λ t,
  let bev := nextBev t in
  Ok (bev, t <| nextBev ::= Z.succ |> <| bevs ::= <[bev := MkBufferEvent receiver [] []]> |>).

Definition bufferevent_free (bev : Z) : MTcp unit :=
  t ← get_st;
  _ ← deref (bevs t !! bev);
  modify (λ t, t <| bevs ::= delete bev |>).

Definition add_out (buf : bytes) (b : BufferEvent) : BufferEvent := b <| bev_out ::= (λ l, l ++ buf) |>.

Section tcp.
Context `{!Network} `{!Dialer}.

Definition ConnectTCP (src dst : Z) : MTcp unit :=
  bev ← bufferevent_socket_new src;
  n ← gets tcp_attempts;
  _ ← modify (λ t, t <| tcp_attempts ::= S |>);
  if connect_ok n then modify (λ t, t <| tcpOutgoing ::= <[dst := bev]> |> <| tcpAddresses ::= insert_new bev dst |>)
  else bufferevent_free bev.

Definition bufferevent_write (bev : Z) (buf : bytes) : MTcp bool :=
  t ← get_st;
  b ← deref (bevs t !! bev);
  _ ← modify (λ t, t <| tcp_writes ::= S |>);
  if send_ok (tcp_writes t) then
    _ ← modify (λ t, t <| bevs ::= <[bev := add_out buf b]> |>);
    mret true
  else mret false.

(** The iterator is dereferenced also when the connection failed. *)
Definition SendMessageInternal (src dst : Z) (m : message) : MTcp bool :=
  t ← get_st;
  _ ← when (bool_decide (tcpOutgoing t !! dst = None)) (ConnectTCP src dst);
  t ← get_st;
  ev ← deref (tcpOutgoing t !! dst);
  bufferevent_write ev (frame m).
End tcp.

Definition TCPAcceptCallback (receiver client : Z) : MTcp unit :=
  bev ← bufferevent_socket_new receiver;
  modify (λ t, t <| tcpOutgoing ::= <[client := bev]> |> <| tcpAddresses ::= insert_new bev client |>).

(** [info->receiver->ReceiveMessage(addr->second, msgType, msg)]. *)
Definition ReceiveMessage (receiver : Z) (bev : Z) (m : message) : MTcp unit :=
  t ← get_st;
  addr ← deref (tcpAddresses t !! bev);
  modify (λ t, t <| tcp_delivered ::= (λ l, l ++ [(receiver, addr, m.1, m.2)]) |>).

(** The loop over the input of a connection; [fuel] bounds the rounds. *)
Fixpoint read_frames (fuel : nat) (bev : Z) : MTcp unit :=
  match fuel with
  | O => undefined
  | S fuel =>
      t ← get_st;
      b ← deref (bevs t !! bev);
      let evbuf := bev_in b in
      if decide (length evbuf = 0%nat) then mret tt
      else if decide (length evbuf < 4)%nat then mret tt
      else if decide (length evbuf < 12)%nat then mret tt
      else
        let totalSize := le_combine (take 8 (drop 4 evbuf)) in
        if Z.of_nat (length evbuf) <? totalSize then mret tt
        else
          let buf := take (Z.to_nat totalSize) evbuf in
          _ ← modify (λ t, t <| bevs ::= <[bev := b <| bev_in := drop (Z.to_nat totalSize) evbuf |>]> |>);
          m ← lift_res (DecodePacket (drop 12 buf));
          _ ← ReceiveMessage (bev_receiver b) bev m;
          read_frames fuel bev
  end.

(** Every round that goes on takes at least one byte, unless it is undefined. *)
Definition TCPReadableCallback (bev : Z) : MTcp unit :=
  t ← get_st;
  b ← deref (bevs t !! bev);
  read_frames (S (length (bev_in b))) bev.

Definition TCPIncomingEventCallback (bev : Z) (what : bev_event) : MTcp unit :=
  match what with BEV_EVENT_ERROR => bufferevent_free bev | _ => mret tt end.

Definition TCPOutgoingEventCallback (bev : Z) (what : bev_event) : MTcp unit :=
  t ← get_st;
  addr ← deref (tcpAddresses t !! bev);
  match what with
  | BEV_EVENT_CONNECTED => mret tt
  | BEV_EVENT_ERROR | BEV_EVENT_EOF =>
      _ ← bufferevent_free bev;
      t ← get_st;
      _ ← deref (tcpOutgoing t !! addr);
      modify (λ t, t <| tcpOutgoing ::= delete addr |> <| tcpAddresses ::= delete bev |>)
  end.

(** Bytes arrive on a connection. *)
Definition arrive (bev : Z) (chunk : bytes) : MTcp unit :=
  t ← get_st;
  b ← deref (bevs t !! bev);
  _ ← modify (λ t, t <| bevs ::= <[bev := b <| bev_in ::= (λ l, l ++ chunk) |>]> |>);
  TCPReadableCallback bev.

(** ** Frames in a stream *)

Lemma length_frame m : Z.of_nat (length (frame m)) = Z.of_nat (length m.1) + Z.of_nat (length m.2) + 28.
Proof. unfold frame. rewrite !length_app, !length_size_t, length_le_split. lia. Qed.

Lemma frame_drop m rest : drop 12 (frame m ++ rest) = wire m ++ rest.
Proof.
  assert (∃ h, length h = 12%nat ∧ frame m = h ++ wire m) as (h & Hh & ->).
  { eexists. split; [|unfold frame; by rewrite (assoc_L (++))]. by rewrite length_app, length_size_t, length_le_split. }
  rewrite <- (assoc_L (++)). by apply drop_app_length'.
Qed.

(** The size field, once the first twelve bytes are there. *)
Lemma frame_size m p s :
  frame m = p ++ s → (12 ≤ length p)%nat → fits (frame m) → le_combine (take 8 (drop 4 p)) = Z.of_nat (length (frame m)).
Proof.
  intros Hp Hl Hf. assert (take 8 (drop 4 p) = take 8 (drop 4 (frame m))) as ->.
  { rewrite Hp, drop_app_le by lia. rewrite take_app_le; [done|]. rewrite length_drop. lia. }
  unfold frame at 1. rewrite drop_app_length' by (by rewrite length_le_split).
  rewrite take_app_length' by (by rewrite length_size_t). unfold size_t. rewrite le_combine_split, length_frame.
  unfold fits in Hf. rewrite length_frame in Hf. rewrite Z.mod_small; [lia|]. change (2 ^ (Z.of_nat 8 * 8)) with (2 ^ 64). lia.
Qed.

(** What is left of the stream: less than the next frame. *)
Definition incomplete (rest : bytes) : Prop := ∃ m s, frame m = rest ++ s ∧ s ≠ [] ∧ fits (frame m).

Definition delivery (r a : Z) (m : message) : Z * Z * bytes * bytes := (r, a, m.1, m.2).

Definition consumed (bev r a : Z) (out rest : bytes) (ms : list message) (t : TCPTransport) : TCPTransport :=
  t <| bevs ::= <[bev := MkBufferEvent r rest out]> |> <| tcp_delivered ::= (λ l, l ++ (delivery r a <$> ms)) |>.

Lemma read_frames_run bev r a out rest ms : ∀ fuel t,
  bevs t !! bev = Some (MkBufferEvent r (concat (frame <$> ms) ++ rest) out) → tcpAddresses t !! bev = Some a →
  Forall (λ m, fits (frame m)) ms → incomplete rest → (length ms < fuel)%nat →
  read_frames fuel bev t = Ok (tt, consumed bev r a out rest ms t).
Proof.
  induction ms as [|m ms IH]; intros fuel t Hb Ha Hms Hrest Hfuel; (destruct fuel as [|fuel]; [simpl in Hfuel; lia|]); cbn [read_frames];
    rewrite (bind_run get_st _ t t t) by done; rewrite Hb; erewrite bind_run by reflexivity; cbn [bev_in].
  - change (concat (frame <$> []) ++ rest) with rest. destruct Hrest as (m & s & Hm & Hs & Hf).
    assert (consumed bev r a out rest [] t = t) as ->.
    { unfold consumed. destruct t. simpl in *. rewrite app_nil_r. by rewrite insert_id. }
    do 3 (destruct (decide _); [done|]). rewrite (frame_size m rest s) by (done || lia).
    rewrite Hm, length_app. destruct s; [done|]. rewrite (proj2 (Z.ltb_lt _ _)); [done|]. simpl. lia.
  - apply Forall_cons in Hms as [Hm Hms]. cbn [fmap list_fmap concat]. rewrite <- (assoc_L (++)).
    set (more := concat (frame <$> ms) ++ rest). set (n := length (frame m)).
    assert (12 ≤ n)%nat as Hn by (pose proof (length_frame m); unfold n; lia).
    assert (length (frame m ++ more) = n + length more)%nat as Hlen by apply length_app.
    do 3 (destruct (decide _); [lia|]).
    assert (take 8 (drop 4 (frame m ++ more)) = take 8 (drop 4 (frame m))) as ->.
    { fold n in Hlen. rewrite drop_app_le by (fold n; lia). rewrite take_app_le; [done|]. rewrite length_drop. fold n. lia. }
    rewrite (frame_size m (frame m) []) by (rewrite ?app_nil_r; done || (fold n; lia)). fold n.
    rewrite (proj2 (Z.ltb_ge _ _)) by lia. rewrite Nat2Z.id. unfold n. rewrite take_app_length, drop_app_length.
    erewrite bind_run by reflexivity. pose proof (frame_drop m []) as Hd. rewrite !app_nil_r in Hd. rewrite Hd.
    assert (DecodePacket (wire m) = Ok m) as ->.
    { destruct m. apply decode_serialize. unfold fits in *. rewrite length_frame in Hm. unfold SerializeMessage.
      rewrite !length_app, !length_size_t. simpl in *. lia. }
    erewrite bind_run by reflexivity. set (t1 := t <| bevs ::= _ |>).
    assert (ReceiveMessage r bev m t1 = Ok (tt, t1 <| tcp_delivered ::= (λ l, l ++ [delivery r a m]) |>)) as Hrecv.
    { unfold ReceiveMessage, mbind, M_bind, get_st. simpl. by rewrite Ha. }
    cbn [bev_receiver]. rewrite (bind_run _ _ _ _ _ Hrecv). rewrite IH; [|simpl; by rewrite lookup_insert_eq|done..|simpl in Hfuel; lia].
    unfold consumed. simpl. rewrite insert_insert_eq, <- (assoc_L (++)). done.
Qed.

(** Every prefix of a stream of frames consists of complete frames and less than another one. *)
Lemma stream_split ms s :
  Forall (λ m, fits (frame m)) ms → s `prefix_of` concat (frame <$> ms) →
  ∃ k rest, s = concat (frame <$> take k ms) ++ rest ∧ incomplete rest ∧ (k ≤ length ms)%nat ∧
    (∀ m, ms !! k = Some m → length rest < length (frame m))%nat ∧ (k = length ms → rest = []).
Proof.
  assert (incomplete []) as Hnil.
  { exists ([], []), (frame ([], [])). done. }
  revert s. induction ms as [|m ms IH]; intros s Hms Hs.
  - exists 0%nat, []. simpl in *. apply prefix_nil_inv in Hs as ->. by split_and!.
  - apply Forall_cons in Hms as [Hm Hms]. cbn [fmap list_fmap concat] in Hs.
    destruct (decide (length s < length (frame m))%nat) as [Hlt|Hge].
    + exists 0%nat, s. simpl. split_and!; [done| |lia| |done]; [|by intros ? [= <-]].
      destruct Hs as [u Hu]. exists m, (drop (length s) (frame m)). split_and!; [|intros E|done].
      * rewrite <- (take_drop (length s) (frame m)) at 1. f_equal.
        apply (f_equal (take (length s))) in Hu. rewrite take_app_length, take_app_le in Hu by lia. done.
      * apply (f_equal length) in E. rewrite length_drop in E. change (length []) with 0%nat in E. lia.
    + destruct Hs as [u Hu]. assert (∃ s', s = frame m ++ s') as [s' ->].
      { exists (drop (length (frame m)) s). rewrite <- (take_drop (length (frame m)) s) at 1. f_equal.
        apply (f_equal (take (length (frame m)))) in Hu. by rewrite take_app_length, take_app_le in Hu by lia. }
      rewrite <- (assoc_L (++)) in Hu. apply app_inv_head in Hu.
      destruct (IH s' Hms) as (k & rest & -> & Hr & Hk & Hnext & Hend); [by exists u|].
      exists (S k), rest. simpl. rewrite (assoc_L (++)). split_and!; [done..|lia|done|]. intros E. apply Hend. lia.
Qed.

Lemma arrive_run bev r a out in0 chunk ms rest t :
  bevs t !! bev = Some (MkBufferEvent r in0 out) → tcpAddresses t !! bev = Some a →
  in0 ++ chunk = concat (frame <$> ms) ++ rest → Forall (λ m, fits (frame m)) ms → incomplete rest →
  arrive bev chunk t = Ok (tt, consumed bev r a out rest ms t).
Proof.
  intros Hb Ha Hin Hms Hrest. unfold arrive. rewrite (bind_run get_st _ t t t) by done. rewrite Hb.
  do 2 (erewrite bind_run by reflexivity). unfold TCPReadableCallback. set (t1 := t <| bevs ::= _ |>).
  assert (bevs t1 !! bev = Some (MkBufferEvent r (in0 ++ chunk) out)) as Hb1 by (simpl; by rewrite lookup_insert_eq).
  rewrite (bind_run get_st _ t1 t1 t1) by done. rewrite Hb1. erewrite bind_run by reflexivity. cbn [bev_in].
  rewrite Hin in Hb1 |- *. rewrite (read_frames_run bev r a out rest ms); [|done..|].
  - unfold consumed. simpl. by rewrite insert_insert_eq.
  - rewrite length_app. assert (length ms ≤ length (concat (frame <$> ms)))%nat; [|lia].
    clear. induction ms as [|m ms IH]; cbn [fmap list_fmap concat length]; [lia|]. rewrite length_app. pose proof (length_frame m). lia.
Qed.

(** However the stream is cut into pieces, what was received is consumed frame by frame. *)
Lemma arrive_all bev r a out all : Forall (λ m, fits (frame m)) all → ∀ chunks k rest t,
  bevs t !! bev = Some (MkBufferEvent r rest out) → tcpAddresses t !! bev = Some a →
  concat (frame <$> take k all) ++ rest ++ concat chunks `prefix_of` concat (frame <$> all) →
  (∀ m, all !! k = Some m → length rest < length (frame m))%nat →
  ∃ n rest', for_each chunks (arrive bev) t = Ok (tt, consumed bev r a out rest' (take n (drop k all)) t) ∧
    rest ++ concat chunks = concat (frame <$> take n (drop k all)) ++ rest' ∧
    (∀ m, all !! (k + n) = Some m → length rest' < length (frame m))%nat.
Proof.
  intros Hall. induction chunks as [|chunk chunks IH]; intros k rest t Hb Ha Hp Hshort.
  - exists 0%nat, rest. rewrite Nat.add_0_r. simpl. rewrite app_nil_r. split; [|done]. do 2 f_equal. unfold consumed. destruct t. simpl in *.
    by rewrite app_nil_r, insert_id.
  - assert (rest ++ concat (chunk :: chunks) `prefix_of` concat (frame <$> drop k all)) as Hp'.
    { assert (concat (frame <$> all) = concat (frame <$> take k all) ++ concat (frame <$> drop k all)) as E
        by (by rewrite <- concat_app, <- fmap_app, take_drop).
      rewrite E in Hp. destruct Hp as [u Hu]. rewrite <- (assoc_L (++)) in Hu. apply app_inv_head in Hu. by exists u. }
    assert (Forall (λ m, fits (frame m)) (drop k all)) as Hdrop by (by apply Forall_drop).
    destruct (stream_split (drop k all) (rest ++ chunk) Hdrop) as (n & rest1 & Hs & Hinc & _ & Hnext & _).
    { destruct Hp' as [u Hu]. exists (concat chunks ++ u). rewrite Hu. simpl. by rewrite <- !(assoc_L (++)). }
    cbn [for_each]. rewrite (bind_run _ _ _ _ _ (arrive_run bev r a out rest chunk _ rest1 t Hb Ha Hs (Forall_take _ _ _ Hdrop) Hinc)).
    set (t1 := consumed _ _ _ _ _ _ t). assert (take (k + n) all = take k all ++ take n (drop k all)) as Etake by (by rewrite take_take_drop).
    destruct (IH (k + n)%nat rest1 t1) as (n' & rest' & Hrun & Hrest & Hlast);
      [unfold t1, consumed; simpl; by rewrite lookup_insert_eq|done| | |].
    + rewrite Etake, fmap_app, concat_app. rewrite <- (assoc_L (++)), (assoc_L (++) (concat (frame <$> take n _))), <- Hs.
      simpl in Hp. by rewrite <- (assoc_L (++)).
    + intros m Hm. apply Hnext. by rewrite lookup_drop.
    + exists (n + n')%nat, rest'.
      assert (take (n + n') (drop k all) = take n (drop k all) ++ take n' (drop (k + n) all)) as ->
        by (by rewrite <- drop_drop, take_take_drop).
      rewrite Nat.add_assoc. split_and!; [| |exact Hlast].
      * rewrite Hrun. do 2 f_equal. unfold t1, consumed. simpl. by rewrite insert_insert_eq, fmap_app, (assoc_L (++)).
      * rewrite fmap_app, concat_app, <- (assoc_L (++)), <- Hrest. simpl. by rewrite (assoc_L (++)), Hs, <- (assoc_L (++)).
Qed.

(** ** Messages over a connection *)

Section messages.
Context `{!Network} `{!Dialer}.

Definition send_each (src dst : Z) (ms : list message) : MTcp unit :=
  for_each ms (λ m, _ ← SendMessageInternal src dst m; mret tt).

(** The messages whose writes succeed, the first one being write number [n]. *)
Fixpoint written_from (n : nat) (ms : list message) : list message :=
  match ms with
  | [] => []
  | m :: ms => (if send_ok n then [m] else []) ++ written_from (S n) ms
  end.

Lemma Forall_written (P : message → Prop) n ms : Forall P ms → Forall P (written_from n ms).
Proof.
  intros Hms. revert n. induction Hms as [|m ms Hm _ IH]; intros n; simpl; [done|].
  destruct (send_ok n); simpl; auto.
Qed.

(** Their frames are appended to the stream, in order. *)
Lemma send_each_run src dst ev ms : ∀ t b,
  tcpOutgoing t !! dst = Some ev → bevs t !! ev = Some b →
  ∃ t', send_each src dst ms t = Ok (tt, t') ∧
    bevs t' !! ev = Some (add_out (concat (frame <$> written_from (tcp_writes t) ms)) b).
Proof.
  unfold send_each. induction ms as [|m ms IH]; intros t b Hd Hb.
  - exists t. split; [done|]. rewrite Hb. unfold add_out. destruct b. simpl. by rewrite app_nil_r.
  - cbn [for_each written_from]. set (t1 := t <| tcp_writes ::= S |>).
    assert (SendMessageInternal src dst m t =
      Ok (send_ok (tcp_writes t), if send_ok (tcp_writes t) then t1 <| bevs ::= <[ev := add_out (frame m) b]> |> else t1)) as Hsend.
    { unfold SendMessageInternal, bufferevent_write, mbind, M_bind, get_st.
      rewrite Hd. simpl. unfold mret, M_ret. rewrite Hd. simpl. rewrite Hb. simpl. by destruct (send_ok _). }
    erewrite bind_run by (erewrite bind_run by exact Hsend; reflexivity). destruct (send_ok (tcp_writes t)).
    + destruct (IH (t1 <| bevs ::= <[ev := add_out (frame m) b]> |>) (add_out (frame m) b))
        as (t' & Hrun & Hb'); [done|simpl; by rewrite lookup_insert_eq|].
      exists t'. split; [done|]. rewrite Hb'. unfold add_out. simpl. by rewrite <- (assoc_L (++)).
    + destruct (IH t1 b) as (t' & Hrun & Hb'); [done..|]. by exists t'.
Qed.

(** C30: Sending over an open connection always returns, and appends to the output of the
    connection exactly the frames of the messages whose writes succeeded, in order.  However
    this stream, or what has arrived of it, is cut into pieces, the other end, which has no
    unread input, delivers exactly the messages that have arrived completely: in order, once
    each, with their types and contents, and each as soon as its last byte is there.  The
    frames are shorter than 2^64 bytes. *)
Theorem tcp_stream_roundtrip (src dst ev : Z) (ms : list message) (T : TCPTransport) (b : BufferEvent) :
  let written := written_from (tcp_writes T) ms in
  tcpOutgoing T !! dst = Some ev → bevs T !! ev = Some b → Forall (λ m, fits (frame m)) ms →
  (∃ T', send_each src dst ms T = Ok (tt, T') ∧
     bev_out <$> bevs T' !! ev = Some (bev_out b ++ concat (frame <$> written))) ∧
  ∀ (bev r a : Z) (out : bytes) (chunks : list bytes) (R : TCPTransport),
    bevs R !! bev = Some (MkBufferEvent r [] out) → tcpAddresses R !! bev = Some a →
    concat chunks `prefix_of` concat (frame <$> written) →
    ∃ R' n rest, for_each chunks (arrive bev) R = Ok (tt, R') ∧
      concat chunks = concat (frame <$> take n written) ++ rest ∧
      (∀ m, written !! n = Some m → length rest < length (frame m))%nat ∧
      tcp_delivered R' = tcp_delivered R ++ (delivery r a <$> take n written).
Proof.
  intros written Hd Hb Hms. split.
  { destruct (send_each_run src dst ev ms T b Hd Hb) as (T' & Hrun & Hb'). exists T'. split; [done|]. by rewrite Hb'. }
  intros bev r a out chunks R HR Ha Hp.
  destruct (arrive_all bev r a out written (Forall_written _ _ _ Hms) chunks 0 [] R HR Ha)
    as (n & rest & Hrun' & Hrest & Hlast).
  - by rewrite take_0.
  - intros m Hm. pose proof (length_frame m). simpl. lia.
  - eexists _, n, rest. rewrite drop_0 in *. split_and!; [exact Hrun'|exact Hrest|exact Hlast|done].
Qed.

(** ** Connections *)

(** The tables of a transport that accepts no connections: they are inverse to each other and
    name the connections that are open. *)
Record client_ok (t : TCPTransport) : Prop := {
  co_out : ∀ dst bev, tcpOutgoing t !! dst = Some bev ↔ tcpAddresses t !! bev = Some dst;
  co_open : ∀ bev, is_Some (tcpAddresses t !! bev) ↔ is_Some (bevs t !! bev);
  co_next : ∀ bev, is_Some (bevs t !! bev) → bev < nextBev t
}.

Lemma client_ok_new : client_ok TCPTransport_new.
Proof.
  split; simpl; [intros d b; by rewrite !lookup_empty|intros b; by rewrite !lookup_empty|].
  intros b [x Hx]. by rewrite lookup_empty in Hx.
Qed.

Lemma client_ok_set_bev t bev b b' : client_ok t → bevs t !! bev = Some b → client_ok (t <| bevs ::= <[bev := b']> |>).
Proof.
  intros [Ho Hp Hn] Hb. assert (∀ x, is_Some (<[bev := b']> (bevs t) !! x) ↔ is_Some (bevs t !! x)) as E.
  { intros x. rewrite lookup_insert. case_decide; [subst; rewrite Hb; split; eauto|done]. }
  split; simpl; [done|..]; intros x; rewrite E; [apply Hp|apply Hn].
Qed.

Lemma fresh_bev t : client_ok t → bevs t !! nextBev t = None ∧ tcpAddresses t !! nextBev t = None.
Proof.
  intros [_ Hp Hn]. assert (bevs t !! nextBev t = None) as Hf.
  { apply eq_None_not_Some. intros Hs%Hn. lia. }
  split; [done|]. apply eq_None_not_Some. rewrite Hp, Hf. by intros [? [=]].
Qed.

Lemma ConnectTCP_ok src dst t :
  client_ok t → tcpOutgoing t !! dst = None →
  wp (ConnectTCP src dst)
    (λ _ t', client_ok t' ∧ (connect_ok (tcp_attempts t) = true → is_Some (tcpOutgoing t' !! dst))) t.
Proof.
  intros Ht Hd. destruct (fresh_bev t Ht) as [Hf Hfa]. pose proof Ht as [Ho Hp Hn]. unfold ConnectTCP, bufferevent_socket_new.
  run. run. run. unfold post. simpl. destruct (connect_ok (tcp_attempts t)).
  - simpl. split; [|intros _; rewrite lookup_insert_eq; eauto]. unfold insert_new. rewrite Hfa. split; simpl.
    + intros d bev. rewrite !lookup_insert_Some. split.
      * intros [[<- <-]|[Hne Hd']]; [by left|]. right. apply Ho in Hd'. split; [|done]. intros <-. congruence.
      * intros [[<- <-]|[Hne Hb]]; [by left|]. right. split; [|by apply Ho]. intros <-. apply Ho in Hb. congruence.
    + intros bev. destruct (decide (bev = nextBev t)) as [->|Hne]; [rewrite !lookup_insert_eq; split; eauto|].
      rewrite !lookup_insert_ne by done. apply Hp.
    + intros bev. destruct (decide (bev = nextBev t)) as [->|Hne]; [lia|]. rewrite lookup_insert_ne by done. intros Hs%Hn. lia.
  - unfold bufferevent_free, mbind, M_bind, get_st. simpl. rewrite lookup_insert_eq. simpl. split; [|done].
    rewrite delete_insert_id by done. split; simpl; [done..|]. intros bev Hs%Hn. lia.
Qed.

Lemma send_client_ok src dst m t :
  client_ok t → (tcpOutgoing t !! dst = None → connect_ok (tcp_attempts t) = true) →
  wp (SendMessageInternal src dst m) (λ _ t', client_ok t') t.
Proof.
  intros Ht Hc. unfold SendMessageInternal. apply post_get, post_bind.
  apply (post_mono _ _ (λ _ t', client_ok t' ∧ is_Some (tcpOutgoing t' !! dst))).
  - case_bool_decide as Hd; simpl.
    + eapply post_mono; [by apply ConnectTCP_ok|]. intros u t' [Ht' Hs]. auto.
    + split; [done|]. by apply not_eq_None_Some.
  - intros u t1 [Ht1 [ev Hev]]. apply post_get. rewrite Hev. run. unfold bufferevent_write. apply post_get.
    destruct (proj1 (co_open _ Ht1 ev)) as [b Hb]; [by eapply mk_is_Some, (co_out _ Ht1)|]. rewrite Hb. run. run.
    destruct (send_ok _); [|by destruct Ht1; split]. run. unfold post, mret, M_ret.
    apply (client_ok_set_bev (t1 <| tcp_writes ::= S |>) ev b); [by destruct Ht1; split|done].
Qed.

Lemma outgoing_event_ok bev what t :
  client_ok t → is_Some (bevs t !! bev) → wp (TCPOutgoingEventCallback bev what) (λ _ t', client_ok t') t.
Proof.
  intros Ht [b Hb]. pose proof Ht as [Ho Hp Hn]. destruct (proj2 (Hp bev)) as [addr Ha]; [by eexists|].
  unfold TCPOutgoingEventCallback. apply post_get. rewrite Ha. run. pose proof (proj2 (Ho addr bev) Ha) as Hout.
  assert (wp (_ ← bufferevent_free bev; t ← get_st; _ ← deref (tcpOutgoing t !! addr);
    modify (λ t, t <| tcpOutgoing ::= delete addr |> <| tcpAddresses ::= delete bev |>)) (λ _ t', client_ok t') t) as Hclose.
  { unfold post, bufferevent_free, mbind, M_bind, get_st. rewrite Hb. simpl. rewrite Hout. simpl. split; simpl.
    - intros d x. rewrite !lookup_delete_Some. split; intros [Hne Hx]; (split; [|by apply Ho]).
      + intros <-. apply Ho in Hx. congruence.
      + intros <-. apply Ho in Hx. congruence.
    - intros x. destruct (decide (x = bev)) as [->|Hne]; [rewrite !lookup_delete_eq; done|]. by rewrite !lookup_delete_ne.
    - intros x. rewrite lookup_delete_is_Some. intros [_ Hs]. by apply Hn. }
  by destruct what.
Qed.
End messages.

(** What happens to a transport that accepts no connections: it sends, or an event of an open
    connection comes in. *)
Inductive client_event := ClientSend (src dst : Z) (m : message) | ClientEvent (bev : Z) (what : bev_event).

Section clients.
Context `{!Network} `{!Dialer} (Hdial : ∀ n, connect_ok n = true).

Definition client_step (e : client_event) : MTcp unit :=
  match e with
  | ClientSend src dst m => _ ← SendMessageInternal src dst m; mret tt
  | ClientEvent bev what => TCPOutgoingEventCallback bev what
  end.

Inductive client_runs : TCPTransport → Prop :=
| client_runs_new : client_runs TCPTransport_new
| client_runs_step t e t' : client_runs t →
    (∀ bev what, e = ClientEvent bev what → is_Some (bevs t !! bev)) → client_step e t = Ok (tt, t') → client_runs t'.

Lemma client_step_ok t e :
  client_ok t → (∀ bev what, e = ClientEvent bev what → is_Some (bevs t !! bev)) →
  wp (client_step e) (λ _ t', client_ok t') t.
Proof.
  intros Ht He. destruct e as [src dst m|bev what]; simpl.
  - apply post_bind. eapply post_mono; [by apply send_client_ok|done].
  - by apply outgoing_event_ok, (He bev what).
Qed.

Lemma client_runs_ok t : client_runs t → client_ok t.
Proof.
  induction 1 as [|t e t' _ Ht He Hrun]; [apply client_ok_new|].
  pose proof (client_step_ok t e Ht He) as Hw. unfold post in Hw. by rewrite Hrun in Hw.
Qed.

(** C32: Where connections can be opened, a transport that accepts none never uses a connection
    that was closed: after every run every send and every event of an open connection returns,
    the table of connections and the table of their addresses are inverse to each other, and
    the connections they name are exactly the open ones. *)
Theorem tcp_client_connections t e :
  client_runs t → (∀ bev what, e = ClientEvent bev what → is_Some (bevs t !! bev)) →
  (∃ t', client_step e t = Ok (tt, t') ∧ client_runs t') ∧
  (∀ dst bev, tcpOutgoing t !! dst = Some bev ↔ tcpAddresses t !! bev = Some dst) ∧
  (∀ bev, is_Some (tcpAddresses t !! bev) ↔ is_Some (bevs t !! bev)).
Proof.
  intros Hrun He. pose proof (client_runs_ok t Hrun) as Ht. split_and!; [|apply Ht..].
  pose proof (client_step_ok t e Ht He) as Hw. apply wp_run in Hw as ([] & t' & Hw & _). exists t'. split; [done|].
  by eapply client_runs_step.
Qed.
End clients.

(** A server that loses a client with an error answers it on a closed connection: the event
    callback of accepted connections frees the [bufferevent] and leaves it in [tcpOutgoing], so
    that the next send to this client uses it. *)
Theorem tcp_lost_client_dangles `{!Network} `{!Dialer} (receiver client src : Z) (m : message) (t : TCPTransport) :
  ∃ bev t', (_ ← TCPAcceptCallback receiver client; TCPIncomingEventCallback (nextBev t) BEV_EVENT_ERROR) t = Ok (tt, t') ∧
    tcpOutgoing t' !! client = Some bev ∧ bevs t' !! bev = None ∧ SendMessageInternal src client m t' = Undefined.
Proof.
  exists (nextBev t). eexists. split_and!.
  - unfold TCPAcceptCallback, TCPIncomingEventCallback, bufferevent_free, bufferevent_socket_new, mbind, M_bind, get_st, modify.
    simpl. rewrite lookup_insert_eq. reflexivity.
  - simpl. by rewrite lookup_insert_eq.
  - simpl. by rewrite lookup_delete_eq.
  - unfold SendMessageInternal, bufferevent_write, mbind, M_bind, get_st. simpl. rewrite lookup_insert_eq. simpl.
    rewrite lookup_insert_eq. simpl. by rewrite lookup_delete_eq.
Qed.

Definition tcp_demo_network : Network := λ _, true.
Definition tcp_demo_dialer : Dialer := λ _, true.

Definition tcp_demo_sender : TCPTransport :=
  MkTCPTransport {[0 := MkBufferEvent 4 [] []]} 1 {[7 := 0]} {[0 := 7]} 1 0 [].

Definition tcp_demo_messages : list message := [([Byte.x41], [Byte.x01; Byte.x02]); ([Byte.x42], [])].

Definition tcp_demo_receiver : TCPTransport :=
  MkTCPTransport {[0 := MkBufferEvent 9 [] []]} 1 {[3 := 0]} {[0 := 3]} 1 0 [].

(** The stream arrives in pieces of five bytes, the second message not completely. *)
Definition tcp_demo_chunks : list bytes :=
  let s := concat (frame <$> tcp_demo_messages) in
  (λ i, take 5 (drop (5 * i) s)) <$> [0; 1; 2; 3; 4; 5; 6; 7; 8; 9; 10]%nat.

Lemma tcp_stream_roundtrip_witness :
  (∃ T', send_each (H := tcp_demo_network) (H0 := tcp_demo_dialer) 4 7 tcp_demo_messages tcp_demo_sender = Ok (tt, T') ∧
     bev_out <$> bevs T' !! 0 = Some (concat (frame <$> tcp_demo_messages))) ∧
  ∃ R' n rest, for_each tcp_demo_chunks (arrive 0) tcp_demo_receiver = Ok (tt, R') ∧
    concat tcp_demo_chunks = concat (frame <$> take n tcp_demo_messages) ++ rest ∧
    (∀ m, tcp_demo_messages !! n = Some m → length rest < length (frame m))%nat ∧
    tcp_delivered R' = delivery 9 3 <$> take n tcp_demo_messages.
Proof.
  destruct (tcp_stream_roundtrip (H := tcp_demo_network) (H0 := tcp_demo_dialer) 4 7 0 tcp_demo_messages tcp_demo_sender
    (MkBufferEvent 4 [] [])) as [Hsend Hrecv]; [reflexivity|reflexivity|repeat constructor|].
  split; [exact Hsend|].
  apply (Hrecv 0 9 3 [] tcp_demo_chunks tcp_demo_receiver); [reflexivity|reflexivity|].
  eexists. vm_compute. reflexivity.
Defined.

Lemma tcp_client_connections_witness :
  ∃ t', client_step (H := tcp_demo_network) (H0 := tcp_demo_dialer) (ClientSend 4 7 ([Byte.x41], [])) TCPTransport_new = Ok (tt, t').
Proof.
  destruct (tcp_client_connections (H := tcp_demo_network) (H0 := tcp_demo_dialer) (λ n, eq_refl) TCPTransport_new
    (ClientSend 4 7 ([Byte.x41], []))) as [(t' & Ht' & _) _]; [apply client_runs_new|done|by exists t'].
Defined.
