(* ===== verification/ReplLog.v ===== *)
(** The log of the replication library: [replication/common/log.h], [log-impl.h] and [log.cc].

    Entries are numbered from [start] on; [viewstamp_t] is that of [QuorumSet].  The hash of an
    entry is computed by a library and is a parameter.  The [ASSERT]s expand to nothing in the
    build: an append of an entry with a number that is then not found binds a reference to
    null, which is undefined.  A resize that would make the vector longer leaves entries without
    a state and counts as undefined; one to a negative length throws and stops the process.
    The members [prevClientReqOpnum] and [replyMessage] of an entry are never used. *)

From S2P Require Import QuorumSet.
From S2P Require Import Prelude IRRecord.

Inductive LogEntryState := LOG_STATE_COMMITTED | LOG_STATE_PREPARED | LOG_STATE_SPECULATIVE | LOG_STATE_FASTPREPARED.

#[global] Instance LogEntryState_eq_dec : EqDecision LogEntryState.
Proof. solve_decision. Defined.

#[global] Instance Request_eq_dec : EqDecision Request.
Proof. solve_decision. Defined.

Record LogEntry := MkLogEntry { viewstamp : viewstamp_t; state : LogEntryState; request : Request; hash : string }.

#[global] Instance LogEntry_eta : Eta LogEntry := λ e, MkLogEntry (viewstamp e) (state e) (request e) (hash e).

Record Log := MkLog { entries : list LogEntry; initialHash : string; start : Z; useHash : bool }.

#[global] Instance Log_eta : Eta Log := λ l, MkLog (entries l) (initialHash l) (start l) (useHash l).

(** [ComputeHash(lastHash, viewstamp, request)], by SHA-1. *)
Class Hasher := ComputeHash : string → viewstamp_t → Request → string.

(** An entry in the messages of a state transfer or a view change. *)
Record LogEntryProto := MkLogEntryProto {
  lp_view : Z; lp_opnum : Z; lp_request : Request; lp_state : option LogEntryState; lp_hash : option string
}.

Definition Log_new (useHash : bool) (start : Z) (initialHash : string) : Log := MkLog [] initialHash start useHash.

(** ** Lookup *)

(** The position of the entry; [None] is the null pointer. *)
Definition position (opnum : Z) (l : Log) : option nat :=
  match entries l with
  | [] => None
  | _ =>
      if opnum <? start l then None
      else if opnum - start l >? Z.of_nat (length (entries l)) - 1 then None
      else Some (Z.to_nat (opnum - start l))
  end.

Definition Find (opnum : Z) (l : Log) : option LogEntry := i ← position opnum l; entries l !! i.

Definition Last (l : Log) : option LogEntry := last (entries l).

Definition LastViewstamp (l : Log) : viewstamp_t :=
  match last (entries l) with
  | None => MkViewstamp 0 (u64_decr (start l))
  | Some e => viewstamp e
  end.

Definition LastOpnum (l : Log) : Z :=
  match last (entries l) with
  | None => u64_decr (start l)
  | Some e => opnum (viewstamp e)
  end.

Definition FirstOpnum (l : Log) : Z := start l.

Definition Empty (l : Log) : bool := bool_decide (entries l = []).

Definition LastHash (l : Log) : string :=
  match last (entries l) with None => initialHash l | Some e => hash e end.

(** ** Updates *)

Section updates.
Context `{!Hasher}.

Definition Append (vs : viewstamp_t) (req : Request) (st : LogEntryState) (l : Log) : res Log :=
  let entry := MkLogEntry vs st req (if useHash l then ComputeHash (LastHash l) vs req else "") in
  let l' := l <| entries ::= (λ es, es ++ [entry]) |> in
  match Find (opnum vs) l' with Some _ => Ok l' | None => Undefined end.

(** [entry->... = ...] for the entry that is found. *)
Definition update_entry (op : Z) (f : LogEntry → LogEntry) (l : Log) : bool * Log :=
  match position op l with
  | None => (false, l)
  | Some i => (true, l <| entries ::= alter f i |>)
  end.

Definition SetStatus (op : Z) (st : LogEntryState) (l : Log) : bool * Log :=
  update_entry op (λ e, e <| state := st |>) l.

Definition SetRequest (op : Z) (req : Request) (l : Log) : res (bool * Log) :=
  if useHash l then Panic else Ok (update_entry op (λ e, e <| request := req |>) l).

Definition RemoveAfter (op : Z) (l : Log) : res Log :=
  if op >? LastOpnum l then Ok l
  else if op <? start l then Panic
  else if decide (Z.to_nat (op - start l) ≤ length (entries l))%nat
  then Ok (l <| entries ::= take (Z.to_nat (op - start l)) |>)
  else Undefined.

Definition to_proto (e : LogEntry) : LogEntryProto :=
  MkLogEntryProto (view (viewstamp e)) (opnum (viewstamp e)) (request e) (Some (state e)) (Some (hash e)).

(** The entries with the numbers of the list; a number that is not found is a null pointer. *)
Fixpoint dump (ops : list Z) (l : Log) : res (list LogEntryProto) :=
  match ops with
  | [] => Ok []
  | i :: ops =>
      match Find i l with
      | None => Undefined
      | Some e => es ← dump ops l; Ok (to_proto e :: es)
      end
  end.

Definition Dump (from : Z) (l : Log) : res (list LogEntryProto) :=
  let i := Z.max from (start l) in dump (seqZ i (LastOpnum l - i + 1)) l.

(** The search for the first divergence: the log and the entries that are left. *)
Fixpoint find_divergence (es : list LogEntryProto) (l : Log) : res (list LogEntryProto * Log) :=
  match es with
  | [] => Ok ([], l)
  | it :: es' =>
      match Find (lp_opnum it) l with
      | None => Ok (es, l)
      | Some oldEntry =>
          if lp_view it =? view (viewstamp oldEntry) then find_divergence es' l
          else l' ← RemoveAfter (lp_opnum it) l; Ok (es, l')
      end
  end.

Fixpoint append_all (es : list LogEntryProto) (l : Log) : res Log :=
  match es with
  | [] => Ok l
  | it :: es' =>
      l' ← Append (MkViewstamp (lp_view it) (lp_opnum it)) (lp_request it) LOG_STATE_PREPARED l;
      append_all es' l'
  end.

Definition Install (es : list LogEntryProto) (l : Log) : res Log :=
  '(rest, l') ← find_divergence es l; append_all rest l'.
End updates.

(** ** Dense logs *)

(** Entries are numbered consecutively, and the numbers do not wrap around. *)
Record dense (l : Log) : Prop := {
  dn_start : 0 < start l;
  dn_bound : start l + Z.of_nat (length (entries l)) < 2 ^ 64;
  dn_opnum : ∀ i e, entries l !! i = Some e → opnum (viewstamp e) = start l + Z.of_nat i
}.

Lemma Find_lookup op l : Find op l = if op <? start l then None else entries l !! Z.to_nat (op - start l).
Proof.
  unfold Find, position. destruct (entries l) as [|e es] eqn:E; [by destruct (op <? start l)|].
  destruct (Z.ltb_spec op (start l)); [done|]. rewrite Z.gtb_ltb.
  destruct (Z.ltb_spec (Z.of_nat (length (e :: es)) - 1) (op - start l)); [|done].
  simpl. rewrite lookup_ge_None_2; [done|]. lia.
Qed.

Lemma Find_Some op l e : Find op l = Some e ↔ start l ≤ op ∧ entries l !! Z.to_nat (op - start l) = Some e.
Proof. rewrite Find_lookup. destruct (Z.ltb_spec op (start l)); naive_solver lia. Qed.

Lemma position_Some op l i : position op l = Some i ↔ start l ≤ op ∧ i = Z.to_nat (op - start l) ∧ (i < length (entries l))%nat.
Proof.
  unfold position. destruct (entries l) as [|e es]; [simpl; split; [done|lia]|].
  destruct (Z.ltb_spec op (start l)); [split; [done|lia]|]. rewrite Z.gtb_ltb.
  destruct (Z.ltb_spec (Z.of_nat (length (e :: es)) - 1) (op - start l)); split; try done; try lia; [|intros (_ & -> & _); done].
  intros [= <-]. lia.
Qed.

Lemma LastOpnum_dense l : dense l → LastOpnum l = start l + Z.of_nat (length (entries l)) - 1.
Proof.
  intros [Hs Hb Ho]. unfold LastOpnum. destruct (last (entries l)) as [e|] eqn:E.
  - rewrite last_lookup in E. rewrite (Ho _ e E). apply lookup_lt_Some in E. lia.
  - apply last_None in E. rewrite E in *. unfold u64_decr. rewrite u64_small; [simpl; lia|].
    unfold is_u64, u64_modulus. simpl in *. lia.
Qed.

Lemma dense_take l k : dense l → dense (l <| entries ::= take k |>).
Proof.
  intros [Hs Hb Ho]. split; simpl; [done| |].
  - rewrite length_take. lia.
  - intros i e Hi. apply Ho. rewrite lookup_take_Some in Hi. by destruct Hi.
Qed.

Lemma RemoveAfter_dense op l :
  dense l → start l ≤ op → RemoveAfter op l = Ok (l <| entries ::= take (Z.to_nat (op - start l)) |>).
Proof.
  intros Hd Hop. unfold RemoveAfter. rewrite (LastOpnum_dense l Hd), Z.gtb_ltb.
  destruct (Z.ltb_spec (start l + Z.of_nat (length (entries l)) - 1) op).
  - destruct l. simpl in *. by rewrite take_ge by lia.
  - rewrite (proj2 (Z.ltb_ge _ _)) by lia. rewrite decide_True; [done|]. lia.
Qed.

Section dense.
Context `{!Hasher}.

Lemma Append_dense vs req st l :
  dense l → opnum vs = start l + Z.of_nat (length (entries l)) → opnum vs + 1 < 2 ^ 64 →
  ∃ e, Append vs req st l = Ok (l <| entries ::= (λ es, es ++ [e]) |>) ∧
    viewstamp e = vs ∧ request e = req ∧ state e = st ∧ dense (l <| entries ::= (λ es, es ++ [e]) |>).
Proof.
  intros [Hs Hb Ho] Hop Hlt. unfold Append. cbv zeta. set (e := MkLogEntry vs st req _). exists e. split_and!; [|done..|].
  - set (l' := l <| entries ::= _ |>). rewrite Find_lookup. simpl. rewrite (proj2 (Z.ltb_ge _ _)) by lia.
    by rewrite list_lookup_middle by lia.
  - split; simpl; [done| |].
    + rewrite length_app. simpl. lia.
    + intros i e' Hi. apply lookup_app_Some in Hi as [Hi|[Hlen Hi]]; [by apply Ho|].
      apply list_lookup_singleton_Some in Hi as [Hi <-]. simpl. lia.
Qed.

Lemma update_entry_dense op f l :
  dense l → (∀ e, viewstamp (f e) = viewstamp e) → dense (update_entry op f l).2.
Proof.
  intros [Hs Hb Ho] Hf. unfold update_entry. destruct (position op l) as [k|]; [|done]. split; simpl; [done|by rewrite length_alter|].
  intros i e. rewrite list_lookup_alter. case_decide; [|apply Ho].
  subst. destruct (entries l !! i) as [e0|] eqn:E; [|done]. simpl. intros [= <-]. rewrite Hf. by apply Ho.
Qed.

Lemma dump_dense l : ∀ k (n : nat), (k + n = length (entries l))%nat →
  dump (seqZ (start l + Z.of_nat k) (Z.of_nat n)) l = Ok (to_proto <$> drop k (entries l)).
Proof.
  intros k n. revert k. induction n as [|n IH]; intros k Hk.
  - simpl. by rewrite drop_ge by lia.
  - destruct (lookup_lt_is_Some_2 (entries l) k) as [e He]; [lia|].
    rewrite seqZ_cons by lia. cbn [dump]. rewrite Find_lookup. rewrite (proj2 (Z.ltb_ge _ _)) by lia.
    replace (Z.to_nat (start l + Z.of_nat k - start l)) with k by lia. rewrite He.
    replace (Z.succ (start l + Z.of_nat k)) with (start l + Z.of_nat (S k)) by lia.
    replace (Z.pred (Z.of_nat (S n))) with (Z.of_nat n) by lia. rewrite IH by lia.
    by rewrite (drop_S _ _ _ He).
Qed.

Lemma Dump_dense from l :
  dense l → Dump from l = Ok (to_proto <$> drop (Z.to_nat (from - start l)) (entries l)).
Proof.
  intros Hd. unfold Dump. rewrite (LastOpnum_dense l Hd).
  destruct (decide (from ≤ start l + Z.of_nat (length (entries l)))) as [Hle|Hgt].
  - set (k := Z.to_nat (from - start l)).
    replace (Z.max from (start l)) with (start l + Z.of_nat k) by lia.
    replace (start l + Z.of_nat (length (entries l)) - 1 - (start l + Z.of_nat k) + 1) with
      (Z.of_nat (length (entries l) - k)) by lia.
    apply dump_dense. lia.
  - rewrite drop_ge by lia. rewrite seqZ_nil by lia. done.
Qed.

(** What a log says about a position. *)
Definition content (e : LogEntry) : viewstamp_t * Request := (viewstamp e, request e).

Definition contents (l : Log) : list (viewstamp_t * Request) := content <$> entries l.

Lemma append_all_dense l2 : ∀ j l,
  dense l → dense l2 → start l = start l2 → length (entries l) = j → (j ≤ length (entries l2))%nat →
  ∃ l', append_all (to_proto <$> drop j (entries l2)) l = Ok l' ∧ dense l' ∧ start l' = start l ∧
    contents l' = contents l ++ drop j (contents l2).
Proof.
  intros j. remember (length (entries l2) - j)%nat as n eqn:Hn. revert j Hn.
  induction n as [|n IH]; intros j Hn l Hd Hd2 Hst Hlen Hj.
  - exists l. rewrite !drop_ge by (unfold contents; rewrite ?length_fmap; lia). simpl. by rewrite app_nil_r.
  - destruct (lookup_lt_is_Some_2 (entries l2) j) as [e He]; [lia|]. rewrite (drop_S _ _ _ He). cbn [fmap list_fmap append_all lp_view lp_opnum lp_request to_proto].
    pose proof (dn_opnum _ Hd2 j e He) as Hop. pose proof (dn_bound _ Hd2) as Hb2. apply lookup_lt_Some in He as Hlt.
    destruct (Append_dense (MkViewstamp (view (viewstamp e)) (opnum (viewstamp e))) (request e) LOG_STATE_PREPARED l Hd)
      as (e' & -> & Hvs & Hreq & _ & Hd'); [simpl; lia|simpl; lia|].
    cbn [mbind res_bind]. destruct (IH (S j) ltac:(lia) (l <| entries ::= (λ es, es ++ [e']) |>) Hd' Hd2 Hst)
      as (l' & -> & Hd'' & Hst' & Hc); [simpl; rewrite length_app; simpl; lia|lia|].
    exists l'. split_and!; [done..|]. rewrite Hc. unfold contents. simpl. rewrite fmap_app, <- (assoc_L (++)). f_equal.
    rewrite (drop_S (content <$> entries l2) (content e) j); [|by rewrite list_lookup_fmap, He]. simpl. f_equal.
    unfold content. rewrite Hvs, Hreq. by destruct (viewstamp e).
Qed.

(** ** Copying a log *)

(** Where two logs have entries of the same view, they agree up to there. *)
Definition matching (l1 l2 : Log) : Prop :=
  ∀ i e1 e2, entries l1 !! i = Some e1 → entries l2 !! i = Some e2 → view (viewstamp e1) = view (viewstamp e2) →
    take (S i) (contents l1) = take (S i) (contents l2).

Lemma matching_take k l1 l2 : matching l1 l2 → matching (l1 <| entries ::= take k |>) l2.
Proof.
  intros Hm i e1 e2 He1 He2 Hv. unfold contents. simpl. rewrite fmap_take. simpl in He1. rewrite lookup_take_Some in He1. destruct He1 as [He1 Hi].
  rewrite take_take, Nat.min_l by lia. exact (Hm i e1 e2 He1 He2 Hv).
Qed.

Lemma length_contents l : length (contents l) = length (entries l).
Proof. apply length_fmap. Qed.

Lemma install_from l2 : ∀ j l1,
  dense l1 → dense l2 → start l1 = start l2 → matching l1 l2 → (length (entries l1) ≤ length (entries l2))%nat →
  (j ≤ length (entries l1))%nat → take j (contents l1) = take j (contents l2) →
  ∃ l', Install (to_proto <$> drop j (entries l2)) l1 = Ok l' ∧ dense l' ∧ start l' = start l2 ∧ contents l' = contents l2.
Proof.
  intros j. remember (length (entries l2) - j)%nat as n eqn:Hn. revert j Hn.
  induction n as [|n IH]; intros j Hn l1 Hd1 Hd2 Hst Hm Hlen Hj Ht.
  - exists l1. rewrite drop_ge by lia. split_and!; [done..|].
    rewrite !take_ge in Ht by (rewrite length_contents; lia). done.
  - destruct (lookup_lt_is_Some_2 (entries l2) j) as [e2 He2]; [lia|].
    pose proof (dn_opnum _ Hd2 j e2 He2) as Hop. pose proof (dn_start _ Hd2).
    assert (to_proto <$> drop j (entries l2) = to_proto e2 :: (to_proto <$> drop (S j) (entries l2))) as Hdrop
      by (by rewrite (drop_S _ _ _ He2)).
    assert (Find (lp_opnum (to_proto e2)) l1 = entries l1 !! j) as Hfind.
    { rewrite Find_lookup. simpl. rewrite Hst, Hop, (proj2 (Z.ltb_ge _ _)) by lia. f_equal. lia. }
    assert (∀ l, dense l → start l = start l2 → length (entries l) = j → contents l = take j (contents l2) →
      ∃ l', append_all (to_proto <$> drop j (entries l2)) l = Ok l' ∧ dense l' ∧ start l' = start l2 ∧ contents l' = contents l2) as Happ.
    { intros l Hd Hs Hl Hc. destruct (append_all_dense l2 j l Hd Hd2 Hs Hl) as (l' & Hrun & Hd' & Hs' & Hc'); [lia|].
      exists l'. split_and!; [done..|congruence|]. by rewrite Hc', Hc, take_drop. }
    unfold Install in *. rewrite Hdrop. cbn [find_divergence]. rewrite Hfind.
    destruct (entries l1 !! j) as [e1|] eqn:He1.
    + cbn [lp_view to_proto]. destruct (Z.eqb_spec (view (viewstamp e2)) (view (viewstamp e1))) as [Ev|Ev].
      * apply lookup_lt_Some in He1 as Hlt. apply (IH (S j)); [lia|done..|lia|]. by apply (Hm j e1 e2).
      * cbn [lp_opnum to_proto]. rewrite (RemoveAfter_dense (opnum (viewstamp e2)) l1) by (done || lia).
        replace (Z.to_nat (opnum (viewstamp e2) - start l1)) with j by lia.
        cbn [mbind res_bind].
        rewrite <- Hdrop. apply lookup_lt_Some in He1. apply Happ; [by apply dense_take|done|simpl; rewrite length_take; lia|].
        unfold contents. simpl. by rewrite fmap_take.
    + cbn [mbind res_bind].
      rewrite <- Hdrop. apply lookup_ge_None in He1. apply Happ; [done..|lia|].
      rewrite <- Ht, take_ge; [done|]. rewrite length_contents. lia.
Qed.

(** A replica that cuts its log behind the last number of another log and installs what the
    other log dumps has a copy of the other log, provided that the two agree before the first
    number dumped and wherever they have entries of the same view. *)
Theorem log_dump_install (l1 l2 : Log) (from : Z) :
  dense l1 → dense l2 → start l1 = start l2 → matching l1 l2 →
  start l1 ≤ from ≤ start l1 + Z.of_nat (length (entries l1)) → from ≤ start l2 + Z.of_nat (length (entries l2)) →
  take (Z.to_nat (from - start l1)) (contents l1) = take (Z.to_nat (from - start l1)) (contents l2) →
  ∃ es l1' l', Dump from l2 = Ok es ∧ RemoveAfter (LastOpnum l2 + 1) l1 = Ok l1' ∧ Install es l1' = Ok l' ∧
    dense l' ∧ contents l' = contents l2.
Proof.
  intros Hd1 Hd2 Hst Hm Hfrom Hfrom2 Ht. rewrite (Dump_dense from l2 Hd2), (LastOpnum_dense l2 Hd2). rewrite <- Hst.
  pose proof (dn_start _ Hd2). rewrite (RemoveAfter_dense _ l1 Hd1) by lia.
  replace (Z.to_nat (start l1 + Z.of_nat (length (entries l2)) - 1 + 1 - start l1)) with (length (entries l2)) by lia.
  set (k := Z.to_nat (from - start l1)) in *. eexists _, _. set (l1' := l1 <| entries ::= _ |>).
  destruct (install_from l2 k l1') as (l' & Hrun & Hd' & _ & Hc).
  - by apply dense_take.
  - done.
  - done.
  - by apply matching_take.
  - simpl. rewrite length_take. lia.
  - simpl. rewrite length_take. lia.
  - unfold contents. simpl. rewrite fmap_take, take_take, Nat.min_l by lia. exact Ht.
  - exists l'. by split_and!.
Qed.
End dense.

(** A log that diverged in view 2 and a shorter one from view 3. *)
Definition log_demo_hasher : Hasher := λ _ _ _, "".

Definition log_demo_entry (v op : Z) : LogEntry :=
  MkLogEntry (MkViewstamp v op) LOG_STATE_PREPARED (MkRequest "op" v op) "".

Definition log_demo_old : Log :=
  MkLog [log_demo_entry 1 1; log_demo_entry 2 2; log_demo_entry 2 3; log_demo_entry 2 4] "" 1 false.
Definition log_demo_new : Log := MkLog [log_demo_entry 1 1; log_demo_entry 3 2; log_demo_entry 3 3] "" 1 false.

Lemma log_demo_dense l vs :
  l = MkLog (zip_with log_demo_entry vs (seqZ 1 (Z.of_nat (length vs)))) "" 1 false → Z.of_nat (length vs) < 2 ^ 63 → dense l.
Proof.
  intros -> Hl. split; simpl; [lia|rewrite length_zip_with, length_seqZ; lia|]. intros i e Hi.
  apply lookup_zip_with_Some in Hi as (v & op & -> & _ & Hop). simpl. apply lookup_seqZ in Hop. lia.
Qed.

Lemma log_dump_install_witness :
  ∃ es l1' l', Dump 2 log_demo_new = Ok es ∧ RemoveAfter (LastOpnum log_demo_new + 1) log_demo_old = Ok l1' ∧
    Install (H := log_demo_hasher) es l1' = Ok l' ∧ dense l' ∧ contents l' = contents log_demo_new.
Proof.
  apply (log_dump_install (H := log_demo_hasher) log_demo_old log_demo_new 2).
  - by apply (log_demo_dense _ [1; 2; 2; 2]).
  - by apply (log_demo_dense _ [1; 3; 3]).
  - done.
  - intros i e1 e2 H1 H2 Hv. do 4 (destruct i as [|i]; [simplify_eq/=; done|]). done.
  - simpl. lia.
  - simpl. lia.
  - done.
Defined.
