(* ===== verification/VRReplica.v ===== *)
(** A replica of viewstamped replication: [replication/vr/replica.h] and [replica.cc], with the
    messages of [vr-proto.proto] and the calls of [replication/common/replica.cc].

    The leader of a view numbers the requests of the clients, sends them to the others in
    batches and executes an operation when a quorum has it; in a view change the next leader
    collects the logs.  A timer is running or not; that one fires is an event of a run.  What the
    application executed is recorded in [executed].  Numbers are 64 bits wide.

    [HandleDoViewChange] keeps a pointer to a copy of a message that is destroyed before the
    pointer is used; [DanglingRead] is what such a read gives, and [None], that it is undefined,
    is the only thing to rely on. *)

From S2P Require Import QuorumSet LRReplica.
From S2P Require Import Prelude IRRecord IRReplica.
From S2P Require Import ReplLog.

(** ** The application *)

(** [class AppReplica]; the result of the upcall of the leader says whether to replicate. *)
Class AppReplica (S : Type) := {
  LeaderUpcall : Z → string → M S (bool * string);
  ReplicaUpcall : Z → string → M S string;
  UnloggedUpcall : string → M S string
}.

(** ** Messages *)

Record ReplyMessage := MkReply { rep_view : Z; rep_opnum : Z; rep_clientreqid : Z; rep_reply : string }.

Record PrepareMessage := MkPrepare { pr_view : Z; pr_opnum : Z; pr_batchstart : Z; pr_request : list Request }.

Record PrepareOKMessage := MkPrepareOK { ok_view : Z; ok_opnum : Z; ok_replicaIdx : Z }.

Record CommitMessage := MkCommit { cm_view : Z; cm_opnum : Z }.

Record RequestStateTransferMessage := MkRequestStateTransfer { rst_view : Z; rst_opnum : Z }.

Record StateTransferMessage := MkStateTransfer { st_view : Z; st_opnum : Z; st_entries : list LogEntryProto }.

Record StartViewChangeMessage := MkStartViewChange { svc_view : Z; svc_replicaIdx : Z; svc_lastCommitted : Z }.

Record DoViewChangeMessage := MkDoViewChange {
  dvc_view : Z; dvc_lastNormalView : Z; dvc_lastOp : Z; dvc_lastCommitted : Z; dvc_entries : list LogEntryProto;
  dvc_replicaIdx : Z
}.

Record StartViewMessage := MkStartView { sv_view : Z; sv_lastOp : Z; sv_lastCommitted : Z; sv_entries : list LogEntryProto }.

Inductive vr_message :=
| RequestMsg (req : Request)
| UnloggedRequestMsg (req : Request)
| PrepareMsg (m : PrepareMessage)
| PrepareOKMsg (m : PrepareOKMessage)
| CommitMsg (m : CommitMessage)
| RequestStateTransferMsg (m : RequestStateTransferMessage)
| StateTransferMsg (m : StateTransferMessage)
| StartViewChangeMsg (m : StartViewChangeMessage)
| DoViewChangeMsg (m : DoViewChangeMessage)
| StartViewMsg (m : StartViewMessage)
| ReplyMsg (m : ReplyMessage)
| UnloggedReplyMsg (reply : string) (clientreqid : Z)
| UnexpectedMsg.

(** Addresses of replicas and of clients. *)
Inductive vr_address := AtReplica (i : Z) | AtClient (c : Z).

#[global] Instance vr_address_eq_dec : EqDecision vr_address.
Proof. solve_decision. Defined.

Inductive vr_sent := ToAddress (a : vr_address) (m : vr_message) | ToReplicaAt (i : Z) (m : vr_message) | ToAll (m : vr_message).

(** ** The replica *)

Record ClientTableEntry := MkClientTableEntry { lastReqId : Z; replied : bool; reply : option ReplyMessage }.

#[global] Instance ClientTableEntry_eta : Eta ClientTableEntry := λ e, MkClientTableEntry (lastReqId e) (replied e) (reply e).

(** What [clientTable[id]] inserts. *)
Definition ClientTableEntry_default : ClientTableEntry := MkClientTableEntry 0 false None.

Record VRReplica (S : Type) := MkVRReplica {
  configuration : Configuration;
  myIdx : Z;
  app : S;
  status : ReplicaStatus;
  view : Z;
  lastCommitted : Z;
  lastOp : Z;
  lastRequestStateTransferView : Z;
  lastRequestStateTransferOpnum : Z;
  pendingPrepares : list (vr_address * PrepareMessage);
  lastPrepare : option PrepareMessage;
  batchSize : Z;
  lastBatchEnd : Z;
  log : Log;
  clientAddresses : gmap Z vr_address;
  clientTable : gmap Z ClientTableEntry;
  prepareOKQuorum : QuorumSet (Z * Z) PrepareOKMessage;
  startViewChangeQuorum : QuorumSet Z StartViewChangeMessage;
  doViewChangeQuorum : QuorumSet Z DoViewChangeMessage;
  viewChangeTimeout : bool;
  nullCommitTimeout : bool;
  stateTransferTimeout : bool;
  resendPrepareTimeout : bool;
  closeBatchTimeout : bool;
  sends : list (vr_sent * bool);
  executed : list (Z * string)
}.
Arguments MkVRReplica {_}.
Arguments configuration {_} _.
Arguments myIdx {_} _.
Arguments app {_} _.
Arguments status {_} _.
Arguments view {_} _.
Arguments lastCommitted {_} _.
Arguments lastOp {_} _.
Arguments lastRequestStateTransferView {_} _.
Arguments lastRequestStateTransferOpnum {_} _.
Arguments pendingPrepares {_} _.
Arguments lastPrepare {_} _.
Arguments batchSize {_} _.
Arguments lastBatchEnd {_} _.
Arguments log {_} _.
Arguments clientAddresses {_} _.
Arguments clientTable {_} _.
Arguments prepareOKQuorum {_} _.
Arguments startViewChangeQuorum {_} _.
Arguments doViewChangeQuorum {_} _.
Arguments viewChangeTimeout {_} _.
Arguments nullCommitTimeout {_} _.
Arguments stateTransferTimeout {_} _.
Arguments resendPrepareTimeout {_} _.
Arguments closeBatchTimeout {_} _.
Arguments sends {_} _.
Arguments executed {_} _.

#[global] Instance VRReplica_eta {S} : Eta (VRReplica S) := λ r,
  MkVRReplica (configuration r) (myIdx r) (app r) (status r) (view r) (lastCommitted r) (lastOp r)
    (lastRequestStateTransferView r) (lastRequestStateTransferOpnum r) (pendingPrepares r) (lastPrepare r) (batchSize r)
    (lastBatchEnd r) (log r) (clientAddresses r) (clientTable r) (prepareOKQuorum r) (startViewChangeQuorum r)
    (doViewChangeQuorum r) (viewChangeTimeout r) (nullCommitTimeout r) (stateTransferTimeout r) (resendPrepareTimeout r)
    (closeBatchTimeout r) (sends r) (executed r).

Class DanglingRead := read_dangling : DoViewChangeMessage → option DoViewChangeMessage.

Section replica.
Context {S : Type} `{!AppReplica S} `{!Network} `{!Hasher} `{!DanglingRead}.

Abbreviation MV := (M (VRReplica S)).

Definition transport_send (x : vr_sent) : MV unit :=
  modify (λ r, r <| sends ::= (λ l, l ++ [(x, send_ok (length l))]) |>).

Definition on_app {A} (m : M S A) : MV A := λ r,
  match m (app r) with
  | Ok (a, s) => Ok (a, r <| app := s |>)
  | Panic => Panic
  | Undefined => Undefined
  end.

Definition on_log {A} (m : Log → res (A * Log)) : MV A := λ r,
  match m (log r) with
  | Ok (a, l) => Ok (a, r <| log := l |>)
  | Panic => Panic
  | Undefined => Undefined
  end.

(** An operation on the log without a result. *)
Definition change_log (f : Log → res Log) : MV unit := on_log (λ l, l' ← f l; Ok (tt, l')).

Definition LeaderOf (v : Z) : MV Z := r ← get_st; lift_res (GetLeaderIndex (configuration r) v).

Definition AmLeader : MV bool := r ← get_st; i ← LeaderOf (view r); mret (i =? myIdx r).

(** ** Execution *)

Definition Execute (opnum : Z) (req : Request) : MV string :=
  _ ← modify (λ r, r <| executed ::= (λ l, l ++ [(opnum, req_op req)]) |>);
  on_app (ReplicaUpcall opnum (req_op req)).

(** One round of the loop of [CommitUpTo]. *)
Definition commit_next : MV unit :=
  _ ← modify (λ r, r <| lastCommitted ::= u64_incr |>);
  r ← get_st;
  match Find (lastCommitted r) (log r) with
  | None => panic
  | Some entry =>
      let req := request entry in
      res ← Execute (lastCommitted r) req;
      let reply := MkReply (QuorumSet.view (viewstamp entry)) (opnum (viewstamp entry)) (req_clientreqid req) res in
      _ ← modify (λ r, r <| log ::= (λ l, (SetStatus (lastCommitted r) LOG_STATE_COMMITTED l).2) |>);
      r ← get_st;
      let cte := default ClientTableEntry_default (clientTable r !! req_clientid req) in
      let cte' := if lastReqId cte <=? req_clientreqid req then MkClientTableEntry (req_clientreqid req) true (Some reply) else cte in
      _ ← modify (λ r, r <| clientTable ::= <[req_clientid req := cte']> |>);
      r ← get_st;
      match clientAddresses r !! req_clientid req with
      | Some addr => transport_send (ToAddress addr (ReplyMsg reply))
      | None => mret tt
      end
  end.

(** [n] rounds. *)
Fixpoint commit_rounds (n : nat) : MV unit :=
  match n with O => mret tt | Datatypes.S n => _ ← commit_next; commit_rounds n end.

Definition CommitUpTo (upto : Z) : MV unit := r ← get_st; commit_rounds (Z.to_nat (upto - lastCommitted r)).

(** [UpdateClientTable]; the lookup inserts an entry. *)
Definition UpdateClientTable (req : Request) : MV unit :=
  r ← get_st;
  let entry := default ClientTableEntry_default (clientTable r !! req_clientid req) in
  let entry' := if lastReqId entry =? req_clientreqid req then entry else MkClientTableEntry (req_clientreqid req) false None in
  modify (λ r, r <| clientTable ::= <[req_clientid req := entry']> |>).

Definition send_prepare_ok (v op : Z) : MV unit :=
  r ← get_st;
  leader ← LeaderOf (view r);
  transport_send (ToReplicaAt leader (PrepareOKMsg (MkPrepareOK v op (myIdx r)))).

Definition SendPrepareOKs (oldLastOp : Z) : MV unit :=
  r ← get_st;
  for_each (seqZ oldLastOp (lastOp r - oldLastOp + 1)) (λ i,
    r ← get_st;
    if i <=? lastCommitted r then mret tt
    else
      match Find i (log r) with
      | None => panic
      | Some entry => _ ← UpdateClientTable (request entry); send_prepare_ok (view r) i
      end).

(** ** State transfer, views and batches *)

Definition RequestStateTransfer : MV unit :=
  r ← get_st;
  if negb (lastRequestStateTransferOpnum r =? 0) && (lastRequestStateTransferView r =? view r) &&
     (lastRequestStateTransferOpnum r =? lastCommitted r)
  then mret tt
  else
    _ ← modify (λ r, r <| lastRequestStateTransferView := view r |> <| lastRequestStateTransferOpnum := lastCommitted r |>);
    transport_send (ToAll (RequestStateTransferMsg (MkRequestStateTransfer (view r) (lastCommitted r)))).

Definition EnterView (newview : Z) : MV unit :=
  _ ← modify (λ r, r <| view := newview |> <| status := STATUS_NORMAL |> <| lastBatchEnd := lastOp r |>);
  l ← AmLeader;
  _ ← modify (λ r,
    if l : bool then r <| viewChangeTimeout := false |> <| nullCommitTimeout := true |>
    else r <| viewChangeTimeout := true |> <| nullCommitTimeout := false |> <| resendPrepareTimeout := false |>
           <| closeBatchTimeout := false |>);
  modify (λ r, r <| prepareOKQuorum ::= ClearAll |> <| startViewChangeQuorum ::= ClearAll |> <| doViewChangeQuorum ::= ClearAll |>).

Definition StartViewChange (newview : Z) : MV unit :=
  _ ← modify (λ r, r <| view := newview |> <| status := STATUS_VIEW_CHANGE |> <| viewChangeTimeout := true |>
    <| nullCommitTimeout := false |> <| resendPrepareTimeout := false |> <| closeBatchTimeout := false |>);
  r ← get_st;
  transport_send (ToAll (StartViewChangeMsg (MkStartViewChange newview (myIdx r) (lastCommitted r)))).

Definition SendNullCommit : MV unit :=
  r ← get_st; transport_send (ToAll (CommitMsg (MkCommit (view r) (lastCommitted r)))).

(** Before a batch was closed [lastPrepare] has no contents that could be sent. *)
Definition ResendPrepare : MV unit :=
  r ← get_st;
  if lastOp r =? lastCommitted r then mret tt
  else p ← deref (lastPrepare r); transport_send (ToAll (PrepareMsg p)).

(** The requests with the numbers of the list. *)
Fixpoint batch (ops : list Z) (l : Log) : res (list Request) :=
  match ops with
  | [] => Ok []
  | i :: ops => match Find i l with None => Undefined | Some e => rs ← batch ops l; Ok (request e :: rs) end
  end.

Definition CloseBatch : MV unit :=
  r ← get_st;
  let batchStart := u64_incr (lastBatchEnd r) in
  reqs ← lift_res (batch (seqZ batchStart (lastOp r - batchStart + 1)) (log r));
  let p := MkPrepare (view r) (lastOp r) batchStart reqs in
  _ ← modify (λ r, r <| lastPrepare := Some p |>);
  _ ← transport_send (ToAll (PrepareMsg p));
  modify (λ r, r <| lastBatchEnd := lastOp r |> <| resendPrepareTimeout := true |> <| closeBatchTimeout := false |>).

(** ** Requests of the clients *)

Definition HandleRequest (remote : vr_address) (req : Request) : MV unit :=
  r ← get_st;
  if negb (bool_decide (status r = STATUS_NORMAL)) then mret tt
  else
    leader ← AmLeader;
    if negb leader then mret tt
    else
      _ ← modify (λ r, r <| clientAddresses ::= <[req_clientid req := remote]> |>);
      r ← get_st;
      let fresh :=
        _ ← UpdateClientTable req;
        r ← get_st;
        '(replicate, res) ← on_app (LeaderUpcall (lastCommitted r) (req_op req));
        if negb replicate then
          let rep := MkReply 0 0 (req_clientreqid req) res in
          _ ← modify (λ r, r <| clientTable ::= (λ t,
            let cte := default ClientTableEntry_default (t !! req_clientid req) in
            <[req_clientid req := cte <| replied := true |> <| reply := Some rep |>]> t) |>);
          transport_send (ToAddress remote (ReplyMsg rep))
        else
          _ ← modify (λ r, r <| lastOp ::= u64_incr |>);
          r ← get_st;
          _ ← change_log (Append (MkViewstamp (view r) (lastOp r))
                (MkRequest res (req_clientid req) (req_clientreqid req)) LOG_STATE_PREPARED);
          _ ← (if u64 (lastOp r - lastBatchEnd r + 1) >? batchSize r then CloseBatch
               else modify (λ r, r <| closeBatchTimeout := true |>));
          modify (λ r, r <| nullCommitTimeout := true |>) in
      match clientTable r !! req_clientid req with
      | Some entry =>
          if req_clientreqid req <? lastReqId entry then mret tt
          else if req_clientreqid req =? lastReqId entry then
            if replied entry then rep ← deref (reply entry); transport_send (ToAddress remote (ReplyMsg rep)) else mret tt
          else fresh
      | None => fresh
      end.

Definition HandleUnloggedRequest (remote : vr_address) (req : Request) : MV unit :=
  r ← get_st;
  if negb (bool_decide (status r = STATUS_NORMAL)) then mret tt
  else
    res ← on_app (UnloggedUpcall (req_op req));
    transport_send (ToAddress remote (UnloggedReplyMsg res (req_clientreqid req))).

(** ** Normal operation *)

(** The loop over the requests of a batch; [op] is the number before the next one. *)
Fixpoint append_batch (v op : Z) (reqs : list Request) : MV unit :=
  match reqs with
  | [] => mret tt
  | req :: reqs =>
      let op := u64_incr op in
      r ← get_st;
      if op <=? lastOp r then append_batch v op reqs
      else
        _ ← modify (λ r, r <| lastOp ::= u64_incr |>);
        _ ← change_log (Append (MkViewstamp v op) req LOG_STATE_PREPARED);
        _ ← UpdateClientTable req;
        append_batch v op reqs
  end.

Definition HandlePrepare (remote : vr_address) (msg : PrepareMessage) : MV unit :=
  r ← get_st;
  if negb (bool_decide (status r = STATUS_NORMAL)) then mret tt
  else if pr_view msg <? view r then mret tt
  else if pr_view msg >? view r then
    _ ← RequestStateTransfer;
    modify (λ r, r <| pendingPrepares ::= (λ l, l ++ [(remote, msg)]) |>)
  else
    leader ← AmLeader;
    if leader : bool then panic
    else
      _ ← modify (λ r, r <| viewChangeTimeout := true |>);
      if pr_opnum msg <=? lastOp r then send_prepare_ok (pr_view msg) (pr_opnum msg)
      else if pr_batchstart msg >? u64_incr (lastOp r) then
        _ ← RequestStateTransfer;
        modify (λ r, r <| pendingPrepares ::= (λ l, l ++ [(remote, msg)]) |>)
      else
        _ ← append_batch (pr_view msg) (u64_decr (pr_batchstart msg)) (pr_request msg);
        send_prepare_ok (pr_view msg) (pr_opnum msg).

Definition HandlePrepareOK (remote : vr_address) (msg : PrepareOKMessage) : MV unit :=
  r ← get_st;
  if negb (bool_decide (status r = STATUS_NORMAL)) then mret tt
  else if ok_view msg <? view r then mret tt
  else if ok_view msg >? view r then RequestStateTransfer
  else
    leader ← AmLeader;
    if negb leader then mret tt
    else
      let '(msgs, q) := AddAndCheckForQuorum (ok_view msg, ok_opnum msg) (ok_replicaIdx msg) msg (prepareOKQuorum r) in
      _ ← modify (λ r, r <| prepareOKQuorum := q |>);
      match msgs with
      | None => mret tt
      | Some msgs =>
          _ ← CommitUpTo (ok_opnum msg);
          r ← get_st;
          if Z.of_nat (size msgs) >=? QuorumSize (configuration r) then mret tt
          else
            _ ← transport_send (ToAll (CommitMsg (MkCommit (view r) (lastCommitted r))));
            modify (λ r, r <| nullCommitTimeout := true |>)
      end.

Definition HandleCommit (remote : vr_address) (msg : CommitMessage) : MV unit :=
  r ← get_st;
  if negb (bool_decide (status r = STATUS_NORMAL)) then mret tt
  else if cm_view msg <? view r then mret tt
  else if cm_view msg >? view r then RequestStateTransfer
  else
    leader ← AmLeader;
    if leader : bool then panic
    else
      _ ← modify (λ r, r <| viewChangeTimeout := true |>);
      if cm_opnum msg <=? lastCommitted r then mret tt
      else if cm_opnum msg >? lastOp r then RequestStateTransfer
      else CommitUpTo (cm_opnum msg).

Definition HandleRequestStateTransfer (remote : vr_address) (msg : RequestStateTransferMessage) : MV unit :=
  r ← get_st;
  if negb (bool_decide (status r = STATUS_NORMAL)) then mret tt
  else if rst_view msg >? view r then RequestStateTransfer
  else
    es ← lift_res (Dump (u64_incr (rst_opnum msg)) (log r));
    transport_send (ToAddress remote (StateTransferMsg (MkStateTransfer (view r) (lastCommitted r) es))).

(** The loop over the entries of a state transfer; the result is [oldLastOp] after it. *)
Fixpoint install_entries (oldLastOp : Z) (es : list LogEntryProto) : MV Z :=
  match es with
  | [] => mret oldLastOp
  | e :: es =>
      let vs := MkViewstamp (lp_view e) (lp_opnum e) in
      r ← get_st;
      if lp_opnum e <=? lastCommitted r then install_entries oldLastOp es
      else if lp_opnum e <=? lastOp r then
        entry ← deref (Find (lp_opnum e) (log r));
        if QuorumSet.view (viewstamp entry) =? lp_view e then install_entries oldLastOp es
        else
          _ ← change_log (RemoveAfter (lp_opnum e));
          _ ← modify (λ r, r <| lastOp := lp_opnum e |>);
          _ ← change_log (Append vs (lp_request e) LOG_STATE_PREPARED);
          install_entries (lp_opnum e) es
      else
        _ ← modify (λ r, r <| lastOp ::= u64_incr |>);
        _ ← change_log (Append vs (lp_request e) LOG_STATE_PREPARED);
        install_entries oldLastOp es
  end.

(** The loop over the pending prepares at the end runs over the list that was just cleared. *)
Definition HandleStateTransfer (remote : vr_address) (msg : StateTransferMessage) : MV unit :=
  r ← get_st;
  if st_view msg <? view r then mret tt
  else
    oldLastOp ← install_entries (lastOp r) (st_entries msg);
    _ ← when (st_view msg >? view r) (EnterView (st_view msg));
    _ ← CommitUpTo (st_opnum msg);
    _ ← SendPrepareOKs oldLastOp;
    _ ← modify (λ r, r <| pendingPrepares := [] |>);
    r ← get_st;
    for_each (pendingPrepares r) (λ p, HandlePrepare p.1 p.2).

(** ** View changes *)

(** The smallest of the numbers; [None] for an empty list, whose smallest element is its end. *)
Definition min_of (l : list Z) : option Z := match l with [] => None | x :: l => Some (foldr Z.min x l) end.

Definition HandleStartViewChange (remote : vr_address) (msg : StartViewChangeMessage) : MV unit :=
  r ← get_st;
  if svc_view msg <? view r then mret tt
  else if (svc_view msg =? view r) && negb (bool_decide (status r = STATUS_VIEW_CHANGE)) then mret tt
  else
    _ ← when (negb (bool_decide (status r = STATUS_VIEW_CHANGE)) || (svc_view msg >? view r)) (StartViewChange (svc_view msg));
    r ← get_st;
    let '(msgs, q) := AddAndCheckForQuorum (svc_view msg) (svc_replicaIdx msg) msg (startViewChangeQuorum r) in
    _ ← modify (λ r, r <| startViewChangeQuorum := q |>);
    match msgs with
    | None => mret tt
    | Some msgs =>
        leader ← LeaderOf (view r);
        if leader =? myIdx r then mret tt
        else
          minCommitted ← deref (min_of (svc_lastCommitted <$> (map_to_list msgs).*2));
          es ← lift_res (Dump (Z.min minCommitted (lastCommitted r)) (log r));
          transport_send (ToReplicaAt leader (DoViewChangeMsg
            (MkDoViewChange (view r) (QuorumSet.view (LastViewstamp (log r))) (lastOp r) (lastCommitted r) es (myIdx r))))
    end.

(** The search for the latest log; the messages come in the order of the replicas. *)
Definition select_log (acc : Z * Z * option DoViewChangeMessage) (x : DoViewChangeMessage) :
    Z * Z * option DoViewChangeMessage :=
  let '(latestView, latestOp, latestMsg) := acc in
  if (dvc_lastNormalView x >? latestView) || ((dvc_lastNormalView x =? latestView) && (dvc_lastOp x >? latestOp))
  then (dvc_lastNormalView x, dvc_lastOp x, Some x) else acc.

(** The installation of a log in a view change. *)
Definition install_log (lastOp' : Z) (es : list LogEntryProto) : MV unit :=
  match es with
  | [] => mret tt
  | e :: _ =>
      r ← get_st;
      if lp_opnum e >? u64_incr (lastCommitted r) then panic
      else
        _ ← change_log (RemoveAfter (u64_incr lastOp'));
        change_log (Install es)
  end.

Definition HandleDoViewChange (remote : vr_address) (msg : DoViewChangeMessage) : MV unit :=
  r ← get_st;
  if dvc_view msg <? view r then mret tt
  else if (dvc_view msg =? view r) && negb (bool_decide (status r = STATUS_VIEW_CHANGE)) then mret tt
  else
    _ ← when (negb (bool_decide (status r = STATUS_VIEW_CHANGE)) || (dvc_view msg >? view r)) (StartViewChange (dvc_view msg));
    r ← get_st;
    let '(msgs, q) := AddAndCheckForQuorum (dvc_view msg) (dvc_replicaIdx msg) msg (doViewChangeQuorum r) in
    _ ← modify (λ r, r <| doViewChangeQuorum := q |>);
    match msgs with
    | None => mret tt
    | Some msgs =>
        let own := LastViewstamp (log r) in
        let '(latestView, latestOp, latestMsg) :=
          foldl select_log (QuorumSet.view own, opnum own, None) (by_key msgs).*2 in
        latest ← match latestMsg with
                 | None => mret None
                 | Some m => m' ← deref (read_dangling m); mret (Some m')
                 end;
        _ ← match latest with None => mret tt | Some m => install_log (dvc_lastOp m) (dvc_entries m) end;
        r ← get_st;
        let '(svcs, q) := GetMessages (view r) (startViewChangeQuorum r) in
        _ ← modify (λ r, r <| startViewChangeQuorum := q |>);
        minCommittedSVC ← deref (min_of (svc_lastCommitted <$> (map_to_list svcs).*2));
        minCommittedDVC ← deref (min_of (dvc_lastCommitted <$> (map_to_list msgs).*2));
        let minCommitted := Z.min (Z.min minCommittedSVC minCommittedDVC) (lastCommitted r) in
        _ ← EnterView (dvc_view msg);
        _ ← modify (λ r, r <| lastOp := latestOp |>);
        _ ← match latest with None => mret tt | Some m => CommitUpTo (dvc_lastCommitted m) end;
        r ← get_st;
        es ← lift_res (Dump minCommitted (log r));
        transport_send (ToAll (StartViewMsg (MkStartView (view r) (lastOp r) (lastCommitted r) es)))
    end.

Definition HandleStartView (remote : vr_address) (msg : StartViewMessage) : MV unit :=
  r ← get_st;
  if sv_view msg <? view r then mret tt
  else if (sv_view msg =? view r) && negb (bool_decide (status r = STATUS_VIEW_CHANGE)) then mret tt
  else
    _ ← install_log (sv_lastOp msg) (sv_entries msg);
    _ ← EnterView (sv_view msg);
    r ← get_st;
    let oldLastOp := lastOp r in
    _ ← modify (λ r, r <| lastOp := sv_lastOp msg |>);
    _ ← CommitUpTo (sv_lastCommitted msg);
    SendPrepareOKs oldLastOp.

(** ** Events *)

Definition ReceiveMessage (remote : vr_address) (m : vr_message) : MV unit :=
  match m with
  | RequestMsg req => HandleRequest remote req
  | UnloggedRequestMsg req => HandleUnloggedRequest remote req
  | PrepareMsg m => HandlePrepare remote m
  | PrepareOKMsg m => HandlePrepareOK remote m
  | CommitMsg m => HandleCommit remote m
  | RequestStateTransferMsg m => HandleRequestStateTransfer remote m
  | StateTransferMsg m => HandleStateTransfer remote m
  | StartViewChangeMsg m => HandleStartViewChange remote m
  | DoViewChangeMsg m => HandleDoViewChange remote m
  | StartViewMsg m => HandleStartView remote m
  | ReplyMsg _ | UnloggedReplyMsg _ _ | UnexpectedMsg => panic
  end.

Inductive vr_timer := ViewChangeTimer | NullCommitTimer | StateTransferTimer | ResendPrepareTimer | CloseBatchTimer.

Definition timer_running (t : vr_timer) (r : VRReplica S) : bool :=
  match t with
  | ViewChangeTimer => viewChangeTimeout r
  | NullCommitTimer => nullCommitTimeout r
  | StateTransferTimer => stateTransferTimeout r
  | ResendPrepareTimer => resendPrepareTimeout r
  | CloseBatchTimer => closeBatchTimeout r
  end.

(** A timer that fires is running again when its function is called. *)
Definition FireTimer (t : vr_timer) : MV unit :=
  r ← get_st;
  match t with
  | ViewChangeTimer => StartViewChange (u64_incr (view r))
  | NullCommitTimer => SendNullCommit
  | StateTransferTimer => modify (λ r, r <| lastRequestStateTransferView := 0 |> <| lastRequestStateTransferOpnum := 0 |>)
  | ResendPrepareTimer => ResendPrepare
  | CloseBatchTimer => CloseBatch
  end.

Definition VRReplica_members (config : Configuration) (idx batch : Z) (s : S) : VRReplica S :=
  MkVRReplica config idx s STATUS_NORMAL 0 0 0 0 0 [] None batch 0 (Log_new false 1 "") ∅ ∅
    (QuorumSet_new (QuorumSize config - 1)) (QuorumSet_new (QuorumSize config - 1)) (QuorumSet_new (QuorumSize config - 1))
    false false true false false [] [].

Definition VRReplica_new (config : Configuration) (idx batch : Z) (s : S) : res (VRReplica S) :=
  '(leader, r) ← AmLeader (VRReplica_members config idx batch s);
  Ok (if leader : bool then r <| nullCommitTimeout := true |> else r <| viewChangeTimeout := true |>).
End replica.
