(* ===== verification/VRSafety.v ===== *)
(** Normal operation of viewstamped replication: the replicas of [VRReplica] over a network that
    loses, duplicates, delays and reorders messages, as long as no view change is started.

    The leader of the first view has the longest log; every other log is a prefix of it, every
    replica executes a prefix of it in order, and what is executed anywhere is in the logs of a
    quorum.  The proofs follow one invariant of a replica, [replica_ok], that every handler
    preserves; it is relative to the log [L] of the leader, to the number [C] of operations that
    may be executed, and to what the other replicas are known to have executed. *)

From S2P Require Import QuorumSet LRReplica.
From S2P Require Import Prelude IRRecord IRReplica.
From S2P Require Import ReplLog VRReplica.

Definition requests (l : Log) : list Request := (contents l).*2.

(** What the application is given for an entry. *)
Definition execution (c : viewstamp_t * Request) : Z * string := (opnum c.1, req_op c.2).

Lemma SetStatus_contents op st l : contents (SetStatus op st l).2 = contents l.
Proof.
  unfold SetStatus, update_entry. destruct (position op l) as [i|]; [|done]. unfold contents. simpl.
  apply list_eq. intros k. rewrite !list_lookup_fmap, list_lookup_alter. case_decide; [subst|done]. by destruct (entries l !! k).
Qed.

Lemma SetStatus_dense op st l : dense l → dense (SetStatus op st l).2.
Proof. intros Hd. by apply update_entry_dense. Qed.

Lemma SetStatus_start op st l : start (SetStatus op st l).2 = start l.
Proof. unfold SetStatus, update_entry. by destruct (position op l). Qed.

Lemma length_requests l : length (requests l) = length (entries l).
Proof. unfold requests. by rewrite length_fmap, length_contents. Qed.

Section normal.
Context {S : Type} `{!AppReplica S} `{!Network} `{!Hasher} `{!DanglingRead}.
Context (config : Configuration).
Implicit Types (r : VRReplica S) (L : list Request) (C j : Z) (lc : Z → Z).

(** ** The messages of the first view *)

(** A batch is a piece of the log of the leader. *)
Definition prepare_ok L (p : PrepareMessage) : Prop :=
  pr_view p = 0 ∧ 1 ≤ pr_batchstart p ≤ pr_opnum p + 1 ∧ pr_opnum p ≤ Z.of_nat (length L) ∧
  pr_request p = take (Z.to_nat (pr_opnum p - pr_batchstart p + 1)) (drop (Z.to_nat (pr_batchstart p - 1)) L).

(** A state transfer continues the log of the leader behind number [k]. *)
Definition transfer_ok L C (k : Z) (m : StateTransferMessage) : Prop :=
  st_view m = 0 ∧ 0 ≤ k ∧ st_opnum m ≤ C ∧ st_opnum m ≤ k + Z.of_nat (length (st_entries m)) ∧
  ∀ i e, st_entries m !! i = Some e →
    lp_view e = 0 ∧ lp_opnum e = k + 1 + Z.of_nat i ∧ L !! (Z.to_nat k + i)%nat = Some (lp_request e).

Definition sent_ok L C lc j r (x : vr_sent) : Prop :=
  match x with
  | ToAll (PrepareMsg p) => j = 0 ∧ prepare_ok L p
  | ToAll (CommitMsg m) => j = 0 ∧ cm_view m = 0 ∧ cm_opnum m ≤ C
  | ToAll (RequestStateTransferMsg m) => j ≠ 0 ∧ rst_view m = 0 ∧ 0 ≤ rst_opnum m ≤ lastCommitted r
  | ToReplicaAt i (PrepareOKMsg m) => i = 0 ∧ j ≠ 0 ∧ ok_view m = 0 ∧ ok_replicaIdx m = j ∧ ok_opnum m ≤ lastOp r
  | ToAddress (AtReplica i) (StateTransferMsg m) => i ≠ 0 ∧ ∃ k, k ≤ lc i ∧ transfer_ok L C k m
  | ToAddress (AtClient _) (ReplyMsg _) | ToAddress (AtClient _) (UnloggedReplyMsg _ _) => True
  | _ => False
  end.

(** ** The invariant of a replica *)

Record replica_ok L C lc j r : Prop := {
  ro_config : configuration r = config;
  ro_idx : myIdx r = j;
  ro_status : status r = STATUS_NORMAL;
  ro_view : view r = 0;
  ro_dense : dense (log r);
  ro_start : start (log r) = 1;
  ro_views : ∀ c, c ∈ contents (log r) → QuorumSet.view c.1 = 0;
  ro_lastOp : lastOp r = Z.of_nat (length (entries (log r)));
  ro_lastCommitted : 0 ≤ lastCommitted r ≤ lastOp r;
  ro_batch : 0 ≤ lastBatchEnd r ≤ lastOp r;
  ro_prefix : requests (log r) `prefix_of` L;
  ro_bound : lastCommitted r ≤ C;
  ro_executed : executed r = execution <$> take (Z.to_nat (lastCommitted r)) (contents (log r));
  ro_addresses : ∀ c a, clientAddresses r !! c = Some a → ∃ i, a = AtClient i;
  ro_lastPrepare : ∀ p, lastPrepare r = Some p → prepare_ok L p;
  ro_resend : resendPrepareTimeout r = true → is_Some (lastPrepare r);
  ro_timers : j ≠ 0 → nullCommitTimeout r = false ∧ resendPrepareTimeout r = false ∧ closeBatchTimeout r = false;
  ro_replies : ∀ c e, clientTable r !! c = Some e → replied e = true → is_Some (reply e);
  ro_sends : ∀ x ok, (x, ok) ∈ sends r → sent_ok L C lc j r x
}.

Lemma prepare_ok_mono L L' p : L `prefix_of` L' → prepare_ok L p → prepare_ok L' p.
Proof.
  intros [l ->] (Hv & Hb & Ho & Hr). split_and!; [done|lia|lia|rewrite length_app; lia|].
  rewrite Hr, drop_app_le by lia. rewrite take_app_le; [done|]. rewrite length_drop. lia.
Qed.

Lemma transfer_ok_mono L L' C C' k m : L `prefix_of` L' → C ≤ C' → transfer_ok L C k m → transfer_ok L' C' k m.
Proof.
  intros [l ->] HC (Hv & Hk & Hc & Ho & He). split_and!; [done|done|lia|done|]. intros i e Hi.
  destruct (He i e Hi) as (? & ? & Hl). split_and!; [done..|]. by apply lookup_app_l_Some.
Qed.

Lemma vr_sent_mono L L' C C' lc lc' j r r' x :
  L `prefix_of` L' → C ≤ C' → (∀ i, i ≠ 0 → lc i ≤ lc' i) → lastOp r ≤ lastOp r' → lastCommitted r ≤ lastCommitted r' →
  sent_ok L C lc j r x → sent_ok L' C' lc' j r' x.
Proof.
  intros HL HC Hlc Ho Hco. destruct x as [[i|i] m|i m|m]; destruct m; simpl; try done.
  - intros (Hi & k & Hk & Ht). split; [done|]. exists k. split; [specialize (Hlc i Hi); lia|by eapply transfer_ok_mono].
  - naive_solver lia.
  - intros [? ?]. split; [done|by eapply prepare_ok_mono].
  - naive_solver lia.
  - naive_solver lia.
Qed.

Lemma replica_ok_mono L L' C C' lc lc' j r :
  L `prefix_of` L' → C ≤ C' → (∀ i, i ≠ 0 → lc i ≤ lc' i) → replica_ok L C lc j r → replica_ok L' C' lc' j r.
Proof.
  intros HL HC Hlc []. split; try done; try lia.
  - by etrans.
  - intros p Hp. by eapply prepare_ok_mono, ro_lastPrepare0.
  - intros x ok Hx. eapply vr_sent_mono; [..|by eapply ro_sends0]; done.
Qed.

(** ** Steps that every replica takes *)

Context (Hn : 0 < n config < 2 ^ 31).
Context (Hreplica : ∀ k op (s : S), ∃ x, ReplicaUpcall k op s = Ok x).

Lemma first_leader : GetLeaderIndex config 0 = Ok 0.
Proof. unfold GetLeaderIndex. rewrite u64_small by (unfold is_u64, u64_modulus; lia). by destruct (Z.eqb_spec (n config) 0); [lia|]. Qed.

(** What commits and replies leave alone. *)
Record keeps r r' : Prop := {
  kp_lastOp : lastOp r' = lastOp r;
  kp_contents : contents (log r') = contents (log r);
  kp_quorum : prepareOKQuorum r' = prepareOKQuorum r
}.

#[local] Instance keeps_preorder : PreOrder keeps.
Proof. split; [by split|]. intros r1 r2 r3 [] []. split; congruence. Qed.

(** The client table only forgets older requests. *)
Definition table_le r r' : Prop :=
  ∀ c e, clientTable r !! c = Some e → ∃ e', clientTable r' !! c = Some e' ∧ lastReqId e ≤ lastReqId e'.

#[local] Instance table_le_preorder : PreOrder table_le.
Proof.
  split; [intros r c e He; by exists e|]. intros r1 r2 r3 H12 H23 c e He.
  destruct (H12 c e He) as (e2 & He2 & ?). destruct (H23 c e2 He2) as (e3 & He3 & ?). exists e3. split; [done|lia].
Qed.

Lemma AmLeader_run L C lc j r : replica_ok L C lc j r → AmLeader r = Ok (0 =? j, r).
Proof.
  intros []. unfold AmLeader, LeaderOf, mbind, M_bind, get_st, lift_res. rewrite ro_view0, ro_config0, first_leader. simpl.
  by rewrite ro_idx0.
Qed.

Lemma send_ok_replica L C lc j r x b :
  replica_ok L C lc j r → sent_ok L C lc j r x → replica_ok L C lc j (r <| sends ::= (λ l, l ++ [(x, b l)]) |>).
Proof.
  intros Hr Hx. destruct Hr. split; try done. simpl. intros y ok [Hy|Hy%list_elem_of_singleton]%elem_of_app; [by eapply ro_sends0|].
  by simplify_eq.
Qed.

Lemma LeaderOf_run L C lc j r : replica_ok L C lc j r → LeaderOf 0 r = Ok (0, r).
Proof. intros []. unfold LeaderOf, mbind, M_bind, get_st, lift_res. by rewrite ro_config0, first_leader. Qed.

(** Execution of the next operation. *)
Lemma commit_next_ok L C lc j r :
  replica_ok L C lc j r → lastCommitted r < lastOp r → lastCommitted r < C →
  wp commit_next (λ _ r', replica_ok L C lc j r' ∧ keeps r r' ∧ table_le r r' ∧ lastCommitted r' = lastCommitted r + 1) r.
Proof.
  intros Hr Hlt HC. pose proof Hr as []. pose proof (dn_bound _ ro_dense0) as Hb. unfold commit_next. run. apply post_get. simpl.
  rewrite u64_incr_small by lia. set (k := Z.to_nat (lastCommitted r)).
  destruct (lookup_lt_is_Some_2 (entries (log r)) k) as [e He]; [lia|].
  assert (Find (lastCommitted r + 1) (log r) = Some e) as ->.
  { apply Find_Some. split; [lia|]. rewrite <- He. f_equal. lia. }
  assert (contents (log r) !! k = Some (content e)) as Hc by (unfold contents; by rewrite list_lookup_fmap, He).
  pose proof (dn_opnum _ ro_dense0 k e He) as Hop.
  unfold Execute. apply post_bind. run. unfold on_app. simpl.
  destruct (Hreplica (lastCommitted r + 1) (req_op (request e)) (app r)) as [[res s'] Hup].
  unfold post at 1. simpl. rewrite Hup. run. apply post_get. run. apply post_get. simpl.
  set (cte := default ClientTableEntry_default (clientTable r !! req_clientid (request e))).
  set (cte' := if lastReqId cte <=? req_clientreqid (request e) then MkClientTableEntry _ true _ else cte).
  match goal with |- post _ _ _ ?x => set (r1 := x) end.
  assert (replica_ok L C lc j r1 ∧ keeps r r1 ∧ table_le r r1 ∧ lastCommitted r1 = lastCommitted r + 1) as (Hr1 & Hk & Ht & Hl).
  { split_and!; [split; simpl; try done; try lia| | |done].
    - by apply SetStatus_dense.
    - by rewrite SetStatus_start.
    - rewrite SetStatus_contents. done.
    - rewrite <- length_contents, SetStatus_contents, length_contents. done.
    - unfold requests. by rewrite SetStatus_contents.
    - rewrite SetStatus_contents, ro_executed0. replace (Z.to_nat (lastCommitted r + 1)) with (Datatypes.S k) by lia.
      rewrite (take_S_r _ _ _ Hc), fmap_app. simpl. assert (execution (content e) = (lastCommitted r + 1, req_op (request e))) as ->; [|done]. unfold execution. simpl. by rewrite Hop, ro_start0; f_equal; lia.
    - intros c x [[<- <-]|[_ Hx]]%lookup_insert_Some Hrep; [|by eapply ro_replies0]. unfold cte', cte in *.
      destruct (lastReqId _ <=? _); [eauto|]. destruct (clientTable r !! _) as [y|] eqn:Hy; [by eapply ro_replies0|done].
    - intros x ok Hx. eapply vr_sent_mono; [..|by eapply ro_sends0]; simpl; done || lia.
    - split; simpl; [done|by rewrite SetStatus_contents|done].
    - intros c x Hx. simpl. rewrite lookup_insert. case_decide as Ec; [|by exists x]. eexists. split; [done|].
      unfold cte', cte. rewrite Ec, Hx. simpl. destruct (Z.leb_spec (lastReqId x) (req_clientreqid (request e))); simpl; lia. }
  destruct (clientAddresses r !! req_clientid (request e)) as [a|] eqn:Ha; [|done].
  destruct (ro_addresses0 _ _ Ha) as [i ->]. unfold transport_send, post, modify. split_and!; [|by destruct Hk|done..].
  by apply send_ok_replica.
Qed.

Lemma CommitUpTo_ok L C lc j r upto :
  replica_ok L C lc j r → upto ≤ lastOp r → upto ≤ C →
  wp (CommitUpTo upto)
    (λ _ r', replica_ok L C lc j r' ∧ keeps r r' ∧ table_le r r' ∧ lastCommitted r' = Z.max (lastCommitted r) upto) r.
Proof.
  intros Hr Hup HC. unfold CommitUpTo. apply post_get. remember (Z.to_nat (upto - lastCommitted r)) as k eqn:Hk.
  revert r Hr Hup Hk. induction k as [|k IH]; intros r Hr Hup Hk; cbn [commit_rounds].
  - unfold post, mret, M_ret. split_and!; [done..|lia].
  - apply post_bind. eapply post_mono; [apply (commit_next_ok L C lc j r Hr); lia|]. intros u r1 (Hr1 & Hk1 & Ht1 & Hl1).
    eapply post_mono; [apply (IH r1 Hr1); [destruct Hk1; lia|lia]|]. intros u' r2 (Hr2 & Hk2 & Ht2 & Hl2).
    split_and!; [done|by etrans|by etrans|lia].
Qed.

(** An entry with the next number. *)
Lemma append_next L C lc j r req :
  replica_ok L C lc j r → requests (log r) ++ [req] `prefix_of` L → Z.of_nat (length L) + 1 < 2 ^ 64 →
  ∃ l', Append (MkViewstamp 0 (lastOp r + 1)) req LOG_STATE_PREPARED (log r) = Ok l' ∧
    requests l' = requests (log r) ++ [req] ∧ replica_ok L C lc j (r <| lastOp := lastOp r + 1 |> <| log := l' |>).
Proof.
  intros Hr Hp HL. pose proof Hr as []. assert (lastOp r + 1 ≤ Z.of_nat (length L)) as Hlen.
  { apply prefix_length in Hp. rewrite length_app, length_requests in Hp. simpl in Hp. lia. }
  destruct (Append_dense (MkViewstamp 0 (lastOp r + 1)) req LOG_STATE_PREPARED (log r) ro_dense0) as (e & Happ & Hvs & Hreq & _ & Hd);
    [simpl; lia|simpl; lia|].
  eexists. split; [exact Happ|]. set (l' := log r <| entries ::= _ |>) in *.
  assert (contents l' = contents (log r) ++ [content e]) as Hc by (unfold contents, l'; simpl; by rewrite fmap_app).
  assert (requests l' = requests (log r) ++ [req]) as Hq by (unfold requests; rewrite Hc, fmap_app; simpl; by rewrite Hreq).
  split; [done|]. split; simpl; try done; try lia.
  - rewrite Hc. intros c [Hin|Hin%list_elem_of_singleton]%elem_of_app; [by apply ro_views0|]. subst c. simpl. by rewrite Hvs.
  - rewrite length_app. simpl. lia.
  - rewrite Hq. exact Hp.
  - change (entries (log r) ++ [e]) with (entries l'). rewrite Hc, take_app_le; [done|]. rewrite length_contents. lia.
  - intros x ok Hx. eapply vr_sent_mono; [..|by eapply ro_sends0]; simpl; done || lia.
Qed.

(** ** The other replicas *)

Definition progress L C lc j r r' : Prop :=
  replica_ok L C lc j r' ∧ lastOp r ≤ lastOp r' ∧ lastCommitted r ≤ lastCommitted r'.

Lemma progress_trans L C lc j r1 r2 r3 :
  progress L C lc j r1 r2 → progress L C lc j r2 r3 → progress L C lc j r1 r3.
Proof. intros (_ & ? & ?) (? & ? & ?). split_and!; [done|lia|lia]. Qed.

Lemma progress_refl L C lc j r : replica_ok L C lc j r → progress L C lc j r r.
Proof. intros. split_and!; [done|lia|lia]. Qed.

Lemma prefix_snoc_lookup (l L : list Request) x : l `prefix_of` L → L !! length l = Some x → l ++ [x] `prefix_of` L.
Proof. intros [k ->] Hx. rewrite lookup_app_r, Nat.sub_diag in Hx by done. destruct k as [|y k]; [done|]. simplify_eq/=. by exists k; rewrite <- (assoc_L (++)). Qed.

Lemma set_view_timer L C lc j r b : replica_ok L C lc j r → replica_ok L C lc j (r <| viewChangeTimeout := b |>).
Proof. intros []. by split. Qed.

Lemma set_pending L C lc j r f : replica_ok L C lc j r → replica_ok L C lc j (r <| pendingPrepares ::= f |>).
Proof. intros []. by split. Qed.

Lemma UpdateClientTable_ok L C lc j r req :
  replica_ok L C lc j r →
  wp (UpdateClientTable req) (λ _ r', replica_ok L C lc j r' ∧ keeps r r' ∧ lastCommitted r' = lastCommitted r ∧
    sends r' = sends r) r.
Proof.
  intros Hr. unfold UpdateClientTable. apply post_get. unfold post, modify. split_and!; [|by split|done..].
  set (entry := default ClientTableEntry_default (clientTable r !! req_clientid req)).
  destruct Hr. assert (replied entry = true → is_Some (reply entry)) as Hentry.
  { unfold entry. destruct (clientTable r !! req_clientid req) as [y|] eqn:Hy; [by eapply ro_replies0|done]. }
  split; try done. simpl. intros c e [[<- <-]|[_ He]]%lookup_insert_Some Hrep; [|by eapply ro_replies0].
  by destruct (lastReqId entry =? req_clientreqid req); [apply Hentry|].
Qed.

Lemma send_prepare_ok_ok L C lc j r op :
  replica_ok L C lc j r → j ≠ 0 → op ≤ lastOp r →
  wp (send_prepare_ok 0 op) (λ _ r', replica_ok L C lc j r' ∧ keeps r r' ∧ lastCommitted r' = lastCommitted r) r.
Proof.
  intros Hr Hj Hop. unfold send_prepare_ok. apply post_get. rewrite (ro_view _ _ _ _ _ Hr). run_with (LeaderOf_run _ _ _ _ _ Hr).
  unfold transport_send, post, modify. split_and!; [|by split|done]. apply send_ok_replica; [done|].
  simpl. split_and!; [done|done|done|by destruct Hr|done].
Qed.

Lemma RequestStateTransfer_ok L C lc j r :
  replica_ok L C lc j r → j ≠ 0 → wp RequestStateTransfer (λ _ r', progress L C lc j r r') r.
Proof.
  intros Hr Hj. unfold RequestStateTransfer. apply post_get. destruct (_ && _); [by apply progress_refl|].
  run. unfold transport_send, post, modify. split_and!; [|simpl; lia..]. apply (send_ok_replica L C lc j (_ <| lastRequestStateTransferOpnum := _ |>)).
  - destruct Hr. by split.
  - simpl. destruct Hr. split_and!; [done|done|lia|lia].
Qed.

Lemma append_batch_ok L C lc j reqs : Z.of_nat (length L) + 1 < 2 ^ 64 → ∀ op r,
  replica_ok L C lc j r → 0 ≤ op ≤ lastOp r → (∀ i q, reqs !! i = Some q → L !! (Z.to_nat op + i)%nat = Some q) →
  wp (append_batch 0 op reqs)
    (λ _ r', progress L C lc j r r' ∧ lastOp r' = Z.max (lastOp r) (op + Z.of_nat (length reqs))) r.
Proof.
  intros HL. induction reqs as [|req reqs IH]; intros op r Hr Hop Hreqs; cbn [append_batch].
  - unfold post, mret, M_ret. split; [by apply progress_refl|simpl; lia].
  - assert (L !! Z.to_nat op = Some req) as Hreq by (rewrite <- (Hreqs 0%nat req eq_refl); f_equal; lia).
    apply lookup_lt_Some in Hreq as Hlt. rewrite u64_incr_small by lia. apply post_get.
    assert (∀ r1, replica_ok L C lc j r1 → op + 1 ≤ lastOp r1 → wp (append_batch 0 (op + 1) reqs)
      (λ _ r', progress L C lc j r1 r' ∧ lastOp r' = Z.max (lastOp r1) (op + 1 + Z.of_nat (length reqs))) r1) as Hnext.
    { intros r1 Hr1 Hle. apply IH; [done|lia|]. intros i q Hq. rewrite <- (Hreqs (Datatypes.S i) q Hq). f_equal. lia. }
    destruct (Z.leb_spec (op + 1) (lastOp r)) as [Hle|Hgt].
    + eapply post_mono; [by apply Hnext|]. intros u r' [Hp Hl]. split; [done|]. simpl. lia.
    + assert (op = lastOp r) as -> by lia. pose proof (ro_lastOp _ _ _ _ _ Hr) as Hlo.
      destruct (append_next L C lc j r req Hr) as (l' & Happ & Hq & Hr1); [|done|].
      { apply prefix_snoc_lookup; [by destruct Hr|]. rewrite length_requests. rewrite <- Hreq. f_equal. lia. }
      eapply post_bind_run; [reflexivity|]. eapply post_bind_run.
      { unfold change_log, on_log. simpl. rewrite Happ. reflexivity. }
      simpl. rewrite u64_incr_small by lia.
      match goal with |- post _ _ _ ?x => change x with (r <| lastOp := lastOp r + 1 |> <| log := l' |>) end.
      set (r1 := r <| lastOp := _ |> <| log := _ |>) in *. apply post_bind. eapply post_mono; [by apply UpdateClientTable_ok|].
      intros u r2 (Hr2 & [Hk2 _ _] & Hl2 & _). eapply post_mono; [apply (Hnext r2 Hr2); rewrite Hk2; simpl; lia|].
      intros u' r3 [(Hr3 & ? & ?) Hl3]. rewrite Hk2 in *. simpl in *. split; [split_and!; [done|lia|lia]|lia].
Qed.

Lemma HandlePrepare_ok L C lc j r remote p :
  Z.of_nat (length L) + 1 < 2 ^ 64 → replica_ok L C lc j r → j ≠ 0 → prepare_ok L p →
  wp (HandlePrepare remote p) (λ _ r', progress L C lc j r r') r.
Proof.
  intros HL Hr Hj (Hv & Hb & Ho & Hq). unfold HandlePrepare. apply post_get.
  rewrite (ro_status _ _ _ _ _ Hr), (ro_view _ _ _ _ _ Hr), Hv. simpl. run_with (AmLeader_run _ _ _ _ _ Hr).
  rewrite (proj2 (Z.eqb_neq _ _)) by done. run. set (r1 := r <| viewChangeTimeout := true |>).
  assert (replica_ok L C lc j r1) as Hr1 by (by apply set_view_timer). pose proof (ro_lastOp _ _ _ _ _ Hr) as Hlo.
  pose proof (dn_bound _ (ro_dense _ _ _ _ _ Hr)) as Hbound. pose proof (ro_start _ _ _ _ _ Hr) as Hst.
  destruct (Z.leb_spec (pr_opnum p) (lastOp r)) as [Hle|Hgt].
  { eapply post_mono; [by apply send_prepare_ok_ok|]. intros u r2 (Hr2 & [Hk _ _] & Hl). split_and!; [done|rewrite Hk; simpl; lia|simpl in *; lia]. }
  rewrite Z.gtb_ltb, u64_incr_small by lia. destruct (Z.ltb_spec (lastOp r + 1) (pr_batchstart p)) as [Hlt|Hge].
  - apply post_bind. eapply post_mono; [by apply RequestStateTransfer_ok|]. intros u r2 (Hr2 & ? & ?).
    unfold post, modify. split_and!; [exact (set_pending L C lc j r2 (λ l, l ++ [(remote, p)]) Hr2)|done|done].
  - unfold u64_decr. rewrite u64_small by (unfold is_u64, u64_modulus; lia). apply post_bind. eapply post_mono.
    { apply (append_batch_ok L C lc j (pr_request p) HL (pr_batchstart p - 1) r1 Hr1); [simpl; lia|].
      intros i q Hi. rewrite Hq in Hi. apply lookup_take_Some in Hi as [Hi _]. by rewrite lookup_drop in Hi. }
    intros u r2 [Hp2 Hl2]. assert (length (pr_request p) = Z.to_nat (pr_opnum p - pr_batchstart p + 1)) as Hlen.
    { rewrite Hq, length_take, length_drop. lia. }
    eapply post_mono; [apply (send_prepare_ok_ok L C lc j r2); [apply Hp2|done|simpl in Hl2; lia]|].
    intros u' r3 (Hr3 & [Hk3 _ _] & Hl3). destruct Hp2 as (_ & Ha & Hc). split_and!; [done|rewrite Hk3; exact Ha|rewrite Hl3; exact Hc].
Qed.

Lemma HandleCommit_ok L C lc j r remote m :
  replica_ok L C lc j r → j ≠ 0 → cm_view m = 0 → cm_opnum m ≤ C →
  wp (HandleCommit remote m) (λ _ r', progress L C lc j r r') r.
Proof.
  intros Hr Hj Hv Ho. unfold HandleCommit. apply post_get.
  rewrite (ro_status _ _ _ _ _ Hr), (ro_view _ _ _ _ _ Hr), Hv. simpl. run_with (AmLeader_run _ _ _ _ _ Hr).
  rewrite (proj2 (Z.eqb_neq _ _)) by done. run. set (r1 := r <| viewChangeTimeout := true |>).
  assert (replica_ok L C lc j r1) as Hr1 by (by apply set_view_timer).
  destruct (Z.leb_spec (cm_opnum m) (lastCommitted r)); [by apply (progress_refl L C lc j r1)|].
  rewrite Z.gtb_ltb. destruct (Z.ltb_spec (lastOp r) (cm_opnum m)); [by apply (RequestStateTransfer_ok L C lc j r1)|].
  eapply post_mono; [by apply (CommitUpTo_ok L C lc j r1)|]. intros u r2 (Hr2 & [Hk _ _] & _ & Hl).
  split_and!; [done|rewrite Hk; simpl; lia|rewrite Hl; simpl; lia].
Qed.

Lemma entries_view L C lc j r i e : replica_ok L C lc j r → entries (log r) !! i = Some e → QuorumSet.view (viewstamp e) = 0.
Proof.
  intros [] He. apply (ro_views0 (content e)). unfold contents. apply list_elem_of_fmap. exists e. split; [done|].
  by eapply list_elem_of_lookup_2.
Qed.

(** The entries of a state transfer that are new are appended; none of the old ones is replaced. *)
Lemma install_entries_ok L C lc j o es : Z.of_nat (length L) + 1 < 2 ^ 64 → ∀ k r,
  replica_ok L C lc j r → 0 ≤ k ≤ lastOp r →
  (∀ i e, es !! i = Some e → lp_view e = 0 ∧ lp_opnum e = k + 1 + Z.of_nat i ∧ L !! (Z.to_nat k + i)%nat = Some (lp_request e)) →
  wp (install_entries o es)
    (λ o' r', o' = o ∧ progress L C lc j r r' ∧ lastOp r' = Z.max (lastOp r) (k + Z.of_nat (length es)) ∧
       lastCommitted r' = lastCommitted r) r.
Proof.
  intros HL. induction es as [|e es IH]; intros k r Hr Hk Hes; cbn [install_entries].
  - unfold post, mret, M_ret. split_and!; [done|by apply progress_refl|simpl; lia|done].
  - destruct (Hes 0%nat e eq_refl) as (Hv & Hop & Hreq). replace (k + 1 + Z.of_nat 0) with (k + 1) in Hop by lia.
    rewrite Nat.add_0_r in Hreq. apply lookup_lt_Some in Hreq as Hlt.
    assert (∀ r1, replica_ok L C lc j r1 → k + 1 ≤ lastOp r1 → wp (install_entries o es)
      (λ o' r', o' = o ∧ progress L C lc j r1 r' ∧ lastOp r' = Z.max (lastOp r1) (k + 1 + Z.of_nat (length es)) ∧
         lastCommitted r' = lastCommitted r1) r1) as Hnext.
    { intros r1 Hr1 Hle. apply IH; [done|lia|]. intros i x Hx. destruct (Hes (Datatypes.S i) x Hx) as (? & ? & ?).
      split_and!; [done|lia|]. by replace (Z.to_nat (k + 1) + i)%nat with (Z.to_nat k + Datatypes.S i)%nat by lia. }
    assert (k + 1 ≤ lastOp r → wp (install_entries o es)
      (λ o' r', o' = o ∧ progress L C lc j r r' ∧ lastOp r' = Z.max (lastOp r) (k + Z.of_nat (length (e :: es))) ∧
         lastCommitted r' = lastCommitted r) r) as Hskip.
    { intros Hle. eapply post_mono; [by apply Hnext|]. intros o' r' (-> & Hp & Hl & Hc). split_and!; [done..|simpl; lia|done]. }
    pose proof (ro_lastCommitted _ _ _ _ _ Hr) as Hlc. pose proof (ro_lastOp _ _ _ _ _ Hr) as Hlo. pose proof (ro_start _ _ _ _ _ Hr) as Hst.
    apply post_get. rewrite Hop, Hv. destruct (Z.leb_spec (k + 1) (lastCommitted r)) as [Hle|Hgt]; [apply Hskip; lia|].
    destruct (Z.leb_spec (k + 1) (lastOp r)) as [Hle|Hgt'].
    + destruct (lookup_lt_is_Some_2 (entries (log r)) (Z.to_nat k)) as [x Hx]; [lia|].
      assert (Find (k + 1) (log r) = Some x) as ->.
      { apply Find_Some. split; [lia|]. rewrite <- Hx. f_equal. lia. }
      run. rewrite (entries_view _ _ _ _ _ _ _ Hr Hx). apply Hskip. lia.
    + assert (k = lastOp r) as -> by lia.
      destruct (append_next L C lc j r (lp_request e) Hr) as (l' & Happ & Hq & Hr1); [|done|].
      { apply prefix_snoc_lookup; [by destruct Hr|]. rewrite length_requests. rewrite <- Hreq. f_equal. lia. }
      eapply post_bind_run; [reflexivity|]. eapply post_bind_run.
      { unfold change_log, on_log. simpl. rewrite Happ. reflexivity. }
      simpl. rewrite u64_incr_small by lia.
      match goal with |- post _ _ _ ?x => change x with (r <| lastOp := lastOp r + 1 |> <| log := l' |>) end.
      set (r1 := r <| lastOp := _ |> <| log := _ |>) in *. eapply post_mono; [apply (Hnext r1 Hr1); simpl; lia|].
      intros o' r3 (-> & (Hr3 & ? & ?) & Hl3 & Hc3). simpl in *. split_and!; [done|split_and!; [done|lia|lia]|lia|lia].
Qed.

Lemma SendPrepareOKs_ok L C lc j r o :
  replica_ok L C lc j r → j ≠ 0 →
  wp (SendPrepareOKs o) (λ _ r', replica_ok L C lc j r' ∧ keeps r r' ∧ lastCommitted r' = lastCommitted r) r.
Proof.
  intros Hr Hj. unfold SendPrepareOKs. apply post_get.
  apply (post_for_each _ _ _ (λ r', replica_ok L C lc j r' ∧ keeps r r' ∧ lastCommitted r' = lastCommitted r)); [by split_and!|].
  intros i r1 Hi%elem_of_seqZ (Hr1 & Hk1 & Hl1). apply post_get. destruct (Z.leb_spec i (lastCommitted r1)) as [Hle|Hgt]; [by split_and!|].
  pose proof (ro_lastCommitted _ _ _ _ _ Hr1) as Hlc. pose proof (ro_lastOp _ _ _ _ _ Hr1) as Hlo. pose proof (kp_lastOp _ _ Hk1) as Hko.
  destruct (lookup_lt_is_Some_2 (entries (log r1)) (Z.to_nat (i - 1))) as [e He]; [lia|].
  assert (Find i (log r1) = Some e) as ->.
  { apply Find_Some. rewrite (ro_start _ _ _ _ _ Hr1). split; [lia|done]. }
  apply post_bind. eapply post_mono; [by apply UpdateClientTable_ok|]. intros u r2 (Hr2 & Hk2 & Hl2 & _).
  rewrite (ro_view _ _ _ _ _ Hr1). eapply post_mono; [apply (send_prepare_ok_ok L C lc j r2 i Hr2 Hj); pose proof (kp_lastOp _ _ Hk2); lia|].
  intros u' r3 (Hr3 & Hk3 & Hl3). split_and!; [done|etrans; [exact Hk1|by etrans]|congruence].
Qed.

Lemma HandleStateTransfer_ok L C lc j r remote k m :
  Z.of_nat (length L) + 1 < 2 ^ 64 → replica_ok L C lc j r → j ≠ 0 → transfer_ok L C k m → k ≤ lastCommitted r →
  wp (HandleStateTransfer remote m) (λ _ r', progress L C lc j r r') r.
Proof.
  intros HL Hr Hj (Hv & Hk & HC & Hn' & Hes) Hkc. unfold HandleStateTransfer. apply post_get.
  rewrite (ro_view _ _ _ _ _ Hr), Hv. simpl. pose proof (ro_lastCommitted _ _ _ _ _ Hr) as Hlc. apply post_bind.
  eapply post_mono; [apply (install_entries_ok L C lc j (lastOp r) (st_entries m) HL k r Hr); [lia|exact Hes]|].
  intros o r1 (-> & (Hr1 & Ha1 & _) & Hl1 & Hc1). run. apply post_bind.
  eapply post_mono; [apply (CommitUpTo_ok L C lc j r1 _ Hr1); lia|]. intros u r2 (Hr2 & Hk2 & _ & Hl2).
  apply post_bind. eapply post_mono; [by apply (SendPrepareOKs_ok L C lc j r2)|]. intros u' r3 (Hr3 & Hk3 & Hl3).
  run. apply post_get. simpl. unfold post, mret, M_ret. pose proof (kp_lastOp _ _ Hk2). pose proof (kp_lastOp _ _ Hk3).
  split_and!; [exact (set_pending L C lc j r3 (λ _, []) Hr3)|simpl; lia|simpl; lia].
Qed.

Lemma HandleRequestStateTransfer_ok L C lc j r i m :
  replica_ok L C lc j r → i ≠ 0 → rst_view m = 0 → 0 ≤ rst_opnum m ≤ lc i → lc i + 1 < 2 ^ 64 →
  wp (HandleRequestStateTransfer (AtReplica i) m)
    (λ _ r', replica_ok L C lc j r' ∧ keeps r r' ∧ table_le r r' ∧ lastCommitted r' = lastCommitted r) r.
Proof.
  intros Hr Hi Hv Hop Hlci. unfold HandleRequestStateTransfer. apply post_get.
  rewrite (ro_status _ _ _ _ _ Hr), (ro_view _ _ _ _ _ Hr), Hv. simpl. rewrite u64_incr_small by lia.
  rewrite (Dump_dense _ _ (ro_dense _ _ _ _ _ Hr)), (ro_start _ _ _ _ _ Hr). run. unfold transport_send, post, modify.
  split_and!; [|by split|by intros c e He; exists e|done]. apply send_ok_replica; [done|]. simpl. split; [done|]. exists (rst_opnum m). split; [lia|].
  replace (rst_opnum m + 1 - 1) with (rst_opnum m) by lia. pose proof Hr as []. split_and!; simpl; [done|lia|done| |].
  - rewrite length_fmap, length_drop. lia.
  - intros x e Hx. rewrite list_lookup_fmap, lookup_drop in Hx. destruct (entries (log r) !! (Z.to_nat (rst_opnum m) + x)%nat) as [y|] eqn:Hy; [|done].
    simplify_eq/=. split_and!; [by eapply entries_view|rewrite (dn_opnum _ ro_dense0 _ _ Hy); lia|].
    eapply prefix_lookup_Some; [|exact ro_prefix0]. unfold requests, contents. by rewrite !list_lookup_fmap, Hy.
Qed.

(** ** The leader *)

Context (Hleader : ∀ k op (s : S), ∃ x, LeaderUpcall k op s = Ok x).
Context (Hunlogged : ∀ op (s : S), ∃ x, UnloggedUpcall op s = Ok x).
Implicit Types lo : Z → Z.

Definition request_id (q : Request) : Z * Z := (req_clientid q, req_clientreqid q).

(** [lo i] is the last number in the log of replica [i]. *)
Record leader_ok lo r : Prop := {
  ld_table : ∀ q, q ∈ requests (log r) → ∃ e, clientTable r !! req_clientid q = Some e ∧ req_clientreqid q ≤ lastReqId e;
  ld_nodup : NoDup (request_id <$> requests (log r));
  ld_required : numRequired (prepareOKQuorum r) = f config;
  ld_quorum : ∀ op ms i, messages (prepareOKQuorum r) !! (0, op) = Some ms → i ∈ dom ms → 1 ≤ i < n config ∧ op ≤ lo i;
  ld_durable : ∃ Q : gset Z, f config + 1 ≤ Z.of_nat (size Q) ∧
    ∀ i, i ∈ Q → 0 ≤ i < n config ∧ lastCommitted r ≤ (if decide (i = 0) then lastOp r else lo i)
}.

(** The leader's own log and commits are those the others are compared with. *)
Definition leads lo lc r : Prop := replica_ok (requests (log r)) (lastCommitted r) lc 0 r ∧ leader_ok lo r.

Lemma leader_ok_keeps lo r r' :
  leader_ok lo r → keeps r r' → table_le r r' → lastCommitted r' = lastCommitted r → leader_ok lo r'.
Proof.
  intros [] [Ho Hc Hq] Ht Hl. unfold requests in *. split; unfold requests; rewrite ?Hc, ?Hq; try done.
  - intros q Hin. destruct (ld_table0 q Hin) as (e & He & ?). destruct (Ht _ e He) as (e' & He' & ?). exists e'. split; [done|lia].
  - destruct ld_durable0 as (Q & HQ & Hin). exists Q. split; [done|]. intros i Hi. rewrite Hl, Ho. by apply Hin.
Qed.

Lemma leads_keeps lo lc r r' :
  leads lo lc r → replica_ok (requests (log r)) (lastCommitted r) lc 0 r' → keeps r r' → table_le r r' →
  lastCommitted r' = lastCommitted r → leads lo lc r'.
Proof.
  intros [Hr Hl] Hr' Hk Ht Hc. split; [|by eapply leader_ok_keeps]. destruct Hk. unfold requests in *. by rewrite kp_contents0, Hc.
Qed.

Lemma leader_ok_mono lo lo' r : (∀ i, lo i ≤ lo' i) → leader_ok lo r → leader_ok lo' r.
Proof.
  intros Hlo []. split; try done.
  - intros op ms i Hm Hi. destruct (ld_quorum0 op ms i Hm Hi). specialize (Hlo i). split; [done|lia].
  - destruct ld_durable0 as (Q & HQ & Hin). exists Q. split; [done|]. intros i Hi. destruct (Hin i Hi). split; [done|].
    case_decide; [done|]. specialize (Hlo i). lia.
Qed.

Lemma leads_send lo lc r x b :
  leads lo lc r → sent_ok (requests (log r)) (lastCommitted r) lc 0 r x → leads lo lc (r <| sends ::= (λ l, l ++ [(x, b l)]) |>).
Proof. intros [Hr Hl] Hx. split; [by apply send_ok_replica|]. by destruct Hl; split. Qed.

Lemma leads_null_timer lo lc r : leads lo lc r → leads lo lc (r <| nullCommitTimeout := true |>).
Proof. intros [[] []]. by split; split. Qed.

(** A quorum of acknowledgements, the leader's own log included, has the operation. *)
Lemma HandlePrepareOK_ok lo lc r remote m :
  leads lo lc r → (∀ i, lo i ≤ lastOp r) → ok_view m = 0 → 1 ≤ ok_replicaIdx m < n config → ok_opnum m ≤ lo (ok_replicaIdx m) →
  wp (HandlePrepareOK remote m)
    (λ _ r', leads lo lc r' ∧ requests (log r') = requests (log r) ∧ lastCommitted r ≤ lastCommitted r' ∧ lastOp r' = lastOp r) r.
Proof.
  intros [Hr Hl] Hlo Hv Hi Hop. unfold HandlePrepareOK. apply post_get.
  rewrite (ro_status _ _ _ _ _ Hr), (ro_view _ _ _ _ _ Hr), Hv. simpl. run_with (AmLeader_run _ _ _ _ _ Hr). simpl.
  unfold AddAndCheckForQuorum, CheckForQuorum_at. simpl. rewrite lookup_insert_eq. simpl. rewrite insert_insert_eq.
  set (old := default ∅ _). set (ms := <[ok_replicaIdx m := m]> old). set (q := MkQuorumSet _ _). cbv zeta.
  eapply post_bind_run; [reflexivity|]. set (r1 := r <| prepareOKQuorum := q |>). pose proof Hl as [].
  assert (∀ i, i ∈ dom ms → 1 ≤ i < n config ∧ ok_opnum m ≤ lo i) as Hms.
  { intros i. unfold ms. rewrite dom_insert_L, elem_of_union, elem_of_singleton. intros [->|Hin]; [done|]. unfold old in Hin.
    destruct (messages (prepareOKQuorum r) !! (0, ok_opnum m)) as [x|] eqn:Hx; [by apply (ld_quorum0 _ x)|simpl in Hin; set_solver]. }
  assert (replica_ok (requests (log r)) (lastCommitted r) lc 0 r1) as Hr1 by (destruct Hr; by split).
  assert (leader_ok lo r1) as Hl1.
  { split; simpl; try done. intros op x i [[[= <-] <-]|[_ Hx]]%lookup_insert_Some; [apply Hms|by apply ld_quorum0]. }
  rewrite Z.geb_leb. destruct (Z.leb_spec (numRequired (prepareOKQuorum r)) (Z.of_nat (size ms))) as [Hq|Hq]; [|by split_and!].
  set (C' := Z.max (lastCommitted r) (ok_opnum m)).
  assert (replica_ok (requests (log r)) C' lc 0 r1) as Hr1' by (eapply replica_ok_mono; [..|exact Hr1]; done || lia).
  specialize (Hlo (ok_replicaIdx m)) as Hlo'. apply post_bind.
  eapply post_mono; [apply (CommitUpTo_ok _ C' lc 0 r1 (ok_opnum m) Hr1'); [simpl; lia|lia]|].
  intros u r2 (Hr2 & Hk2 & Ht2 & Hc2). simpl in Hc2. fold C' in Hc2.
  assert (requests (log r2) = requests (log r)) as Hreq by (unfold requests; by rewrite (kp_contents _ _ Hk2)).
  assert (leads lo lc r2) as Hlead.
  { split; [by rewrite Hreq, Hc2|]. destruct Hk2 as [Ho2 _ Hq2]. simpl in *. split.
    - intros x Hin. rewrite Hreq in Hin. destruct (ld_table0 x Hin) as (e & He & ?). destruct (Ht2 _ e He) as (e' & He' & ?).
      exists e'. split; [done|lia].
    - by rewrite Hreq.
    - by rewrite Hq2.
    - rewrite Hq2. apply Hl1.
    - destruct (decide (ok_opnum m ≤ lastCommitted r)) as [Hle|Hgt].
      { destruct ld_durable0 as (Q & HQ & Hin). exists Q. split; [done|]. intros i Hi'. rewrite Ho2, Hc2.
        replace C' with (lastCommitted r) by lia. by apply Hin. }
      exists ({[0]} ∪ dom ms). split.
      + rewrite size_union, size_singleton, size_dom; [lia|]. apply disjoint_singleton_l. intros Hz%Hms. lia.
      + intros i. rewrite elem_of_union, elem_of_singleton. intros [->|Hin%Hms].
        * rewrite decide_True by done. split; [lia|]. rewrite Hc2, Ho2. pose proof (ro_lastCommitted _ _ _ _ _ Hr). lia.
        * rewrite decide_False by lia. rewrite Hc2. split; [lia|]. lia. }
  apply post_get. rewrite Z.geb_leb. destruct (QuorumSize _ <=? _).
  { unfold post, mret, M_ret. split_and!; [done|done|rewrite Hc2; lia|by destruct Hk2]. }
  run. unfold post, modify. split_and!; [|done|simpl; lia|by destruct Hk2].
  apply leads_null_timer, leads_send; [done|]. simpl. split_and!; [done|by destruct Hlead as [[] _]|lia].
Qed.

Lemma batch_dense l : ∀ (m : nat) k, (k + m ≤ length (entries l))%nat →
  batch (seqZ (start l + Z.of_nat k) (Z.of_nat m)) l = Ok (take m (drop k (requests l))).
Proof.
  induction m as [|m IH]; intros k Hk; [done|]. destruct (lookup_lt_is_Some_2 (entries l) k) as [e He]; [lia|].
  rewrite seqZ_cons by lia. cbn [batch]. rewrite Find_lookup, (proj2 (Z.ltb_ge _ _)) by lia.
  replace (Z.to_nat (start l + Z.of_nat k - start l)) with k by lia. rewrite He.
  replace (Z.succ (start l + Z.of_nat k)) with (start l + Z.of_nat (Datatypes.S k)) by lia.
  replace (Z.pred (Z.of_nat (Datatypes.S m))) with (Z.of_nat m) by lia. rewrite IH by lia. simpl.
  assert (requests l !! k = Some (request e)) as Hq by (unfold requests, contents; by rewrite !list_lookup_fmap, He).
  by rewrite (drop_S _ _ _ Hq).
Qed.

Lemma CloseBatch_ok lo lc r :
  leads lo lc r → wp CloseBatch (λ _ r', leads lo lc r' ∧ log r' = log r ∧ lastCommitted r' = lastCommitted r ∧ lastOp r' = lastOp r) r.
Proof.
  intros Hlead. pose proof Hlead as [Hr Hl]. pose proof Hr as []. pose proof (dn_bound _ ro_dense0) as Hb. unfold CloseBatch. apply post_get.
  rewrite u64_incr_small by lia.
  assert (batch (seqZ (lastBatchEnd r + 1) (lastOp r - (lastBatchEnd r + 1) + 1)) (log r) =
    Ok (take (Z.to_nat (lastOp r - lastBatchEnd r)) (drop (Z.to_nat (lastBatchEnd r)) (requests (log r))))) as Hbatch.
  { rewrite <- batch_dense by lia. f_equal. rewrite ro_start0. f_equal; lia. }
  rewrite Hbatch. run. set (p := MkPrepare _ _ _ _). run. run. unfold post, modify.
  assert (prepare_ok (requests (log r)) p) as Hp.
  { unfold p. split_and!; simpl; [done|lia|lia|rewrite length_requests; lia|]. do 2 f_equal; lia. }
  split_and!; [|done..]. set (r1 := r <| lastPrepare := Some p |> <| lastBatchEnd := lastOp r |> <| resendPrepareTimeout := true |>
    <| closeBatchTimeout := false |>).
  assert (leads lo lc r1) as Hlead1.
  { split; [|by destruct Hl; split]. split; simpl; try done; try lia. by intros ? [= <-]. }
  exact (leads_send lo lc r1 (ToAll (PrepareMsg p)) (λ l, send_ok (length l)) Hlead1 (conj eq_refl Hp)).
Qed.

(** The request of a client that is new gets an entry of the client table with its number. *)
Lemma UpdateClientTable_fresh lo lc r req :
  leads lo lc r → (∀ e, clientTable r !! req_clientid req = Some e → lastReqId e < req_clientreqid req) →
  wp (UpdateClientTable req) (λ _ r', leads lo lc r' ∧ keeps r r' ∧ table_le r r' ∧ lastCommitted r' = lastCommitted r ∧
    ∃ e, clientTable r' !! req_clientid req = Some e ∧ lastReqId e = req_clientreqid req) r.
Proof.
  intros Hlead Hfresh. pose proof (UpdateClientTable_ok _ _ _ _ _ req (proj1 Hlead)) as Hw.
  unfold UpdateClientTable in *. unfold post, mbind, M_bind, get_st, modify in *. destruct Hw as (Hr' & Hk & Hl & _).
  set (entry := default _ _) in *. set (entry' := if lastReqId entry =? _ then _ else _) in *.
  assert (lastReqId entry' = req_clientreqid req) as He.
  { unfold entry'. by destruct (Z.eqb_spec (lastReqId entry) (req_clientreqid req)). }
  assert (table_le r (r <| clientTable ::= <[req_clientid req := entry']> |>)) as Ht.
  { intros c e Hc. simpl. rewrite lookup_insert. case_decide as Ec; [|by exists e]. exists entry'. split; [done|].
    rewrite <- Ec in Hc. specialize (Hfresh e Hc). lia. }
  split_and!; [by eapply leads_keeps|done..|]. simpl. exists entry'. by rewrite lookup_insert_eq.
Qed.

(** The leader numbers a new request. *)
Lemma append_request lo lc r req :
  leads lo lc r → lastOp r + 2 < 2 ^ 64 → (∀ q, q ∈ requests (log r) → request_id q ≠ request_id req) →
  (∃ e, clientTable r !! req_clientid req = Some e ∧ req_clientreqid req ≤ lastReqId e) →
  ∃ l', Append (MkViewstamp 0 (lastOp r + 1)) req LOG_STATE_PREPARED (log r) = Ok l' ∧
    requests l' = requests (log r) ++ [req] ∧ leads lo lc (r <| lastOp := lastOp r + 1 |> <| log := l' |>).
Proof.
  intros [Hr Hl] Hb Hnew Htable. set (L' := requests (log r) ++ [req]).
  assert (replica_ok L' (lastCommitted r) lc 0 r) as Hr' by (eapply replica_ok_mono; [by eexists|done|done|exact Hr]).
  destruct (append_next L' (lastCommitted r) lc 0 r req Hr') as (l' & Happ & Hq & Hr2); [done| |].
  { unfold L'. rewrite length_app, length_requests, Nat2Z.inj_add. pose proof (ro_lastOp _ _ _ _ _ Hr). simpl. lia. }
  exists l'. split_and!; [done..|]. destruct Hl. split; simpl; [by rewrite Hq|]. split; simpl; try done.
  - rewrite Hq. intros q [Hin|Hin%list_elem_of_singleton]%elem_of_app; [by apply ld_table0|by subst].
  - rewrite Hq, fmap_app. apply NoDup_app. split_and!; [done| |by apply NoDup_singleton].
    intros x (q & -> & Hin)%list_elem_of_fmap Hx%list_elem_of_singleton. by apply (Hnew q).
  - destruct ld_durable0 as (Q & HQ & Hin). exists Q. split; [done|]. intros i Hi. destruct (Hin i Hi). split; [done|].
    case_decide; lia.
Qed.

Definition leader_progress lo lc r r' : Prop :=
  leads lo lc r' ∧ requests (log r) `prefix_of` requests (log r') ∧ lastCommitted r ≤ lastCommitted r'.

Lemma leader_progress_keeps lo lc r r' :
  leads lo lc r' → keeps r r' → lastCommitted r ≤ lastCommitted r' → leader_progress lo lc r r'.
Proof. intros Hl [_ Hc _] Hle. split_and!; [done|unfold requests; by rewrite Hc|done]. Qed.

Lemma leads_on_app lo lc r s : leads lo lc r → leads lo lc (r <| app := s |>).
Proof. intros [[] []]. by split; split. Qed.

Lemma leads_address lo lc r c i : leads lo lc r → leads lo lc (r <| clientAddresses ::= <[c := AtClient i]> |>).
Proof.
  intros [[] []]. split; split; try done. simpl. intros c' a [[_ <-]|[_ Ha]]%lookup_insert_Some; [by eexists|by eapply ro_addresses0].
Qed.

Lemma leads_close_timer lo lc r : leads lo lc r → leads lo lc (r <| closeBatchTimeout := true |>).
Proof. intros [[] []]. by split; split. Qed.

(** The answer to a request that is not replicated. *)
Lemma leads_reply lo lc r c rep :
  leads lo lc r →
  let t := (λ t : gmap Z ClientTableEntry, let cte := default ClientTableEntry_default (t !! c) in
    <[c := cte <| replied := true |> <| reply := Some rep |>]> t) in
  leads lo lc (r <| clientTable ::= t |>).
Proof.
  intros [Hr Hl] t. split; [|destruct Hl; split; try done].
  - destruct Hr. split; try done. simpl. unfold t. intros c' e [[_ <-]|[_ He]]%lookup_insert_Some; [by eexists|by eapply ro_replies0].
  - simpl. intros q Hq. destruct (ld_table0 q Hq) as (e & He & Hle). unfold t. rewrite lookup_insert. case_decide as Ec; [|by exists e].
    eexists. split; [done|]. by rewrite Ec, He.
Qed.

Lemma HandleRequest_leader lo lc r c req :
  leads lo lc r → lastOp r + 2 < 2 ^ 64 → wp (HandleRequest (AtClient c) req) (λ _ r', leader_progress lo lc r r') r.
Proof.
  intros Hlead Hb. pose proof Hlead as [Hr Hl]. unfold HandleRequest. apply post_get. rewrite (ro_status _ _ _ _ _ Hr).
  simpl. run_with (AmLeader_run _ _ _ _ _ Hr). simpl. run. set (r0 := r <| clientAddresses ::= <[req_clientid req := AtClient c]> |>).
  match goal with |- post _ _ _ ?x => change x with r0 end.
  assert (leads lo lc r0) as Hlead0 by (by apply leads_address). apply post_get.
  assert (∀ r', leads lo lc r' → keeps r0 r' → lastCommitted r' = lastCommitted r → leader_progress lo lc r r') as Hdone.
  { intros r' Hl' Hk Hc. apply leader_progress_keeps; [done| |lia]. destruct Hk. by split. }
  set (fresh := _ ← UpdateClientTable req; _).
  assert ((∀ e, clientTable r0 !! req_clientid req = Some e → lastReqId e < req_clientreqid req) →
    wp fresh (λ _ r', leader_progress lo lc r r') r0) as Hfresh.
  { intros Hnew. unfold fresh. apply post_bind. eapply post_mono; [by apply (UpdateClientTable_fresh lo lc r0)|].
    intros u r1 (Hl1 & Hk1 & Ht1 & Hc1 & e & He & Hid). apply post_get.
    destruct (Hleader (lastCommitted r1) (req_op req) (app r1)) as [[[replicate res] s'] Hup].
    eapply post_bind_run; [unfold on_app; rewrite Hup; reflexivity|]. cbv iota beta. set (r2 := r1 <| app := s' |>).
    assert (leads lo lc r2) as Hl2 by (by apply leads_on_app).
    destruct replicate; simpl.
    - run. apply post_get. set (req' := MkRequest res (req_clientid req) (req_clientreqid req)).
      destruct (append_request lo lc r2 req' Hl2) as (l' & Happ & Hq & Hl3).
      + simpl. rewrite (kp_lastOp _ _ Hk1). simpl. lia.
      + simpl. intros q Hq. unfold requests in Hq. rewrite (kp_contents _ _ Hk1) in Hq. simpl in Hq.
        destruct (ld_table _ _ Hl q Hq) as (x & Hx & Hle). unfold request_id. intros [= Hc' Hi']. simpl in *. rewrite Hc' in Hx.
        specialize (Hnew x Hx). lia.
      + simpl. exists e. split; [done|]. lia.
      + assert (0 ≤ lastOp r1 ∧ lastOp r1 + 1 < 2 ^ 64) as Hlt1.
        { rewrite (kp_lastOp _ _ Hk1). simpl. destruct Hr. lia. }
        assert (Append (MkViewstamp (view r1) (u64_incr (lastOp r1))) req' LOG_STATE_PREPARED (log r1) = Ok l') as Happ'.
        { rewrite (ro_view _ _ _ _ _ (proj1 Hl1)), u64_incr_small by lia. exact Happ. }
        eapply post_bind_run; [unfold change_log, on_log; simpl; rewrite Happ'; reflexivity|].
        match goal with |- post _ _ _ ?x => change x with (r2 <| lastOp := u64_incr (lastOp r1) |> <| log := l' |>) end.
        rewrite (u64_incr_small (lastOp r1)) by lia. set (r3 := r2 <| lastOp := lastOp r1 + 1 |> <| log := l' |>).
        assert (leads lo lc r3) as Hlead3 by exact Hl3.
        apply post_bind. apply (post_mono _ _ (λ _ r', leads lo lc r' ∧ log r' = log r3 ∧ lastCommitted r' = lastCommitted r3)).
        { destruct (_ >? _); [eapply post_mono; [by apply CloseBatch_ok|]; naive_solver|]. unfold post, modify. by split_and!; [apply leads_close_timer|..]. }
        intros u' r4 (Hl4 & Hlog4 & Hc4). unfold post, modify. split_and!; [by apply leads_null_timer| |].
        * simpl. rewrite Hlog4. simpl. rewrite Hq. unfold requests. simpl. rewrite (kp_contents _ _ Hk1). by eexists.
        * simpl. rewrite Hc4. change (lastCommitted r ≤ lastCommitted r1). rewrite Hc1. done.
    - run. unfold transport_send, post, modify. apply Hdone; [|by destruct Hk1; split|done].
      apply leads_send; [by apply (leads_reply lo lc r2)|done]. }
  destruct (clientTable r0 !! req_clientid req) as [e|] eqn:He; [|by apply Hfresh].
  destruct (Z.ltb_spec (req_clientreqid req) (lastReqId e)); [by apply Hdone|].
  destruct (Z.eqb_spec (req_clientreqid req) (lastReqId e)); [|apply Hfresh; intros ? [= <-]; lia].
  destruct (replied e) eqn:Hrep; [|by apply Hdone].
  destruct (ro_replies _ _ _ _ _ (proj1 Hlead0) _ _ He Hrep) as [rep ->]. run. unfold transport_send, post, modify.
  apply Hdone; [by apply leads_send|by split|done].
Qed.

(** ** The system *)

Context (Hf : 0 ≤ f config ∧ f config + 1 ≤ n config).

Abbreviation system := (Z → VRReplica S).
Implicit Types sys : system.

Inductive vr_event := FromClient (c : Z) (m : vr_message) | FromReplica (i : Z) (m : vr_message) | Fires (t : vr_timer).

Definition vr_handle (e : vr_event) : M (VRReplica S) unit :=
  match e with
  | FromClient c m => ReceiveMessage (AtClient c) m
  | FromReplica i m => ReceiveMessage (AtReplica i) m
  | Fires t => FireTimer t
  end.

(** What replica [i] sent reaches replica [j] as [m]. *)
Definition reaches (i : Z) (x : vr_sent) (j : Z) (m : vr_message) : Prop :=
  match x with
  | ToAll m' => i ≠ j ∧ m' = m
  | ToReplicaAt k m' => k = j ∧ m' = m
  | ToAddress (AtReplica k) m' => k = j ∧ m' = m
  | ToAddress (AtClient _) _ => False
  end.

(** Clients send requests as long as numbers are left; every message sent may arrive, any number
    of times and at any time; every running timer but the one that starts a view change fires. *)
Inductive allowed sys (j : Z) : vr_event → Prop :=
| allowed_request c req : lastOp (sys j) + 2 < 2 ^ 64 → allowed sys j (FromClient c (RequestMsg req))
| allowed_unlogged c req : allowed sys j (FromClient c (UnloggedRequestMsg req))
| allowed_message i x m : 0 ≤ i < n config → (x, true) ∈ sends (sys i) → reaches i x j m → allowed sys j (FromReplica i m)
| allowed_timer t : t ≠ ViewChangeTimer → timer_running t (sys j) = true → allowed sys j (Fires t).

Definition update sys (j : Z) r : system := λ i, if decide (i = j) then r else sys i.

Inductive normal_run : system → Prop :=
| normal_start sys : (∀ j, 0 ≤ j < n config → ∃ b s, VRReplica_new config j b s = Ok (sys j)) → normal_run sys
| normal_step sys j e r' : normal_run sys → 0 ≤ j < n config → allowed sys j e → vr_handle e (sys j) = Ok (tt, r') →
    normal_run (update sys j r').

Definition known (g : VRReplica S → Z) sys (i : Z) : Z := if decide (0 ≤ i < n config) then g (sys i) else 0.

Record system_ok sys : Prop := {
  sy_leader : leads (known lastOp sys) (known lastCommitted sys) (sys 0);
  sy_others : ∀ j, 1 ≤ j < n config →
    replica_ok (requests (log (sys 0))) (lastCommitted (sys 0)) (known lastCommitted sys) j (sys j)
}.

Lemma start_ok sys : (∀ j, 0 ≤ j < n config → ∃ b s, VRReplica_new config j b s = Ok (sys j)) → system_ok sys.
Proof.
  intros Hstart.
  assert (∀ j lc, 0 ≤ j < n config → replica_ok [] 0 lc j (sys j) ∧ sys j = VRReplica_members config j (batchSize (sys j)) (app (sys j))
    <| nullCommitTimeout := (j =? 0) |> <| viewChangeTimeout := negb (j =? 0) |>) as Hinit.
  { intros j lc Hj. destruct (Hstart j Hj) as (b & s & Hr). unfold VRReplica_new in Hr. set (r0 := VRReplica_members config j b s) in *.
    assert (AmLeader r0 = Ok (0 =? j, r0)) as Hlead.
    { unfold AmLeader, LeaderOf, mbind, M_bind, get_st, lift_res. simpl. by rewrite first_leader. }
    rewrite Hlead in Hr. cbn [mbind res_bind] in Hr. rewrite (Z.eqb_sym j 0).
    destruct (Z.eqb_spec 0 j) as [<-|Hne]; injection Hr as <-; (split; [|done]); split; simpl; try done; try lia; intros; by set_solver. }
  destruct (Hinit 0 (known lastCommitted sys)) as [H0r E0]; [lia|]. assert (log (sys 0) = Log_new false 1 "") as Hlog by (by rewrite E0).
  assert (lastCommitted (sys 0) = 0) as Hc by (by rewrite E0). split.
  - split; [by rewrite Hlog, Hc|]. split.
    + rewrite Hlog. intros q. set_solver.
    + rewrite Hlog. constructor.
    + rewrite E0. simpl. unfold QuorumSize. lia.
    + intros op ms i. rewrite E0. simpl. by rewrite lookup_empty.
    + exists (list_to_set (seqZ 0 (f config + 1))). split.
      * rewrite size_list_to_set by apply NoDup_seqZ. rewrite length_seqZ. lia.
      * intros i. rewrite elem_of_list_to_set, elem_of_seqZ. intros Hi. split; [lia|]. rewrite Hc.
        case_decide; [by rewrite E0|]. unfold known. case_decide; [|done].
        destruct (Hinit i (λ _, 0)) as [_ Ei]; [done|]. by rewrite Ei.
  - intros j Hj. rewrite Hlog, Hc. apply Hinit. lia.
Qed.

Lemma update_eq sys j r : update sys j r j = r.
Proof. unfold update. by rewrite decide_True. Qed.

Lemma update_ne sys j r i : i ≠ j → update sys j r i = sys i.
Proof. intros. unfold update. by rewrite decide_False. Qed.

Lemma known_update g sys j r i : 0 ≤ j < n config → g (sys j) ≤ g r → known g sys i ≤ known g (update sys j r) i.
Proof.
  intros Hj Hg. unfold known. case_decide; [|done]. destruct (decide (i = j)) as [->|Hne]; [by rewrite update_eq|by rewrite update_ne].
Qed.

(** The leader moved on. *)
Lemma system_leader sys r' :
  system_ok sys → leader_progress (known lastOp sys) (known lastCommitted sys) (sys 0) r' → system_ok (update sys 0 r').
Proof.
  intros [Hl Ho] ([Hr' Hl'] & Hp & Hc). assert (0 ≤ 0 < n config) as H0n by lia.
  assert (lastOp (sys 0) ≤ lastOp r') as Hop.
  { rewrite (ro_lastOp _ _ _ _ _ (proj1 Hl)), (ro_lastOp _ _ _ _ _ Hr'). apply prefix_length in Hp. rewrite !length_requests in Hp. lia. }
  assert (∀ i, i ≠ 0 → known lastCommitted sys i ≤ known lastCommitted (update sys 0 r') i) as Hlc by (intros; by apply known_update).
  split; rewrite update_eq.
  - split; [refine (replica_ok_mono _ _ _ _ _ _ _ _ _ _ Hlc Hr'); [done|lia]|]. eapply leader_ok_mono; [|done]. intros i. by apply known_update.
  - intros j Hj. rewrite update_ne by lia. eapply replica_ok_mono; [exact Hp|exact Hc|exact Hlc|by apply Ho].
Qed.

(** Another replica moved on. *)
Lemma system_other sys j r' :
  system_ok sys → 1 ≤ j < n config →
  progress (requests (log (sys 0))) (lastCommitted (sys 0)) (known lastCommitted sys) j (sys j) r' → system_ok (update sys j r').
Proof.
  intros [Hl Ho] Hj (Hr' & Hop & Hc).
  assert (∀ i, i ≠ 0 → known lastCommitted sys i ≤ known lastCommitted (update sys j r') i) as Hlc by (intros; apply known_update; [lia|done]).
  split; rewrite (update_ne sys j r' 0) by lia.
  - destruct Hl as [Hr Hl]. split; [refine (replica_ok_mono _ _ _ _ _ _ _ _ _ _ Hlc Hr); [done|lia]|].
    eapply leader_ok_mono; [|done]. intros i. apply known_update; [lia|done].
  - intros i Hi. destruct (decide (i = j)) as [->|Hne]; [rewrite update_eq|rewrite update_ne by done].
    + refine (replica_ok_mono _ _ _ _ _ _ _ _ _ _ Hlc Hr'); [done|lia].
    + refine (replica_ok_mono _ _ _ _ _ _ _ _ _ _ Hlc (Ho i Hi)); [done|lia].
Qed.

Lemma others_behind sys j : system_ok sys → 0 ≤ j < n config →
  replica_ok (requests (log (sys 0))) (lastCommitted (sys 0)) (known lastCommitted sys) j (sys j).
Proof. intros [[Hr _] Ho] Hj. destruct (decide (j = 0)) as [->|Hne]; [done|apply Ho; lia]. Qed.

Lemma known_lastOp sys i : system_ok sys → known lastOp sys i ≤ lastOp (sys 0).
Proof.
  intros Hs. pose proof (ro_lastOp _ _ _ _ _ (others_behind sys 0 Hs ltac:(lia))) as Hl0. unfold known. case_decide as Hi; [|lia].
  pose proof (others_behind sys i Hs Hi) as Hr. rewrite (ro_lastOp _ _ _ _ _ Hr), Hl0.
  pose proof (prefix_length _ _ (ro_prefix _ _ _ _ _ Hr)) as Hp. rewrite !length_requests in Hp. lia.
Qed.

Lemma known_committed sys i : system_ok sys → known lastCommitted sys i + 1 < 2 ^ 64.
Proof.
  intros Hs. unfold known. case_decide as Hi; [|lia]. pose proof (others_behind sys i Hs Hi) as [].
  pose proof (dn_bound _ ro_dense0). lia.
Qed.

Lemma length_log_bound sys : system_ok sys → Z.of_nat (length (requests (log (sys 0)))) + 1 < 2 ^ 64.
Proof.
  intros Hs. pose proof (others_behind sys 0 Hs ltac:(lia)) as []. pose proof (dn_bound _ ro_dense0). rewrite length_requests. lia.
Qed.

Lemma unlogged_ok sys j c req :
  system_ok sys → 0 ≤ j < n config →
  wp (HandleUnloggedRequest (AtClient c) req) (λ _ r', system_ok (update sys j r')) (sys j).
Proof.
  intros Hs Hj. pose proof (others_behind sys j Hs Hj) as Hr. unfold HandleUnloggedRequest. apply post_get.
  rewrite (ro_status _ _ _ _ _ Hr). simpl. destruct (Hunlogged (req_op req) (app (sys j))) as [[res s'] Hup].
  eapply post_bind_run; [unfold on_app; rewrite Hup; reflexivity|]. unfold transport_send, post, modify.
  destruct (decide (j = 0)) as [->|Hne].
  - apply system_leader; [done|]. split_and!; [|done|simpl; lia]. apply leads_send; [by apply leads_on_app, sy_leader|done].
  - apply system_other; [done|lia|]. split_and!; [|simpl; lia..]. apply send_ok_replica; [by destruct Hr; split|done].
Qed.

Lemma sent_to_leader L C lc i r x m :
  sent_ok L C lc i r x → reaches i x 0 m →
  (∃ ok, m = PrepareOKMsg ok ∧ i ≠ 0 ∧ ok_view ok = 0 ∧ ok_replicaIdx ok = i ∧ ok_opnum ok ≤ lastOp r) ∨
  (∃ t, m = RequestStateTransferMsg t ∧ i ≠ 0 ∧ rst_view t = 0 ∧ 0 ≤ rst_opnum t ≤ lastCommitted r).
Proof.
  destruct x as [[k|k] m'|k m'|m']; destruct m'; try done; simpl.
  - intros [? _] [-> _]. done.
  - intros (_ & ? & ? & ? & ?) [_ <-]. left. eauto 10.
  - intros [-> _] [? _]. done.
  - intros [-> _] [? _]. done.
  - intros (? & ? & ?) [_ <-]. right. eauto 10.
Qed.

Lemma sent_to_other L C lc i r x j m :
  sent_ok L C lc i r x → reaches i x j m → j ≠ 0 →
  (∃ p, m = PrepareMsg p ∧ prepare_ok L p) ∨ (∃ c, m = CommitMsg c ∧ cm_view c = 0 ∧ cm_opnum c ≤ C) ∨
  (∃ t, m = RequestStateTransferMsg t ∧ i ≠ 0 ∧ rst_view t = 0 ∧ 0 ≤ rst_opnum t ≤ lastCommitted r) ∨
  (∃ k t, m = StateTransferMsg t ∧ k ≤ lc j ∧ transfer_ok L C k t).
Proof.
  destruct x as [[k|k] m'|k m'|m']; destruct m'; try done; simpl.
  - intros (? & k' & ? & ?) [-> <-] _. do 3 right. eauto.
  - intros [-> _] [<- _] ?. done.
  - intros [_ ?] [_ <-] _. left. eauto.
  - intros (_ & ? & ?) [_ <-] _. right. left. eauto.
  - intros (? & ? & ?) [_ <-] _. do 2 right. left. eauto 10.
Qed.

(** What the leader does. *)
Lemma leader_step sys e :
  system_ok sys → allowed sys 0 e → wp (vr_handle e) (λ _ r', system_ok (update sys 0 r')) (sys 0).
Proof.
  intros Hs He. pose proof (sy_leader _ Hs) as Hlead. pose proof Hlead as [Hr Hl].
  apply (post_mono _ _ (λ _ r', system_ok (update sys 0 r') ∨ leader_progress (known lastOp sys) (known lastCommitted sys) (sys 0) r'));
    [|intros u r' [?|?]; [done|by apply system_leader]].
  destruct He as [c req Hb|c req|i x m Hi Hx Hm|t Ht Hrun].
  - eapply post_mono; [by apply HandleRequest_leader|auto].
  - eapply post_mono; [apply unlogged_ok; [done|lia]|auto].
  - pose proof (ro_sends _ _ _ _ _ (others_behind sys i Hs Hi) x true Hx) as Hok.
    destruct (sent_to_leader _ _ _ _ _ _ _ Hok Hm) as [(ok & -> & Hi0 & Hv & Hidx & Hop)|(t & -> & Hi0 & Hv & Hop)].
    + eapply post_mono; [apply (HandlePrepareOK_ok _ _ _ (AtReplica i) _ Hlead); [intros; by apply known_lastOp|done|lia|]|].
      { unfold known. rewrite Hidx, decide_True by lia. done. }
      intros u r' (Hl' & Hq & Hc & _). right. split_and!; [done|by rewrite Hq|done].
    + eapply post_mono; [apply (HandleRequestStateTransfer_ok _ _ _ _ _ i _ Hr Hi0 Hv); [|by apply known_committed]|].
      { unfold known. by rewrite decide_True. }
      intros u r' (Hr' & Hk & Htl & Hc). right. apply leader_progress_keeps; [|done|lia]. by eapply leads_keeps.
  - destruct t; simpl in *; [done|..]; apply post_get.
    + unfold SendNullCommit. apply post_get. unfold transport_send, post, modify. right. split_and!; [|done|simpl; lia].
      apply leads_send; [done|]. simpl. split_and!; [done|by destruct Hr|lia].
    + unfold post, modify. right. split_and!; [|done|simpl; lia]. destruct Hr, Hl. by split; split.
    + unfold ResendPrepare. apply post_get. destruct (_ =? _); [right; split_and!; [done|done|lia]|].
      destruct (ro_resend _ _ _ _ _ Hr Hrun) as [p Hp]. rewrite Hp. run. unfold transport_send, post, modify. right.
      split_and!; [|done|simpl; lia]. apply leads_send; [done|]. simpl. split; [done|]. by apply (ro_lastPrepare _ _ _ _ _ Hr).
    + eapply post_mono; [by apply CloseBatch_ok|]. intros u r' (Hl' & Hlog & Hc & _). right. split_and!; [done|by rewrite Hlog|lia].
Qed.

(** What another replica does. *)
Lemma other_step sys j e :
  system_ok sys → 1 ≤ j < n config → allowed sys j e → wp (vr_handle e) (λ _ r', system_ok (update sys j r')) (sys j).
Proof.
  intros Hs Hj He. pose proof (sy_others _ Hs j Hj) as Hr. pose proof (length_log_bound sys Hs) as HL. assert (j ≠ 0) as Hj0 by lia.
  destruct He as [c req Hb|c req|i x m Hi Hx Hm|t Ht Hrun]; simpl.
  - unfold HandleRequest. apply post_get. rewrite (ro_status _ _ _ _ _ Hr). simpl. run_with (AmLeader_run _ _ _ _ _ Hr).
    rewrite (proj2 (Z.eqb_neq _ _)) by done. apply system_other; [done..|]. by apply progress_refl.
  - apply unlogged_ok; [done|lia].
  - pose proof (ro_sends _ _ _ _ _ (others_behind sys i Hs Hi) x true Hx) as Hok.
    eapply post_mono; [|intros u r' Hp; by apply system_other; [..|exact Hp]].
    destruct (sent_to_other _ _ _ _ _ _ _ _ Hok Hm Hj0) as
      [(p & -> & Hp)|[(c & -> & Hv & Hc)|[(t & -> & Hi0 & Hv & Hop)|(k & t & -> & Hk & Ht)]]].
    + by apply HandlePrepare_ok.
    + by apply HandleCommit_ok.
    + eapply post_mono; [apply (HandleRequestStateTransfer_ok _ _ _ _ _ i _ Hr Hi0 Hv); [|by apply known_committed]|].
      { unfold known. by rewrite decide_True. }
      intros u r' (Hr' & Hk & _ & Hc). pose proof (kp_lastOp _ _ Hk). split_and!; [done|lia|lia].
    + eapply HandleStateTransfer_ok; [done..|exact Ht|]. unfold known in Hk. rewrite decide_True in Hk by lia. lia.
  - destruct (ro_timers _ _ _ _ _ Hr Hj0) as (Hn1 & Hn2 & Hn3). destruct t; simpl in *; [done|congruence| |congruence|congruence].
    apply post_get. unfold post, modify. apply system_other; [done..|]. split_and!; [destruct Hr; by split|simpl; lia..].
Qed.

Lemma normal_run_ok sys : normal_run sys → system_ok sys.
Proof.
  induction 1 as [sys Hs|sys j e r' _ IH Hj He Hr]; [by apply start_ok|].
  assert (wp (vr_handle e) (λ _ r', system_ok (update sys j r')) (sys j)) as Hpost.
  { destruct (decide (j = 0)) as [->|Hne]; [by apply leader_step|]. apply other_step; [done|lia|done]. }
  unfold post in Hpost. by rewrite Hr in Hpost.
Qed.

(** ** Executions *)

(** The operations of a list of requests under the numbers 1, 2 and so on. *)
Definition numbered L : list (Z * string) := imap (λ i q, (Z.of_nat i + 1, req_op q)) L.

Lemma numbered_prefix L L' : L `prefix_of` L' → numbered L `prefix_of` numbered L'.
Proof. intros [l ->]. unfold numbered. rewrite imap_app. by eexists. Qed.

Lemma execution_contents l : dense l → start l = 1 → execution <$> contents l = numbered (requests l).
Proof.
  intros Hd Hs. apply list_eq. intros i. unfold numbered, requests, contents. rewrite list_lookup_imap, !list_lookup_fmap.
  destruct (entries l !! i) as [e|] eqn:He; [|done]. simpl. unfold execution. simpl.
  rewrite (dn_opnum _ Hd i e He), Hs. do 2 f_equal. lia.
Qed.

(** What a replica executed is the beginning of the operations of its log, and of the leader's. *)
Lemma executed_prefix L C lc j r : replica_ok L C lc j r →
  executed r = take (Z.to_nat (lastCommitted r)) (numbered (requests (log r))) ∧ executed r `prefix_of` numbered L.
Proof.
  intros []. rewrite <- execution_contents, <- fmap_take, <- ro_executed0 by done. split; [done|].
  etrans; [|by apply numbered_prefix]. rewrite <- execution_contents by done. rewrite ro_executed0. rewrite fmap_take.
  apply prefix_take.
Qed.

Lemma executed_in_log sys i j :
  system_ok sys → 0 ≤ i < n config → 0 ≤ j < n config → lastCommitted (sys j) ≤ lastOp (sys i) →
  executed (sys j) `prefix_of` execution <$> contents (log (sys i)).
Proof.
  intros Hs Hi Hj Hle. pose proof (others_behind sys i Hs Hi) as Hri. pose proof (others_behind sys j Hs Hj) as Hrj.
  pose proof Hri as []. rewrite execution_contents by done. destruct (executed_prefix _ _ _ _ _ Hrj) as [Hex Hp].
  destruct (prefix_weak_total _ _ _ Hp (numbered_prefix _ _ ro_prefix0)) as [?|Hr]; [done|].
  assert (length (executed (sys j)) ≤ length (numbered (requests (log (sys i)))))%nat as Hlen.
  { rewrite Hex, length_take. unfold numbered. rewrite !length_imap, !length_requests. lia. }
  apply prefix_length_eq in Hr; [by rewrite Hr|done].
Qed.

(** C19: As long as no view change is started, viewstamped replication keeps its replicas alike.
    However the network loses, duplicates, delays and reorders messages and whenever timers fire,
    no handler of a replica panics or does anything undefined on an event that can
    occur, and of what any two replicas gave to their applications one is the beginning of the
    other: the same operations under the same numbers, in the same order. *)
Theorem vr_replicas_agree sys :
  normal_run sys →
  (∀ j e, 0 ≤ j < n config → allowed sys j e → ∃ r', vr_handle e (sys j) = Ok (tt, r')) ∧
  ∀ i j, 0 ≤ i < n config → 0 ≤ j < n config →
    executed (sys i) `prefix_of` executed (sys j) ∨ executed (sys j) `prefix_of` executed (sys i).
Proof.
  intros Hrun. apply normal_run_ok in Hrun as Hs. split.
  - intros j e Hj He. assert (wp (vr_handle e) (λ _ r', system_ok (update sys j r')) (sys j)) as Hpost.
    { destruct (decide (j = 0)) as [->|Hne]; [by apply leader_step|]. apply other_step; [done|lia|done]. }
    unfold post in Hpost. destruct (vr_handle e (sys j)) as [[[] r']| |]; eauto; done.
  - intros i j Hi Hj. apply (prefix_weak_total _ _ (numbered (requests (log (sys 0))))); by eapply executed_prefix, others_behind.
Qed.

(** C20: What a replica executed is not lost.  In every state of a run without a view change there
    are [f + 1] replicas, more than can fail together, whose logs begin with everything that any
    replica gave to its application. *)
Theorem vr_executed_durable sys :
  normal_run sys →
  ∃ Q : gset Z, f config + 1 ≤ Z.of_nat (size Q) ∧ (∀ i, i ∈ Q → 0 ≤ i < n config) ∧
    ∀ i j, i ∈ Q → 0 ≤ j < n config → executed (sys j) `prefix_of` execution <$> contents (log (sys i)).
Proof.
  intros Hrun. apply normal_run_ok in Hrun as Hs. destruct (ld_durable _ _ (proj2 (sy_leader _ Hs))) as (Q & Hsize & HQ).
  exists Q. split_and!; [done|by intros i Hi; apply HQ|]. intros i j Hi Hj. destruct (HQ i Hi) as [Hin Hle].
  apply executed_in_log; [done..|]. pose proof (ro_bound _ _ _ _ _ (others_behind sys j Hs Hj)).
  case_decide as Hi0; [subst; lia|]. unfold known in Hle. rewrite decide_True in Hle by done. lia.
Qed.

(** C21: Every request is executed at most once, however often its client or the network repeats
    it: what a replica executed are the operations of a list of requests, no two of which have the
    same client and the same number of the client, under consecutive numbers from one. *)
Theorem vr_request_at_most_once sys j :
  normal_run sys → 0 ≤ j < n config →
  ∃ reqs, executed (sys j) = numbered reqs ∧ NoDup (request_id <$> reqs) ∧ reqs `prefix_of` requests (log (sys j)) ∧
    Z.of_nat (length reqs) = lastCommitted (sys j).
Proof.
  intros Hrun Hj. apply normal_run_ok in Hrun as Hs. pose proof (others_behind sys j Hs Hj) as Hr. pose proof Hr as [].
  pose proof (ld_nodup _ _ (proj2 (sy_leader _ Hs))) as Hnd. set (k := Z.to_nat (lastCommitted (sys j))).
  exists (take k (requests (log (sys j)))). split_and!.
  - rewrite ro_executed0, fmap_take, execution_contents by done. unfold numbered. apply list_eq. intros i.
    rewrite list_lookup_imap, !lookup_take. fold k. case_decide; by rewrite ?list_lookup_imap.
  - assert (take k (requests (log (sys j))) `prefix_of` requests (log (sys 0))) as [l Hl] by (etrans; [apply prefix_take|done]).
    rewrite Hl, fmap_app in Hnd. by apply NoDup_app in Hnd as [? _].
  - apply prefix_take.
  - rewrite length_take, length_requests. lia.
Qed.
End normal.

(** ** A run *)

(** Three replicas whose application counts what it executes; the network delivers everything. *)
Definition vr_demo_app : AppReplica Z := {|
  LeaderUpcall _ op := mret (true, op);
  ReplicaUpcall _ _ := λ s, Ok ("done", s + 1);
  UnloggedUpcall op := mret op
|}.
#[local] Existing Instance vr_demo_app.
#[local] Instance vr_demo_network : Network := λ _, true.
#[local] Existing Instance log_demo_hasher.
#[local] Instance vr_demo_dangling : DanglingRead := λ _, None.
Definition vr_demo_config : Configuration := MkConfiguration 3 1.

Definition vr_demo_start (j : Z) : VRReplica Z :=
  VRReplica_members vr_demo_config j 1 0 <| nullCommitTimeout := (j =? 0) |> <| viewChangeTimeout := negb (j =? 0) |>.

(** The events of the run: a client's request is numbered by replica 0, prepared by replica 1 and
    then executed by replica 0. *)
Definition vr_demo_request : Request := MkRequest "put" 7 1.
Definition vr_demo_prepare : PrepareMessage := MkPrepare 0 1 1 [vr_demo_request].
Definition vr_demo_events : list (Z * vr_event) :=
  [(0, FromClient 9 (RequestMsg vr_demo_request)); (1, FromReplica 0 (PrepareMsg vr_demo_prepare));
   (0, FromReplica 1 (PrepareOKMsg (MkPrepareOK 0 1 1)))].

Definition vr_demo_next (j : Z) (e : vr_event) (sys : Z → VRReplica Z) : Z → VRReplica Z :=
  match vr_handle e (sys j) with Ok (_, r') => update sys j r' | _ => sys end.

Fixpoint vr_demo_run (es : list (Z * vr_event)) (sys : Z → VRReplica Z) : Z → VRReplica Z :=
  match es with [] => sys | (j, e) :: es => vr_demo_run es (vr_demo_next j e sys) end.

Definition vr_demo : Z → VRReplica Z := vr_demo_run vr_demo_events vr_demo_start.

Lemma vr_demo_step j e sys :
  normal_run vr_demo_config sys → 0 ≤ j < 3 → allowed vr_demo_config sys j e →
  (if vr_handle e (sys j) is Ok _ then true else false) = true → normal_run vr_demo_config (vr_demo_next j e sys).
Proof.
  intros Hs Hj He Hr. unfold vr_demo_next. destruct (vr_handle e (sys j)) as [[[] r']| |] eqn:Hrun; [|done..].
  by eapply normal_step.
Qed.

Lemma vr_demo_normal : normal_run vr_demo_config vr_demo.
Proof.
  unfold vr_demo, vr_demo_events. cbn [vr_demo_run]. apply vr_demo_step; [apply vr_demo_step; [apply vr_demo_step|..]|..].
  - apply normal_start. intros j Hj. exists 1, 0. simpl in Hj. assert (j = 0 ∨ j = 1 ∨ j = 2) as [-> |[-> | -> ]] by lia; done.
  - lia.
  - by apply allowed_request.
  - reflexivity.
  - lia.
  - apply (allowed_message _ _ _ 0 (ToAll (PrepareMsg vr_demo_prepare))); [done| |done]. vm_compute. by left.
  - vm_compute. reflexivity.
  - lia.
  - apply (allowed_message _ _ _ 1 (ToReplicaAt 0 (PrepareOKMsg (MkPrepareOK 0 1 1)))); [done| |done]. vm_compute. by left.
  - vm_compute. reflexivity.
Qed.

Lemma vr_replicas_agree_witness :
  (∀ j e, 0 ≤ j < 3 → allowed vr_demo_config vr_demo j e → ∃ r', vr_handle e (vr_demo j) = Ok (tt, r')) ∧
  executed (vr_demo 0) = [(1, "put")] ∧
  (executed (vr_demo 1) `prefix_of` executed (vr_demo 0) ∨ executed (vr_demo 0) `prefix_of` executed (vr_demo 1)).
Proof.
  destruct (vr_replicas_agree vr_demo_config ltac:(done) ltac:(by eauto) ltac:(by eauto) ltac:(by eauto) ltac:(done)
    vr_demo vr_demo_normal) as [Hok Hp].
  split; [exact Hok|]. split; [reflexivity|]. by apply Hp.
Defined.

Lemma vr_executed_durable_witness :
  ∃ Q : gset Z, 2 ≤ Z.of_nat (size Q) ∧ (∀ i, i ∈ Q → 0 ≤ i < 3) ∧
    ∀ i j, i ∈ Q → 0 ≤ j < 3 → executed (vr_demo j) `prefix_of` execution <$> contents (log (vr_demo i)).
Proof.
  exact (vr_executed_durable vr_demo_config ltac:(done) ltac:(by eauto) ltac:(by eauto) ltac:(by eauto) ltac:(done)
    vr_demo vr_demo_normal).
Defined.

Lemma vr_request_at_most_once_witness :
  ∃ reqs, executed (vr_demo 0) = numbered reqs ∧ NoDup (request_id <$> reqs) ∧
    reqs `prefix_of` requests (log (vr_demo 0)) ∧ Z.of_nat (length reqs) = lastCommitted (vr_demo 0).
Proof.
  by apply (vr_request_at_most_once vr_demo_config ltac:(done) ltac:(by eauto) ltac:(by eauto) ltac:(by eauto) ltac:(done)
    vr_demo 0 vr_demo_normal).
Defined.
