(* ===== verification/VRViewChange.v ===== *)
(** View changes of viewstamped replication: the selection of the log by the next leader, its
    installation by the others, and what goes wrong.

    Runs are those of [VRSafety] in which the timer that starts a view change may fire too.  In
    such runs the replicas need not agree: a replica that is told of a view whose log is empty
    keeps its own entries, and executes one of them when the new leader commits another. *)

From S2P Require Import QuorumSet LRReplica.
From S2P Require Import Prelude IRRecord IRReplica.
From S2P Require Import ReplLog VRReplica VRSafety.

Section runs.
Context {S : Type} `{!AppReplica S} `{!Network} `{!Hasher} `{!DanglingRead}.
Context (config : Configuration).

(** Every running timer may fire. *)
Inductive occurs (sys : Z → VRReplica S) (j : Z) : vr_event → Prop :=
| occurs_normal e : allowed config sys j e → occurs sys j e
| occurs_view_change : viewChangeTimeout (sys j) = true → occurs sys j (Fires ViewChangeTimer).

Inductive run : (Z → VRReplica S) → Prop :=
| run_start sys : (∀ j, 0 ≤ j < n config → ∃ b s, VRReplica_new config j b s = Ok (sys j)) → run sys
| run_step sys j e r' : run sys → 0 ≤ j < n config → occurs sys j e → vr_handle e (sys j) = Ok (tt, r') →
    run (update sys j r').

(** The message [m] of replica [i] arrives. *)
Lemma occurs_delivery sys i k x j m :
  0 ≤ i < n config → sends (sys i) !! k = Some (x, true) → reaches i x j m → occurs sys j (FromReplica i m).
Proof. intros Hi Hx Hm. eapply occurs_normal, allowed_message; [done| |done]. by eapply list_elem_of_lookup_2. Qed.
End runs.

(** ** The choice of the log *)

(** A later log: of a later view, or of the same view and longer. *)
Definition later (x : DoViewChangeMessage) (v o : Z) : Prop :=
  v < dvc_lastNormalView x ∨ (v = dvc_lastNormalView x ∧ o < dvc_lastOp x).

Lemma select_log_spec ms : ∀ v o m v' o' m',
  foldl select_log (v, o, m) ms = (v', o', m') →
  (∀ x, x ∈ ms → ¬ later x v' o') ∧ (∀ x, later x v' o' → later x v o) ∧
  (m' = m ∧ v' = v ∧ o' = o ∨ ∃ x, m' = Some x ∧ x ∈ ms ∧ later x v o ∧ dvc_lastNormalView x = v' ∧ dvc_lastOp x = o').
Proof.
  induction ms as [|x ms IH]; intros v o m v' o' m' Hf; simpl in Hf.
  - simplify_eq. split_and!; [set_solver|done|by left].
  - destruct (_ || _) eqn:Hc in Hf.
    + assert (later x v o) as Hx.
      { apply orb_true_iff in Hc as [Hc|[Hc1 Hc2]%andb_true_iff]; unfold later; lia. }
      destruct (IH _ _ _ _ _ _ Hf) as (Hall & Hmono & Hm). split_and!.
      * intros y [-> |Hy]%elem_of_cons; [|by apply Hall]. intros Hl%Hmono. unfold later in Hl. lia.
      * intros y Hy%Hmono. unfold later in *. lia.
      * right. destruct Hm as [(-> & -> & ->)|(y & -> & Hy & Hl & <- & <-)]; [exists x|exists y]; split_and!; try done;
          [by left|by right|unfold later in *; lia].
    + apply orb_false_iff in Hc as [Hc1 Hc2]. assert (¬ later x v o) as Hx.
      { apply andb_false_iff in Hc2. unfold later. lia. }
      destruct (IH _ _ _ _ _ _ Hf) as (Hall & Hmono & Hm). split_and!.
      * intros y [-> |Hy]%elem_of_cons; [|by apply Hall]. by intros Hl%Hmono.
      * done.
      * destruct Hm as [?|(y & ? & ? & ?)]; [by left|right; exists y]. split_and!; [done|by right|naive_solver..].
Qed.

Section view_change.
Context {S : Type} `{!AppReplica S} `{!Network} `{!Hasher} `{!DanglingRead}.

(** The leader of the next view that has to take over a log reads freed memory.  When a
    quorum of [DoViewChange] messages is complete and one of them comes with a later log than its
    own, the pointer to the message with the latest log points to a copy that no longer exists, and
    the handler, whose first use of it is to ask for its entries, does something undefined. *)
Theorem vr_view_change_reads_freed (r : VRReplica S) remote msg msgs q i x :
  (∀ m, read_dangling m = None) →
  status r = STATUS_VIEW_CHANGE → dvc_view msg = view r →
  AddAndCheckForQuorum (dvc_view msg) (dvc_replicaIdx msg) msg (doViewChangeQuorum r) = (Some msgs, q) →
  msgs !! i = Some x → later x (QuorumSet.view (LastViewstamp (log r))) (opnum (LastViewstamp (log r))) →
  HandleDoViewChange remote msg r = Undefined.
Proof.
  intros Hd Hst Hv Hq Hx Hl. unfold HandleDoViewChange. rewrite (bind_run get_st _ r r r) by done.
  rewrite Hv in *. rewrite Hst, Z.ltb_irrefl, Z.eqb_refl, Z.gtb_ltb, Z.ltb_irrefl, bool_decide_true by done. cbn [negb andb orb when]. erewrite bind_run by reflexivity.
  rewrite (bind_run get_st _ r r r) by done. rewrite Hq. erewrite bind_run by reflexivity.
  destruct (foldl select_log _ _) as [[v' o'] m'] eqn:Hf. destruct (select_log_spec _ _ _ _ _ _ _ Hf) as (Hall & _ & Hm).
  destruct Hm as [(_ & -> & ->)|(y & -> & _)]; [|by rewrite Hd]. exfalso. apply (Hall x); [|done].
  apply list_elem_of_fmap. exists (i, x). split; [done|]. by rewrite by_key_perm, elem_of_map_to_list.
Qed.

(** ** The installation of the log *)

Context (Hreplica : ∀ k op (s : S), ∃ x, ReplicaUpcall k op s = Ok x).

(** What is executed of a log behind number [c0] up to number [c]. *)
Definition execution_of (l : Log) (c0 c : Z) : list (Z * string) :=
  execution <$> drop (Z.to_nat c0) (take (Z.to_nat c) (contents l)).

(** The replica [r] follows leader [lead] in view [v] with the log [l]; since the view was entered it
    executed what is committed in it. *)
Record follows (l : Log) (v lead : Z) (before : list (Z * string)) (c0 : Z) (r : VRReplica S) : Prop := {
  fo_view : view r = v;
  fo_status : status r = STATUS_NORMAL;
  fo_leader : GetLeaderIndex (configuration r) v = Ok lead;
  fo_dense : dense (log r);
  fo_start : start (log r) = 1;
  fo_log : contents (log r) = contents l;
  fo_lastOp : lastOp r = Z.of_nat (length (contents l));
  fo_committed : 0 ≤ c0 ≤ lastCommitted r ∧ lastCommitted r ≤ lastOp r;
  fo_executed : executed r = before ++ execution_of l c0 (lastCommitted r)
}.

Lemma follows_entry l v lead X c0 r i :
  follows l v lead X c0 r → 1 ≤ i ≤ lastOp r → ∃ e, Find i (log r) = Some e ∧ contents l !! Z.to_nat (i - 1) = Some (content e) ∧
    opnum (viewstamp e) = i.
Proof.
  intros [] Hi. rewrite fo_lastOp0, <- fo_log0, length_contents in Hi.
  destruct (lookup_lt_is_Some_2 (entries (log r)) (Z.to_nat (i - 1))) as [e He]; [lia|]. exists e. split_and!.
  - apply Find_Some. rewrite fo_start0. split; [lia|done].
  - rewrite <- fo_log0. unfold contents. by rewrite list_lookup_fmap, He.
  - rewrite (dn_opnum _ fo_dense0 _ _ He). lia.
Qed.

Lemma commit_next_follows l v lead X c0 r :
  follows l v lead X c0 r → lastCommitted r < lastOp r →
  wp commit_next (λ _ r', follows l v lead X c0 r' ∧ lastCommitted r' = lastCommitted r + 1) r.
Proof.
  intros Hr Hlt. destruct (follows_entry _ _ _ _ _ r (lastCommitted r + 1) Hr) as (e & He & Hc & Hop); [destruct Hr; lia|].
  pose proof Hr as []. pose proof (dn_bound _ fo_dense0) as Hb. rewrite <- length_contents, fo_log0 in Hb.
  unfold commit_next. run. apply post_get. simpl. rewrite u64_incr_small, He by lia.
  unfold Execute. apply post_bind. run. unfold on_app. simpl.
  destruct (Hreplica (lastCommitted r + 1) (req_op (request e)) (app r)) as [[res s'] Hup].
  unfold post at 1. simpl. rewrite Hup. run. apply post_get. run. apply post_get. simpl.
  match goal with |- post _ _ _ ?x => set (r1 := x) end.
  assert (follows l v lead X c0 r1 ∧ lastCommitted r1 = lastCommitted r + 1) as (Hr1 & Hl).
  { split; [|done]. split; simpl; try done; try lia.
    - by apply SetStatus_dense.
    - by rewrite SetStatus_start.
    - by rewrite SetStatus_contents.
    - rewrite fo_executed0. unfold execution_of. replace (Z.to_nat (lastCommitted r + 1)) with (Datatypes.S (Z.to_nat (lastCommitted r))) by lia.
      replace (lastCommitted r + 1 - 1) with (lastCommitted r) in Hc by lia. apply lookup_lt_Some in Hc as Hlt'.
      rewrite (take_S_r _ _ _ Hc), drop_app_le, fmap_app by (rewrite length_take; lia).
      rewrite <- app_assoc. simpl. unfold execution at 3. simpl. by rewrite Hop. }
  destruct (clientAddresses r !! req_clientid (request e)) as [a|]; [|done].
  unfold transport_send, post, modify. split; [|done]. destruct Hr1. by split.
Qed.

Lemma CommitUpTo_follows l v lead X c0 r upto :
  follows l v lead X c0 r → upto ≤ lastOp r →
  wp (CommitUpTo upto) (λ _ r', follows l v lead X c0 r' ∧ lastCommitted r' = Z.max (lastCommitted r) upto) r.
Proof.
  intros Hr Hup. rewrite (fo_lastOp _ _ _ _ _ _ Hr) in Hup. unfold CommitUpTo. apply post_get.
  remember (Z.to_nat (upto - lastCommitted r)) as k eqn:Hk.
  revert r Hr Hk. induction k as [|k IH]; intros r Hr Hk; cbn [commit_rounds].
  - unfold post, mret, M_ret. split; [done|lia].
  - apply post_bind. eapply post_mono; [apply (commit_next_follows l v lead X c0 r Hr); rewrite (fo_lastOp _ _ _ _ _ _ Hr); lia|].
    intros u r1 (Hr1 & Hl1). eapply post_mono; [apply (IH r1 Hr1); lia|]. intros u' r2 (Hr2 & Hl2). split; [done|lia].
Qed.

(** Every operation that is not committed is acknowledged to the leader. *)
Lemma SendPrepareOKs_follows l v lead X c0 r o :
  follows l v lead X c0 r →
  wp (SendPrepareOKs o) (λ _ r', follows l v lead X c0 r' ∧ lastCommitted r' = lastCommitted r) r.
Proof.
  intros Hr. unfold SendPrepareOKs. apply post_get.
  apply (post_for_each _ _ _ (λ r', follows l v lead X c0 r' ∧ lastCommitted r' = lastCommitted r)); [done|].
  intros i r1 Hi%elem_of_seqZ (Hr1 & Hl1). apply post_get. destruct (Z.leb_spec i (lastCommitted r1)) as [Hle|Hgt]; [done|].
  pose proof (fo_committed _ _ _ _ _ _ Hr1). pose proof (fo_lastOp _ _ _ _ _ _ Hr1). pose proof (fo_lastOp _ _ _ _ _ _ Hr).
  destruct (follows_entry _ _ _ _ _ r1 i Hr1) as (e & -> & _); [lia|].
  apply post_bind. unfold UpdateClientTable. apply post_get. unfold post at 1, modify. unfold send_prepare_ok. apply post_get.
  eapply post_bind_run.
  { unfold LeaderOf, mbind, M_bind, get_st, lift_res. simpl. rewrite (fo_view _ _ _ _ _ _ Hr1), (fo_leader _ _ _ _ _ _ Hr1). done. }
  unfold transport_send, post, modify. split; [|done]. destruct Hr1. by split.
Qed.

(** The log of the message replaces the log of the replica. *)
Lemma install_log_ok (r : VRReplica S) l from es :
  dense (log r) → start (log r) = 1 → dense l → start l = 1 → matching (log r) l →
  0 ≤ lastCommitted r ≤ Z.of_nat (length (entries (log r))) →
  take (Z.to_nat (lastCommitted r)) (contents (log r)) = take (Z.to_nat (lastCommitted r)) (contents l) →
  from ≤ lastCommitted r + 1 → Dump from l = Ok es → es ≠ [] →
  ∃ l', install_log (LastOpnum l) es r = Ok (tt, r <| log := l' |>) ∧ dense l' ∧ start l' = 1 ∧ contents l' = contents l.
Proof.
  intros Hd Hs Hd2 Hs2 Hm Hlc Ht Hfrom Hdump Hne. rewrite (Dump_dense _ _ Hd2), Hs2 in Hdump. injection Hdump as <-.
  set (k := Z.to_nat (from - 1)) in *. destruct (drop k (entries l)) as [|e0 rest] eqn:Hk; [done|].
  assert (entries l !! k = Some e0) as He0 by (by rewrite <- (Nat.add_0_r k), <- lookup_drop, Hk).
  pose proof (dn_opnum _ Hd2 k e0 He0) as Hop0. pose proof (dn_bound _ Hd) as Hb. pose proof (dn_bound _ Hd2) as Hb2.
  apply lookup_lt_Some in He0 as Hlt.
  assert (LastOpnum l = Z.of_nat (length (entries l))) as Hlast by (rewrite (LastOpnum_dense _ Hd2); lia).
  unfold install_log. cbn [fmap list_fmap]. rewrite (bind_run get_st _ r r r) by done. cbn [lp_opnum to_proto].
  rewrite Hop0, (u64_incr_small (lastCommitted r)), Z.gtb_ltb, (proj2 (Z.ltb_ge _ _)) by lia.
  rewrite Hlast, u64_incr_small by lia.
  assert (RemoveAfter (Z.of_nat (length (entries l)) + 1) (log r) = Ok (log r <| entries ::= take (length (entries l)) |>)) as Hrm.
  { rewrite (RemoveAfter_dense _ _ Hd) by lia. do 4 f_equal. lia. }
  set (l1 := log r <| entries ::= take (length (entries l)) |>) in *.
  destruct (install_from l k l1) as (l' & Hinst & Hd' & Hs' & Hc').
  - by apply dense_take.
  - done.
  - simpl. lia.
  - by apply matching_take.
  - simpl. rewrite length_take. lia.
  - simpl. rewrite length_take. apply (f_equal length) in Ht. rewrite !length_take, !length_contents in Ht. lia.
  - unfold contents, l1. simpl. rewrite fmap_take, take_take, Nat.min_l by lia.
    apply (f_equal (take k)) in Ht. rewrite !take_take, !Nat.min_l in Ht by lia. exact Ht.
  - exists l'. split_and!; [|done|lia|done].
    erewrite bind_run by (unfold change_log, on_log; rewrite Hrm; reflexivity).
    rewrite Hk in Hinst. unfold change_log, on_log. cbn [fmap list_fmap] in Hinst. simpl (log _). rewrite Hinst. done.
Qed.

(** The other replicas take over the log of a new leader.  A replica that receives a
    [StartView] message with entries, for a view it may enter, whose log agrees with the leader's up
    to what it has executed and wherever both have an entry of the same view, afterwards has exactly
    the log of the leader, is in the new view, and has executed, in addition to what it had, what
    the leader had committed and it had not, in order and nothing twice. *)
Theorem vr_start_view_installs (r : VRReplica S) remote l from es v lead c :
  (view r < v ∨ view r = v ∧ status r = STATUS_VIEW_CHANGE) →
  GetLeaderIndex (configuration r) v = Ok lead → lead ≠ myIdx r →
  dense (log r) → start (log r) = 1 → dense l → start l = 1 → matching (log r) l →
  0 ≤ lastCommitted r ≤ Z.of_nat (length (entries (log r))) →
  take (Z.to_nat (lastCommitted r)) (contents (log r)) = take (Z.to_nat (lastCommitted r)) (contents l) →
  from ≤ lastCommitted r + 1 → Dump from l = Ok es → es ≠ [] → c ≤ LastOpnum l →
  wp (HandleStartView remote (MkStartView v (LastOpnum l) c es)) (λ _ r',
    view r' = v ∧ status r' = STATUS_NORMAL ∧ contents (log r') = contents l ∧ lastOp r' = LastOpnum l ∧
    lastCommitted r' = Z.max (lastCommitted r) c ∧
    executed r' = executed r ++ execution_of l (lastCommitted r) (lastCommitted r')) r.
Proof.
  intros Hv Hlead Hne Hd Hs Hd2 Hs2 Hm Hlc Ht Hfrom Hdump Hes Hc.
  assert (LastOpnum l = Z.of_nat (length (contents l))) as Hlast by (rewrite length_contents, (LastOpnum_dense _ Hd2); lia).
  destruct (install_log_ok r l from es) as (l' & Hinst & Hd' & Hs' & Hc'); [done..|].
  unfold HandleStartView. apply post_get. cbn [sv_view sv_lastOp sv_lastCommitted sv_entries].
  rewrite (proj2 (Z.ltb_ge v (view r))) by lia.
  assert ((v =? view r) && negb (bool_decide (status r = STATUS_VIEW_CHANGE)) = false) as ->.
  { destruct Hv as [Hv|[_ Hst]]; [by rewrite (proj2 (Z.eqb_neq v (view r))) by lia|]. by rewrite bool_decide_true, andb_false_r. }
  run_with Hinst. set (r1 := r <| log := l' |>).
  eapply post_bind_run.
  { unfold EnterView. erewrite bind_run by reflexivity.
    erewrite bind_run by (unfold AmLeader, LeaderOf, mbind, M_bind, get_st, lift_res; simpl; rewrite Hlead; reflexivity).
    simpl. rewrite (proj2 (Z.eqb_neq lead (myIdx r))) by done. reflexivity. }
  apply post_get. run. set (r2 := _ <| lastOp := LastOpnum l |>).
  assert (follows l v lead (executed r) (lastCommitted r) r2) as Hr2.
  { apply (f_equal length) in Ht. rewrite !length_take, !length_contents in Ht. split; simpl; try done.
    - rewrite Hlast, length_contents. lia.
    - unfold execution_of. rewrite drop_ge by (rewrite length_take; lia). simpl. by rewrite app_nil_r. }
  apply post_bind. eapply post_mono; [by apply (CommitUpTo_follows _ _ _ _ _ _ c Hr2)|]. intros u r3 (Hr3 & Hl3).
  eapply post_mono; [by apply (SendPrepareOKs_follows _ _ _ _ _ _ _ Hr3)|]. intros u' r4 (Hr4 & Hl4). destruct Hr4.
  split_and!; try done; [congruence|]. by rewrite Hl4, Hl3.
Qed.
End view_change.

(** ** Replicas that diverge *)

#[local] Existing Instance vr_demo_app.
#[local] Existing Instance vr_demo_network.
#[local] Existing Instance log_demo_hasher.
#[local] Existing Instance vr_demo_dangling.

Definition split_events : list (Z * vr_event) :=
  [(0, FromClient 9 (RequestMsg (MkRequest "a" 7 1)));
   (1, Fires ViewChangeTimer);
   (2, FromReplica 1 (StartViewChangeMsg (MkStartViewChange 1 1 0)));
   (1, FromReplica 2 (StartViewChangeMsg (MkStartViewChange 1 2 0)));
   (1, FromReplica 2 (DoViewChangeMsg (MkDoViewChange 1 0 0 0 [] 2)));
   (0, FromReplica 1 (StartViewMsg (MkStartView 1 0 0 [])));
   (1, FromClient 9 (RequestMsg (MkRequest "b" 8 1)));
   (0, FromReplica 1 (PrepareMsg (MkPrepare 1 1 1 [MkRequest "b" 8 1])));
   (1, FromReplica 0 (PrepareOKMsg (MkPrepareOK 1 1 0)));
   (0, FromReplica 1 (CommitMsg (MkCommit 1 1)))].

Definition split_system : Z → VRReplica Z := vr_demo_run split_events vr_demo_start.

Lemma split_step j e sys :
  run vr_demo_config sys → 0 ≤ j < 3 → occurs vr_demo_config sys j e →
  (if vr_handle e (sys j) is Ok _ then true else false) = true → run vr_demo_config (vr_demo_next j e sys).
Proof.
  intros Hs Hj He Hr. unfold vr_demo_next. destruct (vr_handle e (sys j)) as [[[] r']| |] eqn:Hrun; [|done..].
  by eapply run_step.
Qed.

(** The last step of the run is explained by [tac]; the [k]-th message that replica [i] sent arrives. *)
Ltac last_step tac := apply split_step; [|done|tac|vm_compute; reflexivity].
Ltac arrives i k := last_step ltac:(eapply (occurs_delivery _ _ i k); [done|vm_compute; reflexivity|done]).
Ltac asked := last_step ltac:(by apply occurs_normal, allowed_request).

Lemma split_run : run vr_demo_config split_system.
Proof.
  unfold split_system, split_events. cbn [vr_demo_run].
  arrives 1 4%nat. arrives 0 1%nat. arrives 1 2%nat. asked. arrives 1 1%nat. arrives 2 1%nat. arrives 2 0%nat. arrives 1 0%nat.
  last_step ltac:(by apply occurs_view_change). asked.
  apply run_start. intros j Hj. exists 1, 0. simpl in Hj. assert (j = 0 ∨ j = 1 ∨ j = 2) as [-> |[-> | -> ]] by lia; done.
Qed.

(** C35: A view change can make replicas disagree for good.  In a run of three replicas, of which
    none fails, replica 0 numbers a request whose batch is lost, the others start view 1 with an
    empty log, and replica 0 joins it: it keeps its entry, puts the batch of the new leader behind
    it, acknowledges it and, told to commit number 1, executes its old request where the leader
    executed the new one.  Both clients are told that their request has number 1. *)
Theorem vr_view_change_diverges :
  run vr_demo_config split_system ∧
  executed (split_system 0) = [(1, "a")] ∧ executed (split_system 1) = [(1, "b")] ∧
  view (split_system 0) = 1 ∧ view (split_system 1) = 1 ∧
  (∃ rep, (ToAddress (AtClient 9) (ReplyMsg rep), true) ∈ sends (split_system 0) ∧ rep_opnum rep = 1) ∧
  ∃ rep, (ToAddress (AtClient 9) (ReplyMsg rep), true) ∈ sends (split_system 1) ∧ rep_opnum rep = 1.
Proof.
  split; [exact split_run|]. do 4 (split; [reflexivity|]). split.
  - eexists. split; [apply (list_elem_of_lookup_2 _ 2%nat); vm_compute; reflexivity|reflexivity].
  - eexists. split; [apply (list_elem_of_lookup_2 _ 3%nat); vm_compute; reflexivity|reflexivity].
Qed.

(** ** Witnesses *)

(** Replica 1 changes to view 1; replica 2 has an operation that replica 1 does not have. *)
Definition vc_demo_replica : VRReplica Z := VRReplica_members vr_demo_config 1 1 0 <| view := 1 |> <| status := STATUS_VIEW_CHANGE |>.
Definition vc_demo_message : DoViewChangeMessage :=
  MkDoViewChange 1 0 1 0 [MkLogEntryProto 0 1 (MkRequest "a" 7 1) (Some LOG_STATE_PREPARED) (Some "")] 2.

Lemma vr_view_change_reads_freed_witness :
  HandleDoViewChange (AtReplica 2) vc_demo_message vc_demo_replica = Undefined.
Proof.
  apply (vr_view_change_reads_freed vc_demo_replica (AtReplica 2) vc_demo_message {[2 := vc_demo_message]}
    (MkQuorumSet 1 {[1 := {[2 := vc_demo_message]}]}) 2 vc_demo_message).
  - done.
  - reflexivity.
  - reflexivity.
  - vm_compute. reflexivity.
  - reflexivity.
  - right. split; [reflexivity|]. vm_compute. reflexivity.
Defined.

(** Replica 0 has an operation of view 0 that was lost; the leader of view 1 has two others and has
    committed the first. *)
Definition vc_demo_old : VRReplica Z :=
  VRReplica_members vr_demo_config 0 1 0 <| lastOp := 1 |> <| log := MkLog [log_demo_entry 0 1] "" 1 false |>.
Definition vc_demo_log : Log := MkLog [log_demo_entry 1 1; log_demo_entry 1 2] "" 1 false.

Lemma vr_start_view_installs_witness :
  wp (HandleStartView (AtReplica 1) (MkStartView 1 2 1 (to_proto <$> entries vc_demo_log))) (λ _ r',
    view r' = 1 ∧ status r' = STATUS_NORMAL ∧ contents (log r') = contents vc_demo_log ∧ lastOp r' = 2 ∧
    lastCommitted r' = 1 ∧
    executed r' = [] ++ execution_of vc_demo_log 0 (lastCommitted r')) vc_demo_old.
Proof.
  apply (vr_start_view_installs ltac:(by eauto) vc_demo_old (AtReplica 1) vc_demo_log 0 (to_proto <$> entries vc_demo_log) 1 1 1).
  - left. reflexivity.
  - reflexivity.
  - done.
  - by apply (log_demo_dense _ [0]).
  - reflexivity.
  - by apply (log_demo_dense _ [1; 1]).
  - reflexivity.
  - intros i e1 e2 H1 H2 Hv. destruct i as [|i]; [|done]. simplify_eq/=.
  - simpl. lia.
  - reflexivity.
  - simpl. lia.
  - reflexivity.
  - done.
  - vm_compute. done.
Defined.
