(* ===== verification/LockService.v ===== *)
(** The replicated lock service, the application of inconsistent replication that comes with it:
    [lockserver/server.h] and [server.cc], with the messages of [locks-proto.proto].

    A lock request is a consensus operation, an unlock request an inconsistent one.  The wire
    format is a parameter ([Codec]).  [Sync] computes the difference of two unordered sets with
    [std::set_difference], which is defined only when both ranges are sorted; the order in which a
    set is enumerated is a [HashOrder]. *)

From S2P Require Import StrongServer.
From S2P Require Import QuorumSet LRReplica.
From S2P Require Import Prelude IRRecord IRReplica.

(** ** Messages *)

Record Request := MkRequest { clientid : Z; key : string; type : bool }.

Record Reply := MkReply { rep_key : string; status : Z }.

(** ** The server *)

Record LockServer := MkLockServer { locks : gmap string Z }.

#[global] Instance LockServer_eta : Eta LockServer := λ s, MkLockServer (locks s).

Definition LockServer_new : LockServer := MkLockServer ∅.

(** What [Sync] gathers about a key. *)
Record KeyLockInfo := MkKeyLockInfo { locked : gset Z; unlocked : gset Z }.

#[global] Instance KeyLockInfo_eta : Eta KeyLockInfo := λ i, MkKeyLockInfo (locked i) (unlocked i).

Fixpoint ascending (l : list Z) : bool :=
  match l with [] => true | x :: l' => match l' with [] => true | y :: _ => (x <? y) && ascending l' end end.

(** [std::set_difference] on sorted ranges. *)
Definition set_difference (l1 l2 : list Z) : res (list Z) :=
  if ascending l1 && ascending l2 then Ok (filter (λ x, x ∉ l2) l1) else Undefined.

Section server.
Context `{HO : HashOrder} `{!Codec Request} `{!Codec Reply}.

Abbreviation MLK := (M LockServer).

Definition ExecInconsistentUpcall (str1 : string) : MLK unit :=
  let request : Request := ParseFromString str1 in
  if type request then mret tt
  else
    s ← get_st;
    match locks s !! key request with
    | Some c => when (clientid request =? c) (modify (λ s, s <| locks ::= delete (key request) |>))
    | None => mret tt
    end.

Definition ExecConsensusUpcall (str1 : string) : MLK string :=
  let request : Request := ParseFromString str1 in
  s ← get_st;
  st ← (if type request then
          match locks s !! key request with
          | None => _ ← modify (λ s, s <| locks ::= <[key request := clientid request]> |>); mret 0
          | Some c => mret (if c =? clientid request then 0 else -1)
          end
        else
          match locks s !! key request with
          | None => mret (-2)
          | Some c =>
              if c =? clientid request then _ ← modify (λ s, s <| locks ::= delete (key request) |>); mret 0
              else mret (-2)
          end);
  mret (SerializeToString (MkReply (key request) st)).

Definition UnloggedUpcall (str1 : string) : MLK string := mret "".

(** ** Sync *)

(** What an entry of the record says about its key. *)
Definition sync_entry (infos : gmap string KeyLockInfo) (p : opid_t * RecordEntry) : gmap string KeyLockInfo :=
  let request : Request := ParseFromString (req_op (e_request p.2)) in
  let reply : Reply := ParseFromString (e_result p.2) in
  let info := default (MkKeyLockInfo ∅ ∅) (infos !! key request) in
  let info' :=
    if type request && (status reply =? 0) then info <| locked ::= (λ x, {[clientid request]} ∪ x) |>
    else if negb (type request) && (status reply =? 0) then info <| unlocked ::= (λ x, {[clientid request]} ∪ x) |>
    else info in
  <[key request := info']> infos.

(** The elements of an unordered set. *)
Definition set_order (x : gset Z) : list Z := (hash_order (gset_to_gmap tt x)).*1.

Definition Sync (record : gmap opid_t RecordEntry) : MLK unit :=
  _ ← modify (λ s, s <| locks := ∅ |>);
  for_each (hash_order (foldl sync_entry ∅ (in_order record))) (λ p,
    diff ← lift_res (set_difference (set_order (locked p.2)) (set_order (unlocked p.2)));
    match diff with
    | [client_id] => modify (λ s, s <| locks ::= <[p.1 := client_id]> |>)
    | _ => mret tt
    end).

(** ** Merge *)

(** The loop over [d]: a lock that a majority granted is granted if it is free. *)
Fixpoint merge_decided (majority_results_in_d : gmap opid_t string) (l : list (opid_t * list RecordEntry))
    (results : gmap opid_t string) : MLK (gmap opid_t string) :=
  match l with
  | [] => mret results
  | (opid, entries) :: l' =>
      entry ← deref (head entries);
      let request : Request := ParseFromString (req_op (e_request entry)) in
      result ← deref (majority_results_in_d !! opid);
      let reply : Reply := ParseFromString result in
      if status reply =? 0 then
        s ← get_st;
        match locks s !! rep_key reply with
        | None =>
            _ ← modify (λ s, s <| locks ::= <[rep_key reply := clientid request]> |>);
            merge_decided majority_results_in_d l' (<[opid := result]> results)
        | Some _ =>
            merge_decided majority_results_in_d l' (<[opid := SerializeToString (MkReply (rep_key reply) (-1))]> results)
        end
      else merge_decided majority_results_in_d l' (<[opid := result]> results)
  end.

(** The loop over [u]: everything else is refused. *)
Fixpoint merge_undecided (l : list (opid_t * list RecordEntry)) (results : gmap opid_t string) : MLK (gmap opid_t string) :=
  match l with
  | [] => mret results
  | (opid, entries) :: l' =>
      entry ← deref (head entries);
      let request : Request := ParseFromString (req_op (e_request entry)) in
      merge_undecided l' (<[opid := SerializeToString (MkReply (key request) (-1))]> results)
  end.

Definition Merge (d u : gmap opid_t (list RecordEntry)) (majority_results_in_d : gmap opid_t string) :
    MLK (gmap opid_t string) :=
  results ← merge_decided majority_results_in_d (in_order d) ∅;
  merge_undecided (in_order u) results.

#[global] Instance LockServer_AppReplica : IRAppReplica LockServer := {|
  IRReplica.ExecInconsistentUpcall := ExecInconsistentUpcall;
  IRReplica.ExecConsensusUpcall := ExecConsensusUpcall;
  IRReplica.UnloggedUpcall := UnloggedUpcall;
  IRReplica.Sync := Sync;
  IRReplica.Merge := Merge
|}.

(** ** Merging *)

Context `{!CodecLaw Reply}.

Definition granted (res : string) : Prop := status (ParseFromString res : Reply) = 0.
Definition granted_key (res : string) : string := rep_key (ParseFromString res : Reply).
Definition asked_by (e : RecordEntry) : Z := clientid (ParseFromString (req_op (e_request e)) : Request).

(** The results so far grant locks that were free at the beginning, each to one client, who has
    it now. *)
Record merge_ok (s0 : LockServer) (d : gmap opid_t (list RecordEntry)) (results : gmap opid_t string) (s : LockServer) : Prop := {
  mo_locks : locks s0 ⊆ locks s;
  mo_granted : ∀ o res, results !! o = Some res → granted res →
    locks s0 !! granted_key res = None ∧
    ∃ e es, d !! o = Some (e :: es) ∧ locks s !! granted_key res = Some (asked_by e);
  mo_once : ∀ o1 o2 r1 r2, results !! o1 = Some r1 → results !! o2 = Some r2 → granted r1 → granted r2 →
    granted_key r1 = granted_key r2 → o1 = o2
}.

Lemma merge_ok_refused s0 d results s o res :
  merge_ok s0 d results s → ¬ granted res → merge_ok s0 d (<[o := res]> results) s.
Proof.
  intros [Hl Hg Ho] Hr. split; [done| |].
  - intros o' res' [[<- <-]|[_ Hin]]%lookup_insert_Some Hgr; [done|by apply Hg].
  - intros o1 o2 r1 r2 [[<- <-]|[_ H1]]%lookup_insert_Some [[<- <-]|[_ H2]]%lookup_insert_Some; try done. by apply Ho.
Qed.

Lemma merge_ok_granted s0 d results s o res e es :
  merge_ok s0 d results s → results !! o = None → d !! o = Some (e :: es) → locks s !! granted_key res = None →
  merge_ok s0 d (<[o := res]> results) (s <| locks ::= <[granted_key res := asked_by e]> |>).
Proof.
  intros [Hl Hg Ho] Hnew Hd Hfree.
  assert (∀ o' r', results !! o' = Some r' → granted r' → granted_key r' ≠ granted_key res) as Hne.
  { intros o' r' Hr' Hgr Hk. destruct (Hg o' r' Hr' Hgr) as (_ & e' & es' & _ & Hlk). rewrite Hk in Hlk. congruence. }
  split; simpl.
  - etrans; [done|]. by apply insert_subseteq.
  - intros o' r' [[<- <-]|[_ Hin]]%lookup_insert_Some Hgr.
    + split; [|exists e, es; by rewrite lookup_insert_eq].
      destruct (locks s0 !! granted_key res) as [c|] eqn:Hc; [|done]. eapply lookup_weaken in Hc; [|done]. congruence.
    + destruct (Hg o' r' Hin Hgr) as (Hn & e' & es' & Hd' & Hlk). split; [done|]. exists e', es'. split; [done|].
      rewrite lookup_insert_ne; [done|]. by apply not_eq_sym, (Hne o').
  - intros o1 o2 r1 r2 [[<- <-]|[_ H1]]%lookup_insert_Some [[<- <-]|[_ H2]]%lookup_insert_Some Hg1 Hg2 Hk; try done.
    + by destruct (Hne o2 r2 H2 Hg2).
    + by destruct (Hne o1 r1 H1 Hg1).
    + by apply (Ho o1 o2 r1 r2).
Qed.

Lemma refusal_not_granted k : ¬ granted (SerializeToString (MkReply k (-1))).
Proof. unfold granted. rewrite parse_serialize. done. Qed.

Lemma merge_decided_ok maj s0 d l : ∀ results s,
  NoDup l.*1 → (∀ o es, (o, es) ∈ l → d !! o = Some es ∧ results !! o = None) → merge_ok s0 d results s →
  wlp (merge_decided maj l results) (λ results' s', merge_ok s0 d results' s') s.
Proof.
  induction l as [|[o entries] l IH]; intros results s Hnd Hl Hok; [done|]. cbn [merge_decided].
  apply NoDup_cons in Hnd as [Ho Hnd]. destruct (Hl o entries) as [Hd Hnew]; [set_solver|].
  assert (∀ r' o' es, (o', es) ∈ l → d !! o' = Some es ∧ <[o := r']> results !! o' = None) as Hl'.
  { intros r' o' es Hin. destruct (Hl o' es) as [? ?]; [set_solver|]. split; [done|]. rewrite lookup_insert_ne; [done|].
    intros ->. apply Ho. apply list_elem_of_fmap. by exists (o', es). }
  apply wlp_bind_deref. intros e He. destruct entries as [|e' es]; [done|]. injection He as ->.
  apply wlp_bind_deref. intros result _. destruct (Z.eqb_spec (status (ParseFromString result : Reply)) 0) as [Hst|Hst].
  - apply post_get. destruct (locks s !! _) as [c|] eqn:Hlk.
    + apply IH; [done|by apply Hl'|]. apply merge_ok_refused; [done|apply refusal_not_granted].
    + run. apply IH; [done|by apply Hl'|]. by eapply merge_ok_granted.
  - apply IH; [done|by apply Hl'|]. by apply merge_ok_refused.
Qed.

Lemma merge_undecided_ok s0 d l : ∀ results s,
  merge_ok s0 d results s → wlp (merge_undecided l results) (λ results' s', merge_ok s0 d results' s') s.
Proof.
  induction l as [|[o entries] l IH]; intros results s Hok; [done|]. cbn [merge_undecided].
  apply wlp_bind_deref. intros e _. apply IH. apply merge_ok_refused; [done|apply refusal_not_granted].
Qed.

(** C24: A view change grants a lock to one client at most.  Whatever the replicas' records say, the
    results that the merge of the lock service returns grant only locks that were free, to the
    client who asked for them and who holds them afterwards; no two operations are granted the
    same lock, and no lock that was held changes its holder.  The merge returns whenever every
    operation has an entry and every decided one a result. *)
Theorem lock_merge_exclusive (s : LockServer) (d u : gmap opid_t (list RecordEntry)) (maj : gmap opid_t string) :
  (∀ o es, d !! o = Some es → es ≠ [] ∧ is_Some (maj !! o)) → (∀ o es, u !! o = Some es → es ≠ []) →
  ∃ results s', Merge d u maj s = Ok (results, s') ∧ locks s ⊆ locks s' ∧
    (∀ o res, results !! o = Some res → granted res → locks s !! granted_key res = None ∧
       ∃ e es, d !! o = Some (e :: es) ∧ locks s' !! granted_key res = Some (asked_by e)) ∧
    ∀ o1 o2 r1 r2, results !! o1 = Some r1 → results !! o2 = Some r2 → granted r1 → granted r2 →
      granted_key r1 = granted_key r2 → o1 = o2.
Proof.
  intros Hd Hu.
  assert (∀ l results s, (∀ o es, (o, es) ∈ l → es ≠ [] ∧ is_Some (maj !! o)) →
    ∃ results' s', merge_decided maj l results s = Ok (results', s')) as Hrun.
  { induction l as [|[o es] l IH]; intros results s1 Hl; [by eexists _, _|]. destruct (Hl o es) as [Hes [r Hr]]; [set_solver|].
    destruct es as [|e es]; [done|]. cbn [merge_decided head deref]. rewrite Hr. unfold mbind, M_bind. simpl.
    destruct (_ =? 0); [destruct (locks s1 !! _)|]; (apply IH; intros o' es' ?; apply Hl; set_solver). }
  assert (∀ l results s, (∀ o es, (o, es) ∈ l → es ≠ []) →
    ∃ results' s', merge_undecided l results s = Ok (results', s')) as Hrun'.
  { induction l as [|[o es] l IH]; intros results s1 Hl; [by eexists _, _|]. pose proof (Hl o es ltac:(set_solver)) as Hes.
    destruct es as [|e es]; [done|]. apply IH. intros o' es' ?. apply (Hl o'). set_solver. }
  destruct (Hrun (in_order d) ∅ s) as (r1 & s1 & H1); [intros o es Hin%elem_of_in_order; by apply Hd|].
  destruct (Hrun' (in_order u) r1 s1) as (r2 & s2 & H2); [intros o es Hin%elem_of_in_order; by apply (Hu o)|].
  assert (merge_ok s d r1 s1) as Hok1.
  { pose proof (merge_decided_ok maj s d (in_order d) ∅ s) as Hp. unfold post in Hp. rewrite H1 in Hp. apply Hp.
    - apply in_order_NoDup.
    - intros o es Hin%elem_of_in_order. by rewrite lookup_empty.
    - split; [done|intros o res; by rewrite lookup_empty|intros o1 o2 ? ?; by rewrite lookup_empty]. }
  pose proof (merge_undecided_ok s d (in_order u) r1 s1 Hok1) as Hok2. unfold post in Hok2. rewrite H2 in Hok2.
  exists r2, s2. destruct Hok2 as [Hl Hg Ho]. split_and!; [|done..]. unfold Merge, mbind, M_bind. by rewrite H1.
Qed.

(** ** Synchronising *)

Lemma elem_of_set_order (x : gset Z) c : c ∈ set_order x ↔ c ∈ x.
Proof.
  unfold set_order. rewrite list_elem_of_fmap. split.
  - intros ([c' []] & -> & Hin%elem_of_hash_order). by apply lookup_gset_to_gmap_Some in Hin as [? _].
  - intros Hc. exists (c, tt). split; [done|]. apply elem_of_hash_order. by apply lookup_gset_to_gmap_Some.
Qed.

(** What an entry says is not forgotten. *)
Lemma sync_entry_mono infos p k c :
  (∃ info, infos !! k = Some info ∧ c ∈ unlocked info) → ∃ info, sync_entry infos p !! k = Some info ∧ c ∈ unlocked info.
Proof.
  intros (info & Hi & Hc). unfold sync_entry. set (request := ParseFromString _ : Request). set (rep := ParseFromString _ : Reply).
  destruct (decide (key request = k)) as [->|Hne]; [|rewrite lookup_insert_ne by done; eauto].
  rewrite lookup_insert_eq, Hi. eexists. split; [done|]. simpl.
  destruct (type request && _); [done|]. destruct (negb _ && _); [simpl; set_solver|done].
Qed.

Lemma sync_entries_unlocked l o e c k : ∀ infos,
  (o, e) ∈ l → ParseFromString (req_op (e_request e)) = MkRequest c k false → granted (e_result e) →
  ∃ info, foldl sync_entry infos l !! k = Some info ∧ c ∈ unlocked info.
Proof.
  induction l as [|p l IH]; intros infos Hin Hreq Hg; [set_solver|]. apply elem_of_cons in Hin as [<-|Hin]; [|by apply IH].
  simpl. assert (∃ info, sync_entry infos (o, e) !! k = Some info ∧ c ∈ unlocked info) as Hfirst.
  { unfold sync_entry. simpl. rewrite Hreq. simpl. rewrite lookup_insert_eq. eexists. split; [done|].
    unfold granted in Hg. rewrite Hg. simpl. set_solver. }
  clear IH Hreq Hg. revert Hfirst. generalize (sync_entry infos (o, e)). induction l as [|p l IHl]; intros m Hm; [done|].
  simpl. apply IHl. by apply sync_entry_mono.
Qed.

(** A view change takes a lock away from a client that had released it before.  A server that
    executes a lock request, an unlock request and again a lock request of one client for a free key
    grants the last one and has the client as its holder; but after [Sync] of any record that
    contains the unlock request as successful, the client does not hold the lock, however often and
    when it locked it. *)
Theorem lock_sync_forgets_relock (c : Z) (k lock unlock : string) :
  ParseFromString lock = MkRequest c k true → ParseFromString unlock = MkRequest c k false →
  (∀ s, locks s !! k = None → ∃ s',
     (_ ← ExecConsensusUpcall lock; _ ← ExecInconsistentUpcall unlock; ExecConsensusUpcall lock) s =
       Ok (SerializeToString (MkReply k 0), s') ∧ locks s' !! k = Some c) ∧
  ∀ record o e s s', record !! o = Some e → req_op (e_request e) = unlock → granted (e_result e) →
    Sync record s = Ok (tt, s') → locks s' !! k ≠ Some c.
Proof.
  intros Hl Hu. split.
  - intros s Hs. unfold ExecConsensusUpcall, ExecInconsistentUpcall. rewrite Hl, Hu. unfold mbind, M_bind, get_st. simpl.
    rewrite Hs. simpl. rewrite lookup_insert_eq, Z.eqb_refl. simpl. rewrite lookup_delete_eq. eexists. split; [done|].
    simpl. apply lookup_insert_eq.
  - intros record o e s s' He Hreq Hg Hrun.
    destruct (sync_entries_unlocked (in_order record) o e c k ∅) as (info & Hinfo & Hc);
      [by apply elem_of_in_order|by rewrite Hreq|done|].
    assert (wlp (Sync record) (λ _ s', locks s' !! k ≠ Some c) s) as Hpost; [|unfold post in Hpost; by rewrite Hrun in Hpost].
    unfold Sync. run. apply post_for_each; [simpl; by rewrite lookup_empty|].
    intros [k' info'] s1 Hin%elem_of_hash_order HI. simpl. apply wlp_bind_lift. intros diff Hdiff.
    unfold set_difference in Hdiff. destruct (_ && _); [|done]. injection Hdiff as <-.
    destruct (filter _ _) as [|c' [|? ?]] eqn:Hf; [done| |done]. unfold post, modify. simpl.
    rewrite lookup_insert. case_decide as Hk; [|done]. subst k'. intros [= ->].
    assert (c ∈ [c]) as Hcin by set_solver. rewrite <- Hf in Hcin. apply list_elem_of_filter in Hcin as [Hno _].
    apply Hno, elem_of_set_order. congruence.
Qed.
End server.

(** ** Witnesses *)

(** A wire format; what does not parse is the message with the default values. *)
Definition lock_request_codec : Codec Request := {|
  SerializeToString r := digits (encode (clientid r, key r, type r));
  ParseFromString s := default (MkRequest 0 "" false) ((λ '(c, k, t), MkRequest c k t) <$> decode (undigits s))
|}.

Definition lock_reply_codec : Codec Reply := {|
  SerializeToString r := digits (encode (rep_key r, status r));
  ParseFromString s := default (MkReply "" 0) ((λ p, MkReply p.1 p.2) <$> decode (undigits s))
|}.

Lemma lock_request_codec_law : CodecLaw Request (Codec0 := lock_request_codec).
Proof. intros []. simpl. by rewrite undigits_digits, decode_encode. Qed.

Lemma lock_reply_codec_law : CodecLaw Reply (Codec0 := lock_reply_codec).
Proof. intros []. simpl. by rewrite undigits_digits, decode_encode. Qed.

#[local] Existing Instances lock_request_codec lock_reply_codec lock_request_codec_law lock_reply_codec_law default_order.

Definition lock_demo_op (c : Z) (k : string) (t : bool) : string := SerializeToString (MkRequest c k t).
Definition lock_demo_ok (k : string) : string := SerializeToString (MkReply k 0).
Definition lock_demo_record (o : opid_t) (t : RecordEntryType) (op result : string) : RecordEntry :=
  MkRecordEntry 1 o RECORD_STATE_FINALIZED t (IRRecord.MkRequest op o.1 o.2) result.

(** Clients 5 and 6 were both granted [k] by a majority, client 7 asked for it too. *)
Definition lock_demo_d : gmap opid_t (list RecordEntry) :=
  {[(5, 1) := [lock_demo_record (5, 1) RECORD_TYPE_CONSENSUS (lock_demo_op 5 "k" true) (lock_demo_ok "k")];
    (6, 1) := [lock_demo_record (6, 1) RECORD_TYPE_CONSENSUS (lock_demo_op 6 "k" true) (lock_demo_ok "k")]]}.
Definition lock_demo_u : gmap opid_t (list RecordEntry) :=
  {[(7, 1) := [lock_demo_record (7, 1) RECORD_TYPE_CONSENSUS (lock_demo_op 7 "k" true) ""]]}.
Definition lock_demo_majority : gmap opid_t string := {[(5, 1) := lock_demo_ok "k"; (6, 1) := lock_demo_ok "k"]}.

Lemma lock_merge_exclusive_witness :
  ∃ results s', Merge lock_demo_d lock_demo_u lock_demo_majority LockServer_new = Ok (results, s') ∧ ∅ ⊆ locks s' ∧
    (∀ o res, results !! o = Some res → granted res → locks LockServer_new !! granted_key res = None ∧
       ∃ e es, lock_demo_d !! o = Some (e :: es) ∧ locks s' !! granted_key res = Some (asked_by e)) ∧
    ∀ o1 o2 r1 r2, results !! o1 = Some r1 → results !! o2 = Some r2 → granted r1 → granted r2 →
      granted_key r1 = granted_key r2 → o1 = o2.
Proof.
  apply (lock_merge_exclusive LockServer_new lock_demo_d lock_demo_u lock_demo_majority).
  - intros o es H. unfold lock_demo_d in H. apply lookup_insert_Some in H as [[<- <-]|[_ H]]; [by split; [|eexists]|].
    apply lookup_singleton_Some in H as [<- <-]. by split; [|eexists].
  - intros o es H. unfold lock_demo_u in H. by apply lookup_singleton_Some in H as [<- <-].
Defined.

(** Client 5 locks, unlocks and locks [k] again. *)
Definition lock_demo_history : gmap opid_t RecordEntry :=
  {[(5, 1) := lock_demo_record (5, 1) RECORD_TYPE_CONSENSUS (lock_demo_op 5 "k" true) (lock_demo_ok "k");
    (5, 2) := lock_demo_record (5, 2) RECORD_TYPE_INCONSISTENT (lock_demo_op 5 "k" false) "";
    (5, 3) := lock_demo_record (5, 3) RECORD_TYPE_CONSENSUS (lock_demo_op 5 "k" true) (lock_demo_ok "k")]}.

Lemma lock_sync_forgets_relock_witness :
  (∃ s', (_ ← ExecConsensusUpcall (lock_demo_op 5 "k" true); _ ← ExecInconsistentUpcall (lock_demo_op 5 "k" false);
          ExecConsensusUpcall (lock_demo_op 5 "k" true)) LockServer_new = Ok (lock_demo_ok "k", s') ∧
     locks s' !! "k" = Some 5) ∧
  ∃ s', Sync lock_demo_history LockServer_new = Ok (tt, s') ∧ locks s' !! "k" ≠ Some 5.
Proof.
  destruct (lock_sync_forgets_relock 5 "k" (lock_demo_op 5 "k" true) (lock_demo_op 5 "k" false)) as [H1 H2].
  - apply lock_request_codec_law.
  - apply lock_request_codec_law.
  - split; [by apply H1|]. eexists. split; [vm_compute; reflexivity|].
    eapply (H2 lock_demo_history (5, 2) _ LockServer_new); [reflexivity|reflexivity|vm_compute; reflexivity|vm_compute; reflexivity].
Defined.
