(* ===== verification/LockClient.v ===== *)
(** The client of the replicated lock service: [lockserver/client.h] and [client.cc].

    The thread of the application posts a request and waits for its promise; the network thread
    sends it through the client of inconsistent replication and runs the callbacks.  A posted
    request is a step of its own, and so is the end of a wait; the steps of the two threads come
    in any order.

    The mutual exclusion of the service is proved for three replicas, for which [Decide] is
    written, while no view is changed and nobody unlocks: the histories of the replicas are
    arbitrary otherwise, and so is the order in which their replies arrive. *)

From S2P Require Import StrongServer.
From S2P Require Import QuorumSet LRReplica.
From S2P Require Import Prelude Timestamp Transaction Promise BufferClient.
From S2P Require Import IRRecord IRReplica IRClient LockService.

(** A request posted to the network thread. *)
Inductive lock_task := TaskLock (request_str : string) | TaskUnlock (request_str : string).

(** The function a request was bound to. *)
Inductive lock_callback := OnLock | OnUnlock.

Record LockClient := MkLockClient {
  client_id : Z;
  client : IRClient;
  waiting : option address;
  promises : gmap address Promise;
  next_promise : address;
  posted : list lock_task;
  bound : gmap Z lock_callback
}.

#[global] Instance LockClient_eta : Eta LockClient := λ c,
  MkLockClient (client_id c) (client c) (waiting c) (promises c) (next_promise c) (posted c) (bound c).

(** [id] is the random number drawn. *)
Definition LockClient_new (config : Configuration) (id : Z) : LockClient :=
  MkLockClient id (IRClient_new config id) None ∅ 0%nat [] ∅.

Section client.
Context `{!Network} `{!Codec Request} `{!Codec Reply}.

Abbreviation MLC := (M LockClient).

(** ** The application *)

Definition new_waiting : MLC unit :=
  modify (λ c, c <| promises ::= <[next_promise c := Promise_ms 1000]> |> <| waiting := Some (next_promise c) |>
                 <| next_promise ::= S |>).

Definition lock_async (key : string) : MLC unit :=
  c ← get_st;
  let request_str := SerializeToString (MkRequest (client_id c) key true) in
  _ ← new_waiting;
  modify (λ c, c <| posted ::= (λ l, l ++ [TaskLock request_str]) |>).

Definition unlock_async (key : string) : MLC unit :=
  c ← get_st;
  let request_str := SerializeToString (MkRequest (client_id c) key false) in
  _ ← new_waiting;
  modify (λ c, c <| posted ::= (λ l, l ++ [TaskUnlock request_str]) |>).

(** [waiting->GetReply()] follows the pointer and then waits. *)
Definition wait_begin : MLC address := c ← get_st; deref (waiting c).

(** [delete waiting; waiting = nullptr] after the wait, if it is over. *)
Definition wait_end (l : address) : MLC (option Z) :=
  c ← get_st;
  p ← deref (promises c !! l);
  match GetReply p with
  | None => mret None
  | Some status =>
      _ ← modify (λ c, c <| promises ::= (λ m, match waiting c with Some l' => delete l' m | None => m end) |>
                         <| waiting := None |>);
      mret (Some status)
  end.

Definition lock_wait_end (l : address) : MLC (option bool) :=
  r ← wait_end l; mret ((λ status, status =? 0) <$> r).

Definition unlock_wait_end (l : address) : MLC (option unit) := r ← wait_end l; mret ((λ _, tt) <$> r).

(** ** The network thread *)

(** The results come in the order of strings; the count is an [int]. *)
Definition Decide (results : result_set_t) : string :=
  let l := merge_sort string_key_le (map_to_list results) in
  let success_count := foldl (λ n p, if status (ParseFromString p.1 : Reply) =? 0 then to_int (n + p.2) else n) 0 l in
  let key := foldl (λ _ p, rep_key (ParseFromString p.1 : Reply)) "" l in
  SerializeToString (MkReply key (if success_count >=? 2 then 0 else -1)).

(** [w = waiting; waiting = NULL; w->Reply(status)]. *)
Definition answer_waiting (status : Z) : MLC unit :=
  c ← get_st;
  l ← deref (waiting c);
  _ ← modify (λ c, c <| waiting := None |>);
  p ← deref (promises c !! l);
  modify (λ c, c <| promises ::= <[l := Promise.Reply status p]> |>).

Definition LockCallback (reply_str : string) : MLC unit := answer_waiting (status (ParseFromString reply_str : Reply)).

Definition UnlockCallback (reply_str : string) : MLC unit := answer_waiting 0.

Definition ErrorCallback (err : ErrorCode) : MLC unit := answer_waiting (-3).

Definition callback (x : ir_call) : MLC unit :=
  c ← get_st;
  match x with
  | Continue reqId _ reply_str =>
      match bound c !! reqId with
      | Some OnLock => LockCallback reply_str
      | Some OnUnlock => UnlockCallback reply_str
      | None => undefined
      end
  | ContinueError _ _ err => ErrorCallback err
  end.

(** The replication client handles an event and calls what is to be called. *)
Definition client_do (e : ir_client_event) : MLC unit := λ c,
  match ir_client_handle e (client c <| calls := [] |>) with
  | Ok (_, ic) => for_each (calls ic) callback (c <| client := ic <| calls := [] |> |>)
  | Panic => Panic
  | Undefined => Undefined
  end.

(** The function is bound to the next request number. *)
Definition bind_next (f : lock_callback) : MLC unit :=
  modify (λ c, c <| bound ::= <[u64_incr (lastReqId (client c)) := f]> |>).

Definition run_task (t : lock_task) : MLC unit :=
  match t with
  | TaskLock request_str => _ ← bind_next OnLock; client_do (EvInvokeConsensus request_str Decide true)
  | TaskUnlock request_str => _ ← bind_next OnUnlock; client_do (EvInvokeInconsistent request_str)
  end.

(** What the network thread does next: a posted request, a message or a timer. *)
Inductive lock_event := Posted | Event (e : ir_client_event).

Definition network_step (e : lock_event) : MLC unit :=
  match e with
  | Posted =>
      c ← get_st;
      match posted c with
      | [] => mret tt
      | t :: l => _ ← modify (λ c, c <| posted := l |>); run_task t
      end
  | Event e => client_do e
  end.

(** [lock(key)] with the steps of the network thread before the pointer is read and during the
    wait. *)
Definition lock (key : string) (before during : list lock_event) : MLC (option bool) :=
  _ ← lock_async key;
  _ ← for_each before network_step;
  l ← wait_begin;
  _ ← for_each during network_step;
  lock_wait_end l.

Definition unlock (key : string) (before during : list lock_event) : MLC (option unit) :=
  _ ← unlock_async key;
  _ ← for_each before network_step;
  l ← wait_begin;
  _ ← for_each during network_step;
  unlock_wait_end l.
End client.

(** ** Counting *)

Section counting.
Context `{!Codec Reply}.

Definition successful (res : string) : bool := status (ParseFromString res : Reply) =? 0.

Definition successes (l : list (string * Z)) : Z := foldr (λ p n, (if successful p.1 then p.2 else 0) + n) 0 l.

Lemma successes_perm l l' : l ≡ₚ l' → successes l = successes l'.
Proof. induction 1; simpl; lia. Qed.

Lemma successes_nonneg l : (∀ p, p ∈ l → 0 ≤ p.2) → 0 ≤ successes l.
Proof.
  induction l as [|p l IH]; intros Hl; simpl; [lia|]. pose proof (Hl p ltac:(set_solver)). specialize (IH ltac:(set_solver)).
  destruct (successful p.1); lia.
Qed.

(** The [int] of [Decide]. *)
Lemma success_count_spec l : ∀ n, (∀ p, p ∈ l → 0 ≤ p.2) → 0 ≤ n → n + successes l < 2 ^ 31 →
  foldl (λ n p, if status (ParseFromString p.1 : Reply) =? 0 then to_int (n + p.2) else n) n l = n + successes l.
Proof.
  induction l as [|p l IH]; intros n Hl Hn Hb; simpl in *; [lia|].
  change (status (ParseFromString p.1) =? 0) with (successful p.1).
  pose proof (Hl p ltac:(set_solver)) as Hp. pose proof (successes_nonneg l ltac:(set_solver)).
  destruct (successful p.1); [rewrite to_int_small by lia|]; rewrite IH; try lia; set_solver.
Qed.

Lemma successes_increment (m : gmap string Z) x :
  successes (map_to_list (<[x := default 0 (m !! x) + 1]> m)) = successes (map_to_list m) + if successful x then 1 else 0.
Proof.
  destruct (m !! x) as [k|] eqn:Hx; simpl.
  - rewrite <- insert_delete_eq. rewrite (successes_perm _ _ (map_to_list_insert _ _ _ (lookup_delete_eq m x))).
    rewrite <- (successes_perm _ _ (map_to_list_delete m x k Hx)). simpl. destruct (successful x); lia.
  - rewrite (successes_perm _ _ (map_to_list_insert _ _ _ Hx)). simpl. destruct (successful x); lia.
Qed.

(** The number of successful results is the number of replicas that sent one. *)
Lemma successes_replies (msgs : gmap Z ReplyConsensusMessage) :
  successes (map_to_list (count_replies msgs)) = Z.of_nat (size (filter (λ p, successful (rc_result p.2) = true) msgs)) ∧
  ∀ p, p ∈ map_to_list (count_replies msgs) → 0 ≤ p.2.
Proof.
  unfold count_replies. set (l := merge_sort _ _). assert (l ≡ₚ map_to_list msgs) as Hl by apply merge_sort_Permutation.
  rewrite <- length_filter_map, <- Hl. clear Hl. clearbody l.
  assert (successes (map_to_list (foldl (λ m p, <[rc_result p.2 := default 0 (m !! rc_result p.2) + 1]> m) (∅ : gmap string Z) l)) =
      Z.of_nat (length (filter (λ p, successful (rc_result p.2) = true) l)) ∧
    ∀ x, 0 ≤ default 0 (foldl (λ m p, <[rc_result p.2 := default 0 (m !! rc_result p.2) + 1]> m) (∅ : gmap string Z) l !! x)) as [Hs Hn].
  { induction l as [|p l [IH IHn]] using rev_ind; [simpl; by rewrite map_to_list_empty|].
    rewrite foldl_app. cbn [foldl]. rewrite successes_increment, IH, filter_app, length_app, filter_cons. split.
    - case_decide as E; [rewrite E|apply not_true_is_false in E; rewrite E]; simpl; lia.
    - intros x. rewrite lookup_insert. case_decide; [simpl; specialize (IHn (rc_result p.2)); lia|apply IHn]. }
  split; [done|]. intros [x k] Hx%elem_of_map_to_list. specialize (Hn x). by rewrite Hx in Hn.
Qed.
End counting.

(** ** Mutual exclusion *)

Section exclusion.
Context `{HO : HashOrder} `{!Network} `{!Codec Request} `{!Codec Reply} `{!CodecLaw Reply}.
Implicit Types (hist : list (bool * string)) (c : Z) (k : string).

(** What a replica executed: consensus and inconsistent operations. *)
Definition lock_exec (x : bool * string) (s : LockServer) : LockServer :=
  match (if x.1 then _ ← ExecConsensusUpcall x.2; mret tt else ExecInconsistentUpcall x.2) s with Ok (_, s') => s' | _ => s end.

Definition server_after hist : LockServer := foldl (λ s x, lock_exec x s) LockServer_new hist.

(** The replica answered request [rq] with [res]. *)
Definition answered hist (rq res : string) : Prop :=
  ∃ h1 h2 s', hist = h1 ++ (true, rq) :: h2 ∧ ExecConsensusUpcall rq (server_after h1) = Ok (res, s').

Definition never_unlocked k hist : Prop :=
  ∀ x, x ∈ hist → let request : Request := ParseFromString x.2 in key request = k → type request = true.

(** A held lock stays held. *)
Lemma lock_exec_keeps k c x s :
  (let request : Request := ParseFromString x.2 in key request = k → type request = true) →
  locks s !! k = Some c → locks (lock_exec x s) !! k = Some c.
Proof.
  intros Hx Hs. unfold lock_exec, ExecConsensusUpcall, ExecInconsistentUpcall, mbind, M_bind, get_st.
  set (request := ParseFromString x.2 : Request) in *. destruct x.1; simpl.
  - destruct (decide (key request = k)) as [<-|Hne].
    + rewrite (Hx eq_refl), Hs. by destruct (c =? clientid request).
    + destruct (type request); destruct (locks s !! key request) as [c'|]; simpl; try done.
      * by rewrite lookup_insert_ne.
      * destruct (c' =? clientid request); simpl; [by rewrite lookup_delete_ne|done].
  - destruct (type request) eqn:Ht; [done|]. destruct (locks s !! key request) as [c'|] eqn:Hl; [|done].
    destruct (clientid request =? c'); [simpl|done]. rewrite lookup_delete_ne; [done|]. intros Hk. specialize (Hx Hk). congruence.
Qed.

Lemma server_after_keeps k c hist s :
  never_unlocked k hist → locks s !! k = Some c → locks (foldl (λ s x, lock_exec x s) s hist) !! k = Some c.
Proof.
  revert s. induction hist as [|x hist IH]; intros s Hh Hs; [done|]. simpl. apply IH; [intros y Hy; apply Hh; set_solver|].
  apply lock_exec_keeps; [|done]. intros. apply Hh; [set_solver|done].
Qed.

(** A client that was told it has the lock has it. *)
Lemma answered_holder k c hist rq res :
  never_unlocked k hist → ParseFromString rq = MkRequest c k true → answered hist rq res → successful res = true →
  locks (server_after hist) !! k = Some c.
Proof.
  intros Hh Hrq (h1 & h2 & s' & -> & Hrun) Hok. unfold server_after. rewrite foldl_app. simpl. fold (server_after h1).
  apply server_after_keeps; [intros x Hx; apply Hh; set_solver|].
  unfold lock_exec. simpl. unfold mbind at 1, M_bind at 1. rewrite Hrun. simpl.
  unfold ExecConsensusUpcall, mbind, M_bind, get_st in Hrun. rewrite Hrq in Hrun. simpl in Hrun.
  destruct (locks (server_after h1) !! k) as [c'|] eqn:Hl; injection Hrun as <- <-; [|simpl; apply lookup_insert_eq].
  unfold successful in Hok. rewrite parse_serialize in Hok. simpl in Hok.
  destruct (Z.eqb_spec c' c) as [->|]; [done|discriminate].
Qed.

(** The replies a client receives are those of the replicas of [config]. *)
Definition faithful (config : Configuration) (hist : Z → list (bool * string)) (tr : list ir_client_event) : Prop :=
  ∀ m, EvReceive (InReplyConsensus m) ∈ tr →
    0 ≤ to_int (rc_replicaIdx m) < n config ∧ rc_finalized m = false ∧
    ∀ rq dec h, invocation tr (rc_opid m).2 = Some (EvInvokeConsensus rq dec h) →
      answered (hist (to_int (rc_replicaIdx m))) rq (rc_result m).

(** A client is told that its request for the lock [k] was granted. *)
Definition lock_granted (config : Configuration) (hist : Z → list (bool * string)) c k : Prop :=
  ∃ (tr : list ir_client_event) (ic : IRClient) id rq res,
    Z.of_nat (length tr) < 2 ^ 64 ∧ honest_run [] (IRClient_new config c) tr ∧ faithful config hist tr ∧
    for_each tr ir_client_handle (IRClient_new config c) = Ok (tt, ic) ∧
    invocation tr id = Some (EvInvokeConsensus rq Decide true) ∧ ParseFromString rq = MkRequest c k true ∧
    Continue id rq res ∈ calls ic ∧ successful res = true.

Lemma replied_answered config (hist : Z → list (bool * string)) tr id rq dec h j v m :
  faithful config hist tr → invocation tr id = Some (EvInvokeConsensus rq dec h) → replied tr id j v m →
  0 ≤ j < n config ∧ rc_finalized m = false ∧ answered (hist j) rq (rc_result m).
Proof.
  intros Hf Hi (Hin & Hid & Hj & _). destruct (Hf m Hin) as (Hr & Hfin & Hans). rewrite <- Hj. split_and!; [lia|lia|done|].
  apply (Hans rq dec h). by rewrite Hid.
Qed.

(** [Decide] says yes only when two replicas did. *)
Lemma Decide_successful (msgs : gmap Z ReplyConsensusMessage) :
  Z.of_nat (size msgs) < 2 ^ 31 → successful (Decide (count_replies msgs)) = true →
  (2 ≤ size (filter (λ p, successful (rc_result p.2) = true) msgs))%nat.
Proof.
  intros Hs Hok. unfold successful, Decide in Hok. rewrite parse_serialize in Hok. simpl in Hok.
  destruct (successes_replies msgs) as [Hsum Hpos]. set (l := merge_sort _ _) in Hok.
  assert (l ≡ₚ map_to_list (count_replies msgs)) as Hl by apply merge_sort_Permutation.
  assert (size (filter (λ p, successful (rc_result p.2) = true) msgs) ≤ size msgs)%nat as Hle.
  { rewrite <- !size_dom. apply subseteq_size, dom_filter_subseteq. }
  rewrite success_count_spec in Hok.
  - rewrite (successes_perm _ _ Hl), Hsum in Hok. destruct (_ >=? 2) eqn:E; [lia|done].
  - intros p Hp. apply Hpos. by rewrite <- Hl.
  - lia.
  - rewrite (successes_perm _ _ Hl), Hsum. lia.
Qed.

(** A granted lock is held at two replicas of three. *)
Lemma granted_majority (hist : Z → list (bool * string)) c k :
  (∀ j, 0 ≤ j < 3 → never_unlocked k (hist j)) → lock_granted (MkConfiguration 3 1) hist c k →
  ∃ Q : gset Z, (2 ≤ size Q)%nat ∧ ∀ j, j ∈ Q → 0 ≤ j < 3 ∧ locks (server_after (hist j)) !! k = Some c.
Proof.
  intros Hnu (tr & ic & id & rq & res & Hlen & Hh & Hf & Hrun & Hi & Hrq & Hin & Hok).
  assert (0 ≤ f (MkConfiguration 3 1) < 2 ^ 30) as Hfb by (simpl; lia).
  pose proof (client_run_ok _ Hfb tr [] _ ic (IRClient_new_ok _ Hfb c) Hh Hlen Hrun) as Hc.
  destruct (ck_calls _ _ _ Hc _ Hin) as [Hcall _]. destruct (Hcall rq Decide true Hi) as [_ Hans].
  assert (∀ j v m, replied tr id j v m → successful (rc_result m) = true →
    0 ≤ j < 3 ∧ locks (server_after (hist j)) !! k = Some c) as Hhold.
  { intros j v m Hm Hs. destruct (replied_answered _ _ _ _ _ _ _ _ _ _ Hf Hi Hm) as (Hj & _ & Ha). simpl in Hj. split; [lia|].
    by eapply answered_holder; [apply Hnu|..]. }
  destruct Hans as [(v & Q & HQ & Hall)|(v & [(j & m & Hm & Hfin & _)|(msgs & _ & Hall & ->)] & _)].
  - exists Q. split; [assert (FastQuorumSize (MkConfiguration 3 1) = 3) as HF by done; lia|]. intros j Hj. destruct (Hall j Hj) as (m & Hm & <-). by eapply Hhold.
  - destruct (replied_answered _ _ _ _ _ _ _ _ _ _ Hf Hi Hm) as (_ & ? & _). congruence.
  - exists (dom (filter (λ p, successful (rc_result p.2) = true) msgs)). split.
    + rewrite size_dom. apply Decide_successful; [|done].
      assert (dom msgs ⊆ list_to_set (seqZ 0 3)) as Hsub%subseteq_size.
      { intros j [m Hm]%elem_of_dom. apply elem_of_list_to_set, elem_of_seqZ.
        destruct (replied_answered _ _ _ _ _ _ _ _ _ _ Hf Hi (Hall j m Hm)) as (Hj & _). simpl in Hj. lia. }
      rewrite size_dom, size_list_to_set, length_seqZ in Hsub by apply NoDup_seqZ. lia.
    + intros j [m Hm]%elem_of_dom. apply map_lookup_filter_Some in Hm as [Hm Hs]. by eapply Hhold; [apply Hall|].
Qed.

(** C23: The replicated lock service with three replicas excludes: while nobody unlocks a key and no
    view is changed, whatever operations the replicas executed and in whatever order, and however
    replies are lost, duplicated and delayed, at most one client is told that it has the lock. *)
Theorem lock_service_mutual_exclusion (hist : Z → list (bool * string)) (c1 c2 : Z) (k : string) :
  (∀ j, 0 ≤ j < 3 → never_unlocked k (hist j)) →
  lock_granted (MkConfiguration 3 1) hist c1 k → lock_granted (MkConfiguration 3 1) hist c2 k → c1 = c2.
Proof.
  intros Hnu H1 H2. apply granted_majority in H1 as (Q1 & Hs1 & Hq1); [|done]. apply granted_majority in H2 as (Q2 & Hs2 & Hq2); [|done].
  assert (Q1 ∪ Q2 ⊆ list_to_set (seqZ 0 3)) as Hsub%subseteq_size.
  { intros j Hj. apply elem_of_list_to_set, elem_of_seqZ. apply elem_of_union in Hj as [Hj|Hj]; [apply Hq1 in Hj|apply Hq2 in Hj]; lia. }
  rewrite size_list_to_set, length_seqZ in Hsub by apply NoDup_seqZ.
  destruct (set_choose_or_empty (Q1 ∩ Q2)) as [[j [Hj1 Hj2]%elem_of_intersection]|Hempty].
  - destruct (Hq1 j Hj1) as [_ Hl1]. destruct (Hq2 j Hj2) as [_ Hl2]. congruence.
  - rewrite size_union in Hsub by set_solver. lia.
Qed.
End exclusion.

(** ** Runs *)

#[local] Existing Instances lock_request_codec lock_reply_codec lock_request_codec_law lock_reply_codec_law default_order.
#[local] Instance lock_demo_network : Network := λ _, true.

Definition lock_demo_refusal : string := SerializeToString (MkReply "k" (-1)).

(** The reply of replica [i] to the first request of client [c]. *)
Definition lock_demo_reply (c i : Z) (res : string) : ir_client_event :=
  EvReceive (InReplyConsensus (MkReplyConsensus 4 i (c, 1) res false)).

Definition lock_demo_client (config : Configuration) (c : Z) (tr : list ir_client_event) : IRClient :=
  match for_each tr ir_client_handle (IRClient_new config c) with Ok (_, ic) => ic | _ => IRClient_new config c end.

(** A first request that is granted in the run [tr]. *)
Lemma lock_demo_granted config hist c tr :
  let ic := lock_demo_client config c (EvInvokeConsensus (lock_demo_op c "k" true) Decide true :: tr) in
  Z.of_nat (length tr) < 2 ^ 32 →
  honest_runb [] (IRClient_new config c) (EvInvokeConsensus (lock_demo_op c "k" true) Decide true :: tr) = true →
  (if for_each (EvInvokeConsensus (lock_demo_op c "k" true) Decide true :: tr) ir_client_handle (IRClient_new config c) is Ok _
   then true else false) = true →
  calls ic = [Continue 1 (lock_demo_op c "k" true) (lock_demo_ok "k")] →
  (∀ e, e ∈ tr → match e with
     | EvReceive (InReplyConsensus m) => rc_opid m = (c, 1) ∧ 0 ≤ to_int (rc_replicaIdx m) < n config ∧ rc_finalized m = false ∧
         answered (hist (to_int (rc_replicaIdx m))) (lock_demo_op c "k" true) (rc_result m)
     | _ => True
     end) →
  lock_granted config hist c "k".
Proof.
  intros ic Hlen Hh Hrun Hcalls Htr. unfold ic, lock_demo_client in Hcalls. clear ic.
  destruct (for_each _ _ _) as [[[] ic]| |] eqn:E in Hrun; [|done..]. rewrite E in Hcalls.
  eexists _, ic, 1, _, _. split_and!; [|by apply honest_runb_sound| |exact E|reflexivity|apply lock_request_codec_law| |].
  - simpl. lia.
  - intros m [Hin|Hin]%elem_of_cons; [done|]. apply Htr in Hin as (Hid & Hj & Hf & Ha). split_and!; [lia|lia|done|].
    rewrite Hid. simpl. intros rq dec h [= <- <- <-]. done.
  - rewrite Hcalls. by left.
  - vm_compute. reflexivity.
Qed.

(** Every reply is what its replica computed, as its first or its second operation. *)
Ltac lock_demo_replies :=
  intros e He; simpl in He;
  repeat (apply elem_of_cons in He as [-> |He]; [first [done|split_and!; [done..|];
    first [eexists [], _, _; split; [reflexivity|vm_compute; reflexivity]
          |eexists [_], _, _; split; [reflexivity|vm_compute; reflexivity]]]|]); set_solver.

(** The threshold of [Decide] is right for three replicas only.  With five replicas, two of which
    may fail, two clients are granted the same lock, although nobody unlocks it and no view is
    changed: each is accepted by two replicas and refused by a third, and two is enough. *)
Theorem lock_service_five_replicas :
  ∃ hist : Z → list (bool * string), (∀ j, 0 ≤ j < 5 → never_unlocked "k" (hist j)) ∧
    lock_granted (MkConfiguration 5 2) hist 5 "k" ∧ lock_granted (MkConfiguration 5 2) hist 6 "k".
Proof.
  set (r5 := (true, lock_demo_op 5 "k" true)). set (r6 := (true, lock_demo_op 6 "k" true)).
  exists (λ j, if j <? 2 then [r5; r6] else [r6; r5]). split_and!.
  - intros j _ x Hx request _. subst request. assert (x = r5 ∨ x = r6) as [-> | ->] by (destruct (j <? 2); set_solver); vm_compute; reflexivity.
  - apply (lock_demo_granted _ _ 5 (EvFireSlow 1 :: [lock_demo_reply 5 0 (lock_demo_ok "k"); lock_demo_reply 5 1 (lock_demo_ok "k");
      lock_demo_reply 5 2 lock_demo_refusal] ++ ((λ i, EvReceive (InConfirm 4 i (5, 1))) <$> [0; 1; 2]))); [done|vm_compute; reflexivity..|].
    lock_demo_replies.
  - apply (lock_demo_granted _ _ 6 (EvFireSlow 1 :: [lock_demo_reply 6 2 (lock_demo_ok "k"); lock_demo_reply 6 3 (lock_demo_ok "k");
      lock_demo_reply 6 0 lock_demo_refusal] ++ ((λ i, EvReceive (InConfirm 4 i (6, 1))) <$> [0; 1; 2]))); [done|vm_compute; reflexivity..|].
    lock_demo_replies.
Qed.

(** Client 5 asks three replicas for [k]; the second also has a request of client 6. *)
Definition lock_demo_hist (j : Z) : list (bool * string) :=
  (true, lock_demo_op 5 "k" true) :: (if j =? 1 then [(true, lock_demo_op 6 "k" true)] else []).

Lemma lock_demo_three : lock_granted (MkConfiguration 3 1) lock_demo_hist 5 "k".
Proof.
  apply (lock_demo_granted _ _ 5 ((λ i, lock_demo_reply 5 i (lock_demo_ok "k")) <$> [0; 1; 2])); [done|vm_compute; reflexivity..|].
  lock_demo_replies.
Qed.

Lemma lock_service_mutual_exclusion_witness : lock_granted (MkConfiguration 3 1) lock_demo_hist 5 "k" ∧ 5 = 5.
Proof.
  split; [exact lock_demo_three|].
  apply (lock_service_mutual_exclusion lock_demo_hist 5 5 "k"); [|exact lock_demo_three|exact lock_demo_three].
  intros j _ x Hx request _. subst request. unfold lock_demo_hist in Hx.
  assert (x = (true, lock_demo_op 5 "k" true) ∨ x = (true, lock_demo_op 6 "k" true)) as [-> | ->]
    by (destruct (j =? 1); set_solver); vm_compute; reflexivity.
Defined.

(** The answer to a lock request can come too early.  When the three replies arrive while the
    application waits, [lock] returns true; when they arrive after the request was posted and
    before the application reads the pointer to wait, the callback has set the pointer to null, and
    the application follows it. *)
Theorem lock_answer_before_wait :
  let replies := (λ i, Event (lock_demo_reply 5 i (lock_demo_ok "k"))) <$> [0; 1; 2] in
  let start := LockClient_new (MkConfiguration 3 1) 5 in
  (∃ c', lock "k" [Posted] replies start = Ok (Some true, c')) ∧
  lock "k" (Posted :: replies) [] start = Undefined.
Proof.
  split; [|vm_compute; reflexivity]. set (x := lock _ _ _ _).
  assert (match x with Ok (Some b, _) => b | _ => false end = true) as Hx by (vm_compute; reflexivity).
  destruct x as [[[[]|] c']| |]; try done. by exists c'.
Qed.
