(* ===== verification/VRClient.v ===== *)
(** The client of viewstamped replication: [replication/vr/client.h] and [client.cc], on
    [replication/common/client.h].

    A request is an object with a timer, in a table under its number; it dies when it is erased,
    and its timer with it.  A timer that fires is running again when its function is called.  The
    continuations a request was given are recorded as calls.  The members [view] and [opnumber] are
    never used.

    Two kinds of [delete req] have undefined behaviour: that of an unlogged request through a
    pointer to its base, whose destructor is not virtual, and that of a request whose timer is
    running the callback that deletes it, which destroys the function object being executed.
    They come after everything else the handler does.  The class [Deletions] says which of them
    pass unnoticed; the others end the execution. *)

From S2P Require Import QuorumSet LRReplica.
From S2P Require Import Prelude IRRecord IRReplica IRClient.
From S2P Require Import ReplLog VRReplica.

(** [struct PendingRequest] and [struct PendingUnloggedRequest], which adds the error
    continuation. *)
Record PendingRequest := MkPendingRequest {
  request : string;
  clientReqId : Z;
  timer_active : bool;
  unlogged : option bool
}.

Definition is_unlogged (r : PendingRequest) : bool := bool_decide (unlogged r ≠ None).

#[global] Instance PendingRequest_eta : Eta PendingRequest := λ r,
  MkPendingRequest (request r) (clientReqId r) (timer_active r) (unlogged r).

Inductive vr_client_sent := RequestToAll (req : Request) | UnloggedTo (replicaIdx : Z) (req : Request).

Record VRClient := MkVRClient {
  clientid : Z;
  lastReqId : Z;
  pendingReqs : gmap Z PendingRequest;
  vc_sends : list (vr_client_sent * bool);
  calls : list ir_call
}.

#[global] Instance VRClient_eta : Eta VRClient := λ c,
  MkVRClient (clientid c) (lastReqId c) (pendingReqs c) (vc_sends c) (calls c).

(** The constructor of the base class draws a number that is not zero when [clientid] is;
    [id] is the one it ends with. *)
Definition VRClient_new (id : Z) : VRClient := MkVRClient id 0 ∅ [] [].

(** Whether an undefined deletion, in a state of the client, has no effect. *)
Class Deletions := unnoticed : VRClient → bool.

Section client.
Context `{!Network} `{!Deletions}.

Abbreviation MVC := (M VRClient).

(** [delete req], which is undefined when [bad]. *)
Definition delete_req (bad : bool) : MVC unit :=
  c ← get_st; if bad && negb (unnoticed c) then undefined else mret tt.

Definition send (x : vr_client_sent) : MVC bool := λ c,
  let ok := send_ok (length (vc_sends c)) in Ok (ok, c <| vc_sends ::= (λ l, l ++ [(x, ok)]) |>).

Definition invoke (x : ir_call) : MVC unit := modify (λ c, c <| calls ::= (λ l, l ++ [x]) |>).

Definition store_req (req : PendingRequest) : MVC unit :=
  modify (λ c, c <| pendingReqs ::= <[clientReqId req := req]> |>).

Definition erase_req (reqId : Z) : MVC unit := modify (λ c, c <| pendingReqs ::= delete reqId |>).

Definition next_id : MVC Z := _ ← modify (λ c, c <| lastReqId ::= u64_incr |>); gets lastReqId.

(** [running]: called from the timer of [req]. *)
Definition SendRequest (running : bool) (req : PendingRequest) : MVC unit :=
  c ← get_st;
  ok ← send (RequestToAll (MkRequest (request req) (clientid c) (clientReqId req)));
  if (ok : bool) then store_req (req <| timer_active := true |>)
  else _ ← erase_req (clientReqId req); delete_req running.

Definition Invoke (req_str : string) : MVC unit :=
  reqId ← next_id;
  let req := MkPendingRequest req_str reqId false None in
  _ ← store_req req;
  SendRequest false req.

Definition InvokeUnlogged (replicaIdx : Z) (req_str : string) (has_error : bool) : MVC unit :=
  reqId ← next_id;
  c ← get_st;
  ok ← send (UnloggedTo replicaIdx (MkRequest req_str (clientid c) reqId));
  when ok (store_req (MkPendingRequest req_str reqId true (Some has_error))).

Definition ResendRequest (reqId : Z) : MVC unit :=
  c ← get_st;
  match pendingReqs c !! reqId with
  | None => mret tt
  | Some req => SendRequest true req
  end.

Definition HandleReply (msg : ReplyMessage) : MVC unit :=
  c ← get_st;
  match pendingReqs c !! rep_clientreqid msg with
  | None => mret tt
  | Some req =>
      _ ← erase_req (rep_clientreqid msg);
      _ ← invoke (Continue (rep_clientreqid msg) (request req) (rep_reply msg));
      delete_req (is_unlogged req)
  end.

Definition HandleUnloggedReply (reply : string) (reqId : Z) : MVC unit :=
  c ← get_st;
  match pendingReqs c !! reqId with
  | None => mret tt
  | Some req =>
      _ ← erase_req reqId;
      _ ← invoke (Continue reqId (request req) reply);
      delete_req (is_unlogged req)
  end.

(** The cast to an unlogged request is unchecked. *)
Definition UnloggedRequestTimeoutCallback (reqId : Z) : MVC unit :=
  c ← get_st;
  match pendingReqs c !! reqId with
  | None => mret tt
  | Some req =>
      match unlogged req with
      | None => undefined
      | Some has_error =>
          _ ← erase_req reqId;
          _ ← when has_error (invoke (ContinueError reqId (request req) TIMEOUT));
          delete_req true
      end
  end.

Definition ReceiveMessage (m : vr_message) : MVC unit :=
  match m with
  | ReplyMsg msg => HandleReply msg
  | UnloggedReplyMsg reply reqId => HandleUnloggedReply reply reqId
  | _ => panic
  end.

(** The timer of a request fires, if it runs. *)
Definition fire_timer (reqId : Z) : MVC unit :=
  c ← get_st;
  match pendingReqs c !! reqId with
  | Some req =>
      if timer_active req then match unlogged req with None => ResendRequest reqId | Some _ => UnloggedRequestTimeoutCallback reqId end
      else mret tt
  | None => mret tt
  end.

Inductive vr_client_event :=
| CallInvoke (request : string)
| CallInvokeUnlogged (replicaIdx : Z) (request : string) (has_error : bool)
| Receive (m : vr_message)
| Fire (reqId : Z).

Definition vr_client_handle (e : vr_client_event) : MVC unit :=
  match e with
  | CallInvoke request => Invoke request
  | CallInvokeUnlogged i request has_error => InvokeUnlogged i request has_error
  | Receive m => ReceiveMessage m
  | Fire reqId => fire_timer reqId
  end.
End client.

(** ** Answers *)

Definition invocation_request (e : vr_client_event) : option string :=
  match e with CallInvoke rq | CallInvokeUnlogged _ rq _ => Some rq | _ => None end.

(** The requests in the order they are invoked; they are numbered from one. *)
Definition invoked (tr : list vr_client_event) : list string := omap invocation_request tr.

Definition reply_received (tr : list vr_client_event) (id : Z) (x : string) : Prop :=
  (∃ m, Receive (ReplyMsg m) ∈ tr ∧ rep_clientreqid m = id ∧ rep_reply m = x) ∨ Receive (UnloggedReplyMsg x id) ∈ tr.

(** A client receives replies only. *)
Definition expected (e : vr_client_event) : Prop :=
  match e with Receive (ReplyMsg _) | Receive (UnloggedReplyMsg _ _) => True | Receive _ => False | _ => True end.

Definition call_ok (tr : list vr_client_event) (x : ir_call) : Prop :=
  match x with
  | Continue id rq res => 1 ≤ id ∧ invoked tr !! Z.to_nat (id - 1) = Some rq ∧ reply_received tr id res
  | ContinueError id rq err => 1 ≤ id ∧ invoked tr !! Z.to_nat (id - 1) = Some rq ∧ err = TIMEOUT
  end.

(** An event whose handler ends with an undefined deletion: a reply to an unlogged request, and
    the timer of a request that is unlogged or cannot be sent again. *)
Definition fatal `{!Network} (c : VRClient) (e : vr_client_event) : bool :=
  match e with
  | Receive (ReplyMsg m) => from_option is_unlogged false (pendingReqs c !! rep_clientreqid m)
  | Receive (UnloggedReplyMsg _ id) => from_option is_unlogged false (pendingReqs c !! id)
  | Fire id =>
      match pendingReqs c !! id with
      | Some req => timer_active req && (is_unlogged req || negb (send_ok (length (vc_sends c))))
      | None => false
      end
  | _ => false
  end.

Section answers.
Context `{!Network} `{!Deletions}.
Implicit Types (tr : list vr_client_event) (c : VRClient) (id : Z).

Record vc_ok tr c : Prop := {
  vc_last : lastReqId c = Z.of_nat (length (invoked tr));
  vc_pending : ∀ id req, pendingReqs c !! id = Some req → 1 ≤ id ∧ clientReqId req = id ∧
    invoked tr !! Z.to_nat (id - 1) = Some (request req) ∧ answers id (calls c) = 0%nat;
  vc_calls : ∀ x, x ∈ calls c → call_ok tr x;
  vc_once : ∀ id, (answers id (calls c) ≤ 1)%nat
}.

Lemma call_ok_mono tr e x : call_ok tr x → call_ok (tr ++ [e]) x.
Proof.
  unfold call_ok, invoked. destruct x; rewrite omap_app; intros (? & ? & Hans); (split_and!; [done|by apply lookup_app_l_Some|]); [|done].
  destruct Hans as [(m & ? & ? & ?)|?]; [left; exists m|right]; set_solver.
Qed.

Lemma vc_ok_event tr c e : invocation_request e = None → vc_ok tr c → vc_ok (tr ++ [e]) c.
Proof.
  intros He [Hl Hp Hc Ho]. assert (invoked (tr ++ [e]) = invoked tr) as E by (unfold invoked; rewrite omap_app; simpl; by rewrite He, app_nil_r).
  split; [by rewrite E|by rewrite E| |done]. intros x Hx. by apply call_ok_mono, Hc.
Qed.

Lemma vc_answers_fresh tr c id : vc_ok tr c → lastReqId c < id → answers id (calls c) = 0%nat.
Proof.
  intros [Hl Hp Hc Ho] Hid. unfold answers. destruct (filter _ (calls c)) as [|x l] eqn:Hf; [done|].
  assert (x ∈ filter (λ x, call_id x = id) (calls c)) as [Hx Hin]%list_elem_of_filter by (rewrite Hf; by left).
  apply Hc in Hin. destruct x; simpl in *; subst; destruct Hin as (? & Hlk%lookup_lt_Some & _); lia.
Qed.

(** A request is sent, or sent again. *)
Lemma vc_ok_store tr c id req x ok :
  vc_ok tr c → 1 ≤ id → clientReqId req = id → invoked tr !! Z.to_nat (id - 1) = Some (request req) → answers id (calls c) = 0%nat →
  vc_ok tr (c <| vc_sends ::= (λ l, l ++ [(x, ok)]) |> <| pendingReqs ::= <[id := req]> |>).
Proof.
  intros [Hl Hp Hc Ho] H1 Hid Hrq Ha. split; try done. simpl. intros id' req' [[<- <-]|[_ Hin]]%lookup_insert_Some; [done|by apply Hp].
Qed.

Lemma vc_ok_erase tr c id x ok : vc_ok tr c → vc_ok tr (c <| vc_sends ::= (λ l, l ++ [(x, ok)]) |> <| pendingReqs ::= delete id |>).
Proof. intros [Hl Hp Hc Ho]. split; try done. simpl. intros id' req' [_ Hin]%lookup_delete_Some. by apply Hp. Qed.

(** A request is answered. *)
Lemma vc_ok_answer tr c id req x :
  vc_ok tr c → pendingReqs c !! id = Some req → call_id x = id → call_ok tr x →
  vc_ok tr (c <| pendingReqs ::= delete id |> <| calls ::= (λ l, l ++ [x]) |>).
Proof.
  intros [Hl Hp Hc Ho] Hreq Hx Hok. destruct (Hp id req Hreq) as (_ & _ & _ & Hno). split; simpl; [done| | |].
  - intros id' req' [Hne Hin]%lookup_delete_Some. destruct (Hp id' req' Hin) as (? & ? & ? & Ha). split_and!; try done.
    rewrite call_answers_snoc, Ha. rewrite decide_False; [done|]. congruence.
  - intros y [Hy|Hy%list_elem_of_singleton]%elem_of_app; [by apply Hc|by subst].
  - intros id'. rewrite call_answers_snoc. case_decide as Hd; [|rewrite Nat.add_0_r; apply Ho]. rewrite Hx in Hd. subst id'. lia.
Qed.

(** [m] returns in a state satisfying [Q], or it stops at an undefined deletion and [bad]. *)
Definition ends (bad : Prop) (m : M VRClient unit) (Q : VRClient → Prop) c : Prop :=
  match m c with
  | Ok (_, c') => Q c'
  | Undefined => bad ∧ ∃ c', unnoticed c' = false
  | Panic => False
  end.

Lemma ends_run {A} bad (m : M VRClient A) k Q c a c' : m c = Ok (a, c') → ends bad (k a) Q c' → ends bad (m ≫= k) Q c.
Proof. intros Hm. unfold ends. by rewrite (bind_run _ _ _ _ _ Hm). Qed.

Lemma ends_delete (bad : Prop) (b : bool) (Q : VRClient → Prop) c : Q c → (b = true → bad) → ends bad (delete_req b) Q c.
Proof.
  intros HQ Hb. unfold ends, delete_req. rewrite (bind_run get_st _ c c c) by done.
  destruct b, (unnoticed c) eqn:Hu; simpl; try done. split; [by apply Hb|by exists c].
Qed.

Lemma SendRequest_ok bad tr c id req (running : bool) :
  vc_ok tr c → 1 ≤ id → clientReqId req = id → invoked tr !! Z.to_nat (id - 1) = Some (request req) → answers id (calls c) = 0%nat →
  (running = true → send_ok (length (vc_sends c)) = false → bad) →
  ends bad (SendRequest running req) (vc_ok tr) c.
Proof.
  intros Hc H1 Hid Hrq Ha Hbad. unfold SendRequest. eapply ends_run; [reflexivity|]. eapply ends_run; [reflexivity|].
  destruct (send_ok _).
  - unfold ends, store_req, modify; simpl. rewrite Hid. by apply vc_ok_store.
  - eapply ends_run; [reflexivity|]. apply ends_delete; [rewrite Hid; by apply vc_ok_erase|auto].
Qed.

(** A reply arrives for a request under its number. *)
Lemma answer_ok bad tr c id req x :
  vc_ok tr c → pendingReqs c !! id = Some req → reply_received tr id x → (is_unlogged req = true → bad) →
  ends bad (_ ← erase_req id; _ ← invoke (Continue id (request req) x); delete_req (is_unlogged req)) (vc_ok tr) c.
Proof.
  intros Hc Hreq Hx Hbad. destruct (vc_pending _ _ Hc _ _ Hreq) as (? & ? & ? & _).
  do 2 (eapply ends_run; [reflexivity|]). apply ends_delete; [|done]. by eapply vc_ok_answer.
Qed.

(** The next request gets the next number. *)
Lemma vc_ok_next tr c e rq :
  vc_ok tr c → invocation_request e = Some rq →
  vc_ok (tr ++ [e]) (c <| lastReqId := lastReqId c + 1 |>) ∧ answers (lastReqId c + 1) (calls c) = 0%nat ∧
  invoked (tr ++ [e]) !! Z.to_nat (lastReqId c + 1 - 1) = Some rq ∧ 0 ≤ lastReqId c.
Proof.
  intros Hc Hrq. pose proof Hc as [Hl Hp Hk Ho].
  assert (invoked (tr ++ [e]) = invoked tr ++ [rq]) as E by (unfold invoked; rewrite omap_app; simpl; by rewrite Hrq).
  split_and!; [split|eapply vc_answers_fresh; [done|lia]| |lia].
  - rewrite E, length_app. simpl. lia.
  - intros id req Hr. destruct (Hp id req Hr) as (? & ? & ? & ?). split_and!; try done. rewrite E. by apply lookup_app_l_Some.
  - intros x Hx. by apply call_ok_mono, Hk.
  - done.
  - rewrite E, lookup_app_r by lia. by replace (Z.to_nat (lastReqId c + 1 - 1) - length (invoked tr))%nat with 0%nat by lia.
Qed.

Lemma next_id_run tr c :
  vc_ok tr c → Z.of_nat (length (invoked tr)) + 1 < 2 ^ 64 →
  next_id c = Ok (lastReqId c + 1, c <| lastReqId := lastReqId c + 1 |>).
Proof.
  intros [Hl _ _ _] Hb. unfold next_id. erewrite bind_run by reflexivity. unfold gets. simpl.
  rewrite u64_incr_small by lia. by destruct c.
Qed.

Lemma vr_client_step tr c e :
  vc_ok tr c → expected e → Z.of_nat (length (invoked tr)) + 1 < 2 ^ 64 →
  ends (fatal c e = true) (vr_client_handle e) (vc_ok (tr ++ [e])) c.
Proof.
  intros Hc He Hb. destruct e as [rq|i rq h|m|id]; simpl.
  - destruct (vc_ok_next tr c (CallInvoke rq) rq Hc eq_refl) as (Hc1 & Ha & Hi & Hpos). unfold Invoke.
    eapply ends_run; [by eapply next_id_run|]. cbv zeta. eapply ends_run; [reflexivity|].
    eapply (SendRequest_ok _ _ _ (lastReqId c + 1)); [|lia|done|exact Hi|exact Ha|done].
    destruct Hc1 as [Hl Hp Hk Ho]. split; try done. simpl. intros id' req' [[<- <-]|[_ Hin]]%lookup_insert_Some; [|by apply Hp].
    split_and!; [lia|done|done|done].
  - destruct (vc_ok_next tr c (CallInvokeUnlogged i rq h) rq Hc eq_refl) as (Hc1 & Ha & Hi & Hpos). unfold InvokeUnlogged.
    eapply ends_run; [by eapply next_id_run|]. do 2 (eapply ends_run; [reflexivity|]). simpl.
    destruct (send_ok _); unfold ends, when, store_req, modify, mret, M_ret; simpl.
    + refine (vc_ok_store _ (c <| lastReqId := lastReqId c + 1 |>) (lastReqId c + 1)
        (MkPendingRequest rq (lastReqId c + 1) true (Some h)) (UnloggedTo i _) true _ _ _ _ _); [done|lia|done|done|done].
    + destruct Hc1. by split.
  - pose proof (vc_ok_event tr c (Receive m) eq_refl Hc) as Hc1.
    destruct m; try done; simpl; unfold HandleReply, HandleUnloggedReply; (eapply ends_run; [reflexivity|]);
      (destruct (pendingReqs c !! _) as [req|] eqn:Hreq; [|done]); apply answer_ok; try done.
    + left. exists m. set_solver.
    + right. set_solver.
  - pose proof (vc_ok_event tr c (Fire id) eq_refl Hc) as Hc1. unfold fire_timer. eapply ends_run; [reflexivity|].
    destruct (pendingReqs c !! id) as [req|] eqn:Hreq; [|done]. destruct (timer_active req); [|done].
    destruct (vc_pending _ _ Hc1 _ _ Hreq) as (Hone & Hid & Hrq & Ha). unfold is_unlogged. destruct (unlogged req) as [h|] eqn:Hu.
    + unfold UnloggedRequestTimeoutCallback. eapply ends_run; [reflexivity|]. rewrite Hreq, Hu. eapply ends_run; [reflexivity|].
      destruct h; (eapply ends_run; [reflexivity|]); (apply ends_delete; [|done]).
      * by eapply vc_ok_answer.
      * destruct Hc1 as [Hl Hp Hk Ho]. split; try done. simpl. intros id' req' [_ Hin]%lookup_delete_Some. by apply Hp.
    + unfold ResendRequest. eapply ends_run; [reflexivity|]. rewrite Hreq. eapply SendRequest_ok; try done.
      intros _ ->. done.
Qed.

Lemma length_invoked tr : (length (invoked tr) ≤ length tr)%nat.
Proof.
  induction tr as [|e tr IH]; [done|]. change (invoked (e :: tr)) with (match invocation_request e with Some x => x :: invoked tr | None => invoked tr end).
  destruct (invocation_request e); simpl; lia.
Qed.

(** A run goes on to the first undefined deletion that is noticed. *)
Lemma vr_client_run_ok l : ∀ tr c, vc_ok tr c → Forall expected l → Z.of_nat (length (tr ++ l)) < 2 ^ 64 →
  ∃ l1 l2 c', l = l1 ++ l2 ∧ for_each l1 vr_client_handle c = Ok (tt, c') ∧ vc_ok (tr ++ l1) c' ∧
    (l2 = [] ∨ ∃ e l3, l2 = e :: l3 ∧ fatal c' e = true ∧ vr_client_handle e c' = Undefined ∧ ∃ c'', unnoticed c'' = false).
Proof.
  induction l as [|e l IH]; intros tr c Hc Hex Hlen.
  { exists [], [], c. rewrite (app_nil_r tr). split_and!; [done..|by left]. }
  apply Forall_cons in Hex as [He Hex]. pose proof (length_invoked tr). rewrite length_app in Hlen. simpl in Hlen.
  pose proof (vr_client_step tr c e Hc He ltac:(lia)) as Hstep. unfold ends in Hstep.
  destruct (vr_client_handle e c) as [[[] c1]| |] eqn:Hrun; [|done|].
  - destruct (IH (tr ++ [e]) c1 Hstep Hex) as (l1 & l2 & c' & -> & Hl1 & Hc' & Hend); [rewrite !length_app; simpl; lia|].
    exists (e :: l1), l2, c'. rewrite <- app_assoc in Hc'. split_and!; [done| |done..]. simpl. by erewrite bind_run.
  - exists [], (e :: l), c. rewrite (app_nil_r tr). split_and!; [done..|]. right. exists e, l. naive_solver.
Qed.

(** While there are no unlogged requests and every send succeeds, no event is fatal. *)
Definition logged_only (c : VRClient) : Prop := ∀ id req, pendingReqs c !! id = Some req → unlogged req = None.

Definition calls_logged (e : vr_client_event) : Prop :=
  match e with CallInvokeUnlogged _ _ _ => False | _ => True end.

Lemma logged_not_fatal c e : (∀ n, send_ok n = true) → logged_only c → fatal c e = false.
Proof.
  intros Hok Hc. assert (∀ id, from_option is_unlogged false (pendingReqs c !! id) = false) as Hu.
  { intros id. destruct (pendingReqs c !! id) as [req|] eqn:Hr; [|done]. simpl. unfold is_unlogged. by rewrite (Hc _ _ Hr). }
  destruct e as [| |m|id]; try done; simpl; [destruct m; simpl; auto|]. specialize (Hu id).
  destruct (pendingReqs c !! id); [|done]. simpl in Hu. rewrite Hu, Hok. apply andb_false_r.
Qed.

Lemma logged_step e : calls_logged e → preserves logged_only (vr_client_handle e).
Proof.
  assert (∀ id, preserves logged_only (erase_req id)) as Herase.
  { intros id. apply preserves_modify. intros c Hc id' req. simpl. intros [_ Hr]%lookup_delete_Some. by eapply Hc. }
  assert (∀ req, unlogged req = None → preserves logged_only (store_req req)) as Hstore.
  { intros req Hu. apply preserves_modify. intros c Hc id' req'. simpl.
    intros [[_ <-]|[_ Hr]]%lookup_insert_Some; [done|by eapply Hc]. }
  assert (∀ x, preserves logged_only (invoke x)) as Hinvoke by (intros x; by apply preserves_modify).
  assert (∀ b, preserves logged_only (delete_req b)) as Hdel by (intros b; unfold delete_req; auto with preserve).
  assert (∀ b req, unlogged req = None → preserves logged_only (SendRequest b req)) as Hsend.
  { intros b req Hu. unfold SendRequest. apply preserves_bind; [auto with preserve|]. intros c.
    apply preserves_bind; [by intros c' Hc'|]. intros [|]; [by apply Hstore|]. auto with preserve. }
  intros He c Hc. destruct e as [rq| |m|id]; simpl in *; [| done | |].
  - apply preserves_elim; [done|]. unfold Invoke, next_id. apply preserves_bind; [auto 10 using preserves_modify with preserve|].
    intros reqId. apply preserves_bind; [by apply Hstore|]. intros _. by apply Hsend.
  - destruct m; simpl; try done; unfold HandleReply, HandleUnloggedReply; apply post_get;
      (destruct (pendingReqs c !! _); [|by apply post_ret]); apply preserves_elim; auto with preserve.
  - unfold fire_timer. apply post_get. destruct (pendingReqs c !! id) as [req|] eqn:Hr; [|by apply post_ret].
    destruct (timer_active req); [|by apply post_ret]. rewrite (Hc _ _ Hr). unfold ResendRequest. apply post_get. rewrite Hr.
    apply Hsend; [by eapply Hc|done].
Qed.

Lemma logged_run l c c' :
  Forall calls_logged l → logged_only c → for_each l vr_client_handle c = Ok (tt, c') → logged_only c'.
Proof.
  intros Hl Hc Hrun. pose proof (post_for_each True l vr_client_handle logged_only c Hc) as Hp.
  unfold post in Hp at 2. rewrite Hrun in Hp. apply Hp. intros e c1 Hin Hc1.
  apply logged_step; [|done]. by eapply Forall_forall in Hl.
Qed.

(** C25: A client of viewstamped replication answers each request at most once and with a reply
    to it.  It receives only replies, loses, gets twice, late or out of order any of them, and
    its timers fire at any time, fewer than 2^64 events in all.  It handles all events, or all
    up to one whose handler stops at an undefined deletion: a reply to an unlogged request or
    the timer of a request that is unlogged or cannot be sent again.  At most one continuation
    has been called for a request, with the request it was given, and with a reply that
    arrived under the number of the request or because an unlogged request timed out.  When
    there are no unlogged requests and every send succeeds, or when undefined deletions pass
    unnoticed, all events are handled. *)
Theorem vr_client_answers (tr : list vr_client_event) (cid : Z) :
  Forall expected tr → Z.of_nat (length tr) < 2 ^ 64 →
  ∃ tr1 tr2 c, tr = tr1 ++ tr2 ∧ for_each tr1 vr_client_handle (VRClient_new cid) = Ok (tt, c) ∧
    (∀ id, (answers id (calls c) ≤ 1)%nat) ∧ (∀ x, x ∈ calls c → call_ok tr1 x) ∧
    (tr2 = [] ∨ ∃ e tr3, tr2 = e :: tr3 ∧ fatal c e = true ∧ vr_client_handle e c = Undefined) ∧
    (Forall calls_logged tr ∧ (∀ n, send_ok n = true) ∨ (∀ c', unnoticed c' = true) → tr2 = []).
Proof.
  intros Hex Hlen. assert (vc_ok [] (VRClient_new cid)) as Hnew.
  { split; try done; [intros x Hx; set_solver|intros id; unfold answers; simpl; lia]. }
  destruct (vr_client_run_ok tr [] _ Hnew Hex Hlen) as (tr1 & tr2 & c & -> & Hrun & [_ _ Hc Ho] & Hend).
  exists tr1, tr2, c. split_and!; [done..| |]; [naive_solver|].
  intros Hwhy. destruct Hend as [|(e & tr3 & -> & Hf & _ & c' & Hc')]; [done|]. exfalso.
  destruct Hwhy as [[Hl Hok]|Hun]; [|by rewrite Hun in Hc'].
  apply Forall_app in Hl as [Hl _]. rewrite logged_not_fatal in Hf; [done..|].
  by eapply logged_run; [exact Hl| |exact Hrun].
Qed.
End answers.

(** Two requests, the first of which is sent again and answered twice, and an unlogged one whose
    reply comes in and then another. *)
Definition vr_client_demo : list vr_client_event :=
  [CallInvoke "a"; Fire 1; CallInvoke "b"; Receive (ReplyMsg (MkReply 0 1 1 "ra")); Receive (ReplyMsg (MkReply 0 1 1 "ra"));
   Receive (ReplyMsg (MkReply 0 2 2 "rb")); CallInvokeUnlogged 0 "c" true; Receive (UnloggedReplyMsg "rc" 3); Fire 2].

(** The reply to the unlogged request is the end. *)
Lemma vr_client_answers_witness :
  ∃ tr1 tr2 c, vr_client_demo = tr1 ++ tr2 ∧
    for_each tr1 (vr_client_handle (H := λ _, true) (H0 := λ _, false)) (VRClient_new 7) = Ok (tt, c) ∧
    (∀ x, x ∈ calls c → call_ok tr1 x) ∧
    for_each vr_client_demo (vr_client_handle (H := λ _, true) (H0 := λ _, false)) (VRClient_new 7) = Undefined.
Proof.
  destruct (vr_client_answers (H := λ _, true) (H0 := λ _, false) vr_client_demo 7) as (tr1 & tr2 & c & Htr & Hrun & Ho & Hc & Hend).
  - by repeat constructor.
  - done.
  - exists tr1, tr2, c. split_and!; [exact Htr|exact Hrun|exact Hc|]. vm_compute. reflexivity.
Defined.
