(* ===== verification/Tpcc.v ===== *)
(** The transactions of the TPC-C benchmark: [store/benchmark/tpccTransaction.h] and
    [tpccTransaction.cc], with [Rand] of [util.h] and the constants of [config.h].

    A row is stored under a table name followed by a JSON object of its key; its value is a JSON
    object.  The JSON library is a parameter ([JsonRows]); an exception other than a parse error is
    not caught and stops the process.  The client of the store is an interface ([TxnApi]) with a
    specification ([TxnView]): what a transaction reads and writes is a map from keys to values.
    Random numbers come from a source that is a parameter.  Numbers are 64 bits wide, [double]s
    are binary64 numbers of the Standard Library.  A local variable that may have no value is an
    [option]. *)

From Stdlib Require Import Ascii SpecFloat.
From stdpp Require Import pretty.
From S2P Require Import Prelude StrongServer.

(** ** Numbers *)

Definition g_ware_num : Z := 30.
Definition g_dist_per_ware : Z := 10.
Definition g_item_num : Z := 100000.
Definition g_cust_per_dist : Z := 3000.

Abbreviation double := spec_float.

Definition to_double (z : Z) : double := binary_normalize 53 1024 z 0 false.
Definition dadd (x y : double) : double := SFadd 53 1024 x y.
Definition dsub (x y : double) : double := SFsub 53 1024 x y.
Definition dmul (x y : double) : double := SFmul 53 1024 x y.

(** The conversion to [uint64_t] truncates; it is undefined out of range. *)
Definition of_double (x : double) : option Z :=
  match x with
  | S754_zero _ => Some 0
  | S754_finite s m e =>
      let z := Z.shiftl (Z.pos m) e in
      if s : bool then (if z =? 0 then Some 0 else None) else if z <? 2 ^ 64 then Some z else None
  | _ => None
  end.

(** ** The interfaces *)

Inductive parsed (T : Type) := ParseError | OtherValue | Object (t : T).
Arguments ParseError {_}.
Arguments OtherValue {_}.
Arguments Object {_} _.

(** JSON objects.  Reading a member that is missing or of another type throws; a floating-point
    number is converted to an integer with a cast, which is undefined out of range. *)
Class JsonRows := {
  tuple : Type;
  empty_tuple : tuple;
  parse : string → parsed tuple;
  dump : tuple → string;
  get_uint : string → tuple → res Z;
  get_double : string → tuple → res double;
  get_string : string → tuple → res string;
  set_uint : string → Z → tuple → tuple;
  set_double : string → double → tuple → tuple;
  set_string : string → string → tuple → tuple
}.

Definition finite (x : double) : bool := match x with S754_zero _ | S754_finite _ _ _ => true | _ => false end.

(** The cast of a floating-point member to [uint64_t]. *)
Definition cast_uint (x : double) : res Z := match of_double x with Some z => Ok z | None => Undefined end.

(** What the library promises: a written object is read back, and a member is what was assigned
    last. *)
Class JsonLaws `{!JsonRows} := {
  parse_dump : ∀ t, parse (dump t) = Object t;
  dump_brace : ∀ t, ∃ s, dump t = String "{"%char s;
  get_set_uint : ∀ k v t, get_uint k (set_uint k v t) = Ok v;
  get_set_double : ∀ k v t, finite v = true → get_double k (set_double k v t) = Ok v;
  get_uint_set_double : ∀ k v t, finite v = true → get_uint k (set_double k v t) = cast_uint v;
  get_set_string : ∀ k v t, get_string k (set_string k v t) = Ok v;
  get_uint_other : ∀ k k' v t, k ≠ k' → get_uint k' (set_uint k v t) = get_uint k' t;
  get_double_other : ∀ k k' v t, k ≠ k' → get_double k' (set_uint k v t) = get_double k' t;
  get_string_other : ∀ k k' v t, k ≠ k' → get_string k' (set_uint k v t) = get_string k' t;
  get_uint_double_other : ∀ k k' v t, k ≠ k' → get_uint k' (set_double k v t) = get_uint k' t;
  get_double_double_other : ∀ k k' v t, k ≠ k' → get_double k' (set_double k v t) = get_double k' t;
  get_string_double_other : ∀ k k' v t, k ≠ k' → get_string k' (set_double k v t) = get_string k' t;
  get_uint_string_other : ∀ k k' v t, k ≠ k' → get_uint k' (set_string k v t) = get_uint k' t;
  get_double_string_other : ∀ k k' v t, k ≠ k' → get_double k' (set_string k v t) = get_double k' t;
  get_string_string_other : ∀ k k' v t, k ≠ k' → get_string k' (set_string k v t) = get_string k' t
}.

(** [class Client] as the transactions use it. *)
Class TxnApi (S : Type) := {
  Get : string → M S (Z * string);
  Put : string → string → M S Z
}.

(** A transaction sees a map; reads of keys that are there succeed. *)
Class TxnView (S : Type) `{!TxnApi S} := {
  view : S → gmap string string;
  Get_view : ∀ k v s, view s !! k = Some v → Get k s = Ok ((0, v), s);
  Get_same : ∀ k s ret v s', Get k s = Ok ((ret, v), s') → view s' = view s ∧ (ret = 0 → v ≠ "" → view s !! k = Some v);
  Put_view : ∀ k v s, ∃ r s', Put k v s = Ok (r, s') ∧ view s' = <[k := v]> (view s)
}.

(** Uniformly distributed numbers: every draw is the next number of the source. *)
Class RandomSource := draw : nat → Z.

Definition Rand `{!RandomSource} (lo hi : Z) : M nat Z := λ i,
  if lo >? hi then Undefined else Ok (lo + draw i mod (hi - lo + 1), Datatypes.S i).

(** ** Rows *)

Section rows.
Context `{!JsonRows}.

Definition key_json (fields : list (string * Z)) : tuple := foldl (λ t f, set_uint f.1 f.2 t) empty_tuple fields.

Definition row_key (table : string) (fields : list (string * Z)) : string := table +:+ dump (key_json fields).

Definition warehouse_key (w : Z) : string := row_key "W" [("W_ID", w)].
Definition customer_key (w d c : Z) : string := row_key "C" [("C_ID", c); ("C_D_ID", d); ("C_W_ID", w)].
Definition district_key (w d : Z) : string := row_key "D" [("D_ID", d); ("D_W_ID", w)].
Definition order_key (w d o : Z) : string := row_key "O" [("O_ID", o); ("O_D_ID", d); ("O_W_ID", w)].
Definition new_order_key (w d o : Z) : string := row_key "NO" [("NO_O_ID", o); ("NO_D_ID", d); ("NO_W_ID", w)].
Definition item_key (i : Z) : string := row_key "I" [("I_ID", i)].
Definition stock_key (w i : Z) : string := row_key "S" [("S_I_ID", i); ("S_W_ID", w)].
Definition order_line_key (w d o n : Z) : string :=
  row_key "OL" [("OL_O_ID", o); ("OL_D_ID", d); ("OL_W_ID", w); ("OL_NUMBER", n)].
End rows.

(** ** Input *)

Record NewOrder := MkNewOrder {
  no_w_id : Z; no_d_id : Z; no_c_id : Z; o_entry_d : Z; ol_cnt : Z;
  ol_i_ids : list Z; ol_supply_w_ids : list Z; ol_quantities : list Z; remote : Z
}.

Record Payment := MkPayment { p_w_id : Z; p_d_id : Z; p_c_id : Z; c_w_id : Z; c_d_id : Z; h_date : Z; h_amount : Z }.

Record Delivery := MkDelivery { dl_w_id : Z; o_carrier_id : Z; ol_delivery_d : Z }.

Section input.
Context `{!RandomSource}.

(** The loops over the order lines, of [GenInputData(bool)] and of [GenInputData(uint64_t, bool)];
    the second assigns to an element of a vector that has none. *)
Fixpoint gen_lines (w : Z) (local : bool) (n : nat) : M nat (list Z * list Z * list Z) :=
  match n with
  | O => mret ([], [], [])
  | Datatypes.S n =>
      i ← Rand 8191 g_item_num;
      s ← (if local then mret w else Rand 1 g_ware_num);
      q ← Rand 1 10;
      '(items, ss, qs) ← gen_lines w local n;
      mret (i :: items, s :: ss, q :: qs)
  end.

Definition NewOrder_GenInputData (local : bool) : M nat NewOrder :=
  w ← Rand 1 g_ware_num;
  d ← Rand 1 g_dist_per_ware;
  c ← Rand 1 g_cust_per_dist;
  cnt ← Rand 5 15;
  '(items, ss, qs) ← gen_lines w local (Z.to_nat cnt);
  mret (MkNewOrder w d c 2023 cnt items ss qs (if local then 0 else 1)).

Definition NewOrder_GenInputData_at (ware_id : Z) (local : bool) : M nat NewOrder :=
  d ← Rand 1 g_dist_per_ware;
  c ← Rand 1 g_cust_per_dist;
  cnt ← Rand 5 15;
  if cnt =? 0 then mret (MkNewOrder ware_id d c 2023 cnt [] [] [] 0)
  else
    _ ← Rand 8191 g_item_num;
    _ ← (if local then mret ware_id else Rand 1 g_ware_num);
    _ ← Rand 1 10;
    undefined.

Definition Payment_GenInputData_at (w : Z) (local : bool) : M nat Payment :=
  d ← Rand 1 g_dist_per_ware;
  amount ← Rand 1 5000;
  '(cw, cd) ← (if local then mret (w, d)
               else cw ← Rand 1 g_ware_num; cd ← Rand 1 g_dist_per_ware; mret (cw, cd));
  c ← Rand 1 g_cust_per_dist;
  mret (MkPayment w d c cw cd 2023 amount).

Definition Payment_GenInputData (local : bool) : M nat Payment :=
  w ← Rand 1 g_ware_num; Payment_GenInputData_at w local.

Definition Delivery_GenInputData_at (w : Z) (local : bool) : M nat Delivery :=
  carrier ← Rand 1 g_dist_per_ware; mret (MkDelivery w carrier 2024).

Definition Delivery_GenInputData (local : bool) : M nat Delivery :=
  w ← Rand 1 g_ware_num; Delivery_GenInputData_at w local.
End input.

(** ** The transactions *)

(** The state of the driver: the store and the orders that are not delivered, by warehouse and
    district. *)
Record Driver (S : Type) := MkDriver { db : S; neworders : list (list (list Z)) }.
Arguments MkDriver {_}.
Arguments db {_} _.
Arguments neworders {_} _.

#[global] Instance Driver_eta {S} : Eta (Driver S) := λ x, MkDriver (db x) (neworders x).

Section transactions.
Context {S : Type} `{!JsonRows} `{!TxnApi S}.

Abbreviation MD := (M (Driver S)).

Definition on_db {A} (m : M S A) : MD A := λ x,
  match m (db x) with Ok (a, s) => Ok (a, x <| db := s |>) | Panic => Panic | Undefined => Undefined end.

(** A member. *)
Definition member {A} (r : res A) : MD A := lift_res r.

(** [if ((ret = client->Get(key, value))) status = false]. *)
Definition get_row (key : string) (status : bool) : MD (Z * bool * string) :=
  '(ret, value) ← on_db (Get key); mret (ret, status && (ret =? 0), value).

(** The object of a row that was read; nothing when the read failed or the text does not parse. *)
Definition parse_row (status : bool) (value : string) : MD (option tuple) :=
  if status && negb (String.eqb value "") then
    match parse value with
    | ParseError => mret None
    | OtherValue => panic
    | Object t => mret (Some t)
    end
  else mret None.

Definition put_row (key : string) (t : tuple) : MD unit := _ ← on_db (Put key (dump t)); mret tt.

(** The queue [neworders[w-1][d-1]]. *)
Definition queue_at (w d : Z) : MD (list Z) :=
  x ← get_st;
  if (w <? 1) || (d <? 1) then undefined
  else q ← deref (neworders x !! Z.to_nat (w - 1)); deref (q !! Z.to_nat (d - 1)).

Definition set_queue (w d : Z) (q : list Z) : MD unit :=
  modify (λ x, x <| neworders ::= alter (<[Z.to_nat (d - 1) := q]>) (Z.to_nat (w - 1)) |>).

(** The column of the stock row for the district. *)
Definition dist_column (d : Z) : string := if d <? 10 then "S_DIST_0" +:+ pretty d else "S_DIST_10".

Definition line_amount (quantity price : Z) (w_tax d_tax c_discount : double) : option Z :=
  of_double (dmul (dmul (to_double (u64 (quantity * price))) (dadd (dadd (to_double 1) w_tax) d_tax))
                  (dsub (to_double 1) c_discount)).

(** The quantity that is left in stock. *)
Definition left_quantity (s_quantity ol_quantity : Z) : Z :=
  if s_quantity >? u64 (ol_quantity + 10) then u64 (s_quantity - ol_quantity) else u64 (s_quantity - ol_quantity + 91).

(** The stock row of a line: the new row is computed, and the old one is written back. *)
Definition take_stock (d supply i quantity : Z) (status : bool) : MD (Z * bool * string) :=
  '(ret, status, s_value) ← get_row (stock_key supply i) status;
  srow ← parse_row status s_value;
  match srow with
  | Some r =>
      s_quantity ← member (get_uint "S_QUANTITY" r);
      _ ← member (get_string "S_DATA" r);
      info ← member (get_string (dist_column d) r);
      let new_row := set_uint "S_QUANTITY" (left_quantity s_quantity quantity) r in
      _ ← on_db (Put (stock_key supply i) s_value);
      mret (ret, status, info)
  | None => mret (ret, status, "")
  end.

(** One order line. *)
Definition order_line (t : NewOrder) (o_id : Z) (w_tax d_tax c_discount : option double) (status : bool) (n : Z) : MD (Z * bool) :=
  i ← deref (ol_i_ids t !! Z.to_nat n);
  supply ← deref (ol_supply_w_ids t !! Z.to_nat n);
  quantity ← deref (ol_quantities t !! Z.to_nat n);
  '(ret, status, i_value) ← get_row (item_key i) status;
  irow ← parse_row status i_value;
  i_price ← match irow with
            | Some r =>
                price ← member (get_uint "I_PRICE" r);
                _ ← member (get_string "I_NAME" r);
                _ ← member (get_string "I_DATA" r);
                mret (Some price)
            | None => mret None
            end;
  '(ret, status, s_dist_info) ← take_stock (no_d_id t) supply i quantity status;
  price ← deref i_price;
  wt ← deref w_tax;
  dt ← deref d_tax;
  cd ← deref c_discount;
  amount ← deref (line_amount quantity price wt dt cd);
  _ ← put_row (order_line_key (no_w_id t) (no_d_id t) o_id n)
        (set_uint "OL_AMOUNT" amount (set_string "OL_DIST_INFO" s_dist_info (set_uint "OL_QUANTITY" quantity
          (set_uint "OL_SUPPLY_W_ID" supply (set_uint "OL_I_ID" i empty_tuple)))));
  mret (ret, status).

(** The loop over the order lines. *)
Fixpoint order_lines (t : NewOrder) (o_id : Z) (w_tax d_tax c_discount : option double) (ret : Z) (status : bool) (ns : list Z) : MD Z :=
  match ns with
  | [] => mret ret
  | n :: ns =>
      '(ret, status) ← order_line t o_id w_tax d_tax c_discount status n;
      order_lines t o_id w_tax d_tax c_discount ret status ns
  end.

(** The district row: the number of the order and the tax. *)
Definition next_order (w d : Z) (status : bool) (d_value : string) : MD (option (Z * double)) :=
  drow ← parse_row status d_value;
  match drow with
  | Some r =>
      next ← member (get_uint "D_NEXT_O_ID" r);
      tax ← member (get_double "D_TAX" r);
      _ ← put_row (district_key w d) (set_uint "D_NEXT_O_ID" (u64_incr next) r);
      mret (Some (next, tax))
  | None => mret None
  end.

Definition NewOrder_RunTxn (t : NewOrder) : MD Z :=
  let w := no_w_id t in
  let d := no_d_id t in
  '(ret, status, w_value) ← get_row (warehouse_key w) true;
  wrow ← parse_row status w_value;
  w_tax ← match wrow with Some r => tax ← member (get_double "W_TAX" r); mret (Some tax) | None => mret None end;
  '(ret, status, c_value) ← get_row (customer_key w d (no_c_id t)) status;
  crow ← parse_row status c_value;
  c_discount ← match crow with
               | Some r =>
                   disc ← member (get_double "C_DISCOUNT" r);
                   _ ← member (get_string "C_LAST" r);
                   _ ← member (get_string "C_CREDIT" r);
                   mret (Some disc)
               | None => mret None
               end;
  '(ret, status, d_value) ← get_row (district_key w d) status;
  drow ← next_order w d status d_value;
  o_id ← deref (fst <$> drow);
  _ ← put_row (order_key w d o_id)
        (set_uint "O_ALL_LOCAL" (remote t) (set_uint "O_OL_CNT" (ol_cnt t) (set_uint "O_ENTRY_D" (o_entry_d t)
          (set_uint "O_C_ID" (no_c_id t) empty_tuple))));
  q ← queue_at w d;
  _ ← set_queue w d (q ++ [o_id]);
  _ ← on_db (Put (new_order_key w d o_id) "");
  order_lines t o_id w_tax (snd <$> drow) c_discount ret status (seqZ 0 (ol_cnt t)).

(** [row[name] += amount], and the row is written back. *)
Definition Payment_RunTxn (t : Payment) : MD Z :=
  '(ret, status, w_value) ← get_row (warehouse_key (p_w_id t)) true;
  wrow ← parse_row status w_value;
  _ ← match wrow with
      | Some r =>
          ytd ← member (get_uint "W_YTD" r);
          _ ← member (get_string "W_NAME" r);
          put_row (warehouse_key (p_w_id t)) (set_uint "W_YTD" (u64 (ytd + h_amount t)) r)
      | None => mret tt
      end;
  '(ret, status, d_value) ← get_row (district_key (p_w_id t) (p_d_id t)) status;
  drow ← parse_row status d_value;
  _ ← match drow with
      | Some r =>
          ytd ← member (get_uint "D_YTD" r);
          _ ← member (get_string "D_NAME" r);
          put_row (district_key (p_w_id t) (p_d_id t)) (set_uint "D_YTD" (u64 (ytd + h_amount t)) r)
      | None => mret tt
      end;
  let ckey := customer_key (c_w_id t) (c_d_id t) (p_c_id t) in
  '(ret, status, c_value) ← get_row ckey status;
  crow ← parse_row status c_value;
  _ ← match crow with
      | Some r =>
          balance ← member (get_uint "C_BALANCE" r);
          paid ← member (get_uint "C_YTD_PAYMENT" r);
          cnt ← member (get_uint "C_PAYMENT_CNT" r);
          _ ← member (get_string "C_CREDIT" r);
          put_row ckey (set_uint "C_PAYMENT_CNT" (u64_incr cnt) (set_uint "C_YTD_PAYMENT" (u64 (paid + h_amount t))
            (set_uint "C_BALANCE" (u64 (balance - h_amount t)) r)))
      | None => mret tt
      end;
  mret ret.

(** The lines of the order: the sum of their amounts. *)
Fixpoint deliver_lines (t : Delivery) (d o_id ret : Z) (status : bool) (total : Z) (ns : list Z) : MD (Z * bool * Z) :=
  match ns with
  | [] => mret (ret, status, total)
  | n :: ns =>
      let key := order_line_key (dl_w_id t) d o_id n in
      '(ret, status, value) ← get_row key status;
      row ← parse_row status value;
      total ← match row with
              | Some r =>
                  amount ← member (get_uint "OL_AMOUNT" r);
                  _ ← put_row key (set_uint "OL_DELIVERY_D" (ol_delivery_d t) r);
                  mret (u64 (total + amount))
              | None => mret total
              end;
      deliver_lines t d o_id ret status total ns
  end.

(** The oldest order of the district, which was taken out of the queue. *)
Definition deliver_order (t : Delivery) (d o_id : Z) : MD Z :=
  let w := dl_w_id t in
  '(ret, status, no_value) ← get_row (new_order_key w d o_id) true;
  if negb (ret =? 0) then mret ret
  else
    _ ← when (String.eqb no_value "") (_ ← on_db (Put (new_order_key w d o_id) "deleted"); mret tt);
    '(ret, status, o_value) ← get_row (order_key w d o_id) status;
    orow ← parse_row status o_value;
    '(o_c_id, cnt) ← match orow with
                     | Some r =>
                         c ← member (get_uint "O_C_ID" r);
                         cnt ← member (get_uint "O_OL_CNT" (set_uint "O_CARRIER_ID" (o_carrier_id t) r));
                         _ ← put_row (order_key w d o_id) (set_uint "O_CARRIER_ID" (o_carrier_id t) r);
                         mret (c, to_int cnt)
                     | None => mret (0, 0)
                     end;
    '(ret, status, total) ← deliver_lines t d o_id ret status 0 (seqZ 0 (u64 cnt));
    '(ret, status, c_value) ← get_row (customer_key w d o_c_id) status;
    crow ← parse_row status c_value;
    _ ← match crow with
        | Some r =>
            balance ← member (get_uint "C_BALANCE" r);
            put_row (customer_key w d o_c_id) (set_uint "C_BALANCE" (u64 (balance + total)) r)
        | None => mret tt
        end;
    mret ret.

(** The loop over the districts; it ends with the first one that has an order. *)
Fixpoint deliver_districts (t : Delivery) (ds : list Z) : MD Z :=
  match ds with
  | [] => mret 0
  | d :: ds =>
      q ← queue_at (dl_w_id t) d;
      match q with
      | [] => deliver_districts t ds
      | o_id :: q' => _ ← set_queue (dl_w_id t) d q'; deliver_order t d o_id
      end
  end.

Definition Delivery_RunTxn (t : Delivery) : MD Z := deliver_districts t (seqZ 1 g_dist_per_ware).
End transactions.

(** ** Keys *)

(** Reads members of objects with assigned members. *)
Create Rewrite HintDb json.
#[export] Hint Rewrite @get_set_uint @get_set_string using typeclasses eauto : json.
#[export] Hint Rewrite @get_set_double @get_uint_set_double @get_uint_other @get_double_other @get_string_other
  @get_uint_double_other @get_double_double_other @get_string_double_other
  @get_uint_string_other @get_double_string_other @get_string_string_other using (typeclasses eauto || done) : json.

Ltac members_in H := autorewrite with json in H.
Ltac members := autorewrite with json.

Fixpoint no_brace (s : string) : bool :=
  match s with EmptyString => true | String c s => negb (Ascii.eqb c "{"%char) && no_brace s end.

Lemma brace_inj t1 t2 s1 s2 :
  no_brace t1 = true → no_brace t2 = true → t1 +:+ String "{"%char s1 = t2 +:+ String "{"%char s2 → t1 = t2 ∧ s1 = s2.
Proof.
  revert t2. induction t1 as [|c t1 IH]; intros [|c' t2] H1 H2 Heq; simpl in *.
  - by simplify_eq.
  - injection Heq as <- _. by rewrite Ascii.eqb_refl in H2.
  - injection Heq as -> _. by rewrite Ascii.eqb_refl in H1.
  - apply andb_true_iff in H1 as [_ H1]. apply andb_true_iff in H2 as [_ H2]. injection Heq as <- Heq.
    destruct (IH t2 H1 H2 Heq) as [-> ->]. done.
Qed.

Section keys.
Context `{!JsonRows} `{!JsonLaws}.

Lemma row_key_inj t1 t2 f1 f2 :
  no_brace t1 = true → no_brace t2 = true → row_key t1 f1 = row_key t2 f2 → t1 = t2 ∧ key_json f1 = key_json f2.
Proof.
  intros H1 H2. unfold row_key. destruct (dump_brace (key_json f1)) as [s1 E1]. destruct (dump_brace (key_json f2)) as [s2 E2].
  rewrite E1, E2. intros Heq. destruct (brace_inj _ _ _ _ H1 H2 Heq) as [-> ->]. split; [done|].
  pose proof (parse_dump (key_json f1)) as P1. pose proof (parse_dump (key_json f2)) as P2. rewrite E1 in P1. rewrite E2 in P2. rewrite P1 in P2. by injection P2.
Qed.

Lemma row_key_table t1 t2 f1 f2 : no_brace t1 = true → no_brace t2 = true → t1 ≠ t2 → row_key t1 f1 ≠ row_key t2 f2.
Proof. intros H1 H2 Hne Heq. by destruct (row_key_inj _ _ _ _ H1 H2 Heq). Qed.

Lemma warehouse_key_inj w w' : warehouse_key w = warehouse_key w' → w = w'.
Proof.
  intros [_ Heq]%row_key_inj; [|done..]. apply (f_equal (get_uint "W_ID")) in Heq. unfold key_json in Heq. simpl in Heq.
  members_in Heq. congruence.
Qed.

Lemma district_key_inj w d w' d' : district_key w d = district_key w' d' → w = w' ∧ d = d'.
Proof.
  intros [_ Heq]%row_key_inj; [|done..]. unfold key_json in Heq. simpl in Heq.
  pose proof (f_equal (get_uint "D_W_ID") Heq) as H1. pose proof (f_equal (get_uint "D_ID") Heq) as H2.
  members_in H1. members_in H2. split; congruence.
Qed.

Lemma order_line_key_inj w d o n n' : order_line_key w d o n = order_line_key w d o n' → n = n'.
Proof.
  intros [_ Heq]%row_key_inj; [|done..]. unfold key_json in Heq. simpl in Heq.
  apply (f_equal (get_uint "OL_NUMBER")) in Heq. members_in Heq. congruence.
Qed.
End keys.

(** ** The books *)

Section books.
Context {S : Type} `{!JsonRows} `{!JsonLaws} `{!TxnApi S} `{!TxnView S}.
Implicit Types (x : Driver S) (k : string) (r : tuple).

Lemma dump_not_empty r : String.eqb (dump r) "" = false.
Proof. by destruct (dump_brace r) as [s ->]. Qed.

Lemma get_row_run k v x : view (db x) !! k = Some v → get_row k true x = Ok ((0, true, v), x).
Proof. intros Hv. unfold get_row, on_db, mbind, M_bind. rewrite (Get_view _ _ _ Hv). by destruct x. Qed.

Lemma parse_row_run r x : parse_row true (dump r) x = Ok (Some r, x).
Proof. unfold parse_row. rewrite dump_not_empty, parse_dump. done. Qed.

Lemma put_row_run k r x : ∃ x', put_row k r x = Ok (tt, x') ∧ view (db x') = <[k := dump r]> (view (db x)) ∧ neworders x' = neworders x.
Proof.
  destruct (Put_view k (dump r) (db x)) as (a & s' & Hrun & Hv). exists (x <| db := s' |>). split_and!; [|done|done].
  unfold put_row, on_db, mbind, M_bind. by rewrite Hrun.
Qed.

Lemma member_run {A} (o : res A) a x : o = Ok a → member o x = Ok (a, x).
Proof. by intros ->. Qed.

(** A number in a row of the store. *)
Definition uint_at x k (name : string) : option Z :=
  v ← view (db x) !! k;
  match parse v with Object r => match get_uint name r with Ok z => Some z | _ => None end | _ => None end.

Lemma uint_at_row x k r name : view (db x) !! k = Some (dump r) →
  uint_at x k name = match get_uint name r with Ok z => Some z | _ => None end.
Proof. intros Hv. unfold uint_at. rewrite Hv. simpl. by rewrite parse_dump. Qed.

(** The rows a payment needs. *)
Record payment_rows (t : Payment) x (rw rd rc : tuple) (wy dy bal paid cnt : Z) : Prop := {
  pr_w : view (db x) !! warehouse_key (p_w_id t) = Some (dump rw);
  pr_w_ytd : get_uint "W_YTD" rw = Ok wy;
  pr_w_name : returns (get_string "W_NAME" rw);
  pr_d : view (db x) !! district_key (p_w_id t) (p_d_id t) = Some (dump rd);
  pr_d_ytd : get_uint "D_YTD" rd = Ok dy;
  pr_d_name : returns (get_string "D_NAME" rd);
  pr_c : view (db x) !! customer_key (c_w_id t) (c_d_id t) (p_c_id t) = Some (dump rc);
  pr_balance : get_uint "C_BALANCE" rc = Ok bal;
  pr_paid : get_uint "C_YTD_PAYMENT" rc = Ok paid;
  pr_cnt : get_uint "C_PAYMENT_CNT" rc = Ok cnt;
  pr_credit : returns (get_string "C_CREDIT" rc)
}.

Definition paid_customer (t : Payment) (rc : tuple) (bal paid cnt : Z) : tuple :=
  set_uint "C_PAYMENT_CNT" (u64_incr cnt) (set_uint "C_YTD_PAYMENT" (u64 (paid + h_amount t))
    (set_uint "C_BALANCE" (u64 (bal - h_amount t)) rc)).

Lemma Payment_run t x rw rd rc wy dy bal paid cnt :
  payment_rows t x rw rd rc wy dy bal paid cnt →
  ∃ x', Payment_RunTxn t x = Ok (0, x') ∧ neworders x' = neworders x ∧
    view (db x') = <[customer_key (c_w_id t) (c_d_id t) (p_c_id t) := dump (paid_customer t rc bal paid cnt)]>
      (<[district_key (p_w_id t) (p_d_id t) := dump (set_uint "D_YTD" (u64 (dy + h_amount t)) rd)]>
      (<[warehouse_key (p_w_id t) := dump (set_uint "W_YTD" (u64 (wy + h_amount t)) rw)]> (view (db x)))).
Proof.
  intros []. destruct pr_w_name0 as [wn Hwn], pr_d_name0 as [dn Hdn], pr_credit0 as [cr Hcr].
  destruct (put_row_run (warehouse_key (p_w_id t)) (set_uint "W_YTD" (u64 (wy + h_amount t)) rw) x) as (x1 & Hp1 & Hv1 & Hn1).
  destruct (put_row_run (district_key (p_w_id t) (p_d_id t)) (set_uint "D_YTD" (u64 (dy + h_amount t)) rd) x1) as (x2 & Hp2 & Hv2 & Hn2).
  destruct (put_row_run (customer_key (c_w_id t) (c_d_id t) (p_c_id t)) (paid_customer t rc bal paid cnt) x2) as (x3 & Hp3 & Hv3 & Hn3).
  exists x3. split_and!; [|congruence|by rewrite Hv3, Hv2, Hv1]. unfold Payment_RunTxn.
  rewrite (bind_run _ _ _ _ _ (get_row_run _ _ _ pr_w0)), (bind_run _ _ _ _ _ (parse_row_run rw x)).
  erewrite (bind_run _ _ x tt x1).
  2: { rewrite (bind_run _ _ _ _ _ (member_run _ _ _ pr_w_ytd0)), (bind_run _ _ _ _ _ (member_run _ _ _ Hwn)). exact Hp1. }
  assert (view (db x1) !! district_key (p_w_id t) (p_d_id t) = Some (dump rd)) as Hd1.
  { rewrite Hv1, lookup_insert_ne; [done|]. by apply row_key_table. }
  rewrite (bind_run _ _ _ _ _ (get_row_run _ _ _ Hd1)), (bind_run _ _ _ _ _ (parse_row_run rd x1)).
  erewrite (bind_run _ _ x1 tt x2).
  2: { rewrite (bind_run _ _ _ _ _ (member_run _ _ _ pr_d_ytd0)), (bind_run _ _ _ _ _ (member_run _ _ _ Hdn)). exact Hp2. }
  assert (view (db x2) !! customer_key (c_w_id t) (c_d_id t) (p_c_id t) = Some (dump rc)) as Hc2.
  { rewrite Hv2, Hv1, !lookup_insert_ne; [done|by apply row_key_table..]. }
  rewrite (bind_run _ _ _ _ _ (get_row_run _ _ _ Hc2)), (bind_run _ _ _ _ _ (parse_row_run rc x2)).
  erewrite (bind_run _ _ x2 tt x3); [done|].
  rewrite (bind_run _ _ _ _ _ (member_run _ _ _ pr_balance0)), (bind_run _ _ _ _ _ (member_run _ _ _ pr_paid0)),
    (bind_run _ _ _ _ _ (member_run _ _ _ pr_cnt0)), (bind_run _ _ _ _ _ (member_run _ _ _ Hcr)). exact Hp3.
Qed.

(** The difference between the books of a warehouse and those of its districts. *)
Definition district_total x (w : Z) (ds : list Z) : Z :=
  foldr (λ d n, default 0 (uint_at x (district_key w d) "D_YTD") + n) 0 ds.

Definition ytd_gap x (w : Z) : Z :=
  u64 (default 0 (uint_at x (warehouse_key w) "W_YTD") - district_total x w (seqZ 1 g_dist_per_ware)).

Lemma district_total_change x x' w d v ds :
  NoDup ds → d ∈ ds → uint_at x' (district_key w d) "D_YTD" = Some v →
  (∀ d', d' ≠ d → uint_at x' (district_key w d') "D_YTD" = uint_at x (district_key w d') "D_YTD") →
  district_total x' w ds = district_total x w ds - default 0 (uint_at x (district_key w d) "D_YTD") + v.
Proof.
  intros Hnd Hin Hv Hne.
  assert (∀ l, d ∉ l → district_total x' w l = district_total x w l) as Hsame.
  { induction l as [|d' l IH]; intros Hl; [done|]. simpl. rewrite Hne by set_solver. rewrite IH by set_solver. done. }
  induction ds as [|d' ds IH]; [set_solver|]. apply NoDup_cons in Hnd as [Hd' Hnd]. simpl.
  apply elem_of_cons in Hin as [<-|Hin]; [rewrite Hv, Hsame by done; simpl; lia|].
  rewrite Hne by set_solver. rewrite IH by done. lia.
Qed.

Lemma u64_gap a b d h : u64 (u64 (a + h) - (b - d + u64 (d + h))) = u64 (a - b).
Proof.
  unfold u64. pose proof (Z.div_mod (a + h) u64_modulus ltac:(done)). pose proof (Z.div_mod (d + h) u64_modulus ltac:(done)).
  replace ((a + h) mod u64_modulus - (b - d + (d + h) mod u64_modulus))
    with (a - b + ((d + h) / u64_modulus - (a + h) / u64_modulus) * u64_modulus) by lia.
  apply Z.mod_add. done.
Qed.

(** A payment keeps the books of TPC-C.  On a store with the rows it needs, a payment returns
    zero; it adds its amount to the customer's payments and takes it off the balance, and for every
    warehouse the difference between its year-to-date sum and that of its districts (the first
    consistency condition of TPC-C asks that there is none) stays what it was. *)
Theorem payment_keeps_books (t : Payment) x rw rd rc wy dy bal paid cnt :
  payment_rows t x rw rd rc wy dy bal paid cnt → 1 ≤ p_d_id t ≤ g_dist_per_ware →
  ∃ x', Payment_RunTxn t x = Ok (0, x') ∧ (∀ w, ytd_gap x' w = ytd_gap x w) ∧
    let ckey := customer_key (c_w_id t) (c_d_id t) (p_c_id t) in
    uint_at x' ckey "C_BALANCE" = Some (u64 (bal - h_amount t)) ∧
    uint_at x' ckey "C_YTD_PAYMENT" = Some (u64 (paid + h_amount t)) ∧
    uint_at x' ckey "C_PAYMENT_CNT" = Some (u64_incr cnt).
Proof.
  intros Hrows Hd. pose proof Hrows as []. destruct (Payment_run _ _ _ _ _ _ _ _ _ _ Hrows) as (x' & Hrun & _ & Hv).
  exists x'. split; [done|].
  assert (∀ name, uint_at x' (customer_key (c_w_id t) (c_d_id t) (p_c_id t)) name = match get_uint name (paid_customer t rc bal paid cnt) with Ok z => Some z | _ => None end) as Hc.
  { intros name. apply uint_at_row. by rewrite Hv, lookup_insert_eq. }
  assert (∀ w, w ≠ p_w_id t → uint_at x' (warehouse_key w) "W_YTD" = uint_at x (warehouse_key w) "W_YTD") as Hw.
  { intros w Hne. unfold uint_at. rewrite Hv, !lookup_insert_ne; [done|..]; [|by apply row_key_table..].
    intros ?%warehouse_key_inj. congruence. }
  assert (∀ w d, (w, d) ≠ (p_w_id t, p_d_id t) → uint_at x' (district_key w d) "D_YTD" = uint_at x (district_key w d) "D_YTD") as Hds.
  { intros w d Hne. unfold uint_at. rewrite Hv, !lookup_insert_ne; [done|..]; [by apply row_key_table| |by apply row_key_table].
    intros [? ?]%district_key_inj. congruence. }
  split; [|split_and!; rewrite Hc; unfold paid_customer; by members].
  intros w. unfold ytd_gap. destruct (decide (w = p_w_id t)) as [->|Hne].
  - assert (uint_at x' (warehouse_key (p_w_id t)) "W_YTD" = Some (u64 (wy + h_amount t))) as ->.
    { rewrite (uint_at_row _ _ (set_uint "W_YTD" (u64 (wy + h_amount t)) rw)); [by members|].
      rewrite Hv, !lookup_insert_ne by (by apply row_key_table). by rewrite lookup_insert_eq. }
    rewrite (district_total_change x x' (p_w_id t) (p_d_id t) (u64 (dy + h_amount t))).
    + rewrite (uint_at_row _ _ _ _ pr_d0), pr_d_ytd0, (uint_at_row _ _ _ _ pr_w0), pr_w_ytd0. apply u64_gap.
    + apply NoDup_seqZ.
    + apply elem_of_seqZ. unfold g_dist_per_ware in *. lia.
    + rewrite (uint_at_row _ _ (set_uint "D_YTD" (u64 (dy + h_amount t)) rd)); [by members|].
      rewrite Hv, lookup_insert_ne by (by apply row_key_table). by rewrite lookup_insert_eq.
    + intros d' Hd'. apply Hds. congruence.
  - rewrite Hw by done. f_equal. f_equal. generalize (seqZ 1 g_dist_per_ware). induction l as [|d l IH]; [done|].
    simpl. rewrite Hds by congruence. by rewrite IH.
Qed.

(** ** New orders *)

(** The rows that line [n] of an order needs. *)
Definition line_rows (t : NewOrder) (m : gmap string string) (wt dt cd : double) (n : Z) : Prop :=
  ∃ i supply q ri rs price sq info amount,
    (ol_i_ids t !! Z.to_nat n = Some i ∧ ol_supply_w_ids t !! Z.to_nat n = Some supply ∧ ol_quantities t !! Z.to_nat n = Some q) ∧
    (m !! item_key i = Some (dump ri) ∧ get_uint "I_PRICE" ri = Ok price ∧ returns (get_string "I_NAME" ri) ∧ returns (get_string "I_DATA" ri)) ∧
    (m !! stock_key supply i = Some (dump rs) ∧ get_uint "S_QUANTITY" rs = Ok sq ∧ returns (get_string "S_DATA" rs) ∧
     get_string (dist_column (no_d_id t)) rs = Ok info) ∧
    line_amount q price wt dt cd = Some amount.

(** Maps that differ in order lines only. *)
Definition lines_only (m m' : gmap string string) : Prop :=
  ∀ table fields, no_brace table = true → table ≠ "OL" → m' !! row_key table fields = m !! row_key table fields.

Lemma line_rows_lines t m m' wt dt cd n : lines_only m m' → line_rows t m wt dt cd n → line_rows t m' wt dt cd n.
Proof.
  intros Hm (i & su & q & ri & rs & pr & sq & info & am & H1 & (Hi & H2) & (Hs & H3) & H4).
  exists i, su, q, ri, rs, pr, sq, info, am. unfold item_key, stock_key in *. rewrite !Hm by done. done.
Qed.

Lemma order_line_run t o wt dt cd x n :
  line_rows t (view (db x)) wt dt cd n →
  ∃ x' v, order_line t o (Some wt) (Some dt) (Some cd) true n x = Ok ((0, true), x') ∧
    view (db x') = <[order_line_key (no_w_id t) (no_d_id t) o n := v]> (view (db x)) ∧ neworders x' = neworders x.
Proof.
  intros (i & su & q & ri & rs & pr & sq & info & am & (Hi & Hsu & Hq) & (Hri & Hpr & [nm Hnm] & [dat Hdat]) & (Hrs & Hsq & [sd Hsd] & Hinfo) & Ham).
  unfold order_line.
  rewrite (bind_run _ _ x i x) by (by rewrite Hi). rewrite (bind_run _ _ x su x) by (by rewrite Hsu). rewrite (bind_run _ _ x q x) by (by rewrite Hq).
  rewrite (bind_run _ _ _ _ _ (get_row_run _ _ _ Hri)), (bind_run _ _ _ _ _ (parse_row_run ri x)).
  erewrite (bind_run _ _ x (Some pr) x).
  2: { rewrite (bind_run _ _ _ _ _ (member_run _ _ _ Hpr)), (bind_run _ _ _ _ _ (member_run _ _ _ Hnm)),
         (bind_run _ _ _ _ _ (member_run _ _ _ Hdat)). done. }
  destruct (Put_view (stock_key su i) (dump rs) (db x)) as (a & s1 & Hput & Hv1). rewrite insert_id in Hv1 by done.
  erewrite (bind_run _ _ x (0, true, info) (x <| db := s1 |>)).
  2: { unfold take_stock. rewrite (bind_run _ _ _ _ _ (get_row_run _ _ _ Hrs)), (bind_run _ _ _ _ _ (parse_row_run rs x)),
         (bind_run _ _ _ _ _ (member_run _ _ _ Hsq)), (bind_run _ _ _ _ _ (member_run _ _ _ Hsd)),
         (bind_run _ _ _ _ _ (member_run _ _ _ Hinfo)). cbv zeta. erewrite bind_run; [done|]. unfold on_db. by rewrite Hput. }
  set (x1 := x <| db := s1 |>).
  rewrite (bind_run _ _ x1 pr x1), (bind_run _ _ x1 wt x1), (bind_run _ _ x1 dt x1), (bind_run _ _ x1 cd x1) by done.
  rewrite (bind_run _ _ x1 am x1) by (by rewrite Ham).
  match goal with |- context [put_row ?k ?r] => destruct (put_row_run k r x1) as (x2 & Hp & Hv2 & Hn2) end.
  rewrite (bind_run _ _ _ _ _ Hp). eexists x2, _. split_and!; [done| |done]. rewrite Hv2. simpl. by rewrite Hv1.
Qed.

Lemma order_lines_run t o wt dt cd ns : ∀ x,
  (∀ n, n ∈ ns → line_rows t (view (db x)) wt dt cd n) →
  ∃ x', order_lines t o (Some wt) (Some dt) (Some cd) 0 true ns x = Ok (0, x') ∧ neworders x' = neworders x ∧
    lines_only (view (db x)) (view (db x')) ∧
    (∀ n, n ∈ ns → is_Some (view (db x') !! order_line_key (no_w_id t) (no_d_id t) o n)) ∧
    ∀ k, is_Some (view (db x) !! k) → is_Some (view (db x') !! k).
Proof.
  induction ns as [|n ns IH]; intros x Hns.
  { exists x. split_and!; try done. set_solver. }
  destruct (order_line_run t o wt dt cd x n) as (x1 & v & Hrun & Hv & Hn); [apply Hns; set_solver|].
  assert (lines_only (view (db x)) (view (db x1))) as Hl1.
  { intros table fields Ht Hne. rewrite Hv, lookup_insert_ne; [done|]. by apply row_key_table. }
  destruct (IH x1) as (x2 & Hrun2 & Hn2 & Hl2 & Hall & Hmono).
  { intros n' Hn'. eapply line_rows_lines; [exact Hl1|]. apply Hns. set_solver. }
  exists x2. split_and!.
  - cbn [order_lines]. rewrite (bind_run _ _ _ _ _ Hrun). exact Hrun2.
  - congruence.
  - intros table fields Ht Hne. rewrite Hl2 by done. by apply Hl1.
  - intros n' [-> |Hn']%elem_of_cons; [|by apply Hall]. apply Hmono. rewrite Hv, lookup_insert_eq. by eexists.
  - intros k Hk. apply Hmono. rewrite Hv, lookup_insert. case_decide; [by eexists|done].
Qed.

(** The rows an order needs. *)
Record order_rows (t : NewOrder) x (wt dt cd : double) (next : Z) (q : list Z) : Prop := {
  or_w : ∃ r, view (db x) !! warehouse_key (no_w_id t) = Some (dump r) ∧ get_double "W_TAX" r = Ok wt;
  or_c : ∃ r, view (db x) !! customer_key (no_w_id t) (no_d_id t) (no_c_id t) = Some (dump r) ∧ get_double "C_DISCOUNT" r = Ok cd ∧
    returns (get_string "C_LAST" r) ∧ returns (get_string "C_CREDIT" r);
  or_d : ∃ r, view (db x) !! district_key (no_w_id t) (no_d_id t) = Some (dump r) ∧ get_uint "D_NEXT_O_ID" r = Ok next ∧
    get_double "D_TAX" r = Ok dt;
  or_queue : queue_at (no_w_id t) (no_d_id t) x = Ok (q, x);
  or_lines : ∀ n, 0 ≤ n < ol_cnt t → line_rows t (view (db x)) wt dt cd n
}.

Lemma queue_at_Ok w d x q : queue_at w d x = Ok (q, x) ↔
  1 ≤ w ∧ 1 ≤ d ∧ ∃ qs, neworders x !! Z.to_nat (w - 1) = Some qs ∧ qs !! Z.to_nat (d - 1) = Some q.
Proof.
  unfold queue_at, mbind, M_bind, get_st. destruct (Z.ltb_spec w 1), (Z.ltb_spec d 1); simpl; [split; [done|lia]..|].
  destruct (neworders x !! _) as [qs|]; simpl; [|split; [done|naive_solver]].
  destruct (qs !! _) as [q'|] eqn:E; simpl; split; try done.
  - intros [= ->]. eauto 10 with lia.
  - intros (_ & _ & ? & [= <-] & [= <-]%(eq_trans (eq_sym E))). done.
  - naive_solver.
Qed.

Lemma set_queue_run w d q q' x :
  queue_at w d x = Ok (q, x) → ∃ x', set_queue w d q' x = Ok (tt, x') ∧ db x' = db x ∧ queue_at w d x' = Ok (q', x').
Proof.
  intros (Hw & Hd & qs & Hqs & Hq)%queue_at_Ok. eexists. split; [reflexivity|]. split; [done|]. apply queue_at_Ok. split_and!; [done..|].
  simpl. rewrite list_lookup_alter_eq, Hqs. simpl. eexists. split; [done|]. apply list_lookup_insert_eq. by eapply lookup_lt_Some.
Qed.

Lemma NewOrder_run (t : NewOrder) x wt dt cd next q :
  order_rows t x wt dt cd next q →
  ∃ x', NewOrder_RunTxn t x = Ok (0, x') ∧
    uint_at x' (district_key (no_w_id t) (no_d_id t)) "D_NEXT_O_ID" = Some (u64_incr next) ∧
    uint_at x' (order_key (no_w_id t) (no_d_id t) next) "O_OL_CNT" = Some (ol_cnt t) ∧
    view (db x') !! new_order_key (no_w_id t) (no_d_id t) next = Some "" ∧
    (∀ n, 0 ≤ n < ol_cnt t → is_Some (view (db x') !! order_line_key (no_w_id t) (no_d_id t) next n)) ∧
    queue_at (no_w_id t) (no_d_id t) x' = Ok (q ++ [next], x').
Proof.
  intros [(rw & Hrw & Hwt) (rc & Hrc & Hcd & [la Hla] & [cr Hcr]) (rd & Hrd & Hnext & Hdt) Hq Hlines].
  set (w := no_w_id t) in *. set (d := no_d_id t) in *. unfold NewOrder_RunTxn. cbv zeta. fold w d.
  rewrite (bind_run _ _ _ _ _ (get_row_run _ _ _ Hrw)), (bind_run _ _ _ _ _ (parse_row_run rw x)).
  erewrite (bind_run _ _ x (Some wt) x) by (by rewrite (bind_run _ _ _ _ _ (member_run _ _ _ Hwt))).
  rewrite (bind_run _ _ _ _ _ (get_row_run _ _ _ Hrc)), (bind_run _ _ _ _ _ (parse_row_run rc x)).
  erewrite (bind_run _ _ x (Some cd) x).
  2: { rewrite (bind_run _ _ _ _ _ (member_run _ _ _ Hcd)), (bind_run _ _ _ _ _ (member_run _ _ _ Hla)),
         (bind_run _ _ _ _ _ (member_run _ _ _ Hcr)). done. }
  rewrite (bind_run _ _ _ _ _ (get_row_run _ _ _ Hrd)).
  destruct (put_row_run (district_key w d) (set_uint "D_NEXT_O_ID" (u64_incr next) rd) x) as (x1 & Hp1 & Hv1 & Hn1).
  erewrite (bind_run _ _ x (Some (next, dt)) x1).
  2: { unfold next_order. rewrite (bind_run _ _ _ _ _ (parse_row_run rd x)), (bind_run _ _ _ _ _ (member_run _ _ _ Hnext)),
         (bind_run _ _ _ _ _ (member_run _ _ _ Hdt)), (bind_run _ _ _ _ _ Hp1). done. }
  rewrite (bind_run _ _ x1 next x1) by done.
  set (ro := set_uint "O_ALL_LOCAL" _ _). destruct (put_row_run (order_key w d next) ro x1) as (x2 & Hp2 & Hv2 & Hn2).
  rewrite (bind_run _ _ _ _ _ Hp2).
  assert (queue_at w d x2 = Ok (q, x2)) as Hq2. { apply queue_at_Ok. rewrite Hn2, Hn1. by apply queue_at_Ok. }
  rewrite (bind_run _ _ _ _ _ Hq2). destruct (set_queue_run w d q (q ++ [next]) x2 Hq2) as (x3 & Hset & Hdb3 & Hq3).
  rewrite (bind_run _ _ _ _ _ Hset).
  destruct (Put_view (new_order_key w d next) "" (db x3)) as (a & s4 & Hput & Hv4). set (x4 := x3 <| db := s4 |>).
  rewrite (bind_run _ _ x3 a x4) by (unfold on_db; by rewrite Hput).
  assert (view (db x4) = <[new_order_key w d next := ""]> (<[order_key w d next := dump ro]>
    (<[district_key w d := dump (set_uint "D_NEXT_O_ID" (u64_incr next) rd)]> (view (db x))))) as Hview.
  { simpl. by rewrite Hv4, Hdb3, Hv2, Hv1. }
  destruct (order_lines_run t next wt dt cd (seqZ 0 (ol_cnt t)) x4) as (x5 & Hrun & Hn5 & Hl5 & Hall & _).
  { intros n Hn%elem_of_seqZ. destruct (Hlines n ltac:(lia)) as (i & su & qq & ri & rs & pr & sq & info & am & H1 & (Hi & H2) & (Hs & H3) & H4).
    exists i, su, qq, ri, rs, pr, sq, info, am. rewrite Hview. split_and!; try tauto; by rewrite !lookup_insert_ne by (by apply row_key_table). }
  exists x5. split_and!.
  - exact Hrun.
  - rewrite (uint_at_row _ _ (set_uint "D_NEXT_O_ID" (u64_incr next) rd)); [by members|]. unfold district_key in *. rewrite Hl5 by done.
    rewrite Hview, !lookup_insert_ne by (by apply row_key_table). by rewrite lookup_insert_eq.
  - rewrite (uint_at_row _ _ ro); [unfold ro; by members|]. unfold order_key in *. rewrite Hl5 by done.
    rewrite Hview, lookup_insert_ne by (by apply row_key_table). by rewrite lookup_insert_eq.
  - unfold new_order_key in *. rewrite Hl5 by done. by rewrite Hview, lookup_insert_eq.
  - intros n Hn. apply Hall, elem_of_seqZ. lia.
  - apply queue_at_Ok. rewrite Hn5. by apply queue_at_Ok in Hq3.
Qed.

(** An order gets the next number of its district.  On a store with the rows it needs, a new order
    returns zero; the order is stored under the number the district had next, with all its lines, and
    queued for delivery behind the others, and the district's next number is one more. *)
Theorem new_order_numbers (t : NewOrder) x wt dt cd next q :
  order_rows t x wt dt cd next q →
  ∃ x', NewOrder_RunTxn t x = Ok (0, x') ∧
    uint_at x' (district_key (no_w_id t) (no_d_id t)) "D_NEXT_O_ID" = Some (u64_incr next) ∧
    uint_at x' (order_key (no_w_id t) (no_d_id t) next) "O_OL_CNT" = Some (ol_cnt t) ∧
    view (db x') !! new_order_key (no_w_id t) (no_d_id t) next = Some "" ∧
    (∀ n, 0 ≤ n < ol_cnt t → is_Some (view (db x') !! order_line_key (no_w_id t) (no_d_id t) next n)) ∧
    queue_at (no_w_id t) (no_d_id t) x' = Ok (q ++ [next], x').
Proof. apply NewOrder_run. Qed.

(** ** What goes wrong *)

(** The stock is as in [m]. *)
Definition stock_is (m : gmap string string) x : Prop := ∀ w i, view (db x) !! stock_key w i = m !! stock_key w i.

Lemma get_row_stock m k status x : stock_is m x →
  wlp (get_row k status) (λ a x', stock_is m x' ∧ (a.1.2 = true → a.2 ≠ "" → view (db x') !! k = Some a.2)) x.
Proof.
  intros Hx. unfold get_row, on_db, post, mbind, M_bind. destruct (Get k (db x)) as [[[ret v] s']| |] eqn:E; simpl; [|done..].
  destruct (Get_same _ _ _ _ _ E) as [Hv Hr]. split; [intros w i; simpl; rewrite Hv; apply Hx|].
  simpl. rewrite Hv. intros [_ Hret]%andb_true_iff. apply Hr. lia.
Qed.

Lemma get_row_preserves m k status : preserves (stock_is m) (get_row k status).
Proof. intros x Hx. eapply post_mono; [by apply get_row_stock|]. naive_solver. Qed.

Lemma parse_row_preserves m status v : preserves (stock_is m) (parse_row status v).
Proof. intros x Hx. unfold parse_row. destruct (_ && _); [|done]. by destruct (parse v). Qed.

Lemma member_preserves {A} m (o : res A) : preserves (stock_is m) (member o).
Proof. intros x Hx. by destruct o. Qed.

(** Other tables are no matter, and neither is a stock row that is written back. *)
Lemma Put_stock m k v x : stock_is m x →
  (view (db x) !! k = Some v ∨ ∃ table fields, k = row_key table fields ∧ no_brace table = true ∧ table ≠ "S") →
  wlp (on_db (Put k v)) (λ _ x', stock_is m x') x.
Proof.
  intros Hx Hk. unfold on_db, post. destruct (Put_view k v (db x)) as (a & s' & -> & Hv). intros w i. simpl. rewrite Hv.
  destruct Hk as [Hk|(table & fields & -> & Ht & Hne)]; [by rewrite insert_id|].
  rewrite lookup_insert_ne; [apply Hx|]. by apply row_key_table.
Qed.

Lemma put_row_preserves m table fields r :
  no_brace table = true → table ≠ "S" → preserves (stock_is m) (put_row (row_key table fields) r).
Proof.
  intros Ht Hne. apply preserves_bind; [|intros; apply preserves_ret]. intros x Hx. apply Put_stock; [done|]. right. eauto.
Qed.

Create HintDb stock.
#[local] Hint Resolve get_row_preserves parse_row_preserves member_preserves preserves_ret preserves_deref : stock.

Ltac stock_step :=
  first [ apply preserves_bind; [solve [eauto with stock]|intros ?]
        | solve [eauto with stock]
        | match goal with
          | |- preserves _ (match ?a with Some _ => _ | None => _ end ≫= _) => apply preserves_bind; [destruct a|intros ?]
          | |- preserves _ (let '(_, _) := ?a in _) => destruct a
          | |- preserves _ (put_row _ _ ≫= _) => apply preserves_bind; [by apply put_row_preserves|intros ?]
          | |- preserves _ (put_row _ _) => by apply put_row_preserves
          end ].

Lemma take_stock_preserves m d supply i quantity status : preserves (stock_is m) (take_stock d supply i quantity status).
Proof.
  intros x Hx. unfold take_stock. apply post_bind. eapply post_mono; [by apply get_row_stock|].
  intros [[ret st] v] x1 [Hx1 Hv]. simpl in Hv. apply post_bind. unfold parse_row. destruct st; [|done].
  destruct (String.eqb_spec v "") as [->|Hne]; [done|]. simpl. destruct (parse v) as [| |r]; [done|done|]. unfold post at 1. simpl.
  destruct (get_uint "S_QUANTITY" r), (get_string "S_DATA" r), (get_string (dist_column d) r); try done.
  do 3 run. apply post_bind. eapply post_mono; [apply Put_stock; [done|left; by apply Hv]|]. done.
Qed.

#[local] Hint Resolve take_stock_preserves : stock.

Lemma order_line_preserves m t o wt dt cd status n : preserves (stock_is m) (order_line t o wt dt cd status n).
Proof. unfold order_line. repeat stock_step. Qed.

#[local] Hint Resolve order_line_preserves : stock.

Lemma order_lines_preserves m t o wt dt cd ns : ∀ ret status, preserves (stock_is m) (order_lines t o wt dt cd ret status ns).
Proof. induction ns as [|n ns IH]; intros ret status; cbn [order_lines]; repeat stock_step. Qed.

Lemma queue_at_preserves m w d : preserves (stock_is m) (queue_at w d).
Proof. intros x Hx. unfold queue_at, post, mbind, M_bind, get_st. destruct (_ || _); [done|]. destruct (neworders x !! _) as [qs|]; [|done]. simpl. by destruct (qs !! _). Qed.

Lemma set_queue_preserves m w d q : preserves (stock_is m) (set_queue w d q).
Proof. by intros x Hx. Qed.

Lemma next_order_preserves m w d status v : preserves (stock_is m) (next_order w d status v).
Proof. unfold next_order. apply preserves_bind; [eauto with stock|]. intros [r|]; repeat stock_step. Qed.

#[local] Hint Resolve order_lines_preserves queue_at_preserves set_queue_preserves next_order_preserves : stock.

(** The stock never changes.  Whatever the store holds and whichever reads fail, a new order that
    returns leaves every stock row as it was, although it computes the quantity that is left: the
    line that puts the new row into the value is commented out. *)
Theorem new_order_never_changes_stock (t : NewOrder) x x' ret w i :
  NewOrder_RunTxn t x = Ok (ret, x') → view (db x') !! stock_key w i = view (db x) !! stock_key w i.
Proof.
  intros Hrun. assert (preserves (stock_is (view (db x))) (NewOrder_RunTxn t)) as Hp; [|].
  { unfold NewOrder_RunTxn. cbv zeta. repeat stock_step.
    all: try (apply preserves_bind; [|intros ?; repeat stock_step]; intros y Hy; apply Put_stock; [done|right; eauto 10]). }
  specialize (Hp x ltac:(done)). unfold post in Hp. rewrite Hrun in Hp. apply Hp.
Qed.

(** A failed read of the warehouse makes a new order use a variable that has no value.  When the
    first read fails and the others return, the number of the order is used although it was never
    read. *)
Theorem new_order_after_failed_read (t : NewOrder) x ret v s :
  (∀ k s, ∃ a, Get k s = Ok a) → Get (warehouse_key (no_w_id t)) (db x) = Ok ((ret, v), s) → ret ≠ 0 →
  NewOrder_RunTxn t x = Undefined.
Proof.
  intros Hget Hw Hret.
  assert (∀ k y, ∃ ret v y', get_row k false y = Ok ((ret, false, v), y')) as Hrow.
  { intros k y. destruct (Hget k (db y)) as [[[r1 v1] s1] E]. unfold get_row, on_db, mbind, M_bind. rewrite E. eauto. }
  assert (get_row (warehouse_key (no_w_id t)) true x = Ok ((ret, false, v), x <| db := s |>)) as E1.
  { unfold get_row, on_db, mbind, M_bind. rewrite Hw. simpl. by rewrite (proj2 (Z.eqb_neq ret 0)). }
  unfold NewOrder_RunTxn. cbv zeta. rewrite (bind_run _ _ _ _ _ E1). unfold parse_row. simpl andb.
  set (x1 := x <| db := s |>). rewrite (bind_run _ _ x1 None x1), (bind_run _ _ x1 None x1) by done.
  destruct (Hrow (customer_key (no_w_id t) (no_d_id t) (no_c_id t)) x1) as (r2 & v2 & x2 & E2). rewrite (bind_run _ _ _ _ _ E2).
  simpl andb. rewrite (bind_run _ _ x2 None x2), (bind_run _ _ x2 None x2) by done.
  destruct (Hrow (district_key (no_w_id t) (no_d_id t)) x2) as (r3 & v3 & x3 & E3). rewrite (bind_run _ _ _ _ _ E3).
  by rewrite (bind_run _ _ x3 None x3).
Qed.
End books.

(** ** Input *)

Section input_ok.
Context `{!RandomSource}.

Lemma Rand_ok lo hi i : lo ≤ hi → wp (Rand lo hi) (λ v _, lo ≤ v ≤ hi) i.
Proof.
  intros Hle. unfold Rand, post. rewrite Z.gtb_ltb, (proj2 (Z.ltb_ge hi lo)) by lia.
  pose proof (Z.mod_pos_bound (draw i) (hi - lo + 1) ltac:(lia)). lia.
Qed.

Lemma Rand_bind_ok {A} lo hi (k : Z → M nat A) Q i :
  lo ≤ hi → (∀ v j, lo ≤ v ≤ hi → wp (k v) Q j) → wp (Rand lo hi ≫= k) Q i.
Proof. intros Hle Hk. apply post_bind. eapply post_mono; [by apply Rand_ok|]. auto. Qed.

(** Every line has an item, a warehouse and a quantity. *)
Definition lines_ok (w : Z) (n : nat) (l : list Z * list Z * list Z) : Prop :=
  (length l.1.1 = n ∧ length l.1.2 = n ∧ length l.2 = n) ∧
  Forall (λ i, 8191 ≤ i ≤ g_item_num) l.1.1 ∧ Forall (λ s, s = w ∨ 1 ≤ s ≤ g_ware_num) l.1.2 ∧ Forall (λ q, 1 ≤ q ≤ 10) l.2.

Lemma gen_lines_ok w local n : ∀ i, wp (gen_lines w local n) (λ l _, lines_ok w n l) i.
Proof.
  induction n as [|n IH]; intros i; cbn [gen_lines]; [by unfold post, lines_ok; simpl; split_and!|].
  apply Rand_bind_ok; [done|]. intros it j Hit.
  apply post_bind. apply (post_mono _ _ (λ s _, s = w ∨ 1 ≤ s ≤ g_ware_num)).
  { destruct local; [by left|]. eapply post_mono; [by apply Rand_ok|]. auto. }
  intros s j2 Hs. apply Rand_bind_ok; [done|]. intros q j3 Hq. apply post_bind. eapply post_mono; [apply IH|].
  intros [[items ss] qs] j4 ((H1 & H2 & H3) & F1 & F2 & F3). simpl in *. unfold post, mret, M_ret. split_and!; simpl; try lia; by constructor.
Qed.

Lemma NewOrder_GenInputData_ok (local : bool) (i : nat) :
  wp (NewOrder_GenInputData local) (λ t _,
    1 ≤ no_w_id t ≤ g_ware_num ∧ 1 ≤ no_d_id t ≤ g_dist_per_ware ∧ 1 ≤ no_c_id t ≤ g_cust_per_dist ∧ 5 ≤ ol_cnt t ≤ 15 ∧
    lines_ok (no_w_id t) (Z.to_nat (ol_cnt t)) (ol_i_ids t, ol_supply_w_ids t, ol_quantities t)) i.
Proof.
  unfold NewOrder_GenInputData. apply Rand_bind_ok; [done|]. intros w j1 Hw. apply Rand_bind_ok; [done|]. intros d j2 Hd.
  apply Rand_bind_ok; [done|]. intros c j3 Hc. apply Rand_bind_ok; [done|]. intros cnt j4 Hcnt.
  apply post_bind. eapply post_mono; [apply gen_lines_ok|]. intros [[items ss] qs] j5 Hl. unfold post, mret, M_ret. by split_and!; simpl; try lia.
Qed.

(** The generated orders are well-formed.  Whatever numbers are drawn, the input of a new order
    has a warehouse, a district and a customer in range and between five and fifteen lines, and
    there is an item, a supplying warehouse and a quantity in range for each of them; but the
    variant for a given warehouse always writes into a vector without elements. *)
Theorem new_order_input_ok (local : bool) (i : nat) :
  wp (NewOrder_GenInputData local) (λ t _,
    1 ≤ no_w_id t ≤ g_ware_num ∧ 1 ≤ no_d_id t ≤ g_dist_per_ware ∧ 1 ≤ no_c_id t ≤ g_cust_per_dist ∧ 5 ≤ ol_cnt t ≤ 15 ∧
    lines_ok (no_w_id t) (Z.to_nat (ol_cnt t)) (ol_i_ids t, ol_supply_w_ids t, ol_quantities t)) i ∧
  ∀ w, NewOrder_GenInputData_at w local i = Undefined.
Proof.
  split.
  - apply NewOrder_GenInputData_ok.
  - intros w. unfold NewOrder_GenInputData_at. pose proof (Rand_ok 5 15) as Hr.
    destruct (Rand 1 g_dist_per_ware i) as [[d j1]| |] eqn:E1; [|done|done].
    unfold mbind at 1, M_bind at 1. rewrite E1. destruct (Rand 1 g_cust_per_dist j1) as [[c j2]| |] eqn:E2; [|done|done].
    unfold mbind at 1, M_bind at 1. rewrite E2. specialize (Hr j2 ltac:(done)). unfold post in Hr.
    destruct (Rand 5 15 j2) as [[cnt j3]| |] eqn:E3; [|done|done]. unfold mbind at 1, M_bind at 1. rewrite E3.
    rewrite (proj2 (Z.eqb_neq cnt 0)) by lia. by destruct local.
Qed.
End input_ok.

(** ** Witnesses *)

(** Objects as maps from names to numbers and strings; their text is a number in binary. *)
Module Demo.
#[export] Instance double_eq_dec : EqDecision double.
Proof. solve_decision. Defined.

Definition double_code (x : double) : bool + bool + unit + (bool * positive * Z) :=
  match x with
  | S754_zero s => inl (inl (inl s))
  | S754_infinity s => inl (inl (inr s))
  | S754_nan => inl (inr tt)
  | S754_finite s m e => inr (s, m, e)
  end.

Definition code_double (c : bool + bool + unit + (bool * positive * Z)) : double :=
  match c with
  | inl (inl (inl s)) => S754_zero s
  | inl (inl (inr s)) => S754_infinity s
  | inl (inr _) => S754_nan
  | inr (s, m, e) => S754_finite s m e
  end.

#[export] Instance double_countable : Countable double.
Proof. apply (inj_countable' double_code code_double). by intros []. Defined.

Abbreviation demo_tuple := (gmap string (Z + double + string)).

#[export] Instance demo_rows : JsonRows := {
  tuple := demo_tuple;
  empty_tuple := ∅;
  parse s := match s with
             | String _ s => match decode (undigits s) with Some t => Object t | None => ParseError end
             | EmptyString => ParseError
             end;
  dump t := String "{"%char (digits (encode t));
  get_uint k t := match (t : demo_tuple) !! k with Some (inl (inl z)) => Ok z | Some (inl (inr x)) => cast_uint x | _ => Panic end;
  get_double k t := match (t : demo_tuple) !! k with Some (inl (inl z)) => Ok (to_double z) | Some (inl (inr x)) => Ok x | _ => Panic end;
  get_string k t := match (t : demo_tuple) !! k with Some (inr s) => Ok s | _ => Panic end;
  set_uint k z t := <[k := inl (inl z)]> (t : demo_tuple);
  set_double k x t := <[k := inl (inr x)]> (t : demo_tuple);
  set_string k s t := <[k := inr s]> (t : demo_tuple)
}.

#[export] Instance demo_laws : JsonLaws.
Proof.
  split; simpl; try (intros; by rewrite lookup_insert_eq); try (intros; by rewrite lookup_insert_ne).
  - intros t. by rewrite undigits_digits, decode_encode.
  - eauto.
Qed.

(** A store that is its own view; a key that is not there cannot be read. *)
#[export] Instance demo_api : TxnApi (gmap string string) := {
  Get k := λ s, Ok (match s !! k with Some v => (0, v) | None => (1, "") end, s);
  Put k v := λ s, Ok (0, <[k := v]> s)
}.

#[export] Instance demo_view : TxnView (gmap string string).
Proof.
  refine {| view := λ s, s |}.
  - intros k v s Hk. simpl. by rewrite Hk.
  - intros k s ret v s' Hget. simpl in Hget. destruct (s !! k) eqn:Hk; simplify_eq; split; congruence.
  - intros k v s. by eexists _, _.
Defined.

Definition row (nums : list (string * Z)) (names : list string) : tuple :=
  foldr (λ n t, set_string n "x" t) (key_json nums) names.

Definition stock_row : tuple := row [("S_QUANTITY", 50)] ["S_DATA"; "S_DIST_01"].

Definition demo_db : gmap string string :=
  <[warehouse_key 1 := dump (row [("W_YTD", 100); ("W_TAX", 0)] ["W_NAME"])]>
  (<[district_key 1 1 := dump (row [("D_YTD", 100); ("D_NEXT_O_ID", 7); ("D_TAX", 0)] ["D_NAME"])]>
  (<[customer_key 1 1 1 := dump (row [("C_BALANCE", 40); ("C_YTD_PAYMENT", 5); ("C_PAYMENT_CNT", 1); ("C_DISCOUNT", 0)]
                             ["C_CREDIT"; "C_LAST"])]>
  (<[item_key 9000 := dump (row [("I_PRICE", 3)] ["I_NAME"; "I_DATA"])]>
  (<[stock_key 1 9000 := dump stock_row]> ∅)))).

Definition demo_driver : Driver (gmap string string) := MkDriver demo_db (repeat (repeat [] 10) 30).
Definition demo_payment : Payment := MkPayment 1 1 1 1 1 2023 12.
Definition demo_order : NewOrder := MkNewOrder 1 1 1 2023 1 [9000] [1] [2] 0.
End Demo.
Import Demo.

(** Looks a key up among rows of other tables. *)
Ltac demo_lookup :=
  cbn [db view Demo.demo_view Demo.demo_driver]; unfold Demo.demo_db;
  repeat first [by rewrite lookup_insert_eq | rewrite lookup_insert_ne by (by apply row_key_table)].

Lemma payment_keeps_books_witness :
  ∃ x', Payment_RunTxn Demo.demo_payment Demo.demo_driver = Ok (0, x') ∧
    uint_at x' (customer_key 1 1 1) "C_BALANCE" = Some 28.
Proof.
  destruct (payment_keeps_books Demo.demo_payment Demo.demo_driver
    (Demo.row [("W_YTD", 100); ("W_TAX", 0)] ["W_NAME"])
    (Demo.row [("D_YTD", 100); ("D_NEXT_O_ID", 7); ("D_TAX", 0)] ["D_NAME"])
    (Demo.row [("C_BALANCE", 40); ("C_YTD_PAYMENT", 5); ("C_PAYMENT_CNT", 1); ("C_DISCOUNT", 0)] ["C_CREDIT"; "C_LAST"])
    100 100 40 5 1) as (x' & Hrun & _ & Hbal & _).
  - split; [demo_lookup|reflexivity|by eexists|demo_lookup|reflexivity|by eexists|demo_lookup|reflexivity..|by eexists].
  - vm_compute. split; discriminate.
  - exists x'. split; [exact Hrun|exact Hbal].
Defined.

Lemma demo_order_rows : order_rows Demo.demo_order Demo.demo_driver (to_double 0) (to_double 0) (to_double 0) 7 [].
Proof.
  split.
  - eexists. split; [demo_lookup|reflexivity].
  - eexists. split; [demo_lookup|]. split_and!; [reflexivity|by eexists..].
  - eexists. split; [demo_lookup|]. split; reflexivity.
  - reflexivity.
  - intros n Hn. assert (n = 0) as -> by (simpl in Hn; lia). exists 9000, 1, 2. do 2 eexists. exists 3, 50, "x", 6.
    split_and!; try reflexivity; try (by eexists); demo_lookup.
Qed.

Lemma new_order_numbers_witness :
  ∃ x', NewOrder_RunTxn Demo.demo_order Demo.demo_driver = Ok (0, x') ∧
    uint_at x' (district_key 1 1) "D_NEXT_O_ID" = Some 8 ∧ queue_at 1 1 x' = Ok ([7], x').
Proof.
  destruct (new_order_numbers Demo.demo_order Demo.demo_driver _ _ _ _ _ demo_order_rows) as (x' & Hrun & Hnext & _ & _ & _ & Hq).
  exists x'. split; [exact Hrun|]. split; [exact Hnext|exact Hq].
Defined.

Lemma new_order_never_changes_stock_witness :
  ∃ ret x', NewOrder_RunTxn Demo.demo_order Demo.demo_driver = Ok (ret, x') ∧
    view (db x') !! stock_key 1 9000 = Some (dump Demo.stock_row).
Proof.
  assert (match NewOrder_RunTxn Demo.demo_order Demo.demo_driver with Ok _ => true | _ => false end = true) as Hok
    by (vm_compute; reflexivity).
  destruct (NewOrder_RunTxn Demo.demo_order Demo.demo_driver) as [[ret x']| |] eqn:Hrun; [|discriminate..].
  exists ret, x'. split; [reflexivity|].
  etransitivity; [apply (new_order_never_changes_stock Demo.demo_order Demo.demo_driver x' ret); exact Hrun|].
  demo_lookup.
Defined.

Lemma new_order_after_failed_read_witness :
  NewOrder_RunTxn Demo.demo_order (MkDriver (∅ : gmap string string) []) = Undefined.
Proof.
  apply (new_order_after_failed_read Demo.demo_order _ 1 "" ∅).
  - intros k s. by eexists.
  - reflexivity.
  - discriminate.
Defined.
