(* ===== verification/TpccData.v ===== *)
(** The data of TPC-C: [store/benchmark/tpccData.h] and [tpccData.cc], the strings of [util.h], and
    the loop of [main] in [store/strongstore/server.cc] that loads the files.

    A file is its text.  Whether a file can be opened is a parameter.  The generated rows suit the
    new orders of [Tpcc]; this needs that the products of [double]s in the amount of an order line
    stay in range, which is proved on the numbers of the Standard Library. *)

From Stdlib Require Import Ascii SpecFloat.
From S2P Require Import Prelude Timestamp Transaction VersionStore LockServer TxnStore Sharding StrongServer Tpcc.

(** ** Strings *)

Definition char_list : list ascii :=
  ["1"; "2"; "3"; "4"; "5"; "6"; "7"; "8"; "9"; "a"; "b"; "c"; "d"; "e"; "f"; "g"; "h"; "i"; "j"; "k"; "l"; "m"; "n"; "o";
   "p"; "q"; "r"; "s"; "t"; "u"; "v"; "w"; "x"; "y"; "z"; "A"; "B"; "C"; "D"; "E"; "F"; "G"; "H"; "I"; "J"; "K"; "L"; "M";
   "N"; "O"; "P"; "Q"; "R"; "S"; "T"; "U"; "V"; "W"; "X"; "Y"; "Z"]%char.

Definition last_name_list : list string :=
  ["BAR"; "OUGHT"; "ABLE"; "PRI"; "PRES"; "ESE"; "ANTI"; "CALLY"; "ATION"; "EING"].

Definition Lastname (num : Z) : M nat string :=
  a ← deref (last_name_list !! Z.to_nat (num / 100));
  b ← deref (last_name_list !! Z.to_nat ((num / 10) mod 10));
  c ← deref (last_name_list !! Z.to_nat (num mod 10));
  mret (a +:+ b +:+ c).

Section strings.
Context `{!RandomSource}.

Fixpoint alpha_chars (n : nat) : M nat string :=
  match n with
  | O => mret ""
  | S n => i ← Rand 0 60; c ← deref (char_list !! Z.to_nat i); s ← alpha_chars n; mret (String c s)
  end.

Definition MakeAlphaString (min max : Z) : M nat string := n ← Rand min max; alpha_chars (Z.to_nat n).

Fixpoint number_chars (n : nat) : M nat string :=
  match n with
  | O => mret ""
  | S n => r ← Rand 0 9; s ← number_chars n; mret (String (ascii_of_N (Z.to_N (48 + r))) s)
  end.

Definition MakeNumberString (min max : Z) : M nat string := n ← Rand min max; number_chars (Z.to_nat n).
End strings.

(** ** Rows *)

(** [(double) Rand(0, n) / 1000.0]. *)
Definition thousandths (n : Z) : double := SFdiv 53 1024 (to_double n) (to_double 1000).

Section generate.
Context `{!RandomSource} `{!JsonRows}.

Definition GenerateItem : M nat string :=
  im_id ← Rand 1 10000;
  name ← MakeAlphaString 14 24;
  price ← Rand 1 100;
  data ← MakeAlphaString 26 50;
  mret (dump (set_string "I_DATA" data (set_uint "I_PRICE" price (set_string "I_NAME" name
    (set_uint "I_IM_ID" im_id empty_tuple))))).

Definition GenerateWarehouse : M nat string :=
  name ← MakeAlphaString 6 10;
  street ← MakeAlphaString 10 20;
  state ← MakeAlphaString 2 2;
  zip ← MakeAlphaString 9 9;
  tax ← Rand 0 200;
  mret (dump (set_double "W_YTD" (to_double 300000) (set_double "W_TAX" (thousandths tax) (set_string "W_ZIP" zip
    (set_string "W_STATE" state (set_string "W_CITY" street (set_string "W_STREET_2" street (set_string "W_STREET_1" street
    (set_string "W_NAME" name empty_tuple))))))))).

Definition GenerateDistrict : M nat string :=
  name ← MakeAlphaString 6 10;
  street ← MakeAlphaString 10 20;
  state ← MakeAlphaString 2 2;
  zip ← MakeNumberString 9 9;
  tax ← Rand 0 200;
  mret (dump (set_uint "D_NEXT_O_ID" 3001 (set_double "D_YTD" (to_double 30000) (set_double "D_TAX" (thousandths tax)
    (set_string "D_ZIP" zip (set_string "D_STATE" state (set_string "D_CITY" street (set_string "D_STREET_2" street
    (set_string "D_STREET_1" street (set_string "D_NAME" name empty_tuple)))))))))).

Definition GenerateCustomer (c_id : Z) : M nat string :=
  last ← (if c_id <=? 1000 then Lastname (u64 (c_id - 1)) else n ← Rand 1 999; Lastname n);
  first ← MakeAlphaString 8 16;
  street ← MakeAlphaString 10 20;
  state ← MakeAlphaString 2 2;
  zip ← MakeNumberString 9 9;
  phone ← MakeNumberString 16 16;
  discount ← Rand 0 500;
  data ← MakeAlphaString 300 500;
  mret (dump (set_string "C_DATA" data (set_uint "C_DELIVERY_CNT" 0 (set_uint "C_PAYMENT_CNT" 1
    (set_double "C_YTD_PAYMENT" (to_double 10) (set_double "C_BALANCE" (to_double (-10))
    (set_double "C_DISCOUNT" (thousandths discount) (set_uint "C_CREDIT_LIM" 50000 (set_string "C_CREDIT" "GC"
    (set_uint "C_SINCE" 0 (set_string "C_PHONE" phone (set_string "C_ZIP" zip (set_string "C_STATE" state
    (set_string "C_CITY" street (set_string "C_STREET_2" street (set_string "C_STREET_1" street
    (set_string "C_LAST" last (set_string "C_MIDDLE" "OE" (set_string "C_FIRST" first empty_tuple))))))))))))))))))).

Definition GenerateStock : M nat string :=
  quantity ← Rand 10 100;
  dist ← MakeAlphaString 24 24;
  data ← MakeAlphaString 26 50;
  let dists := ["S_DIST_01"; "S_DIST_02"; "S_DIST_03"; "S_DIST_04"; "S_DIST_05"; "S_DIST_06"; "S_DIST_07"; "S_DIST_08";
                "S_DIST_09"; "S_DIST_10"] in
  mret (dump (set_string "S_DATA" data (set_uint "S_REMOTE_CNT" 0 (set_uint "S_ORDER_CNT" 0 (set_uint "S_YTD" 0
    (foldl (λ t column, set_string column dist t) (set_uint "S_QUANTITY" quantity empty_tuple) dists)))))).

(** ** Files *)

Definition newline : string := String (ascii_of_nat 10) "".

(** [outFile << key << '\n'; outFile << tuple << '\n']. *)
Definition write_row (key tuple : string) : string := key +:+ newline +:+ tuple +:+ newline.

(** A loop that writes one row in every round. *)
Fixpoint write_rows (key : Z → string) (row : Z → M nat string) (ids : list Z) : M nat string :=
  match ids with
  | [] => mret ""
  | i :: ids => v ← row i; rest ← write_rows key row ids; mret (write_row (key i) v +:+ rest)
  end.

Fixpoint write_districts (w : Z) (ds : list Z) : M nat string :=
  match ds with
  | [] => mret ""
  | d :: ds =>
      v ← GenerateDistrict;
      customers ← write_rows (customer_key w d) GenerateCustomer (seqZ 1 g_cust_per_dist);
      rest ← write_districts w ds;
      mret (write_row (district_key w d) v +:+ customers +:+ rest)
  end.

Definition generate_file (w : Z) : M nat string :=
  items ← write_rows item_key (λ _, GenerateItem) (seqZ 1 g_item_num);
  v ← GenerateWarehouse;
  districts ← write_districts w (seqZ 1 g_dist_per_ware);
  stocks ← write_rows (stock_key w) (λ _, GenerateStock) (seqZ 1 g_item_num);
  mret (items +:+ write_row (warehouse_key w) v +:+ districts +:+ stocks).

(** The files that are written, by warehouse. *)
Fixpoint generate_files (opens : Z → bool) (ws : list Z) : M nat (gmap Z string) :=
  match ws with
  | [] => mret ∅
  | w :: ws =>
      if opens w then text ← generate_file w; files ← generate_files opens ws; mret (<[w := text]> files)
      else generate_files opens ws
  end.

Definition Generate (opens : Z → bool) (min_w_id max_w_id : Z) : M nat (gmap Z string) :=
  generate_files opens (seqZ min_w_id (max_w_id - min_w_id + 1)).
End generate.

(** ** Loading *)

(** [std::getline]: a line and the rest of the text; nothing at the end. *)
Fixpoint read_line (s : string) : string * string :=
  match s with
  | EmptyString => ("", "")
  | String c s => if Ascii.eqb c (ascii_of_nat 10) then ("", s) else let '(l, r) := read_line s in (String c l, r)
  end.

Definition getline (s : string) : option (string * string) :=
  match s with EmptyString => None | _ => Some (read_line s) end.

Section load.
Context {S : Type} `{!TxnStore.TxnStore S}.

(** The loop over the lines of a file; each round takes at least a character. *)
Fixpoint load_lines (fuel : nat) (text : string) : M (Server S) unit :=
  match fuel with
  | O => undefined
  | Datatypes.S fuel =>
      match getline text with
      | None => mret tt
      | Some (key, text) =>
          match getline text with
          | None => mret tt
          | Some (value, text) => _ ← Load key value Timestamp0; load_lines fuel text
          end
      end
  end.

(** A file that cannot be read ends the process. *)
Definition load_warehouses (files : gmap Z string) (myShard : Z) : M (Server S) unit :=
  for_each (loaded_warehouses myShard) (λ w,
    match files !! w with
    | Some text => load_lines (Datatypes.S (String.length text)) text
    | None => panic
    end).
End load.

(** ** What is generated *)

Section rows_ok.
Context `{!RandomSource} `{!JsonRows} `{!JsonLaws}.

Definition returns_ok {A} (m : M nat A) : Prop := ∀ i, wp m (λ _ _, True) i.

Lemma returns_bind {A B} (m : M nat A) (k : A → M nat B) Q i :
  returns_ok m → (∀ a j, wp (k a) Q j) → wp (m ≫= k) Q i.
Proof. intros Hm Hk. apply post_bind. eapply post_mono; [apply Hm|]. auto. Qed.

Lemma alpha_chars_ok n : returns_ok (alpha_chars n).
Proof.
  induction n as [|n IH]; intros i; [done|]. cbn [alpha_chars]. apply Rand_bind_ok; [lia|]. intros v j Hv.
  assert (is_Some (char_list !! Z.to_nat v)) as [c Hc] by (apply lookup_lt_is_Some; change (length char_list) with 61%nat; lia).
  rewrite Hc. apply post_bind, post_ret. by apply returns_bind.
Qed.

Lemma number_chars_ok n : returns_ok (number_chars n).
Proof. induction n as [|n IH]; intros i; [done|]. cbn [number_chars]. apply Rand_bind_ok; [lia|]. intros v j Hv. by apply returns_bind. Qed.

Lemma MakeAlphaString_ok lo hi : lo ≤ hi → returns_ok (MakeAlphaString lo hi).
Proof. intros Hle i. apply Rand_bind_ok; [done|]. intros v j Hv. apply alpha_chars_ok. Qed.

Lemma MakeNumberString_ok lo hi : lo ≤ hi → returns_ok (MakeNumberString lo hi).
Proof. intros Hle i. apply Rand_bind_ok; [done|]. intros v j Hv. apply number_chars_ok. Qed.

Lemma Lastname_ok num : 0 ≤ num < 1000 → returns_ok (Lastname num).
Proof.
  intros Hn i. unfold Lastname.
  assert (∀ z, 0 ≤ z < 10 → is_Some (last_name_list !! Z.to_nat z)) as Hl.
  { intros z Hz. apply lookup_lt_is_Some. change (length last_name_list) with 10%nat. lia. }
  destruct (Hl (num / 100)) as [a ->]; [split; [apply Z.div_pos; lia|apply Z.div_lt_upper_bound; lia]|].
  destruct (Hl ((num / 10) mod 10)) as [b ->]; [by apply Z.mod_pos_bound|].
  destruct (Hl (num mod 10)) as [c ->]; [by apply Z.mod_pos_bound|]. done.
Qed.

Lemma thousandths_finite n : 0 ≤ n ≤ 500 → finite (thousandths n) = true.
Proof.
  intros Hn. assert (forallb (λ n, finite (thousandths n)) (seqZ 0 501) = true) as Hall by (vm_compute; reflexivity).
  rewrite forallb_forall in Hall. apply Hall, list_elem_of_In, elem_of_seqZ. lia.
Qed.

Definition item_ok (v : string) : Prop := ∃ r price, v = dump r ∧
  get_uint "I_PRICE" r = Ok price ∧ 1 ≤ price ≤ 100 ∧ returns (get_string "I_NAME" r) ∧ returns (get_string "I_DATA" r).

Definition warehouse_ok (v : string) : Prop := ∃ r n, v = dump r ∧
  get_double "W_TAX" r = Ok (thousandths n) ∧ 0 ≤ n ≤ 200 ∧ get_uint "W_YTD" r = Ok 300000 ∧ returns (get_string "W_NAME" r).

Definition district_ok (v : string) : Prop := ∃ r n, v = dump r ∧
  get_double "D_TAX" r = Ok (thousandths n) ∧ 0 ≤ n ≤ 200 ∧ get_uint "D_YTD" r = Ok 30000 ∧
  get_uint "D_NEXT_O_ID" r = Ok 3001 ∧ returns (get_string "D_NAME" r).

(** The balance is negative and cannot be converted. *)
Definition customer_ok (v : string) : Prop := ∃ r n, v = dump r ∧
  get_double "C_DISCOUNT" r = Ok (thousandths n) ∧ 0 ≤ n ≤ 500 ∧ get_uint "C_BALANCE" r = Undefined ∧
  returns (get_string "C_LAST" r) ∧ returns (get_string "C_CREDIT" r).

Definition stock_ok (v : string) : Prop := ∃ r q, v = dump r ∧
  get_uint "S_QUANTITY" r = Ok q ∧ 10 ≤ q ≤ 100 ∧ returns (get_string "S_DATA" r) ∧
  ∀ d, 1 ≤ d ≤ 10 → returns (get_string (dist_column d) r).

(** One draw or one string. *)
Ltac gen_step :=
  first [ apply returns_bind; [first [apply MakeAlphaString_ok|apply MakeNumberString_ok]; lia|intros ? ?]
        | apply Rand_bind_ok; [lia|intros ? ? ?] ].

Ltac row_member := members; try reflexivity; try (by eexists); try (by apply thousandths_finite; lia); try lia.

Lemma GenerateItem_ok i : wp GenerateItem (λ v _, item_ok v) i.
Proof. unfold GenerateItem. repeat gen_step. apply post_ret. eexists _, _. split; [done|]. split_and!; row_member. Qed.

(** The quotient of the last number drawn is finite. *)
Ltac quotient_finite :=
  match goal with |- context [thousandths ?n] => pose proof (thousandths_finite n ltac:(lia)) end.

Lemma GenerateWarehouse_ok i : wp GenerateWarehouse (λ v _, warehouse_ok v) i.
Proof.
  unfold GenerateWarehouse. repeat gen_step. apply post_ret. quotient_finite. eexists _, _. split; [done|].
  split_and!; row_member.
Qed.

Lemma GenerateDistrict_ok i : wp GenerateDistrict (λ v _, district_ok v) i.
Proof.
  unfold GenerateDistrict. repeat gen_step. apply post_ret. quotient_finite. eexists _, _. split; [done|].
  split_and!; row_member.
Qed.

Lemma GenerateCustomer_ok c i : 1 ≤ c → wp (GenerateCustomer c) (λ v _, customer_ok v) i.
Proof.
  intros Hc. unfold GenerateCustomer. apply returns_bind.
  { intros j. destruct (Z.leb_spec c 1000).
    - apply Lastname_ok. rewrite u64_small by (unfold is_u64, u64_modulus; lia). lia.
    - apply Rand_bind_ok; [lia|]. intros n j' Hn. apply Lastname_ok. lia. }
  intros last j. repeat gen_step. apply post_ret. quotient_finite. eexists _, _. split; [done|].
  split_and!; row_member.
Qed.

Lemma dist_columns d : 1 ≤ d ≤ 10 → dist_column d ∈
  ["S_DIST_01"; "S_DIST_02"; "S_DIST_03"; "S_DIST_04"; "S_DIST_05"; "S_DIST_06"; "S_DIST_07"; "S_DIST_08"; "S_DIST_09"; "S_DIST_10"].
Proof.
  intros Hd. assert (d ∈ seqZ 1 10) as Hin by (apply elem_of_seqZ; lia). revert d Hd Hin.
  assert (Forall (λ d, dist_column d ∈ ["S_DIST_01"; "S_DIST_02"; "S_DIST_03"; "S_DIST_04"; "S_DIST_05"; "S_DIST_06"; "S_DIST_07";
    "S_DIST_08"; "S_DIST_09"; "S_DIST_10"]) (seqZ 1 10)) as Hall.
  { apply (bool_decide_unpack _). vm_compute. exact I. }
  rewrite Forall_forall in Hall. auto.
Qed.

Lemma GenerateStock_ok i : wp GenerateStock (λ v _, stock_ok v) i.
Proof.
  unfold GenerateStock. repeat gen_step. apply post_ret. eexists _, _. split; [done|].
  split_and!; [simpl; row_member..|]. intros d Hd. apply dist_columns in Hd. simpl.
  repeat (apply elem_of_cons in Hd as [-> |Hd]; [row_member|]). set_solver.
Qed.
End rows_ok.

(** ** The files *)

Fixpoint no_newline (s : string) : bool :=
  match s with EmptyString => true | String c s => negb (Ascii.eqb c (ascii_of_nat 10)) && no_newline s end.

(** The text of an object is one line. *)
Class JsonText `{!JsonRows} := dump_line : ∀ t, no_newline (dump t) = true.

Lemma string_app_cons c s1 s2 : String c s1 +:+ s2 = String c (s1 +:+ s2).
Proof. reflexivity. Qed.

Lemma no_newline_app s1 s2 : no_newline (s1 +:+ s2) = no_newline s1 && no_newline s2.
Proof. induction s1 as [|c s1 IH]; [done|]. rewrite string_app_cons. simpl. by rewrite IH, andb_assoc. Qed.

Lemma string_app_assoc s1 s2 s3 : s1 +:+ (s2 +:+ s3) = (s1 +:+ s2) +:+ s3.
Proof. induction s1 as [|c s1 IH]; [done|]. by rewrite !string_app_cons, IH. Qed.

Lemma string_app_nil s : s +:+ "" = s.
Proof. induction s as [|c s IH]; [done|]. by rewrite string_app_cons, IH. Qed.

Lemma string_length_app s1 s2 : String.length (s1 +:+ s2) = (String.length s1 + String.length s2)%nat.
Proof. induction s1 as [|c s1 IH]; [done|]. rewrite string_app_cons. simpl. by rewrite IH. Qed.

(** The text of a file with these rows. *)
Fixpoint file_text (rows : list (string * string)) : string :=
  match rows with [] => "" | (k, v) :: rows => write_row k v +:+ file_text rows end.

Lemma file_text_app l1 l2 : file_text (l1 ++ l2) = file_text l1 +:+ file_text l2.
Proof. induction l1 as [|[k v] l1 IH]; [done|]. cbn [app file_text]. by rewrite IH, string_app_assoc. Qed.

Lemma getline_line l rest : no_newline l = true → getline (l +:+ newline +:+ rest) = Some (l, rest).
Proof.
  intros Hl. assert (read_line (l +:+ newline +:+ rest) = (l, rest)) as Hr.
  { induction l as [|c l IH]; [done|]. rewrite string_app_cons. simpl in *. apply andb_true_iff in Hl as [Hc Hl]. apply negb_true_iff in Hc.
    rewrite Hc. by rewrite IH. }
  unfold getline. rewrite Hr. by destruct l.
Qed.

Section load_rows.
Context {S : Type} `{!TxnStore.TxnStore S}.

(** Reading a file loads its rows, in their order. *)
Lemma load_lines_rows rows : ∀ fuel,
  Forall (λ kv, no_newline kv.1 = true ∧ no_newline kv.2 = true) rows → (length rows < fuel)%nat →
  ∀ sv, load_lines fuel (file_text rows) sv = for_each rows (λ kv, Load kv.1 kv.2 Timestamp0) sv.
Proof.
  induction rows as [|[k v] rows IH]; intros [|fuel] Hr Hf sv; try (simpl in Hf; lia); [done|].
  apply Forall_cons in Hr as [[Hk Hv] Hr]. cbn [load_lines file_text for_each]. unfold write_row.
  rewrite <- !string_app_assoc, getline_line by done. rewrite getline_line by done.
  unfold mbind, M_bind. simpl. destruct (Load k v Timestamp0 sv) as [[[] sv1]| |]; [|done..]. apply IH; [done|simpl in Hf; lia].
Qed.

Lemma file_text_length rows : (length rows ≤ String.length (file_text rows))%nat.
Proof.
  induction rows as [|[k v] rows IH]; [done|]. simpl. unfold write_row. rewrite !string_length_app. simpl. lia.
Qed.
End load_rows.

Section files.
Context `{!RandomSource} `{!JsonRows} `{!JsonLaws}.

Lemma item_key_inj i i' : item_key i = item_key i' → i = i'.
Proof.
  intros [_ Heq]%row_key_inj; [|done..]. apply (f_equal (get_uint "I_ID")) in Heq. unfold key_json in Heq. simpl in Heq.
  members_in Heq. congruence.
Qed.

Lemma customer_key_inj w d c w' d' c' : customer_key w d c = customer_key w' d' c' → w = w' ∧ d = d' ∧ c = c'.
Proof.
  intros [_ Heq]%row_key_inj; [|done..]. unfold key_json in Heq. simpl in Heq.
  pose proof (f_equal (get_uint "C_W_ID") Heq) as Ew. pose proof (f_equal (get_uint "C_D_ID") Heq) as Ed.
  pose proof (f_equal (get_uint "C_ID") Heq) as Ec. members_in Ew. members_in Ed. members_in Ec. split_and!; congruence.
Qed.

Lemma stock_key_inj w i w' i' : stock_key w i = stock_key w' i' → w = w' ∧ i = i'.
Proof.
  intros [_ Heq]%row_key_inj; [|done..]. unfold key_json in Heq. simpl in Heq.
  pose proof (f_equal (get_uint "S_W_ID") Heq) as Ew. pose proof (f_equal (get_uint "S_I_ID") Heq) as Ei.
  members_in Ew. members_in Ei. split; congruence.
Qed.

(** The rows of a warehouse, and what their values satisfy. *)
Inductive table_row (w : Z) : string → (string → Prop) → Prop :=
| ItemRow i : 1 ≤ i ≤ g_item_num → table_row w (item_key i) item_ok
| WarehouseRow : table_row w (warehouse_key w) warehouse_ok
| DistrictRow d : 1 ≤ d ≤ g_dist_per_ware → table_row w (district_key w d) district_ok
| CustomerRow d c : 1 ≤ d ≤ g_dist_per_ware → 1 ≤ c ≤ g_cust_per_dist → table_row w (customer_key w d c) customer_ok
| StockRow i : 1 ≤ i ≤ g_item_num → table_row w (stock_key w i) stock_ok.

Definition row_ok (w : Z) (kv : string * string) : Prop := ∃ P, table_row w kv.1 P ∧ P kv.2.

(** A table name determines what its rows satisfy. *)
Lemma table_row_fun w w' k P P' : table_row w k P → table_row w' k P' → P = P'.
Proof.
  intros Hr1 Hr2. destruct Hr1; inversion Hr2; try done;
    match goal with He : _ = _ |- _ => exfalso; revert He; by apply row_key_table end.
Qed.

(** Except for the items, which every file has, a row belongs to one warehouse. *)
Lemma table_row_warehouse w w' k P P' :
  table_row w k P → table_row w' k P' → (∀ i, k ≠ item_key i) → w = w'.
Proof.
  intros Hr1 Hr2 Hitem. remember k as k' eqn:Hk in Hr2.
  destruct Hr1 as [i Hi| |d Hd|d c Hd Hc|i Hi]; [by destruct (Hitem i)|..];
    destruct Hr2 as [i' Hi'| |d' Hd'|d' c' Hd' Hc'|i' Hi']; try (exfalso; revert Hk; by apply row_key_table).
  - by apply warehouse_key_inj in Hk.
  - by apply district_key_inj in Hk as [-> _].
  - by apply customer_key_inj in Hk as (-> & _ & _).
  - by apply stock_key_inj in Hk as [-> _].
Qed.

(** A loop writes one row for each number. *)
Definition writes (w : Z) (keys : list string) (text : string) : Prop :=
  ∃ rows, text = file_text rows ∧ Forall (row_ok w) rows ∧ rows.*1 = keys.

Lemma writes_app w k1 k2 t1 t2 : writes w k1 t1 → writes w k2 t2 → writes w (k1 ++ k2) (t1 +:+ t2).
Proof.
  intros (r1 & -> & Hr1 & <-) (r2 & -> & Hr2 & <-). exists (r1 ++ r2). rewrite file_text_app, fmap_app.
  split_and!; [done|by apply Forall_app|done].
Qed.

Lemma writes_row w k v P : table_row w k P → P v → writes w [k] (write_row k v).
Proof.
  intros Hk Hv. exists [(k, v)]. split_and!; [simpl; by rewrite string_app_nil| |done].
  apply Forall_singleton. by exists P.
Qed.

Lemma write_rows_ok w key row P ids :
  (∀ n, n ∈ ids → table_row w (key n) P ∧ ∀ i, wp (row n) (λ v _, P v) i) →
  ∀ i, wp (write_rows key row ids) (λ text _, writes w (key <$> ids) text) i.
Proof.
  induction ids as [|n ids IH]; intros Hids i; cbn [write_rows]; [by exists []|].
  destruct (Hids n ltac:(set_solver)) as [Hkey Hrow]. apply post_bind. eapply post_mono; [apply Hrow|]. intros v j Hv.
  apply post_bind. eapply post_mono; [apply IH; set_solver|]. intros text j' Ht. apply post_ret.
  apply (writes_app w [_]); [by eapply writes_row|done].
Qed.

Definition district_keys (w d : Z) : list string := district_key w d :: (customer_key w d <$> seqZ 1 g_cust_per_dist).

Lemma write_districts_ok w ds : (∀ d, d ∈ ds → 1 ≤ d ≤ g_dist_per_ware) →
  ∀ i, wp (write_districts w ds) (λ text _, writes w (ds ≫= district_keys w) text) i.
Proof.
  induction ds as [|d ds IH]; intros Hds i; cbn [write_districts]; [by exists []|].
  apply post_bind. eapply post_mono; [apply GenerateDistrict_ok|]. intros v j Hv. apply post_bind.
  assert (1 ≤ d ≤ g_dist_per_ware) as Hd by (apply Hds; by left).
  eapply post_mono; [apply (write_rows_ok w _ _ customer_ok)|].
  { intros c Hc%elem_of_seqZ. split; [apply CustomerRow; lia|]. intros. apply GenerateCustomer_ok. lia. }
  intros customers j1 Hc. apply post_bind. eapply post_mono; [apply IH; intros d' Hd'; apply Hds; by right|].
  intros rest j2 Hrest. apply post_ret.
  rewrite bind_cons, string_app_assoc. apply writes_app; [|done]. apply (writes_app w [_]); [|done].
  by eapply writes_row; [constructor|].
Qed.

Definition warehouse_keys (w : Z) : list string :=
  (item_key <$> seqZ 1 g_item_num) ++ [warehouse_key w] ++ (seqZ 1 g_dist_per_ware ≫= district_keys w) ++
  (stock_key w <$> seqZ 1 g_item_num).

Lemma generate_file_ok w i : wp (generate_file w) (λ text _, writes w (warehouse_keys w) text) i.
Proof.
  unfold generate_file. apply post_bind. eapply post_mono; [apply (write_rows_ok w _ _ item_ok)|].
  { intros n Hn%elem_of_seqZ. split; [constructor; unfold g_item_num in *; lia|apply GenerateItem_ok]. }
  intros items j1 Hitems. apply post_bind. eapply post_mono; [apply GenerateWarehouse_ok|]. intros v j2 Hv.
  apply post_bind. eapply post_mono; [apply (write_districts_ok w)|].
  { intros d Hd%elem_of_seqZ. unfold g_dist_per_ware in *. lia. }
  intros districts j3 Hd. apply post_bind. eapply post_mono; [apply (write_rows_ok w _ _ stock_ok)|].
  { intros n Hn%elem_of_seqZ. split; [constructor; unfold g_item_num in *; lia|apply GenerateStock_ok]. }
  intros stocks j4 Hs. apply post_ret. unfold warehouse_keys.
  apply writes_app; [done|]. apply writes_app; [by eapply writes_row; [constructor|]|]. by apply writes_app.
Qed.

(** No key is written twice in a file. *)
Lemma NoDup_keys (key : Z → string) a n : (∀ i i', key i = key i' → i = i') → NoDup (key <$> seqZ a n).
Proof. intros Hinj. apply NoDup_fmap_2; [intros i i'; apply Hinj|apply NoDup_seqZ]. Qed.

Lemma district_keys_row w d k :
  k ∈ district_keys w d → k = district_key w d ∨ ∃ c, k = customer_key w d c.
Proof. intros [->|(c & -> & _)%list_elem_of_fmap]%elem_of_cons; eauto. Qed.

Lemma NoDup_districts w ds : NoDup ds → NoDup (ds ≫= district_keys w).
Proof.
  intros Hds. apply NoDup_bind; [|intros d _|done].
  - intros d d' k _ _ [->|[c ->]]%district_keys_row [Hk|[c' Hk]]%district_keys_row.
    + by apply district_key_inj in Hk as [_ ->].
    + exfalso. revert Hk. by apply row_key_table.
    + exfalso. revert Hk. by apply row_key_table.
    + by apply customer_key_inj in Hk as (_ & -> & _).
  - apply NoDup_cons. split; [|apply NoDup_keys; by intros i i' (_ & _ & ->)%customer_key_inj].
    intros (c & Hc & _)%list_elem_of_fmap. revert Hc. by apply row_key_table.
Qed.

Lemma NoDup_warehouse_keys w : NoDup (warehouse_keys w).
Proof.
  assert (∀ k, k ∈ seqZ 1 g_dist_per_ware ≫= district_keys w → ∃ d, k = district_key w d ∨ ∃ c, k = customer_key w d c) as Hd.
  { intros k (d & Hk & _)%list_elem_of_bind. exists d. by apply district_keys_row. }
  unfold warehouse_keys. apply NoDup_app. split_and!; [apply NoDup_keys, item_key_inj| |].
  { intros k (i & -> & _)%list_elem_of_fmap [Hk%list_elem_of_singleton|[Hk|Hk]%elem_of_app]%elem_of_app.
    - revert Hk. by apply row_key_table.
    - apply Hd in Hk as (d & [Hk|[c Hk]]); revert Hk; by apply row_key_table.
    - apply list_elem_of_fmap in Hk as (i' & Hk & _). revert Hk. by apply row_key_table. }
  apply NoDup_app. split_and!; [apply NoDup_singleton| |].
  { intros k ->%list_elem_of_singleton [Hk|Hk]%elem_of_app.
    - apply Hd in Hk as (d & [Hk|[c Hk]]); revert Hk; by apply row_key_table.
    - apply list_elem_of_fmap in Hk as (i' & Hk & _). revert Hk. by apply row_key_table. }
  apply NoDup_app. split_and!; [apply NoDup_districts, NoDup_seqZ| |apply NoDup_keys; by intros i i' [_ ->]%stock_key_inj].
  intros k Hk (i & -> & _)%list_elem_of_fmap. apply Hd in Hk as (d & [Hk|[c Hk]]); revert Hk; by apply row_key_table.
Qed.

Lemma generate_files_ok ws : ∀ i, wp (generate_files (λ _, true) ws) (λ files _,
  ∃ rows : Z → list (string * string), ∀ w, w ∈ ws →
    files !! w = Some (file_text (rows w)) ∧ (rows w).*1 = warehouse_keys w ∧ Forall (row_ok w) (rows w)) i.
Proof.
  induction ws as [|w ws IH]; intros i; cbn [generate_files].
  { unfold post; simpl. exists (λ _, []). by intros w ?%not_elem_of_nil. }
  apply post_bind. eapply post_mono; [apply generate_file_ok|]. intros text j (new & -> & Hnew & Hkeys).
  apply post_bind. eapply post_mono; [apply IH|]. intros files j' [rows Hf]. apply post_ret.
  exists (λ w', if decide (w = w') then new else rows w'). intros w' Hw'. case_decide as Hd.
  - subst w'. by rewrite lookup_insert_eq.
  - rewrite lookup_insert_ne by done. apply Hf. by apply elem_of_cons in Hw' as [->|Hw'].
Qed.
End files.

(** ** Loading the files *)

Section load_spec.
Context `{HO : HashOrder} {S : Type} `{!TxnStore.TxnStore S} `{!TxnStoreLaws S}.
Implicit Types (sv : Server S) (rows : list (string * string)).

(** The store holds these values, each in one version at time zero. *)
Definition holds (m : gmap string string) sv : Prop :=
  store_ok (store sv) ∧
  ∀ k, versions (data (store sv)) k = match m !! k with Some v => [MkVersion Timestamp0 v] | None => [] end.

(** Rows are added; a key that is there keeps its value. *)
Lemma load_row_spec m k v sv : holds m sv → wp (Load k v Timestamp0) (λ _ sv', holds (m ∪ {[k := v]}) sv') sv.
Proof.
  intros [Hok Hm]. unfold Load. eapply post_mono; [apply on_store_wp, Load_law, Hok|].
  intros _ sv1 (_ & _ & Hok1 & Hd1 & Hp1 & _). split; [done|]. intros k'. rewrite Hd1, versions_put, !Hm.
  case_decide as Hk; subst.
  - destruct (m !! k') as [v'|] eqn:Hv; [by rewrite (lookup_union_Some_l _ _ _ _ Hv)|].
    by rewrite lookup_union_r, lookup_singleton_eq.
  - destruct (m !! k') as [v'|] eqn:Hv; [by rewrite (lookup_union_Some_l _ _ _ _ Hv)|].
    by rewrite lookup_union_r, lookup_singleton_ne.
Qed.

Lemma load_rows_spec rows : ∀ m sv, holds m sv →
  wp (for_each rows (λ kv, Load kv.1 kv.2 Timestamp0)) (λ _ sv', holds (m ∪ list_to_map rows) sv') sv.
Proof.
  induction rows as [|[k v] rows IH]; intros m sv Hm.
  { apply post_ret. simpl. by rewrite (right_id_L ∅ (∪)). }
  cbn [for_each]. apply post_bind. eapply post_mono; [by apply load_row_spec|]. intros [] sv1 Hsv1.
  eapply post_mono; [by apply IH|]. intros [] sv2 Hsv2. simpl. by rewrite insert_union_singleton_l, (assoc_L (∪)).
Qed.
End load_spec.

Section load_generated.
Context `{HO : HashOrder} {S : Type} `{!TxnStore.TxnStore S} `{!TxnStoreLaws S}.
Context `{!JsonRows} `{!JsonLaws} `{!JsonText}.
Implicit Types sv : Server S.

Lemma row_key_line table fields : no_newline table = true → no_newline (row_key table fields) = true.
Proof. intros Ht. unfold row_key. by rewrite no_newline_app, Ht, dump_line. Qed.

Lemma row_ok_line w kv : row_ok w kv → no_newline kv.1 = true ∧ no_newline kv.2 = true.
Proof.
  intros (P & Hk & HP). split; [destruct Hk; by apply row_key_line|].
  destruct Hk; destruct HP as (r & ? & -> & _); apply dump_line.
Qed.

Lemma load_file_spec w rows m sv : Forall (row_ok w) rows → holds m sv →
  wp (load_lines (Datatypes.S (String.length (file_text rows))) (file_text rows))
    (λ _ sv', holds (m ∪ list_to_map rows) sv') sv.
Proof.
  intros Hrows Hm. unfold post. rewrite load_lines_rows.
  - by apply load_rows_spec.
  - eapply Forall_impl; [exact Hrows|]. apply row_ok_line.
  - pose proof (file_text_length rows). lia.
Qed.

Lemma load_files_spec (files : gmap Z string) (rows : Z → list (string * string)) ws : ∀ m sv, holds m sv →
  (∀ w, w ∈ ws → files !! w = Some (file_text (rows w)) ∧ Forall (row_ok w) (rows w)) →
  wp (for_each ws (λ w, match files !! w with
                        | Some text => load_lines (Datatypes.S (String.length text)) text
                        | None => panic
                        end))
    (λ _ sv', holds (m ∪ list_to_map (ws ≫= rows)) sv') sv.
Proof.
  induction ws as [|w ws IH]; intros m sv Hm Hf.
  { apply post_ret. simpl. by rewrite (right_id_L ∅ (∪)). }
  cbn [for_each]. destruct (Hf w ltac:(by left)) as [-> Hw]. apply post_bind.
  eapply post_mono; [by apply (load_file_spec w)|]. intros [] sv1 Hsv1.
  eapply post_mono; [apply IH; [exact Hsv1|intros w' Hw'; apply Hf; by right]|].
  intros [] sv2 Hsv2. by rewrite bind_cons, list_to_map_app, (assoc_L (∪)).
Qed.

(** What is found under a key. *)
Lemma holds_get m sv k v d : holds m sv → m !! k = Some v → VersionStore.get (data (store sv)) k d = (true, (Timestamp0, v)).
Proof.
  intros [_ Hm] Hk. specialize (Hm k). rewrite Hk in Hm. unfold VersionStore.get. rewrite Hm.
  assert (inStore (data (store sv)) k = true) as -> by (apply inStore_spec; by rewrite Hm). done.
Qed.
End load_generated.

(** ** Where the clients look *)

(** The JSON library as the placement of keys uses it. *)
Definition json_lib `{!JsonRows} : JsonLib := {|
  json := tuple;
  json_parse s := match parse s with Object t => Some t | _ => None end;
  json_uint t name := match get_uint name t with Ok z => Some z | _ => None end
|}.

Section placement.
Context `{!JsonRows} `{!JsonLaws}.

Lemma key_shard table fields m w :
  table ∈ ["W"; "C"; "D"; "S"] → warehouse_member table = Some (Some m) → get_uint m (key_json fields) = Ok w → 1 ≤ w ≤ g_ware_num →
  @key_to_shard json_lib (row_key table fields) 0 = Ok ((w - 1) / ware_per_shard).
Proof.
  intros Ht Hm Hw Hr. unfold row_key, key_to_shard. pose proof (parse_dump (key_json fields)) as Hp.
  destruct (dump_brace (key_json fields)) as [s Hs]. rewrite Hs in *. rewrite Z.eqb_refl.
  assert (split_at_brace (table +:+ String "{"%char s) = Some (table, String "{"%char s)) as ->.
  { repeat (apply elem_of_cons in Ht as [->|Ht]; [reflexivity|]). set_solver. }
  rewrite Hm. simpl. rewrite Hp. simpl. rewrite Hw. simpl.
  rewrite u64_small by (unfold is_u64, u64_modulus, g_ware_num in *; lia). done.
Qed.

(** Every row is stored in the file of a warehouse of the shard at which the clients look it up:
    the items in that of the first warehouse, the others in that of their own. *)
Lemma row_shard w k P : table_row w k P → 1 ≤ w ≤ g_ware_num → w = 1 ∨ (∀ i, k ≠ item_key i) →
  ∃ s, @key_to_shard json_lib k 0 = Ok s ∧ 0 ≤ s < 3 ∧ w ∈ loaded_warehouses s.
Proof.
  intros Hk Hw. unfold g_ware_num in *.
  assert (0 ≤ (w - 1) / ware_per_shard < 3) as Hs.
  { unfold ware_per_shard. pose proof (Z.div_mod (w - 1) 10 ltac:(lia)). pose proof (Z.mod_pos_bound (w - 1) 10 ltac:(lia)). lia. }
  intros Hitem. destruct Hk as [i Hi| |d Hd|d c Hd Hc|i Hi].
  1: { destruct Hitem as [->|Hitem]; [|by destruct (Hitem i)].
       exists 0. split_and!; try lia; [|by apply elem_of_loaded_warehouses].
       unfold item_key, row_key, key_to_shard. rewrite Z.eqb_refl. pose proof (parse_dump (key_json [("I_ID", i)])) as Hp.
       destruct (dump_brace (key_json [("I_ID", i)])) as [s Hs']. rewrite Hs' in *.
       change (split_at_brace ("I" +:+ String "{"%char s)) with (Some ("I", String "{"%char s)). simpl. by rewrite Hp. }
  all: exists ((w - 1) / ware_per_shard); split_and!; try lia; [|by apply elem_of_loaded_warehouses; [lia|]].
  - eapply (key_shard "W" _ "W_ID"); [set_solver|done|unfold key_json; simpl; by members|done].
  - eapply (key_shard "D" _ "D_W_ID"); [set_solver|done|unfold key_json; simpl; by members|done].
  - eapply (key_shard "C" _ "C_W_ID"); [set_solver|done|unfold key_json; simpl; by members|done].
  - eapply (key_shard "S" _ "S_W_ID"); [set_solver|done|unfold key_json; simpl; by members|done].
Qed.
End placement.

Section data.
Context `{HO : HashOrder} `{!Clock} `{!RandomSource} `{!JsonRows} `{!JsonLaws} `{!JsonText}.

(** The value of a row among the rows of the warehouses of a shard. *)
Lemma row_value (rows : Z → list (string * string)) ws w k v :
  (∀ w, w ∈ ws → (rows w).*1 = warehouse_keys w ∧ Forall (row_ok w) (rows w)) → w ∈ ws → (k, v) ∈ rows w →
  head ws = Some w ∨ (∀ i, k ≠ item_key i) → (list_to_map (ws ≫= rows) : gmap string string) !! k = Some v.
Proof.
  intros Hrows Hw Hk Hfirst. assert (NoDup (rows w).*1) as Hnd by (rewrite (proj1 (Hrows w Hw)); apply NoDup_warehouse_keys).
  destruct Hfirst as [Hhead|Hitem].
  - destruct ws as [|w0 ws]; [done|]. injection Hhead as ->. rewrite bind_cons, list_to_map_app.
    apply lookup_union_Some_l. by apply elem_of_list_to_map.
  - apply elem_of_list_to_map_1'.
    + intros v' (w' & Hk' & Hw')%list_elem_of_bind.
      assert (w' = w) as ->.
      { destruct (Hrows w Hw) as [_ Hall], (Hrows w' Hw') as [_ Hall']. rewrite Forall_forall in Hall, Hall'.
        destruct (Hall _ Hk) as (P & HP & _), (Hall' _ Hk') as (P' & HP' & _). by eapply table_row_warehouse. }
      apply elem_of_list_to_map in Hk, Hk'; [|done..]. congruence.
    + apply list_elem_of_bind. eauto.
Qed.

(** C27: The generated rows are found where the clients look for them.  The data of all warehouses
    are generated without an error, whatever numbers are drawn: the file of a warehouse has one
    row for every item, for the warehouse and for each of its districts, customers and stocks,
    with the values its table asks for.  A server of any mode that starts empty loads the files
    of its shard without a panic, and every row is read back, with exactly the value that was
    written, at the shard the placement function gives for its key.  The items are written to
    every file, each time with other values; what is read are the rows of the first
    warehouse. *)
Theorem tpcc_rows_found (i : nat) m tm sv d :
  Server_new m tm = Ok sv →
  ∃ files i' rows, Generate (λ _, true) 1 g_ware_num i = Ok (files, i') ∧
    (∀ w, 1 ≤ w ≤ g_ware_num →
       files !! w = Some (file_text (rows w)) ∧ (rows w).*1 = warehouse_keys w ∧ Forall (row_ok w) (rows w)) ∧
    ∀ w k v, 1 ≤ w ≤ g_ware_num → (k, v) ∈ rows w → w = 1 ∨ (∀ i, k ≠ item_key i) →
    ∃ s sv', @key_to_shard json_lib k 0 = Ok s ∧ 0 ≤ s < 3 ∧ load_warehouses files s sv = Ok (tt, sv') ∧
      VersionStore.get (data (store sv')) k d = (true, (Timestamp0, v)).
Proof.
  intros Hsv. pose proof (generate_files_ok (seqZ 1 (g_ware_num - 1 + 1)) i) as Hgen.
  apply wp_run in Hgen as (files & i' & Hgen & rows & Hf). exists files, i', rows.
  assert (∀ w, 1 ≤ w ≤ g_ware_num →
    files !! w = Some (file_text (rows w)) ∧ (rows w).*1 = warehouse_keys w ∧ Forall (row_ok w) (rows w)) as Hall.
  { intros w Hw. apply Hf, elem_of_seqZ. lia. }
  split_and!; [exact Hgen|exact Hall|]. intros w k v Hw Hk Hitem. destruct (Hall w Hw) as (_ & _ & Hok).
  rewrite Forall_forall in Hok. destruct (Hok _ Hk) as (P & HP & _).
  destruct (row_shard w k P HP Hw Hitem) as (s & Hs & Hrange & Hin). exists s.
  destruct (Server_new_ok _ _ _ Hsv) as (Hok0 & _ & _ & Hempty).
  assert (∀ w0, w0 ∈ loaded_warehouses s → 1 ≤ w0 ≤ g_ware_num) as Hws.
  { intros w0 Hw0. apply elem_of_loaded_warehouses in Hw0; [|lia]. unfold ware_per_shard, g_ware_num in *.
    pose proof (Z.div_mod (w0 - 1) 10 ltac:(lia)). pose proof (Z.mod_pos_bound (w0 - 1) 10 ltac:(lia)). lia. }
  assert (holds ∅ sv) as Hnone by (split; [done|]; intros k'; by apply inStore_false).
  pose proof (load_files_spec files rows (loaded_warehouses s) ∅ sv Hnone) as Hload.
  apply wp_run in Hload as ([] & sv' & Hrun & Hsv').
  2: { intros w0 Hw0. destruct (Hall w0 (Hws w0 Hw0)) as (? & _ & ?). done. }
  exists sv'. split_and!; [done|lia|lia|done|]. eapply holds_get; [exact Hsv'|]. rewrite (left_id_L ∅ (∪)).
  eapply (row_value rows _ w); [|done|done|].
  - intros w0 Hw0. by apply Hall, Hws.
  - destruct Hitem as [->|]; [left|by right]. apply elem_of_loaded_warehouses in Hin; [|lia].
    by assert (s = 0) as -> by done.
Qed.
End data.

(** ** Products of doubles *)

Lemma digits2_log2 p : Z.pos (digits2_pos p) = Z.log2 (Z.pos p) + 1.
Proof.
  assert (∀ p, digits2_pos p = Pos.size p) as Hs by (clear p; induction p; simpl; congruence).
  rewrite Hs. destruct p; simpl; lia.
Qed.

Lemma shr_1_m r : 0 ≤ shr_m r → shr_m (shr_1 r) = shr_m r / 2 ∧ 0 ≤ shr_m (shr_1 r).
Proof.
  destruct r as [[|[p|p|]|p] b1 b2]; cbn [shr_m shr_1]; intros Hm; [done| | |done|by destruct Hm].
  - split; [|done]. apply (Z.div_unique _ _ _ 1); [by left|]. by rewrite (Pos2Z.inj_xI p).
  - split; [|done]. apply (Z.div_unique _ _ _ 0); [by left|]. by rewrite (Pos2Z.inj_xO p), Z.add_0_r.
Qed.

Lemma iter_shr n : ∀ r, 0 ≤ shr_m r → shr_m (SpecFloat.iter_pos shr_1 n r) = shr_m r / 2 ^ Z.pos n ∧ 0 ≤ shr_m (SpecFloat.iter_pos shr_1 n r).
Proof.
  assert (∀ a n1 n2, 0 ≤ a → 0 ≤ n1 → 0 ≤ n2 → a / 2 ^ n1 / 2 ^ n2 = a / 2 ^ (n1 + n2)) as Hdiv.
  { intros a n1 n2 Ha H1 H2. rewrite Z.div_div, Z.pow_add_r by lia. done. }
  induction n as [n IH|n IH|]; intros r Hr; simpl SpecFloat.iter_pos.
  - destruct (shr_1_m r Hr) as [E1 P1]. destruct (IH _ P1) as [E2 P2]. destruct (IH _ P2) as [E3 P3]. split; [|done].
    rewrite E3, E2, E1, Hdiv by lia. change 2 with (2 ^ 1) at 1. rewrite Hdiv by lia. f_equal. f_equal. lia.
  - destruct (IH _ Hr) as [E2 P2]. destruct (IH _ P2) as [E3 P3]. split; [|done]. rewrite E3, E2, Hdiv by lia. f_equal. f_equal. lia.
  - by apply shr_1_m.
Qed.

(** A normal number with an exponent in a range. *)
Definition normal (lo hi : Z) (x : double) : Prop :=
  match x with S754_finite false m e => 2 ^ 52 ≤ Z.pos m < 2 ^ 53 ∧ lo ≤ e ≤ hi | _ => False end.

Lemma log2_range m n : 2 ^ n ≤ m < 2 ^ (n + 1) → 0 ≤ n → Z.log2 m = n.
Proof. intros Hm Hn. apply Z.log2_unique; [done|]. by rewrite <- Z.add_1_r. Qed.

(** Rounding a mantissa that is exact. *)
Lemma round_exact m e : 2 ^ 52 ≤ m ≤ 2 ^ 53 → -1000 ≤ e ≤ 900 →
  match shr_fexp 53 1024 m e loc_Exact with
  | (r, e') => 2 ^ 52 ≤ shr_m r < 2 ^ 53 ∧ e ≤ e' ≤ e + 1
  end.
Proof.
  intros Hm He. unfold shr_fexp, fexp, emin. destruct m as [|p|p]; [lia| |lia]. simpl Zdigits2. rewrite digits2_log2.
  destruct (decide (Z.pos p = 2 ^ 53)) as [Hp|Hp].
  - rewrite Hp. change (Z.log2 (2 ^ 53)) with 53. replace (Z.max (53 + 1 + e - 53) (3 - 1024 - 53) - e) with 1 by lia.
    simpl. split; [|lia]. split; [|lia]. done.
  - rewrite (log2_range (Z.pos p) 52) by lia. replace (Z.max (52 + 1 + e - 53) (3 - 1024 - 53) - e) with 0 by lia. simpl. lia.
Qed.

Lemma dmul_normal x y lo1 hi1 lo2 hi2 :
  normal lo1 hi1 x → normal lo2 hi2 y → -400 ≤ lo1 → -400 ≤ lo2 → hi1 ≤ 400 → hi2 ≤ 400 →
  normal (lo1 + lo2 + 52) (hi1 + hi2 + 54) (dmul x y).
Proof.
  destruct x as [| | |[] m1 e1]; try done. destruct y as [| | |[] m2 e2]; try done. simpl. intros [Hm1 He1] [Hm2 He2] ? ? ? ?.
  unfold dmul, SFmul, binary_round_aux. set (m := Z.pos (m1 * m2)%positive).
  assert (2 ^ 104 ≤ m < 2 ^ 106) as Hm by (unfold m; rewrite Pos2Z.inj_mul; split; [change (2 ^ 104) with (2 ^ 52 * 2 ^ 52)|change (2 ^ 106) with (2 ^ 53 * 2 ^ 53)]; nia).
  assert (∃ r e, shr_fexp 53 1024 m (e1 + e2) loc_Exact = (r, e) ∧ 2 ^ 52 ≤ shr_m r < 2 ^ 53 ∧ e1 + e2 + 52 ≤ e ≤ e1 + e2 + 53)
    as (r & e & -> & Hr & He).
  { unfold shr_fexp, fexp, emin. unfold m at 2. simpl Zdigits2. rewrite digits2_log2. fold m.
    assert (∃ n, (n = 52%positive ∨ n = 53%positive) ∧ Z.max (Z.log2 m + 1 + (e1 + e2) - 53) (3 - 1024 - 53) - (e1 + e2) = Z.pos n ∧
                 2 ^ (52 + Z.pos n) ≤ m < 2 ^ (53 + Z.pos n)) as (n & Hn & -> & Hmn).
    { destruct (decide (m < 2 ^ 105)) as [Hlt|Hge].
      - exists 52%positive. rewrite (log2_range m 104) by (simpl; lia). split; [by left|]. split; [lia|]. simpl in *. lia.
      - exists 53%positive. rewrite (log2_range m 105) by (simpl; lia). split; [by right|]. split; [lia|]. simpl in *. lia. }
    unfold shr. eexists _, _. split; [reflexivity|]. destruct (iter_shr n (shr_record_of_loc m loc_Exact)) as [-> _]; [simpl; lia|].
    simpl shr_m. split; [|lia]. rewrite !Z.pow_add_r in Hmn by lia. split.
    - apply Z.div_le_lower_bound; lia.
    - apply Z.div_lt_upper_bound; lia. }
  assert (2 ^ 52 ≤ round_nearest_even (shr_m r) (loc_of_shr_record r) ≤ 2 ^ 53) as Hround.
  { unfold round_nearest_even. destruct (loc_of_shr_record r) as [|[]]; try lia. destruct (Z.even _); lia. }
  pose proof (round_exact _ e Hround ltac:(lia)) as Hre. destruct (shr_fexp 53 1024 _ e loc_Exact) as [r' e'].
  destruct Hre as [Hr' He']. destruct (shr_m r') as [|p|p]; [lia| |lia].
  rewrite (proj2 (Z.leb_le e' (1024 - 53))) by lia. simpl. lia.
Qed.

Definition normal_test (lo hi : Z) (x : double) : bool :=
  match x with
  | S754_finite false m e => (2 ^ 52 <=? Z.pos m) && (Z.pos m <? 2 ^ 53) && (lo <=? e) && (e <=? hi)
  | _ => false
  end.

Lemma normal_test_true lo hi x : normal_test lo hi x = true → normal lo hi x.
Proof. destruct x as [| | |[] m e]; try done. unfold normal_test, normal. lia. Qed.

Lemma forallb_seqZ (f : Z → bool) m n z : forallb f (seqZ m n) = true → m ≤ z < m + n → f z = true.
Proof. intros Hall Hz. rewrite forallb_forall in Hall. apply Hall, list_elem_of_In, elem_of_seqZ. lia. Qed.

Lemma of_double_normal lo hi x : normal lo hi x → hi ≤ 0 → is_Some (of_double x).
Proof.
  destruct x as [| | |[] m e]; try done. intros [Hm He] Hhi. unfold of_double.
  assert (Z.shiftl (Z.pos m) e < 2 ^ 64) as Hlt.
  { rewrite Z.shiftl_div_pow2 by lia. eapply Z.le_lt_trans; [apply Z.div_le_upper_bound; [lia|]|]; [|instantiate (1 := Z.pos m); lia].
    assert (0 < 2 ^ (- e)) by lia. nia. }
  rewrite (proj2 (Z.ltb_lt _ _) Hlt). by eexists.
Qed.

(** The factors of an amount: all quantities and prices, taxes and discounts that are generated. *)
Lemma price_normal z : 1 ≤ z ≤ 1000 → normal (-52) (-43) (to_double z).
Proof. intros Hz. apply normal_test_true, (forallb_seqZ (λ z, normal_test (-52) (-43) (to_double z)) 1 1000); [vm_compute; reflexivity|lia]. Qed.

Lemma tax_normal w d : 0 ≤ w ≤ 200 → 0 ≤ d ≤ 200 →
  normal (-52) (-52) (dadd (dadd (to_double 1) (thousandths w)) (thousandths d)).
Proof.
  intros Hw Hd. apply normal_test_true.
  apply (forallb_seqZ (λ d, normal_test (-52) (-52) (dadd (dadd (to_double 1) (thousandths w)) (thousandths d))) 0 201); [|lia].
  revert w Hw. intros w Hw.
  apply (forallb_seqZ (λ w, let x := dadd (to_double 1) (thousandths w) in
    forallb (λ d, normal_test (-52) (-52) (dadd x (thousandths d))) (seqZ 0 201)) 0 201); [vm_compute; reflexivity|lia].
Qed.

Lemma discount_normal c : 0 ≤ c ≤ 500 → normal (-53) (-52) (dsub (to_double 1) (thousandths c)).
Proof.
  intros Hc. apply normal_test_true.
  apply (forallb_seqZ (λ c, normal_test (-53) (-52) (dsub (to_double 1) (thousandths c))) 0 501); [vm_compute; reflexivity|lia].
Qed.

Lemma line_amount_defined q price w d c :
  1 ≤ q ≤ 10 → 1 ≤ price ≤ 100 → 0 ≤ w ≤ 200 → 0 ≤ d ≤ 200 → 0 ≤ c ≤ 500 →
  is_Some (line_amount q price (thousandths w) (thousandths d) (thousandths c)).
Proof.
  intros Hq Hp Hw Hd Hc. unfold line_amount. rewrite u64_small by (unfold is_u64, u64_modulus; nia).
  eapply (of_double_normal (-53) (-39)); [|lia].
  apply (dmul_normal _ _ (-52) (-41) (-53) (-52)); [|by apply discount_normal|lia..].
  apply (dmul_normal _ _ (-52) (-43) (-52) (-52)); [apply price_normal; nia|by apply tax_normal|lia..].
Qed.

(** ** The transactions on the generated data *)

Section generated.
Context {S : Type} `{!RandomSource} `{!JsonRows} `{!JsonLaws} `{!TxnApi S} `{!TxnView S}.
Implicit Types x : Driver S.

(** The store has the rows of all warehouses. *)
Definition generated_db (m : gmap string string) : Prop :=
  ∀ w k P, table_row w k P → 1 ≤ w ≤ g_ware_num → ∃ v, m !! k = Some v ∧ P v.

Lemma generated_line (t : NewOrder) m wt dt cd n :
  generated_db m → 1 ≤ no_w_id t ≤ g_ware_num → 1 ≤ no_d_id t ≤ g_dist_per_ware →
  lines_ok (no_w_id t) (Z.to_nat (ol_cnt t)) (ol_i_ids t, ol_supply_w_ids t, ol_quantities t) → 0 ≤ n < ol_cnt t →
  0 ≤ wt ≤ 200 → 0 ≤ dt ≤ 200 → 0 ≤ cd ≤ 500 →
  line_rows t m (thousandths wt) (thousandths dt) (thousandths cd) n.
Proof.
  intros Hm Hw Hd ((Hl1 & Hl2 & Hl3) & F1 & F2 & F3) Hn Hwt Hdt Hcd. simpl in *.
  destruct (lookup_lt_is_Some_2 (ol_i_ids t) (Z.to_nat n)) as [it Hit]; [lia|].
  destruct (lookup_lt_is_Some_2 (ol_supply_w_ids t) (Z.to_nat n)) as [su Hsu]; [lia|].
  destruct (lookup_lt_is_Some_2 (ol_quantities t) (Z.to_nat n)) as [q Hq]; [lia|].
  eapply Forall_lookup_1 in F1, F2, F3; [|done..].
  destruct (Hm 1 (item_key it) item_ok) as (vi & Hvi & ri & price & -> & Hpr & Hprice & Hnm & Hdat);
    [apply ItemRow; unfold g_item_num in *; lia|unfold g_ware_num; lia|].
  destruct (Hm su (stock_key su it) stock_ok) as (vs & Hvs & rs & sq & -> & Hsq & _ & Hsd & Hinfo);
    [apply StockRow; unfold g_item_num in *; lia|lia|].
  destruct (Hinfo (no_d_id t)) as [info Hi]; [unfold g_dist_per_ware in *; lia|].
  destruct (line_amount_defined q price wt dt cd) as [am Ham]; [done..|].
  exists it, su, q, ri, rs, price, sq, info, am. split_and!; try done.
Qed.

(** C26: The generated orders run on the generated data.  On a store with the rows of all
    warehouses, every input the generator makes for a new order, for one warehouse or several and
    whatever numbers are drawn, runs to the end: no read fails, no member is missing, no index is
    out of range and the amounts, which are computed with [double]s, can be converted; the first
    order of a district gets the number 3001. *)
Theorem generated_orders_run (local : bool) (i : nat) x :
  generated_db (view (db x)) →
  wp (NewOrder_GenInputData local) (λ t _, ∀ q, queue_at (no_w_id t) (no_d_id t) x = Ok (q, x) →
    ∃ x', NewOrder_RunTxn t x = Ok (0, x') ∧
      uint_at x' (district_key (no_w_id t) (no_d_id t)) "D_NEXT_O_ID" = Some 3002 ∧
      (∀ n, 0 ≤ n < ol_cnt t → is_Some (view (db x') !! order_line_key (no_w_id t) (no_d_id t) 3001 n)) ∧
      queue_at (no_w_id t) (no_d_id t) x' = Ok (q ++ [3001], x')) i.
Proof.
  intros Hm. eapply post_mono; [apply NewOrder_GenInputData_ok|]. intros t j (Hw & Hd & Hc & Hcnt & Hlines) q Hq.
  destruct (Hm (no_w_id t) _ _ (WarehouseRow _) Hw) as (vw & Hvw & rw & wt & -> & Hwt & Hwt' & _).
  destruct (Hm (no_w_id t) _ _ (DistrictRow _ _ Hd) Hw) as (vd & Hvd & rd & dt & -> & Hdt & Hdt' & _ & Hnext & _).
  destruct (Hm (no_w_id t) _ _ (CustomerRow _ _ _ Hd Hc) Hw) as (vc & Hvc & rc & cd & -> & Hcd & Hcd' & _ & Hla & Hcr).
  destruct (NewOrder_run t x (thousandths wt) (thousandths dt) (thousandths cd) 3001 q) as (x' & Hrun & Hn & _ & _ & Hl & Hq').
  { split; [eauto|exists rc; by split_and!|eauto|done|]. intros n Hn. by apply generated_line. }
  exists x'. split_and!; done.
Qed.

Lemma Payment_GenInputData_ok (local : bool) (i : nat) :
  wp (Payment_GenInputData local) (λ t _, 1 ≤ p_w_id t ≤ g_ware_num ∧ 1 ≤ p_d_id t ≤ g_dist_per_ware ∧
    1 ≤ p_c_id t ≤ g_cust_per_dist ∧ 1 ≤ c_w_id t ≤ g_ware_num ∧ 1 ≤ c_d_id t ≤ g_dist_per_ware) i.
Proof.
  unfold Payment_GenInputData, Payment_GenInputData_at. apply Rand_bind_ok; [done|]. intros w j1 Hw.
  apply Rand_bind_ok; [done|]. intros d j2 Hd. apply Rand_bind_ok; [done|]. intros am j3 Ham. apply post_bind.
  apply (post_mono _ _ (λ p _, 1 ≤ p.1 ≤ g_ware_num ∧ 1 ≤ p.2 ≤ g_dist_per_ware)).
  { destruct local; [by apply post_ret|]. apply Rand_bind_ok; [done|]. intros cw j4 Hcw. apply Rand_bind_ok; [done|].
    intros cd j5 Hcd. by apply post_ret. }
  intros [cw cd] j4 [Hcw Hcd]. apply Rand_bind_ok; [done|]. intros c j5 Hc. apply post_ret. simpl in *. split_and!; lia.
Qed.

(** A payment by a generated customer is undefined.  The balance of a customer is generated as the
    floating-point number -10, and the payment converts it to an unsigned integer: on the rows as
    they are generated every payment of the generator, for one warehouse or several, runs into
    undefined behaviour. *)
Theorem generated_payments_undefined (local : bool) (i : nat) x :
  generated_db (view (db x)) → wp (Payment_GenInputData local) (λ t _, Payment_RunTxn t x = Undefined) i.
Proof.
  intros Hm. eapply post_mono; [apply (Payment_GenInputData_ok local i)|]. intros t j (Hw & Hd & Hc & Hcw & Hcd).
  destruct (Hm (p_w_id t) _ _ (WarehouseRow _) Hw) as (vw & Hvw & rw & wt & -> & _ & _ & Hwy & [wn Hwn]).
  destruct (Hm (p_w_id t) _ _ (DistrictRow _ _ Hd) Hw) as (vd & Hvd & rd & dt & -> & _ & _ & Hdy & _ & [dn Hdn]).
  destruct (Hm (c_w_id t) _ _ (CustomerRow _ _ _ Hcd Hc) Hcw) as (vc & Hvc & rc & cd & -> & _ & _ & Hbal & _).
  destruct (put_row_run (warehouse_key (p_w_id t)) (set_uint "W_YTD" (u64 (300000 + h_amount t)) rw) x) as (x1 & Hp1 & Hv1 & _).
  destruct (put_row_run (district_key (p_w_id t) (p_d_id t)) (set_uint "D_YTD" (u64 (30000 + h_amount t)) rd) x1) as (x2 & Hp2 & Hv2 & _).
  unfold Payment_RunTxn.
  rewrite (bind_run _ _ _ _ _ (get_row_run _ _ _ Hvw)), (bind_run _ _ _ _ _ (parse_row_run rw x)).
  erewrite (bind_run _ _ x tt x1).
  2: { rewrite (bind_run _ _ _ _ _ (member_run _ _ _ Hwy)), (bind_run _ _ _ _ _ (member_run _ _ _ Hwn)). exact Hp1. }
  assert (view (db x1) !! district_key (p_w_id t) (p_d_id t) = Some (dump rd)) as Hd1.
  { rewrite Hv1, lookup_insert_ne; [done|]. by apply row_key_table. }
  rewrite (bind_run _ _ _ _ _ (get_row_run _ _ _ Hd1)), (bind_run _ _ _ _ _ (parse_row_run rd x1)).
  erewrite (bind_run _ _ x1 tt x2).
  2: { rewrite (bind_run _ _ _ _ _ (member_run _ _ _ Hdy)), (bind_run _ _ _ _ _ (member_run _ _ _ Hdn)). exact Hp2. }
  assert (view (db x2) !! customer_key (c_w_id t) (c_d_id t) (p_c_id t) = Some (dump rc)) as Hc2.
  { rewrite Hv2, Hv1, !lookup_insert_ne; [done|by apply row_key_table..]. }
  rewrite (bind_run _ _ _ _ _ (get_row_run _ _ _ Hc2)), (bind_run _ _ _ _ _ (parse_row_run rc x2)).
  rewrite Hbal. reflexivity.
Qed.
End generated.

(** ** Witnesses *)

(** All draws give the smallest number. *)
Import Tpcc.Demo.
#[local] Existing Instances default_order demo_clock.

Module DataDemo.
#[export] Instance demo_source : RandomSource := λ _, 0.

Lemma digits_line p : no_newline (digits p) = true.
Proof. induction p; simpl; done. Qed.

#[export] Instance demo_text : JsonText.
Proof. intros t. apply digits_line. Qed.

Definition drawn (m : M nat string) : string := match m O with Ok (v, _) => v | _ => "" end.

Lemma drawn_ok m P : wp m (λ v _, P v) O → P (drawn m).
Proof. unfold post, drawn. by destruct (m O) as [[]| |]. Qed.

Definition demo_data (w : Z) : list (string * string) :=
  ((λ i, (item_key i, drawn GenerateItem)) <$> seqZ 1 g_item_num) ++ [(warehouse_key w, drawn GenerateWarehouse)] ++
  ((λ d, (district_key w d, drawn GenerateDistrict)) <$> seqZ 1 g_dist_per_ware) ++
  (seqZ 1 g_dist_per_ware ≫= λ d, (λ c, (customer_key w d c, drawn (GenerateCustomer 1))) <$> seqZ 1 g_cust_per_dist) ++
  ((λ i, (stock_key w i, drawn GenerateStock)) <$> seqZ 1 g_item_num).

Definition data_view : gmap string string := list_to_map (seqZ 1 g_ware_num ≫= demo_data).

Definition data_driver : Driver (gmap string string) := MkDriver data_view (repeat (repeat [] 10) 30).

Definition data_order : NewOrder := MkNewOrder 1 1 1 2023 5 (repeat 8191 5) (repeat 1 5) (repeat 1 5) 0.
Definition data_payment : Payment := MkPayment 1 1 1 1 1 2023 1.
End DataDemo.
Import DataDemo.

Lemma demo_data_ok w kv : kv ∈ demo_data w → row_ok w kv.
Proof.
  unfold demo_data. rewrite !elem_of_app. intros [Hi|[Hw|[Hd|[Hc|Hs]]]].
  - apply list_elem_of_fmap in Hi as (i & -> & Hi%elem_of_seqZ). exists item_ok. split; [apply ItemRow; simpl; lia|].
    apply drawn_ok, GenerateItem_ok.
  - apply list_elem_of_singleton in Hw as ->. exists warehouse_ok. split; [apply WarehouseRow|]. apply drawn_ok, GenerateWarehouse_ok.
  - apply list_elem_of_fmap in Hd as (d & -> & Hd%elem_of_seqZ). exists district_ok. split; [apply DistrictRow; simpl; lia|].
    apply drawn_ok, GenerateDistrict_ok.
  - apply list_elem_of_bind in Hc as (d & Hc & Hd%elem_of_seqZ). apply list_elem_of_fmap in Hc as (c & -> & Hc%elem_of_seqZ).
    exists customer_ok. split; [apply CustomerRow; simpl; lia|]. apply drawn_ok, GenerateCustomer_ok. lia.
  - apply list_elem_of_fmap in Hs as (i & -> & Hi%elem_of_seqZ). exists stock_ok. split; [apply StockRow; simpl; lia|].
    apply drawn_ok, GenerateStock_ok.
Qed.

Lemma demo_data_complete w k P : table_row w k P → ∃ v, (k, v) ∈ demo_data w.
Proof.
  unfold demo_data. intros [i Hi| |d Hd|d c Hd Hc|i Hi]; eexists; rewrite !elem_of_app.
  - left. apply list_elem_of_fmap. exists i. split; [reflexivity|]. apply elem_of_seqZ. lia.
  - right. left. apply list_elem_of_singleton. reflexivity.
  - do 2 right. left. apply list_elem_of_fmap. exists d. split; [reflexivity|]. apply elem_of_seqZ. lia.
  - do 3 right. left. apply list_elem_of_bind. exists d. split; [|apply elem_of_seqZ; lia].
    apply list_elem_of_fmap. exists c. split; [reflexivity|]. apply elem_of_seqZ. lia.
  - do 4 right. apply list_elem_of_fmap. exists i. split; [reflexivity|]. apply elem_of_seqZ. lia.
Qed.

Lemma demo_generated : generated_db (view (db DataDemo.data_driver)).
Proof.
  intros w k P Hk Hw. change (view (db DataDemo.data_driver)) with DataDemo.data_view. unfold DataDemo.data_view.
  destruct (demo_data_complete w k P Hk) as [v Hv].
  destruct (list_to_map (M := gmap string string) (seqZ 1 g_ware_num ≫= demo_data) !! k) as [v'|] eqn:E.
  - exists v'. split; [reflexivity|]. apply elem_of_list_to_map_2, list_elem_of_bind in E as (w' & Hin & _).
    destruct (demo_data_ok _ _ Hin) as (P' & Hk' & HP). simpl in *. by rewrite (table_row_fun _ _ _ _ _ Hk Hk').
  - exfalso. apply not_elem_of_list_to_map in E. apply E. apply list_elem_of_fmap. exists (k, v). split; [reflexivity|].
    apply list_elem_of_bind. exists w. split; [exact Hv|]. apply elem_of_seqZ. lia.
Qed.

Lemma generated_orders_run_witness :
  ∃ i', NewOrder_GenInputData true O = Ok (DataDemo.data_order, i') ∧
  ∃ x', NewOrder_RunTxn DataDemo.data_order DataDemo.data_driver = Ok (0, x') ∧ queue_at 1 1 x' = Ok ([3001], x').
Proof.
  pose proof (generated_orders_run true O DataDemo.data_driver demo_generated) as Hrun.
  assert (NewOrder_GenInputData true O = Ok (DataDemo.data_order, 14%nat)) as E by (vm_compute; reflexivity).
  unfold post in Hrun. rewrite E in Hrun. destruct (Hrun [] eq_refl) as (x' & H1 & _ & _ & H2). eauto.
Defined.

Lemma generated_payments_undefined_witness :
  (∃ i', Payment_GenInputData true O = Ok (DataDemo.data_payment, i')) ∧
  Payment_RunTxn DataDemo.data_payment DataDemo.data_driver = Undefined.
Proof.
  pose proof (generated_payments_undefined true O DataDemo.data_driver demo_generated) as Hrun.
  assert (Payment_GenInputData true O = Ok (DataDemo.data_payment, 4%nat)) as E by (vm_compute; reflexivity).
  unfold post in Hrun. rewrite E in Hrun. split; [eauto|exact Hrun].
Defined.

Lemma tpcc_rows_found_witness :
  ∃ files i' rows v s sv', Generate (λ _, true) 1 g_ware_num O = Ok (files, i') ∧
    files !! 1 = Some (file_text (rows 1)) ∧ (item_key 5, v) ∈ rows 1 ∧
    @key_to_shard json_lib (item_key 5) 0 = Ok s ∧ load_warehouses files s demo_empty = Ok (tt, sv') ∧
    VersionStore.get (data (store sv')) (item_key 5) (Timestamp0, "") = (true, (Timestamp0, v)).
Proof.
  destruct (tpcc_rows_found O MODE_LOCK MODE_PARALLEL demo_empty (Timestamp0, "") eq_refl)
    as (files & i' & rows & Hgen & Hfiles & Hrows).
  destruct (Hfiles 1) as (H1 & Hkeys & _); [split; discriminate|].
  assert (item_key 5 ∈ (rows 1).*1) as Hin.
  { rewrite Hkeys. unfold warehouse_keys. apply elem_of_app. left. apply list_elem_of_fmap_2, elem_of_seqZ.
    unfold g_item_num. lia. }
  apply list_elem_of_fmap in Hin as ([k v] & Hk & Hin). simpl in Hk. subst k.
  destruct (Hrows 1 (item_key 5) v) as (s & sv' & Hs & _ & Hload & Hget); [split; discriminate|exact Hin|by left|].
  exists files, i', rows, v, s, sv'. split_and!; [exact Hgen|exact H1|exact Hin|exact Hs|exact Hload|exact Hget].
Defined.
