(* ===== verification/Latency.v ===== *)
(** Latency measurement: [lib/latency.h], [lib/latency.cc] and the messages of
    [lib/latency-format.proto].

    A [Latency_t] has a distribution for each type of sample, in a pool of five; [dists] is the
    table of pointers into the pool.  Frames on the stack of the callers and the latencies are
    named by their addresses.  The monotonic clock and whether the statistics can be written are
    parameters; [written] is the content of the file.  The name of the file has the process number
    in it and is left out.  What [Latency_Dump] prints is a list of values in place of formatted
    text. *)

From S2P Require Import Prelude.

Definition LATENCY_MAX_DIST : Z := 127.
Definition LATENCY_DIST_POOL_SIZE : nat := 5.
Definition LATENCY_HISTOGRAM_WIDTH : Z := 50.
Definition LATENCY_NUM_BUCKETS : Z := 65.

Definition u32 (z : Z) : Z := z mod 2 ^ 32.

(** ** Distributions *)

Record Latency_Dist_t := MkDist {
  d_min : Z; d_max : Z; d_total : Z; d_count : Z; d_buckets : list Z; d_type : Z
}.

#[global] Instance Latency_Dist_t_eta : Eta Latency_Dist_t := λ d,
  MkDist (d_min d) (d_max d) (d_total d) (d_count d) (d_buckets d) (d_type d).

(** A distribution after [LatencyInit]. *)
Definition Dist_init : Latency_Dist_t := MkDist (2 ^ 64 - 1) 0 0 0 (repeat 0 (Z.to_nat LATENCY_NUM_BUCKETS)) 0.

Record Latency_t := MkLatency {
  l_name : string;
  dists : gmap Z nat;
  distPool : list Latency_Dist_t;
  distPoolNext : nat;
  bottom : option Z;
  l_next : option Z
}.

#[global] Instance Latency_t_eta : Eta Latency_t := λ l,
  MkLatency (l_name l) (dists l) (distPool l) (distPoolNext l) (bottom l) (l_next l).

Definition LatencyInit (name : string) : Latency_t :=
  MkLatency name ∅ (repeat Dist_init LATENCY_DIST_POOL_SIZE) 0 None None.

(** [while (val) { val >>= 1; ++bucket; }]: a value of 64 bits is zero after 64 rounds. *)
Fixpoint bucket_loop (fuel : nat) (val bucket : Z) : Z :=
  match fuel with
  | O => bucket
  | S fuel => if val =? 0 then bucket else bucket_loop fuel (Z.shiftr val 1) (bucket + 1)
  end.

Definition bucket_of (val : Z) : Z := bucket_loop 64 (Z.shiftr val 1) 0.

Definition add_bucket (b count : Z) (d : Latency_Dist_t) : Latency_Dist_t :=
  d <| d_buckets ::= alter (λ n, u32 (n + count)) (Z.to_nat b) |>.

Abbreviation ML := (M Latency_t).

(** The entry [dists[type]], which is taken from the pool when there is none. *)
Definition find_dist (type : Z) : ML nat :=
  if (type <? 0) || (LATENCY_MAX_DIST <=? type) then undefined
  else
    l ← get_st;
    match dists l !! type with
    | Some j => mret j
    | None =>
        if decide (distPoolNext l = LATENCY_DIST_POOL_SIZE) then panic
        else
          let j := distPoolNext l in
          _ ← deref (distPool l !! j);
          _ ← modify (λ l, l <| distPoolNext := S j |> <| dists ::= <[type := j]> |>
                             <| distPool ::= alter (λ d, d <| d_type := type |>) j |>);
          mret j
    end.

Definition LatencyAddHist (type val count : Z) : ML nat :=
  j ← find_dist type;
  let b := bucket_of val in
  l ← get_st;
  d ← deref (distPool l !! j);
  _ ← deref (d_buckets d !! Z.to_nat b);
  _ ← modify (λ l, l <| distPool ::= alter (add_bucket b count) j |>);
  mret j.

(** The rest of [LatencyAdd]. *)
Definition add_value (val : Z) (d : Latency_Dist_t) : Latency_Dist_t :=
  d <| d_min := if val <? d_min d then val else d_min d |>
    <| d_max := if d_max d <? val then val else d_max d |>
    <| d_total := u64 (d_total d + val) |> <| d_count := u64_incr (d_count d) |>.

Definition LatencyAdd (type val : Z) : ML unit :=
  j ← LatencyAddHist type val 1;
  modify (λ l, l <| distPool ::= alter (add_value val) j |>).

(** ** Adding up *)

(** The buckets of a distribution of the summand; [1ll<<b] is undefined for [b] of 64. *)
Definition sum_bucket (d : Latency_Dist_t) (b : Z) : ML unit :=
  n ← deref (d_buckets d !! Z.to_nat b);
  if n =? 0 then mret tt
  else if 64 <=? b then undefined
  else _ ← LatencyAddHist (d_type d) (Z.shiftl 1 b) n; mret tt.

Definition merge_rest (ds dd : Latency_Dist_t) : Latency_Dist_t :=
  dd <| d_min := if d_min ds <? d_min dd then d_min ds else d_min dd |>
     <| d_max := if d_max dd <? d_max ds then d_max ds else d_max dd |>
     <| d_total := u64 (d_total dd + d_total ds) |> <| d_count := u64 (d_count dd + d_count ds) |>.

Definition sum_dist (summand : Latency_t) (i : Z) : ML unit :=
  match dists summand !! i with
  | None => mret tt
  | Some js =>
      ds ← deref (distPool summand !! js);
      l ← get_st;
      jd ← deref (dists l !! i);
      modify (λ l, l <| distPool ::= alter (merge_rest ds) jd |>)
  end.

(** [Latency_Sum(dest, summand)], for two different latencies. *)
Definition Latency_Sum (summand : Latency_t) : ML unit :=
  _ ← for_each (seq 0 (distPoolNext summand)) (λ i,
        d ← deref (distPool summand !! i);
        for_each (seqZ 0 LATENCY_NUM_BUCKETS) (sum_bucket d));
  for_each (seqZ 0 LATENCY_MAX_DIST) (sum_dist summand).

(** ** Messages *)

Record LatencyDist := MkLatencyDist { m_type : Z; m_min : Z; m_max : Z; m_total : Z; m_count : Z; m_buckets : list Z }.
Record LatencyMsg := MkLatencyMsg { m_name : string; m_dists : list LatencyDist }.

Definition put_dist (d : Latency_Dist_t) : LatencyDist :=
  MkLatencyDist (u32 (d_type d)) (d_min d) (d_max d) (d_total d) (d_count d) (d_buckets d).

Definition Latency_Put (l : Latency_t) : LatencyMsg := MkLatencyMsg (l_name l) (put_dist <$> take (distPoolNext l) (distPool l)).

(** The conversion of a [uint32] to [char]. *)
Definition to_char (z : Z) : Z := (z + 128) mod 256 - 128.

(** Entry [i]; a message with too few buckets or a type out of range, and an index after the
    pool, are undefined. *)
Definition get_dist (i : nat) (ind : LatencyDist) : ML unit :=
  l ← get_st;
  _ ← deref (distPool l !! i);
  let type := to_char (m_type ind) in
  if (type <? 0) || (LATENCY_MAX_DIST <=? type) then undefined
  else if (length (m_buckets ind) <? Z.to_nat LATENCY_NUM_BUCKETS)%nat then undefined
  else modify (λ l, l <| dists ::= <[type := i]> |>
                      <| distPool ::= <[i := MkDist (m_min ind) (m_max ind) (m_total ind) (m_count ind)
                                               (take (Z.to_nat LATENCY_NUM_BUCKETS) (m_buckets ind)) type]> |>).

Definition Latency_TryGet (m : LatencyMsg) : ML bool :=
  _ ← modify (λ _, LatencyInit (m_name m) <| distPoolNext := length (m_dists m) |>);
  _ ← for_each (zip (seq 0 (length (m_dists m))) (m_dists m)) (λ p, get_dist p.1 p.2);
  mret true.

(** ** Frames *)

Record timespec := MkTimespec { tv_sec : Z; tv_nsec : Z }.

Record Latency_Frame_t := MkFrame { start : timespec; accum : Z; parent : option Z }.

#[global] Instance Latency_Frame_t_eta : Eta Latency_Frame_t := λ f, MkFrame (start f) (accum f) (parent f).

(** The state of the process. *)
Record Stats := MkStats {
  latencies : gmap Z Latency_t;
  frames : gmap Z Latency_Frame_t;
  latencyHead : option Z;
  lastFlush : timespec;
  readings : nat;
  written : option (list LatencyMsg)
}.

#[global] Instance Stats_eta : Eta Stats := λ s,
  MkStats (latencies s) (frames s) (latencyHead s) (lastFlush s) (readings s) (written s).

Definition Stats_new : Stats := MkStats ∅ ∅ None (MkTimespec 0 0) 0 None.

(** The readings of the clock, and whether the file of the statistics can be written. *)
Class StatsSystem := { clock_gettime : nat → option timespec; can_write : bool }.

Abbreviation MS := (M Stats).

(** A frame as the compiler leaves it. *)
Definition new_frame : Latency_Frame_t := MkFrame (MkTimespec 0 0) 0 None.

Section frames.
Context `{!StatsSystem}.

Definition read_clock : MS timespec :=
  s ← get_st;
  _ ← modify (λ s, s <| readings ::= S |>);
  match clock_gettime (readings s) with Some t => mret t | None => panic end.

Definition on_latency {A} (a : Z) (m : ML A) : MS A := λ s,
  match latencies s !! a with
  | None => Undefined
  | Some l =>
      match m l with
      | Ok (x, l') => Ok (x, s <| latencies ::= <[a := l']> |>)
      | Panic => Panic
      | Undefined => Undefined
      end
  end.

Definition Latency_Init (a : Z) (name : string) : MS unit :=
  modify (λ s, s <| latencies ::= <[a := LatencyInit name <| l_next := latencyHead s |>]> |> <| latencyHead := Some a |>).

(** The list that starts at [latencyHead]; a cycle is followed for ever. *)
Fixpoint chain (fuel : nat) (p : option Z) : MS (list Latency_t) :=
  match p, fuel with
  | None, _ => mret []
  | Some _, O => undefined
  | Some a, S fuel =>
      s ← get_st;
      l ← deref (latencies s !! a);
      rest ← chain fuel (l_next l);
      mret (l :: rest)
  end.

Definition Latency_Flush : MS unit :=
  s ← get_st;
  ls ← chain (S (size (latencies s))) (latencyHead s);
  if can_write then modify (λ s, s <| written := Some (Latency_Put <$> ls) |>) else panic.

Definition LatencyMaybeFlush : MS unit :=
  now ← read_clock;
  s ← get_st;
  if tv_sec now =? tv_sec (lastFlush s) then mret tt
  else _ ← modify (λ s, s <| lastFlush := now |>); Latency_Flush.

(** [uint64_t delta] between two readings. *)
Definition elapsed (from to : timespec) : Z :=
  let delta := u64 (u64 (tv_sec to - tv_sec from) * 1000000000) in
  if tv_nsec to <? tv_nsec from
  then u64 (u64 (delta - 1000000000) + (tv_nsec to + 1000000000 - tv_nsec from))
  else u64 (delta + (tv_nsec to - tv_nsec from)).

(** [l->bottom]. *)
Definition bottom_frame (a : Z) : MS Z := on_latency a (l ← get_st; deref (bottom l)).

Definition Latency_Pause (a : Z) : MS unit :=
  now ← read_clock;
  fr ← bottom_frame a;
  s ← get_st;
  f ← deref (frames s !! fr);
  modify (λ s, s <| frames ::= <[fr := f <| accum := u64 (accum f + elapsed (start f) now) |>]> |>).

Definition Latency_Resume (a : Z) : MS unit :=
  now ← read_clock;
  fr ← bottom_frame a;
  s ← get_st;
  f ← deref (frames s !! fr);
  modify (λ s, s <| frames ::= <[fr := f <| start := now |>]> |>).

Definition Latency_StartRec (a fr : Z) : MS unit :=
  up ← on_latency a (l ← get_st; _ ← modify (λ l, l <| bottom := Some fr |>); mret (bottom l));
  _ ← modify (λ s, s <| frames ::= <[fr := default new_frame (frames s !! fr) <| accum := 0 |> <| parent := up |>]> |>);
  Latency_Resume a.

Definition Latency_EndRecType (a fr type : Z) : MS unit :=
  _ ← Latency_Pause a;
  s ← get_st;
  f ← deref (frames s !! fr);
  _ ← on_latency a (_ ← modify (λ l, l <| bottom := parent f |>); LatencyAdd type (accum f));
  LatencyMaybeFlush.
End frames.

(** ** Printing *)

(** A duration and its unit. *)
Fixpoint fmt_loop (fuel : nat) (ns : Z) (unit : nat) : Z * nat :=
  match fuel with
  | O => (ns, unit)
  | S fuel => if 10000 <=? ns then fmt_loop fuel (ns / 1000) (S unit) else (ns, unit)
  end.

Definition units : list string := ["ns"; "us"; "ms"; "s"].

(** The loop ends after three rounds, with the last unit. *)
Definition LatencyFmtNS (ns : Z) : Z * string :=
  let '(ns, unit) := fmt_loop 3 ns 0 in (ns, units !!! unit).

Inductive printed :=
| Line (type min average median max count total : Z)
| Gap
| EmptyBucket (b : Z)
| Bar (b total : Z) (bar : list Z).

(** The loop over the buckets; [medianBucket] is the number of buckets when it ends without a
    break. *)
Fixpoint median_bucket (bs : list Z) (half acc b : Z) : Z :=
  match bs with
  | [] => b
  | n :: bs => let acc := u64 (acc + n) in if half <=? acc then b else median_bucket bs half acc (b + 1)
  end.

Definition dump_line (l : Latency_t) (type : Z) : ML (list printed) :=
  match dists l !! type with
  | None => mret []
  | Some j =>
      d ← deref (distPool l !! j);
      let m := median_bucket (d_buckets d) (d_count d / 2) 0 0 in
      if (d_count d =? 0) || (64 <=? m) then undefined
      else mret [Line type (d_min d) (d_total d / d_count d) (Z.shiftl 1 m) (d_max d) (d_count d) (d_total d)]
  end.

Fixpoint collect {A B S} (f : A → M S (list B)) (l : list A) : M S (list B) :=
  match l with
  | [] => mret []
  | x :: l => ys ← f x; rest ← collect f l; mret (ys ++ rest)
  end.

(** The types that are used, which the code keeps as a linked list. *)
Definition used_types (l : Latency_t) : list Z := filter (λ t, is_Some (dists l !! t)) (seqZ 0 LATENCY_MAX_DIST).

(** Entry [i] of the buckets of a distribution. *)
Definition bucket_at (l : Latency_t) (j : nat) (i : Z) : ML Z :=
  d ← deref (distPool l !! j); deref (d_buckets d !! Z.to_nat i).

Fixpoint pool_total (l : Latency_t) (i : Z) (js : list nat) (total : Z) : ML Z :=
  match js with
  | [] => mret total
  | j :: js => n ← bucket_at l j i; pool_total l i js (u64 (total + n))
  end.

Fixpoint largest_count (l : Latency_t) (is_ : list Z) (largest : Z) : ML Z :=
  match is_ with
  | [] => mret largest
  | i :: is_ =>
      total ← pool_total l i (seq 0 (distPoolNext l)) 0;
      largest_count l is_ (if largest <? total then total else largest)
  end.

(** [for (; pos < goal; ++pos) bar[pos] = type]: the array has one place more than the width. *)
Fixpoint fill_bar (n : nat) (type : Z) (bar : list Z) : ML (list Z) :=
  match n with
  | O => mret bar
  | S n => if (Z.of_nat (length bar) <=? LATENCY_HISTOGRAM_WIDTH) then fill_bar n type (bar ++ [type]) else undefined
  end.

Fixpoint draw_bar (l : Latency_t) (largest i : Z) (ts : list Z) (total : Z) (bar : list Z) : ML (Z * list Z) :=
  match ts with
  | [] => mret (total, bar)
  | t :: ts =>
      j ← deref (dists l !! t);
      n ← bucket_at l j i;
      let total := u64 (total + n) in
      let goal := to_int (u64 (total * LATENCY_HISTOGRAM_WIDTH) / largest) in
      bar ← fill_bar (Z.to_nat (goal - Z.of_nat (length bar))) t bar;
      draw_bar l largest i ts total bar
  end.

(** The rows of the histogram. *)
Fixpoint histogram (l : Latency_t) (largest : Z) (is_ : list Z) (lastPrinted : Z) : ML (list printed) :=
  match is_ with
  | [] => mret []
  | i :: is_ =>
      '(total, bar) ← draw_bar l largest i (used_types l) 0 [];
      if total =? 0 then histogram l largest is_ lastPrinted
      else if LATENCY_HISTOGRAM_WIDTH <? Z.of_nat (length bar) then undefined
      else if 64 <=? i then undefined
      else
        rest ← histogram l largest is_ i;
        mret ((if lastPrinted <? i - 3 then [Gap] else EmptyBucket <$> seqZ (lastPrinted + 1) (i - lastPrinted - 1)) ++
              [Bar i total bar] ++ rest)
  end.

Definition Latency_Dump : ML (list printed) :=
  l ← get_st;
  if (distPoolNext l =? 0)%nat then mret []
  else
    lines ← collect (dump_line l) (seqZ 0 LATENCY_MAX_DIST);
    largest ← largest_count l (seqZ 0 LATENCY_NUM_BUCKETS) LATENCY_HISTOGRAM_WIDTH;
    bars ← histogram l largest (seqZ 0 LATENCY_NUM_BUCKETS) LATENCY_NUM_BUCKETS;
    mret (lines ++ bars).

(** ** Buckets *)

Lemma log2_half v : 0 ≤ v → v / 2 ≠ 0 → Z.log2 v = Z.log2 (v / 2) + 1.
Proof.
  intros Hv Hne. assert (2 ≤ v) by (pose proof (Z.div_small v 2); lia).
  pose proof (Z.log2_shiftr v 1 ltac:(lia)) as Hs. rewrite Z.shiftr_div_pow2 in Hs by lia. change (2 ^ 1) with 2 in Hs.
  assert (Z.log2 2 ≤ Z.log2 v) by (by apply Z.log2_le_mono).
  change (Z.log2 2) with 1 in *. lia.
Qed.

Lemma bucket_loop_log2 fuel : ∀ v b, 0 ≤ v < 2 ^ Z.of_nat fuel → bucket_loop fuel v b = b + (if v =? 0 then 0 else Z.log2 v + 1).
Proof.
  induction fuel as [|fuel IH]; intros v b Hv; cbn [bucket_loop].
  { simpl in Hv. assert (v = 0) as -> by lia. simpl. lia. }
  destruct (Z.eqb_spec v 0) as [->|Hne]; [lia|]. rewrite Z.shiftr_div_pow2 by lia. change (2 ^ 1) with 2.
  assert (v / 2 < 2 ^ Z.of_nat fuel) by (apply Z.div_lt_upper_bound; [lia|]; rewrite Nat2Z.inj_succ, Z.pow_succ_r in Hv; lia).
  rewrite IH by (split; [apply Z.div_pos|]; lia).
  destruct (Z.eqb_spec (v / 2) 0) as [Hz0|Hn0].
  - assert (v = 1) as -> by (pose proof (Z.div_mod v 2 ltac:(lia)); pose proof (Z.mod_pos_bound v 2 ltac:(lia)); lia). simpl. lia.
  - rewrite (log2_half v) by lia. lia.
Qed.

(** The bucket of a value is the position of its highest bit. *)
Lemma bucket_of_log2 v : is_u64 v → bucket_of v = Z.log2 v.
Proof.
  unfold is_u64, u64_modulus. intros Hv. unfold bucket_of. rewrite Z.shiftr_div_pow2 by lia. change (2 ^ 1) with 2.
  assert (v / 2 < 2 ^ 63) by (apply Z.div_lt_upper_bound; lia). assert (0 ≤ v / 2) by (apply Z.div_pos; lia).
  rewrite bucket_loop_log2 by (simpl; lia). destruct (Z.eqb_spec (v / 2) 0) as [Hz0|Hn0].
  - assert (v = 0 ∨ v = 1) as [->| ->] by (pose proof (Z.div_mod v 2 ltac:(lia)); pose proof (Z.mod_pos_bound v 2 ltac:(lia)); lia); done.
  - rewrite (log2_half v) by lia. lia.
Qed.

Lemma log2_bucket v : is_u64 v → 0 ≤ Z.log2 v < 64.
Proof.
  unfold is_u64, u64_modulus. intros Hv. split; [apply Z.log2_nonneg|]. destruct (decide (v = 0)) as [->|Hne]; [done|].
  apply Z.log2_lt_pow2; lia.
Qed.

(** ** Distributions by type *)

Record wf (l : Latency_t) : Prop := {
  wf_pool : length (distPool l) = LATENCY_DIST_POOL_SIZE;
  wf_next : distPoolNext l = size (dists l);
  wf_le : (distPoolNext l ≤ LATENCY_DIST_POOL_SIZE)%nat;
  wf_dist : ∀ t j, dists l !! t = Some j → (j < distPoolNext l)%nat ∧ 0 ≤ t < LATENCY_MAX_DIST ∧
    ∃ d, distPool l !! j = Some d ∧ d_type d = t ∧ length (d_buckets d) = Z.to_nat LATENCY_NUM_BUCKETS;
  wf_used : ∀ j, (j < distPoolNext l)%nat → ∃ t, dists l !! t = Some j;
  wf_free : ∀ j, (distPoolNext l ≤ j < LATENCY_DIST_POOL_SIZE)%nat → distPool l !! j = Some Dist_init
}.

(** The distributions, by type. *)
Definition by_type (l : Latency_t) : gmap Z Latency_Dist_t := omap (λ j, distPool l !! j) (dists l).

Definition init_dist (t : Z) : Latency_Dist_t := Dist_init <| d_type := t |>.

Lemma LatencyInit_wf name : wf (LatencyInit name).
Proof. split; try done; [simpl; lia|intros j Hj; simpl in *; lia|]. intros j Hj. simpl in *. unfold LATENCY_DIST_POOL_SIZE in *. by do 5 (destruct j as [|j]; [done|]); lia. Qed.

Section spec.
Implicit Types l : Latency_t.

Lemma by_type_lookup l t : by_type l !! t = dists l !! t ≫= λ j, distPool l !! j.
Proof. unfold by_type. by rewrite lookup_omap. Qed.

Lemma by_type_dists l t j : wf l → dists l !! t = Some j → ∃ d, by_type l !! t = Some d ∧ distPool l !! j = Some d ∧
  d_type d = t ∧ length (d_buckets d) = Z.to_nat LATENCY_NUM_BUCKETS.
Proof.
  intros Hwf Hj. destruct (wf_dist _ Hwf _ _ Hj) as (_ & _ & d & Hd & ? & ?). exists d. rewrite by_type_lookup, Hj. done.
Qed.

Lemma by_type_None l t : wf l → by_type l !! t = None → dists l !! t = None.
Proof.
  intros Hwf Ht. destruct (dists l !! t) as [j|] eqn:Hj; [|done]. destruct (by_type_dists _ _ _ Hwf Hj) as (d & Hd & _). congruence.
Qed.

Lemma by_type_size l : wf l → size (by_type l) = distPoolNext l.
Proof.
  intros Hwf. rewrite (wf_next _ Hwf), <- !size_dom. f_equal. apply set_eq. intros t. rewrite !elem_of_dom.
  split; intros [x Hx].
  - destruct (dists l !! t) as [j|] eqn:Hj; [done|]. rewrite by_type_lookup, Hj in Hx. done.
  - destruct (by_type_dists _ _ _ Hwf Hx) as (d & Hd & _). eauto.
Qed.

Lemma wf_inj l t t' j : wf l → dists l !! t = Some j → dists l !! t' = Some j → t = t'.
Proof.
  intros Hwf H1 H2. destruct (by_type_dists _ _ _ Hwf H1) as (d & _ & Hd & <- & _).
  destruct (by_type_dists _ _ _ Hwf H2) as (d' & _ & Hd' & <- & _). congruence.
Qed.

(** A change of one distribution. *)
Lemma update_dist l t j f :
  wf l → dists l !! t = Some j → (∀ d, d_type (f d) = d_type d ∧ length (d_buckets (f d)) = length (d_buckets d)) →
  wf (l <| distPool ::= alter f j |>) ∧ by_type (l <| distPool ::= alter f j |>) = alter f t (by_type l).
Proof.
  intros Hwf Hj Hf. split.
  - split; simpl; try apply Hwf; [rewrite length_alter; apply Hwf| |].
    + intros t' j' Hj'. destruct (wf_dist _ Hwf _ _ Hj') as (Hlt & Ht & d & Hd & Hty & Hb). split_and!; [lia..|].
      destruct (decide (j = j')) as [<-|Hne].
      * exists (f d). rewrite list_lookup_alter_eq, Hd. destruct (Hf d). split_and!; [done|congruence..].
      * exists d. rewrite list_lookup_alter_ne by done. done.
    + intros j' Hj'. destruct (wf_dist _ Hwf _ _ Hj) as [Hlt _]. rewrite list_lookup_alter_ne by lia. by apply Hwf.
  - apply map_eq. intros t'. rewrite by_type_lookup. simpl. destruct (decide (t = t')) as [<-|Hne].
    + rewrite lookup_alter_eq, by_type_lookup, Hj. simpl. by rewrite list_lookup_alter_eq.
    + rewrite lookup_alter_ne, by_type_lookup by done. destruct (dists l !! t') as [j'|] eqn:Hj'; [|done]. simpl.
      rewrite list_lookup_alter_ne; [done|]. intros <-. apply Hne. by eapply wf_inj.
Qed.

(** There is a distribution for the type, or a free one. *)
Definition has_room l t : Prop := 0 ≤ t < LATENCY_MAX_DIST ∧ (is_Some (by_type l !! t) ∨ (size (by_type l) < LATENCY_DIST_POOL_SIZE)%nat).

Lemma find_dist_spec l t : wf l → has_room l t →
  ∃ j l', find_dist t l = Ok (j, l') ∧ wf l' ∧ dists l' !! t = Some j ∧
    by_type l' = <[t := default (init_dist t) (by_type l !! t)]> (by_type l).
Proof.
  intros Hwf [Ht Hroom]. unfold find_dist. rewrite (proj2 (Z.ltb_ge t 0)), (proj2 (Z.leb_gt LATENCY_MAX_DIST t)) by lia. simpl.
  unfold mbind, M_bind, get_st. destruct (dists l !! t) as [j|] eqn:Hj.
  { exists j, l. split_and!; [done..|]. destruct (by_type_dists _ _ _ Hwf Hj) as (d & Hd & _). rewrite Hd. simpl. by rewrite insert_id. }
  assert (by_type l !! t = None) as Hnone by (by rewrite by_type_lookup, Hj). rewrite by_type_size in Hroom by done.
  destruct Hroom as [[d Hd]|Hlt]; [congruence|]. rewrite decide_False by lia.
  rewrite (wf_free _ Hwf (distPoolNext l)) by lia. simpl. eexists _, _. split; [reflexivity|]. split_and!.
  - split; simpl.
    + rewrite length_alter. apply Hwf.
    + rewrite map_size_insert_None by done. by rewrite (wf_next _ Hwf).
    + lia.
    + intros t' j' Hj'. destruct (decide (t = t')) as [<-|Hne].
      * rewrite lookup_insert_eq in Hj'. injection Hj' as <-. split_and!; [lia|lia|lia|].
        rewrite list_lookup_alter_eq, (wf_free _ Hwf (distPoolNext l)) by lia. simpl. eauto.
      * rewrite lookup_insert_ne in Hj' by done. destruct (wf_dist _ Hwf _ _ Hj') as (? & ? & d & ? & ?). split_and!; [lia|lia|lia|].
        exists d. rewrite list_lookup_alter_ne by lia. done.
    + intros j' Hj'. destruct (decide (j' = distPoolNext l)) as [->|Hne]; [exists t; apply lookup_insert_eq|].
      destruct (wf_used _ Hwf j') as [t' Ht']; [lia|]. exists t'. rewrite lookup_insert_ne; [done|]. congruence.
    + intros j' Hj'. rewrite list_lookup_alter_ne by lia. apply (wf_free _ Hwf). lia.
  - simpl. apply lookup_insert_eq.
  - apply map_eq. intros t'. rewrite by_type_lookup. simpl. destruct (decide (t = t')) as [<-|Hne].
    + rewrite !lookup_insert_eq, Hnone. simpl. by rewrite list_lookup_alter_eq, (wf_free _ Hwf (distPoolNext l)) by lia.
    + rewrite !lookup_insert_ne, by_type_lookup by done. destruct (dists l !! t') as [j'|] eqn:Hj'; [|done]. simpl.
      destruct (wf_dist _ Hwf _ _ Hj') as [? _]. by rewrite list_lookup_alter_ne by lia.
Qed.

(** A sixth type cannot be recorded. *)
Lemma find_dist_full l t : wf l → 0 ≤ t < LATENCY_MAX_DIST → by_type l !! t = None → size (by_type l) = LATENCY_DIST_POOL_SIZE →
  find_dist t l = Panic.
Proof.
  intros Hwf Ht Hnone Hsize. unfold find_dist. rewrite (proj2 (Z.ltb_ge t 0)), (proj2 (Z.leb_gt LATENCY_MAX_DIST t)) by lia. simpl.
  unfold mbind, M_bind, get_st. rewrite (by_type_None _ _ Hwf Hnone). rewrite by_type_size in Hsize by done. by rewrite decide_True.
Qed.

Lemma LatencyAddHist_spec l t v n : wf l → has_room l t → is_u64 v →
  ∃ j l', LatencyAddHist t v n l = Ok (j, l') ∧ wf l' ∧ dists l' !! t = Some j ∧
    by_type l' = <[t := add_bucket (Z.log2 v) n (default (init_dist t) (by_type l !! t))]> (by_type l).
Proof.
  intros Hwf Hroom Hv. destruct (find_dist_spec l t Hwf Hroom) as (j & l1 & Hrun & Hwf1 & Hj & Hby).
  unfold LatencyAddHist. rewrite (bind_run _ _ _ _ _ Hrun). cbv zeta. rewrite bucket_of_log2 by done. pose proof (log2_bucket v Hv).
  destruct (by_type_dists _ _ _ Hwf1 Hj) as (d & Hd & Hpool & _ & Hlen).
  rewrite (bind_run _ _ l1 l1 l1) by done. rewrite (bind_run _ _ l1 d l1) by (by rewrite Hpool).
  destruct (lookup_lt_is_Some_2 (d_buckets d) (Z.to_nat (Z.log2 v))) as [x Hx]; [rewrite Hlen; unfold LATENCY_NUM_BUCKETS; lia|].
  rewrite (bind_run _ _ l1 x l1) by (by rewrite Hx).
  destruct (update_dist l1 t j (add_bucket (Z.log2 v) n) Hwf1 Hj) as [Hwf2 Hby2].
  { intros d'. split; [done|]. simpl. by rewrite length_alter. }
  eexists _, _. split; [reflexivity|]. split_and!; [done|done|]. rewrite Hby2, Hby. by rewrite alter_insert_eq.
Qed.

Lemma LatencyAdd_spec l t v : wf l → has_room l t → is_u64 v →
  ∃ l', LatencyAdd t v l = Ok (tt, l') ∧ wf l' ∧
    by_type l' = <[t := add_value v (add_bucket (Z.log2 v) 1 (default (init_dist t) (by_type l !! t)))]> (by_type l).
Proof.
  intros Hwf Hroom Hv. destruct (LatencyAddHist_spec l t v 1 Hwf Hroom Hv) as (j & l1 & Hrun & Hwf1 & Hj & Hby).
  unfold LatencyAdd. rewrite (bind_run _ _ _ _ _ Hrun). destruct (update_dist l1 t j (add_value v) Hwf1 Hj) as [Hwf2 Hby2]; [done|].
  eexists. split; [reflexivity|]. split; [done|]. rewrite Hby2, Hby. by rewrite alter_insert_eq.
Qed.
End spec.

(** ** What is recorded *)

(** The values of one type among samples. *)
Definition vals (t : Z) (s : list (Z * Z)) : list Z := (filter (λ p, p.1 = t) s).*2.

Definition sum_list_Z (l : list Z) : Z := foldr Z.add 0 l.

#[global] Instance sum_list_Z_Permutation : Proper ((≡ₚ) ==> (=)) sum_list_Z.
Proof. intros l1 l2 Hp. unfold sum_list_Z. induction Hp; cbn [foldr]; lia. Qed.

(** The values in a bucket. *)
Definition in_bucket (b : Z) (vs : list Z) : Z := Z.of_nat (length (filter (λ v, Z.log2 v = b) vs)).

Definition buckets_of (vs : list Z) : list Z := (λ b, u32 (in_bucket b vs)) <$> seqZ 0 LATENCY_NUM_BUCKETS.

Lemma buckets_of_lookup vs i : buckets_of vs !! i = (λ b, u32 (in_bucket b vs)) <$> seqZ 0 LATENCY_NUM_BUCKETS !! i.
Proof. unfold buckets_of. apply list_lookup_fmap. Qed.

Lemma buckets_of_length vs : length (buckets_of vs) = Z.to_nat LATENCY_NUM_BUCKETS.
Proof. unfold buckets_of. by rewrite length_fmap, length_seqZ. Qed.

(** The statistics of a list of values. *)
Definition summary (t : Z) (vs : list Z) : Latency_Dist_t :=
  MkDist (foldr Z.min (2 ^ 64 - 1) vs) (foldr Z.max 0 vs) (u64 (sum_list_Z vs)) (u64 (Z.of_nat (length vs)))
    (buckets_of vs) t.

Definition represents (l : Latency_t) (s : list (Z * Z)) : Prop :=
  wf l ∧ ∀ t, by_type l !! t = if decide (vals t s = []) then None else Some (summary t (vals t s)).

(** Samples whose types fit: characters, and at most five of them. *)
Definition fits (s : list (Z * Z)) : Prop :=
  (∀ t v, (t, v) ∈ s → 0 ≤ t < LATENCY_MAX_DIST ∧ is_u64 v) ∧
  (size (list_to_set s.*1 : gset Z) ≤ LATENCY_DIST_POOL_SIZE)%nat.

Lemma vals_app t s1 s2 : vals t (s1 ++ s2) = vals t s1 ++ vals t s2.
Proof. unfold vals. by rewrite filter_app, fmap_app. Qed.

Lemma vals_single t t' v : vals t' [(t, v)] = if decide (t = t') then [v] else [].
Proof. unfold vals. case_decide as Ht; [by rewrite filter_cons_True|by rewrite filter_cons_False]. Qed.

Lemma elem_of_vals t v s : v ∈ vals t s ↔ (t, v) ∈ s.
Proof.
  unfold vals. rewrite list_elem_of_fmap. setoid_rewrite list_elem_of_filter. split.
  - intros ([t' v'] & -> & <- & Hin). done.
  - intros Hin. by exists (t, v).
Qed.

Lemma foldr_min_app l1 l2 : foldr Z.min (2 ^ 64 - 1) (l1 ++ l2) = Z.min (foldr Z.min (2 ^ 64 - 1) l1) (foldr Z.min (2 ^ 64 - 1) l2).
Proof.
  assert (∀ l, foldr Z.min (2 ^ 64 - 1) l ≤ 2 ^ 64 - 1) as Hle by (induction l; simpl in *; lia).
  induction l1 as [|v l1 IH]; cbn [foldr app]; [specialize (Hle l2); lia|]. rewrite IH. lia.
Qed.

Lemma foldr_max_app l1 l2 : foldr Z.max 0 (l1 ++ l2) = Z.max (foldr Z.max 0 l1) (foldr Z.max 0 l2).
Proof.
  assert (∀ l, 0 ≤ foldr Z.max 0 l) as Hle by (induction l; simpl in *; lia).
  induction l1 as [|v l1 IH]; cbn [foldr app]; [specialize (Hle l2); lia|]. rewrite IH. lia.
Qed.

Lemma sum_list_Z_app l1 l2 : sum_list_Z (l1 ++ l2) = sum_list_Z l1 + sum_list_Z l2.
Proof. unfold sum_list_Z. induction l1 as [|v l1 IH]; cbn [foldr app]; lia. Qed.

Lemma in_bucket_app b l1 l2 : in_bucket b (l1 ++ l2) = in_bucket b l1 + in_bucket b l2.
Proof. unfold in_bucket. rewrite filter_app, length_app. lia. Qed.

Lemma u64_add a b : u64 (u64 a + u64 b) = u64 (a + b).
Proof. unfold u64. by rewrite <- Zplus_mod. Qed.

Lemma u32_add a b : u32 (u32 a + u32 b) = u32 (a + b).
Proof. unfold u32. by rewrite <- Zplus_mod. Qed.

Lemma summary_nil t : summary t [] = init_dist t.
Proof. reflexivity. Qed.

#[local] Opaque buckets_of.

(** Buckets of two distributions added up. *)
Definition add_buckets (bs : list Z) (d : Latency_Dist_t) : Latency_Dist_t :=
  d <| d_buckets := zip_with (λ a b, u32 (a + b)) (d_buckets d) bs |>.

Lemma summary_app t vs1 vs2 :
  summary t (vs1 ++ vs2) = merge_rest (summary t vs2) (add_buckets (d_buckets (summary t vs2)) (summary t vs1)).
Proof.
  unfold summary, merge_rest, add_buckets. simpl. f_equal.
  - rewrite foldr_min_app. destruct (Z.ltb_spec (foldr Z.min (2 ^ 64 - 1) vs2) (foldr Z.min (2 ^ 64 - 1) vs1)); lia.
  - rewrite foldr_max_app. destruct (Z.ltb_spec (foldr Z.max 0 vs1) (foldr Z.max 0 vs2)); lia.
  - by rewrite u64_add, sum_list_Z_app.
  - by rewrite u64_add, length_app, Nat2Z.inj_add.
  - apply list_eq. intros i. rewrite lookup_zip_with, !buckets_of_lookup. destruct (seqZ 0 LATENCY_NUM_BUCKETS !! i) as [b|]; [|done].
    simpl. by rewrite u32_add, in_bucket_app.
Qed.

(** One more value. *)
Lemma summary_snoc t vs v : is_u64 v → summary t (vs ++ [v]) = add_value v (add_bucket (Z.log2 v) 1 (summary t vs)).
Proof.
  intros Hv. unfold summary, add_value, add_bucket. simpl. unfold is_u64, u64_modulus in Hv. f_equal.
  - rewrite foldr_min_app. simpl. destruct (Z.ltb_spec v (foldr Z.min (2 ^ 64 - 1) vs)); lia.
  - rewrite foldr_max_app. simpl. destruct (Z.ltb_spec (foldr Z.max 0 vs) v); lia.
  - rewrite sum_list_Z_app. simpl. rewrite Z.add_0_r. unfold u64. by rewrite Zplus_mod_idemp_l.
  - unfold u64_incr, u64. rewrite Zplus_mod_idemp_l, length_app, Nat2Z.inj_add. done.
  - apply list_eq. intros i. rewrite buckets_of_lookup. pose proof (log2_bucket v Hv).
    destruct (decide (i = Z.to_nat (Z.log2 v))) as [->|Hne].
    + rewrite list_lookup_alter_eq, buckets_of_lookup, lookup_seqZ_lt by (unfold LATENCY_NUM_BUCKETS; lia). simpl. f_equal.
      rewrite in_bucket_app. unfold in_bucket at 2. rewrite filter_cons_True by lia. simpl. unfold u32. by rewrite Zplus_mod_idemp_l.
    + rewrite list_lookup_alter_ne, buckets_of_lookup by done. destruct (seqZ 0 LATENCY_NUM_BUCKETS !! i) as [b|] eqn:E; [|done].
      simpl. f_equal. apply lookup_seqZ in E as [-> Hi]. rewrite in_bucket_app. unfold in_bucket at 2. rewrite filter_cons_False by lia.
      simpl. by rewrite Z.add_0_r.
Qed.

Lemma represents_new name : represents (LatencyInit name) [].
Proof. split; [apply LatencyInit_wf|]. intros t. done. Qed.

Lemma represents_dom l s : represents l s → dom (by_type l) = list_to_set s.*1.
Proof.
  intros [_ Hby]. apply set_eq. intros t. rewrite elem_of_dom, Hby, elem_of_list_to_set. case_decide as Hv.
  - split; [by intros [? ?]|]. intros Ht. apply list_elem_of_fmap in Ht as ([t' v] & -> & Hin). exfalso.
    apply elem_of_vals in Hin. simpl in *. rewrite Hv in Hin. by apply not_elem_of_nil in Hin.
  - split; [intros _|by eexists]. destruct (vals t s) as [|v vs] eqn:E; [done|].
    assert ((t, v) ∈ s) as Hin by (apply elem_of_vals; rewrite E; by left). apply list_elem_of_fmap. by exists (t, v).
Qed.

(** A type of samples that fit has room in what represents a part of them. *)
Lemma represents_room l s t v rest : represents l s → fits (s ++ (t, v) :: rest) → has_room l t.
Proof.
  intros Hr [Hok Hsize]. pose proof Hr as Hr0. apply represents_dom in Hr0. destruct (Hok t v) as [Ht _]; [set_solver|]. split; [done|].
  destruct (decide (t ∈ dom (by_type l))) as [Hin|Hnin]; [left; by apply elem_of_dom|right].
  rewrite <- size_dom. eapply Nat.lt_le_trans; [|exact Hsize].
  assert (dom (by_type l) ∪ {[t]} ⊆ (list_to_set ((s ++ (t, v) :: rest).*1) : gset Z)) as Hsub%subseteq_size by (rewrite Hr0; set_solver).
  rewrite size_union, size_singleton in Hsub by set_solver. lia.
Qed.

(** Recording a sample. *)
Lemma LatencyAdd_represents l s t v : represents l s → fits (s ++ [(t, v)]) →
  ∃ l', LatencyAdd t v l = Ok (tt, l') ∧ represents l' (s ++ [(t, v)]).
Proof.
  intros Hr Hf. assert (is_u64 v) as Hv by (apply (proj1 Hf t v); set_solver).
  destruct (LatencyAdd_spec l t v (proj1 Hr) (represents_room _ _ _ _ _ Hr Hf) Hv) as (l' & Hrun & Hwf & Hby).
  exists l'. split; [done|]. split; [done|]. intros t'. rewrite Hby, vals_app. destruct Hr as [_ Hby0].
  rewrite vals_single. destruct (decide (t = t')) as [<-|Hne].
  - rewrite lookup_insert_eq, decide_False by (intros ?%app_nil; naive_solver).
    rewrite summary_snoc, Hby0 by done. case_decide as E; [rewrite E|]; done.
  - rewrite lookup_insert_ne, app_nil_r by done. apply Hby0.
Qed.

(** ** Adding up two latencies *)

(** Buckets are 32 bits wide. *)
Definition in_range (d : Latency_Dist_t) : Prop :=
  length (d_buckets d) = Z.to_nat LATENCY_NUM_BUCKETS ∧ Forall (λ n, 0 ≤ n < 2 ^ 32) (d_buckets d).

(** A distribution that [Latency_Sum] can read: something is in its buckets and nothing in the
    last one. *)
Definition summable (d : Latency_Dist_t) : Prop :=
  in_range d ∧ d_buckets d !! 64%nat = Some 0 ∧ ∃ n, n ∈ d_buckets d ∧ n ≠ 0.

Definition bucket_step (bs : list Z) (d : Latency_Dist_t) (b : Z) : Latency_Dist_t :=
  let n := default 0 (bs !! Z.to_nat b) in if n =? 0 then d else add_bucket b n d.

Lemma bucket_step_range bs d b : in_range d → in_range (bucket_step bs d b).
Proof.
  unfold bucket_step. destruct (_ =? 0); [done|]. intros [Hlen Hr]. split; simpl; [by rewrite length_alter|].
  apply Forall_alter; [done|]. intros n _ _. unfold u32. by apply Z.mod_pos_bound.
Qed.

Lemma bucket_steps_lookup bs ls : ∀ d i, NoDup ls → (∀ b, b ∈ ls → 0 ≤ b) → in_range d →
  let d' := foldl (bucket_step bs) d ls in
  d_buckets d' !! i = (if decide (Z.of_nat i ∈ ls) then (λ n, u32 (n + default 0 (bs !! i))) <$> d_buckets d !! i else d_buckets d !! i) ∧
  d' = d <| d_buckets := d_buckets d' |>.
Proof.
  induction ls as [|b ls IH]; intros d i Hnd Hpos Hr; cbn [foldl]; [rewrite decide_False by set_solver; by destruct d|].
  apply NoDup_cons in Hnd as [Hb Hnd]. pose proof (bucket_step_range bs d b Hr) as Hr'.
  destruct (IH (bucket_step bs d b) i Hnd ltac:(set_solver) Hr') as [E1 E2]. simpl in E1, E2. split.
  - rewrite E1. assert (0 ≤ b) as Hb0 by (apply Hpos; set_solver). unfold bucket_step.
    destruct (decide (Z.of_nat i = b)) as [Hi|Hi].
    + subst b. rewrite decide_False by done. rewrite decide_True by set_solver. rewrite Nat2Z.id.
      destruct (Z.eqb_spec (default 0 (bs !! i)) 0) as [->|Hn].
      * destruct (d_buckets d !! i) as [n|] eqn:En; [|done]. simpl. f_equal. rewrite Z.add_0_r. symmetry. apply Z.mod_small.
        destruct Hr as [_ Hr]. rewrite Forall_lookup in Hr. by eapply Hr.
      * simpl. rewrite Nat2Z.id. by rewrite list_lookup_alter_eq.
    + assert (d_buckets (bucket_step bs d b) !! i = d_buckets d !! i) as Hsame.
      { unfold bucket_step. destruct (_ =? 0); [done|]. simpl. rewrite list_lookup_alter_ne; [done|]. lia. }
      unfold bucket_step in Hsame. rewrite Hsame. destruct (decide (Z.of_nat i ∈ ls)) as [Hin|Hnin].
      * by rewrite decide_True by set_solver.
      * by rewrite decide_False by set_solver.
  - simpl. rewrite E2. generalize (d_buckets (foldl (bucket_step bs) (bucket_step bs d b) ls)). intros Y. simpl.
    unfold bucket_step. by destruct (_ =? 0).
Qed.

Lemma bucket_steps bs d : length bs = Z.to_nat LATENCY_NUM_BUCKETS → in_range d →
  foldl (bucket_step bs) d (seqZ 0 LATENCY_NUM_BUCKETS) = add_buckets bs d.
Proof.
  intros Hbs Hr. pose proof (λ i, bucket_steps_lookup bs (seqZ 0 LATENCY_NUM_BUCKETS) d i (NoDup_seqZ _ _)
    ltac:(intros b Hb%elem_of_seqZ; lia) Hr) as Hl. cbv zeta in Hl. destruct (Hl O) as [_ ->]. unfold add_buckets. f_equal.
  assert (∀ b, foldl (bucket_step bs) d (seqZ 0 LATENCY_NUM_BUCKETS) = b → d_buckets b = zip_with (λ a b0, u32 (a + b0)) (d_buckets d) bs) as H;
    [|by rewrite (H _ eq_refl)].
  intros _ <-. apply list_eq. intros i. destruct (Hl i) as [-> _]. rewrite lookup_zip_with.
  destruct (decide (Z.of_nat i ∈ seqZ 0 LATENCY_NUM_BUCKETS)) as [Hi|Hi]; rewrite elem_of_seqZ in Hi.
  - destruct (lookup_lt_is_Some_2 bs i) as [b ->]; [lia|]. simpl. by destruct (d_buckets d !! i).
  - rewrite (lookup_ge_None_2 (d_buckets d)); [done|]. destruct Hr as [-> _]. lia.
Qed.

Lemma init_range t : in_range (init_dist t).
Proof. split; [reflexivity|]. simpl. repeat (constructor; [lia|]). constructor. Qed.

Lemma bucket_steps_range bs ls : ∀ d, in_range d → in_range (foldl (bucket_step bs) d ls).
Proof. induction ls as [|b ls IH]; intros d Hd; cbn [foldl]; [done|]. by apply IH, bucket_step_range. Qed.

Lemma log2_shiftl_1 b : 0 ≤ b < 64 → is_u64 (Z.shiftl 1 b) ∧ Z.log2 (Z.shiftl 1 b) = b.
Proof.
  intros Hb. rewrite Z.shiftl_1_l. split; [|apply Z.log2_pow2; lia]. unfold is_u64, u64_modulus. split; [lia|].
  apply Z.pow_lt_mono_r; lia.
Qed.

(** The loop over the buckets of one distribution, started in the middle. *)
Lemma sum_buckets_run ds t ls : d_type ds = t → ∀ l, wf l → has_room l t → in_range ds → d_buckets ds !! 64%nat = Some 0 → (∀ b, b ∈ ls → 0 ≤ b < LATENCY_NUM_BUCKETS) →
  ∃ l', for_each ls (sum_bucket ds) l = Ok (tt, l') ∧ wf l' ∧ has_room l' t ∧
    default (init_dist t) (by_type l' !! t) = foldl (bucket_step (d_buckets ds)) (default (init_dist t) (by_type l !! t)) ls ∧
    delete t (by_type l') = delete t (by_type l) ∧
    (is_Some (by_type l !! t) ∨ (∃ b, b ∈ ls ∧ d_buckets ds !! Z.to_nat b ≠ Some 0) → is_Some (by_type l' !! t)).
Proof.
  intros Hty. induction ls as [|b ls IH]; intros l Hwf Hroom Hr H64 Hls; cbn [for_each foldl].
  { exists l. split_and!; try done. intros [?|(b & Hb & _)]; [done|set_solver]. }
  assert (0 ≤ b < LATENCY_NUM_BUCKETS) as Hb by (apply Hls; set_solver).
  destruct (lookup_lt_is_Some_2 (d_buckets ds) (Z.to_nat b)) as [n Hn]; [rewrite (proj1 Hr); lia|].
  assert (∃ l1, sum_bucket ds b l = Ok (tt, l1) ∧ wf l1 ∧ has_room l1 t ∧
    default (init_dist t) (by_type l1 !! t) = bucket_step (d_buckets ds) (default (init_dist t) (by_type l !! t)) b ∧
    delete t (by_type l1) = delete t (by_type l) ∧ (is_Some (by_type l !! t) ∨ n ≠ 0 → is_Some (by_type l1 !! t)))
    as (l1 & Hrun1 & Hwf1 & Hroom1 & Hby1 & Hdel1 & Hsome1).
  { unfold sum_bucket, bucket_step. rewrite Hn, Hty. rewrite (bind_run _ _ l n l) by done. simpl default.
    destruct (Z.eqb_spec n 0) as [->|Hne].
    { exists l. split_and!; try done. by intros [?|?]. }
    assert (b ≠ 64) by (intros ->; change (Z.to_nat 64) with 64%nat in Hn; congruence). unfold LATENCY_NUM_BUCKETS in Hb. rewrite (proj2 (Z.leb_gt 64 b)) by lia.
    destruct (log2_shiftl_1 b ltac:(lia)) as [Hu Hlog].
    destruct (LatencyAddHist_spec l t (Z.shiftl 1 b) n Hwf Hroom Hu) as (j & l1 & Hrun & Hwf1 & _ & Hby). rewrite Hlog in Hby.
    rewrite (bind_run _ _ _ _ _ Hrun). exists l1. rewrite Hby, lookup_insert_eq, delete_insert_eq. split_and!; try done.
    split; [apply Hroom|]. left. rewrite Hby, lookup_insert_eq. done. }
  rewrite (bind_run _ _ _ _ _ Hrun1). destruct (IH l1 Hwf1 Hroom1 Hr H64 ltac:(set_solver)) as (l2 & Hrun2 & Hwf2 & Hroom2 & Hby2 & Hdel2 & Hsome2).
  exists l2. split_and!; try done; [by rewrite Hby2, Hby1|congruence|].
  intros [Hs|(b' & Hb' & Hne)]; apply Hsome2; [left; apply Hsome1; by left|].
  apply elem_of_cons in Hb' as [->|Hb']; [left; apply Hsome1; right; congruence|right; eauto].
Qed.

Lemma sum_buckets_spec l ds t : d_type ds = t → wf l → has_room l t → summable ds → (∀ d, by_type l !! t = Some d → in_range d) →
  ∃ l', for_each (seqZ 0 LATENCY_NUM_BUCKETS) (sum_bucket ds) l = Ok (tt, l') ∧ wf l' ∧
    by_type l' = <[t := add_buckets (d_buckets ds) (default (init_dist t) (by_type l !! t))]> (by_type l).
Proof.
  intros Hty Hwf Hroom (Hr & H64 & n & Hn & Hne) Hrange.
  destruct (sum_buckets_run ds t (seqZ 0 LATENCY_NUM_BUCKETS) Hty l Hwf Hroom Hr H64) as (l' & Hrun & Hwf' & _ & Hby & Hdel & Hsome).
  { intros b Hb%elem_of_seqZ. lia. }
  exists l'. split; [done|]. split; [done|].  destruct Hsome as [d Hd].
  { right. apply list_elem_of_lookup in Hn as [i Hi]. exists (Z.of_nat i). rewrite Nat2Z.id. split; [|congruence].
    apply elem_of_seqZ. apply lookup_lt_Some in Hi. rewrite (proj1 Hr) in Hi. lia. }
  rewrite Hd, bucket_steps in Hby; [change (d = add_buckets (d_buckets ds) (default (init_dist t) (by_type l !! t))) in Hby|apply Hr|].
  - rewrite <- (insert_delete_id _ _ _ Hd), Hdel, Hby. by rewrite insert_delete_eq.
  - destruct (by_type l !! t) as [d0|] eqn:E; [by apply Hrange|]. apply init_range.
Qed.

(** Distributions of the result of the first loop. *)
Definition added (A : gmap Z Latency_Dist_t) (t : Z) (ds : Latency_Dist_t) : Latency_Dist_t :=
  add_buckets (d_buckets ds) (default (init_dist t) (A !! t)).

Section sum.
Context (s : Latency_t) (Hs : wf s) (Hsum : ∀ t d, by_type s !! t = Some d → summable d).

Lemma sum_pool_run js : ∀ l,
  NoDup js → (∀ j, j ∈ js → (j < distPoolNext s)%nat) → wf l → (∀ t d, by_type l !! t = Some d → in_range d) →
  (size (dom (by_type l) ∪ dom (by_type s)) ≤ LATENCY_DIST_POOL_SIZE)%nat →
  ∃ l', for_each js (λ i, d ← deref (distPool s !! i); for_each (seqZ 0 LATENCY_NUM_BUCKETS) (sum_bucket d)) l = Ok (tt, l') ∧ wf l' ∧
    ∀ t, by_type l' !! t =
      match dists s !! t with
      | Some j => if decide (j ∈ js) then added (by_type l) t <$> by_type s !! t else by_type l !! t
      | None => by_type l !! t
      end.
Proof.
  induction js as [|j js IH]; intros l Hnd Hjs Hwf Hrange Hsize; cbn [for_each].
  { exists l. split_and!; [done|done|]. intros t. destruct (dists s !! t) as [j|]; [|done]. rewrite decide_False; [done|]. apply not_elem_of_nil. }
  apply NoDup_cons in Hnd as [Hj Hnd]. destruct (wf_used _ Hs j) as [t Ht]; [apply Hjs; by left|].
  destruct (by_type_dists _ _ _ Hs Ht) as (ds & Hds & Hpool & Hty & _).
  assert (has_room l t) as Hroom.
  { split; [apply (wf_dist _ Hs _ _ Ht)|]. destruct (decide (t ∈ dom (by_type l))) as [Hin|Hnin]; [left; by apply elem_of_dom|right].
    assert (dom (by_type l) ∪ {[t]} ⊆ dom (by_type l) ∪ dom (by_type s)) as Hsub%subseteq_size.
    { apply union_mono_l. apply singleton_subseteq_l, elem_of_dom. eauto. }
    rewrite size_union, size_singleton, size_dom in Hsub by (by apply disjoint_singleton_r). lia. }
  destruct (sum_buckets_spec l ds t Hty Hwf Hroom (Hsum _ _ Hds)) as (l1 & Hrun1 & Hwf1 & Hby1); [eauto|].
  erewrite bind_run; [|erewrite bind_run; [exact Hrun1|by rewrite Hpool]].
  destruct (IH l1 Hnd ltac:(intros j' Hj'; apply Hjs; by right) Hwf1) as (l2 & Hrun2 & Hwf2 & Hby2).
  { intros t' d. rewrite Hby1. destruct (decide (t = t')) as [<-|Hne]; [|rewrite lookup_insert_ne by done; eauto].
    rewrite lookup_insert_eq. intros [= <-]. rewrite <- bucket_steps; [|apply (Hsum _ _ Hds)|].
    - apply bucket_steps_range. destruct (by_type l !! t) as [d0|] eqn:E; [by eapply Hrange|apply init_range].
    - destruct (by_type l !! t) as [d0|] eqn:E; [by eapply Hrange|apply init_range]. }
  { rewrite Hby1, dom_insert_L. assert (t ∈ dom (by_type s)) by (apply elem_of_dom; eauto).
    rewrite <- union_assoc_L, subseteq_union_1_L; [done|].
    apply singleton_subseteq_l, elem_of_union. by right. }
  exists l2. split_and!; [done|done|]. intros t'. rewrite Hby2. destruct (dists s !! t') as [j'|] eqn:Hj'.
  - destruct (decide (t = t')) as [<-|Hne].
    + assert (j' = j) as -> by congruence. rewrite decide_False by done. rewrite decide_True by (by left).
      by rewrite Hby1, lookup_insert_eq, Hds.
    + assert (j' ≠ j) as Hnj by (intros ->; apply Hne; by apply (wf_inj s t t' j)). unfold added. rewrite Hby1, !lookup_insert_ne by done.
      destruct (decide (j' ∈ js)) as [Hin|Hnin]; [rewrite decide_True by (by right)|rewrite decide_False by (by apply not_elem_of_cons)]; done.
  - assert (t ≠ t') by congruence. by rewrite Hby1, lookup_insert_ne.
Qed.
End sum.

Section sum_rest.
Context (s : Latency_t) (Hs : wf s).

Lemma sum_rest_run is_ : ∀ l, NoDup is_ → wf l → (∀ t, is_Some (by_type s !! t) → is_Some (by_type l !! t)) →
  ∃ l', for_each is_ (sum_dist s) l = Ok (tt, l') ∧ wf l' ∧
    ∀ t, by_type l' !! t = match by_type s !! t with
                           | Some ds => if decide (t ∈ is_) then merge_rest ds <$> by_type l !! t else by_type l !! t
                           | None => by_type l !! t
                           end.
Proof.
  induction is_ as [|i is_ IH]; intros l Hnd Hwf Hdom; cbn [for_each].
  { exists l. split_and!; [done|done|]. intros t. destruct (by_type s !! t); [|done]. rewrite decide_False; [done|]. apply not_elem_of_nil. }
  apply NoDup_cons in Hnd as [Hi Hnd].
  assert (∃ l1, sum_dist s i l = Ok (tt, l1) ∧ wf l1 ∧ ∀ t, by_type l1 !! t =
    match by_type s !! t with
    | Some ds => if decide (t = i) then merge_rest ds <$> by_type l !! t else by_type l !! t
    | None => by_type l !! t
    end) as (l1 & Hrun1 & Hwf1 & Hby1).
  { unfold sum_dist. destruct (dists s !! i) as [js|] eqn:Hjs.
    - destruct (by_type_dists _ _ _ Hs Hjs) as (ds & Hds & Hpool & _). destruct (Hdom i) as [dd Hdd]; [eauto|].
      destruct (dists l !! i) as [jd|] eqn:Hjd; [|by rewrite by_type_lookup, Hjd in Hdd].
      rewrite (bind_run _ _ l ds l) by (by rewrite Hpool). rewrite (bind_run _ _ l l l) by done. rewrite (bind_run _ _ l jd l) by (by rewrite Hjd).
      destruct (update_dist l i jd (merge_rest ds) Hwf Hjd) as [Hwf1 Hby1]; [done|]. eexists. split; [reflexivity|]. split; [done|].
      intros t. rewrite Hby1. destruct (decide (t = i)) as [->|Hne]; [by rewrite lookup_alter_eq, Hds|].
      rewrite lookup_alter_ne by done. by destruct (by_type s !! t).
    - exists l. split_and!; [done|done|]. intros t. destruct (by_type s !! t) as [ds|] eqn:Hds; [|done].
      rewrite decide_False; [done|]. intros ->. by rewrite by_type_lookup, Hjs in Hds. }
  rewrite (bind_run _ _ _ _ _ Hrun1). destruct (IH l1 Hnd Hwf1) as (l2 & Hrun2 & Hwf2 & Hby2).
  { intros t Ht. rewrite Hby1. destruct Ht as [ds Hds]. rewrite Hds. destruct (Hdom t) as [dd ->]; [eauto|]. case_decide; by eexists. }
  exists l2. split_and!; [done|done|]. intros t. rewrite Hby2, Hby1. destruct (by_type s !! t) as [ds|]; [|done].
  destruct (decide (t = i)) as [->|Hne].
  - rewrite decide_False by done. by rewrite decide_True by (by left).
  - destruct (decide (t ∈ is_)) as [Hin|Hnin]; [rewrite decide_True by (by right)|rewrite decide_False by (by apply not_elem_of_cons)]; done.
Qed.
End sum_rest.

Lemma in_bucket_le b vs : in_bucket b vs ≤ Z.of_nat (length vs).
Proof. unfold in_bucket. pose proof (length_filter (λ v, Z.log2 v = b) vs). lia. Qed.

Lemma in_bucket_pos v vs : v ∈ vs → 0 < in_bucket (Z.log2 v) vs.
Proof.
  intros Hv. unfold in_bucket. assert (v ∈ filter (λ w, Z.log2 w = Z.log2 v) vs) as Hin by (by apply list_elem_of_filter).
  destruct (filter _ vs); [by apply not_elem_of_nil in Hin|simpl; lia].
Qed.

Lemma summary_range t vs : in_range (summary t vs).
Proof.
  split; [apply buckets_of_length|]. apply Forall_lookup. intros i n. simpl. rewrite buckets_of_lookup.
  destruct (seqZ 0 LATENCY_NUM_BUCKETS !! i); [|done]. intros [= <-]. unfold u32. by apply Z.mod_pos_bound.
Qed.

Lemma summary_summable t vs :
  vs ≠ [] → (∀ v, v ∈ vs → is_u64 v) → Z.of_nat (length vs) < 2 ^ 32 → summable (summary t vs).
Proof.
  intros Hne Hv Hlen. split; [apply summary_range|]. split.
  - simpl. rewrite buckets_of_lookup, lookup_seqZ_lt by (unfold LATENCY_NUM_BUCKETS; lia). simpl. f_equal.
    unfold in_bucket. destruct (filter _ vs) as [|v vs'] eqn:E; [done|]. exfalso.
    assert (v ∈ filter (λ v, Z.log2 v = 0 + Z.of_nat 64) vs) as [Hlog Hin]%list_elem_of_filter.
    { rewrite E. by left. }
    pose proof (log2_bucket v (Hv v Hin)). lia.
  - destruct vs as [|v vs]; [done|]. pose proof (in_bucket_pos v (v :: vs) ltac:(by left)) as Hpos.
    pose proof (in_bucket_le (Z.log2 v) (v :: vs)). exists (in_bucket (Z.log2 v) (v :: vs)). split; [|lia].
    apply list_elem_of_lookup. exists (Z.to_nat (Z.log2 v)). pose proof (log2_bucket v (Hv v ltac:(by left))). simpl d_buckets.
    rewrite buckets_of_lookup, lookup_seqZ_lt by (unfold LATENCY_NUM_BUCKETS; lia). simpl. f_equal.
    rewrite Z2Nat.id by lia. unfold u32. apply Z.mod_small. lia.
Qed.

(** Adding up two latencies gives the statistics of all their samples.  When one latency was fed
    some samples and another one others, of at most five types together, [Latency_Sum] returns and
    the first one is as if it had been fed all of them: the minimum, the maximum, the total, the
    count and the histogram of every type are right. *)
Theorem latency_sum_merges (d s : Latency_t) (s1 s2 : list (Z * Z)) :
  represents d s1 → represents s s2 → fits (s1 ++ s2) → Z.of_nat (length s2) < 2 ^ 32 →
  ∃ d', Latency_Sum s d = Ok (tt, d') ∧ represents d' (s1 ++ s2).
Proof.
  intros Hd Hs Hf Hlen. pose proof (represents_dom _ _ Hd) as Hdd. pose proof (represents_dom _ _ Hs) as Hds.
  destruct Hd as [Hwfd Hbyd], Hs as [Hwfs Hbys].
  assert (∀ t x, by_type s !! t = Some x → summable x) as Hsum.
  { intros t x. rewrite Hbys. case_decide as Hv; [done|]. intros [= <-]. apply summary_summable; [done| |].
    - intros v Hv'%elem_of_vals. apply (proj1 Hf t v). apply elem_of_app. by right.
    - unfold vals. rewrite length_fmap. pose proof (length_filter (λ p, p.1 = t) s2). lia. }
  unfold Latency_Sum. destruct (sum_pool_run s Hwfs Hsum (seq 0 (distPoolNext s)) d) as (d1 & Hrun1 & Hwf1 & Hby1).
  { apply NoDup_seq. } { intros j Hj%elem_of_seq. lia. } { done. }
  { intros t x. rewrite Hbyd. case_decide; [done|]. intros [= <-]. apply summary_range. }
  { rewrite Hdd, Hds, <- list_to_set_app_L, <- fmap_app. apply Hf. }
  assert (∀ t, by_type d1 !! t = match by_type s !! t with Some ds => Some (added (by_type d) t ds) | None => by_type d !! t end) as Hby1'.
  { intros t. rewrite Hby1, (by_type_lookup s). destruct (dists s !! t) as [j|] eqn:Hj; [|done]. simpl.
    destruct (wf_dist _ Hwfs _ _ Hj) as (Hlt & _ & x & Hx & _). rewrite decide_True by (apply elem_of_seq; lia). by rewrite Hx. }
  rewrite (bind_run _ _ _ _ _ Hrun1).
  destruct (sum_rest_run s Hwfs (seqZ 0 LATENCY_MAX_DIST) d1 (NoDup_seqZ _ _) Hwf1) as (d2 & Hrun2 & Hwf2 & Hby2).
  { intros t [ds Ht]. rewrite Hby1', Ht. by eexists. }
  exists d2. split; [done|]. split; [done|]. intros t. rewrite Hby2, Hby1', vals_app.
  destruct (by_type s !! t) as [ds|] eqn:Hds'.
  - assert (t ∈ seqZ 0 LATENCY_MAX_DIST) as Ht.
    { rewrite by_type_lookup in Hds'. destruct (dists s !! t) as [j|] eqn:Hj; [|done]. destruct (wf_dist _ Hwfs _ _ Hj) as (_ & Ht & _).
      apply elem_of_seqZ. lia. }
    rewrite decide_True by done. rewrite Hbys in Hds'. case_decide as Hv2; [done|]. injection Hds' as <-.
    rewrite decide_False by (intros [_ ?]%app_nil; done). simpl. f_equal. rewrite summary_app. f_equal. unfold added. simpl. f_equal.
    rewrite Hbyd. case_decide as Hv1; [by rewrite Hv1|done].
  - rewrite Hbys in Hds'. case_decide as Hv2; [|done]. rewrite Hv2, app_nil_r. apply Hbyd.
Qed.

(** ** Messages *)

Lemma to_char_u32 t : 0 ≤ t < LATENCY_MAX_DIST → to_char (u32 t) = t.
Proof. unfold LATENCY_MAX_DIST. intros Ht. unfold to_char, u32. rewrite (Z.mod_small t), Z.mod_small; lia. Qed.

Lemma get_dists_run rest : ∀ k l,
  Forall (λ d, 0 ≤ d_type d < LATENCY_MAX_DIST ∧ length (d_buckets d) = Z.to_nat LATENCY_NUM_BUCKETS) rest →
  NoDup (d_type <$> rest) → (k + length rest ≤ length (distPool l))%nat →
  ∃ l', for_each (zip (seq k (length rest)) (put_dist <$> rest)) (λ p, get_dist p.1 p.2) l = Ok (tt, l') ∧
    l' = l <| dists := dists l' |> <| distPool := distPool l' |> ∧
    (∀ i d, rest !! i = Some d → dists l' !! d_type d = Some (k + i)%nat ∧ distPool l' !! (k + i)%nat = Some d) ∧
    (∀ t, t ∉ d_type <$> rest → dists l' !! t = dists l !! t) ∧
    ∀ i, (i < k ∨ k + length rest ≤ i)%nat → distPool l' !! i = distPool l !! i.
Proof.
  induction rest as [|d rest IH]; intros k l Hok Hnd Hlen.
  { exists l. split_and!; [done|by destruct l|done|done|done]. }
  apply Forall_cons in Hok as [[Ht Hb] Hok]. rewrite fmap_cons in Hnd. apply NoDup_cons in Hnd as [Hd Hnd]. simpl in Hlen.
  set (l1 := l <| dists ::= <[d_type d := k]> |> <| distPool ::= <[k := d]> |>).
  assert (get_dist k (put_dist d) l = Ok (tt, l1)) as Hrun1.
  { unfold get_dist, put_dist. rewrite (bind_run _ _ l l l) by done. cbn [m_type m_buckets m_min m_max m_total m_count].
    destruct (lookup_lt_is_Some_2 (distPool l) k) as [x Hx]; [lia|]. rewrite (bind_run _ _ l x l) by (by rewrite Hx).
    rewrite to_char_u32 by done. rewrite (proj2 (Z.ltb_ge _ 0)), (proj2 (Z.leb_gt LATENCY_MAX_DIST _)) by lia. simpl orb. cbv iota zeta.
    rewrite Hb, Nat.ltb_irrefl, <- Hb, firstn_all. by destruct d. }
  destruct (IH (S k) l1 Hok Hnd) as (l2 & Hrun2 & Hl2 & Hin & Hout & Hpool); [simpl; rewrite length_insert; lia|].
  exists l2. split_and!.
  - change (zip (seq k (length (d :: rest))) (put_dist <$> d :: rest)) with ((k, put_dist d) :: zip (seq (S k) (length rest)) (put_dist <$> rest)).
    cbn [for_each fst snd]. by rewrite (bind_run _ _ _ _ _ Hrun1).
  - rewrite Hl2 at 1. done.
  - intros [|i] d' Hd'; simpl in Hd'.
    + injection Hd' as <-. rewrite Nat.add_0_r, Hout, Hpool by (done || lia). simpl. rewrite lookup_insert_eq.
      split; [done|]. apply list_lookup_insert_eq. lia.
    + destruct (Hin _ _ Hd') as [E1 E2]. replace (k + S i)%nat with (S k + i)%nat by lia. done.
  - intros t. rewrite fmap_cons, not_elem_of_cons. intros [Hne Hnin]. rewrite Hout by done. simpl. by rewrite lookup_insert_ne.
  - intros i Hi. simpl in Hi. rewrite Hpool by lia. simpl. rewrite list_lookup_insert_ne by lia. done.
Qed.

(** A latency survives its message.  What [Latency_Put] writes of a latency that holds the
    statistics of some samples is read back by [Latency_TryGet], into any latency, as the same
    name and the same distributions in the same places of the pool. *)
Theorem latency_message_roundtrip (l other : Latency_t) (s : list (Z * Z)) :
  represents l s →
  ∃ l', Latency_TryGet (Latency_Put l) other = Ok (true, l') ∧ represents l' s ∧
    l' = l <| bottom := None |> <| l_next := None |>.
Proof.
  intros Hr. pose proof Hr as [Hwf Hby]. set (rest := take (distPoolNext l) (distPool l)).
  assert (length rest = distPoolNext l) as Hlen by (unfold rest; rewrite length_take, (wf_pool _ Hwf); pose proof (wf_le _ Hwf); lia).
  assert (∀ i d, rest !! i = Some d → dists l !! d_type d = Some i ∧ distPool l !! i = Some d ∧
    0 ≤ d_type d < LATENCY_MAX_DIST ∧ length (d_buckets d) = Z.to_nat LATENCY_NUM_BUCKETS) as Hrest.
  { intros i d Hd. pose proof (lookup_lt_Some _ _ _ Hd) as Hi. unfold rest in Hd. rewrite lookup_take in Hd. case_decide; [|done].
    destruct (wf_used _ Hwf i) as [t Ht]; [lia|]. destruct (wf_dist _ Hwf _ _ Ht) as (_ & Hrange & d' & Hd' & Hty & Hb).
    assert (d' = d) as -> by congruence. rewrite Hty. done. }
  assert (NoDup (d_type <$> rest)) as Hnd.
  { apply NoDup_alt. intros i j t Hi Hj. rewrite list_lookup_fmap in Hi, Hj.
    destruct (rest !! i) as [di|] eqn:Ei; [|done]. destruct (rest !! j) as [dj|] eqn:Ej; [|done]. simpl in *. simplify_eq.
    destruct (Hrest _ _ Ei) as [E1 _]. destruct (Hrest _ _ Ej) as [E2 _]. congruence. }
  set (l0 := LatencyInit (l_name l) <| distPoolNext := length (m_dists (Latency_Put l)) |>).
  destruct (get_dists_run rest 0 l0) as (l' & Hrun & Hl' & Hin & Hout & Hpool).
  { apply Forall_lookup. intros i d Hd. apply (Hrest _ _ Hd). } { done. } { rewrite Hlen. apply Hwf. }
  assert (l' = l <| bottom := None |> <| l_next := None |>) as ->.
  { rewrite Hl'. unfold l0. destruct l as [name ds pool next bot nxt]. simpl in *. f_equal.
    - apply map_eq. intros t. destruct (decide (t ∈ d_type <$> rest)) as [Ht|Ht].
      + apply list_elem_of_fmap in Ht as (d & -> & [i Hi]%list_elem_of_lookup). destruct (Hin _ _ Hi) as [-> _].
        symmetry. by apply Hrest.
      + rewrite Hout by done. simpl. rewrite lookup_empty. destruct (ds !! t) as [j|] eqn:Hj; [|done]. exfalso. apply Ht.
        destruct (wf_dist _ Hwf _ _ Hj) as (Hlt & _ & d & Hd & Hty & _). simpl in *. apply list_elem_of_fmap. exists d. split; [done|].
        apply (list_elem_of_lookup_2 _ j). unfold rest. rewrite lookup_take. by rewrite decide_True.
    - apply list_eq. intros i. destruct (decide (i < next)%nat) as [Hi|Hi].
      + destruct (lookup_lt_is_Some_2 rest i) as [d Hd]; [lia|]. destruct (Hin _ _ Hd) as [_ ->]. symmetry. by apply Hrest.
      + rewrite Hpool by lia. simpl. destruct (decide (i < LATENCY_DIST_POOL_SIZE)%nat) as [Hlt|Hge].
        * pose proof (wf_free _ Hwf i ltac:(simpl; lia)) as Hfree. simpl in Hfree. rewrite Hfree. apply (lookup_replicate_2 LATENCY_DIST_POOL_SIZE Dist_init i Hlt).
        * rewrite !lookup_ge_None_2; [done| |]; [pose proof (wf_pool _ Hwf); simpl in *; lia|].
          change (LATENCY_DIST_POOL_SIZE ≤ i)%nat. lia.
    - by rewrite length_fmap. }
  exists (l <| bottom := None |> <| l_next := None |>). split_and!; [|by split; [by destruct Hwf|]|done].
  unfold Latency_TryGet. rewrite (bind_run _ _ _ tt l0) by done.
  erewrite bind_run; [reflexivity|]. etransitivity; [|exact Hrun]. unfold Latency_Put. cbn [m_dists]. rewrite length_fmap. done.
Qed.

(** ** Durations *)

Definition nanoseconds (t : timespec) : Z := tv_sec t * 1000000000 + tv_nsec t.

Lemma elapsed_spec from to : elapsed from to = u64 (nanoseconds to - nanoseconds from).
Proof.
  assert (∀ x y, ((x mod u64_modulus * 1000000000) mod u64_modulus + y) mod u64_modulus = (x * 1000000000 + y) mod u64_modulus) as Hm.
  { intros x y. by rewrite Zmult_mod_idemp_l, Zplus_mod_idemp_l. }
  unfold elapsed, nanoseconds, u64. destruct (Z.ltb_spec (tv_nsec to) (tv_nsec from)).
  - rewrite Zplus_mod_idemp_l, <- Z.add_sub_swap, <- Z.add_sub_assoc, Hm. f_equal. lia.
  - rewrite Hm. f_equal. lia.
Qed.

(** A program that measures: [Measure a fr type body next] runs [body] between the start and the end
    of a recording with frame [fr], and then [next]. *)
Inductive prog := Finish | Measure (a fr type : Z) (body next : prog).

(** The frames of recordings that are open at the same time are different. *)
Fixpoint well_nested (used : gset Z) (p : prog) : Prop :=
  match p with
  | Finish => True
  | Measure a fr type body next => (fr ∉ used) ∧ well_nested ({[fr]} ∪ used) body ∧ well_nested used next
  end.

Fixpoint measured (p : prog) : gset Z :=
  match p with Finish => ∅ | Measure a fr type body next => {[a]} ∪ measured body ∪ measured next end.

(** Recording changes the distributions only. *)
Lemma LatencyAdd_links t v l l' : LatencyAdd t v l = Ok (tt, l') → bottom l' = bottom l ∧ l_next l' = l_next l ∧ l_name l' = l_name l.
Proof.
  unfold LatencyAdd, LatencyAddHist, find_dist, mbind, M_bind, get_st, modify, deref, mret, M_ret. intros Hrun.
  repeat case_match; simplify_eq/=; done.
Qed.

Section durations.
Context `{!StatsSystem}.

Fixpoint run_prog (p : prog) : MS unit :=
  match p with
  | Finish => mret tt
  | Measure a fr type body next =>
      _ ← Latency_StartRec a fr;
      _ ← run_prog body;
      _ ← Latency_EndRecType a fr type;
      run_prog next
  end.

Definition time (n : nat) : Z := nanoseconds (default (MkTimespec 0 0) (clock_gettime n)).

(** The samples a program should record, with their latencies, in their order, when the first
    reading of the clock is number [n]; and the number of the next reading.  An end reads the clock
    twice, the second time for the flush. *)
Fixpoint samples (p : prog) (n : nat) : list (Z * (Z * Z)) * nat :=
  match p with
  | Finish => ([], n)
  | Measure a fr type body next =>
      let '(inner, n1) := samples body (S n) in
      let '(rest, n2) := samples next (S (S n1)) in
      (inner ++ (a, (type, u64 (time n1 - time n))) :: rest, n2)
  end.

Definition of_latency (a : Z) (l : list (Z * (Z * Z))) : list (Z * Z) := (filter (λ p, p.1 = a) l).*2.

(** The second of a reading. *)
Definition second (n : nat) : Z := tv_sec (default (MkTimespec 0 0) (clock_gettime n)).

(** The second of the last flush, and the samples there were at that time; none before the first
    flush. *)
Abbreviation last_flush := (Z * option (list (Z * (Z * Z))))%type.

(** The flush that may follow reading [n]: not twice in a second. *)
Definition flush_at (n : nat) (done : list (Z * (Z * Z))) (fl : last_flush) : last_flush :=
  if second n =? fl.1 then fl else (second n, Some done).

(** The last flush of a program that starts with reading [n] after the samples [done]. *)
Fixpoint flushes (p : prog) (n : nat) (done : list (Z * (Z * Z))) (fl : last_flush) : last_flush :=
  match p with
  | Finish => fl
  | Measure a fr type body next =>
      let '(inner, n1) := samples body (S n) in
      let done' := done ++ inner ++ [(a, (type, u64 (time n1 - time n)))] in
      flushes next (S (S n1)) done' (flush_at (S n1) done' (flushes body (S n) done fl))
  end.

(** What the file holds: for every registered latency the message of its name and of the
    statistics of the samples it had at the last flush. *)
Definition file_holds (order : list (Z * string)) (file : option (list LatencyMsg))
    (flushed : option (list (Z * (Z * Z)))) : Prop :=
  match file, flushed with
  | None, None => True
  | Some ms, Some done =>
      Forall2 (λ x m, ∃ l, m = Latency_Put l ∧ l_name l = x.2 ∧ represents l (of_latency x.1 done)) order ms
  | _, _ => False
  end.

(** The list of latencies, with their names. *)
Fixpoint linked (m : gmap Z Latency_t) (p : option Z) (order : list (Z * string)) : Prop :=
  match p, order with
  | None, [] => True
  | Some a, (b, name) :: order => a = b ∧ ∃ l, m !! a = Some l ∧ l_name l = name ∧ linked m (l_next l) order
  | _, _ => False
  end.

Lemma chain_linked s order : ∀ p fuel, linked (latencies s) p order → (length order < fuel)%nat →
  ∃ ls, chain fuel p s = Ok (ls, s) ∧ Forall2 (λ x l, latencies s !! x.1 = Some l ∧ l_name l = x.2) order ls.
Proof.
  induction order as [|[a name] order IH]; intros [b|] fuel Hl Hf; try done; [eexists; by destruct fuel|].
  destruct fuel as [|fuel]; [simpl in Hf; lia|]. destruct Hl as [-> (l & Hl & Hname & Hrest)]. cbn [chain].
  rewrite (bind_run _ _ s s s) by done. rewrite (bind_run _ _ s l s) by (by rewrite Hl).
  destruct (IH (l_next l) fuel Hrest) as (ls & Hls & Hall); [simpl in Hf; lia|]. rewrite (bind_run _ _ _ _ _ Hls).
  eexists. split; [done|]. by constructor.
Qed.

Lemma linked_update m p order a l l' :
  linked m p order → m !! a = Some l → l_next l' = l_next l → l_name l' = l_name l → linked (<[a := l']> m) p order.
Proof.
  revert p. induction order as [|[b name] order IH]; intros [c|] Hl Ha Hn Hname; try done.
  destruct Hl as [-> (lb & Hb & Hbn & Hrest)]. split; [done|]. destruct (decide (a = b)) as [->|Hne].
  - exists l'. rewrite lookup_insert_eq. split; [done|]. assert (lb = l) as -> by congruence. rewrite Hn, Hname. auto.
  - exists lb. rewrite lookup_insert_ne by done. auto.
Qed.

(** The state after the samples [done] and the flush [fl]: every latency has the samples that are
    its own. *)
Record recorded (order : list (Z * string)) (done : list (Z * (Z * Z))) (n : nat) (fl : last_flush) (s : Stats) : Prop := {
  rec_order : linked (latencies s) (latencyHead s) order ∧ NoDup order.*1 ∧ dom (latencies s) = list_to_set order.*1;
  rec_samples : ∀ a l, latencies s !! a = Some l → represents l (of_latency a done);
  rec_readings : readings s = n;
  rec_second : tv_sec (lastFlush s) = fl.1;
  rec_file : file_holds order (written s) fl.2
}.

(** The bottoms of the latencies and the frames in use. *)
Definition same_frames (used : gset Z) (s s' : Stats) : Prop :=
  (∀ a, bottom <$> latencies s' !! a = bottom <$> latencies s !! a) ∧ ∀ fr, fr ∈ used → frames s' !! fr = frames s !! fr.

Lemma represents_frame l s b : represents l s → represents (l <| bottom := b |>) s.
Proof. intros [Hwf Hby]. split; [by destruct Hwf|done]. Qed.

Context (Hclock : ∀ n, is_Some (clock_gettime n)) (Hwrite : can_write = true).

Lemma read_clock_run s :
  ∃ t, read_clock s = Ok (t, s <| readings ::= S |>) ∧ nanoseconds t = time (readings s) ∧ tv_sec t = second (readings s).
Proof.
  unfold read_clock, time, second. destruct (Hclock (readings s)) as [t Ht]. exists t. unfold mbind, M_bind, get_st, modify. simpl. rewrite Ht. done.
Qed.

Lemma recorded_set order done n fl s a l l' :
  recorded order done n fl s → latencies s !! a = Some l → l_next l' = l_next l → l_name l' = l_name l →
  represents l' (of_latency a done) → recorded order done n fl (s <| latencies ::= <[a := l']> |>).
Proof.
  intros [(Ho & Hnd & Hdom) Hs Hn Hsec Hfile] Ha Hnext Hname Hr. split; simpl; [|intros a' la|done..].
  - split_and!; [by eapply linked_update|done|]. rewrite dom_insert_lookup_L by (by rewrite Ha). done.
  - destruct (decide (a = a')) as [<-|Hne]; [rewrite lookup_insert_eq; by intros [= <-]|rewrite lookup_insert_ne by done; apply Hs].
Qed.

(** Starting a recording. *)
Lemma Latency_StartRec_run order done n fl s a fr l :
  recorded order done n fl s → latencies s !! a = Some l →
  ∃ s', Latency_StartRec a fr s = Ok (tt, s') ∧ recorded order done (S n) fl s' ∧
    latencies s' = <[a := l <| bottom := Some fr |>]> (latencies s) ∧
    (∃ t, frames s' = <[fr := MkFrame t 0 (bottom l)]> (frames s) ∧ nanoseconds t = time n).
Proof.
  intros Hrec Ha. unfold Latency_StartRec. set (l1 := l <| bottom := Some fr |>).
  rewrite (bind_run _ _ s (bottom l) (s <| latencies ::= <[a := l1]> |>)) by (unfold on_latency; by rewrite Ha).
  set (f := default new_frame (frames s !! fr) <| accum := 0 |> <| parent := bottom l |>).
  set (s2 := s <| latencies ::= <[a := l1]> |> <| frames ::= <[fr := f]> |>).
  rewrite (bind_run _ _ _ tt s2) by done. unfold Latency_Resume.
  destruct (read_clock_run s2) as (t & Hrun & Ht & _). rewrite (bind_run _ _ _ _ _ Hrun). set (s3 := s2 <| readings ::= S |>).
  assert (latencies s3 !! a = Some l1) as Hl3 by (simpl; apply lookup_insert_eq).
  rewrite (bind_run _ _ s3 fr s3).
  2: { unfold bottom_frame, on_latency. rewrite Hl3. simpl. do 2 f_equal. rewrite insert_insert_eq. done. }
  rewrite (bind_run _ _ s3 s3 s3) by done. rewrite (bind_run _ _ s3 f s3) by (simpl; by rewrite lookup_insert_eq).
  eexists. split; [reflexivity|]. split_and!.
  - destruct (recorded_set order done n fl s a l l1 Hrec Ha eq_refl eq_refl) as [H1 H2 H3 H4 H5];
      [apply represents_frame; by eapply rec_samples|].
    split; [exact H1|exact H2|simpl; simpl in H3; by rewrite H3|exact H4|exact H5].
  - done.
  - exists t. simpl. rewrite insert_insert_eq. split; [done|]. rewrite Ht. simpl. by rewrite (rec_readings _ _ _ _ _ Hrec).
Qed.

Lemma of_latency_app a l1 l2 : of_latency a (l1 ++ l2) = of_latency a l1 ++ of_latency a l2.
Proof. unfold of_latency. by rewrite filter_app, fmap_app. Qed.

Lemma fits_prefix s1 s2 : fits (s1 ++ s2) → fits s1.
Proof.
  intros [Hok Hsize]. split; [intros t v Hin; apply Hok; apply elem_of_app; by left|]. etransitivity; [|exact Hsize].
  apply subseteq_size. rewrite fmap_app, list_to_set_app. apply union_subseteq_l.
Qed.

(** A flush writes what was recorded. *)
Lemma Latency_Flush_run order done n fl s : recorded order done n fl s →
  ∃ s', Latency_Flush s = Ok (tt, s') ∧ recorded order done n (tv_sec (lastFlush s), Some done) s' ∧
    latencies s' = latencies s ∧ frames s' = frames s.
Proof.
  intros [(Ho & Hnd & Hdom) Hs Hn Hsec Hfile]. unfold Latency_Flush. rewrite (bind_run _ _ s s s) by done.
  destruct (chain_linked s order (latencyHead s) (S (size (latencies s))) Ho) as (ls & Hls & Hall).
  { rewrite <- size_dom, Hdom, size_list_to_set by done. rewrite length_fmap. lia. }
  rewrite (bind_run _ _ _ _ _ Hls), Hwrite. eexists. split; [reflexivity|].
  split_and!; [split; [by split_and!|done..|]|done..]. simpl. apply Forall2_fmap_r. eapply Forall2_impl; [exact Hall|].
  intros [x name] l [Hl Hname]. exists l. split_and!; [done|done|]. by apply Hs.
Qed.

Lemma LatencyMaybeFlush_run order done n fl s : recorded order done n fl s →
  ∃ s', LatencyMaybeFlush s = Ok (tt, s') ∧ recorded order done (S n) (flush_at n done fl) s' ∧
    latencies s' = latencies s ∧ frames s' = frames s.
Proof.
  intros [Ho Hs Hn Hsec Hfile]. unfold LatencyMaybeFlush. destruct (read_clock_run s) as (t & Hrun & _ & Ht).
  rewrite (bind_run _ _ _ _ _ Hrun). rewrite Hn in Ht.
  set (s1 := s <| readings ::= S |>).
  assert (recorded order done (S n) fl s1) as Hrec1 by (split; [exact Ho|exact Hs|simpl; by rewrite Hn|done|done]).
  rewrite (bind_run _ _ s1 s1 s1) by done. unfold flush_at. change (lastFlush s1) with (lastFlush s). rewrite Ht, Hsec.
  destruct (second n =? fl.1) eqn:Hsame; [by exists s1|].
  set (s2 := s1 <| lastFlush := t |>). rewrite (bind_run _ _ s1 tt s2) by done.
  destruct (Latency_Flush_run order done (S n) (second n, fl.2) s2) as (s3 & Hrun3 & Hrec3 & Hl & Hf); [by destruct Hrec1|].
  exists s3. split_and!; [done| |done..]. simpl in Hrec3. by rewrite Ht in Hrec3.
Qed.

(** Ending a recording. *)
Lemma Latency_EndRecType_run order done n fl s a fr type l t0 up :
  recorded order done n fl s → latencies s !! a = Some l → bottom l = Some fr → frames s !! fr = Some (MkFrame t0 0 up) →
  let v := u64 (time n - nanoseconds t0) in
  fits (of_latency a (done ++ [(a, (type, v))])) →
  ∃ s' l', Latency_EndRecType a fr type s = Ok (tt, s') ∧
    recorded order (done ++ [(a, (type, v))]) (S (S n)) (flush_at (S n) (done ++ [(a, (type, v))]) fl) s' ∧
    latencies s' = <[a := l']> (latencies s) ∧ bottom l' = up ∧ ∀ fr', fr' ≠ fr → frames s' !! fr' = frames s !! fr'.
Proof.
  intros Hrec Ha Hb Hfr v Hfits. unfold Latency_EndRecType, Latency_Pause.
  destruct (read_clock_run s) as (t & Hrun & Ht & _). rewrite (rec_readings _ _ _ _ _ Hrec) in Ht.
  set (s1 := s <| readings ::= S |>). set (f := MkFrame t0 v up).
  erewrite (bind_run _ _ s tt (s1 <| frames ::= <[fr := f]> |>)).
  2: { rewrite (bind_run _ _ _ _ _ Hrun). fold s1. rewrite (bind_run _ _ s1 fr s1).
       2: { unfold bottom_frame, on_latency. simpl. rewrite Ha. unfold mbind, M_bind, get_st. simpl. rewrite Hb. simpl. unfold s1.
            do 2 f_equal. rewrite insert_id by done. by destruct s. }
       rewrite (bind_run _ _ s1 s1 s1) by done. rewrite (bind_run _ _ s1 (MkFrame t0 0 up) s1) by (simpl; by rewrite Hfr).
       unfold modify. do 3 f_equal. unfold f. simpl. rewrite elapsed_spec, Ht. fold v. rewrite Z.add_0_l. by rewrite (u64_small v) by apply u64_range. }
  set (s2 := s1 <| frames ::= <[fr := f]> |>). rewrite (bind_run _ _ s2 s2 s2) by done.
  rewrite (bind_run _ _ s2 f s2) by (simpl; by rewrite lookup_insert_eq).
  destruct (LatencyAdd_represents (l <| bottom := up |>) (of_latency a done) type v) as (l' & Hadd & Hrep).
  { apply represents_frame. by eapply rec_samples. }
  { rewrite of_latency_app in Hfits. unfold of_latency at 2 in Hfits. by rewrite filter_cons_True in Hfits. }
  set (s3 := s2 <| latencies ::= <[a := l']> |>).
  rewrite (bind_run _ _ s2 tt s3).
  2: { unfold on_latency. change (latencies s2 !! a) with (latencies s !! a). rewrite Ha.
       rewrite (bind_run _ _ l tt (l <| bottom := up |>)) by done. change (accum f) with v. by rewrite Hadd. }
  destruct (LatencyAdd_links _ _ _ _ Hadd) as (Hbot' & Hnext' & Hname').
  assert (recorded order (done ++ [(a, (type, v))]) (S n) fl s3) as Hrec3.
  { destruct Hrec as [(Ho & Hnd & Hdom) Hs Hn Hsec Hfile]. split; simpl; [|intros a' la|by rewrite Hn|done|done].
    - split_and!; [|done|by rewrite dom_insert_lookup_L by (by rewrite Ha)].
      eapply linked_update; [done|done|by rewrite Hnext'|by rewrite Hname'].
    - rewrite of_latency_app. destruct (decide (a = a')) as [<-|Hne].
      + rewrite lookup_insert_eq. intros [= <-]. unfold of_latency at 2. by rewrite filter_cons_True.
      + rewrite lookup_insert_ne by done. intros Hla. unfold of_latency at 2. rewrite filter_cons_False by done. simpl. rewrite app_nil_r. by apply Hs. }
  destruct (LatencyMaybeFlush_run _ _ _ _ _ Hrec3) as (s4 & Hrun4 & Hrec4 & Hl4 & Hf4). exists s4, l'. rewrite Hl4, Hf4.
  split_and!; [done|done|done|by rewrite Hbot'|]. intros fr' Hne. simpl. by rewrite lookup_insert_ne.
Qed.


Lemma run_prog_run p : ∀ order done n fl s used,
  recorded order done n fl s → well_nested used p → measured p ⊆ dom (latencies s) →
  (∀ a, fits (of_latency a (done ++ (samples p n).1))) →
  ∃ s', run_prog p s = Ok (tt, s') ∧ recorded order (done ++ (samples p n).1) (samples p n).2 (flushes p n done fl) s' ∧ same_frames used s s' ∧
    dom (latencies s') = dom (latencies s).
Proof.
  induction p as [|a fr type body IHb next IHn]; intros order done n fl s used Hrec Hwn Hm Hfits;
    cbn [run_prog samples flushes well_nested measured] in *.
  { exists s. simpl. rewrite app_nil_r. by split_and!. }
  destruct Hwn as (Hfr & Hwb & Hwn). destruct (samples body (S n)) as [inner n1] eqn:Eb. destruct (samples next (S (S n1))) as [rest n2] eqn:En.
  cbn [fst snd] in *. set (v := u64 (time n1 - time n)) in *.
  assert (a ∈ dom (latencies s)) as [l Ha]%elem_of_dom by set_solver.
  destruct (Latency_StartRec_run order done n fl s a fr l Hrec Ha) as (s1 & Hrun1 & Hrec1 & Hl1 & t0 & Hf1 & Ht0).
  rewrite (bind_run _ _ _ _ _ Hrun1).
  assert (dom (latencies s1) = dom (latencies s)) as Hdom1 by (rewrite Hl1; by rewrite dom_insert_lookup_L by (by rewrite Ha)).
  destruct (IHb order done (S n) fl s1 ({[fr]} ∪ used) Hrec1 Hwb) as (s2 & Hrun2 & Hrec2 & [Hbot2 Hfr2] & Hdom2).
  { rewrite Hdom1. set_solver. }
  { rewrite Eb. intros a'. specialize (Hfits a'). rewrite app_assoc, of_latency_app in Hfits. by apply fits_prefix in Hfits. }
  rewrite (bind_run _ _ _ _ _ Hrun2). rewrite Eb in Hrec2. cbn [fst snd] in Hrec2.
  pose proof (Hbot2 a) as Hb2. rewrite Hl1, lookup_insert_eq in Hb2. destruct (latencies s2 !! a) as [l2|] eqn:Hl2; [|done].
  injection Hb2 as Hb2. pose proof (Hfr2 fr ltac:(set_solver)) as Hf2. rewrite Hf1, lookup_insert_eq in Hf2.
  destruct (Latency_EndRecType_run order (done ++ inner) n1 _ s2 a fr type l2 t0 (bottom l) Hrec2 Hl2 Hb2 Hf2) as (s3 & l3 & Hrun3 & Hrec3 & Hl3 & Hb3 & Hf3).
  { rewrite Ht0. fold v. specialize (Hfits a). rewrite (app_assoc done), (cons_middle _ (done ++ inner)), app_assoc, of_latency_app in Hfits.
    by apply fits_prefix in Hfits. }
  rewrite Ht0 in Hrec3. fold v in Hrec3. rewrite (bind_run _ _ _ _ _ Hrun3).
  assert (dom (latencies s3) = dom (latencies s)) as Hdom3.
  { rewrite Hl3, dom_insert_lookup_L by (by rewrite Hl2). congruence. }
  assert (∀ X, done ++ inner ++ (a, (type, v)) :: X = ((done ++ inner) ++ [(a, (type, v))]) ++ X) as Happ by (intros X; by rewrite <- !app_assoc).
  rewrite Happ.
  destruct (IHn order _ (S (S n1)) _ s3 used Hrec3 Hwn) as (s4 & Hrun4 & Hrec4 & [Hbot4 Hfr4] & Hdom4).
  { rewrite Hdom3. set_solver. } { rewrite En. intros a'. rewrite <- Happ. apply Hfits. }
  rewrite En in Hrec4. exists s4. rewrite <- (app_assoc done inner) in Hrec4 at 2 3.
  split_and!; [done|exact Hrec4| |congruence]. split.
  - intros a'. rewrite Hbot4, Hl3. destruct (decide (a = a')) as [<-|Hne].
    + rewrite lookup_insert_eq, Ha. simpl. by rewrite Hb3.
    + rewrite lookup_insert_ne by done. rewrite Hbot2, Hl1, lookup_insert_ne by done. done.
  - intros fr' Hin. rewrite Hfr4 by done. assert (fr' ≠ fr) by (intros ->; done). rewrite Hf3 by done. rewrite Hfr2 by set_solver.
    by rewrite Hf1, lookup_insert_ne.
Qed.

(** Registering latencies. *)
Lemma register_run names : ∀ s order,
  recorded order [] 0 (0, None) s → NoDup names.*1 → (∀ a, a ∈ names.*1 → a ∉ order.*1) → (∀ a l, latencies s !! a = Some l → bottom l = None) →
  ∃ s', for_each names (λ p, Latency_Init p.1 p.2) s = Ok (tt, s') ∧ recorded (reverse names ++ order) [] 0 (0, None) s' ∧
    ∀ a l, latencies s' !! a = Some l → bottom l = None.
Proof.
  induction names as [|[a name] names IH]; intros s order Hrec Hnd Hnew Hbot; cbn [for_each]; [by exists s|].
  rewrite fmap_cons in Hnd. apply NoDup_cons in Hnd as [Ha Hnd]. destruct Hrec as [(Ho & Hnd' & Hdom) Hs Hn Hsec Hfile].
  assert (a ∉ order.*1) as Hao by (apply Hnew; set_solver).
  set (l1 := LatencyInit name <| l_next := latencyHead s |>).
  set (s1 := s <| latencies ::= <[a := l1]> |> <| latencyHead := Some a |>).
  assert (linked (<[a := l1]> (latencies s)) (latencyHead s) order) as Hlink.
  { clear -Ho Hao. revert Ho. generalize (latencyHead s). induction order as [|[b nb] order IH]; intros [c|] Ho; try done.
    destruct Ho as [-> (lb & Hb & Hbn & Hrest)]. split; [done|]. exists lb. rewrite lookup_insert_ne by set_solver.
    split_and!; [done..|]. apply IH; [set_solver|done]. }
  destruct (IH s1 ((a, name) :: order)) as (s2 & Hrun2 & Hrec2 & Hbot2).
  { split; [|intros a' l|done|done|].
    - split_and!; [split; [done|]; exists l1; split_and!; [apply lookup_insert_eq|done|exact Hlink]|by apply NoDup_cons|].
      simpl. by rewrite dom_insert_L, Hdom.
    - simpl. destruct (decide (a = a')) as [<-|Hne]; [|rewrite lookup_insert_ne by done; apply Hs].
      rewrite lookup_insert_eq. intros [= <-]. split; [|by intros t]. by destruct (LatencyInit_wf name).
    - simpl in *. by destruct (written s). }
  { done. } { set_solver. }
  { intros a' l. simpl. destruct (decide (a = a')) as [<-|Hne]; [rewrite lookup_insert_eq; by intros [= <-]|rewrite lookup_insert_ne by done; apply Hbot]. }
  exists s2. split_and!; [|by rewrite reverse_cons, <- app_assoc|done].
  rewrite (bind_run _ _ s tt s1) by done. exact Hrun2.
Qed.

(** C33: Latencies record the durations.  Take any program that measures with distinct latencies
    and whose recordings, nested as deep as one likes, use different frames; every latency is
    used with at most five types, from 0 to 126; the clock never fails and the file can be
    written.  Then all calls return, and at the end every latency holds exactly the statistics
    of its samples: for every recording the difference of the clock between its end and its
    start.  No recording is left open.  The file holds the statistics of all latencies as of
    the last recording whose end came in another second than the flush before; it is not
    written only when there was no such recording. *)
Theorem latency_records_durations (names : list (Z * string)) (p : prog) :
  NoDup names.*1 → well_nested ∅ p → measured p ⊆ list_to_set names.*1 → (∀ a, fits (of_latency a (samples p 0).1)) →
  ∃ s, (_ ← for_each names (λ x, Latency_Init x.1 x.2); run_prog p) Stats_new = Ok (tt, s) ∧
    (∀ a, a ∈ names.*1 → ∃ l, latencies s !! a = Some l ∧ represents l (of_latency a (samples p 0).1) ∧ bottom l = None) ∧
    file_holds (reverse names) (written s) (flushes p 0 [] (0, None)).2.
Proof.
  intros Hnd Hwn Hm Hfits. destruct (register_run names Stats_new [] ) as (s1 & Hrun1 & Hrec1 & Hbot1); [|done|set_solver|done|].
  { split; [split_and!; [done|constructor|done]|done..]. }
  rewrite (bind_run _ _ _ _ _ Hrun1). rewrite app_nil_r in Hrec1. pose proof (rec_order _ _ _ _ _ Hrec1) as (_ & _ & Hdom).
  assert (∀ a, a ∈ dom (latencies s1) ↔ a ∈ names.*1) as Hdom'.
  { intros a. by rewrite Hdom, elem_of_list_to_set, fmap_reverse, elem_of_reverse. }
  destruct (run_prog_run p _ [] 0 _ s1 ∅ Hrec1 Hwn) as (s2 & Hrun2 & Hrec2 & [Hbot2 _] & Hdom2).
  { intros a Ha. apply Hdom'. apply Hm in Ha. by apply elem_of_list_to_set in Ha. } { done. }
  exists s2. split; [done|]. split; [|apply Hrec2]. intros a Ha.
  assert (a ∈ dom (latencies s2)) as [l Hl]%elem_of_dom by (rewrite Hdom2; by apply Hdom').
  exists l. split_and!; [done|by apply (rec_samples _ _ _ _ _ Hrec2)|]. pose proof (Hbot2 a) as Hb. rewrite Hl in Hb.
  destruct (latencies s1 !! a) as [l1|] eqn:E; [|done]. injection Hb as ->. by eapply Hbot1.
Qed.
End durations.

(** ** Printing *)

Lemma in_bucket_cons b v vs : in_bucket b (v :: vs) = (if decide (Z.log2 v = b) then 1 else 0) + in_bucket b vs.
Proof. change (v :: vs) with ([v] ++ vs). rewrite in_bucket_app. f_equal. unfold in_bucket. case_decide; [by rewrite filter_cons_True|by rewrite filter_cons_False]. Qed.

Lemma sum_fmap_add {A} (f g : A → Z) l : sum_list_Z ((λ x, f x + g x) <$> l) = sum_list_Z (f <$> l) + sum_list_Z (g <$> l).
Proof. unfold sum_list_Z. induction l as [|x l IH]; [done|]. rewrite !fmap_cons. cbn [foldr]. lia. Qed.

Lemma sum_indicator (x : Z) l : NoDup l → x ∈ l → sum_list_Z ((λ b, if decide (x = b) then 1 else 0) <$> l) = 1.
Proof.
  assert (∀ l, x ∉ l → sum_list_Z ((λ b, if decide (x = b) then 1 else 0) <$> l) = 0) as Hz.
  { clear l. unfold sum_list_Z. induction l as [|y l IH]; intros Hx; [done|]. rewrite fmap_cons. cbn [foldr].
    rewrite IH by set_solver. rewrite decide_False by set_solver. done. }
  unfold sum_list_Z in *. induction l as [|y l IH]; intros Hnd Hx; [set_solver|]. apply NoDup_cons in Hnd as [Hy Hnd].
  rewrite fmap_cons. cbn [foldr]. destruct (decide (x = y)) as [<-|Hne]; [rewrite Hz by done; lia|]. rewrite IH by set_solver. lia.
Qed.

(** Every value is in one of the first 64 buckets. *)
Lemma sum_in_buckets vs : (∀ v, v ∈ vs → is_u64 v) → sum_list_Z ((λ b, in_bucket b vs) <$> seqZ 0 64) = Z.of_nat (length vs).
Proof.
  induction vs as [|v vs IH]; intros Hv; [vm_compute; reflexivity|].
  transitivity (sum_list_Z ((λ b, (if decide (Z.log2 v = b) then 1 else 0) + in_bucket b vs) <$> seqZ 0 64)).
  { f_equal. apply list_fmap_ext. intros _ b _. apply in_bucket_cons. }
  rewrite sum_fmap_add, IH by (intros; apply Hv; by right). rewrite sum_indicator; [simpl; lia|apply NoDup_seqZ|].
  apply elem_of_seqZ. pose proof (log2_bucket v (Hv v ltac:(by left))). lia.
Qed.

Lemma sum_list_Z_nonneg l : Forall (λ n, 0 ≤ n) l → 0 ≤ sum_list_Z l.
Proof. unfold sum_list_Z. induction 1; cbn [foldr]; lia. Qed.

(** The search for the median ends within the first [k] buckets if they hold half of the values. *)
Lemma median_bucket_lt bs half : ∀ k acc b,
  Forall (λ n, 0 ≤ n) bs → 0 ≤ acc → acc + sum_list_Z bs < 2 ^ 64 → half ≤ acc + sum_list_Z (take k bs) → (0 < k ≤ length bs)%nat →
  b ≤ median_bucket bs half acc b < b + Z.of_nat k.
Proof.
  induction bs as [|n bs IH]; intros k acc b Hbs Hacc Hsum Hhalf Hk; [simpl in Hk; lia|].
  apply Forall_cons in Hbs as [Hn Hbs]. cbn [median_bucket]. cbv zeta. pose proof (sum_list_Z_nonneg bs Hbs) as Hnn.
  unfold sum_list_Z in *. cbn [foldr] in Hsum. rewrite u64_small by (unfold is_u64, u64_modulus; lia).
  destruct (Z.leb_spec half (acc + n)); [lia|]. destruct k as [|k]; [lia|]. cbn [firstn foldr] in Hhalf. simpl length in Hk.
  destruct k as [|k]; [simpl in Hhalf; lia|]. specialize (IH (S k) (acc + n) (b + 1) Hbs ltac:(lia) ltac:(lia) ltac:(lia) ltac:(lia)). lia.
Qed.

(** All buckets of values of which there are fewer than [2^32]. *)
Lemma buckets_of_small vs : Z.of_nat (length vs) < 2 ^ 32 → buckets_of vs = (λ b, in_bucket b vs) <$> seqZ 0 LATENCY_NUM_BUCKETS.
Proof.
  intros Hlen. apply list_eq. intros i. rewrite buckets_of_lookup, list_lookup_fmap. destruct (seqZ 0 LATENCY_NUM_BUCKETS !! i) as [b|]; [|done].
  simpl. f_equal. pose proof (in_bucket_le b vs). unfold u32. apply Z.mod_small. unfold in_bucket in *. lia.
Qed.

Lemma median_found vs : (∀ v, v ∈ vs → is_u64 v) → Z.of_nat (length vs) < 2 ^ 32 →
  0 ≤ median_bucket (buckets_of vs) (Z.of_nat (length vs) / 2) 0 0 < 64.
Proof.
  intros Hv Hlen. rewrite buckets_of_small by done.
  assert (sum_list_Z ((λ b, in_bucket b vs) <$> seqZ 0 LATENCY_NUM_BUCKETS) = Z.of_nat (length vs) + in_bucket 64 vs) as Hsum.
  { change (seqZ 0 LATENCY_NUM_BUCKETS) with (seqZ 0 64 ++ [64]). rewrite fmap_app, sum_list_Z_app, sum_in_buckets by done. simpl. lia. }
  apply (median_bucket_lt _ _ 64%nat).
  - apply Forall_fmap, Forall_true. intros b. simpl. unfold in_bucket. lia.
  - lia.
  - rewrite Hsum. pose proof (in_bucket_le 64 vs). lia.
  - rewrite <- fmap_take. change (take 64 (seqZ 0 LATENCY_NUM_BUCKETS)) with (seqZ 0 64). rewrite sum_in_buckets by done.
    assert (Z.of_nat (length vs) / 2 ≤ Z.of_nat (length vs)) by (apply Z.div_le_upper_bound; lia). lia.
  - rewrite length_fmap, length_seqZ. unfold LATENCY_NUM_BUCKETS. lia.
Qed.

Definition pool_count (l : Latency_t) (i : Z) (j : nat) : Z :=
  match distPool l !! j with Some d => default 0 (d_buckets d !! Z.to_nat i) | None => 0 end.

Section dump.
Context (l : Latency_t) (s : list (Z * Z)) (Hrep : represents l s) (Hfits : fits s) (Hlen : Z.of_nat (length s) < 2 ^ 32).

Lemma vals_length t : Z.of_nat (length (vals t s)) < 2 ^ 32.
Proof using Hlen. unfold vals. rewrite length_fmap. pose proof (length_filter (λ p, p.1 = t) s). lia. Qed.

Lemma vals_u64 t v : v ∈ vals t s → is_u64 v.
Proof using Hfits. intros Hv%elem_of_vals. by apply (proj1 Hfits t v). Qed.

Lemma pool_summary t j : dists l !! t = Some j → distPool l !! j = Some (summary t (vals t s)) ∧ vals t s ≠ [].
Proof using Hrep.
  intros Hj. destruct Hrep as [Hwf Hby]. destruct (by_type_dists _ _ _ Hwf Hj) as (d & Hd & Hpool & _).
  rewrite Hby in Hd. case_decide; [done|]. by simplify_eq.
Qed.

Lemma pool_count_bucket t j i : dists l !! t = Some j → 0 ≤ i < LATENCY_NUM_BUCKETS → pool_count l i j = in_bucket i (vals t s).
Proof using Hrep Hlen.
  intros Hj Hi. unfold pool_count. destruct (pool_summary t j Hj) as [-> _]. simpl. rewrite buckets_of_small by apply vals_length.
  rewrite list_lookup_fmap, lookup_seqZ_lt by lia. simpl. f_equal. lia.
Qed.

Lemma pool_count_range i j : (j < distPoolNext l)%nat → 0 ≤ i < LATENCY_NUM_BUCKETS → 0 ≤ pool_count l i j < 2 ^ 32.
Proof using Hrep Hlen.
  intros Hj Hi. destruct (wf_used _ (proj1 Hrep) j Hj) as [t Ht]. rewrite (pool_count_bucket t j i Ht Hi).
  pose proof (in_bucket_le i (vals t s)). pose proof (vals_length t). unfold in_bucket in *. lia.
Qed.

Lemma pool_count_last j : (j < distPoolNext l)%nat → pool_count l 64 j = 0.
Proof using Hrep Hlen Hfits.
  intros Hj. destruct (wf_used _ (proj1 Hrep) j Hj) as [t Ht]. destruct (pool_summary t j Ht) as [Hp Hne].
  destruct (summary_summable t (vals t s) Hne (vals_u64 t) (vals_length t)) as (_ & H64 & _).
  unfold pool_count. rewrite Hp. change (Z.to_nat 64) with 64%nat. by rewrite H64.
Qed.

Lemma bucket_at_run j i : (j < distPoolNext l)%nat → 0 ≤ i < LATENCY_NUM_BUCKETS → bucket_at l j i l = Ok (pool_count l i j, l).
Proof using Hrep.
  intros Hj Hi. destruct (wf_used _ (proj1 Hrep) j Hj) as [t Ht]. destruct (wf_dist _ (proj1 Hrep) _ _ Ht) as (_ & _ & d & Hd & _ & Hb).
  unfold bucket_at, pool_count. rewrite Hd. rewrite (bind_run _ _ l d l) by done.
  destruct (lookup_lt_is_Some_2 (d_buckets d) (Z.to_nat i)) as [n ->]; [lia|]. done.
Qed.

(** Sums that stay below [2^40] do not wrap around. *)
Lemma pool_total_run i js : 0 ≤ i < LATENCY_NUM_BUCKETS → (∀ j, j ∈ js → (j < distPoolNext l)%nat) → ∀ total,
  0 ≤ total → total + sum_list_Z (pool_count l i <$> js) < 2 ^ 40 →
  pool_total l i js total l = Ok (total + sum_list_Z (pool_count l i <$> js), l).
Proof using Hrep Hlen.
  intros Hi. unfold sum_list_Z. induction js as [|j js IH]; intros Hjs total Ht Hsum; cbn [pool_total].
  { by rewrite Z.add_0_r. }
  assert (j < distPoolNext l)%nat as Hj by (apply Hjs; by left). pose proof (pool_count_range i j Hj Hi) as Hc.
  assert (0 ≤ foldr Z.add 0 (pool_count l i <$> js)) as Hnn.
  { apply sum_list_Z_nonneg, Forall_fmap, Forall_forall. intros j' Hj'. simpl. apply pool_count_range; [apply Hjs; by right|done]. }
  rewrite fmap_cons in *. cbn [foldr] in *. rewrite (bind_run _ _ _ _ _ (bucket_at_run j i Hj Hi)).
  rewrite u64_small by (unfold is_u64, u64_modulus; lia). rewrite IH; [do 2 f_equal; lia|intros; apply Hjs; by right|lia|lia].
Qed.

Definition row_total (i : Z) : Z := sum_list_Z (pool_count l i <$> seq 0 (distPoolNext l)).

Lemma row_total_range i : 0 ≤ i < LATENCY_NUM_BUCKETS → 0 ≤ row_total i ≤ 5 * 2 ^ 32.
Proof using Hrep Hlen.
  intros Hi. assert (∀ js, (∀ j, j ∈ js → (j < distPoolNext l)%nat) →
    0 ≤ sum_list_Z (pool_count l i <$> js) ≤ Z.of_nat (length js) * 2 ^ 32) as Hb.
  { unfold sum_list_Z. induction js as [|j js IH]; intros Hjs; [done|]. rewrite fmap_cons. cbn [foldr].
    pose proof (pool_count_range i j (Hjs j ltac:(by left)) Hi). specialize (IH ltac:(intros; apply Hjs; by right)). simpl length. lia. }
  specialize (Hb (seq 0 (distPoolNext l)) ltac:(intros j Hj%elem_of_seq; lia)). rewrite length_seq in Hb. unfold row_total.
  pose proof (wf_le _ (proj1 Hrep)). unfold LATENCY_DIST_POOL_SIZE in *. lia.
Qed.

Lemma largest_count_run is_ : (∀ i, i ∈ is_ → 0 ≤ i < LATENCY_NUM_BUCKETS) → ∀ largest,
  0 < largest < 2 ^ 40 → ∃ L, largest_count l is_ largest l = Ok (L, l) ∧ largest ≤ L < 2 ^ 40 ∧ ∀ i, i ∈ is_ → row_total i ≤ L.
Proof using Hrep Hlen.
  induction is_ as [|i is_ IH]; intros His largest Hl; cbn [largest_count].
  { exists largest. split_and!; [done|lia|lia|]. intros i Hi. by apply not_elem_of_nil in Hi. }
  assert (0 ≤ i < LATENCY_NUM_BUCKETS) as Hi by (apply His; by left). pose proof (row_total_range i Hi) as Hr.
  erewrite bind_run; [|apply pool_total_run; [done|intros j Hj%elem_of_seq; lia|lia|fold (row_total i); lia]]. fold (row_total i). rewrite Z.add_0_l.
  destruct (IH ltac:(intros; apply His; by right) (if largest <? row_total i then row_total i else largest)) as (L & Hrun & HL & Hall).
  { destruct (Z.ltb_spec largest (row_total i)); lia. }
  exists L. split_and!; [done|destruct (Z.ltb_spec largest (row_total i)); lia|lia|]. intros i' Hi'. apply elem_of_cons in Hi' as [->|Hi']; [|auto].
  destruct (Z.ltb_spec largest (row_total i)); lia.
Qed.

(** The types that are used name the distributions of the pool. *)
Lemma used_types_pool : (λ t, default O (dists l !! t)) <$> used_types l ≡ₚ seq 0 (distPoolNext l).
Proof using Hrep.
  pose proof (proj1 Hrep) as Hwf. apply NoDup_Permutation; [|apply NoDup_seq|].
  - apply NoDup_fmap_2_strong; [|apply NoDup_filter, NoDup_seqZ]. intros t t' [[j Hj] _]%list_elem_of_filter [[j' Hj'] _]%list_elem_of_filter.
    rewrite Hj, Hj'. simpl. intros ->. by eapply wf_inj.
  - intros j. rewrite list_elem_of_fmap, elem_of_seq. split.
    + intros (t & -> & [[j' Hj'] _]%list_elem_of_filter). rewrite Hj'. simpl. destruct (wf_dist _ Hwf _ _ Hj') as [? _]. lia.
    + intros Hj. destruct (wf_used _ Hwf j) as [t Ht]; [lia|]. exists t. rewrite Ht. split; [done|]. apply list_elem_of_filter.
      split; [by eexists|]. destruct (wf_dist _ Hwf _ _ Ht) as (_ & ? & _). apply elem_of_seqZ. lia.
Qed.

Lemma fill_bar_run n t : ∀ bar, Z.of_nat (length bar + n) ≤ LATENCY_HISTOGRAM_WIDTH → fill_bar n t bar l = Ok (bar ++ repeat t n, l).
Proof.
  induction n as [|n IH]; intros bar Hn; cbn [fill_bar]; [by rewrite app_nil_r|].
  rewrite (proj2 (Z.leb_le _ _)) by lia. rewrite IH by (rewrite length_app; simpl; lia). by rewrite <- app_assoc.
Qed.

Lemma draw_bar_run L i ts : 0 ≤ i < LATENCY_NUM_BUCKETS → 0 < L < 2 ^ 40 → (∀ t, t ∈ ts → is_Some (dists l !! t)) → ∀ total bar,
  0 ≤ total → Z.of_nat (length bar) ≤ LATENCY_HISTOGRAM_WIDTH →
  let all := total + sum_list_Z ((λ t, pool_count l i (default O (dists l !! t))) <$> ts) in all ≤ L →
  ∃ bar', draw_bar l L i ts total bar l = Ok ((all, bar'), l) ∧ Z.of_nat (length bar') ≤ LATENCY_HISTOGRAM_WIDTH.
Proof using Hrep Hlen.
  intros Hi HL. unfold sum_list_Z. induction ts as [|t ts IH]; intros Hts total bar Ht Hb; cbv zeta; cbn [draw_bar].
  { intros _. exists bar. rewrite Z.add_0_r. done. }
  destruct (Hts t ltac:(by left)) as [j Hj]. destruct (wf_dist _ (proj1 Hrep) _ _ Hj) as [Hlt _].
  rewrite fmap_cons. cbn [foldr]. rewrite Hj. cbn [from_option id]. pose proof (pool_count_range i j Hlt Hi) as Hc.
  assert (0 ≤ foldr Z.add 0 ((λ t, pool_count l i (default O (dists l !! t))) <$> ts)) as Hnn.
  { apply sum_list_Z_nonneg, Forall_fmap, Forall_forall. intros t' Ht'. simpl. destruct (Hts t' ltac:(by right)) as [j' Hj']. rewrite Hj'.
    apply pool_count_range; [apply (wf_dist _ (proj1 Hrep) _ _ Hj')|done]. }
  intros Hall. rewrite (bind_run _ _ l j l) by done.
  rewrite (bind_run _ _ _ _ _ (bucket_at_run j i Hlt Hi)). rewrite u64_small by (unfold is_u64, u64_modulus; lia). set (total1 := total + pool_count l i j) in *.
  assert (to_int (u64 (total1 * LATENCY_HISTOGRAM_WIDTH) / L) ≤ LATENCY_HISTOGRAM_WIDTH) as Hgoal.
  { unfold LATENCY_HISTOGRAM_WIDTH. rewrite u64_small by (unfold is_u64, u64_modulus; lia).
    assert (0 ≤ total1 * 50 / L ≤ 50) by (split; [apply Z.div_pos; lia|apply Z.div_le_upper_bound; lia]). rewrite to_int_small; lia. }
  erewrite bind_run; [|apply fill_bar_run; lia].
  destruct (IH ltac:(intros; apply Hts; by right) total1 (bar ++ repeat t (Z.to_nat (to_int (u64 (total1 * LATENCY_HISTOGRAM_WIDTH) / L) - Z.of_nat (length bar)))))
    as (bar' & Hrun & Hbar'); [lia|rewrite length_app, repeat_length; lia|lia|].
  exists bar'. split; [|done]. rewrite Hrun. do 3 f_equal. unfold total1. lia.
Qed.

Lemma draw_row_run L i : 0 ≤ i < LATENCY_NUM_BUCKETS → 0 < L < 2 ^ 40 → row_total i ≤ L →
  ∃ bar, draw_bar l L i (used_types l) 0 [] l = Ok ((row_total i, bar), l) ∧ Z.of_nat (length bar) ≤ LATENCY_HISTOGRAM_WIDTH.
Proof using Hrep Hlen.
  intros Hi HL Hrow.
  assert (row_total i = 0 + sum_list_Z ((λ t, pool_count l i (default O (dists l !! t))) <$> used_types l)) as Heq.
  { unfold row_total. rewrite <- used_types_pool, <- list_fmap_compose. done. }
  rewrite Heq. apply draw_bar_run; [done|done| |done|done|lia]. by intros t [? _]%list_elem_of_filter.
Qed.

(** The bars fit, and their rows are those of the buckets that are not empty. *)
Lemma histogram_run L is_ : 0 < L < 2 ^ 40 → (∀ i, i ∈ is_ → 0 ≤ i < LATENCY_NUM_BUCKETS ∧ row_total i ≤ L) → ∀ lastPrinted,
  ∃ out, histogram l L is_ lastPrinted l = Ok (out, l) ∧
    ∀ b total bar, Bar b total bar ∈ out → b ∈ is_ ∧ total = row_total b ∧ Z.of_nat (length bar) ≤ LATENCY_HISTOGRAM_WIDTH.
Proof using Hrep Hlen Hfits.
  intros HL. induction is_ as [|i is_ IH]; intros His lp; cbn [histogram].
  { exists []. split; [done|]. intros b total bar Hin. by apply not_elem_of_nil in Hin. }
  destruct (His i ltac:(by left)) as [Hi Hrow]. destruct (draw_row_run L i Hi HL Hrow) as (bar & Hdraw & Hbar).
  rewrite (bind_run _ _ _ _ _ Hdraw). destruct (Z.eqb_spec (row_total i) 0) as [Hz|Hnz].
  { destruct (IH ltac:(intros; apply His; by right) lp) as (out & Hrun & Hout). exists out. split; [done|]. intros b total bar' Hin.
    destruct (Hout _ _ _ Hin) as (? & ? & ?). split_and!; [by right|done|done]. }
  rewrite (proj2 (Z.ltb_ge LATENCY_HISTOGRAM_WIDTH _)) by done.
  destruct (Z.leb_spec 64 i) as [H64|H64].
  { exfalso. apply Hnz. unfold LATENCY_NUM_BUCKETS in Hi. assert (i = 64) as -> by lia. unfold row_total.
    assert (∀ js, (∀ j, j ∈ js → (j < distPoolNext l)%nat) → sum_list_Z (pool_count l 64 <$> js) = 0) as Hzero.
    { unfold sum_list_Z. induction js as [|j js IHj]; intros Hjs; [done|]. rewrite fmap_cons. cbn [foldr].
      rewrite IHj by (intros; apply Hjs; by right). rewrite pool_count_last; [done|]. apply Hjs. by left. }
    apply Hzero. intros j Hj%elem_of_seq. lia. }
  destruct (IH ltac:(intros; apply His; by right) i) as (out & Hrun & Hout). rewrite (bind_run _ _ _ _ _ Hrun).
  eexists. split; [reflexivity|]. intros b total bar' Hin. apply elem_of_app in Hin as [Hin|Hin].
  { destruct (lp <? i - 3).
    - apply list_elem_of_singleton in Hin. discriminate.
    - apply list_elem_of_fmap in Hin as (? & ? & _). discriminate. }
  apply elem_of_cons in Hin as [Heq|Hin]; [injection Heq as -> -> ->; split_and!; [by left|done|done]|].
  destruct (Hout _ _ _ Hin) as (? & ? & ?). split_and!; [by right|done|done].
Qed.

Lemma collect_lines_run ts : (∀ t, t ∈ ts → 0 ≤ t < LATENCY_MAX_DIST) →
  ∃ out, collect (dump_line l) ts l = Ok (out, l) ∧ ∀ b total bar, Bar b total bar ∉ out.
Proof using Hrep Hlen Hfits.
  induction ts as [|t ts IH]; intros Hts; cbn [collect]; [exists []; split; [done|]; intros b total bar Hin; by apply not_elem_of_nil in Hin|].
  destruct IH as (out & Hrun & Hout); [intros; apply Hts; by right|].
  assert (∃ line, dump_line l t l = Ok (line, l) ∧ ∀ b total bar, Bar b total bar ∉ line) as (line & Hline & Hno).
  { unfold dump_line. destruct (dists l !! t) as [j|] eqn:Hj.
    2: { exists []. split; [done|]. intros b total bar Hin. by apply not_elem_of_nil in Hin. }
    destruct (pool_summary t j Hj) as [Hp Hne]. rewrite (bind_run _ _ l (summary t (vals t s)) l) by (by rewrite Hp). cbn [d_buckets d_count summary].
    pose proof (vals_length t) as Hl. rewrite u64_small by (unfold is_u64, u64_modulus; lia).
    pose proof (median_found (vals t s) (vals_u64 t) Hl) as Hm.
    rewrite (proj2 (Z.eqb_neq _ 0)) by (destruct (vals t s); [done|simpl; lia]). rewrite (proj2 (Z.leb_gt 64 _)) by lia.
    eexists. split; [reflexivity|]. intros b total bar Hin%list_elem_of_singleton. discriminate. }
  rewrite (bind_run _ _ _ _ _ Hline), (bind_run _ _ _ _ _ Hrun). eexists. split; [reflexivity|].
  intros b total bar [Hin|Hin]%elem_of_app; [by eapply Hno|by eapply Hout].
Qed.
End dump.

(** Printing is safe.  For a latency with the statistics of any samples, fewer than [2^32],
    [Latency_Dump] returns: no average is divided by zero, a median is found in the first 64
    buckets, and the bars of the histogram stay within the array of [LATENCY_HISTOGRAM_WIDTH]
    characters and the terminating zero. *)
Theorem latency_dump_safe (l : Latency_t) (s : list (Z * Z)) :
  represents l s → fits s → Z.of_nat (length s) < 2 ^ 32 →
  ∃ out, Latency_Dump l = Ok (out, l) ∧
    ∀ b total bar, Bar b total bar ∈ out → 0 ≤ b < LATENCY_NUM_BUCKETS ∧ Z.of_nat (length bar) ≤ LATENCY_HISTOGRAM_WIDTH.
Proof.
  intros Hrep Hfits Hlen. unfold Latency_Dump. rewrite (bind_run _ _ l l l) by done.
  destruct (Nat.eqb_spec (distPoolNext l) 0); [exists []; split; [done|]; intros b total bar Hin; by apply not_elem_of_nil in Hin|].
  destruct (collect_lines_run l s Hrep Hfits Hlen (seqZ 0 LATENCY_MAX_DIST)) as (lines & Hlines & Hno); [intros t Ht%elem_of_seqZ; lia|].
  rewrite (bind_run _ _ _ _ _ Hlines).
  destruct (largest_count_run l s Hrep Hlen (seqZ 0 LATENCY_NUM_BUCKETS)) with (largest := LATENCY_HISTOGRAM_WIDTH) as (L & HL & HLr & Hrows);
    [intros i Hi%elem_of_seqZ; lia|done|].
  rewrite (bind_run _ _ _ _ _ HL). unfold LATENCY_HISTOGRAM_WIDTH in HLr.
  destruct (histogram_run l s Hrep Hfits Hlen L (seqZ 0 LATENCY_NUM_BUCKETS)) with (lastPrinted := LATENCY_NUM_BUCKETS) as (bars & Hbars & Hin); [lia| |].
  { intros i Hi. split; [apply elem_of_seqZ in Hi; lia|by apply Hrows]. }
  rewrite (bind_run _ _ _ _ _ Hbars). eexists. split; [reflexivity|].
  intros b total bar [Hb|Hb]%elem_of_app; [by apply Hno in Hb|]. destruct (Hin _ _ _ Hb) as (Hbi & _ & Hw). apply elem_of_seqZ in Hbi. split; [lia|done].
Qed.

(** ** Concrete instances *)

Module LatencyDemo.
#[export] Instance demo_system : StatsSystem := {| clock_gettime n := Some (MkTimespec (Z.of_nat n / 3) (100 * Z.of_nat n)); can_write := true |}.

Definition feed (name : string) (s : list (Z * Z)) : Latency_t :=
  match for_each s (λ p, LatencyAdd p.1 p.2) (LatencyInit name) with Ok (_, l) => l | _ => LatencyInit name end.

(** Two latencies, with samples of the types of [=] and of the letter [r]. *)
Definition demo_one : list (Z * Z) := [(61, 100); (114, 7)].
Definition demo_two : list (Z * Z) := [(61, 3); (61, 5000)].

(** A measurement within another one. *)
Definition demo_prog : prog := Measure 1 10 61 (Measure 2 11 61 Finish Finish) (Measure 1 10 61 Finish Finish).
End LatencyDemo.
Import LatencyDemo.

Lemma feed_represents s : ∀ done l, represents l done → fits (done ++ s) →
  ∃ l', for_each s (λ p, LatencyAdd p.1 p.2) l = Ok (tt, l') ∧ represents l' (done ++ s).
Proof.
  induction s as [|[t v] s IH]; intros done l Hl Hf; cbn [for_each]; [exists l; by rewrite app_nil_r|].
  destruct (LatencyAdd_represents l done t v Hl) as (l1 & Hrun & Hl1); [apply (fits_prefix _ s); by rewrite <- app_assoc|].
  rewrite (bind_run _ _ _ _ _ Hrun). destruct (IH (done ++ [(t, v)]) l1 Hl1) as (l2 & Hrun2 & Hl2); [by rewrite <- app_assoc|].
  exists l2. rewrite <- app_assoc in Hl2. done.
Qed.

(** A decision procedure for [fits]. *)
Lemma fits_test s :
  forallb (λ p : Z * Z, (0 <=? p.1) && (p.1 <? LATENCY_MAX_DIST) && (0 <=? p.2) && (p.2 <? u64_modulus)) s = true →
  (size (list_to_set s.*1 : gset Z) ≤ LATENCY_DIST_POOL_SIZE)%nat → fits s.
Proof.
  intros Hall Hsize. split; [|done]. intros t v Hin. rewrite forallb_forall in Hall. specialize (Hall (t, v) (proj1 (list_elem_of_In _ _) Hin)).
  unfold is_u64. simpl in Hall. lia.
Qed.

Lemma feed_ok name s : fits s → represents (feed name s) s.
Proof. intros Hf. destruct (feed_represents s [] (LatencyInit name) (represents_new name) Hf) as (l & Hrun & Hl). unfold feed. by rewrite Hrun. Qed.

Ltac fits_demo := apply fits_test; [vm_compute; reflexivity|vm_compute; lia].

Lemma latency_sum_merges_witness :
  ∃ d', Latency_Sum (feed "b" demo_two) (feed "a" demo_one) = Ok (tt, d') ∧ represents d' (demo_one ++ demo_two).
Proof.
  apply (latency_sum_merges (feed "a" demo_one) (feed "b" demo_two) demo_one demo_two).
  - apply feed_ok. fits_demo.
  - apply feed_ok. fits_demo.
  - fits_demo.
  - vm_compute. reflexivity.
Defined.

Lemma latency_message_roundtrip_witness :
  ∃ l', Latency_TryGet (Latency_Put (feed "a" demo_one)) (LatencyInit "") = Ok (true, l') ∧ represents l' demo_one.
Proof.
  destruct (latency_message_roundtrip (feed "a" demo_one) (LatencyInit "") demo_one) as (l' & Hrun & Hr & _).
  - apply feed_ok. fits_demo.
  - exists l'. split; [exact Hrun|exact Hr].
Defined.

Lemma latency_dump_safe_witness : ∃ out, Latency_Dump (feed "a" demo_one) = Ok (out, feed "a" demo_one).
Proof.
  destruct (latency_dump_safe (feed "a" demo_one) demo_one) as (out & Hrun & _).
  - apply feed_ok. fits_demo.
  - fits_demo.
  - vm_compute. reflexivity.
  - exists out. exact Hrun.
Defined.

Lemma demo_fits a : fits (of_latency a (samples demo_prog 0).1).
Proof.
  assert (fits (of_latency 1 (samples demo_prog 0).1) ∧ fits (of_latency 2 (samples demo_prog 0).1)) as [H1 H2] by (split; fits_demo).
  destruct (decide (a = 1)) as [->|Hn1]; [done|]. destruct (decide (a = 2)) as [->|Hn2]; [done|].
  replace (of_latency a (samples demo_prog 0).1) with (@nil (Z * Z)); [fits_demo|].
  unfold of_latency. cbn [samples demo_prog fst app]. rewrite !filter_cons_False by (simpl; lia). done.
Qed.

Lemma latency_records_durations_witness :
  ∃ s l ms, (_ ← for_each [(1, "a"); (2, "b")] (λ x, Latency_Init x.1 x.2); run_prog demo_prog) Stats_new = Ok (tt, s) ∧
    latencies s !! 1 = Some l ∧ represents l [(61, 1000000400); (61, 100)] ∧
    written s = Some ms ∧ file_holds [(2, "b"); (1, "a")] (Some ms) (flushes demo_prog 0 [] (0, None)).2.
Proof.
  destruct (latency_records_durations) with (names := [(1, "a"); (2, "b")]) (p := demo_prog) as (s & Hrun & Hall & Hfile).
  - intros n. eexists. reflexivity.
  - reflexivity.
  - apply NoDup_cons. split; [set_solver|]. apply NoDup_singleton.
  - cbn [well_nested demo_prog]. repeat split; set_solver.
  - cbn [measured demo_prog]. set_solver.
  - exact demo_fits.
  - destruct (Hall 1) as (l & Hl & Hr & _); [left|]. exists s, l.
    destruct (written s) as [ms|]; [|by destruct Hfile]. exists ms.
    split_and!; [exact Hrun|exact Hl| |reflexivity|exact Hfile].
    assert (of_latency 1 (samples demo_prog 0).1 = [(61, 1000000400); (61, 100)]) as <- by (vm_compute; reflexivity). exact Hr.
Defined.
