(* ===== verification/TransportCommon.v ===== *)
(** What the transports share: the interface [Transport] of [lib/transport.h] and the class
    template [TransportCommon] of [lib/transportcommon.h].

    Pointers to receivers are numbers, 0 is null.  A message is the name of its type and its
    serialization.  The canonical copy of a configuration is never freed while the transport
    lives, so the pointer to it is its position in [canonicalConfigs]; the order in which the
    [std::unordered_map] is visited is arbitrary ([HashOrder]).  The state of a derived class
    extends that of [TransportCommon] ([Extends]); its virtual methods are the class [Derived],
    and what the base class relies on is [DerivedLaws].

    A callback of the program is a tree of the calls it makes ([prog]): every call of the
    interface is a node, with what follows for each value it may return. *)

From S2P Require Import ConfigFile.
From S2P Require Import Prelude.
From Stdlib Require Import Ascii.

Definition message : Type := string * string.

#[global] Instance ReplicaAddress_countable : Countable ReplicaAddress.
Proof.
  refine (inj_countable' (λ a, (host a, port a)) (λ p, MkReplicaAddress p.1 p.2) _). by intros [].
Defined.

#[global] Instance Config_countable : Countable Config.
Proof.
  refine (inj_countable' (λ c, (c_n c, c_f c, replicas c, multicastAddress c))
    (λ p, MkConfig p.1.1.1 p.1.1.2 p.1.2 p.2) _). by intros [].
Defined.

(** ** The interface *)

Class Transport (S ADDR C : Type) := {
  Register : Z → Config → Z → M S unit;
  SendMessage : Z → ADDR → message → M S bool;
  SendMessageToReplica : Z → Z → message → M S bool;
  SendMessageToAll : Z → message → M S bool;
  Timer : Z → C → M S Z;
  CancelTimer : Z → M S bool;
  CancelAllTimers : M S unit
}.

(** Callbacks: [Access] reads the memory of the program and changes it; a callback can end the
    process ([StopPanic]) or do something undefined. *)
Inductive prog (ADDR C A : Type) :=
| Return
| Access (f : A → A) (k : A → prog ADDR C A)
| CallSend (src : Z) (dst : ADDR) (m : message) (k : bool → prog ADDR C A)
| CallSendToReplica (src idx : Z) (m : message) (k : bool → prog ADDR C A)
| CallSendToAll (src : Z) (m : message) (k : bool → prog ADDR C A)
| CallTimer (ms : Z) (cb : C) (k : Z → prog ADDR C A)
| CallCancelTimer (id : Z) (k : bool → prog ADDR C A)
| CallCancelAllTimers (k : prog ADDR C A)
| StopPanic
| StopUndefined.
Arguments Return {_ _ _}.
Arguments Access {_ _ _} _ _.
Arguments CallSend {_ _ _} _ _ _ _.
Arguments CallSendToReplica {_ _ _} _ _ _ _.
Arguments CallSendToAll {_ _ _} _ _ _.
Arguments CallTimer {_ _ _} _ _ _.
Arguments CallCancelTimer {_ _ _} _ _.
Arguments CallCancelAllTimers {_ _ _} _.
Arguments StopPanic {_ _ _}.
Arguments StopUndefined {_ _ _}.

(** The program: what it does with a message ([ReceiveMessage] of a receiver, given the address of
    the sender, the type and the data) and when a timer expires. *)
Class Application (ADDR C A : Type) := {
  ReceiveMessage : Z → ADDR → string → string → prog ADDR C A;
  callback : C → prog ADDR C A
}.

Section exec.
Context {S ADDR C A : Type} `{!Transport S ADDR C} (access : (A → A) → M S A).

Fixpoint exec (p : prog ADDR C A) : M S unit :=
  match p with
  | Return => mret tt
  | Access f k => a ← access f; exec (k a)
  | CallSend src dst m k => b ← SendMessage src dst m; exec (k b)
  | CallSendToReplica src idx m k => b ← SendMessageToReplica src idx m; exec (k b)
  | CallSendToAll src m k => b ← SendMessageToAll src m; exec (k b)
  | CallTimer ms cb k => id ← Timer ms cb; exec (k id)
  | CallCancelTimer id k => b ← CancelTimer id; exec (k b)
  | CallCancelAllTimers k => _ ← CancelAllTimers; exec k
  | StopPanic => panic
  | StopUndefined => undefined
  end.
End exec.

(** ** The base class *)

Record TransportCommon (ADDR : Type) := MkTransportCommon {
  canonicalConfigs : list Config;
  configurations : gmap Z nat;
  replicaAddresses : gmap nat (gmap Z ADDR);
  replicaReceivers : gmap nat (gmap Z Z);
  multicastAddresses : gmap nat ADDR;
  replicaAddressesInitialized : bool
}.
Arguments MkTransportCommon {_} _ _ _ _ _ _.
Arguments canonicalConfigs {_} _.
Arguments configurations {_} _.
Arguments replicaAddresses {_} _.
Arguments replicaReceivers {_} _.
Arguments multicastAddresses {_} _.
Arguments replicaAddressesInitialized {_} _.

#[global] Instance TransportCommon_eta ADDR : Eta (TransportCommon ADDR) := λ t,
  MkTransportCommon (canonicalConfigs t) (configurations t) (replicaAddresses t) (replicaReceivers t)
    (multicastAddresses t) (replicaAddressesInitialized t).

Definition TransportCommon_new {ADDR} : TransportCommon ADDR := MkTransportCommon [] ∅ ∅ ∅ ∅ false.

(** [std::map::insert]: an entry that is there stays. *)
Definition insert_new `{Countable K} {V} (k : K) (v : V) (m : gmap K V) : gmap K V :=
  match m !! k with Some _ => m | None => <[k := v]> m end.

(** The position of the canonical copy of a configuration. *)
Fixpoint position_of (c : Config) (l : list Config) : option nat :=
  match l with
  | [] => None
  | c' :: l => if decide (c' = c) then Some 0%nat else S <$> position_of c l
  end.

(** [canonicalConfigs] as the map from configurations to the pointers of their copies. *)
Definition canonical_map (l : list Config) : gmap Config nat :=
  list_to_map (zip l (seq 0 (length l))).

(** A derived class: its state holds the base class. *)
Class Extends (ADDR S : Type) := {
  base : S → TransportCommon ADDR;
  with_base : (TransportCommon ADDR → TransportCommon ADDR) → S → S
}.

Class Derived (ADDR S : Type) := {
  derived_extends :: Extends ADDR S;
  (** [GetAddress()] of a receiver. *)
  GetAddress : Z → M S ADDR;
  SendMessageInternal : Z → ADDR → message → bool → M S bool;
  LookupAddress : Config → Z → M S ADDR;
  LookupMulticastAddress : nat → M S (option ADDR)
}.

Section common.
Context `{HO : HashOrder} {ADDR S : Type} `{!EqDecision ADDR} `{D : !Derived ADDR S}.
Abbreviation MS := (M S).

Definition modify_base (f : TransportCommon ADDR → TransportCommon ADDR) : MS unit := modify (with_base f).

Definition SendMessage_common (src : Z) (dst : ADDR) (m : message) : MS bool :=
  SendMessageInternal src dst m false.

(** One round of the loop over [canonicalConfigs]. *)
Definition lookup_config (kv : Config * nat) : MS unit :=
  let '(c, cfg) := kv in
  _ ← for_each (seqZ 0 (c_n c)) (λ i,
    addr ← LookupAddress c i;
    modify_base (λ t, t <| replicaAddresses ::= λ m, <[cfg := insert_new i addr (default ∅ (m !! cfg))]> m |>));
  match multicast c with
  | None => mret tt
  | Some _ =>
      o ← LookupMulticastAddress cfg;
      match o with
      | None => mret tt
      | Some addr => modify_base (λ t, t <| multicastAddresses ::= insert_new cfg addr |>)
      end
  end.

Definition LookupAddresses : MS unit :=
  _ ← modify_base (λ t, t <| replicaAddresses := ∅ |> <| multicastAddresses := ∅ |>);
  s ← get_st;
  _ ← for_each (hash_order (canonical_map (canonicalConfigs (base s)))) lookup_config;
  modify_base (λ t, t <| replicaAddressesInitialized := true |>).

(** [configurations[src]], and the addresses looked up if they have to be.  For a source that
    never registered the pointer is null; what follows in either function, looking for the null
    pointer's addresses or reading the source's own address, is undefined. *)
Definition config_of (src : Z) : MS nat :=
  s ← get_st;
  match configurations (base s) !! src with
  | None => undefined
  | Some cfg =>
      _ ← when (negb (replicaAddressesInitialized (base s))) LookupAddresses;
      mret cfg
  end.

Definition addresses_of (cfg : nat) (t : TransportCommon ADDR) : gmap Z ADDR := default ∅ (replicaAddresses t !! cfg).

(** An index without an address dereferences the end of the table. *)
Definition SendMessageToReplica_common (src replicaIdx : Z) (m : message) : MS bool :=
  cfg ← config_of src;
  s ← get_st;
  match addresses_of cfg (base s) !! replicaIdx with
  | None => undefined
  | Some addr => SendMessageInternal src addr m false
  end.

Fixpoint send_to_each (src : Z) (srcAddr : ADDR) (m : message) (l : list (Z * ADDR)) : MS bool :=
  match l with
  | [] => mret true
  | (_, addr) :: l =>
      if decide (srcAddr = addr) then send_to_each src srcAddr m l
      else
        b ← SendMessageInternal src addr m false;
        if (b : bool) then send_to_each src srcAddr m l else mret false
  end.

Definition SendMessageToAll_common (src : Z) (m : message) : MS bool :=
  cfg ← config_of src;
  s ← get_st;
  match multicastAddresses (base s) !! cfg with
  | Some addr => SendMessageInternal src addr m true
  | None =>
      srcAddr ← GetAddress src;
      send_to_each src srcAddr m (by_key (addresses_of cfg (base s)))
  end.

(** The hash of a configuration reads the addresses of [n] replicas. *)
Definition RegisterConfiguration (receiver : Z) (config : Config) (replicaIdx : Z) : MS nat :=
  if c_n config >? Z.of_nat (length (replicas config)) then undefined
  else
    s ← get_st;
    let configs := canonicalConfigs (base s) in
    canonical ← match position_of config configs with
                | Some p => mret p
                | None =>
                    _ ← modify_base (λ t, t <| canonicalConfigs ::= λ l, l ++ [config] |>);
                    mret (length configs)
                end;
    _ ← modify_base (λ t, t <| configurations ::= insert_new receiver canonical |>);
    _ ← when (negb (replicaIdx =? -1)) (modify_base (λ t, t <| replicaReceivers ::= λ m,
          <[canonical := insert_new replicaIdx receiver (default ∅ (m !! canonical))]> m |>));
    _ ← modify_base (λ t, t <| replicaAddressesInitialized := false |>);
    mret canonical.
End common.

(** ** What the base class relies on *)

Definition same_tables {ADDR} (t t' : TransportCommon ADDR) : Prop :=
  canonicalConfigs t' = canonicalConfigs t ∧ configurations t' = configurations t ∧
  replicaReceivers t' = replicaReceivers t.

(** A lookup changes nothing and only depends on the tables of registered receivers; there is no
    multicast address (as in the simulated transport and the one for the command line). *)
Class DerivedLaws {ADDR S : Type} (D : Derived ADDR S) := {
  base_with : ∀ f s, base (with_base f s) = f (base s);
  with_base_comp : ∀ f g s, with_base f (with_base g s) = with_base (λ t, f (g t)) s;
  with_base_id : ∀ s, with_base (λ t, t) s = s;
  with_base_ext : ∀ f g s, f (base s) = g (base s) → with_base f s = with_base g s;
  derived_wf : S → Prop;
  resolve : S → Config → Z → res ADDR;
  derived_wf_with : ∀ f s, (∀ t, same_tables t (f t)) → derived_wf s → derived_wf (with_base f s);
  resolve_with : ∀ f s c i, (∀ t, same_tables t (f t)) → resolve (with_base f s) c i = resolve s c i;
  LookupAddress_run : ∀ c i s, derived_wf s → LookupAddress c i s = lift_res (resolve s c i) s;
  LookupMulticastAddress_run : ∀ cfg s, LookupMulticastAddress cfg s = Ok (None, s)
}.

Lemma insert_new_lookup_eq `{Countable K} {V} (k : K) (v : V) m : insert_new k v m !! k = Some (default v (m !! k)).
Proof. unfold insert_new. destruct (m !! k) eqn:E; [done|]. by rewrite lookup_insert_eq. Qed.

Lemma insert_new_lookup_ne `{Countable K} {V} (k k' : K) (v : V) m : k ≠ k' → insert_new k v m !! k' = m !! k'.
Proof. intros. unfold insert_new. destruct (m !! k); [done|]. by rewrite lookup_insert_ne. Qed.

Lemma position_of_Some c l p : position_of c l = Some p → l !! p = Some c.
Proof.
  revert p. induction l as [|c' l IH]; intros p; simpl; [done|].
  case_decide; [naive_solver|]. intros (q & Hq & ->)%fmap_Some. simpl. auto.
Qed.

Lemma position_of_None c l : position_of c l = None ↔ c ∉ l.
Proof.
  induction l as [|c' l IH]; simpl; [set_solver|].
  case_decide; [set_solver|]. rewrite fmap_None, IH. set_solver.
Qed.

Lemma elem_of_zip_seq {A} (l : list A) n x i : (x, i) ∈ zip l (seq n (length l)) ↔ (n ≤ i)%nat ∧ l !! (i - n)%nat = Some x.
Proof.
  revert n. induction l as [|y l IH]; intros n; simpl; [set_solver|].
  rewrite elem_of_cons, IH. split.
  - intros [[= -> ->]|[? ?]]; [by rewrite Nat.sub_diag|]. split; [lia|]. by replace (i - n)%nat with (S (i - S n)) by lia.
  - intros [Hn Hl]. destruct (decide (i = n)) as [->|]; [left; rewrite Nat.sub_diag in Hl; naive_solver|].
    right. split; [lia|]. by replace (i - n)%nat with (S (i - S n)) in Hl by lia.
Qed.

Lemma canonical_map_lookup l c p : NoDup l → canonical_map l !! c = Some p ↔ l !! p = Some c.
Proof.
  intros Hl. unfold canonical_map. rewrite <- elem_of_list_to_map.
  - rewrite elem_of_zip_seq, Nat.sub_0_r. split; [naive_solver|]. split; [lia|done].
  - change (NoDup (zip l (seq 0 (length l))).*1). by rewrite fst_zip by (rewrite length_seq; lia).
Qed.

Section laws.
Context `{HO : HashOrder} {ADDR S : Type} `{!EqDecision ADDR} `{D : !Derived ADDR S} `{!DerivedLaws D}.
Implicit Types s : S.

(** The cache holds what a lookup would find now. *)
Record cached s : Prop := {
  cached_address : ∀ cfg c i a, canonicalConfigs (base s) !! cfg = Some c →
    addresses_of cfg (base s) !! i = Some a ↔ 0 ≤ i < c_n c ∧ resolve s c i = Ok a;
  cached_multicast : multicastAddresses (base s) = ∅
}.

Definition cache_ok s : Prop := replicaAddressesInitialized (base s) = true → cached s.

Definition resolvable s : Prop :=
  ∀ c i, c ∈ canonicalConfigs (base s) → 0 ≤ i < c_n c → ∃ a, resolve s c i = Ok a.

(** Nothing but the cache differs. *)
Definition recached s s' : Prop := ∃ f, (∀ t, same_tables t (f t)) ∧ s' = with_base f s.

Lemma recached_refl s : recached s s.
Proof. exists (λ t, t). split; [done|]. by rewrite with_base_id. Qed.

Lemma recached_with f s s' : (∀ t, same_tables t (f t)) → recached s s' → recached s (with_base f s').
Proof.
  intros Hf (g & Hg & ->). exists (λ t, f (g t)). rewrite with_base_comp. split; [|done].
  intros t. destruct (Hf (g t)) as (?&?&?), (Hg t) as (?&?&?). repeat split; congruence.
Qed.

Lemma recached_resolve s s' c i : recached s s' → resolve s' c i = resolve s c i.
Proof. intros (f & Hf & ->). by apply resolve_with. Qed.

Lemma recached_wf s s' : recached s s' → derived_wf s → derived_wf s'.
Proof. intros (f & Hf & ->). by apply derived_wf_with. Qed.

Lemma recached_tables s s' : recached s s' → same_tables (base s) (base s').
Proof. intros (f & Hf & ->). rewrite base_with. apply Hf. Qed.

(** The loop over the replicas of one configuration. *)
Lemma lookup_replicas_spec s0 s c cfg js :
  recached s0 s → derived_wf s0 → (∀ i, i ∈ js → ∃ a, resolve s0 c i = Ok a) →
  wp (for_each js (λ i,
    addr ← LookupAddress c i;
    modify_base (λ t, t <| replicaAddresses ::= λ m, <[cfg := insert_new i addr (default ∅ (m !! cfg))]> m |>)))
    (λ _ s', recached s0 s' ∧ multicastAddresses (base s') = multicastAddresses (base s) ∧
       (∀ cfg', cfg' ≠ cfg → addresses_of cfg' (base s') = addresses_of cfg' (base s)) ∧
       ∀ i, addresses_of cfg (base s') !! i =
         match addresses_of cfg (base s) !! i with
         | Some a => Some a
         | None => if decide (i ∈ js) then match resolve s0 c i with Ok a => Some a | _ => None end else None
         end) s.
Proof.
  intros Hs Hwf. revert s Hs. induction js as [|j js IH]; intros s Hs Hr.
  { simpl. apply post_ret. split_and!; [done..|]. intros i. by destruct (_ !! i). }
  simpl. destruct (Hr j) as [a Ha]; [set_solver|].
  apply post_bind. eapply post_bind_run.
  { rewrite LookupAddress_run by eauto using recached_wf. rewrite (recached_resolve s0 s), Ha by done. reflexivity. }
  unfold modify_base, modify, post at 1. eapply post_mono.
  { apply IH; [|set_solver]. apply recached_with; [|done]. done. }
  intros _ s' (Hs' & Hm & Hother & Hsame). split_and!; [done|..].
  - rewrite Hm, base_with. done.
  - intros cfg' Hne. rewrite Hother, base_with by done. unfold addresses_of. simpl. by rewrite lookup_insert_ne.
  - intros i. rewrite Hsame, base_with. unfold addresses_of at 1. simpl. rewrite lookup_insert_eq. simpl.
    fold (addresses_of cfg (base s)). destruct (decide (i = j)) as [->|Hij].
    + rewrite insert_new_lookup_eq. destruct (addresses_of cfg (base s) !! j); simpl; [done|].
      by rewrite decide_True, Ha by set_solver.
    + rewrite insert_new_lookup_ne by done. destruct (addresses_of cfg (base s) !! i); [done|].
      destruct (decide (i ∈ js)); [by rewrite decide_True by set_solver|by rewrite decide_False by set_solver].
Qed.

Lemma lookup_config_spec s0 s c cfg :
  recached s0 s → derived_wf s0 → addresses_of cfg (base s) = ∅ →
  (∀ i, 0 ≤ i < c_n c → ∃ a, resolve s0 c i = Ok a) →
  wp (lookup_config (c, cfg))
    (λ _ s', recached s0 s' ∧ multicastAddresses (base s') = multicastAddresses (base s) ∧
       (∀ cfg', cfg' ≠ cfg → addresses_of cfg' (base s') = addresses_of cfg' (base s)) ∧
       ∀ i a, addresses_of cfg (base s') !! i = Some a ↔ 0 ≤ i < c_n c ∧ resolve s0 c i = Ok a) s.
Proof.
  intros Hs Hwf Hnew Hr. unfold lookup_config. apply post_bind. eapply post_mono.
  { apply (lookup_replicas_spec s0); [done..|]. intros i Hi. apply Hr. apply elem_of_seqZ in Hi. lia. }
  intros _ s' (Hs' & Hm & Hother & Hsame).
  assert (∀ i a, addresses_of cfg (base s') !! i = Some a ↔ 0 ≤ i < c_n c ∧ resolve s0 c i = Ok a) as Hfound.
  { intros i a. rewrite Hsame, Hnew, lookup_empty. case_decide as Hi; rewrite elem_of_seqZ in Hi.
    - destruct (resolve s0 c i); split; naive_solver lia.
    - split; naive_solver lia. }
  destruct (multicast c); [|by apply post_ret].
  eapply post_bind_run; [apply LookupMulticastAddress_run|]. by apply post_ret.
Qed.

Lemma lookup_configs_spec s0 s kvs :
  recached s0 s → derived_wf s0 → NoDup kvs.*2 →
  (∀ c cfg, (c, cfg) ∈ kvs → addresses_of cfg (base s) = ∅ ∧ ∀ i, 0 ≤ i < c_n c → ∃ a, resolve s0 c i = Ok a) →
  wp (for_each kvs lookup_config)
    (λ _ s', recached s0 s' ∧ multicastAddresses (base s') = multicastAddresses (base s) ∧
       (∀ cfg, cfg ∉ kvs.*2 → addresses_of cfg (base s') = addresses_of cfg (base s)) ∧
       ∀ c cfg i a, (c, cfg) ∈ kvs →
         addresses_of cfg (base s') !! i = Some a ↔ 0 ≤ i < c_n c ∧ resolve s0 c i = Ok a) s.
Proof.
  intros Hs Hwf. revert s Hs. induction kvs as [|[c cfg] kvs IH]; intros s Hs Hnd Hr.
  { simpl. apply post_ret. split_and!; [done..|]. by intros c cfg i a Hin%elem_of_nil. }
  simpl in Hnd. apply NoDup_cons in Hnd as [Hcfg Hnd].
  simpl. apply post_bind. destruct (Hr c cfg) as [Hnew Hres]; [by apply elem_of_cons; left|].
  eapply post_mono; [by apply (lookup_config_spec s0)|].
  intros _ s1 (Hs1 & Hm1 & Hother1 & Hfound1). eapply post_mono.
  { apply IH; [done..|]. intros c' cfg' Hin. destruct (Hr c' cfg') as [? ?]; [by apply elem_of_cons; right|]. split; [|done].
    rewrite Hother1; [done|]. intros ->. apply Hcfg. apply list_elem_of_fmap. by eexists (_, _). }
  intros _ s2 (Hs2 & Hm2 & Hother2 & Hfound2). split_and!; [done|congruence|..].
  - intros cfg' Hn. simpl in Hn. apply not_elem_of_cons in Hn as [??]. by rewrite Hother2, Hother1.
  - intros c' cfg' i a [[= -> ->]|Hin]%elem_of_cons; [|by apply Hfound2]. by rewrite Hother2.
Qed.

(** Looking up all addresses fills the cache with what the lookups answer. *)
Lemma LookupAddresses_spec s :
  derived_wf s → NoDup (canonicalConfigs (base s)) → resolvable s →
  wp LookupAddresses (λ _ s', recached s s' ∧ cached s' ∧ replicaAddressesInitialized (base s') = true) s.
Proof.
  intros Hwf Hnd Hr. unfold LookupAddresses, modify_base. run. apply post_get.
  set (s1 := with_base _ s). assert (recached s s1) as Hs1 by (unfold s1; apply recached_with; [done|apply recached_refl]).
  destruct (recached_tables s s1 Hs1) as (Hc & _ & _). rewrite Hc.
  set (kvs := hash_order _).
  assert (∀ c cfg, (c, cfg) ∈ kvs ↔ canonicalConfigs (base s) !! cfg = Some c) as Hkvs.
  { intros c cfg. unfold kvs. rewrite elem_of_hash_order. by apply canonical_map_lookup. }
  apply post_bind. eapply post_mono.
  { apply (lookup_configs_spec s s1 kvs); [done..| |].
    - apply NoDup_fmap_2_strong; [|unfold kvs; eapply NoDup_fmap_1, hash_order_keys_NoDup].
      intros [c cfg] [c' cfg'] Hx Hy [= <-]. apply Hkvs in Hx, Hy. simpl in *. congruence.
    - intros c cfg Hin%Hkvs. split; [unfold s1; by rewrite base_with|].
      intros i Hi. apply Hr; [by eapply list_elem_of_lookup_2|done]. }
  intros _ s2 (Hs2 & Hm2 & _ & Hfound). unfold modify, post.
  set (s3 := with_base _ s2). assert (recached s s3) as Hs3 by (unfold s3; apply recached_with; [done|done]).
  split_and!; [done| |unfold s3; by rewrite base_with].
  destruct (recached_tables s s3 Hs3) as (Hc3 & _ & _). split.
  - intros cfg c i a. rewrite Hc3. intros Hcfg%Hkvs.
    rewrite (recached_resolve s s3) by done. unfold s3. rewrite base_with. by apply Hfound.
  - unfold s3. rewrite base_with. simpl. rewrite Hm2. unfold s1. by rewrite base_with.
Qed.

(** Whoever sends has the addresses of the receivers that are registered now: the cache is looked
    up again after every registration. *)
Lemma config_of_spec s src cfg :
  derived_wf s → NoDup (canonicalConfigs (base s)) → resolvable s → cache_ok s →
  configurations (base s) !! src = Some cfg →
  wp (config_of src) (λ cfg' s', cfg' = cfg ∧ recached s s' ∧ cached s' ∧
    replicaAddressesInitialized (base s') = true) s.
Proof.
  intros Hwf Hnd Hr Hok Hsrc. unfold config_of. apply post_get. rewrite Hsrc.
  destruct (replicaAddressesInitialized (base s)) eqn:Hi; simpl; apply post_bind.
  - apply post_ret, post_ret. split_and!; [done|apply recached_refl|by apply Hok|done].
  - eapply post_mono; [by apply LookupAddresses_spec|]. intros _ s' (?&?&?). by apply post_ret.
Qed.

(** What a registration makes of the base class: [p] is the canonical copy. *)
Definition registered (r : Z) (c : Config) (i : Z) (p : nat) (t : TransportCommon ADDR) : TransportCommon ADDR :=
  MkTransportCommon
    (if decide (c ∈ canonicalConfigs t) then canonicalConfigs t else canonicalConfigs t ++ [c])
    (insert_new r p (configurations t))
    (replicaAddresses t)
    (if i =? -1 then replicaReceivers t
     else <[p := insert_new i r (default ∅ (replicaReceivers t !! p))]> (replicaReceivers t))
    (multicastAddresses t)
    false.

Lemma RegisterConfiguration_spec s r c i :
  c_n c ≤ Z.of_nat (length (replicas c)) →
  wp (RegisterConfiguration r c i) (λ p s',
    p = default (length (canonicalConfigs (base s))) (position_of c (canonicalConfigs (base s))) ∧
    s' = with_base (registered r c i p) s) s.
Proof.
  intros Hn. unfold RegisterConfiguration, modify_base.
  rewrite Z.gtb_ltb. destruct (Z.ltb_spec (Z.of_nat (length (replicas c))) (c_n c)); [lia|]. apply post_get.
  destruct (position_of c (canonicalConfigs (base s))) as [p|] eqn:Hp; simpl; run.
  - run. assert (c ∈ canonicalConfigs (base s)) by (eapply list_elem_of_lookup_2, position_of_Some; done).
    destruct (Z.eqb_spec i (-1)) as [->|Hi]; simpl; run; run; apply post_ret; (split; [done|]);
      rewrite !with_base_comp; apply with_base_ext; unfold registered; rewrite decide_True by done;
      rewrite ?(proj2 (Z.eqb_neq i (-1))) by done; reflexivity.
  - run. apply position_of_None in Hp.
    destruct (Z.eqb_spec i (-1)) as [->|Hi]; simpl; run; run; apply post_ret; (split; [done|]);
      rewrite !with_base_comp; apply with_base_ext; unfold registered; rewrite decide_False by done;
      rewrite ?(proj2 (Z.eqb_neq i (-1))) by done; reflexivity.
Qed.

Lemma seqZ_Sorted m n : Sorted Z.le (seqZ m n).
Proof.
  unfold seqZ. apply (Sorted_fmap _ Nat.le); [intros; lia|].
  generalize 0%nat. induction (Z.to_nat n) as [|k IH]; intros j; simpl; [constructor|].
  constructor; [apply IH|]. destruct k; simpl; constructor. lia.
Qed.

(** The addresses of the replicas of a configuration, in the order in which they are visited. *)
Lemma cached_in_order s cfg c f :
  cached s → canonicalConfigs (base s) !! cfg = Some c →
  (∀ i, 0 ≤ i < c_n c → resolve s c i = Ok (f i)) →
  by_key (addresses_of cfg (base s)) = (λ i, (i, f i)) <$> seqZ 0 (c_n c).
Proof.
  intros [Hc _] Hcfg Hf. unfold by_key. eapply (StronglySorted_unique_strong key_le).
  - intros [i a] [j b] Hi Hj. rewrite merge_sort_Permutation in Hi. apply elem_of_map_to_list in Hi.
    apply list_elem_of_fmap in Hj as (k & [= -> ->] & Hk%elem_of_seqZ). unfold key_le. simpl. intros ??.
    assert (i = k) as -> by lia. f_equal. eapply Hc in Hi as [? Ha]; [|done]. rewrite Hf in Ha by lia. congruence.
  - apply Sorted_StronglySorted; [intros ???; unfold key_le; lia|].
    apply Sorted_merge_sort. intros ??. unfold key_le. lia.
  - apply StronglySorted_fmap with (R1 := Z.le); [done|]. apply Sorted_StronglySorted; [intros ???; lia|]. apply seqZ_Sorted.
  - rewrite merge_sort_Permutation. apply NoDup_Permutation.
    + apply NoDup_map_to_list.
    + apply NoDup_fmap_2; [intros ??; congruence|apply NoDup_seqZ].
    + intros [i a]. rewrite elem_of_map_to_list, (Hc cfg c i a Hcfg), list_elem_of_fmap. setoid_rewrite elem_of_seqZ. split.
      * intros [Hi Ha]. exists i. rewrite Hf in Ha by done. split; [congruence|lia].
      * intros (j & [= -> ->] & Hj). split; [lia|]. apply Hf. lia.
Qed.
End laws.
