(* ===== verification/SimTransport.v ===== *)
(** The simulated transport of [lib/simtransport.h] and [lib/simtransport.cc], which the tests of
    the replication protocols run on.

    Addresses are numbers.  [app] is the memory of the program under test; its receivers and
    callbacks are an [Application], its message filters [Filters].  The multimaps are lists
    sorted by their keys, a new entry behind those with the same key.  [addresses] are the
    addresses the receivers were told.  [accepted], [delivered] and [fired] record what was put
    into the queue, what was handed to receivers and which timers expired, in that order;
    [wrapped] is set when the time of a new timer wraps around to before the current time.

    [Run] is a loop that need not end (a [Timeout] restarts itself), so it takes the number of
    rounds it may make and says whether it came to its end.  A callback does not call [Run]. *)

From S2P Require Import ConfigFile Timers TransportCommon.
From S2P Require Import Prelude.
From Stdlib Require Import Ascii.

Record QueuedMessage := MkQueuedMessage { q_dst : Z; q_src : Z; q_type : string; q_msg : string }.

#[global] Instance QueuedMessage_eq_dec : EqDecision QueuedMessage.
Proof. solve_decision. Defined.

(** The callbacks of timers: those of the program, and the closure that [SendMessageInternal]
    makes for a delayed message. *)
Inductive timer_callback (C : Type) := Callback (c : C) | PushBack (q : QueuedMessage).
Arguments Callback {_} _.
Arguments PushBack {_} _.

Record PendingTimer (C : Type) := MkPendingTimer { t_when : Z; t_id : Z; t_cb : timer_callback C }.
Arguments MkPendingTimer {_} _ _ _.
Arguments t_when {_} _.
Arguments t_id {_} _.
Arguments t_cb {_} _.

(** A filter sees the sender and the receiver with their indices, the message and the delay; it
    answers whether the message passes, and changes the message and the delay. *)
Class Filters (F A : Type) := filter_call : F → Z → Z → Z → Z → message → Z → A → bool * string * Z * A.

Record SimulatedTransport (F C A : Type) := MkSimulatedTransport {
  common : TransportCommon Z;
  app : A;
  addresses : gmap Z Z;
  queue : list QueuedMessage;
  endpoints : gmap Z Z;
  lastAddr : Z;
  replicaIdxs : gmap Z Z;
  filters : list (Z * F);
  timers : list (Z * PendingTimer C);
  lastTimerId : Z;
  vtime : Z;
  processTimers : bool;
  accepted : list QueuedMessage;
  delivered : list QueuedMessage;
  fired : list (Z * Z);
  wrapped : bool
}.
Arguments MkSimulatedTransport {_ _ _} _ _ _ _ _ _ _ _ _ _ _ _ _ _ _ _.
Arguments common {_ _ _} _.
Arguments app {_ _ _} _.
Arguments addresses {_ _ _} _.
Arguments queue {_ _ _} _.
Arguments endpoints {_ _ _} _.
Arguments lastAddr {_ _ _} _.
Arguments replicaIdxs {_ _ _} _.
Arguments filters {_ _ _} _.
Arguments timers {_ _ _} _.
Arguments lastTimerId {_ _ _} _.
Arguments vtime {_ _ _} _.
Arguments processTimers {_ _ _} _.
Arguments accepted {_ _ _} _.
Arguments delivered {_ _ _} _.
Arguments fired {_ _ _} _.
Arguments wrapped {_ _ _} _.

#[global] Instance SimulatedTransport_eta F C A : Eta (SimulatedTransport F C A) := λ s,
  MkSimulatedTransport (common s) (app s) (addresses s) (queue s) (endpoints s) (lastAddr s) (replicaIdxs s)
    (filters s) (timers s) (lastTimerId s) (vtime s) (processTimers s) (accepted s) (delivered s) (fired s)
    (wrapped s).

Definition SimulatedTransport_new {F C A} (a : A) : SimulatedTransport F C A :=
  MkSimulatedTransport TransportCommon_new a ∅ [] ∅ (-1) ∅ [] [] 0 0 true [] [] [] false.

(** [std::multimap::insert]. *)
Fixpoint multimap_insert {V} (k : Z) (v : V) (l : list (Z * V)) : list (Z * V) :=
  match l with
  | [] => [(k, v)]
  | (k', v') :: l' => if k <? k' then (k, v) :: l else (k', v') :: multimap_insert k v l'
  end.

Section sim.
Context `{HO : HashOrder} {F C A : Type} `{!Filters F A} `{!Application Z C A}.
Abbreviation Sim := (SimulatedTransport F C A).
Abbreviation MS := (M Sim).

(** [endpoints[addr]] and [replicaIdxs[addr]], which insert a null pointer and 0. *)
Definition endpoint (addr : Z) : MS Z :=
  s ← get_st;
  let e := default 0 (endpoints s !! addr) in
  _ ← modify (λ s, s <| endpoints ::= <[addr := e]> |>);
  mret e.

Definition replica_index (addr : Z) : MS Z :=
  s ← get_st;
  let i := default 0 (replicaIdxs s !! addr) in
  _ ← modify (λ s, s <| replicaIdxs ::= <[addr := i]> |>);
  mret i.

(** [GetAddress()] of a receiver that was told no address reads an indeterminate pointer. *)
Definition GetAddress_sim (receiver : Z) : MS Z := s ← get_st; deref (addresses s !! receiver).

Definition push_back (q : QueuedMessage) : MS unit :=
  modify (λ s, s <| queue ::= λ l, l ++ [q] |> <| accepted ::= λ l, l ++ [q] |>).

Definition start_timer (ms : Z) (cb : timer_callback C) : MS Z :=
  s ← get_st;
  if lastTimerId s =? INT_MAX then undefined
  else
    let id := lastTimerId s + 1 in
    let t := MkPendingTimer (u64 (vtime s + ms)) id cb in
    _ ← modify (λ s, s <| lastTimerId := id |> <| timers ::= multimap_insert (t_when t) t |>
                       <| wrapped ::= λ b, b || (t_when t <? vtime s) |>);
    mret id.

(** The loop over the filters: what is left of the message and the delay, unless it is dropped. *)
Fixpoint pass_filters (fs : list (Z * F)) (src srcAddr dst : Z) (m : message) (delay : Z) : MS (option (string * Z)) :=
  match fs with
  | [] => mret (Some (m.2, delay))
  | (_, f) :: fs =>
      srcIdx ← replica_index srcAddr;
      receiver ← endpoint dst;
      dstIdx ← replica_index dst;
      s ← get_st;
      let '(pass, data, delay, a) := filter_call f src srcIdx receiver dstIdx m delay (app s) in
      _ ← modify (λ s, s <| app := a |>);
      if (pass : bool) then pass_filters fs src srcAddr dst (m.1, data) (u64 delay) else mret None
  end.

Definition SendMessageInternal_sim (src dst : Z) (m : message) (multicast : bool) : MS bool :=
  srcAddr ← GetAddress_sim src;
  s ← get_st;
  o ← pass_filters (filters s) src srcAddr dst m 0;
  match o with
  | None => mret true
  | Some (msgData, delay) =>
      let q := MkQueuedMessage dst srcAddr m.1 msgData in
      _ ← (if delay =? 0 then push_back q else _ ← start_timer delay (PushBack q); mret tt);
      mret true
  end.

(** The loop over [configurations], which is ordered by the receivers' pointers. *)
Fixpoint find_replica (cfg : Config) (idx : Z) (l : list (Z * nat)) : MS (option Z) :=
  match l with
  | [] => mret None
  | (receiver, canonical) :: l =>
      s ← get_st;
      c ← deref (canonicalConfigs (common s) !! canonical);
      if decide (c = cfg) then
        addr ← GetAddress_sim receiver;
        i ← replica_index addr;
        if i =? idx then mret (Some addr) else find_replica cfg idx l
      else find_replica cfg idx l
  end.

Definition LookupAddress_sim (cfg : Config) (idx : Z) : MS Z :=
  s ← get_st;
  o ← find_replica cfg idx (by_key (configurations (common s)));
  match o with Some addr => mret addr | None => panic end.

#[global] Instance sim_extends : Extends Z Sim := {|
  base := common;
  with_base := λ f s, s <| common ::= f |>
|}.

#[global] Instance sim_derived : Derived Z Sim := {|
  derived_extends := sim_extends;
  GetAddress := GetAddress_sim;
  SendMessageInternal := SendMessageInternal_sim;
  LookupAddress := LookupAddress_sim;
  LookupMulticastAddress := λ _, mret None
|}.

Definition Register_sim (receiver : Z) (config : Config) (replicaIdx : Z) : MS unit :=
  s ← get_st;
  if (lastAddr s =? INT_MAX) || (receiver =? 0) then undefined
  else
    let addr := lastAddr s + 1 in
    _ ← modify (λ s, s <| lastAddr := addr |> <| endpoints ::= <[addr := receiver]> |>
                      <| addresses ::= <[receiver := addr]> |>);
    _ ← RegisterConfiguration receiver config replicaIdx;
    modify (λ s, s <| replicaIdxs ::= <[addr := replicaIdx]> |>).

Definition AddFilter (id : Z) (f : F) : MS unit := modify (λ s, s <| filters ::= multimap_insert id f |>).

Definition RemoveFilter (id : Z) : MS unit := modify (λ s, s <| filters ::= filter (λ x, x.1 ≠ id) |>).

Definition CancelTimer_sim (id : Z) : MS bool :=
  s ← get_st;
  _ ← modify (λ s, s <| timers ::= filter (λ x, t_id x.2 ≠ id) |>);
  mret (bool_decide (Exists (λ x, t_id x.2 = id) (timers s))).

Definition CancelAllTimers_sim : MS unit := modify (λ s, s <| timers := [] |> <| processTimers := false |>).

#[global] Instance sim_transport : Transport Sim Z C := {|
  Register := Register_sim;
  SendMessage := SendMessage_common;
  SendMessageToReplica := SendMessageToReplica_common;
  SendMessageToAll := SendMessageToAll_common;
  Timer := λ ms cb, start_timer ms (Callback cb);
  CancelTimer := CancelTimer_sim;
  CancelAllTimers := CancelAllTimers_sim
|}.

Definition access (f : A → A) : MS A := s ← get_st; _ ← modify (λ s, s <| app ::= f |>); mret (app s).

Definition run_callback (cb : timer_callback C) : MS unit :=
  match cb with
  | Callback c => exec access (callback c)
  | PushBack q => push_back q
  end.

(** One message of the queue; it stays in the queue while it is received. *)
Definition deliver_front (q : QueuedMessage) : MS unit :=
  receiver ← endpoint (q_dst q);
  if receiver =? 0 then undefined
  else
    _ ← modify (λ s, s <| delivered ::= λ l, l ++ [q] |>);
    _ ← exec access (ReceiveMessage receiver (q_src q) (q_type q) (q_msg q));
    modify (λ s, s <| queue ::= tail |>).

Fixpoint process_queue (fuel : nat) : MS bool :=
  match fuel with
  | O => mret false
  | S fuel =>
      s ← get_st;
      match queue s with
      | [] => mret true
      | q :: _ => _ ← deliver_front q; process_queue fuel
      end
  end.

(** The earliest timer. *)
Definition fire_timer : MS unit :=
  s ← get_st;
  if negb (processTimers s) then mret tt
  else
    match timers s with
    | [] => mret tt
    | (_, t) :: ts =>
        _ ← modify (λ s, s <| vtime := t_when t |> <| timers := ts |>
                           <| fired ::= λ l, l ++ [(t_when t, t_id t)] |>);
        run_callback (t_cb t)
    end.

Definition idle (s : Sim) : bool :=
  bool_decide (queue s = []) && negb (processTimers s && bool_decide (timers s ≠ [])).

Fixpoint rounds (fuel : nat) : MS bool :=
  match fuel with
  | O => mret false
  | S n =>
      drained ← process_queue (S n);
      if (drained : bool) then
        _ ← fire_timer;
        s ← get_st;
        if idle s then mret true else rounds n
      else mret false
  end.

Definition Run (fuel : nat) : MS bool := _ ← LookupAddresses; rounds fuel.
End sim.

(** ** Lists sorted by keys *)

Definition key_sorted {V} : list (Z * V) → Prop := StronglySorted key_le.

Lemma multimap_insert_perm {V} k (v : V) l : multimap_insert k v l ≡ₚ (k, v) :: l.
Proof.
  induction l as [|[k' v'] l IH]; simpl; [done|]. destruct (k <? k'); [done|].
  rewrite IH. apply Permutation_swap.
Qed.

Lemma multimap_insert_sorted {V} k (v : V) l : key_sorted l → key_sorted (multimap_insert k v l).
Proof.
  unfold key_sorted. induction l as [|[k' v'] l IH]; simpl; [repeat constructor|].
  intros [Hs Hall]%StronglySorted_inv. destruct (Z.ltb_spec k k').
  - constructor; [by constructor|]. constructor; [unfold key_le; simpl; lia|].
    eapply Forall_impl; [done|]. unfold key_le. simpl. intros. lia.
  - constructor; [auto|]. rewrite multimap_insert_perm. constructor; [done|done].
Qed.

Lemma filter_sorted {V} (P : Z * V → Prop) `{∀ x, Decision (P x)} l : key_sorted l → key_sorted (filter P l).
Proof.
  unfold key_sorted. induction l as [|x l IH]; [done|]. intros [Hs Hall]%StronglySorted_inv.
  rewrite filter_cons. case_decide; [|auto]. constructor; [auto|].
  apply Forall_forall. intros y [_ Hy]%list_elem_of_filter. rewrite Forall_forall in Hall. auto.
Qed.

(** ** Callbacks

    What a callback can have done: messages are put at the end of the queue, timers are added
    with new ids or taken away, and the tables of receivers stay as they are. *)

Section frame.
Context `{HO : HashOrder} {F C A : Type} `{!Filters F A} `{!Application Z C A}.
Abbreviation Sim := (SimulatedTransport F C A).
Implicit Types s : Sim.

Record moved s s' : Prop := {
  moved_tables : same_tables (common s) (common s');
  moved_addresses : addresses s' = addresses s;
  moved_endpoints a : default 0 (endpoints s' !! a) = default 0 (endpoints s !! a);
  moved_idxs a : default 0 (replicaIdxs s' !! a) = default 0 (replicaIdxs s !! a);
  moved_idxs_kept : replicaIdxs s ⊆ replicaIdxs s';
  moved_filters : filters s' = filters s;
  moved_queue : ∃ l, queue s' = queue s ++ l ∧ accepted s' = accepted s ++ l;
  moved_delivered : delivered s' = delivered s;
  moved_fired : fired s' = fired s;
  moved_vtime : vtime s' = vtime s;
  moved_last : lastTimerId s ≤ lastTimerId s';
  moved_timers x : x ∈ timers s' → x ∈ timers s ∨ lastTimerId s < t_id x.2 ≤ lastTimerId s';
  moved_process : processTimers s' = true → processTimers s = true;
  moved_wrapped : wrapped s' = false → wrapped s = false
}.

#[global] Instance moved_preorder : PreOrder moved.
Proof.
  split.
  - intros s. split; try done; [|tauto]. exists []. by rewrite !app_nil_r.
  - intros s1 s2 s3 [[??] ????? (l & Hq & Ha) ???? Ht ??] [[??] ????? (l' & Hq' & Ha') ???? Ht' ??].
    split; try congruence; try lia.
    + by split_and!; [congruence|destruct_and!; congruence..].
    + by etransitivity.
    + exists (l ++ l'). by rewrite Hq', Ha', Hq, Ha, !app_assoc.
    + intros x Hx. apply Ht' in Hx as [Hx|?]; [|right; lia]. apply Ht in Hx as [?|?]; [by left|right; lia].
    + auto.
    + auto.
Qed.

(** The timers are sorted, their ids are different and were all given out, and none of them has
    expired; as long as no time wraps around, none is in the past and timers expired in the order
    of their times. *)
Record timers_ok s : Prop := {
  timers_sorted : key_sorted (timers s);
  timers_key x : x ∈ timers s → x.1 = t_when x.2;
  timers_ids : NoDup (((λ x, t_id x.2) <$> timers s) ++ (fired s).*2);
  timers_last id : id ∈ ((λ x, t_id x.2) <$> timers s) ++ (fired s).*2 → id ≤ lastTimerId s;
  timers_future x : wrapped s = false → x ∈ timers s → vtime s ≤ t_when x.2;
  fired_sorted : wrapped s = false → StronglySorted Z.le ((fired s).*1);
  fired_past t : wrapped s = false → t ∈ (fired s).*1 → t ≤ vtime s
}.

(** What holds while a callback runs that was called in [s0]. *)
Definition within s0 s : Prop := moved s0 s ∧ timers_ok s.

Lemma within_same s0 s s' :
  moved s s' → timers s' = timers s → lastTimerId s' = lastTimerId s → within s0 s → within s0 s'.
Proof.
  intros Hm Ht Hl [? [Hs Hk Hids Hlast Hfu Hf Hp]]. split; [by etransitivity|].
  destruct Hm as [_ _ _ _ _ _ _ _ Hfired Hv _ _ _ Hw]. split; rewrite ?Ht, ?Hfired, ?Hv, ?Hl; try done; auto.
Qed.

Lemma preserves_same s0 (f : Sim → Sim) :
  (∀ s, moved s (f s)) → (∀ s, timers (f s) = timers s) → (∀ s, lastTimerId (f s) = lastTimerId s) →
  preserves (within s0) (modify f).
Proof. intros. apply preserves_modify. intros s. by apply within_same. Qed.

Ltac same := apply preserves_same; [|done..]; intros s; split; simpl; try done; try tauto; try lia;
  try (exists []; by rewrite !app_nil_r).

Lemma index_insert (m : gmap Z Z) a a' : default 0 (<[a := default 0 (m !! a)]> m !! a') = default 0 (m !! a').
Proof. destruct (decide (a = a')) as [->|]; [by rewrite lookup_insert_eq|by rewrite lookup_insert_ne]. Qed.

Lemma index_insert_kept (m : gmap Z Z) a : m ⊆ <[a := default 0 (m !! a)]> m.
Proof. destruct (m !! a) as [i|] eqn:E; simpl; [by rewrite insert_id|by apply insert_subseteq]. Qed.

Lemma endpoint_within s0 a : preserves (within s0) (endpoint a).
Proof.
  unfold endpoint. intros s Hs. apply post_get. run. apply post_ret. revert Hs. apply within_same; try done.
  split; simpl; try done; try tauto; [intros; apply index_insert|]. exists []. by rewrite !app_nil_r.
Qed.

Lemma replica_index_within s0 a : preserves (within s0) (replica_index a).
Proof.
  unfold replica_index. intros s Hs. apply post_get. run. apply post_ret. revert Hs. apply within_same; try done.
  split; simpl; try done; try tauto; [intros; apply index_insert|apply index_insert_kept|]. exists []. by rewrite !app_nil_r.
Qed.

Lemma access_within s0 f : preserves (within s0) (access f).
Proof. unfold access. apply preserves_bind; [apply preserves_get|intros]. apply preserves_bind; [|intros; apply preserves_ret]. same. Qed.

Lemma push_back_within s0 q : preserves (within s0) (push_back q).
Proof.
  apply preserves_modify. intros s. apply within_same; try done. split; simpl; try done; [|tauto]. by exists [q].
Qed.

Lemma with_base_within s0 (f : TransportCommon Z → TransportCommon Z) :
  (∀ t, same_tables t (f t)) → preserves (within s0) (modify (with_base f)).
Proof. intros Hf. same. Qed.

Lemma start_timer_within s0 ms cb : preserves (within s0) (start_timer ms cb).
Proof.
  unfold start_timer. intros s [Hm [Hs Hk Hids Hlast Hfu Hf Hp]]. apply post_get. destruct (_ =? _); [done|].
  run. apply post_ret.
  split.
  - etransitivity; [done|]. split; simpl; try done; try lia.
    + exists []. by rewrite !app_nil_r.
    + intros x. rewrite multimap_insert_perm. intros [->|?]%elem_of_cons; [right; simpl; lia|by left].
    + by intros [? _]%orb_false_iff.
  - split; simpl.
    + by apply multimap_insert_sorted.
    + intros x. rewrite multimap_insert_perm. intros [->|?]%elem_of_cons; auto.
    + rewrite multimap_insert_perm. simpl. apply NoDup_cons. split; [|done]. intros ?%Hlast. lia.
    + intros id. rewrite multimap_insert_perm. simpl. intros [->|?%Hlast]%elem_of_cons; lia.
    + intros x [? Hw%Z.ltb_ge]%orb_false_iff. rewrite multimap_insert_perm. intros [->|?]%elem_of_cons; auto.
    + intros [? _]%orb_false_iff. auto.
    + intros t [? _]%orb_false_iff. auto.
Qed.

Lemma CancelTimer_within s0 id : preserves (within s0) (CancelTimer_sim id).
Proof.
  unfold CancelTimer_sim. intros s [Hm [Hs Hk Hids Hlast Hfu Hf Hp]]. apply post_get. run. apply post_ret.
  assert (∀ i, i ∈ ((λ x, t_id x.2) <$> filter (λ x, t_id x.2 ≠ id) (timers s)) → i ∈ ((λ x, t_id x.2) <$> timers s)) as Hsub.
  { intros i (x & -> & [_ ?]%list_elem_of_filter)%list_elem_of_fmap. apply list_elem_of_fmap. eauto. }
  split; [etransitivity; [done|]|]; split; simpl; try done; try lia.
  - exists []. by rewrite !app_nil_r.
  - intros x [_ ?]%list_elem_of_filter. by left.
  - by apply filter_sorted.
  - intros x [_ ?]%list_elem_of_filter. auto.
  - apply NoDup_app in Hids as (Hn1 & Hd & Hn2). apply NoDup_app. split_and!; [|by eauto|done].
    apply (sublist_NoDup _ _ Hn1). apply fmap_sublist, sublist_filter.
  - intros i. rewrite elem_of_app. intros Hi. apply Hlast. rewrite elem_of_app. naive_solver.
  - intros x ? [_ ?]%list_elem_of_filter. auto.
Qed.

Lemma CancelAllTimers_within s0 : preserves (within s0) CancelAllTimers_sim.
Proof.
  unfold CancelAllTimers_sim. apply preserves_modify. intros s [Hm [Hs Hk Hids Hlast Hfu Hf Hp]].
  split; [etransitivity; [done|]|]; split; simpl; try done; try lia.
  - exists []. by rewrite !app_nil_r.
  - intros x Hx%elem_of_nil. done.
  - constructor.
  - intros x Hx%elem_of_nil. done.
  - by apply NoDup_app in Hids as (_ & _ & ?).
  - intros i Hi. apply Hlast. rewrite elem_of_app. by right.
  - intros x _ Hx%elem_of_nil. done.
Qed.
End frame.

#[export] Hint Resolve endpoint_within replica_index_within access_within push_back_within start_timer_within
  CancelTimer_within CancelAllTimers_within : preserve.

(** Everything a callback can call. *)
Section calls.
Context `{HO : HashOrder} {F C A : Type} `{!Filters F A} `{!Application Z C A}.
Abbreviation Sim := (SimulatedTransport F C A).
Implicit Types s : Sim.

Lemma GetAddress_within s0 r : preserves (within s0) (GetAddress_sim r).
Proof. unfold GetAddress_sim. eauto with preserve. Qed.

Lemma pass_filters_within s0 fs src a dst m delay : preserves (within s0) (pass_filters fs src a dst m delay).
Proof.
  revert m delay. induction fs as [|[k f] fs IH]; intros m delay; simpl; [apply preserves_ret|].
  do 3 (apply preserves_bind; [eauto with preserve|intros]).
  apply preserves_bind; [apply preserves_get|intros s1].
  destruct (filter_call _ _ _ _ _ _ _ _) as [[[pass data] d] a']. apply preserves_bind; [|intros; destruct pass; eauto with preserve].
  apply preserves_modify. intros s. apply within_same; try done. split; simpl; try done; [|tauto].
  exists []. by rewrite !app_nil_r.
Qed.

Lemma SendMessageInternal_within s0 src dst m b : preserves (within s0) (SendMessageInternal_sim src dst m b).
Proof.
  unfold SendMessageInternal_sim.
  apply preserves_bind; [apply GetAddress_within|intros a]. apply preserves_bind; [apply preserves_get|intros s1].
  apply preserves_bind; [apply pass_filters_within|intros [[data delay]|]]; [|apply preserves_ret].
  apply preserves_bind; [|intros; apply preserves_ret]. destruct (delay =? 0); eauto with preserve.
Qed.

Lemma LookupAddress_within s0 c i : preserves (within s0) (LookupAddress_sim c i).
Proof.
  unfold LookupAddress_sim. apply preserves_bind; [apply preserves_get|intros s1].
  apply preserves_bind; [|intros []; eauto with preserve].
  induction (by_key _) as [|[r canonical] l IH]; simpl; [apply preserves_ret|].
  apply preserves_bind; [apply preserves_get|intros s2]. apply preserves_bind; [apply preserves_deref|intros c'].
  case_decide; [|done]. apply preserves_bind; [apply GetAddress_within|intros a].
  apply preserves_bind; [eauto with preserve|intros j]. destruct (j =? i); [apply preserves_ret|done].
Qed.

Lemma LookupAddresses_within s0 : preserves (within s0) (LookupAddresses (S := Sim)).
Proof.
  unfold LookupAddresses, modify_base.
  apply preserves_bind; [by apply with_base_within|intros _]. apply preserves_bind; [apply preserves_get|intros s1].
  apply preserves_bind; [|intros _; by apply with_base_within]. apply preserves_for_each. intros [c cfg].
  apply preserves_bind.
  - apply preserves_for_each. intros i. apply preserves_bind; [apply LookupAddress_within|intros a].
    by apply with_base_within.
  - intros _. destruct (multicast c); eauto with preserve.
Qed.

Lemma config_of_within s0 src : preserves (within s0) (config_of (S := Sim) src).
Proof.
  unfold config_of. apply preserves_bind; [apply preserves_get|intros s1].
  destruct (configurations _ !! src); [|apply preserves_undefined].
  apply preserves_bind; [|intros; apply preserves_ret]. apply preserves_when. intros _. apply LookupAddresses_within.
Qed.

Lemma SendMessageToReplica_within s0 src i m : preserves (within s0) (SendMessageToReplica_common (S := Sim) src i m).
Proof.
  unfold SendMessageToReplica_common. apply preserves_bind; [apply config_of_within|intros cfg].
  apply preserves_bind; [apply preserves_get|intros s1].
  destruct (_ !! i); [apply SendMessageInternal_within|apply preserves_undefined].
Qed.

Lemma send_to_each_within s0 src a m l : preserves (within s0) (send_to_each (S := Sim) src a m l).
Proof.
  induction l as [|[i b] l IH]; simpl; [apply preserves_ret|]. case_decide; [done|].
  apply preserves_bind; [exact (SendMessageInternal_within s0 src b m false)|intros []; eauto with preserve].
Qed.

Lemma SendMessageToAll_within s0 src m : preserves (within s0) (SendMessageToAll_common (S := Sim) src m).
Proof.
  unfold SendMessageToAll_common. apply preserves_bind; [apply config_of_within|intros cfg].
  apply preserves_bind; [apply preserves_get|intros s1].
  destruct (_ !! cfg); [apply SendMessageInternal_within|].
  apply preserves_bind; [apply GetAddress_within|intros a; apply send_to_each_within].
Qed.

Lemma exec_within s0 (p : prog Z C A) : preserves (within s0) (exec access p).
Proof.
  induction p as [|f k IH|src dst m k IH|src i m k IH|src m k IH|ms cb k IH|id k IH|k IH| | ]; cbn [exec];
    [apply preserves_ret|apply preserves_bind; [|intros; apply IH]..|apply preserves_panic|apply preserves_undefined].
  - apply access_within.
  - exact (SendMessageInternal_within s0 src dst m false).
  - exact (SendMessageToReplica_within s0 src i m).
  - exact (SendMessageToAll_within s0 src m).
  - exact (start_timer_within s0 ms (Callback cb)).
  - exact (CancelTimer_within s0 id).
  - exact (CancelAllTimers_within s0).
Qed.
End calls.

(** ** Runs *)
Section runs.
Context `{HO : HashOrder} {F C A : Type} `{!Filters F A} `{!Application Z C A}.
Abbreviation Sim := (SimulatedTransport F C A).
Implicit Types s : Sim.

(** What a run that started in [s0] has done so far: the queue holds what was accepted and not
    yet delivered, and a timer that expired was pending at the start, and expired at its time,
    or was started by the run. *)
Record reach s0 s : Prop := {
  reach_ok : timers_ok s;
  reach_fifo : accepted s = delivered s ++ queue s;
  reach_vtime : wrapped s = false → wrapped s0 = false ∧ vtime s0 ≤ vtime s;
  reach_last : lastTimerId s0 ≤ lastTimerId s;
  reach_timers x : x ∈ timers s → x ∈ timers s0 ∨ lastTimerId s0 < t_id x.2;
  reach_fired : ∃ l, fired s = fired s0 ++ l ∧
    ∀ f, f ∈ l → lastTimerId s0 < f.2 ∨ ∃ x, x ∈ timers s0 ∧ f = (t_when x.2, t_id x.2)
}.

Lemma reach_refl s : timers_ok s → accepted s = delivered s ++ queue s → reach s s.
Proof. split; try done; [tauto|]. exists []. rewrite app_nil_r. split; [done|]. by intros f Hf%elem_of_nil. Qed.

Lemma reach_moved s0 s s' : reach s0 s → within s s' → reach s0 s'.
Proof.
  intros [_ Hq Hv Hl Ht (l & Hf & Hall)] [[_ _ _ _ _ _ (l' & Hq' & Ha') Hd' Hf' Hv' Hl' Ht' _ Hw'] Hok].
  split; try done; try lia.
  - by rewrite Ha', Hd', Hq', Hq, app_assoc.
  - rewrite Hv'. auto.
  - intros x [Hx|?]%Ht'; [auto|right; lia].
  - exists l. split; [congruence|done].
Qed.

Lemma callback_reach {B} s0 s (m : M Sim B) :
  reach s0 s → preserves (within s) m → wlp m (λ _ s', reach s0 s' ∧ moved s s') s.
Proof.
  intros Hr Hm. eapply post_mono; [apply (Hm s); split; [done|apply Hr]|].
  intros a s' Hw. split; [by eapply reach_moved|apply Hw].
Qed.

Lemma run_callback_within s0 (cb : timer_callback C) : preserves (within s0) (run_callback cb).
Proof. destruct cb; [apply exec_within|apply push_back_within]. Qed.

(** A message is in the queue until it has been received. *)
Lemma deliver_front_reach s0 s q l :
  reach s0 s → queue s = q :: l → wlp (deliver_front q) (λ _ s', reach s0 s') s.
Proof.
  intros Hr Hq. unfold deliver_front. apply post_bind. eapply post_mono.
  { apply callback_reach; [done|apply endpoint_within]. }
  intros r s1 [Hr1 Hm1]. destruct (r =? 0); [done|]. run. apply post_bind.
  set (s2 := update_field _ _ s1). assert (timers_ok s2) as Hok2 by (destruct Hr1 as [[] _ _ _ _ _]; by split).
  eapply post_mono; [apply (exec_within s2); by split|].
  intros _ s3 [[_ _ _ _ _ _ (l3 & Hq3 & Ha3) Hd3 Hf3 Hv3 Hl3 Ht3 _ Hw3] Hok3]. unfold modify, post.
  destruct Hr1 as [_ Hq1 Hv1 Hl1 Ht1 (l1 & Hf1 & Hall1)]. destruct Hm1 as [_ _ _ _ _ _ (l2 & Hq2 & _) _ _ _ _ _ _ _].
  rewrite Hq in Hq2. split; simpl in *; try lia.
  - destruct Hok3. by split.
  - rewrite Ha3, Hd3, Hq3, Hq1, Hq2. simpl. rewrite <- !app_assoc. simpl. by rewrite <- ?app_assoc.
  - rewrite Hv3. auto.
  - intros x [Hx|?]%Ht3; [auto|right; lia].
  - exists l1. split; [by rewrite Hf3|done].
Qed.

Lemma process_queue_reach s0 fuel s :
  reach s0 s → wlp (process_queue fuel) (λ drained s', reach s0 s' ∧ (drained = true → queue s' = [])) s.
Proof.
  revert s. induction fuel as [|fuel IH]; intros s Hr; [done|].
  cbn [process_queue]. apply post_get. destruct (queue s) as [|q l] eqn:Hq; [done|].
  apply post_bind. eapply post_mono; [by apply (deliver_front_reach s0 s q l)|]. intros ? s' Hr'. by apply IH.
Qed.

Lemma pop_timer_ok s k t ts :
  timers_ok s → timers s = (k, t) :: ts →
  timers_ok (s <| vtime := t_when t |> <| timers := ts |> <| fired ::= λ l, l ++ [(t_when t, t_id t)] |>).
Proof.
  intros [Hs Hk Hids Hlast Hfu Hf Hp] Ht. rewrite Ht in *. apply StronglySorted_inv in Hs as [Hs Hmin].
  assert (wrapped s = false → vtime s ≤ t_when t) as Hv.
  { intros Hw. apply (Hfu (k, t) Hw). by apply elem_of_cons; left. }
  assert (((λ x, t_id x.2) <$> (k, t) :: ts) ++ (fired s).*2 ≡ₚ
    ((λ x, t_id x.2) <$> ts) ++ (fired s ++ [(t_when t, t_id t)]).*2) as Hperm.
  { rewrite fmap_app. simpl. rewrite app_assoc, <- Permutation_cons_append. reflexivity. }
  split; simpl; try done.
  - intros x Hx. apply Hk. by apply elem_of_cons; right.
  - by rewrite <- Hperm.
  - intros id. rewrite <- Hperm. apply Hlast.
  - intros x Hw Hx. rewrite Forall_forall in Hmin. specialize (Hmin x Hx). unfold key_le in Hmin.
    pose proof (Hk x) as Hkx. pose proof (Hk (k, t)) as Hkt. rewrite elem_of_cons in Hkx, Hkt. simpl in *. naive_solver lia.
  - intros Hw. rewrite fmap_app. apply StronglySorted_app_2; [|auto|repeat constructor].
    intros x y Hx Hy%list_elem_of_singleton. simpl in Hy. subst y. specialize (Hp x Hw Hx). specialize (Hv Hw). lia.
  - intros x Hw. rewrite fmap_app, elem_of_app.
    intros [Hx|Hx%list_elem_of_singleton]; [specialize (Hp x Hw Hx); specialize (Hv Hw); lia|]. simpl in Hx. lia.
Qed.

Lemma fire_timer_reach s0 s : reach s0 s → wlp fire_timer (λ _ s', reach s0 s') s.
Proof.
  intros Hr. unfold fire_timer. apply post_get. destruct (processTimers s); [|done]. simpl.
  destruct (timers s) as [|[k t] ts] eqn:Ht; [done|].
  run. eapply post_mono; [apply (callback_reach s0); [|apply run_callback_within]|by intros _ s' [? _]].
  destruct Hr as [Hok Hq Hv0 Hl Hts (l & Hf & Hall)].
  split; simpl; [by eapply pop_timer_ok|done| |done|..].
  - intros Hw. destruct (Hv0 Hw). split; [done|]. pose proof (timers_future s Hok (k, t) Hw) as Hfu.
    rewrite Ht in Hfu. specialize (Hfu ltac:(by apply elem_of_cons; left)). simpl in Hfu. lia.
  - intros x Hx. apply Hts. rewrite Ht. by apply elem_of_cons; right.
  - exists (l ++ [(t_when t, t_id t)]). split; [by rewrite Hf, app_assoc|].
    intros f [Hin|Hin%list_elem_of_singleton]%elem_of_app; [auto|]. subst f. simpl.
    destruct (Hts (k, t)) as [Hin|?]; [rewrite Ht; by apply elem_of_cons; left| |by left].
    right. by exists (k, t).
Qed.

Lemma rounds_reach s0 fuel s :
  reach s0 s → wlp (rounds fuel) (λ ended s', reach s0 s' ∧ (ended = true → idle s' = true)) s.
Proof.
  revert s. induction fuel as [|fuel IH]; intros s Hr; [done|].
  cbn [rounds]. apply post_bind. eapply post_mono; [by apply (process_queue_reach s0)|].
  intros [|] s1 [Hr1 _]; [|done]. apply post_bind. eapply post_mono; [by apply (fire_timer_reach s0)|].
  intros ? s2 Hr2. apply post_get. destruct (idle s2) eqn:Hi; [done|]. by apply IH.
Qed.

Lemma idle_inv s : idle s = true → queue s = [] ∧ (processTimers s = true → timers s = []).
Proof.
  unfold idle. intros [Hq Ht]%andb_true_iff. apply bool_decide_eq_true in Hq. split; [done|].
  intros Hp. rewrite Hp in Ht. simpl in Ht. case_bool_decide as Hn; [done|]. destruct (timers s); [done|]. by destruct Hn.
Qed.

Lemma Run_reach fuel s :
  timers_ok s → accepted s = delivered s ++ queue s →
  wlp (Run fuel) (λ ended s', reach s s' ∧ (ended = true → idle s' = true)) s.
Proof.
  intros Hok Hq. unfold Run. apply post_bind. eapply post_mono.
  { apply (callback_reach s); [by apply reach_refl|apply LookupAddresses_within]. }
  intros _ s1 [Hr1 _]. by apply rounds_reach.
Qed.

(** Whatever the program under test does, a call of [Run] that returns has handed every
    message that was put into the queue to its receiver, exactly once and in the order in which
    they were put there, and, unless timers were cancelled for good, no timer is left.  No timer
    expires twice, and none that was neither pending before nor started by the run: a cancelled
    timer never expires.  Timers expire in the order of their times, unless the time of one wraps
    around. *)
Theorem sim_run_fifo fuel s :
  timers_ok s → accepted s = delivered s ++ queue s →
  wlp (Run fuel) (λ ended s', ended = true →
    delivered s' = accepted s' ∧ queue s' = [] ∧ (processTimers s' = true → timers s' = []) ∧
    NoDup (fired s').*2 ∧ (wrapped s' = false → StronglySorted Z.le (fired s').*1 ∧ vtime s ≤ vtime s') ∧
    ∀ id, id ≤ lastTimerId s → id ∉ ((λ x, t_id x.2) <$> timers s) → id ∉ (fired s).*2 → id ∉ (fired s').*2) s.
Proof.
  intros Hok Hq. eapply post_mono; [by apply Run_reach|].
  intros ended s' [[Hok' Hq' Hv Hl Ht (l & Hf & Hall)] Hidle] ->. destruct (idle_inv s') as [Hq0 Ht0]; [auto|].
  split_and!; [by rewrite Hq', Hq0, app_nil_r|done|done|..].
  - by destruct Hok' as [_ _ (_ & _ & ?)%NoDup_app _ _ _ _].
  - intros Hw. split; [by apply Hok'|by apply Hv].
  - intros id Hle Hn Hnf. rewrite Hf, fmap_app, elem_of_app. intros [?|(f & -> & Hin)%list_elem_of_fmap]; [done|].
    apply Hall in Hin as [?|(x & Hx & ->)]; [lia|]. apply Hn. apply list_elem_of_fmap. eauto.
Qed.
End runs.

(** ** Lookups *)
Section lookups.
Context `{HO : HashOrder} {F C A : Type} `{!Filters F A} `{!Application Z C A}.
Abbreviation Sim := (SimulatedTransport F C A).
Implicit Types s : Sim.

(** Who is registered has a canonical configuration, an address and an index. *)
Definition registered_ok s : Prop :=
  ∀ r p, configurations (common s) !! r = Some p →
    is_Some (canonicalConfigs (common s) !! p) ∧
    ∃ a, addresses s !! r = Some a ∧ is_Some (replicaIdxs s !! a).

Fixpoint resolve_in s (c : Config) (i : Z) (l : list (Z * nat)) : res Z :=
  match l with
  | [] => Panic
  | (r, p) :: l =>
      match canonicalConfigs (common s) !! p, addresses s !! r with
      | Some c', Some a =>
          if decide (c' = c ∧ default 0 (replicaIdxs s !! a) = i) then Ok a else resolve_in s c i l
      | _, _ => Undefined
      end
  end.

Definition resolve_sim s c i : res Z := resolve_in s c i (by_key (configurations (common s))).

Lemma resolve_in_ext s s' c i l :
  canonicalConfigs (common s') = canonicalConfigs (common s) → addresses s' = addresses s →
  (∀ a, default 0 (replicaIdxs s' !! a) = default 0 (replicaIdxs s !! a)) →
  resolve_in s' c i l = resolve_in s c i l.
Proof.
  intros Hc Ha Hi. induction l as [|[r p] l IH]; [done|]. cbn [resolve_in]. rewrite Hc, Ha.
  destruct (_ !! p); [|done]. destruct (_ !! r); [|done]. by rewrite Hi, IH.
Qed.

Lemma resolve_ext s s' c i :
  same_tables (common s) (common s') → addresses s' = addresses s →
  (∀ a, default 0 (replicaIdxs s' !! a) = default 0 (replicaIdxs s !! a)) →
  resolve_sim s' c i = resolve_sim s c i.
Proof. intros (Hc & Hr & _) Ha Hi. unfold resolve_sim. rewrite Hr. by apply resolve_in_ext. Qed.

Lemma replica_index_run s a i : replicaIdxs s !! a = Some i → replica_index a s = Ok (i, s).
Proof.
  intros Ha. unfold replica_index, mbind, M_bind, get_st, modify, mret, M_ret. simpl. rewrite Ha. simpl.
  rewrite insert_id by done. by destruct s.
Qed.

Lemma find_replica_run s c i l :
  registered_ok s → (∀ x, x ∈ l → configurations (common s) !! x.1 = Some x.2) →
  find_replica c i l s = match resolve_in s c i l with
                         | Ok a => Ok (Some a, s)
                         | Panic => Ok (None, s)
                         | Undefined => Undefined
                         end.
Proof.
  intros Hok. induction l as [|[r p] l IH]; intros Hin; [done|].
  destruct (Hok r p) as ([c' Hc] & a & Ha & [j Hj]); [by apply (Hin (r, p)); apply elem_of_cons; left|].
  assert (Hl : ∀ x, x ∈ l → configurations (common s) !! x.1 = Some x.2) by (intros; apply Hin; by apply elem_of_cons; right).
  specialize (IH Hl). cbn [find_replica resolve_in]. rewrite Hc, Ha, Hj.
  rewrite (bind_run get_st _ s s s) by done. rewrite (bind_run _ _ s c' s) by by rewrite Hc.
  destruct (decide (c' = c)) as [->|Hne]; [|by rewrite decide_False by naive_solver].
  rewrite (bind_run _ _ s a s).
  2:{ unfold GetAddress_sim. rewrite (bind_run get_st _ s s s) by done. by rewrite Ha. }
  rewrite (bind_run _ _ s j s) by by apply replica_index_run. simpl.
  destruct (Z.eqb_spec j i) as [->|Hne]; [by rewrite decide_True|]. by rewrite decide_False by naive_solver.
Qed.

#[global] Instance sim_laws : DerivedLaws (S := Sim) sim_derived.
Proof.
  refine {| derived_wf := registered_ok; resolve := resolve_sim |}.
  - done.
  - done.
  - by intros [].
  - intros f g [] Hfg. simpl in *. by rewrite Hfg.
  - intros f s Hf Hok r p. destruct (Hf (common s)) as (Hc & Hr & _). simpl. rewrite Hr, Hc. apply Hok.
  - intros f s c i Hf. by apply resolve_ext.
  - intros c i s Hok. cbn [LookupAddress sim_derived]. unfold LookupAddress_sim, resolve_sim.
    rewrite (bind_run get_st _ s s s) by done. unfold mbind, M_bind. rewrite find_replica_run; [by destruct (resolve_in _ _ _ _)|done|].
    intros [r p]. rewrite by_key_perm. apply elem_of_map_to_list.
  - done.
Defined.

(** The address found belongs to a receiver of that configuration and index. *)
Lemma resolve_in_found s c i l a :
  resolve_in s c i l = Ok a →
  ∃ r p, (r, p) ∈ l ∧ canonicalConfigs (common s) !! p = Some c ∧ addresses s !! r = Some a ∧
    default 0 (replicaIdxs s !! a) = i.
Proof.
  induction l as [|[r p] l IH]; [done|]. cbn [resolve_in].
  destruct (canonicalConfigs _ !! p) as [c'|] eqn:Hc; [|done]. destruct (addresses s !! r) as [a'|] eqn:Ha; [|done].
  case_decide as Hd; intros H'.
  - injection H' as ->. destruct Hd as [-> ?]. exists r, p. split_and!; try done. by apply elem_of_cons; left.
  - destruct (IH H') as (r' & p' & ? & ?). exists r', p'. split; [by apply elem_of_cons; right|done].
Qed.


(** A lookup finds a replica that is registered. *)
Lemma resolve_finds s c i r p a :
  registered_ok s → configurations (common s) !! r = Some p → canonicalConfigs (common s) !! p = Some c →
  addresses s !! r = Some a → default 0 (replicaIdxs s !! a) = i → ∃ a', resolve_sim s c i = Ok a'.
Proof.
  intros Hok Hr Hc Ha Hi. unfold resolve_sim.
  assert (Hl : ∀ x, x ∈ by_key (configurations (common s)) → configurations (common s) !! x.1 = Some x.2).
  { intros [??]. rewrite by_key_perm. apply elem_of_map_to_list. }
  assert (Hin : (r, p) ∈ by_key (configurations (common s))) by by rewrite by_key_perm; apply elem_of_map_to_list.
  revert Hl Hin. induction (by_key _) as [|[r' p'] l IH]; intros Hl Hin; [by apply elem_of_nil in Hin|].
  cbn [resolve_in].
  destruct (Hok r' p') as ([c' Hc'] & a' & Ha' & _); [by apply (Hl (r', p')); apply elem_of_cons; left|].
  rewrite Hc', Ha'. case_decide as Hd; [by eexists|]. apply elem_of_cons in Hin as [[= -> ->]|Hin].
  - exfalso. apply Hd. split; congruence.
  - apply IH; [|done]. intros. apply Hl. by apply elem_of_cons; right.
Qed.

(** ** Registration and broadcast *)

(** Registration does not touch the program, nor whether timers are processed. *)
Lemma Register_keeps r c i a b : preserves (λ s : Sim, app s = a ∧ processTimers s = b) (Register_sim r c i).
Proof.
  unfold Register_sim, RegisterConfiguration, modify_base. apply preserves_bind; [apply preserves_get|intros s].
  destruct (_ || _); [apply preserves_undefined|]. apply preserves_bind; [by apply preserves_modify|intros _].
  apply preserves_bind; [|intros; by apply preserves_modify].
  destruct (_ >? _); [apply preserves_undefined|]. apply preserves_bind; [apply preserves_get|intros s'].
  apply preserves_bind.
  - destruct (position_of _ _); [apply preserves_ret|]. apply preserves_bind; [by apply preserves_modify|eauto with preserve].
  - intros p. apply preserves_bind; [by apply preserves_modify|intros _].
    apply preserves_bind; [apply preserves_when; intros _; by apply preserves_modify|intros _].
    apply preserves_bind; [by apply preserves_modify|eauto with preserve].
Qed.

(** The replicas [rs] of [c] have registered, in this order, and nobody else. *)
Record hosts (c : Config) (rs : list Z) s : Prop := {
  hosts_configs : canonicalConfigs (common s) = if decide (rs = []) then [] else [c];
  hosts_configurations r p : configurations (common s) !! r = Some p ↔ r ∈ rs ∧ p = 0%nat;
  hosts_addresses r a : addresses s !! r = Some a ↔ 0 ≤ a ∧ rs !! Z.to_nat a = Some r;
  hosts_idxs a i : replicaIdxs s !! a = Some i ↔ i = a ∧ 0 ≤ a < Z.of_nat (length rs);
  hosts_endpoints a r : endpoints s !! a = Some r ↔ 0 ≤ a ∧ rs !! Z.to_nat a = Some r;
  hosts_last : lastAddr s = Z.of_nat (length rs) - 1;
  hosts_cache : replicaAddressesInitialized (common s) = false;
  hosts_quiet : queue s = [] ∧ filters s = [] ∧ timers s = [] ∧ lastTimerId s = 0 ∧ vtime s = 0 ∧ fired s = [] ∧
    accepted s = [] ∧ delivered s = [] ∧ wrapped s = false
}.

Definition register_all (c : Config) (rs : list Z) : M Sim unit :=
  for_each (zip (seqZ 0 (Z.of_nat (length rs))) rs) (λ x, Register x.2 c x.1).

Lemma hosts_new c a : hosts c [] (SimulatedTransport_new a).
Proof.
  split; simpl; try done.
  - intros r p. rewrite lookup_empty. split; [done|]. by intros [?%elem_of_nil _].
  - intros r x. rewrite lookup_empty. split; [done|]. by intros [_ ?].
  - intros x i. rewrite lookup_empty. split; [done|lia].
  - intros x r. rewrite lookup_empty. split; [done|]. by intros [_ ?].
Qed.

Lemma lookup_snoc_Z (rs : list Z) (r r' a : Z) :
  0 ≤ a ∧ (rs ++ [r]) !! Z.to_nat a = Some r' ↔
  (0 ≤ a ∧ rs !! Z.to_nat a = Some r') ∨ (a = Z.of_nat (length rs) ∧ r' = r).
Proof.
  rewrite lookup_snoc_Some. split.
  - intros [? [[? ?]|[? ?]]]; [left; done|right; split; [lia|done]].
  - intros [[? Hl]|[-> ->]].
    + split; [done|]. left. split; [by eapply lookup_lt_Some|done].
    + split; [lia|]. right. split; [lia|done].
Qed.

Lemma hosts_register c rs r s :
  hosts c rs s → r ∉ rs → r ≠ 0 → c_n c ≤ Z.of_nat (length (replicas c)) → Z.of_nat (length rs) ≤ INT_MAX →
  wp (Register r c (Z.of_nat (length rs))) (λ _ s', hosts c (rs ++ [r]) s') s.
Proof.
  intros [Hc Hr Ha Hi He Hl Hcache Hq] Hnew Hr0 Hn Hmax. cbn [Register sim_transport]. unfold Register_sim.
  apply post_get. rewrite Hl. destruct (Z.eqb_spec (Z.of_nat (length rs) - 1) INT_MAX); [lia|].
  rewrite (proj2 (Z.eqb_neq r 0)) by done. simpl orb. cbv iota. rewrite Z.sub_add. run.
  apply post_bind. eapply post_mono; [by apply RegisterConfiguration_spec|]. simpl. intros p s' [Hp ->].
  rewrite Hc in Hp. assert (p = 0%nat) as -> by (subst p; repeat (case_decide; simpl; try done)).
  unfold modify, post. split; simpl.
  - rewrite Hc. destruct (decide (rs ++ [r] = [])) as [?%app_eq_nil|]; [naive_solver|].
    destruct (decide (rs = [])); [by rewrite decide_False by apply not_elem_of_nil|].
    by rewrite decide_True by by apply list_elem_of_singleton.
  - intros r' p'. rewrite elem_of_app, list_elem_of_singleton. destruct (decide (r = r')) as [<-|Hne].
    + rewrite insert_new_lookup_eq. destruct (configurations (common s) !! r) as [q|] eqn:Hq0; simpl.
      * apply Hr in Hq0. naive_solver.
      * naive_solver.
    + rewrite insert_new_lookup_ne, Hr by done. naive_solver.
  - intros r' a. rewrite lookup_snoc_Z, <- Ha. destruct (decide (r = r')) as [<-|Hne].
    + rewrite lookup_insert_eq. split; [naive_solver|]. intros [Hx|[-> _]]; [|done].
      apply Ha in Hx as [_ Hx]. destruct Hnew. by eapply list_elem_of_lookup_2.
    + rewrite lookup_insert_ne by done. naive_solver.
  - intros a i. rewrite length_app. simpl. destruct (decide (a = Z.of_nat (length rs))) as [->|Hne].
    + rewrite lookup_insert_eq. split; [intros [= <-]; split; lia|]. by intros [-> _].
    + rewrite lookup_insert_ne, Hi by done. split; intros [-> ?]; split; lia.
  - intros a r'. rewrite lookup_snoc_Z, <- He. destruct (decide (a = Z.of_nat (length rs))) as [->|Hne].
    + rewrite lookup_insert_eq. split; [naive_solver|]. intros [Hx|[_ ->]]; [|done].
      apply He in Hx as [_ Hx]. apply lookup_lt_Some in Hx. lia.
    + rewrite lookup_insert_ne by done. naive_solver.
  - rewrite length_app. simpl. lia.
  - done.
  - done.
Qed.

Lemma hosts_register_all c rs1 rs2 s :
  hosts c rs1 s → NoDup (rs1 ++ rs2) → 0 ∉ rs2 → c_n c ≤ Z.of_nat (length (replicas c)) →
  Z.of_nat (length (rs1 ++ rs2)) ≤ INT_MAX →
  wp (for_each (zip (seqZ (Z.of_nat (length rs1)) (Z.of_nat (length rs2))) rs2) (λ x, Register x.2 c x.1))
    (λ _ s', hosts c (rs1 ++ rs2) s') s.
Proof.
  revert rs1 s. induction rs2 as [|r rs2 IH]; intros rs1 s Hh Hnd H0 Hn Hmax.
  { simpl. apply post_ret. by rewrite app_nil_r. }
  rewrite length_cons, Nat2Z.inj_succ, seqZ_cons by lia. cbn [zip zip_with for_each].
  rewrite length_app, length_cons in Hmax. apply not_elem_of_cons in H0 as [H0 H0'].
  apply post_bind. eapply post_mono.
  { apply hosts_register; [done| |done|done|lia]. apply NoDup_app in Hnd as (_ & Hd & _).
    intros Hin. eapply Hd; [done|]. by apply elem_of_cons; left. }
  simpl. intros _ s' Hh'. replace (Z.succ (Z.of_nat (length rs1))) with (Z.of_nat (length (rs1 ++ [r]))) by (rewrite length_app; simpl; lia).
  rewrite Z.pred_succ. replace (rs1 ++ r :: rs2) with ((rs1 ++ [r]) ++ rs2) in * by by rewrite <- app_assoc.
  apply IH; try done. rewrite !length_app. simpl. lia.
Qed.

Lemma register_all_hosts c rs a :
  NoDup rs → 0 ∉ rs → c_n c ≤ Z.of_nat (length (replicas c)) → Z.of_nat (length rs) ≤ INT_MAX →
  wp (register_all c rs) (λ _ s, hosts c rs s) (SimulatedTransport_new a).
Proof. intros. apply (hosts_register_all c [] rs); [apply hosts_new|done..]. Qed.

Lemma hosts_registered c rs s : hosts c rs s → registered_ok s.
Proof.
  intros [Hc Hr Ha Hi He Hl Hcache Hq] r p [Hin ->]%Hr. rewrite Hc.
  destruct (decide (rs = [])) as [->|]; [by apply elem_of_nil in Hin|]. split; [by eexists|].
  apply list_elem_of_lookup_1 in Hin as [k Hk]. exists (Z.of_nat k).
  rewrite Ha, Nat2Z.id. split; [split; [lia|done]|]. exists (Z.of_nat k). apply Hi. apply lookup_lt_Some in Hk. lia.
Qed.

Lemma hosts_resolve c rs s i : hosts c rs s → 0 ≤ i < Z.of_nat (length rs) → resolve_sim s c i = Ok i.
Proof.
  intros Hh Hi. pose proof (hosts_registered c rs s Hh) as Hok. destruct Hh as [Hc Hr Ha Hidx He Hl Hcache Hq].
  destruct (lookup_lt_is_Some_2 rs (Z.to_nat i)) as [r Hri]; [lia|].
  assert (rs ≠ []) as Hne by by intros ->.
  destruct (resolve_finds s c i r 0%nat i) as [a Hres]; [done|..].
  - apply Hr. split; [by eapply list_elem_of_lookup_2|done].
  - rewrite Hc, decide_False by done. done.
  - apply Ha. split; [lia|done].
  - assert (replicaIdxs s !! i = Some i) as -> by (apply Hidx; lia). done.
  - rewrite Hres. unfold resolve_sim in Hres. apply resolve_in_found in Hres as (r' & p' & _ & _ & Ha' & Hi').
    apply Ha in Ha' as [? Hl'%lookup_lt_Some].
    assert (replicaIdxs s !! a = Some a) as Hia by (apply Hidx; lia). rewrite Hia in Hi'. simpl in Hi'. by rewrite Hi'.
Qed.

Lemma send_unfiltered s src a dst m :
  filters s = [] → addresses s !! src = Some a →
  SendMessageInternal_sim src dst m false s =
  Ok (true, s <| queue ::= λ l, l ++ [MkQueuedMessage dst a m.1 m.2] |>
              <| accepted ::= λ l, l ++ [MkQueuedMessage dst a m.1 m.2] |>).
Proof.
  intros Hf Ha. unfold SendMessageInternal_sim. rewrite (bind_run _ _ s a s).
  2:{ unfold GetAddress_sim. rewrite (bind_run get_st _ s s s) by done. by rewrite Ha. }
  rewrite (bind_run get_st _ s s s) by done. by rewrite Hf.
Qed.

Lemma send_to_each_unfiltered s src a m l :
  filters s = [] → addresses s !! src = Some a →
  wp (send_to_each src a m l) (λ b s', b = true ∧ endpoints s' = endpoints s ∧
    queue s' = queue s ++ ((λ x, MkQueuedMessage x.2 a m.1 m.2) <$> filter (λ x, a ≠ x.2) l)) s.
Proof.
  revert s. induction l as [|[i b] l IH]; intros s Hf Ha.
  { simpl. apply post_ret. by rewrite app_nil_r. }
  cbn [send_to_each]. rewrite filter_cons. simpl snd. destruct (decide (a = b)) as [->|Hne].
  { rewrite decide_False by naive_solver. by apply IH. }
  rewrite decide_True by done. eapply post_bind_run; [by apply send_unfiltered|]. cbv iota.
  eapply post_mono; [by apply IH|]. simpl. intros b' s' (-> & -> & ->). split_and!; [done..|].
  by rewrite <- app_assoc.
Qed.

(** When the replicas of a configuration have registered with a new transport, a message that
    one of them sends to all is queued once for each of the others, in the order of their
    indices, addressed to the receiver that registered with that index. *)
Theorem sim_broadcast (c : Config) (rs : list Z) (k : nat) (r : Z) (m : message) (a : A) :
  NoDup rs → 0 ∉ rs → c_n c = Z.of_nat (length rs) → (length rs ≤ length (replicas c))%nat →
  Z.of_nat (length rs) ≤ INT_MAX → rs !! k = Some r →
  wp (_ ← register_all c rs; SendMessageToAll r m) (λ b s, b = true ∧
    queue s = (λ j, MkQueuedMessage j (Z.of_nat k) m.1 m.2) <$> filter (λ j, Z.of_nat k ≠ j) (seqZ 0 (c_n c)) ∧
    ∀ j r', rs !! j = Some r' → endpoints s !! Z.of_nat j = Some r') (SimulatedTransport_new a).
Proof.
  intros Hnd H0 Hn Hlen Hmax Hk. apply post_bind. eapply post_mono; [apply register_all_hosts; try done; lia|].
  simpl. intros _ s Hh. assert (rs ≠ []) as Hne by by intros ->.
  pose proof (hosts_registered c rs s Hh) as Hok. pose proof (λ i, hosts_resolve c rs s i Hh) as Hres.
  destruct Hh as [Hc Hr Ha Hidx He Hl Hcache (Hq & Hf & _)]. rewrite decide_False in Hc by done.
  unfold SendMessageToAll_common. apply post_bind. eapply post_mono.
  { apply (config_of_spec s r 0%nat).
    - done.
    - simpl. rewrite Hc. apply NoDup_singleton.
    - intros c' i. simpl. rewrite Hc. intros ->%list_elem_of_singleton Hi. exists i. apply Hres. lia.
    - intros Hi. simpl in Hi. congruence.
    - apply Hr. split; [by eapply list_elem_of_lookup_2|done]. }
  simpl. intros cfg s' (-> & (f & Htab & ->) & Hca & _). apply post_get.
  destruct (Htab (common s)) as (Hc' & _ & _).
  pose proof (cached_multicast _ Hca) as Hm. simpl in Hm. simpl. rewrite Hm, lookup_empty.
  assert (addresses s !! r = Some (Z.of_nat k)) as Hrk by (apply Ha; rewrite Nat2Z.id; split; [lia|done]).
  eapply post_bind_run; [unfold GetAddress_sim, mbind, M_bind, get_st; simpl; by rewrite Hrk|].
  pose proof (cached_in_order _ 0%nat c (λ i, i) Hca) as Hord. simpl in Hord. rewrite Hord.
  2:{ by rewrite Hc', Hc. }
  2:{ intros i Hi. rewrite (resolve_ext s) by done. apply Hres. lia. }
  eapply post_mono; [by apply send_to_each_unfiltered|]. simpl. intros b s' (-> & -> & ->). split_and!; [done|..].
  - rewrite Hq. simpl. clear. induction (seqZ 0 (c_n c)) as [|j l IH]; [done|].
    rewrite fmap_cons, !filter_cons. cbn [snd]. case_decide; [rewrite !fmap_cons; by f_equal|apply IH].
  - intros j r' Hj. apply He. rewrite Nat2Z.id. split; [lia|done].
Qed.
End lookups.

(** ** Runs that end

    A potential argument: [W] gives every message and [V] every timer callback of the program
    a weight that pays for all messages and timers it leads to. *)
Section progress.
Context `{HO : HashOrder} {F C A : Type} `{!Filters F A} `{!Application Z C A}.
Abbreviation Sim := (SimulatedTransport F C A).
Implicit Types s : Sim.
Context (W : QueuedMessage → nat) (V : C → nat) (NR : nat) (D : Z).

Definition live s (a : Z) : Prop := default 0 (endpoints s !! a) ≠ 0.

(** Everybody who has an address can be reached, every replica is registered, and no configuration
    has more than [NR] replicas. *)
Record ready s : Prop := {
  ready_registered : registered_ok s;
  ready_configs : NoDup (canonicalConfigs (common s));
  ready_resolvable : resolvable s;
  ready_cache : cache_ok s;
  ready_live r a : addresses s !! r = Some a → live s a;
  ready_sizes c : c ∈ canonicalConfigs (common s) → c_n c ≤ Z.of_nat NR
}.

(** The callback [p] sends and starts timers of a total weight of at most [n], each call as its
    precondition demands. *)
Inductive tame s : prog Z C A → nat → Prop :=
| tame_return n : tame s Return n
| tame_access f k n : (∀ a, tame s (k a) n) → tame s (Access f k) n
| tame_send src dst m k w n :
    is_Some (addresses s !! src) → live s dst → (∀ a, W (MkQueuedMessage dst a m.1 m.2) + 2 ≤ w)%nat →
    tame s (k true) n → tame s (CallSend src dst m k) (w + n)
| tame_send_to_replica src i m k cfg c w n :
    is_Some (addresses s !! src) → configurations (common s) !! src = Some cfg →
    canonicalConfigs (common s) !! cfg = Some c → 0 ≤ i < c_n c →
    (∀ d a, W (MkQueuedMessage d a m.1 m.2) + 2 ≤ w)%nat →
    tame s (k true) n → tame s (CallSendToReplica src i m k) (w + n)
| tame_send_to_all src m k w n :
    is_Some (addresses s !! src) → is_Some (configurations (common s) !! src) →
    (∀ d a, W (MkQueuedMessage d a m.1 m.2) + 2 ≤ w)%nat →
    tame s (k true) n → tame s (CallSendToAll src m k) (NR * w + n)
| tame_timer ms cb k w n :
    0 ≤ ms ≤ D → (V cb + 2 ≤ w)%nat → (∀ id, tame s (k id) n) → tame s (CallTimer ms cb k) (w + n)
| tame_cancel id k n : (∀ b, tame s (k b) n) → tame s (CallCancelTimer id k) n
| tame_cancel_all k n : tame s k n → tame s (CallCancelAllTimers k) n.

(** A program whose reactions weigh less than what they react to, and filters that neither add
    weight nor delay messages for longer than [D]. *)
Record terminating s : Prop := {
  reactions r q : live s (q_dst q) → live s (q_src q) → default 0 (endpoints s !! q_dst q) = r →
    ∃ n, (n < W q)%nat ∧ tame s (ReceiveMessage r (q_src q) (q_type q) (q_msg q)) n;
  callbacks_tame c : tame s (callback c) (V c);
  filters_fair f src i r j m delay a pass data delay' a' :
    filter_call f src i r j m delay a = (pass, data, delay', a') → 0 ≤ delay ≤ D →
    0 ≤ delay' ≤ D ∧ ∀ d x, (W (MkQueuedMessage d x m.1 data) ≤ W (MkQueuedMessage d x m.1 m.2))%nat
}.

Definition weight (cb : timer_callback C) : nat := match cb with Callback c => S (V c) | PushBack q => S (W q) end.

Definition pot s : nat := (sum_list_with W (queue s) + sum_list_with (λ x, weight (t_cb x.2)) (timers s))%nat.

Definition deliverable s (q : QueuedMessage) : Prop := live s (q_dst q) ∧ live s (q_src q).

Record good s : Prop := {
  good_ready : ready s;
  good_timers : timers_ok s;
  good_when x : x ∈ timers s → vtime s ≤ t_when x.2 ≤ vtime s + D;
  good_time : 0 ≤ D ∧ 0 ≤ vtime s ∧ vtime s + D < 2 ^ 64;
  good_queue q : q ∈ queue s → deliverable s q;
  good_delayed x q : x ∈ timers s → t_cb x.2 = PushBack q → deliverable s q;
  good_wrapped : wrapped s = false
}.

(** [m] returns, and spends at most [n]. *)
Definition spends {B} (n : nat) (m : M Sim B) (P : B → Sim → Prop) s : Prop :=
  good s → lastTimerId s + Z.of_nat (pot s + n) ≤ INT_MAX →
  wp m (λ b s', good s' ∧ moved s s' ∧ lastTimerId s' + Z.of_nat (pot s') ≤ lastTimerId s + Z.of_nat (pot s + n) ∧ P b s') s.

Lemma spends_ret {B} n (b : B) (P : B → Sim → Prop) s : P b s → spends n (mret b) P s.
Proof. intros HP Hg Hmax. apply post_ret. split_and!; [done|done|lia|done]. Qed.

Lemma spends_bind {B B'} n1 n2 (m : M Sim B) (k : B → M Sim B') P Q s :
  spends n1 m P s → (∀ b s', good s' → moved s s' → P b s' → spends n2 (k b) Q s') → spends (n1 + n2) (m ≫= k) Q s.
Proof.
  intros Hm Hk Hg Hmax. apply post_bind. eapply post_mono; [apply Hm; [done|lia]|].
  simpl. intros b s' (Hg' & Hmv & Hp & HP). eapply post_mono; [apply (Hk b s' Hg' Hmv HP); [done|lia]|].
  simpl. intros b' s'' (? & ? & ? & ?). split_and!; [done|by etransitivity|lia|done].
Qed.

Lemma spends_get {B} n (k : Sim → M Sim B) P s : spends n (k s) P s → spends n (get_st ≫= k) P s.
Proof. intros Hk Hg Hmax. apply post_get. by apply Hk. Qed.

Lemma spends_mono {B} n n' (m : M Sim B) (P Q : B → Sim → Prop) s :
  spends n m P s → (n ≤ n')%nat → (∀ b s', P b s' → Q b s') → spends n' m Q s.
Proof.
  intros Hm Hn HPQ Hg Hmax. eapply post_mono; [apply Hm; [done|lia]|].
  simpl. intros b s' (? & ? & ? & ?). split_and!; [done|done|lia|auto].
Qed.

Lemma live_moved s s' a : moved s s' → live s' a ↔ live s a.
Proof. intros Hm. unfold live. by rewrite (moved_endpoints _ _ Hm). Qed.

Lemma deliverable_moved s s' q : moved s s' → deliverable s' q ↔ deliverable s q.
Proof. intros Hm. unfold deliverable. by rewrite !(live_moved s s'). Qed.

Lemma resolve_moved s s' c i : moved s s' → resolve_sim s' c i = resolve_sim s c i.
Proof. intros [?]. by apply resolve_ext. Qed.

Lemma ready_moved s s' : moved s s' → cache_ok s' → ready s → ready s'.
Proof.
  intros Hm Hcache [Hok Hnd Hres _ Hlive Hsz]. pose proof (λ c i, resolve_moved s s' c i Hm) as Hr.
  pose proof (λ a, live_moved s s' a Hm) as Hl. destruct Hm as [(Hc & Hcf & _) Ha _ _ Hsub _ _ _ _ _ _ _ _].
  split.
  - intros r p. rewrite Hcf, Hc, Ha. intros [? (a & ? & [i Hi])]%Hok. split; [done|]. exists a. split; [done|].
    exists i. by eapply lookup_weaken.
  - by rewrite Hc.
  - intros c i. simpl. rewrite Hc, Hr. apply Hres.
  - done.
  - intros r a. rewrite Ha, Hl. apply Hlive.
  - intros c. rewrite Hc. apply Hsz.
Qed.

Lemma cache_ok_moved s s' : moved s s' → common s' = common s → cache_ok s → cache_ok s'.
Proof.
  intros Hm Hc Hok. unfold cache_ok. simpl. rewrite Hc. intros Hi. destruct (Hok Hi) as [Ha Hmul]. split.
  - intros cfg c i a. simpl. rewrite Hc, (resolve_moved s s') by done. apply Ha.
  - simpl. by rewrite Hc.
Qed.

(** Calls that touch neither the queue nor the timers. *)
Lemma good_same s s' :
  within s s' → cache_ok s' → timers s' = timers s → queue s' = queue s → wrapped s' = wrapped s → good s → good s'.
Proof.
  intros [Hm Hok] Hcache Ht Hq Hwr [Hr _ Hw Htime Hqs Hds Hnw]. pose proof (moved_vtime _ _ Hm) as Hv.
  split; rewrite ?Ht, ?Hq, ?Hv; try done.
  - by eapply ready_moved.
  - intros q Hin. rewrite deliverable_moved by done. by apply Hqs.
  - intros x q Hin Hcb. rewrite deliverable_moved by done. by eapply Hds.
  - congruence.
Qed.

Lemma spends_same {B} n (m : M Sim B) (P : B → Sim → Prop) s :
  preserves (within s) m →
  (good s → wp m (λ b s', cache_ok s' ∧ timers s' = timers s ∧ queue s' = queue s ∧ lastTimerId s' = lastTimerId s ∧
    wrapped s' = wrapped s ∧ P b s') s) →
  spends n m P s.
Proof.
  intros Hpres Hm Hg Hmax. specialize (Hm Hg). apply wp_run in Hm as (b & s' & Hrun & Hc & Ht & Hq & Hl & Hwr & HP).
  assert (within s s') as Hw.
  { assert (within s s) as Hws by (split; [done|apply Hg]). specialize (Hpres s Hws). unfold post in Hpres. by rewrite Hrun in Hpres. }
  unfold post. rewrite Hrun. split_and!; [by eapply good_same|apply Hw| |done].
  unfold pot. rewrite Ht, Hq, Hl. lia.
Qed.

Lemma access_spends f s : spends 0 (access f) (λ _ _, True) s.
Proof.
  apply spends_same; [apply access_within|]. intros Hg. unfold access. apply post_get. run. apply post_ret.
  split_and!; try done. eapply (cache_ok_moved s); [|done|apply Hg].
  split; simpl; try done; [|tauto]. exists []. by rewrite !app_nil_r.
Qed.

Lemma run_moved {B} s (m : M Sim B) b s' : timers_ok s → preserves (within s) m → m s = Ok (b, s') → within s s'.
Proof.
  intros Hok Hpres Hrun. assert (within s s) as Hw by by split.
  specialize (Hpres s Hw). unfold post in Hpres. by rewrite Hrun in Hpres.
Qed.

Lemma endpoint_spends a s : spends 0 (endpoint a) (λ r _, r = default 0 (endpoints s !! a)) s.
Proof.
  apply spends_same; [apply endpoint_within|]. intros Hg. apply wp_run.
  exists (default 0 (endpoints s !! a)), (s <| endpoints ::= <[a := default 0 (endpoints s !! a)]> |>). split; [reflexivity|].
  split_and!; try done. eapply (cache_ok_moved s); [|done|apply Hg].
  by apply (run_moved s (endpoint a) (default 0 (endpoints s !! a))); [apply Hg|apply endpoint_within|].
Qed.

Lemma replica_index_spends a s : spends 0 (replica_index a) (λ _ _, True) s.
Proof.
  apply spends_same; [apply replica_index_within|]. intros Hg. apply wp_run.
  exists (default 0 (replicaIdxs s !! a)), (s <| replicaIdxs ::= <[a := default 0 (replicaIdxs s !! a)]> |>). split; [reflexivity|].
  split_and!; try done. eapply (cache_ok_moved s); [|done|apply Hg].
  by apply (run_moved s (replica_index a) (default 0 (replicaIdxs s !! a))); [apply Hg|apply replica_index_within|].
Qed.

Lemma set_app_spends a s : spends 0 (modify (λ s, s <| app := a |>)) (λ _ _, True) s.
Proof.
  assert (∀ s1, moved s1 (s1 <| app := a |>)) as Hmv.
  { intros s1. split; simpl; try done; [|tauto]. exists []. by rewrite !app_nil_r. }
  apply spends_same.
  - apply preserves_modify. intros s1. by apply within_same.
  - intros Hg. unfold post, modify. split_and!; try done. apply (cache_ok_moved s); [apply Hmv|done|apply Hg].
Qed.

Lemma GetAddress_spends r s : is_Some (addresses s !! r) → spends 0 (GetAddress_sim r) (λ a _, addresses s !! r = Some a) s.
Proof.
  intros [a Ha] Hg Hmax. unfold GetAddress_sim. apply post_get. rewrite Ha. apply post_ret. split_and!; [done|done|lia|done].
Qed.

Lemma pass_filters_spends s0 s fs src a dst m delay :
  terminating s0 → 0 ≤ delay ≤ D →
  spends 0 (pass_filters fs src a dst m delay) (λ o _, ∀ data delay', o = Some (data, delay') →
    0 ≤ delay' ≤ D ∧ ∀ d x, (W (MkQueuedMessage d x m.1 data) ≤ W (MkQueuedMessage d x m.1 m.2))%nat) s.
Proof.
  intros Hterm. revert m delay s. induction fs as [|[k f] fs IH]; intros m delay s Hd.
  { apply spends_ret. intros ?? [= <- <-]. split; [done|lia]. }
  cbn [pass_filters]. apply (spends_bind 0 0 _ _ _ _ _ (replica_index_spends a s)). intros i s1 _ _ _.
  apply (spends_bind 0 0 _ _ _ _ _ (endpoint_spends dst s1)). intros r s2 _ _ _.
  apply (spends_bind 0 0 _ _ _ _ _ (replica_index_spends dst s2)). intros j s3 Hg3 _ _.
  apply spends_get. destruct (filter_call _ _ _ _ _ _ _ _) as [[[pass data] delay'] a'] eqn:Hf.
  apply (filters_fair s0 Hterm) in Hf as [Hd' HW]; [|done].
  apply (spends_bind 0 0 _ _ _ _ _ (set_app_spends a' s3)). intros _ s4 Hg4 _ _.
  destruct pass; [|by apply spends_ret]. rewrite u64_small.
  2:{ destruct Hg4 as [_ _ _ [? [? ?]] _ _ _]. unfold is_u64, u64_modulus. lia. }
  eapply spends_mono; [by apply IH|done|]. simpl. intros o _ Ho data' delay'' Heq. destruct (Ho _ _ Heq) as [? Hle].
  split; [done|]. intros d x. specialize (Hle d x). specialize (HW d x). simpl in *. lia.
Qed.

Lemma push_back_spends q s : deliverable s q → spends (W q) (push_back q) (λ _ _, True) s.
Proof.
  intros Hq Hg Hmax. set (s' := s <| queue ::= λ l, l ++ [q] |> <| accepted ::= λ l, l ++ [q] |>).
  assert (within s s') as [Hm Hok] by (apply (run_moved s (push_back q) tt); [apply Hg|apply push_back_within|done]).
  apply wp_run. exists tt, s'. split; [reflexivity|].
  split_and!; [|done|unfold pot, s'; simpl; rewrite sum_list_with_app; simpl; lia|done].
  destruct Hg as [Hr Hto Hw Htime Hqs Hds Hnw]. split; try done.
  - eapply ready_moved; [done|by apply (cache_ok_moved s); try apply Hr|done].
  - intros q'. simpl. rewrite deliverable_moved by done.
    intros [?|Hx%list_elem_of_singleton]%elem_of_app; [by apply Hqs|by subst q'].
Qed.

Lemma start_timer_spends ms cb s :
  0 ≤ ms ≤ D → (∀ q, cb = PushBack q → deliverable s q) →
  spends (S (weight cb)) (start_timer ms cb) (λ _ _, True) s.
Proof.
  intros Hms Hcb Hg Hmax. unfold start_timer.
  assert (lastTimerId s ≠ INT_MAX) as Hl by lia.
  assert (∃ s', start_timer ms cb s = Ok (lastTimerId s + 1, s') ∧
    s' = s <| lastTimerId := lastTimerId s + 1 |>
           <| timers ::= multimap_insert (vtime s + ms) (MkPendingTimer (vtime s + ms) (lastTimerId s + 1) cb) |>
           <| wrapped := false |>) as (s' & Hrun & Hs').
  { eexists. split; [|reflexivity]. unfold start_timer. rewrite (bind_run get_st _ s s s) by done.
    rewrite (proj2 (Z.eqb_neq _ _)) by done. simpl.
    destruct Hg as [_ _ _ [? [? ?]] _ _ Hnw]. rewrite u64_small by (unfold is_u64, u64_modulus; lia).
    unfold mbind, M_bind, modify. simpl. by rewrite Hnw, (proj2 (Z.ltb_ge _ _)) by lia. }
  assert (within s s') as [Hm Hok] by (eapply (run_moved s (start_timer ms cb)); [apply Hg|apply start_timer_within|done]).
  apply wp_run. exists (lastTimerId s + 1), s'. split; [exact Hrun|].
  destruct Hg as [Hr Hto Hw Htime Hqs Hds Hnw].
  assert (∀ x, x ∈ timers s' → x ∈ timers s ∨ x.2 = MkPendingTimer (vtime s + ms) (lastTimerId s + 1) cb) as Hin.
  { intros x. rewrite Hs'. simpl. rewrite multimap_insert_perm. intros [->|?]%elem_of_cons; [by right|by left]. }
  split_and!; [|done| |done].
  - split.
    + eapply ready_moved; [done|apply (cache_ok_moved s); [done|by rewrite Hs'|apply Hr]|done].
    + done.
    + intros x Hx. rewrite (moved_vtime _ _ Hm). apply Hin in Hx as [?| ->]; [auto|]. simpl. lia.
    + by rewrite (moved_vtime _ _ Hm).
    + intros q. rewrite deliverable_moved by done. rewrite Hs'. apply Hqs.
    + intros x q Hx Hq. rewrite deliverable_moved by done. apply Hin in Hx as [?|Hx]; [by eapply Hds|].
      rewrite Hx in Hq. auto.
    + by rewrite Hs'.
  - unfold pot. rewrite Hs'. simpl. rewrite multimap_insert_perm. simpl. lia.
Qed.

Lemma SendMessageInternal_spends s0 s src dst m w :
  terminating s0 → is_Some (addresses s !! src) → live s dst → (∀ a, W (MkQueuedMessage dst a m.1 m.2) + 2 ≤ w)%nat →
  spends w (SendMessageInternal_sim src dst m false) (λ b _, b = true) s.
Proof.
  intros Hterm Hsrc Hdst HW. unfold SendMessageInternal_sim.
  apply (spends_bind 0 w _ _ _ _ _ (GetAddress_spends src s Hsrc)). intros a s1 Hg1 Hm1 Ha.
  apply spends_get. assert (0 ≤ D) as HD by apply Hg1.
  eapply (spends_bind 0 w); [apply (pass_filters_spends s0); [done|lia]|]. intros o s2 Hg2 Hm2 Ho.
  destruct o as [[data delay]|]; [|by apply spends_ret]. destruct (Ho data delay) as [Hd Hle]; [done|].
  specialize (Hle dst a). specialize (HW a).
  assert (deliverable s2 (MkQueuedMessage dst a m.1 data)) as Hdel.
  { assert (moved s s2) as Hm by by etransitivity. unfold deliverable. simpl. rewrite !(live_moved s s2) by done. split; [done|].
    apply (live_moved s s1 a Hm1). apply (ready_live s1 (good_ready s1 Hg1) src). by rewrite (moved_addresses _ _ Hm1). }
  replace w with (w + 0)%nat by lia. eapply (spends_bind w 0); [|intros; by apply spends_ret].
  destruct (delay =? 0).
  - eapply spends_mono; [by apply push_back_spends|lia|done].
  - replace w with (w + 0)%nat by lia. eapply (spends_bind w 0); [|intros; by apply (spends_ret 0 tt (λ _ _, True))].
    eapply spends_mono; [apply start_timer_spends; [done|intros q [= <-]; done]|simpl; lia|done].
Qed.

Lemma config_of_spends s src cfg :
  configurations (common s) !! src = Some cfg →
  spends 0 (config_of src) (λ cfg' s', cfg' = cfg ∧ cached s') s.
Proof.
  intros Hsrc. apply spends_same; [apply config_of_within|]. intros [[Hok Hnd Hres Hc _ _] _ _ _ _ _].
  eapply post_mono; [by apply (config_of_spec s src cfg)|]. simpl.
  intros cfg' s' (-> & (f & Hf & ->) & Hca & _). split_and!; [by intros _|done..].
Qed.

Lemma cached_live s cfg c i a :
  ready s → cached s → canonicalConfigs (common s) !! cfg = Some c → addresses_of cfg (common s) !! i = Some a → live s a.
Proof.
  intros Hr [Hca _] Hcfg Hi. apply (Hca cfg c) in Hi as [_ Hi]; [|done]. simpl in Hi. unfold resolve_sim in Hi.
  apply resolve_in_found in Hi as (r & p & _ & _ & Ha & _). by eapply ready_live.
Qed.

Lemma SendMessageToReplica_spends s0 s src i m cfg c w :
  terminating s0 → is_Some (addresses s !! src) → configurations (common s) !! src = Some cfg →
  canonicalConfigs (common s) !! cfg = Some c → 0 ≤ i < c_n c →
  (∀ d a, W (MkQueuedMessage d a m.1 m.2) + 2 ≤ w)%nat →
  spends w (SendMessageToReplica_common src i m) (λ b _, b = true) s.
Proof.
  intros Hterm Hsrc Hcf Hc Hi HW. unfold SendMessageToReplica_common.
  apply (spends_bind 0 w _ _ _ _ _ (config_of_spends s src cfg Hcf)). intros cfg' s1 Hg1 Hm1 [-> Hca].
  apply spends_get. simpl.
  assert (canonicalConfigs (common s1) !! cfg = Some c) as Hc1 by by rewrite (proj1 (moved_tables _ _ Hm1)).
  destruct (ready_resolvable s1 (good_ready s1 Hg1) c i) as [a Ha]; [by eapply list_elem_of_lookup_2|done|].
  assert (addresses_of cfg (common s1) !! i = Some a) as Hx by by apply (cached_address _ Hca cfg c).
  rewrite Hx. apply (SendMessageInternal_spends s0); [done| | |done].
  - by rewrite (moved_addresses _ _ Hm1).
  - eapply cached_live; [apply Hg1|done..].
Qed.

Lemma send_to_each_spends s0 s src a m l w :
  terminating s0 → is_Some (addresses s !! src) → (∀ x, x ∈ l → live s x.2) →
  (∀ d a, W (MkQueuedMessage d a m.1 m.2) + 2 ≤ w)%nat →
  spends (length l * w) (send_to_each src a m l) (λ b _, b = true) s.
Proof.
  intros Hterm. revert s. induction l as [|[i b] l IH]; intros s Hsrc Hl HW; [by apply spends_ret|].
  assert (∀ x, x ∈ l → live s x.2) as Hl' by (intros; apply Hl; by apply elem_of_cons; right).
  cbn [send_to_each length]. case_decide; [eapply spends_mono; [by apply IH|lia|done]|].
  apply (spends_bind w (length l * w) _ _ (λ b _, b = true)).
  { apply (SendMessageInternal_spends s0); [done..| |done]. apply (Hl (i, b)). by apply elem_of_cons; left. }
  intros b' s1 Hg1 Hm1 ->. apply IH; [by rewrite (moved_addresses _ _ Hm1)| |done].
  intros x Hx. rewrite (live_moved s s1) by done. by apply Hl'.
Qed.

Lemma cached_size s cfg c :
  ready s → cached s → canonicalConfigs (common s) !! cfg = Some c → (length (by_key (addresses_of cfg (common s))) ≤ NR)%nat.
Proof.
  intros Hr Hca Hcfg.
  assert (length (by_key (addresses_of cfg (common s))) ≤ length (seqZ 0 (c_n c)))%nat as Hle.
  { rewrite <- (length_fmap fst). apply submseteq_length, NoDup_submseteq.
    - rewrite by_key_perm. apply NoDup_fst_map_to_list.
    - intros i ([j a] & -> & Hin)%list_elem_of_fmap. rewrite by_key_perm in Hin. apply elem_of_map_to_list in Hin.
      apply (cached_address _ Hca cfg c) in Hin as [? _]; [|done]. apply elem_of_seqZ. simpl. lia. }
  rewrite length_seqZ in Hle. pose proof (ready_sizes s Hr c) as Hn.
  assert (c_n c ≤ Z.of_nat NR) by (apply Hn; by eapply list_elem_of_lookup_2). lia.
Qed.

Lemma SendMessageToAll_spends s0 s src m w :
  terminating s0 → is_Some (addresses s !! src) → is_Some (configurations (common s) !! src) →
  (∀ d a, W (MkQueuedMessage d a m.1 m.2) + 2 ≤ w)%nat →
  spends (NR * w) (SendMessageToAll_common src m) (λ b _, b = true) s.
Proof.
  intros Hterm Hsrc [cfg Hcf] HW. unfold SendMessageToAll_common.
  apply (spends_bind 0 (NR * w) _ _ _ _ _ (config_of_spends s src cfg Hcf)). intros cfg' s1 Hg1 Hm1 [-> Hca].
  apply spends_get. pose proof (cached_multicast _ Hca) as Hmul. simpl in Hmul. simpl. rewrite Hmul, lookup_empty.
  assert (configurations (common s1) !! src = Some cfg) as Hcf1 by by rewrite (proj1 (proj2 (moved_tables _ _ Hm1))).
  destruct (ready_registered s1 (good_ready s1 Hg1) src cfg Hcf1) as ([c Hc] & _).
  assert (is_Some (addresses s1 !! src)) as Hsrc1 by by rewrite (moved_addresses _ _ Hm1).
  apply (spends_bind 0 (NR * w) _ _ _ _ _ (GetAddress_spends src s1 Hsrc1)). intros a s2 Hg2 Hm2 _.
  eapply spends_mono.
  - apply (send_to_each_spends s0); [done|by rewrite (moved_addresses _ _ Hm2)| |done].
    intros [i b]. rewrite by_key_perm, elem_of_map_to_list, (live_moved s1 s2) by done.
    intros Hi. eapply cached_live; [apply Hg1|done..].
  - apply Nat.mul_le_mono_r. eapply cached_size; [apply Hg1|done..].
  - done.
Qed.

Lemma CancelTimer_spends id s : spends 0 (CancelTimer_sim id) (λ _ _, True) s.
Proof.
  intros Hg Hmax. set (s' := s <| timers ::= filter (λ x, t_id x.2 ≠ id) |>).
  assert (CancelTimer_sim id s = Ok (bool_decide (Exists (λ x, t_id x.2 = id) (timers s)), s')) as Hrun by done.
  assert (within s s') as [Hm Hok] by (eapply run_moved; [apply Hg|apply CancelTimer_within|exact Hrun]).
  apply wp_run. eexists _, _. split; [exact Hrun|]. split_and!; [|done| |done].
  - destruct Hg as [Hr Hto Hw Htime Hqs Hds]. split; try done.
    + eapply ready_moved; [done|apply (cache_ok_moved s); [done|done|apply Hr]|done].
    + intros x [_ Hx]%list_elem_of_filter. by apply Hw.
    + intros x q [_ Hx]%list_elem_of_filter Hcb. rewrite deliverable_moved by done. by eapply Hds.
  - unfold pot, s'. simpl. enough (∀ l : list (Z * PendingTimer C), sum_list_with (λ x, weight (t_cb x.2)) (filter (λ x, t_id x.2 ≠ id) l) ≤
      sum_list_with (λ x, weight (t_cb x.2)) l)%nat as Hle by (specialize (Hle (timers s)); lia).
    clear. intros l. induction l as [|x l IH]; [done|]. rewrite filter_cons. case_decide; simpl; lia.
Qed.

Lemma CancelAllTimers_spends s : spends 0 CancelAllTimers_sim (λ _ _, True) s.
Proof.
  intros Hg Hmax. set (s' := s <| timers := [] |> <| processTimers := false |>).
  assert (CancelAllTimers_sim s = Ok (tt, s')) as Hrun by done.
  assert (within s s') as [Hm Hok] by (eapply run_moved; [apply Hg|apply CancelAllTimers_within|exact Hrun]).
  apply wp_run. eexists _, _. split; [exact Hrun|]. split_and!; [|done|unfold pot, s'; simpl; lia|done].
  destruct Hg as [Hr Hto Hw Htime Hqs Hds]. split; try done.
  - eapply ready_moved; [done|apply (cache_ok_moved s); [done|done|apply Hr]|done].
  - by intros x Hx%elem_of_nil.
  - by intros x q Hx%elem_of_nil.
Qed.

(** The tables of receivers, which do not change during a run. *)
Definition static s0 s : Prop :=
  canonicalConfigs (common s) = canonicalConfigs (common s0) ∧ configurations (common s) = configurations (common s0) ∧
  addresses s = addresses s0 ∧ ∀ a, default 0 (endpoints s !! a) = default 0 (endpoints s0 !! a).

Lemma static_moved s0 s s' : static s0 s → moved s s' → static s0 s'.
Proof.
  intros (? & ? & ? & He) [(? & ? & _) ? He' _ _ _ _ _ _ _ _ _ _]. split_and!; [congruence..|].
  intros a. by rewrite He', He.
Qed.

Lemma static_live s0 s a : static s0 s → live s a ↔ live s0 a.
Proof. intros (_ & _ & _ & He). unfold live. by rewrite He. Qed.

Lemma exec_spends s0 s p n : terminating s0 → static s0 s → tame s0 p n → spends n (exec access p) (λ _ _, True) s.
Proof.
  intros Hterm Hst Hp. revert s Hst.
  induction Hp as [n|f k n _ IH|src dst m k w n Hsrc Hdst HW _ IH|src i m k cfg c w n Hsrc Hcf Hc Hi HW _ IH
    |src m k w n Hsrc Hcf HW _ IH|ms cb k w n Hms HV _ IH|id k n _ IH|k n _ IH]; intros s Hst; cbn [exec].
  - by apply spends_ret.
  - apply (spends_bind 0 n _ _ _ _ _ (access_spends f s)). intros a s1 _ Hm _. apply IH. by eapply static_moved.
  - apply (spends_bind w n _ _ (λ b _, b = true)).
    { apply (SendMessageInternal_spends s0); [done| | |done].
      - destruct Hst as (_ & _ & -> & _). done.
      - by apply (static_live s0 s). }
    intros b s1 _ Hm ->. apply IH. by eapply static_moved.
  - apply (spends_bind w n _ _ (λ b _, b = true)).
    { destruct Hst as (Hc' & Hcf' & Ha & _). apply (SendMessageToReplica_spends s0 s src i m cfg c); try done; congruence. }
    intros b s1 _ Hm ->. apply IH. by eapply static_moved.
  - apply (spends_bind (NR * w) n _ _ (λ b _, b = true)).
    { destruct Hst as (Hc' & Hcf' & Ha & _). apply (SendMessageToAll_spends s0); try done; congruence. }
    intros b s1 _ Hm ->. apply IH. by eapply static_moved.
  - apply (spends_bind w n _ _ (λ _ _, True)).
    { eapply spends_mono; [apply (start_timer_spends ms (Callback cb)); done|simpl; lia|done]. }
    intros id s1 _ Hm _. apply IH. by eapply static_moved.
  - apply (spends_bind 0 n _ _ _ _ _ (CancelTimer_spends id s)). intros b s1 _ Hm _. apply IH. by eapply static_moved.
  - apply (spends_bind 0 n _ _ _ _ _ (CancelAllTimers_spends s)). intros b s1 _ Hm _. apply IH. by eapply static_moved.
Qed.

(** What a run keeps, in terms of where it started. *)
Record running s0 s : Prop := {
  running_static : static s0 s;
  running_good : good s;
  running_ids : lastTimerId s + 2 * Z.of_nat (pot s) ≤ INT_MAX;
  running_time : vtime s + D * (Z.of_nat (pot s) + 1) < 2 ^ 64
}.

Lemma running_after s0 s s' :
  running s0 s → static s0 s' → good s' → vtime s' + D * Z.of_nat (pot s') ≤ vtime s + D * Z.of_nat (pot s) →
  (pot s' ≤ pot s)%nat → lastTimerId s' + Z.of_nat (pot s') ≤ lastTimerId s + Z.of_nat (pot s) → running s0 s'.
Proof. intros [] ??? Hp ?. split; [done|done|lia|lia]. Qed.

(** Only the tables count. *)
Lemma ready_ext s s' :
  common s' = common s → addresses s' = addresses s → endpoints s' = endpoints s → replicaIdxs s' = replicaIdxs s →
  ready s → ready s'.
Proof.
  intros Hc Ha He Hi [Hok Hnd Hres Hcache Hlive Hsz].
  assert (∀ c i, resolve_sim s' c i = resolve_sim s c i) as Hr by (intros; apply resolve_ext; by rewrite ?Hc, ?Hi).
  split; unfold registered_ok, resolvable, cache_ok, live in *; simpl in *; rewrite ?Hc, ?Ha, ?He, ?Hi; try done.
  - intros c i. rewrite Hr. apply Hres.
  - intros Hini. destruct (Hcache Hini) as [Hca Hmul]. split; simpl; rewrite ?Hc; [|done].
    intros cfg c i a. rewrite Hr. apply Hca.
Qed.

Lemma good_ext s s' :
  common s' = common s → addresses s' = addresses s → endpoints s' = endpoints s → replicaIdxs s' = replicaIdxs s →
  timers s' = timers s → vtime s' = vtime s → lastTimerId s' = lastTimerId s → fired s' = fired s →
  wrapped s' = wrapped s → (∀ q, q ∈ queue s' → q ∈ queue s) → good s → good s'.
Proof.
  intros Hc Ha He Hi Ht Hv Hl Hf Hwr Hq [Hr Hto Hw Htime Hqs Hds Hnw].
  assert (∀ q, deliverable s' q ↔ deliverable s q) as Hd by (intros; unfold deliverable, live; by rewrite He).
  split.
  - by apply (ready_ext s).
  - destruct Hto. by split; rewrite ?Ht, ?Hf, ?Hl, ?Hv, ?Hwr.
  - by rewrite Ht, Hv.
  - by rewrite Hv.
  - intros q Hin. apply Hd. auto.
  - intros x q. rewrite Ht, Hd. apply Hds.
  - by rewrite Hwr.
Qed.

Lemma deliver_front_runs s0 s q l :
  terminating s0 → running s0 s → queue s = q :: l →
  wp (deliver_front q) (λ _ s', running s0 s' ∧ (pot s' < pot s)%nat) s.
Proof.
  intros Hterm Hrun Hq. destruct Hrun as [Hst Hg Hids Htime] eqn:E. clear E.
  assert (W q ≤ pot s)%nat as HWq by (unfold pot; rewrite Hq; simpl; lia).
  unfold deliver_front. apply post_bind. eapply post_mono; [apply (endpoint_spends (q_dst q) s Hg); lia|].
  simpl. intros r s1 (Hg1 & Hm1 & Hp1 & ->).
  destruct (good_queue s Hg q) as [Hd Hs]; [rewrite Hq; by apply elem_of_cons; left|].
  rewrite (proj2 (Z.eqb_neq _ _)) by done. run. set (s2 := s1 <| delivered ::= λ l, l ++ [q] |>).
  assert (static s0 s1) as Hst1 by by eapply static_moved.
  assert (good s2) as Hg2 by by apply (good_ext s1).
  apply (static_live s0) in Hd, Hs; [|done..].
  destruct (reactions s0 Hterm (default 0 (endpoints s !! q_dst q)) q) as (n & Hn & Ht); [done..|by destruct Hst as (_ & _ & _ & ->)|].
  assert (pot s2 = pot s1) as Hpot2 by done. assert (lastTimerId s2 = lastTimerId s1) as Hl2 by done.
  apply post_bind. eapply post_mono; [apply (exec_spends s0 s2 _ n); [done|done|done|done|]; lia|].
  simpl. intros _ s3 (Hg3 & Hm3 & Hp3 & _). unfold modify, post.
  destruct (moved_queue _ _ Hm1) as (l1 & Hq1 & _). destruct (moved_queue _ _ Hm3) as (l3 & Hq3 & _).
  assert (queue s3 = q :: (l ++ l1) ++ l3) as Hq3'.
  { rewrite Hq3. change (queue s2) with (queue s1). by rewrite Hq1, Hq. }
  set (s4 := s3 <| queue ::= tail |>).
  assert (pot s4 + W q = pot s3)%nat as Hpot4 by (unfold pot, s4; simpl; rewrite Hq3'; simpl; lia).
  assert (lastTimerId s4 = lastTimerId s3) as Hl4 by done. assert (vtime s4 = vtime s) as Hv4.
  { change (vtime s4) with (vtime s3). rewrite (moved_vtime _ _ Hm3). apply (moved_vtime _ _ Hm1). }
  pose proof (moved_last _ _ Hm1). pose proof (moved_last _ _ Hm3).
  assert (0 ≤ D) as HD by apply Hg.
  change (running s0 s4 ∧ (pot s4 < pot s)%nat). split; [|lia]. apply (running_after s0 s); [done|..].
  - assert (static s0 s3) as Hst3 by by apply (static_moved s0 s2). exact Hst3.
  - apply (good_ext s3); try done. unfold s4. simpl. intros x Hx. destruct (queue s3); [done|]. by apply elem_of_cons; right.
  - rewrite Hv4. nia.
  - lia.
  - lia.
Qed.

Lemma process_queue_runs s0 fuel s :
  terminating s0 → running s0 s → (pot s < fuel)%nat →
  wp (process_queue fuel) (λ b s', b = true ∧ queue s' = [] ∧ running s0 s' ∧ (pot s' ≤ pot s)%nat) s.
Proof.
  intros Hterm. revert s. induction fuel as [|fuel IH]; intros s Hrun Hfuel; [lia|].
  cbn [process_queue]. apply post_get. destruct (queue s) as [|q l] eqn:Hq; [by apply post_ret|].
  apply post_bind. eapply post_mono; [by apply (deliver_front_runs s0 s q l)|]. simpl. intros _ s1 [Hr1 Hp1].
  eapply post_mono; [apply IH; [done|lia]|]. simpl. intros b s2 (-> & ? & ? & ?). split_and!; [done..|lia].
Qed.

Lemma pop_timer_good s k t ts :
  good s → timers s = (k, t) :: ts → t_when t + D < 2 ^ 64 →
  good (s <| vtime := t_when t |> <| timers := ts |> <| fired ::= λ l, l ++ [(t_when t, t_id t)] |>).
Proof.
  intros [Hr Hto Hw Htime Hqs Hds Hnw] Ht Hlt.
  assert (∀ x, x ∈ ts → x ∈ timers s) as Hin by (intros; rewrite Ht; by apply elem_of_cons; right).
  assert ((k, t) ∈ timers s) as H0 by (rewrite Ht; by apply elem_of_cons; left).
  pose proof (Hw _ H0) as Hwt. simpl in Hwt. split.
  - by apply (ready_ext s).
  - by apply (pop_timer_ok s k).
  - intros x Hx. simpl in *. pose proof (Hw x (Hin x Hx)). pose proof (timers_sorted s Hto) as Hs. rewrite Ht in Hs.
    apply StronglySorted_inv in Hs as [_ Hall]. rewrite Forall_forall in Hall. specialize (Hall x Hx).
    unfold key_le in Hall. simpl in Hall. rewrite (timers_key s Hto x (Hin x Hx)) in Hall.
    pose proof (timers_key s Hto _ H0) as Hk. simpl in Hk. lia.
  - simpl. lia.
  - done.
  - intros x q Hx Hcb. by apply (Hds x q (Hin x Hx)).
  - done.
Qed.

Lemma fire_timer_runs s0 s :
  terminating s0 → running s0 s → queue s = [] →
  wp fire_timer (λ _ s', running s0 s' ∧ ((pot s' < pot s)%nat ∨ idle s' = true)) s.
Proof.
  intros Hterm Hrun Hq. unfold fire_timer. apply post_get.
  destruct (processTimers s) eqn:Hp; simpl.
  2:{ apply post_ret. split; [done|]. right. unfold idle. by rewrite Hq, Hp. }
  destruct (timers s) as [|[k t] ts] eqn:Ht.
  { apply post_ret. split; [done|]. right. unfold idle. by rewrite Hq, Hp, Ht. }
  destruct Hrun as [Hst Hg Hids Htime] eqn:E. clear E.
  assert ((k, t) ∈ timers s) as H0 by (rewrite Ht; by apply elem_of_cons; left).
  pose proof (good_when s Hg _ H0) as Hw. simpl in Hw. assert (0 ≤ D) as HD by apply Hg.
  assert (pot s = weight (t_cb t) + sum_list_with (λ x, weight (t_cb x.2)) ts)%nat as Hpot by (unfold pot; rewrite Hq, Ht; done).
  assert (1 ≤ weight (t_cb t))%nat as Hwt by (destruct (t_cb t); simpl; lia).
  run.
  set (s1 := s <| vtime := t_when t |> <| timers := ts |> <| fired ::= λ l, l ++ [(t_when t, t_id t)] |>).
  assert (good s1) as Hg1 by (apply (pop_timer_good s k); [done|done|]; nia).
  assert (pot s1 + weight (t_cb t) = pot s)%nat as Hpot1 by (rewrite Hpot; unfold pot; simpl; rewrite Hq; simpl; lia).
  assert (static s0 s1) as Hst1 by done. assert (lastTimerId s1 = lastTimerId s) as Hl1 by done.
  assert (spends (weight (t_cb t) - 1) (run_callback (t_cb t)) (λ _ _, True) s1) as Hcb.
  { unfold run_callback. destruct (t_cb t) as [c|q] eqn:Hcb; simpl; rewrite Nat.sub_0_r.
    - apply (exec_spends s0); [done|done|]. by apply callbacks_tame.
    - apply push_back_spends. by apply (good_delayed s Hg (k, t)). }
  eapply post_mono; [apply Hcb; [done|lia]|]. simpl. intros _ s2 (Hg2 & Hm2 & Hp2 & _).
  pose proof (moved_last _ _ Hm2). pose proof (moved_vtime _ _ Hm2) as Hv2. simpl in Hv2.
  assert (pot s2 < pot s)%nat as Hlt by lia. split; [|by left].
  apply (running_after s0 s); [done|by eapply static_moved|done|rewrite Hv2; nia|lia|lia].
Qed.

Lemma rounds_runs s0 fuel s :
  terminating s0 → running s0 s → (pot s < fuel)%nat → wp (rounds fuel) (λ b s', b = true ∧ wrapped s' = false) s.
Proof.
  intros Hterm. revert s. induction fuel as [|fuel IH]; intros s Hrun Hfuel; [lia|].
  cbn [rounds]. apply post_bind. eapply post_mono; [by apply (process_queue_runs s0)|].
  simpl. intros b s1 (-> & Hq1 & Hr1 & Hp1). apply post_bind. eapply post_mono; [by apply (fire_timer_runs s0)|].
  simpl. intros _ s2 [Hr2 Hor]. apply post_get. destruct (idle s2); [by apply post_ret; split; [|apply Hr2]|].
  destruct Hor as [?|?]; [|done]. apply IH; [done|lia].
Qed.

Lemma LookupAddresses_runs s0 s :
  running s0 s → wp (LookupAddresses (S := Sim)) (λ _ s', running s0 s' ∧ pot s' = pot s) s.
Proof.
  intros Hrun. destruct Hrun as [Hst Hg Hids Htime] eqn:E. clear E.
  destruct (good_ready s Hg) as [Hok Hnd Hres _ _ _].
  pose proof (LookupAddresses_spec s Hok Hnd Hres) as Hspec.
  apply wp_run in Hspec as (u & s' & Hrn & (f & Hf & ->) & Hca & _). apply wp_run. eexists _, _. split; [exact Hrn|].
  assert (within s (with_base f s)) as Hw by (eapply run_moved; [apply Hg|apply LookupAddresses_within|exact Hrn]).
  split; [|done]. split; [by eapply static_moved; [done|apply Hw]| |done|done].
  apply (good_same s); try done. by intros _.
Qed.

(** A transport with which the replicas of one configuration have registered. *)
Lemma hosts_good c rs s :
  hosts c rs s → rs ≠ [] → 0 ∉ rs → c_n c = Z.of_nat (length rs) → (length rs ≤ NR)%nat → 0 ≤ D < 2 ^ 64 → good s.
Proof.
  intros Hh Hne H0 Hn HNR HD. pose proof (hosts_registered c rs s Hh) as Hok. pose proof (λ i, hosts_resolve c rs s i Hh) as Hres.
  destruct Hh as [Hc Hr Ha Hidx He Hl Hcache (Hq & Hf & Ht & Hlast & Hv & Hfi & _ & _ & Hnw)]. rewrite decide_False in Hc by done.
  split; rewrite ?Ht, ?Hq, ?Hv.
  - split.
    + done.
    + rewrite Hc. apply NoDup_singleton.
    + intros c' i. simpl. rewrite Hc. intros ->%list_elem_of_singleton Hi. exists i. apply Hres. lia.
    + intros Hi. simpl in Hi. congruence.
    + intros r a [? Hra]%Ha. unfold live. assert (endpoints s !! a = Some r) as -> by by apply He. simpl.
      intros ->. apply H0. by eapply list_elem_of_lookup_2.
    + intros c'. rewrite Hc. intros ->%list_elem_of_singleton. lia.
  - split; rewrite ?Ht, ?Hfi; simpl; try done; try apply NoDup_nil_2; try constructor; try (by intros x Hx%elem_of_nil);
      try (by intros x _ Hx%elem_of_nil).
  - by intros x Hx%elem_of_nil.
  - lia.
  - by intros x Hx%elem_of_nil.
  - by intros x q Hx%elem_of_nil.
  - done.
Qed.

(** Whom a message can reach has an address. *)
Lemma hosts_reachable c rs s0 s a :
  hosts c rs s0 → static s0 s → live s a → is_Some (addresses s !! default 0 (endpoints s !! a)).
Proof.
  intros [_ _ Ha _ He _ _ _] (_ & _ & -> & Hst) Hl. unfold live in Hl. rewrite Hst in *.
  destruct (endpoints s0 !! a) as [r|] eqn:Hr; [|done]. simpl in *. exists a. apply Ha, He, Hr.
Qed.

(** C28: A run ends if the program under test pays for what it causes: when every reaction to a
    message or timer sends messages and starts timers of less weight than what it reacts to, [Run]
    returns, without a panic or undefined behaviour, after at most as many rounds as
    the weights of what is queued and pending amount to; then every message that was accepted
    has been delivered, in order, no timer is pending unless timers were cancelled for good, and
    timers expired in the order of their times. *)
Theorem sim_run_terminates s fuel :
  terminating s → good s → accepted s = delivered s ++ queue s →
  lastTimerId s + 2 * Z.of_nat (pot s) ≤ INT_MAX → vtime s + D * (Z.of_nat (pot s) + 1) < 2 ^ 64 →
  (pot s < fuel)%nat →
  wp (Run fuel) (λ ended s', ended = true ∧ delivered s' = accepted s' ∧ queue s' = [] ∧
    (processTimers s' = true → timers s' = []) ∧ NoDup (fired s').*2 ∧ StronglySorted Z.le (fired s').*1) s.
Proof.
  intros Hterm Hg Hfifo Hids Htime Hfuel.
  assert (wp (Run fuel) (λ b s', b = true ∧ wrapped s' = false) s) as Hrun.
  { unfold Run. apply post_bind. eapply post_mono; [by apply (LookupAddresses_runs s)|].
    simpl. intros _ s1 [Hr1 Hp1]. apply (rounds_runs s); [done|done|lia]. }
  apply wp_run in Hrun as (b & s' & Hrun & -> & Hnw).
  pose proof (Run_reach fuel s (good_timers s Hg) Hfifo) as Hr. rewrite wlp_run in Hr. destruct (Hr _ _ Hrun) as [Hreach Hidle].
  apply wp_run. exists true, s'. split; [done|]. destruct (idle_inv s') as [Hq Ht]; [auto|].
  destruct Hreach as [[_ _ (_ & _ & ?)%NoDup_app _ _ Hsorted _] Hf _ _ _ _]. split_and!; try done; [|by apply Hsorted].
  by rewrite Hf, Hq, app_nil_r.
Qed.
End progress.

(** ** A small program

    Three replicas; whoever receives a text answers with its tail until nothing is left, a timer
    makes the first replica send to all, and a filter delays texts of two characters. *)
Module SimDemo.
(** The state a call leaves. *)
Definition final {S B} (m : M S B) (s : S) : S := match m s with Ok (_, s') => s' | _ => s end.

Lemma wp_final {S B} (m : M S B) (Q : S → Prop) s : wp m (λ _, Q) s → Q (final m s).
Proof. unfold post, final. by destruct (m s) as [[]| |]. Qed.

Definition sim_config : Config :=
  let a p := MkReplicaAddress ["h"%char] [p] in MkConfig 3 1 [a "1"%char; a "2"%char; a "3"%char] None.
Definition sim_replicas : list Z := [11; 12; 13].
#[export] Instance sim_order : HashOrder := default_order.
#[export] Instance sim_filters : Filters unit nat := λ _ _ _ _ _ m delay n,
  (true, m.2, if decide (String.length m.2 = 2%nat) then 5 else delay, n).
#[export] Instance sim_program : Application Z unit nat := {|
  ReceiveMessage := λ r remote type data,
    match data with
    | EmptyString => Access S (λ _, Return)
    | String _ d => CallSend r remote (type, d) (λ _, Return)
    end;
  callback := λ _, CallSendToAll 11 ("Text", "ab") (λ _, Return)
|}.
Definition W (q : QueuedMessage) : nat := 3 * String.length (q_msg q) + 1.
Definition V (_ : unit) : nat := 27.
Abbreviation DemoSim := (SimulatedTransport unit unit nat).

Definition sim_hosted : DemoSim := final (register_all sim_config sim_replicas) (SimulatedTransport_new 0%nat).

(** A filter is added, a timer started and a message sent. *)
Definition sim_start : M DemoSim bool :=
  _ ← AddFilter 1 tt; _ ← Timer 7 tt; SendMessageToReplica 12 0 ("Text", "abc").

Definition sim_started : DemoSim := final sim_start sim_hosted.

Example sim_demo_run :
  match Run 100 sim_started with
  | Ok (true, s) => bool_decide (delivered s = accepted s) && bool_decide (queue s = [])
      && bool_decide (fired s = [(5, 2); (7, 1); (12, 3); (12, 4)]) && bool_decide (app s = 3%nat)
      && bool_decide (length (delivered s) = 10%nat)
  | _ => false
  end = true.
Proof. vm_compute. reflexivity. Qed.

(** A delayed message waits in the timers: cancelling all of them loses it, although the call that
    sent it returned [true]. *)
Example sim_cancel_loses_message :
  match (_ ← AddFilter 1 tt; b ← SendMessageToReplica 12 0 ("Text", "ab"); _ ← CancelAllTimers; _ ← Run 100; mret b) sim_hosted with
  | Ok (true, s) => bool_decide (delivered s = []) && bool_decide (timers s = [])
  | _ => false
  end = true.
Proof. vm_compute. reflexivity. Qed.

Lemma sim_hosted_ok : hosts sim_config sim_replicas sim_hosted.
Proof.
  apply (wp_final _ (hosts sim_config sim_replicas)). apply register_all_hosts; [by apply (bool_decide_unpack _)|by apply (bool_decide_unpack _)|done|done].
Qed.

Section start.
Context (s0 : DemoSim) (Hs0 : hosts sim_config sim_replicas s0).

Lemma sim_address i r : sim_replicas !! i = Some r → addresses s0 !! r = Some (Z.of_nat i).
Proof. intros Hi. apply (hosts_addresses _ _ _ Hs0). rewrite Nat2Z.id. split; [lia|done]. Qed.

Lemma sim_configuration i r : sim_replicas !! i = Some r → configurations (common s0) !! r = Some 0%nat.
Proof. intros Hi. apply (hosts_configurations _ _ _ Hs0). split; [by eapply list_elem_of_lookup_2|done]. Qed.

Lemma sim_terminating s : static s0 s → terminating W V 3 10 s.
Proof.
  intros Hst. split.
  - intros r q Hd Hs Hr. unfold W. destruct (q_msg q) as [|ch d] eqn:Hq; simpl ReceiveMessage.
    + exists 0%nat. split; [simpl; lia|]. constructor. intros. constructor.
    + exists (3 * String.length d + 3 + 0)%nat. split; [simpl; lia|]. constructor; [|done| |constructor].
      * rewrite <- Hr. by eapply hosts_reachable.
      * intros a. simpl. lia.
  - intros []. change (V tt) with (3 * 9 + 0)%nat. destruct Hst as (_ & Hc & Ha & _). constructor.
    + rewrite Ha. eexists. by apply (sim_address 0).
    + rewrite Hc. eexists. by apply (sim_configuration 0).
    + intros d a. unfold W. simpl. lia.
    + constructor.
  - intros f src i r j m delay a pass data delay' a' [= _ <- <- _] Hd. split; [case_decide; lia|done].
Qed.

Lemma sim_start_good : wp sim_start (λ _ s, good 3 10 s ∧ static s0 s) s0.
Proof.
  unfold sim_start, AddFilter. run. set (s1 := s0 <| filters ::= multimap_insert 1 tt |>).
  assert (good 3 10 s1) as Hg1.
  { apply (good_ext 3 10 s0); try done. eapply hosts_good; [done|done| |done|simpl; lia|lia]. by apply (bool_decide_unpack _). }
  assert (lastTimerId s1 = 0 ∧ pot W V s1 = 0%nat) as [Hl Hp].
  { destruct (hosts_quiet _ _ _ Hs0) as (Hq & _ & Ht & Hl & _). split; [done|]. unfold pot. simpl. by rewrite Hq, Ht. }
  assert (static s0 s1) as Hst1 by done. clearbody s1.
  assert (spends W V 3 10 41 (_ ← Timer 7 tt; SendMessageToReplica 12 0 ("Text", "abc")) (λ _ _, True) s1) as Hsp.
  { apply (spends_bind W V 3 10 29 12 _ _ (λ _ _, True)).
    - exact (start_timer_spends W V 3 10 7 (Callback tt) s1 ltac:(lia) ltac:(done)).
    - intros id s Hg Hm _. eapply spends_mono; [|reflexivity|done].
      assert (static s0 s) as Hst by by apply (static_moved s0 s1). destruct (Hst) as (Hcs & Hc & Ha & _).
      apply (SendMessageToReplica_spends W V 3 10 s s 12 0 ("Text", "abc") 0%nat sim_config 12).
      + by apply sim_terminating.
      + rewrite Ha. eexists. by apply (sim_address 1).
      + rewrite Hc. by apply (sim_configuration 1).
      + rewrite Hcs, (hosts_configs _ _ _ Hs0). done.
      + done.
      + intros d a. unfold W. simpl. lia. }
  eapply post_mono; [apply Hsp; [done|rewrite Hl, Hp; done]|].
  simpl. intros b s (Hg & Hm & _). split; [done|]. by apply (static_moved s0 s1).
Qed.
End start.

Lemma sim_started_good : good 3 10 sim_started ∧ static sim_hosted sim_started.
Proof.
  apply (wp_final sim_start (λ s, good 3 10 s ∧ static sim_hosted s)). apply sim_start_good, sim_hosted_ok.
Qed.

Lemma sim_run_fifo_witness :
  wlp (Run 100) (λ ended s', ended = true →
    delivered s' = accepted s' ∧ queue s' = [] ∧ (processTimers s' = true → timers s' = []) ∧
    NoDup (fired s').*2 ∧ (wrapped s' = false → StronglySorted Z.le (fired s').*1 ∧ vtime sim_started ≤ vtime s') ∧
    ∀ id, id ≤ lastTimerId sim_started → id ∉ ((λ x, t_id x.2) <$> timers sim_started) →
      id ∉ (fired sim_started).*2 → id ∉ (fired s').*2) sim_started.
Proof. apply (sim_run_fifo 100 sim_started); [apply (good_timers 3 10), sim_started_good|vm_compute; reflexivity]. Defined.

Lemma sim_broadcast_witness :
  wp (_ ← register_all (F := unit) sim_config sim_replicas; SendMessageToAll 12 ("Text", "x")) (λ b s, b = true ∧
    queue (s : DemoSim) = (λ j, MkQueuedMessage j 1 "Text" "x") <$> filter (λ j, 1 ≠ j) (seqZ 0 3) ∧
    ∀ j r', sim_replicas !! j = Some r' → endpoints s !! Z.of_nat j = Some r') (SimulatedTransport_new 0%nat : DemoSim).
Proof.
  apply (sim_broadcast sim_config sim_replicas 1 12 ("Text", "x") 0%nat);
    [by apply (bool_decide_unpack _)|by apply (bool_decide_unpack _)|done|simpl; lia|done|done].
Defined.

Lemma sim_run_terminates_witness :
  wp (Run 100) (λ ended s', ended = true ∧ delivered s' = accepted s' ∧ queue s' = [] ∧
    (processTimers s' = true → timers s' = []) ∧ NoDup (fired s').*2 ∧ StronglySorted Z.le (fired s').*1) sim_started.
Proof.
  destruct sim_started_good as [Hg Hst].
  apply (sim_run_terminates W V 3 10 sim_started 100);
    [exact (sim_terminating sim_hosted sim_hosted_ok sim_started Hst)|exact Hg|vm_compute; reflexivity|vm_compute; done|vm_compute; done|vm_compute; lia].
Defined.
End SimDemo.
