(* ===== verification/ReplTransport.v ===== *)
(** The transport for the command line, of [lib/repltransport.h] and [lib/repltransport.cc]: a user
    delivers messages and triggers timers one by one.

    Strings are lists of characters.  [app] is the memory of the program, whose receivers and
    callbacks are an [Application].  [cin] holds the lines of the standard input that a newline
    ends: [RunOne] gives up at the end of the file, also when a last line without newline has
    been read.  [out] is what was printed; the text of a message ([DebugString] of protobuf) is a
    parameter.  An exception that nobody catches ends the process like [Panic].  The closure of a
    timer must not be destroyed while it is called ([running]).  A callback gets the sender's
    address as a value: the code passes a reference into the vector of messages. *)

From stdpp Require Import pretty.
From S2P Require Import ConfigFile Timers TransportCommon.
From S2P Require Import Prelude.
From Stdlib Require Import Ascii.

(** ** Helpers on strings *)

(** [split]: [getline] with a delimiter until the stream is at its end. *)
Fixpoint split (delim : ascii) (s : str) : list str :=
  match s with
  | [] => []
  | c :: s =>
      if decide (c = delim) then [] :: split delim s
      else match split delim s with
           | [] => [[c]]
           | w :: ws => (c :: w) :: ws
           end
  end.

Definition is_number (s : str) : bool :=
  bool_decide (s ≠ []) && forallb (λ c, bool_decide (is_Some (digit c))) s.

(** [std::stoi] of a number: it throws when the value is not an [int]. *)
Definition stoi (s : str) : res Z :=
  let v := digits_value s 0 in if v >? INT_MAX then Panic else Ok v.

(** [str->find(oldStr, pos)] on the part of the string behind [pos]: what is before the first
    occurrence, and what is behind it. *)
Fixpoint find_str (old s : str) : option (str * str) :=
  if decide (take (length old) s = old) then Some ([], drop (length old) s)
  else match s with
       | [] => None
       | c :: s => '(before, after) ← find_str old s; Some (c :: before, after)
       end.

(** The loop of [string_replace]; the length of the string bounds its rounds when [old] is not
    empty. *)
Fixpoint replace_loop (fuel : nat) (old new s : str) : str :=
  match fuel with
  | O => s
  | S fuel =>
      match find_str old s with
      | None => s
      | Some (before, after) => before ++ new ++ replace_loop fuel old new after
      end
  end.

Definition string_replace (s old new : str) : str := replace_loop (S (length s)) old new s.

Definition text (s : string) : str := String.list_ascii_of_string s.

Definition to_string (n : Z) : str := text (pretty n).

(** ** Addresses *)

Record ReplTransportAddress := MkReplTransportAddress { Host : str; Port : str }.

#[global] Instance ReplTransportAddress_eq_dec : EqDecision ReplTransportAddress.
Proof. solve_decision. Defined.

#[global] Instance ReplTransportAddress_countable : Countable ReplTransportAddress.
Proof.
  refine (inj_countable' (λ a, (Host a, Port a)) (λ p, MkReplTransportAddress p.1 p.2) _). by intros [].
Defined.

(** The order of strings, and of addresses by [Key]. *)
Fixpoint str_leb (a b : str) : bool :=
  match a, b with
  | [], _ => true
  | _ :: _, [] => false
  | c :: a, d :: b =>
      if (N_of_ascii c <? N_of_ascii d)%N then true
      else if (N_of_ascii d <? N_of_ascii c)%N then false
      else str_leb a b
  end.

Definition addr_le {V} (x y : ReplTransportAddress * V) : Prop :=
  (if decide (Host x.1 = Host y.1) then str_leb (Port x.1) (Port y.1) else str_leb (Host x.1) (Host y.1)) = true.

#[global] Instance addr_le_dec {V} (x y : ReplTransportAddress * V) : Decision (addr_le x y).
Proof. unfold addr_le. apply _. Defined.

(** ** The transport *)

(** A receiver that has not registered is a null pointer. *)
Record TransportReceiverState := MkTransportReceiverState { receiver : Z; msgs : list (ReplTransportAddress * message) }.

#[global] Instance TransportReceiverState_eta : Eta TransportReceiverState := λ r,
  MkTransportReceiverState (receiver r) (msgs r).

Record ReplTransport (C A : Type) := MkReplTransport {
  common : TransportCommon ReplTransportAddress;
  app : A;
  addresses : gmap Z ReplTransportAddress;
  receivers_ : gmap ReplTransportAddress TransportReceiverState;
  timer_id_ : Z;
  timers_ : gmap Z C;
  client_id_ : Z;
  history_ : list str;
  running : option Z;
  cin : list str;
  out : str
}.
Arguments MkReplTransport {_ _} _ _ _ _ _ _ _ _ _ _ _.
Arguments common {_ _} _.
Arguments app {_ _} _.
Arguments addresses {_ _} _.
Arguments receivers_ {_ _} _.
Arguments timer_id_ {_ _} _.
Arguments timers_ {_ _} _.
Arguments client_id_ {_ _} _.
Arguments history_ {_ _} _.
Arguments running {_ _} _.
Arguments cin {_ _} _.
Arguments out {_ _} _.

#[global] Instance ReplTransport_eta C A : Eta (ReplTransport C A) := λ s,
  MkReplTransport (common s) (app s) (addresses s) (receivers_ s) (timer_id_ s) (timers_ s) (client_id_ s) (history_ s)
    (running s) (cin s) (out s).

Definition ReplTransport_new {C A} (a : A) (lines : list str) : ReplTransport C A :=
  MkReplTransport TransportCommon_new a ∅ ∅ 0 ∅ 0 [] None lines [].

(** The entry that [receivers_[addr]] makes. *)
Definition unregistered : TransportReceiverState := MkTransportReceiverState 0 [].

(** A quotation mark. *)
Definition quote : str := ["034"%char].

Definition render_deliver (addr : ReplTransportAddress) (index : Z) : str :=
  text "transport.DeliverMessage({" ++ quote ++ Host addr ++ quote ++ text ", " ++ quote ++ Port addr ++ quote ++
  text "}, " ++ to_string index ++ text ");".

Definition render_trigger (timer_id : Z) : str := text "transport.TriggerTimer(" ++ to_string timer_id ++ text ");".

Section repl.
Context `{HO : HashOrder} {C A : Type} `{!Application ReplTransportAddress C A} (DebugString : message → str).
Abbreviation Repl := (ReplTransport C A).
Abbreviation MR := (M Repl).

Definition print (l : str) : MR unit := modify (λ s, s <| out ::= λ o, o ++ l |>).

Definition endl : str := ["010"%char].

Definition GetAddress_repl (r : Z) : MR ReplTransportAddress := s ← get_st; deref (addresses s !! r).

Definition set_receiver (addr : ReplTransportAddress) (f : TransportReceiverState → TransportReceiverState) : MR unit :=
  modify (λ s, s <| receivers_ ::= λ m, <[addr := f (default unregistered (m !! addr))]> m |>).

Definition SendMessageInternal_repl (src : Z) (dst : ReplTransportAddress) (m : message) (multicast : bool) : MR bool :=
  repl_addr ← GetAddress_repl src;
  _ ← set_receiver dst (λ r, r <| msgs ::= λ l, l ++ [(repl_addr, m)] |>);
  mret true.

Definition LookupAddress_repl (cfg : Config) (replicaIdx : Z) : MR ReplTransportAddress :=
  addr ← lift_res (replica cfg replicaIdx);
  mret (MkReplTransportAddress (host addr) (port addr)).

#[global] Instance repl_extends : Extends ReplTransportAddress Repl := {|
  base := common;
  with_base := λ f s, s <| common ::= f |>
|}.

#[global] Instance repl_derived : Derived ReplTransportAddress Repl := {|
  derived_extends := repl_extends;
  GetAddress := GetAddress_repl;
  SendMessageInternal := SendMessageInternal_repl;
  LookupAddress := LookupAddress_repl;
  LookupMulticastAddress := λ _, mret None
|}.

Definition Register_repl (r : Z) (config : Config) (replicaIdx : Z) : MR unit :=
  repl_addr ← (if replicaIdx =? -1 then
    s ← get_st;
    if client_id_ s =? INT_MAX then undefined
    else
      _ ← modify (λ s, s <| client_id_ ::= λ n, n + 1 |>);
      mret (MkReplTransportAddress (text "client") (to_string (client_id_ s)))
  else
    addr ← lift_res (replica config replicaIdx);
    mret (MkReplTransportAddress (host addr) (port addr)));
  if r =? 0 then undefined
  else
    _ ← modify (λ s, s <| addresses ::= <[r := repl_addr]> |>);
    _ ← set_receiver repl_addr (λ x, x <| receiver := r |>);
    _ ← RegisterConfiguration r config replicaIdx;
    mret tt.

Definition Timer_repl (ms : Z) (cb : C) : MR Z :=
  s ← get_st;
  if timer_id_ s =? INT_MAX then undefined
  else
    let id := timer_id_ s + 1 in
    _ ← modify (λ s, s <| timer_id_ := id |>);
    if decide (running s = Some id) then undefined
    else _ ← modify (λ s, s <| timers_ ::= <[id := cb]> |>); mret id.

Definition CancelTimer_repl (id : Z) : MR bool :=
  s ← get_st;
  match timers_ s !! id with
  | None => mret false
  | Some _ =>
      if decide (running s = Some id) then undefined
      else _ ← modify (λ s, s <| timers_ ::= delete id |>); mret true
  end.

Definition CancelAllTimers_repl : MR unit :=
  s ← get_st;
  match running s with
  | Some _ => undefined
  | None => modify (λ s, s <| timers_ := ∅ |>)
  end.

#[global] Instance repl_transport : Transport Repl ReplTransportAddress C := {|
  Register := Register_repl;
  SendMessage := SendMessage_common;
  SendMessageToReplica := SendMessageToReplica_common;
  SendMessageToAll := SendMessageToAll_common;
  Timer := Timer_repl;
  CancelTimer := CancelTimer_repl;
  CancelAllTimers := CancelAllTimers_repl
|}.

Definition access (f : A → A) : MR A := s ← get_st; _ ← modify (λ s, s <| app ::= f |>); mret (app s).

Definition push_history (l : str) : MR unit := modify (λ s, s <| history_ ::= λ h, h ++ [l] |>).

(** An address that is not there is entered, with a null receiver. *)
Definition DeliverMessage (addr : ReplTransportAddress) (index : Z) : MR bool :=
  _ ← push_history (render_deliver addr index);
  s ← get_st;
  match receivers_ s !! addr with
  | None => _ ← set_receiver addr id; mret false
  | Some state =>
      if receiver state =? 0 then mret false
      else if index <? 0 then panic
      else
        match msgs state !! Z.to_nat index with
        | None => panic
        | Some (src, m) => _ ← exec access (ReceiveMessage (receiver state) src m.1 m.2); mret true
        end
  end.

(** The entry made for a timer that is not there is an empty function, and calling it throws. *)
Definition TriggerTimer (timer_id : Z) : MR unit :=
  _ ← push_history (render_trigger timer_id);
  s ← get_st;
  match timers_ s !! timer_id with
  | None => panic
  | Some cb =>
      _ ← modify (λ s, s <| running := Some timer_id |>);
      _ ← exec access (callback cb);
      modify (λ s, s <| running := None |>)
  end.

(** The text that [PrintState] writes. *)
Definition state_text (s : Repl) : str :=
  text "- History" ++ endl ++
  concat ((λ command, text "    " ++ command ++ endl) <$> history_ s) ++
  text "- Timers" ++ endl ++
  concat ((λ p, text "  - [" ++ to_string p.1 ++ text "]" ++ endl) <$> by_key (timers_ s)) ++
  concat ((λ p : ReplTransportAddress * TransportReceiverState,
    text "- " ++ Host p.1 ++ text ":" ++ Port p.1 ++
    (if receiver p.2 =? 0 then text " [not registered]" else []) ++ endl ++
    concat (imap (λ i (x : ReplTransportAddress * message),
      text "  - [" ++ to_string (Z.of_nat i) ++ text "] " ++ text x.2.1 ++ endl ++ text "        " ++
      string_replace (DebugString x.2) endl (endl ++ text "        ") ++ endl) (msgs p.2)))
    <$> merge_sort addr_le (map_to_list (receivers_ s))).

Definition PrintState : MR unit := s ← get_st; print (state_text s).

Definition usage : str := text "Usage: quit | show | <timer_id> | <host> <port> <index>".

(** The loop of [RunOne]: a line that is no command is answered with the usage, and the next one
    is read. *)
Fixpoint RunOne_loop (lines : list str) : MR bool :=
  _ ← print (text "> ");
  match lines with
  | [] => mret true
  | line :: lines =>
      _ ← modify (λ s, s <| cin := lines |>);
      let again := _ ← print (usage ++ endl); RunOne_loop lines in
      match split " "%char line with
      | [w] =>
          if decide (w = text "quit") then mret true
          else if decide (w = text "show") then _ ← PrintState; mret false
          else if is_number w then
            timer_id ← lift_res (stoi w);
            _ ← TriggerTimer timer_id;
            mret false
          else again
      | [w0; w1; w2] =>
          if negb (is_number w2) then again
          else
            index ← lift_res (stoi w2);
            let addr := MkReplTransportAddress w0 w1 in
            s ← get_st;
            match receivers_ s !! addr with
            | None => _ ← print (text "Receiver not found." ++ endl); RunOne_loop lines
            | Some _ => _ ← DeliverMessage addr index; mret false
            end
      | _ => again
      end
  end.

Definition RunOne : MR bool := s ← get_st; RunOne_loop (cin s).

(** Every call of [RunOne] but the last reads a line. *)
Fixpoint Run_loop (fuel : nat) : MR bool :=
  match fuel with
  | O => mret false
  | S fuel => done ← RunOne; if (done : bool) then mret true else Run_loop fuel
  end.

Definition Run : MR bool := s ← get_st; Run_loop (S (length (cin s))).
End repl.

(** ** Numbers *)

Definition decimal (ds : str) (v : Z) : Prop :=
  Forall (λ c, is_Some (digit c)) ds ∧ ∀ v0 rest, digits_value (ds ++ rest) v0 = digits_value rest (v0 * 10 ^ Z.of_nat (length ds) + v).

Lemma decimal_nil : decimal [] 0.
Proof. split; [constructor|]. intros. simpl. f_equal. lia. Qed.

Lemma digit_char x : (x < 10)%N → digit (pretty_N_char x) = Some (Z.of_N x).
Proof.
  intros Hx. assert (x ∈ [0; 1; 2; 3; 4; 5; 6; 7; 8; 9]%N) as Hin by (rewrite !elem_of_cons; lia).
  repeat (apply elem_of_cons in Hin as [->|Hin]; [done|]). by apply elem_of_nil in Hin.
Qed.

(** The first digit is not a zero. *)
Definition leading (ds : str) : Prop := ∃ c ds', ds = c :: ds' ∧ digit c ≠ Some 0.

Lemma pretty_go_decimal x s :
  ∃ ds, text (pretty_N_go x s) = ds ++ text s ∧ decimal ds (Z.of_N x) ∧ (x ≠ 0%N → leading ds) ∧ (x = 0%N → ds = []).
Proof.
  revert s. induction (N.lt_wf_0 x) as [x _ IH]. intros s. destruct (decide (x = 0%N)) as [->|Hx].
  { exists []. rewrite pretty_N_go_0. split_and!; [done|apply decimal_nil|done|done]. }
  rewrite pretty_N_go_step by lia.
  destruct (IH (x `div` 10)%N) with (s := String (pretty_N_char (x `mod` 10)) s) as (ds & Htext & [Hdig Hval] & Hlead & Hnil);
    [apply N.div_lt; lia|].
  exists (ds ++ [pretty_N_char (x `mod` 10)]). assert (x `mod` 10 < 10)%N as Hm by (apply N.mod_lt; lia).
  split_and!.
  - rewrite Htext. unfold text. simpl. by rewrite <- app_assoc.
  - split; [apply Forall_app; split; [done|]; repeat constructor; rewrite digit_char by done; by eexists|].
    intros v0 rest. rewrite <- app_assoc, Hval. simpl. rewrite digit_char by done. f_equal.
    rewrite length_app. simpl length. rewrite Nat2Z.inj_add, Z.pow_add_r by lia. change (Z.of_nat 1) with 1. rewrite Z.pow_1_r.
    pose proof (N.div_mod x 10) as Hdm. rewrite N2Z.inj_mod. 
    assert (Z.of_N x = 10 * Z.of_N (x `div` 10) + Z.of_N (x `mod` 10)) by lia. rewrite <- N2Z.inj_mod. lia.
  - intros _. destruct (decide (x `div` 10 = 0)%N) as [Hz|Hz].
    + rewrite (Hnil Hz). eexists _, _. split; [done|]. rewrite digit_char by done. intros [= Hm0].
      pose proof (N.div_mod x 10). lia.
    + destruct (Hlead Hz) as (c & ds' & -> & Hc). by exists c, (ds' ++ [pretty_N_char (x `mod` 10)]).
  - done.
Qed.

Lemma to_string_leading n : 0 ≤ n → to_string n = ["0"%char] ∨ leading (to_string n).
Proof.
  intros Hn. unfold to_string. destruct n as [|p|p]; [by left|right|lia].
  destruct (pretty_go_decimal (Npos p) "") as (ds & Htext & _ & Hl & _).
  change (pretty (Zpos p)) with (pretty_N_go (Npos p) ""). rewrite Htext, app_nil_r. by apply Hl.
Qed.

Lemma to_string_decimal n : 0 ≤ n → decimal (to_string n) n ∧ to_string n ≠ [].
Proof.
  intros Hn. unfold to_string. destruct n as [|p|p]; [|..|lia].
  - split; [|done]. split; [repeat constructor; by eexists|done].
  - destruct (pretty_go_decimal (Npos p) "") as (ds & Htext & Hdec & Hne & _).
    assert (text (pretty (Zpos p)) = ds) as ->; [|split; [done|]; by destruct (Hne ltac:(done)) as (c & ds' & -> & _)].
    change (pretty (Zpos p)) with (pretty_N_go (Npos p) ""). by rewrite Htext, app_nil_r.
Qed.

Lemma to_string_number n : 0 ≤ n → is_number (to_string n) = true.
Proof.
  intros Hn. destruct (to_string_decimal n Hn) as [[Hd _] Hne]. unfold is_number.
  rewrite bool_decide_true by done. apply forallb_forall. intros c Hc. rewrite bool_decide_true; [done|].
  rewrite Forall_forall in Hd. apply Hd. by apply list_elem_of_In.
Qed.

Lemma to_string_stoi n : 0 ≤ n ≤ INT_MAX → stoi (to_string n) = Ok n.
Proof.
  intros Hn. destruct (to_string_decimal n) as [[_ Hv] _]; [lia|]. unfold stoi.
  specialize (Hv 0 []). rewrite app_nil_r in Hv. rewrite Hv. cbn [digits_value]. rewrite Z.mul_0_l, Z.add_0_l, Z.gtb_ltb. destruct (Z.ltb_spec INT_MAX n); [lia|done].
Qed.

(** ** Words *)

Lemma split_word delim w : w ≠ [] → delim ∉ w → split delim w = [w].
Proof.
  induction w as [|c w IH]; [done|]. intros _ [Hc Hw]%not_elem_of_cons. cbn [split].
  rewrite decide_False by done. destruct w as [|d w]; [done|]. by rewrite IH.
Qed.

Lemma split_cons delim w s : delim ∉ w → split delim (w ++ delim :: s) = w :: split delim s.
Proof.
  induction w as [|c w IH]; intros Hw; simpl; [by rewrite decide_True|].
  apply not_elem_of_cons in Hw as [? ?]. rewrite decide_False by done. by rewrite IH.
Qed.

Lemma number_no_space w : is_number w = true → (" "%char ∉ w) ∧ w ≠ [].
Proof.
  unfold is_number. intros [Hne Hd]%andb_true_iff. apply bool_decide_eq_true in Hne. split; [|done].
  intros Hin%list_elem_of_In. rewrite forallb_forall in Hd. specialize (Hd _ Hin). apply bool_decide_eq_true in Hd as [? ?]. done.
Qed.

Lemma split_sub delim s w c : w ∈ split delim s → c ∈ w → c ∈ s.
Proof.
  revert w. induction s as [|d s IH]; intros w; cbn [split]; [by intros ?%elem_of_nil|].
  rewrite elem_of_cons. case_decide.
  - intros [->|Hw]%elem_of_cons Hc; [by apply elem_of_nil in Hc|right; by eapply IH].
  - destruct (split delim s) as [|w' ws].
    + intros ->%list_elem_of_singleton ->%list_elem_of_singleton. by left.
    + intros [->|Hw]%elem_of_cons Hc; [|right; eapply IH; [by right|done]].
      apply elem_of_cons in Hc as [->|Hc]; [by left|right; eapply IH; [by left|done]].
Qed.

Lemma digits_value_nonneg w v : 0 ≤ v → 0 ≤ digits_value w v.
Proof.
  revert v. induction w as [|c w IH]; intros v Hv; cbn [digits_value]; [done|].
  destruct (digit c) as [d|] eqn:Hd; [|done]. apply digit_range in Hd. apply IH. lia.
Qed.

Lemma stoi_range w i : stoi w = Ok i → 0 ≤ i ≤ INT_MAX.
Proof.
  unfold stoi. pose proof (digits_value_nonneg w 0 ltac:(lia)) as Hn.
  destruct (digits_value w 0 >? INT_MAX) eqn:Hv; [done|]. intros [= <-]. lia.
Qed.

(** ** Replacing newlines *)

Definition indent (pad : str) (c : ascii) : str := if decide (c = "010"%char) then c :: pad else [c].

Lemma find_newline s :
  find_str endl s = match list_find (λ c, c = "010"%char) s with
                    | None => None
                    | Some (i, _) => Some (take i s, drop (S i) s)
                    end.
Proof.
  induction s as [|c s IH]; [done|]. simpl find_str. destruct (decide (c = "010"%char)) as [->|Hne].
  - rewrite decide_True by by rewrite take_0. simpl. done.
  - rewrite decide_False by by rewrite take_0; intros [=]. simpl. rewrite decide_False by done. rewrite IH.
    destruct (list_find _ s) as [[i d]|]; done.
Qed.

Lemma unindented pad s : (∀ c, c ∈ s → c ≠ "010"%char) → concat (indent pad <$> s) = s.
Proof.
  induction s as [|c l IH]; intros Hno; [done|]. simpl. unfold indent at 1.
  rewrite decide_False by (apply Hno; by apply elem_of_cons; left). simpl. f_equal. apply IH.
  intros. apply Hno. by apply elem_of_cons; right.
Qed.

(** [string_replace] with a newline and a newline with padding puts the padding behind every
    newline and changes nothing else. *)
Theorem string_replace_indents (s pad : str) :
  string_replace s endl (endl ++ pad) = concat (indent pad <$> s).
Proof.
  unfold string_replace. assert (Hfuel : (length s < S (length s))%nat) by lia. revert Hfuel.
  generalize (S (length s)). intros fuel. revert s. induction fuel as [|fuel IH]; intros s Hf; [lia|].
  cbn [replace_loop]. rewrite find_newline. destruct (list_find _ s) as [[i d]|] eqn:Hfind.
  - apply list_find_Some in Hfind as (Hi & -> & Hbefore).
    rewrite IH by (rewrite length_drop; apply lookup_lt_Some in Hi; lia).
    rewrite <- (take_drop_middle s i "010"%char) at 3 by done. rewrite fmap_app, concat_app. f_equal. symmetry.
    apply unindented. intros c (j & Hj)%list_elem_of_lookup_1.
    apply lookup_take_Some in Hj as [Hj ?]. by eapply Hbefore.
  - symmetry. apply unindented. apply list_find_None in Hfind. by rewrite Forall_forall in Hfind.
Qed.

(** ** Commands *)

(** What a user can ask for, as the member functions and as the statements in the history. *)
Inductive command := Deliver (addr : ReplTransportAddress) (index : Z) | Trigger (timer_id : Z).

(** What a command writes into the history. *)
Definition statement (x : command) : str :=
  match x with
  | Deliver addr index => render_deliver addr index
  | Trigger timer_id => render_trigger timer_id
  end.

(** *** The statements as C++ *)

(** The text behind the prefix [p]. *)
Definition strip (p s : str) : option str := if decide (take (length p) s = p) then Some (drop (length p) s) else None.

(** The contents of a string literal behind its opening quotation mark, and what follows it; there
    are no escape sequences in it and it does not extend over lines. *)
Fixpoint string_literal (s : str) : option (str * str) :=
  match s with
  | [] => None
  | c :: s =>
      if decide (c = "034"%char) then Some ([], s)
      else if decide (c = "092"%char ∨ c = "010"%char) then None
      else '(w, rest) ← string_literal s; Some (c :: w, rest)
  end.

Fixpoint digits (s : str) : list Z * str :=
  match s with
  | [] => ([], [])
  | c :: s' => match digit c with Some d => let '(ds, rest) := digits s' in (d :: ds, rest) | None => ([], s) end
  end.

(** A decimal literal of the type [int]; with a zero in front a literal is octal. *)
Definition int_literal (s : str) : option (Z * str) :=
  let '(ds, rest) := digits s in
  let v := foldl (λ v d, v * 10 + d) 0 ds in
  if decide (v ≤ INT_MAX) then
    match ds with
    | [] => None
    | [0] => Some (0, rest)
    | 0 :: _ => None
    | _ => Some (v, rest)
    end
  else None.

(** [transport.DeliverMessage({"<host>", "<port>"}, <index>);], where the braces initialise a
    [ReplTransportAddress], whose constructor takes the host and the port in this order, and
    [transport.TriggerTimer(<timer_id>);]. *)
Definition parse_deliver (s : str) : option command :=
  s ← strip (text "transport.DeliverMessage({" ++ quote) s;
  '(host, s) ← string_literal s;
  s ← strip (text ", " ++ quote) s;
  '(port, s) ← string_literal s;
  s ← strip (text "}, ") s;
  '(index, s) ← int_literal s;
  if decide (s = text ");") then Some (Deliver (MkReplTransportAddress host port) index) else None.

Definition parse_trigger (s : str) : option command :=
  s ← strip (text "transport.TriggerTimer(") s;
  '(timer_id, s) ← int_literal s;
  if decide (s = text ");") then Some (Trigger timer_id) else None.

Definition parse_statement (s : str) : option command :=
  match parse_deliver s with Some x => Some x | None => parse_trigger s end.

(** Text that can stand in a string literal as it is. *)
Definition plain (s : str) : Prop := ∀ c, c ∈ s → c ≠ "034"%char ∧ c ≠ "092"%char ∧ c ≠ "010"%char.

Definition plain_command (x : command) : Prop :=
  match x with
  | Deliver addr index => plain (Host addr) ∧ plain (Port addr) ∧ 0 ≤ index ≤ INT_MAX
  | Trigger timer_id => 0 ≤ timer_id ≤ INT_MAX
  end.

Lemma strip_app p s : strip p (p ++ s) = Some s.
Proof. unfold strip. rewrite take_app_length, decide_True by done. by rewrite drop_app_length. Qed.

Lemma string_literal_plain w s : plain w → string_literal (w ++ quote ++ s) = Some (w, s).
Proof.
  induction w as [|c w IH]; intros Hw; simpl; [done|]. destruct (Hw c ltac:(set_solver)) as (H1 & H2 & H3).
  rewrite decide_False by done. rewrite decide_False by naive_solver.
  change (quote ++ s) with ("034"%char :: s) in IH. rewrite IH; [done|]. intros d Hd. apply Hw. set_solver.
Qed.

Lemma digits_run ds s v0 :
  Forall (λ c, is_Some (digit c)) ds → from_option digit None (head s) = None →
  ∃ l, digits (ds ++ s) = (l, s) ∧ foldl (λ v d, v * 10 + d) v0 l = digits_value ds v0 ∧ length l = length ds ∧
    ∀ c ds', ds = c :: ds' → head l = digit c.
Proof.
  intros Hds Hs. revert v0. induction Hds as [|c ds [d Hd] _ IH]; intros v0.
  - exists []. split_and!; [|done..]. simpl. destruct s as [|c s]; [done|]. simpl in *. by rewrite Hs.
  - destruct (IH (v0 * 10 + d)) as (l & Hl & Hv & Hlen & _). exists (d :: l). simpl. rewrite Hd, Hl.
    split_and!; [done|exact Hv|by rewrite Hlen|]. by intros c' ds' [= <- <-].
Qed.

Lemma int_literal_run n s :
  0 ≤ n ≤ INT_MAX → from_option digit None (head s) = None → int_literal (to_string n ++ s) = Some (n, s).
Proof.
  intros Hn Hs. destruct (to_string_decimal n) as [[Hd Hv] Hne]; [lia|].
  destruct (digits_run (to_string n) s 0 Hd Hs) as (l & Hl & Hfold & Hlen & Hhead). unfold int_literal. rewrite Hl, Hfold.
  assert (digits_value (to_string n) 0 = n) as Hval.
  { specialize (Hv 0 []). rewrite app_nil_r in Hv. rewrite Hv. cbn [digits_value]. lia. }
  rewrite Hval, decide_True by lia. destruct (to_string_leading n) as [H0|(c & ds' & Hds & Hc)]; [lia|..].
  - rewrite H0 in *. destruct l as [|d [|]]; [done| |done]. specialize (Hhead "0"%char [] eq_refl). injection Hhead as ->.
    by rewrite <- Hval.
  - specialize (Hhead c ds' Hds). destruct l as [|d l]; [by destruct (to_string n)|]. simpl in Hhead.
    destruct d; [by rewrite <- Hhead in Hc|done|done].
Qed.

Lemma parse_statement_correct x : plain_command x → parse_statement (statement x) = Some x.
Proof.
  destruct x as [[h p] i|i]; simpl.
  - intros (Hh & Hp & Hi). unfold parse_statement, parse_deliver, render_deliver. cbn [Host Port].
    rewrite (assoc_L (++) (text "transport.DeliverMessage({")), strip_app. cbn [mbind option_bind].
    rewrite string_literal_plain by done. cbn [mbind option_bind].
    rewrite (assoc_L (++) (text ", ")), strip_app. cbn [mbind option_bind].
    rewrite string_literal_plain by done. cbn [mbind option_bind]. rewrite strip_app. cbn [mbind option_bind].
    by rewrite int_literal_run.
  - intros Hi. unfold parse_statement. assert (parse_deliver (render_trigger i) = None) as ->.
    { unfold parse_deliver. by assert (strip (text "transport.DeliverMessage({" ++ quote) (render_trigger i) = None) as ->. }
    unfold parse_trigger, render_trigger. rewrite strip_app. cbn [mbind option_bind]. by rewrite int_literal_run.
Qed.

Lemma parse_statements xs : Forall plain_command xs → parse_statement <$> (statement <$> xs) = Some <$> xs.
Proof. induction 1 as [|x xs Hx _ IH]; [done|]. cbn. rewrite parse_statement_correct by done. by f_equal. Qed.

(** ** Sessions *)
Section sessions.
Context `{HO : HashOrder} {C A : Type} `{!Application ReplTransportAddress C A} (DebugString : message → str).
Abbreviation Repl := (ReplTransport C A).
Implicit Types s : Repl.

Definition execute (x : command) : M Repl unit :=
  match x with
  | Deliver addr index => _ ← DeliverMessage addr index; mret tt
  | Trigger timer_id => TriggerTimer timer_id
  end.

(** The transport with another console. *)
Definition console (i : list str) (o : str) s : Repl := s <| cin := i |> <| out := o |>.

(** The console does not matter to [m], and [m] does not touch it. *)
Definition blind {B} (m : M Repl B) : Prop := ∀ s i o,
  m (console i o s) = match m s with Ok (b, s') => Ok (b, console i o s') | Panic => Panic | Undefined => Undefined end.

Lemma blind_ret {B} (b : B) : blind (mret b).
Proof. done. Qed.

Lemma blind_panic {B} : blind (panic (A := B)).
Proof. done. Qed.

Lemma blind_undefined {B} : blind (undefined (A := B)).
Proof. done. Qed.

Lemma blind_bind {B B'} (m : M Repl B) (k : B → M Repl B') : blind m → (∀ b, blind (k b)) → blind (m ≫= k).
Proof.
  intros Hm Hk s i o. unfold mbind, M_bind. rewrite Hm. destruct (m s) as [[b s']| |]; [|done..]. apply Hk.
Qed.

Lemma blind_get {B} (k : Repl → M Repl B) :
  (∀ s i o, k (console i o s) = k s) → (∀ s, blind (k s)) → blind (get_st ≫= k).
Proof. intros Hk Hb s i o. unfold mbind, M_bind, get_st. rewrite Hk. apply Hb. Qed.

Lemma blind_modify (f : Repl → Repl) : (∀ s i o, f (console i o s) = console i o (f s)) → blind (modify f).
Proof. intros Hf s i o. unfold modify. by rewrite Hf. Qed.

Lemma blind_lift {B} (r : res B) : blind (lift_res r).
Proof. by destruct r. Qed.

Lemma blind_deref {B} (o : option B) : blind (deref o).
Proof. by destruct o. Qed.

Lemma blind_when b (m : M Repl unit) : blind m → blind (when b m).
Proof. by destruct b. Qed.

Lemma blind_for_each {B} (l : list B) (body : B → M Repl unit) : (∀ x, blind (body x)) → blind (for_each l body).
Proof. intros Hb. induction l; [apply blind_ret|]. simpl. by apply blind_bind. Qed.

Lemma blind_base f : blind (modify_base (S := Repl) f).
Proof. by apply blind_modify. Qed.
End sessions.

Create HintDb blind.
#[export] Hint Resolve blind_ret blind_panic blind_undefined blind_bind blind_lift blind_deref blind_when blind_for_each
  blind_base : blind.

Section blindness.
Context `{HO : HashOrder} {C A : Type} `{!Application ReplTransportAddress C A}.
Abbreviation Repl := (ReplTransport C A).

Lemma GetAddress_blind r : blind (GetAddress_repl (C := C) (A := A) r).
Proof. unfold GetAddress_repl. apply blind_get; [done|]. eauto with blind. Qed.

Lemma SendMessageInternal_blind src dst m b : blind (SendMessageInternal_repl (C := C) (A := A) src dst m b).
Proof.
  unfold SendMessageInternal_repl. apply blind_bind; [apply GetAddress_blind|intros a].
  apply blind_bind; [by apply blind_modify|eauto with blind].
Qed.

Lemma LookupAddresses_blind : blind (LookupAddresses (S := Repl)).
Proof.
  unfold LookupAddresses. apply blind_bind; [apply blind_base|intros _]. apply blind_get; [done|intros s].
  apply blind_bind; [|intros; apply blind_base]. apply blind_for_each. intros [c cfg]. unfold lookup_config. apply blind_bind.
  - apply blind_for_each. intros i. apply blind_bind; [|intros; apply blind_base].
    change (blind (LookupAddress_repl (C := C) (A := A) c i)). unfold LookupAddress_repl. eauto with blind.
  - intros _. destruct (multicast c); [|apply blind_ret].
    change (blind (A := A) (_ ← mret (None : option ReplTransportAddress) : M Repl _; mret tt)). done.
Qed.

Lemma config_of_blind src : blind (config_of (S := Repl) src).
Proof.
  unfold config_of. apply blind_get; [done|intros s]. destruct (_ !! src); [|apply blind_undefined].
  apply blind_bind; [apply blind_when, LookupAddresses_blind|eauto with blind].
Qed.

Lemma SendMessageToReplica_blind src i m : blind (SendMessageToReplica_common (S := Repl) src i m).
Proof.
  unfold SendMessageToReplica_common. apply blind_bind; [apply config_of_blind|intros cfg].
  apply blind_get; [done|intros s]. destruct (_ !! i); [|apply blind_undefined]. exact (SendMessageInternal_blind src r m false).
Qed.

Lemma send_to_each_blind src a m l : blind (send_to_each (S := Repl) src a m l).
Proof.
  induction l as [|[i b] l IH]; [apply blind_ret|]. cbn [send_to_each]. case_decide; [done|].
  apply blind_bind; [exact (SendMessageInternal_blind src b m false)|intros []; [done|apply blind_ret]].
Qed.

Lemma SendMessageToAll_blind src m : blind (SendMessageToAll_common (S := Repl) src m).
Proof.
  unfold SendMessageToAll_common. apply blind_bind; [apply config_of_blind|intros cfg].
  apply blind_get; [done|intros s]. destruct (_ !! cfg) as [a|]; [exact (SendMessageInternal_blind src a m true)|].
  apply blind_bind; [exact (GetAddress_blind src)|intros a; apply send_to_each_blind].
Qed.

Lemma Timer_blind ms cb : blind (Timer_repl (C := C) (A := A) ms cb).
Proof.
  unfold Timer_repl. apply blind_get; [done|intros s]. destruct (_ =? _); [apply blind_undefined|].
  apply blind_bind; [by apply blind_modify|intros _]. case_decide; [apply blind_undefined|].
  apply blind_bind; [by apply blind_modify|eauto with blind].
Qed.

Lemma CancelTimer_blind id : blind (CancelTimer_repl (C := C) (A := A) id).
Proof.
  unfold CancelTimer_repl. apply blind_get; [done|intros s]. destruct (timers_ s !! id); [|apply blind_ret].
  case_decide; [apply blind_undefined|]. apply blind_bind; [by apply blind_modify|eauto with blind].
Qed.

Lemma exec_blind (p : prog ReplTransportAddress C A) : blind (exec access p).
Proof.
  induction p as [|f k IH|src dst m k IH|src i m k IH|src m k IH|ms cb k IH|id k IH|k IH| | ]; cbn [exec];
    [apply blind_ret|apply blind_bind; [|intros; apply IH]..|apply blind_panic|apply blind_undefined].
  - unfold access. apply blind_get.
    + done.
    + intros s. apply blind_bind; [by apply blind_modify|eauto with blind].
  - exact (SendMessageInternal_blind src dst m false).
  - exact (SendMessageToReplica_blind src i m).
  - exact (SendMessageToAll_blind src m).
  - exact (Timer_blind ms cb).
  - exact (CancelTimer_blind id).
  - apply blind_get; [done|intros s]. destruct (running s); [apply blind_undefined|by apply blind_modify].
Qed.

Lemma DeliverMessage_blind addr i : blind (DeliverMessage (C := C) (A := A) addr i).
Proof.
  unfold DeliverMessage. apply blind_bind; [by apply blind_modify|intros _]. apply blind_get; [done|intros s].
  destruct (receivers_ s !! addr) as [r|]; [|by apply blind_bind; [by apply blind_modify|eauto with blind]].
  destruct (_ =? 0); [apply blind_ret|].
  destruct (i <? 0); [apply blind_panic|]. destruct (_ !! Z.to_nat i) as [[src m]|]; [|apply blind_panic].
  apply blind_bind; [apply exec_blind|eauto with blind].
Qed.

Lemma TriggerTimer_blind id : blind (TriggerTimer (C := C) (A := A) id).
Proof.
  unfold TriggerTimer. apply blind_bind; [by apply blind_modify|intros _]. apply blind_get; [done|intros s].
  destruct (timers_ s !! id) as [cb|]; [|apply blind_panic]. apply blind_bind; [by apply blind_modify|intros _].
  apply blind_bind; [apply exec_blind|intros _; by apply blind_modify].
Qed.

Lemma execute_blind x : blind (execute (C := C) (A := A) x).
Proof.
  destruct x; [apply blind_bind; [apply DeliverMessage_blind|eauto with blind]|apply TriggerTimer_blind].
Qed.
End blindness.

(** ** What callbacks keep *)
Section kept.
Context `{HO : HashOrder} {C A : Type} `{!Application ReplTransportAddress C A}.
Abbreviation Repl := (ReplTransport C A).
Implicit Types s : Repl.

Definition grows (r r' : TransportReceiverState) : Prop := receiver r' = receiver r ∧ msgs r `prefix_of` msgs r'.

(** Messages stay where they are. *)
Definition messages_kept s s' : Prop :=
  ∀ addr r, receivers_ s !! addr = Some r → ∃ r', receivers_ s' !! addr = Some r' ∧ grows r r'.

Definition kept s s' : Prop := history_ s' = history_ s ∧ messages_kept s s'.

Lemma messages_kept_refl s s' : receivers_ s' = receivers_ s → messages_kept s s'.
Proof. intros Hr addr r Ha. exists r. rewrite Hr. by split. Qed.

Lemma messages_kept_trans s1 s2 s3 : messages_kept s1 s2 → messages_kept s2 s3 → messages_kept s1 s3.
Proof.
  intros H12 H23 addr r Ha. destruct (H12 _ _ Ha) as (r2 & Ha2 & Hr2 & Hm2). destruct (H23 _ _ Ha2) as (r3 & Ha3 & Hr3 & Hm3).
  exists r3. split; [done|]. split; [congruence|by etransitivity].
Qed.

Lemma kept_modify s0 (f : Repl → Repl) :
  (∀ s, history_ (f s) = history_ s) → (∀ s, receivers_ (f s) = receivers_ s) → preserves (kept s0) (modify f).
Proof.
  intros Hh Hr. apply preserves_modify. intros s [? ?]. split; [by rewrite Hh|].
  eapply messages_kept_trans; [done|]. by apply messages_kept_refl.
Qed.

Lemma SendMessageInternal_kept s0 src dst m b : preserves (kept s0) (SendMessageInternal_repl src dst m b).
Proof.
  unfold SendMessageInternal_repl, GetAddress_repl.
  apply preserves_bind; [eauto with preserve|intros a]. apply preserves_bind; [|intros; apply preserves_ret].
  apply preserves_modify. intros s [? Hk]. split; [done|]. eapply messages_kept_trans; [done|].
  intros addr r Ha. simpl. destruct (decide (dst = addr)) as [->|].
  - rewrite lookup_insert_eq, Ha. eexists. split; [done|]. split; [done|]. simpl. by apply prefix_app_r.
  - rewrite lookup_insert_ne by done. exists r. by split.
Qed.

Lemma LookupAddresses_kept s0 : preserves (kept s0) (LookupAddresses (S := Repl)).
Proof.
  unfold LookupAddresses, modify_base.
  apply preserves_bind; [by apply kept_modify|intros _]. apply preserves_bind; [apply preserves_get|intros s1].
  apply preserves_bind; [|intros _; by apply kept_modify]. apply preserves_for_each. intros [c cfg].
  apply preserves_bind.
  - apply preserves_for_each. intros i. apply preserves_bind; [|intros a; by apply kept_modify].
    apply (preserves_bind (kept s0) (lift_res (replica c i))); eauto with preserve.
  - intros _. destruct (multicast c); eauto with preserve.
Qed.

Lemma config_of_kept s0 src : preserves (kept s0) (config_of (S := Repl) src).
Proof.
  unfold config_of. apply preserves_bind; [apply preserves_get|intros s1].
  destruct (configurations _ !! src); [|apply preserves_undefined].
  apply preserves_bind; [|intros; apply preserves_ret]. apply preserves_when. intros _. apply LookupAddresses_kept.
Qed.

Lemma exec_kept s0 (p : prog ReplTransportAddress C A) : preserves (kept s0) (exec access p).
Proof.
  induction p as [|f k IH|src dst m k IH|src i m k IH|src m k IH|ms cb k IH|id k IH|k IH| | ]; cbn [exec];
    [apply preserves_ret|apply preserves_bind; [|intros; apply IH]..|apply preserves_panic|apply preserves_undefined].
  - unfold access. apply preserves_bind; [apply preserves_get|intros s]. apply preserves_bind; [by apply kept_modify|eauto with preserve].
  - exact (SendMessageInternal_kept s0 src dst m false).
  - apply (preserves_bind (kept s0) (config_of src)); [apply config_of_kept|intros cfg]. apply preserves_bind; [apply preserves_get|intros s1].
    destruct (_ !! i) as [a|]; [exact (SendMessageInternal_kept s0 src a m false)|apply preserves_undefined].
  - apply (preserves_bind (kept s0) (config_of src)); [apply config_of_kept|intros cfg]. apply preserves_bind; [apply preserves_get|intros s1].
    destruct (_ !! cfg) as [a|]; [exact (SendMessageInternal_kept s0 src a m true)|].
    apply (preserves_bind (kept s0) (GetAddress_repl src)); [unfold GetAddress_repl; eauto with preserve|intros a].
    induction (by_key _) as [|[i b] l IHl]; [apply preserves_ret|]. cbn [send_to_each]. case_decide; [done|].
    apply preserves_bind; [exact (SendMessageInternal_kept s0 src b m false)|intros []; [done|apply preserves_ret]].
  - unfold Timer, repl_transport, Timer_repl. apply preserves_bind; [apply preserves_get|intros s]. destruct (_ =? _); [apply preserves_undefined|].
    apply preserves_bind; [by apply kept_modify|intros _]. case_decide; [apply preserves_undefined|].
    apply preserves_bind; [by apply kept_modify|eauto with preserve].
  - unfold CancelTimer, repl_transport, CancelTimer_repl. apply preserves_bind; [apply preserves_get|intros s].
    destruct (timers_ s !! id); [|apply preserves_ret]. case_decide; [apply preserves_undefined|].
    apply preserves_bind; [by apply kept_modify|eauto with preserve].
  - unfold CancelAllTimers, repl_transport, CancelAllTimers_repl. apply preserves_bind; [apply preserves_get|intros s].
    destruct (running s); [apply preserves_undefined|by apply kept_modify].
Qed.

Lemma exec_kept_run s p u s' : exec access p s = Ok (u, s') → kept s s'.
Proof.
  intros Hrun. assert (kept s s) as Hs by (split; [done|by apply messages_kept_refl]).
  pose proof (exec_kept s p s Hs) as Hk. unfold post in Hk. by rewrite Hrun in Hk.
Qed.

(** A command writes its statement into the history and keeps the messages. *)
Lemma execute_kept (x : command) s s' :
  execute x s = Ok (tt, s') → history_ s' = history_ s ++ [statement x] ∧ messages_kept s s'.
Proof.
  destruct x as [addr i|id]; simpl; unfold DeliverMessage, TriggerTimer, push_history, mbind, M_bind, modify, get_st; simpl.
  - destruct (receivers_ s !! addr) as [r|] eqn:Hr.
    2:{ simpl. intros [= <-]. split; [done|]. intros addr' r' Hr'. simpl.
        assert (addr ≠ addr') by congruence. rewrite lookup_insert_ne by done. exists r'. by split. }
    destruct (_ =? 0).
    { intros [= <-]. split; [done|by apply messages_kept_refl]. }
    destruct (i <? 0); [done|]. destruct (_ !! Z.to_nat i) as [[src m]|]; [|done].
    destruct (exec _ _ _) as [[u s1]| |] eqn:Hrun; [|done..]. intros [= <-].
    apply exec_kept_run in Hrun as [Hh Hm]. split; [by rewrite Hh|]. eapply messages_kept_trans; [|done]. by apply messages_kept_refl.
  - destruct (timers_ s !! id) as [cb|]; [|done].
    destruct (exec _ _ _) as [[u s1]| |] eqn:Hrun; [|done..]. intros [= <-].
    apply exec_kept_run in Hrun as [Hh Hm]. split; [simpl; by rewrite Hh|].
    eapply messages_kept_trans; [|eapply messages_kept_trans; [done|]]; by apply messages_kept_refl.
Qed.

Lemma executes_kept xs s s' :
  for_each xs execute s = Ok (tt, s') → history_ s' = history_ s ++ (statement <$> xs) ∧ messages_kept s s'.
Proof.
  revert s. induction xs as [|x xs IH]; intros s; simpl.
  { intros [= <-]. rewrite app_nil_r. split; [done|by apply messages_kept_refl]. }
  unfold mbind, M_bind. destruct (execute x s) as [[[] s1]| |] eqn:Hx; [|done..]. intros Hxs.
  apply execute_kept in Hx as [Hh1 Hm1]. apply IH in Hxs as [Hh Hm].
  split; [by rewrite Hh, Hh1, <- app_assoc|by eapply messages_kept_trans].
Qed.
End kept.

Section replay.
Context `{HO : HashOrder} {C A : Type} `{!Application ReplTransportAddress C A} (DebugString : message → str).
Abbreviation Repl := (ReplTransport C A).
Implicit Types s : Repl.

(** The transport without its console. *)
Definition quiet s : Repl := console [] [] s.

Lemma blind_quiet {B} (m : M Repl B) s b s' : blind m → m s = Ok (b, s') → m (quiet s) = Ok (b, quiet s') ∧ cin s' = cin s.
Proof.
  intros Hm Hrun. split; [unfold quiet; by rewrite Hm, Hrun|].
  pose proof (Hm s (cin s) (out s)) as Heq. replace (console (cin s) (out s) s) with s in Heq by by destruct s.
  rewrite Hrun in Heq. injection Heq as Heq. by rewrite Heq.
Qed.

(** What a call of [RunOne] with the input [lines] did: commands, or nothing but talk. *)
Definition did (lines : list str) s (b : bool) s' : Prop :=
  (∃ xs, for_each xs execute (quiet s) = Ok (tt, quiet s') ∧
     (Forall plain lines → Forall plain_command xs ∧ Forall plain (cin s'))) ∧
  (b = false → (length (cin s') < length lines)%nat).

Lemma did_nothing lines s b s' :
  quiet s' = quiet s → (Forall plain lines → Forall plain (cin s')) → (b = false → (length (cin s') < length lines)%nat) →
  did lines s b s'.
Proof. intros Hq Hp Hn. split; [|done]. exists []. rewrite Hq. split; [done|]. auto. Qed.

Lemma did_command line lines x s b s' :
  execute x s = Ok (tt, s') → cin s = lines → (plain line → plain_command x) → did (line :: lines) s b s'.
Proof.
  intros Hrun Hin Hx. destruct (blind_quiet _ _ _ _ (execute_blind x) Hrun) as [Hq Hc].
  split; [|rewrite Hc, Hin; simpl; lia]. exists [x]. split; [simpl; unfold mbind, M_bind; by rewrite Hq|].
  intros [Hl Hls]%Forall_cons. rewrite Hc, Hin. auto.
Qed.

Lemma did_quiet lines s s0 b s' : quiet s0 = quiet s → did lines s0 b s' → did lines s b s'.
Proof. intros Hq [(xs & Hxs & Hp) Hn]. split; [|done]. exists xs. by rewrite <- Hq. Qed.

Lemma did_later line lines s b s' : did lines s b s' → did (line :: lines) s b s'.
Proof.
  intros [(xs & Hxs & Hp) Hn]. split; [exists xs; split; [done|]; intros [_ Hl]%Forall_cons; auto|].
  intros Hb. specialize (Hn Hb). simpl. lia.
Qed.

(** The words of a line are as plain as the line. *)
Lemma plain_word line ws w : split " "%char line = ws → w ∈ ws → plain line → plain w.
Proof. intros <- Hw Hl c Hc. apply Hl. by eapply split_sub. Qed.

Lemma RunOne_did lines s b s' : cin s = lines → RunOne_loop DebugString lines s = Ok (b, s') → did lines s b s'.
Proof.
  revert s. induction lines as [|line lines IH]; intros s Hcin; cbn [RunOne_loop].
  { intros [= <- <-]. apply did_nothing; [done|simpl; by rewrite Hcin|done]. }
  set (s1 := console lines (out s ++ text "> ") s). assert (quiet s1 = quiet s) as Hq1 by done.
  rewrite (bind_run _ _ s tt (s <| out ::= λ o, o ++ text "> " |>)) by done.
  rewrite (bind_run _ _ _ tt s1) by done. intros Hrun. apply (did_quiet _ _ s1 _ _ Hq1). revert Hrun.
  assert (∀ l, (_ ← print l; RunOne_loop DebugString lines) s1 = Ok (b, s') → did (line :: lines) s1 b s') as Hagain.
  { intros l. rewrite (bind_run _ _ s1 tt (s1 <| out ::= λ o, o ++ l |>)) by done. intros Hrun%IH; [|done].
    apply did_later. by eapply did_quiet. }
  assert (∀ o c, did (line :: lines) s1 c (s1 <| out := o |>)) as Hnothing.
  { intros o c. apply did_nothing; [done|by intros [_ ?]%Forall_cons|simpl; lia]. }
  destruct (split " "%char line) as [|w0 [|w1 [|w2 [|]]]] eqn:Hsplit; [apply Hagain| |apply Hagain| |apply Hagain].
  - case_decide; [intros [= <- <-]; exact (Hnothing (out s1) _)|].
    case_decide; [intros [= <- <-]; apply Hnothing|].
    destruct (is_number w0); [|apply Hagain]. destruct (stoi w0) as [id| |] eqn:Hid; [|done..].
    intros Hrun. unfold mbind, M_bind, lift_res in Hrun. destruct (TriggerTimer id s1) as [[[] s2]| |] eqn:Ht; [|done..].
    injection Hrun as <- <-. apply (did_command _ _ (Trigger id)); [done|done|]. intros _. by eapply stoi_range.
  - destruct (is_number w2); [change (negb true) with false; cbv iota|apply Hagain]. destruct (stoi w2) as [i| |] eqn:Hi; [|done..].
    intros Hrun. rewrite (bind_run _ _ s1 i s1) in Hrun by done. rewrite (bind_run get_st _ s1 s1 s1) in Hrun by done.
    destruct (receivers_ s1 !! _); [|by apply Hagain in Hrun].
    unfold mbind, M_bind in Hrun. destruct (DeliverMessage _ _ _) as [[u s2]| |] eqn:Hd; [|done..]. injection Hrun as <- <-.
    apply (did_command _ _ (Deliver (MkReplTransportAddress w0 w1) i)); [simpl; unfold mbind, M_bind; by rewrite Hd|done|].
    intros Hl. split_and!; [eapply plain_word; [exact Hsplit|set_solver|done]..| |]; by eapply stoi_range.
Qed.

Lemma for_each_app_run {B} (xs ys : list B) (body : B → M Repl unit) q q1 :
  for_each xs body q = Ok (tt, q1) → for_each (xs ++ ys) body q = for_each ys body q1.
Proof.
  revert q. induction xs as [|x xs IH]; intros q; simpl; [by intros [= ->]|].
  unfold mbind, M_bind. destruct (body x q) as [[[] q']| |]; [apply IH|done..].
Qed.

Lemma Run_loop_did fuel s b s' :
  Run_loop DebugString fuel s = Ok (b, s') → (length (cin s) < fuel)%nat →
  b = true ∧ ∃ xs, for_each xs execute (quiet s) = Ok (tt, quiet s') ∧ (Forall plain (cin s) → Forall plain_command xs).
Proof.
  revert s. induction fuel as [|fuel IH]; intros s; [lia|]. cbn [Run_loop]. unfold mbind at 1, M_bind at 1.
  destruct (RunOne DebugString s) as [[d s1]| |] eqn:H1; [|done..].
  unfold RunOne in H1. rewrite (bind_run get_st _ s s s) in H1 by done.
  apply RunOne_did in H1 as [(xs & Hxs & Hp) Hlen]; [|done].
  destruct d; [intros [= <- <-]; split; [done|]; exists xs; naive_solver|]. intros Hrun Hf. specialize (Hlen eq_refl).
  apply IH in Hrun as [-> (ys & Hys & Hpy)]; [|lia]. split; [done|]. exists (xs ++ ys).
  split; [by erewrite for_each_app_run|]. intros Hpl. destruct (Hp Hpl). apply Forall_app. auto.
Qed.

(** C37: A session at the command line that no exception ends is over when its input is, within
    the bound on its rounds.  What it added to the history repeats it: there are calls of
    [DeliverMessage] and [TriggerTimer] that, executed in order by a transport in the state the
    session started in, lead to the state it ended in, up to what is on the screen; and when
    the lines typed have no quotation marks and no backslashes in them, the added lines, read
    as C++ statements, are exactly these calls, with these hosts, ports, indices and timers.
    Messages stay in the queues of their receivers, in the same places, so that they can be
    delivered again. *)
Theorem repl_history_replays s b s' :
  Run DebugString s = Ok (b, s') →
  b = true ∧ messages_kept s s' ∧
  ∃ added xs, history_ s' = history_ s ++ added ∧ length added = length xs ∧
    for_each xs execute (quiet s) = Ok (tt, quiet s') ∧
    (Forall plain (cin s) → parse_statement <$> added = Some <$> xs).
Proof.
  unfold Run. rewrite (bind_run get_st _ s s s) by done. intros Hrun.
  apply Run_loop_did in Hrun as [-> (xs & Hxs & Hp)]; [|lia]. apply executes_kept in Hxs as Hk. destruct Hk as [Hh Hm].
  split_and!; [done|done|]. exists (statement <$> xs), xs. split_and!; [done|apply length_fmap|done|].
  intros Hpl. by apply parse_statements, Hp.
Qed.

(** A command typed as [<host> <port> <index>] delivers exactly that message of that receiver,
    and one typed as [<timer_id>] triggers that timer. *)
Theorem repl_reads_commands (addr : ReplTransportAddress) (n : Z) lines s :
  (" "%char ∉ Host addr) → (" "%char ∉ Port addr) → 0 ≤ n ≤ INT_MAX → is_Some (receivers_ s !! addr) →
  let prompted := console lines (out s ++ text "> ") s in
  RunOne_loop DebugString ((Host addr ++ " "%char :: Port addr ++ " "%char :: to_string n) :: lines) s =
    (_ ← DeliverMessage addr n; mret false) prompted ∧
  RunOne_loop DebugString (to_string n :: lines) s = (_ ← TriggerTimer n; mret false) prompted.
Proof.
  intros Hh Hp Hn [r Hr] prompted. pose proof (to_string_number n) as Hnum. pose proof (to_string_stoi n Hn) as Hi.
  destruct (number_no_space (to_string n)) as [Hs Hne]; [apply Hnum; lia|]. split; cbn [RunOne_loop].
  - rewrite !split_cons, split_word by done. rewrite Hnum by lia. change (negb true) with false. cbv iota. rewrite Hi.
    rewrite (bind_run _ _ s tt (s <| out ::= λ o, o ++ text "> " |>)) by done. rewrite (bind_run _ _ _ tt prompted) by done.
    rewrite (bind_run _ _ _ n prompted) by done. rewrite (bind_run get_st _ _ prompted prompted) by done.
    change (receivers_ prompted) with (receivers_ s).
    replace (MkReplTransportAddress (Host addr) (Port addr)) with addr by by destruct addr. by rewrite Hr.
  - rewrite split_word by done. rewrite Hnum by lia. rewrite Hi.
    assert (∀ w, is_number w = false → to_string n ≠ w) as Hw by (intros w Hw Heq; rewrite <- Heq, Hnum in Hw by lia; done).
    rewrite !decide_False by by apply Hw. done.
Qed.

(** A number that is not the id of a timer is not answered but ends the process: the empty
    function that [TriggerTimer] calls throws, or the number is no [int] and [stoi] throws. *)
Theorem repl_unknown_timer_ends_process (n : Z) lines s :
  0 ≤ n → timers_ s !! n = None → RunOne_loop DebugString (to_string n :: lines) s = Panic.
Proof.
  intros Hn Ht. pose proof (to_string_number n Hn) as Hnum. destruct (number_no_space (to_string n) Hnum) as [Hs Hne].
  cbn [RunOne_loop]. rewrite split_word by done. rewrite Hnum.
  assert (∀ w, is_number w = false → to_string n ≠ w) as Hw by (intros w Hw Heq; by rewrite <- Heq, Hnum in Hw).
  rewrite !decide_False by by apply Hw.
  rewrite (bind_run _ _ s tt (s <| out ::= λ o, o ++ text "> " |>)) by done.
  rewrite (bind_run _ _ _ tt (console lines (out s ++ text "> ") s)) by done.
  destruct (stoi (to_string n)) as [m| |] eqn:Hm; [|done|].
  - assert (m = n) as ->.
    { unfold stoi in Hm. destruct (to_string_decimal n Hn) as [[_ Hv] _]. specialize (Hv 0 []). rewrite app_nil_r in Hv.
      rewrite Hv in Hm. cbn [digits_value] in Hm. rewrite Z.mul_0_l, Z.add_0_l in Hm. destruct (_ >? _); [done|]. by injection Hm. }
    unfold mbind, M_bind, lift_res, TriggerTimer, push_history, modify, mbind, M_bind, get_st. simpl. by rewrite Ht.
  - unfold stoi in Hm. by destruct (_ >? _).
Qed.
End replay.

(** ** A small session *)
Module ReplDemo.
Definition repl_config : Config :=
  let a p := MkReplicaAddress (text "h") [p] in MkConfig 2 0 [a "1"%char; a "2"%char] None.
#[export] Instance repl_order : HashOrder := default_order.
#[export] Instance repl_program : Application ReplTransportAddress unit nat := {|
  ReceiveMessage := λ r remote type data,
    match data with
    | EmptyString => Access S (λ _, Return)
    | String _ d => CallSend r remote (type, d) (λ _, Return)
    end;
  callback := λ _, CallSendToAll 11 ("Text", "") (λ _, Return)
|}.
Definition debug (m : message) : str := text "data: " ++ text m.2 ++ endl.

(** Two replicas and a client register; the client sends a text to the first replica. *)
Definition repl_start : M (ReplTransport unit nat) bool :=
  _ ← Register 11 repl_config 0; _ ← Register 12 repl_config 1; _ ← Register 21 repl_config (-1);
  _ ← Timer 5 tt; SendMessageToReplica 21 0 ("Text", "a").

Definition repl_lines : list str :=
  text <$> ["show"; "h 1 0"; "hello"; "x 1 0"; "1"; "client 0 0"; "client 0 0"; "h 2 0"; "quit"].

Definition repl_started : ReplTransport unit nat :=
  match repl_start (ReplTransport_new 0%nat repl_lines) with Ok (_, s) => s | _ => ReplTransport_new 0%nat [] end.

Definition repl_ended : option (ReplTransport unit nat) :=
  match Run debug repl_started with Ok (true, s) => Some s | _ => None end.

Example repl_demo_history :
  from_option (λ s, bool_decide (history_ s = statement <$>
    [Deliver (MkReplTransportAddress (text "h") (text "1")) 0; Trigger 1;
     Deliver (MkReplTransportAddress (text "client") (text "0")) 0; Deliver (MkReplTransportAddress (text "client") (text "0")) 0;
     Deliver (MkReplTransportAddress (text "h") (text "2")) 0])) false repl_ended = true.
Proof. vm_compute. reflexivity. Qed.

Example repl_demo_received : from_option app 0%nat repl_ended = 3%nat.
Proof. vm_compute. reflexivity. Qed.

Lemma repl_ended_run {B} (r : res (bool * B)) :
  match r with Ok (true, _) => true | _ => false end = true → ∃ s, r = Ok (true, s).
Proof. destruct r as [[[] s]| |]; intros Heq; [by exists s|done..]. Qed.

Lemma repl_demo_runs : ∃ s, Run debug repl_started = Ok (true, s).
Proof. apply repl_ended_run. vm_compute. reflexivity. Qed.

Lemma repl_lines_plain : Forall plain (cin repl_started).
Proof.
  assert (forallb (forallb (λ c, negb (bool_decide (c = "034"%char)) && negb (bool_decide (c = "092"%char)) &&
    negb (bool_decide (c = "010"%char)))) (cin repl_started) = true) as Hall by (vm_compute; reflexivity).
  rewrite forallb_forall in Hall. apply Forall_forall. intros l Hl%list_elem_of_In c Hc%list_elem_of_In.
  specialize (Hall l Hl). rewrite forallb_forall in Hall. specialize (Hall c Hc).
  repeat (apply andb_true_iff in Hall as [Hall ?]). split_and!; by eapply bool_decide_eq_false_1, negb_true_iff.
Qed.

Lemma repl_history_replays_witness :
  ∃ s', Run debug repl_started = Ok (true, s') ∧ messages_kept repl_started s' ∧
  ∃ added xs, history_ s' = history_ repl_started ++ added ∧ for_each xs execute (quiet repl_started) = Ok (tt, quiet s') ∧
    parse_statement <$> added = Some <$> xs.
Proof.
  destruct repl_demo_runs as [s' Hrun]. exists s'. split; [exact Hrun|].
  destruct (repl_history_replays debug repl_started true s' Hrun) as (_ & Hm & added & xs & Hh & _ & Hxs & Hp).
  split; [exact Hm|]. exists added, xs. split_and!; [exact Hh|exact Hxs|]. apply Hp. exact repl_lines_plain.
Defined.

Lemma repl_known : bool_decide (is_Some (receivers_ repl_started !! MkReplTransportAddress (text "h") (text "2"))) = true.
Proof. vm_compute. reflexivity. Qed.

Lemma repl_reads_commands_witness :
  let prompted := console [] (out repl_started ++ text "> ") repl_started in
  RunOne_loop debug [text "h 2 7"] repl_started =
    (_ ← DeliverMessage (MkReplTransportAddress (text "h") (text "2")) 7; mret false) prompted ∧
  RunOne_loop debug [text "7"] repl_started = (_ ← TriggerTimer 7; mret false) prompted.
Proof.
  apply (repl_reads_commands debug (MkReplTransportAddress (text "h") (text "2")) 7 [] repl_started);
    [by apply (bool_decide_unpack _)|by apply (bool_decide_unpack _)|done|].
  apply (bool_decide_eq_true_1 _ repl_known).
Defined.

Lemma repl_unknown_timer_ends_process_witness : RunOne_loop debug (to_string 7 :: []) repl_started = Panic.
Proof. apply (repl_unknown_timer_ends_process debug 7 [] repl_started); [lia|vm_compute; reflexivity]. Defined.
End ReplDemo.
