(* ===== verification/WeakStore.v ===== *)
(** The weakly consistent store of [store/weakstore/]: the store and its server ([store.cc],
    [server.cc]), the client of a shard ([shardclient.cc]) and the client ([client.cc]).

    Servers and shard clients are receivers of a [Transport]: their methods are programs of its
    interface, so they run on every transport, and the theorems run them on the simulated one.
    [World] is their memory: the stores of the servers and the shard clients by their pointers,
    and the promises.  A promise lives on the stack of the call that waits for it, so it is
    deleted when that call returns; using it later is undefined.  Serialization is a parameter
    ([Codec]).  The thread of the application only starts requests and waits: a call is split
    into a part that starts it and a part that returns its answer when the promise is done.

    [totalReplies] has a value only after the first [Put].  Timeouts are those of
    [lib/transport.cc]: the expiring timer restarts itself before it calls [RequestTimedOut]. *)

From S2P Require Import Timestamp Transaction VersionStore Sharding StrongServer Promise ConfigFile Timers TransportCommon SimTransport.
From S2P Require Import Prelude.
From Stdlib Require Import Ascii.

Definition REPLY_NETWORK_FAILURE : Z := 5.

(** ** The store *)
Module Store.
Definition t : Type := gmap string (list string).

(** [value] is only written when the key is there. *)
Definition Get (st : t) (key value : string) : Z * string :=
  let '(found, val) := KVStore.get st key "" in
  if (found : bool) then (REPLY_OK, val) else (REPLY_FAIL, value).

Definition Put (key value : string) (st : t) : Z * t := (REPLY_OK, (KVStore.put key value st).2).

Definition Load (key value : string) (st : t) : t := (KVStore.put key value st).2.

(** The loop of [main] that loads keys; [lines] are what the calls of [getline] leave in [key]. *)
Definition load_keys (lines : list string) (st : t) : t := foldl (λ st key, Load key key st) st lines.
End Store.

(** ** Messages *)

Record GetMessage := MkGetMessage { g_clientid : Z; g_key : string }.
Record GetReplyMessage := MkGetReplyMessage { gr_status : Z; gr_value : string }.
Record PutMessage := MkPutMessage { p_clientid : Z; p_key : string; put_value : string }.
Record PutReplyMessage := MkPutReplyMessage { pr_status : Z }.

Definition GetMessage_name : string := "weakstore.proto.GetMessage".
Definition GetReplyMessage_name : string := "weakstore.proto.GetReplyMessage".
Definition PutMessage_name : string := "weakstore.proto.PutMessage".
Definition PutReplyMessage_name : string := "weakstore.proto.PutReplyMessage".

(** ** State *)

Record ShardClient := MkShardClient {
  sc_n : Z;
  sc_client_id : Z;
  sc_shard : Z;
  sc_replica : Z;
  timeout_ms : Z;
  timeout_id : Z;
  totalReplies : option Z;
  waiting : option Z
}.

#[global] Instance ShardClient_eta : Eta ShardClient := λ c,
  MkShardClient (sc_n c) (sc_client_id c) (sc_shard c) (sc_replica c) (timeout_ms c) (timeout_id c) (totalReplies c) (waiting c).

(** The constructor, once it has read the configuration and registered. *)
Definition ShardClient_new (config : Config) (client_id shard closestReplica : Z) : res ShardClient :=
  if closestReplica =? -1 then
    if c_n config =? 0 then Undefined
    else Ok (MkShardClient (c_n config) client_id shard (to_int (client_id mod u64 (c_n config))) 250 0 None None)
  else Ok (MkShardClient (c_n config) client_id shard closestReplica 250 0 None None).

Record World := MkWorld {
  servers : gmap Z Store.t;
  shardClients : gmap Z ShardClient;
  promises : gmap Z Promise
}.

#[global] Instance World_eta : Eta World := λ w, MkWorld (servers w) (shardClients w) (promises w).

(** The closures given to the transport: those of [Get] and [Put], and that of [Timeout::Reset]. *)
Inductive closure :=
| SendGet (self : Z) (msg : GetMessage) (promise : Z)
| SendPut (self : Z) (msg : PutMessage)
| Expire (self : Z).

Section weak.
Context `{!Codec GetMessage} `{!Codec GetReplyMessage} `{!Codec PutMessage} `{!Codec PutReplyMessage}.
Context {ADDR : Type}.
Abbreviation program := (prog ADDR closure World).

(** ** The server *)

Definition on_server (self : Z) (k : Store.t → program) : program :=
  Access id (λ w, match servers w !! self with Some st => k st | None => StopUndefined end).

Definition HandleGet (self : Z) (remote : ADDR) (msg : GetMessage) : program :=
  on_server self (λ st,
    let '(status, value) := Store.Get st (g_key msg) "" in
    CallSend self remote (GetReplyMessage_name, SerializeToString (MkGetReplyMessage status value)) (λ _, Return)).

Definition HandlePut (self : Z) (remote : ADDR) (msg : PutMessage) : program :=
  on_server self (λ st,
    let '(status, st') := Store.Put (p_key msg) (put_value msg) st in
    Access (λ w, w <| servers ::= <[self := st']> |>) (λ _,
      CallSend self remote (PutReplyMessage_name, SerializeToString (MkPutReplyMessage status)) (λ _, Return))).

Definition HandleMessage (self : Z) (remote : ADDR) (type data : string) : program :=
  if decide (type = GetMessage_name) then HandleGet self remote (ParseFromString data)
  else if decide (type = PutMessage_name) then HandlePut self remote (ParseFromString data)
  else StopPanic.

(** ** The client of a shard *)

Definition on_client (self : Z) (k : ShardClient → program) : program :=
  Access id (λ w, match shardClients w !! self with Some c => k c | None => StopUndefined end).

Definition set_client (self : Z) (f : ShardClient → ShardClient) (k : program) : program :=
  Access (λ w, w <| shardClients ::= alter f self |>) (λ _, k).

(** [Timeout::Stop], [SetTimeout] and [Start], which is [Reset]. *)
Definition Timeout_Stop (self : Z) (k : program) : program :=
  on_client self (λ c,
    if timeout_id c >? 0 then CallCancelTimer (timeout_id c) (λ _, set_client self (λ c, c <| timeout_id := 0 |>) k)
    else k).

Definition Timeout_SetTimeout (self ms : Z) (k : program) : program :=
  set_client self (λ c, c <| timeout_ms := ms |>) k.

Definition Timeout_Start (self : Z) (k : program) : program :=
  Timeout_Stop self (on_client self (λ c,
    CallTimer (timeout_ms c) (Expire self) (λ id, set_client self (λ c, c <| timeout_id := id |>) k))).

(** [GetTimeout()] of the promise at [p], and [Reply] to it. *)
Definition with_promise (p : Z) (k : Promise → program) : program :=
  Access id (λ w, match promises w !! p with Some x => k x | None => StopUndefined end).

Definition reply_to (p : Z) (f : Promise → Promise) (k : program) : program :=
  with_promise p (λ x, Access (λ w, w <| promises ::= <[p := f x]> |>) (λ _, k)).

(** [if (waiting != NULL) { Promise *w = waiting; waiting = NULL; w->Reply(...); }]. *)
Definition reply_waiting (self : Z) (f : Promise → Promise) : program :=
  on_client self (λ c,
    match waiting c with
    | None => Return
    | Some p => set_client self (λ c, c <| waiting := None |>) (reply_to p f Return)
    end).

Definition Get (self : Z) (key : string) (promise : Z) : program :=
  on_client self (λ c,
    set_client self (λ c, c <| waiting := Some promise |>)
      (CallTimer 0 (SendGet self (MkGetMessage (sc_client_id c) key) promise) (λ _, Return))).

Definition Put (self : Z) (key value : string) (promise : Z) : program :=
  on_client self (λ c,
    set_client self (λ c, c <| waiting := Some promise |> <| totalReplies := Some 0 |>)
      (CallTimer 0 (SendPut self (MkPutMessage (sc_client_id c) key value)) (λ _, Return))).

Definition RequestTimedOut (self : Z) : program :=
  Timeout_Stop self (reply_waiting self (Reply REPLY_TIMEOUT)).

Definition run_closure (x : closure) : program :=
  match x with
  | SendGet self msg promise =>
      on_client self (λ c,
        CallSendToReplica self (sc_replica c) (GetMessage_name, SerializeToString msg) (λ sent,
          if (sent : bool) then
            on_client self (λ c,
              match waiting c with
              | None => Return
              | Some _ => with_promise promise (λ x, Timeout_SetTimeout self (GetTimeout x) (Timeout_Start self Return))
              end)
          else reply_waiting self (Reply REPLY_NETWORK_FAILURE)))
  | SendPut self msg =>
      CallSendToAll self (PutMessage_name, SerializeToString msg) (λ sent,
        if (sent : bool) then
          on_client self (λ c,
            match waiting c with
            | None => Return
            | Some p => with_promise p (λ x, Timeout_SetTimeout self (GetTimeout x) (Timeout_Start self Return))
            end)
        else reply_waiting self (Reply REPLY_NETWORK_FAILURE))
  | Expire self =>
      set_client self (λ c, c <| timeout_id := 0 |>) (Timeout_Start self (RequestTimedOut self))
  end.

(** [timeout->Stop()] and the reply, when somebody waits. *)
Definition answer_waiting (self : Z) (f : Promise → Promise) : program :=
  on_client self (λ c,
    match waiting c with
    | None => Return
    | Some _ => Timeout_Stop self (reply_waiting self f)
    end).

Definition ReceiveReply (self : Z) (type data : string) : program :=
  if decide (type = GetReplyMessage_name) then
    let reply := ParseFromString data : GetReplyMessage in
    answer_waiting self (Reply_value (gr_status reply) (gr_value reply))
  else if decide (type = PutReplyMessage_name) then
    on_client self (λ c,
      match totalReplies c with
      | None => StopUndefined
      | Some n =>
          if n =? INT_MAX then StopUndefined
          else
            set_client self (λ c, c <| totalReplies := Some (n + 1) |>)
              (if n + 1 >=? sc_n c then answer_waiting self (Reply REPLY_OK) else Return)
      end)
  else StopPanic.

(** The receivers' [ReceiveMessage]: that of a server or that of a shard client. *)
#[global] Instance weak_application : Application ADDR closure World := {|
  TransportCommon.ReceiveMessage := λ self remote type data,
    Access id (λ w,
      match servers w !! self, shardClients w !! self with
      | Some _, _ => HandleMessage self remote type data
      | None, Some _ => ReceiveReply self type data
      | None, None => StopUndefined
      end);
  callback := run_closure
|}.
End weak.

(** ** The client *)

Record Client := MkClient { nshards : Z; bclient : list Z }.

Section client.
Context `{!Codec GetMessage} `{!Codec GetReplyMessage} `{!Codec PutMessage} `{!Codec PutReplyMessage} `{!JsonLib}.
Context {S ADDR : Type} `{!Transport S ADDR closure} (access : (World → World) → M S World).

(** The shard client in charge of a key. *)
Definition shard_of (c : Client) (key : string) : M S Z :=
  i ← lift_res (key_to_shard key (nshards c));
  deref (if i <? 0 then None else bclient c !! Z.to_nat i).

(** A call makes its promise at [p], and starts the request. *)
Definition Client_Get (c : Client) (key : string) (p : Z) : M S unit :=
  self ← shard_of c key;
  _ ← access (λ w, w <| promises ::= <[p := Promise_default]> |>);
  exec access (Get self key p).

Definition Client_Put (c : Client) (key value : string) (p : Z) : M S unit :=
  self ← shard_of c key;
  _ ← access (λ w, w <| promises ::= <[p := Promise_default]> |>);
  exec access (Put self key value p).

(** When the promise is done, the call returns and the promise is gone. *)
Definition Client_Get_return (p : Z) : M S (option (Z * string)) :=
  w ← access id;
  x ← deref (promises w !! p);
  match GetValue x, GetReply x with
  | Some value, Some reply => _ ← access (λ w, w <| promises ::= delete p |>); mret (Some (reply, value))
  | _, _ => mret None
  end.

Definition Client_Put_return (p : Z) : M S (option Z) :=
  w ← access id;
  x ← deref (promises w !! p);
  match GetReply x with
  | Some reply => _ ← access (λ w, w <| promises ::= delete p |>); mret (Some reply)
  | None => mret None
  end.

Definition Client_MultiGet (keys : list string) (value : string) : Z * string := (0, value).

Definition Client_Commit : bool := true.

Definition Client_Stats : list Z := [].
End client.

(** ** A store on a reliable network

    [n] servers and one shard client on a simulated transport without filters. *)
Section reliable.
Context `{!Codec GetMessage} `{!Codec GetReplyMessage} `{!Codec PutMessage} `{!Codec PutReplyMessage}.
Context `{HO : HashOrder} {F : Type} `{!Filters F World}.
Abbreviation Sim := (SimulatedTransport F closure World).
Implicit Types s : Sim.
Context (c : Config) (rs : list Z) (cl : Z).
Abbreviation n := (Z.of_nat (length rs)).
Abbreviation run_program := (exec SimTransport.access).

(** The servers [rs] have the addresses from 0 on, the client has the next. *)
Record net s : Prop := {
  net_registered : registered_ok s;
  net_configs : canonicalConfigs (common s) = [c];
  net_client : configurations (common s) !! cl = Some 0%nat;
  net_resolve i : 0 ≤ i < n → resolve_sim s c i = Ok i;
  net_cache : cache_ok s;
  net_address i r : rs !! i = Some r → addresses s !! r = Some (Z.of_nat i);
  net_address_client : addresses s !! cl = Some n;
  net_endpoint i r : rs !! i = Some r → endpoints s !! Z.of_nat i = Some r;
  net_endpoint_client : endpoints s !! n = Some cl;
  net_filters : filters s = []
}.

Lemma net_ext s s' :
  common s' = common s → addresses s' = addresses s → endpoints s' = endpoints s → replicaIdxs s' = replicaIdxs s →
  filters s' = filters s → net s → net s'.
Proof.
  intros Hc Ha He Hi Hf [Hok Hcfg Hcl Hres Hcache ?????].
  assert (∀ c i, resolve_sim s' c i = resolve_sim s c i) as Hr by (intros; apply resolve_ext; by rewrite ?Hc, ?Hi).
  split; rewrite ?Hc, ?Ha, ?He, ?Hf; try done.
  - intros r p. rewrite Hc, Ha, Hi. apply Hok.
  - intros i. rewrite Hr. apply Hres.
  - intros Hini. simpl in Hini. rewrite Hc in Hini. destruct (Hcache Hini) as [Hca Hmul]. split; simpl; rewrite ?Hc; [|done].
    intros cfg c' i a. rewrite Hr. apply Hca.
Qed.

(** What the transport holds: the queue, the timers, the memory of the program, the last timer id
    and the time. *)
Record holds s (q : list QueuedMessage) (ts : list (Z * PendingTimer closure)) (w : World) (id v : Z) : Prop := {
  holds_net : net s;
  holds_queue : queue s = q;
  holds_timers : timers s = ts;
  holds_app : SimTransport.app s = w;
  holds_id : lastTimerId s = id;
  holds_time : vtime s = v;
  holds_process : processTimers s = true
}.

Lemma holds_recached s s' q ts w id v :
  recached s s' → cached s' → holds s q ts w id v → holds s' q ts w id v.
Proof.
  intros (f & Hf & ->) Hca [[Hok Hcfg Hcl Hres Hcache ?????] ??????]. split; try done.
  destruct (Hf (common s)) as (Hc & Hcf & _).
  split; simpl; try done; [..|by intros _].
  - intros r p. simpl. rewrite Hc, Hcf. apply Hok.
  - by rewrite Hc.
  - by rewrite Hcf.
  - intros i Hi. rewrite (resolve_ext s) by done. by apply Hres.
Qed.

(** *** Rules for the calls of a program *)

Lemma run_access f k Q s q ts w id v :
  holds s q ts w id v → (∀ s', holds s' q ts (f w) id v → wp (run_program (k w)) Q s') →
  wp (run_program (Access f k)) Q s.
Proof.
  intros [Hn Hq Ht Ha Hi Hv Hp] Hk. cbn [exec]. unfold SimTransport.access. apply post_bind. apply post_get. run. apply post_ret.
  rewrite Ha. apply Hk. split; simpl; try done; [|by rewrite Ha]. by apply (net_ext s).
Qed.

Lemma run_send src a dst m k Q s q ts w id v :
  holds s q ts w id v → addresses s !! src = Some a →
  (∀ s', holds s' (q ++ [MkQueuedMessage dst a m.1 m.2]) ts w id v → wp (run_program (k true)) Q s') →
  wp (run_program (CallSend src dst m k)) Q s.
Proof.
  intros [Hn Hq Ht Ha Hi Hv Hp] Hsrc Hk. cbn [exec]. eapply post_bind_run; [by apply (send_unfiltered s src a dst m (net_filters s Hn))|].
  apply Hk. split; simpl; try done; [|by rewrite Hq]. by apply (net_ext s).
Qed.

Lemma run_config s q ts w id v :
  holds s q ts w id v → c_n c = n →
  wp (config_of cl) (λ cfg s', cfg = 0%nat ∧ holds s' q ts w id v ∧ cached s') s.
Proof.
  intros Hh Hcn. destruct Hh as [Hn Hq Ht Ha Hi Hv Hp] eqn:E. clear E. destruct Hn as [Hok Hcfg Hcl Hres Hcache ?????] eqn:E. clear E.
  eapply post_mono.
  { apply (config_of_spec s cl 0%nat); [done| | |done|done].
    - simpl. rewrite Hcfg. apply NoDup_singleton.
    - intros c' i. simpl. rewrite Hcfg. intros ->%list_elem_of_singleton Hi'. exists i. apply Hres. lia. }
  simpl. intros cfg s' (-> & Hre & Hca & _). split_and!; [done|by eapply holds_recached|done].
Qed.

Lemma run_send_to_replica i m k Q s q ts w id v :
  holds s q ts w id v → c_n c = n → 0 ≤ i < n →
  (∀ s', holds s' (q ++ [MkQueuedMessage i n m.1 m.2]) ts w id v → wp (run_program (k true)) Q s') →
  wp (run_program (CallSendToReplica cl i m k)) Q s.
Proof.
  intros Hh Hcn Hi Hk. cbn [exec]. apply post_bind. cbn [SendMessageToReplica sim_transport]. unfold SendMessageToReplica_common.
  apply post_bind. eapply post_mono; [by eapply run_config|]. simpl. intros cfg s1 (-> & Hh1 & Hca). apply post_get.
  assert (addresses_of 0 (common s1) !! i = Some i) as Hx.
  { apply (cached_address _ Hca 0%nat c); [simpl; by rewrite (net_configs s1 (holds_net _ _ _ _ _ _ Hh1))|].
    split; [lia|]. apply (net_resolve s1); [apply Hh1|done]. }
  simpl. rewrite Hx. destruct Hh1 as [Hn1 Hq Ht Ha Hid Hv Hp].
  apply wp_run. eexists _, _. split; [apply (send_unfiltered s1 cl n i m (net_filters s1 Hn1) (net_address_client s1 Hn1))|].
  apply Hk. split; simpl; try done; [|by rewrite Hq]. by apply (net_ext s1).
Qed.

Lemma send_to_each_holds m l s q ts w id v :
  holds s q ts w id v → (∀ x, x ∈ l → x.2 ≠ n) →
  wp (send_to_each cl n m l) (λ b s', b = true ∧ holds s' (q ++ ((λ x, MkQueuedMessage x.2 n m.1 m.2) <$> l)) ts w id v) s.
Proof.
  revert s q. induction l as [|[i a] l IH]; intros s q Hh Hl.
  { simpl. apply post_ret. by rewrite app_nil_r. }
  cbn [send_to_each]. rewrite decide_False by (intros Heq; apply (Hl (i, a)); [by apply elem_of_cons; left|done]).
  destruct Hh as [Hn Hq Ht Ha Hid Hv Hp].
  eapply post_bind_run; [exact (send_unfiltered s cl n a m (net_filters s Hn) (net_address_client s Hn))|]. cbv iota.
  eapply post_mono; [apply (IH _ (q ++ [MkQueuedMessage a n m.1 m.2]))|].
  - split; simpl; try done; [|by rewrite Hq]. by apply (net_ext s).
  - intros x Hx. apply Hl. by apply elem_of_cons; right.
  - simpl. intros b s' [-> Hh']. split; [done|]. by rewrite <- app_assoc in Hh'.
Qed.

Lemma run_send_to_all m k Q s q ts w id v :
  holds s q ts w id v → c_n c = n →
  (∀ s', holds s' (q ++ ((λ j, MkQueuedMessage j n m.1 m.2) <$> seqZ 0 n)) ts w id v → wp (run_program (k true)) Q s') →
  wp (run_program (CallSendToAll cl m k)) Q s.
Proof.
  intros Hh Hcn Hk. cbn [exec]. apply post_bind. cbn [SendMessageToAll sim_transport]. unfold SendMessageToAll_common.
  apply post_bind. eapply post_mono; [by eapply run_config|]. simpl. intros cfg s1 (-> & Hh1 & Hca). apply post_get.
  pose proof (holds_net _ _ _ _ _ _ Hh1) as Hn1.
  pose proof (cached_multicast _ Hca) as Hmul. simpl in Hmul. simpl. rewrite Hmul, lookup_empty.
  eapply post_bind_run.
  { unfold GetAddress_sim, mbind, M_bind, get_st. simpl. by rewrite (net_address_client s1 Hn1). }
  pose proof (cached_in_order _ 0%nat c (λ i, i) Hca) as Hord. simpl in Hord. rewrite Hord.
  2:{ by rewrite (net_configs s1 Hn1). }
  2:{ intros i Hi. apply (net_resolve s1 Hn1). lia. }
  eapply post_mono.
  { eapply (send_to_each_holds m); [done|]. intros x (j & -> & Hj%elem_of_seqZ)%list_elem_of_fmap. simpl. lia. }
  simpl. intros b s' [-> Hh']. apply Hk. rewrite <- list_fmap_compose, Hcn in Hh'. done.
Qed.

Lemma run_timer ms x k Q s q ts w id v :
  holds s q ts w id v → id < INT_MAX → 0 ≤ v + ms < 2 ^ 64 →
  (∀ s', holds s' q (multimap_insert (v + ms) (MkPendingTimer (v + ms) (id + 1) (Callback x)) ts) w (id + 1) v →
     wp (run_program (k (id + 1))) Q s') →
  wp (run_program (CallTimer ms x k)) Q s.
Proof.
  intros [Hn Hq Ht Ha Hi Hv Hp] Hid Hms Hk. cbn [exec]. apply post_bind.
  cbn [Timer sim_transport]. unfold start_timer. apply post_get. rewrite Hi, Hv.
  destruct (Z.eqb_spec id INT_MAX); [lia|]. run. apply post_ret. rewrite u64_small by (unfold is_u64, u64_modulus; lia).
  apply Hk. split; simpl; try done; [|by rewrite Ht]. by apply (net_ext s).
Qed.

Lemma run_cancel tid k Q s q ts w id v :
  holds s q ts w id v →
  (∀ b s', holds s' q (filter (λ x, t_id x.2 ≠ tid) ts) w id v → wp (run_program (k b)) Q s') →
  wp (run_program (CallCancelTimer tid k)) Q s.
Proof.
  intros [Hn Hq Ht Ha Hi Hv Hp] Hk. cbn [exec]. apply post_bind.
  cbn [CancelTimer sim_transport]. unfold CancelTimer_sim. apply post_get. run. apply post_ret.
  apply Hk. split; simpl; try done; [|by rewrite Ht]. by apply (net_ext s).
Qed.

Lemma run_return (Q : unit → Sim → Prop) s : Q tt s → wp (run_program Return) Q s.
Proof. done. Qed.

(** *** Rules for the loop of the transport *)

Lemma deliver_holds k d a t m q' s q ts w id v (Q : unit → Sim → Prop) :
  holds s (MkQueuedMessage d a t m :: q) ts w id v → endpoints s !! d = Some k → k ≠ 0 →
  (∀ s', holds s' (MkQueuedMessage d a t m :: q) ts w id v →
     wp (run_program (TransportCommon.ReceiveMessage k a t m))
       (λ _ s'', ∃ ts' w' id', holds s'' (MkQueuedMessage d a t m :: q') ts' w' id' v ∧
          ∀ s3, holds s3 q' ts' w' id' v → Q tt s3) s') →
  wp (deliver_front (MkQueuedMessage d a t m)) Q s.
Proof.
  intros [Hn Hq Ht Ha Hi Hv Hp] He Hk Hrun. unfold deliver_front. simpl q_dst.
  assert (endpoint d s = Ok (k, s)) as Hend.
  { unfold endpoint, mbind, M_bind, get_st, modify. simpl. rewrite He. simpl. rewrite insert_id by done. by destruct s. }
  eapply post_bind_run; [exact Hend|]. rewrite (proj2 (Z.eqb_neq k 0)) by done. run. apply post_bind.
  eapply post_mono; [apply Hrun|].
  - split; simpl; try done. by apply (net_ext s).
  - simpl. intros _ s2 (ts' & w' & id' & [Hn2 Hq2 Ht2 Ha2 Hi2 Hv2 Hp2] & HQ). unfold modify, post. apply HQ.
    split; simpl; try done; [|by rewrite Hq2]. by apply (net_ext s2).
Qed.

Lemma fire_holds wh t ts Q s q w id v :
  holds s q ((wh, t) :: ts) w id v →
  (∀ s', holds s' q ts w id (t_when t) → wp (run_callback (t_cb t)) Q s') →
  wp fire_timer Q s.
Proof.
  intros [Hn Hq Ht Ha Hi Hv Hp] Hk. unfold fire_timer. apply post_get. rewrite Hp, Ht. simpl.
  run. apply Hk.
  split; simpl; try done. by apply (net_ext s).
Qed.

(** *** The shard client *)

Definition set_sc (sc : ShardClient) (w : World) : World := w <| shardClients ::= <[cl := sc]> |>.
Definition set_promise (p : Z) (x : Promise) (w : World) : World := w <| promises ::= <[p := x]> |>.

Lemma set_sc_lookup sc w : shardClients (set_sc sc w) !! cl = Some sc.
Proof. simpl. by rewrite lookup_insert_eq. Qed.

Lemma set_sc_servers sc w : servers (set_sc sc w) = servers w.
Proof. done. Qed.

Lemma set_sc_twice sc sc' w : set_sc sc (set_sc sc' w) = set_sc sc w.
Proof. unfold set_sc. simpl. by rewrite insert_insert_eq. Qed.

Lemma run_on_client k Q s q ts w id v sc :
  holds s q ts w id v → shardClients w !! cl = Some sc →
  (∀ s', holds s' q ts w id v → wp (run_program (k sc)) Q s') → wp (run_program (on_client cl k)) Q s.
Proof. intros Hh Hsc Hk. eapply run_access; [done|]. intros s' Hh'. rewrite Hsc. by apply Hk. Qed.

Lemma run_set_client f k Q s q ts w id v sc :
  holds s q ts w id v → shardClients w !! cl = Some sc →
  (∀ s', holds s' q ts (set_sc (f sc) w) id v → wp (run_program k) Q s') → wp (run_program (set_client cl f k)) Q s.
Proof.
  intros Hh Hsc Hk. eapply run_access; [done|]. intros s' Hh'. apply Hk.
  replace (set_sc (f sc) w) with (w <| shardClients ::= alter f cl |>); [done|].
  unfold set_sc. simpl. f_equal. apply map_eq. intros i. destruct (decide (i = cl)) as [->|].
  - by rewrite lookup_alter_eq, lookup_insert_eq, Hsc.
  - by rewrite lookup_alter_ne, lookup_insert_ne.
Qed.

Lemma run_with_promise p x k Q s q ts w id v :
  holds s q ts w id v → promises w !! p = Some x →
  (∀ s', holds s' q ts w id v → wp (run_program (k x)) Q s') → wp (run_program (with_promise p k)) Q s.
Proof. intros Hh Hx Hk. eapply run_access; [done|]. intros s' Hh'. rewrite Hx. by apply Hk. Qed.

(** The timeout is set to [T] and started. *)
Lemma run_start_timeout T Q s q w id v sc :
  holds s q [] w id v → shardClients w !! cl = Some sc → timeout_id sc = 0 → id < INT_MAX → 0 ≤ v + T < 2 ^ 64 →
  (∀ s', holds s' q [(v + T, MkPendingTimer (v + T) (id + 1) (Callback (Expire cl)))]
     (set_sc (sc <| timeout_ms := T |> <| timeout_id := id + 1 |>) w) (id + 1) v → Q tt s') →
  wp (run_program (Timeout_SetTimeout cl T (Timeout_Start cl Return))) Q s.
Proof.
  intros Hh Hsc Htid Hid HT HQ.
  eapply run_set_client; [done..|]. clear s Hh. intros s Hh. unfold Timeout_Start, Timeout_Stop.
  eapply run_on_client; [done|apply set_sc_lookup|]. clear s Hh. intros s Hh.
  change (timeout_id (sc <| timeout_ms := T |>)) with (timeout_id sc). rewrite Htid. change (0 >? 0) with false. cbv iota.
  eapply run_on_client; [done|apply set_sc_lookup|]. clear s Hh. intros s Hh.
  eapply run_timer; [done|done|done|]. clear s Hh. intros s Hh. simpl in Hh.
  eapply run_set_client; [done|apply set_sc_lookup|]. clear s Hh. intros s Hh. rewrite set_sc_twice in Hh.
  apply run_return. by apply HQ.
Qed.

(** Somebody waits and gets the answer; the timeout is the only timer. *)
Lemma run_answer f p x Q s q t wh w id v sc :
  holds s q [(wh, t)] w id v → shardClients w !! cl = Some sc → waiting sc = Some p → promises w !! p = Some x →
  0 < timeout_id sc → t_id t = timeout_id sc →
  (∀ s', holds s' q [] (set_promise p (f x) (set_sc (sc <| timeout_id := 0 |> <| waiting := None |>) w)) id v → Q tt s') →
  wp (run_program (answer_waiting cl f)) Q s.
Proof.
  intros Hh Hsc Hw Hx Htid Ht HQ. unfold answer_waiting. eapply run_on_client; [done..|]. clear s Hh. intros s Hh. rewrite Hw.
  unfold Timeout_Stop. eapply run_on_client; [done..|]. clear s Hh. intros s Hh.
  rewrite Z.gtb_ltb, (proj2 (Z.ltb_lt _ _)) by done.
  eapply run_cancel; [done|]. clear s Hh. intros _ s Hh. rewrite filter_cons, decide_False in Hh by (simpl; congruence).
  eapply run_set_client; [done..|]. clear s Hh. intros s Hh. unfold reply_waiting.
  eapply run_on_client; [done|apply set_sc_lookup|]. clear s Hh. intros s Hh.
  change (waiting (sc <| timeout_id := 0 |>)) with (waiting sc). rewrite Hw.
  eapply run_set_client; [done|apply set_sc_lookup|]. clear s Hh. intros s Hh. rewrite set_sc_twice in Hh. unfold reply_to.
  eapply (run_with_promise p x); [done|done|]. clear s Hh. intros s Hh.
  eapply run_access; [done|]. clear s Hh. intros s Hh. apply run_return. by apply HQ.
Qed.

(** *** Put *)
Context (Hcn : c_n c = n) (Hnd : NoDup rs) (Hnull : 0 ∉ rs) (Hcl0 : cl ≠ 0) (Hclrs : cl ∉ rs) (Hsome : rs ≠ []) (Hmax : n ≤ INT_MAX).
Context `{!CodecLaw GetMessage} `{!CodecLaw GetReplyMessage} `{!CodecLaw PutMessage}.

Lemma run_put_start key value p Q s w id v sc :
  holds s [] [] w id v → shardClients w !! cl = Some sc → id < INT_MAX → 0 ≤ v < 2 ^ 64 →
  (∀ s', holds s' [] [(v, MkPendingTimer v (id + 1) (Callback (SendPut cl (MkPutMessage (sc_client_id sc) key value))))]
     (set_sc (sc <| waiting := Some p |> <| totalReplies := Some 0 |>) w) (id + 1) v → Q tt s') →
  wp (run_program (Put cl key value p)) Q s.
Proof.
  intros Hh Hsc Hid Hv HQ. unfold Put. eapply run_on_client; [done..|]. clear s Hh. intros s Hh.
  eapply run_set_client; [done..|]. clear s Hh. intros s Hh.
  eapply run_timer; [done|done|lia|]. clear s Hh. intros s Hh. rewrite Z.add_0_r in Hh. apply run_return. by apply HQ.
Qed.

Definition put_to (data : string) (j : Z) : QueuedMessage := MkQueuedMessage j n PutMessage_name data.
Definition put_reply (j : Z) : QueuedMessage :=
  MkQueuedMessage n j PutReplyMessage_name (SerializeToString (MkPutReplyMessage REPLY_OK)).

Lemma run_put_send msg p x T Q s w id v sc :
  holds s [] [] w id v → shardClients w !! cl = Some sc → waiting sc = Some p → promises w !! p = Some x →
  GetTimeout x = T → timeout_id sc = 0 → id < INT_MAX → 0 ≤ v + T < 2 ^ 64 →
  (∀ s', holds s' (put_to (SerializeToString msg) <$> seqZ 0 n) [(v + T, MkPendingTimer (v + T) (id + 1) (Callback (Expire cl)))]
     (set_sc (sc <| timeout_ms := T |> <| timeout_id := id + 1 |>) w) (id + 1) v → Q tt s') →
  wp (run_program (run_closure (SendPut cl msg))) Q s.
Proof.
  intros Hh Hsc Hw Hx HT Htid Hid Hv HQ. cbn [run_closure]. eapply run_send_to_all; [done|done|]. clear s Hh. intros s Hh.
  eapply run_on_client; [done..|]. clear s Hh. intros s Hh. rewrite Hw.
  eapply (run_with_promise p x); [done|done|]. clear s Hh. intros s Hh. rewrite HT. by eapply run_start_timeout.
Qed.

(** The server at an address. *)
Definition server_at (j : Z) : Z := default 0 (rs !! Z.to_nat j).

Lemma server_at_ok j s : net s → 0 ≤ j < n →
  endpoints s !! j = Some (server_at j) ∧ addresses s !! server_at j = Some j ∧ server_at j ≠ 0 ∧ server_at j ≠ cl.
Proof.
  intros Hn Hj. unfold server_at. destruct (lookup_lt_is_Some_2 rs (Z.to_nat j)) as [r Hr]; [lia|]. rewrite Hr. simpl.
  pose proof (net_endpoint s Hn _ _ Hr) as He. pose proof (net_address s Hn _ _ Hr) as Ha. rewrite Z2Nat.id in He, Ha by lia.
  apply list_elem_of_lookup_2 in Hr. split_and!; [done|done|congruence|congruence].
Qed.

Definition store_at (key value : string) (j : Z) (w : World) : World :=
  w <| servers ::= alter (Store.Load key value) (server_at j) |>.

Lemma store_at_clients key value j w : shardClients (store_at key value j w) = shardClients w.
Proof. done. Qed.

Lemma run_handle_put msg j Q s q ts w id v :
  holds s q ts w id v → 0 ≤ j < n → is_Some (servers w !! server_at j) →
  (∀ s', holds s' (q ++ [put_reply j]) ts (store_at (p_key msg) (put_value msg) j w) id v → Q tt s') →
  wp (run_program (TransportCommon.ReceiveMessage (server_at j) n PutMessage_name (SerializeToString msg))) Q s.
Proof.
  intros Hh Hj [st Hst] HQ. cbn [TransportCommon.ReceiveMessage weak_application].
  eapply run_access; [done|]. clear s Hh. intros s Hh. change (Datatypes.id w) with w in Hh. rewrite Hst. unfold HandleMessage.
  rewrite decide_False by done. rewrite decide_True by done. rewrite parse_serialize. unfold HandlePut.
  eapply run_access; [done|]. clear s Hh. intros s Hh. change (Datatypes.id w) with w in Hh. rewrite Hst. unfold Store.Put.
  eapply run_access; [done|]. clear s Hh. intros s Hh.
  destruct (server_at_ok j s (holds_net _ _ _ _ _ _ Hh) Hj) as (_ & Ha & _).
  eapply (run_send (server_at j) j n); [done|done|]. clear s Hh Ha. intros s Hh. apply run_return. apply HQ.
  replace (store_at (p_key msg) (put_value msg) j w) with (w <| servers ::= <[server_at j := (KVStore.put (p_key msg) (put_value msg) st).2]> |>); [done|].
  unfold store_at. simpl. f_equal. apply map_eq. intros i. destruct (decide (i = server_at j)) as [->|].
  - by rewrite lookup_alter_eq, lookup_insert_eq, Hst.
  - by rewrite lookup_alter_ne, lookup_insert_ne.
Qed.

(** The servers store the value one after the other, and their replies are queued. *)
Lemma process_puts msg js fuel Q : ∀ s rep ts w id v,
  holds s ((put_to (SerializeToString msg) <$> js) ++ rep) ts w id v →
  (∀ j, j ∈ js → 0 ≤ j < n ∧ is_Some (servers w !! server_at j)) →
  (∀ s', holds s' (rep ++ (put_reply <$> js)) ts (foldl (λ w j, store_at (p_key msg) (put_value msg) j w) w js) id v →
     wp (process_queue fuel) Q s') →
  wp (process_queue (length js + fuel)) Q s.
Proof.
  induction js as [|j js IH]; intros s rep ts w id v Hh Hjs HQ.
  { apply HQ. by rewrite app_nil_r. }
  destruct (Hjs j) as [Hj Hst]; [by apply elem_of_cons; left|].
  destruct (server_at_ok j s (holds_net _ _ _ _ _ _ Hh) Hj) as (He & _ & Hr0 & _).
  cbn [length Nat.add process_queue]. apply post_get. rewrite (holds_queue _ _ _ _ _ _ Hh).
  cbn [fmap list_fmap app]. apply post_bind. 
  eapply (deliver_holds (server_at j) _ _ _ _ ((put_to (SerializeToString msg) <$> js) ++ rep ++ [put_reply j])); [exact Hh|done|done|].
  clear s Hh He. intros s Hh. eapply run_handle_put; [done|done|done|]. clear s Hh. intros s Hh.
  eexists _, _, _. split; [rewrite app_assoc; exact Hh|]. clear s Hh. intros s Hh. eapply IH; [exact Hh| |].
  - intros j' Hj'. destruct (Hjs j') as [? [st Hst']]; [by apply elem_of_cons; right|]. split; [done|].
    simpl. rewrite lookup_alter. case_decide; [|by eexists]. rewrite fmap_is_Some. congruence.
  - intros s' Hh'. apply HQ. by rewrite <- app_assoc in Hh'.
Qed.

(** The last reply answers the call. *)
Lemma process_replies p x tid wh : ∀ js s w id v sc fuel t,
  holds s (put_reply <$> js) [(wh, MkPendingTimer wh tid (Callback (Expire cl)))] w id v → js ≠ [] →
  shardClients w !! cl = Some sc → sc_n sc = n → waiting sc = Some p → promises w !! p = Some x → servers w !! cl = None →
  timeout_id sc = tid → 0 < tid → totalReplies sc = Some t → t + Z.of_nat (length js) = n → 0 ≤ t →
  wp (process_queue (length js + S fuel)) (λ b s', b = true ∧
    holds s' [] [] (set_promise p (Reply REPLY_OK x)
      (set_sc (sc <| timeout_id := 0 |> <| waiting := None |> <| totalReplies := Some n |>) w)) id v) s.
Proof.
  induction js as [|j js IH]; intros s w id v sc fuel t Hh Hne Hsc Hn Hw Hx Hserver Htid Htid0 Ht Htn Ht0; [done|].
  cbn [length Nat.add process_queue]. apply post_get. rewrite (holds_queue _ _ _ _ _ _ Hh). cbn [fmap list_fmap].
  apply post_bind.
  eapply (deliver_holds cl _ _ _ _ (put_reply <$> js)); [exact Hh|apply (net_endpoint_client s), Hh|done|]. clear s Hh. intros s Hh.
  cbn [TransportCommon.ReceiveMessage weak_application].
  eapply run_access; [done|]. clear s Hh. intros s Hh. change (Datatypes.id w) with w in Hh. rewrite Hserver, Hsc.
  unfold ReceiveReply. rewrite decide_False by done. rewrite decide_True by done.
  eapply run_on_client; [done..|]. clear s Hh. intros s Hh. rewrite Ht.
  rewrite (proj2 (Z.eqb_neq t INT_MAX)) by (simpl in Htn; lia).
  eapply run_set_client; [done..|]. clear s Hh. intros s Hh. rewrite Hn, Z.geb_leb.
  destruct js as [|j' js].
  - destruct (Z.leb_spec n (t + 1)); [|simpl in Htn; lia].
    eapply (run_answer _ p x); [done|apply set_sc_lookup|done|done|simpl; lia|done|]. clear s Hh. intros s Hh.
    eexists _, _, _. split; [exact Hh|]. clear s Hh. intros s Hh. rewrite set_sc_twice in Hh.
    replace (t + 1) with n in Hh by (simpl in Htn; lia). cbn [length Nat.add process_queue]. apply post_get.
    rewrite (holds_queue _ _ _ _ _ _ Hh). apply post_ret. split; [done|]. exact Hh.
  - destruct (Z.leb_spec n (t + 1)); [simpl in Htn; lia|]. apply run_return.
    eexists _, _, _. split; [exact Hh|]. clear s Hh. intros s Hh. eapply post_mono.
    + eapply (IH _ _ _ _ _ fuel (t + 1)); [exact Hh|done|apply set_sc_lookup|done|done|done|done|done|done|done|simpl in Htn |- *; lia|lia].
    + simpl. intros b s' [-> Hh']. split; [done|]. rewrite set_sc_twice in Hh'. exact Hh'.
Qed.

Lemma idle_holds s w id v : holds s [] [] w id v → idle s = true.
Proof. intros [_ Hq Ht _ _ _ Hp]. unfold idle. by rewrite Hq, Ht, Hp. Qed.

(** A round that fires the only timer, when nothing is queued. *)
Lemma round_fires wh t fuel Q s w id v :
  holds s [] [(wh, t)] w id v →
  (∀ s', holds s' [] [] w id (t_when t) →
     wp (run_callback (t_cb t)) (λ _ s'', idle s'' = false ∧ wp (rounds fuel) Q s'') s') →
  wp (rounds (S fuel)) Q s.
Proof.
  intros Hh Hk. cbn [rounds process_queue]. apply post_bind, post_get. rewrite (holds_queue _ _ _ _ _ _ Hh). apply post_ret.
  cbv iota. apply post_bind. eapply fire_holds; [exact Hh|]. clear s Hh. intros s Hh.
  eapply post_mono; [by apply Hk|]. simpl. intros _ s' [Hi Hq]. apply post_get. by rewrite Hi.
Qed.

(** A last round: the queue is worked off and no timer is left. *)
Lemma round_ends fuel (Q : bool → Sim → Prop) s :
  wp (process_queue (S fuel)) (λ b s', b = true ∧ ∃ w id v, holds s' [] [] w id v ∧ Q true s') s →
  wp (rounds (S fuel)) Q s.
Proof.
  intros Hq. cbn [rounds]. apply post_bind. eapply post_mono; [exact Hq|].
  simpl. intros b s' (-> & w & id & v & Hh & HQ). apply post_bind. unfold fire_timer. apply post_get.
  rewrite (holds_process _ _ _ _ _ _ Hh), (holds_timers _ _ _ _ _ _ Hh). apply post_ret. apply post_get.
  rewrite (idle_holds _ _ _ _ Hh). by apply post_ret.
Qed.

Lemma idle_queue s q ts w id v : holds s q ts w id v → q ≠ [] → idle s = false.
Proof. intros [_ Hq _ _ _ _ _] Hne. unfold idle. rewrite Hq. by rewrite bool_decide_false. Qed.

(** The world after a put has been acknowledged. *)
Definition after_put (key value : string) (p : Z) (x : Promise) (sc : ShardClient) (w : World) : World :=
  set_promise p (Reply REPLY_OK x)
    (set_sc (sc <| timeout_ms := GetTimeout x |> <| timeout_id := 0 |> <| waiting := None |> <| totalReplies := Some n |>)
      (foldl (λ w j, store_at key value j w) w (seqZ 0 n))).

Lemma stored_clients key value js w :
  shardClients (foldl (λ w j, store_at key value j w) w js) = shardClients w ∧
  promises (foldl (λ w j, store_at key value j w) w js) = promises w.
Proof. revert w. induction js as [|j js IH]; intros w; [done|]. simpl. destruct (IH (store_at key value j w)) as [-> ->]. done. Qed.

Lemma stored_set_sc key value js sc w :
  foldl (λ w j, store_at key value j w) (set_sc sc w) js = set_sc sc (foldl (λ w j, store_at key value j w) w js).
Proof. revert w. induction js as [|j js IH]; intros w; [done|]. simpl. rewrite <- IH. done. Qed.

Lemma run_lookup s q ts w id v :
  holds s q ts w id v → wp (LookupAddresses (S := Sim)) (λ _ s', holds s' q ts w id v) s.
Proof.
  intros Hh. destruct (holds_net _ _ _ _ _ _ Hh) as [Hok Hcfg _ Hres _ _ _ _ _ _].
  eapply post_mono.
  { apply (LookupAddresses_spec s); [done| |].
    - simpl. rewrite Hcfg. apply NoDup_singleton.
    - intros c' i. simpl. rewrite Hcfg. intros ->%list_elem_of_singleton Hi'. exists i. apply Hres. lia. }
  simpl. intros _ s' (Hre & Hca & _). by eapply holds_recached.
Qed.

Lemma seqZ_nonempty : seqZ 0 n ≠ [].
Proof. intros Heq. apply Hsome. apply (f_equal length) in Heq. rewrite length_seqZ in Heq. destruct rs; [done|]. simpl in Heq. lia. Qed.

Lemma stored_receiver key value w :
  servers w !! cl = None → servers (foldl (λ w j, store_at key value j w) w (seqZ 0 n)) !! cl = None.
Proof.
  assert (∀ j, j ∈ seqZ 0 n → 0 ≤ j < n) as Hjs by (intros j Hj%elem_of_seqZ; lia). revert w Hjs.
  generalize (seqZ 0 n). intros js. induction js as [|j js IH]; intros w Hjs Hw; [done|]. cbn [foldl].
  apply IH; [intros; apply Hjs; by apply elem_of_cons; right|]. simpl. rewrite lookup_alter_ne; [done|].
  assert (0 ≤ j < n) as Hj by (apply Hjs; by apply elem_of_cons; left). unfold server_at.
  destruct (lookup_lt_is_Some_2 rs (Z.to_nat j)) as [r Hr]; [lia|]. rewrite Hr. simpl. intros <-. apply Hclrs.
  by eapply list_elem_of_lookup_2.
Qed.

(** A put is acknowledged after all servers have stored the value. *)
Lemma put_runs key value p x s w id v sc fuel :
  holds s [] [] w id v → shardClients w !! cl = Some sc → sc_n sc = n → waiting sc = None → timeout_id sc = 0 →
  promises w !! p = Some x → servers w !! cl = None → (∀ j, 0 ≤ j < n → is_Some (servers w !! server_at j)) →
  0 ≤ id → id + 2 ≤ INT_MAX → 0 ≤ v → 0 ≤ GetTimeout x → v + GetTimeout x < 2 ^ 64 → (2 * length rs + 2 ≤ fuel)%nat →
  wp (_ ← run_program (Put cl key value p); Run fuel)
    (λ b s', b = true ∧ holds s' [] [] (after_put key value p x sc w) (id + 2) v) s.
Proof.
  intros Hh Hsc Hn Hw Htid Hx Hserver Hservers Hid Hmaxid Hv HT HvT Hfuel.
  apply post_bind. eapply run_put_start; [done..|lia|lia|]. clear s Hh. intros s Hh.
  unfold Run. apply post_bind. eapply post_mono; [by eapply run_lookup|]. clear s Hh. cbv beta. intros ? s Hh.
  destruct fuel as [|[|fuel]]; [lia|lia|]. eapply round_fires; [exact Hh|]. clear s Hh. intros s Hh. cbn [run_callback t_cb].
  eapply run_put_send; [exact Hh|apply set_sc_lookup|done|done|done|done|lia|simpl; lia|]. clear s Hh. intros s Hh.
  split; [eapply idle_queue; [exact Hh|]; intros ?%fmap_nil_inv; by apply seqZ_nonempty|].
  apply round_ends. rewrite set_sc_twice in Hh. simpl t_when in Hh.
  replace (S fuel) with (length (seqZ 0 n) + (length (seqZ 0 n) + S (fuel - 2 * length rs)))%nat by (rewrite length_seqZ; lia).
  eapply (process_puts _ (seqZ 0 n) _ _ s []); [by rewrite app_nil_r| |].
  { intros j Hj%elem_of_seqZ. split; [lia|]. apply Hservers. lia. }
  clear s Hh. intros s Hh. rewrite stored_set_sc in Hh. cbn [p_key put_value app] in Hh.
  destruct (stored_clients key value (seqZ 0 n) w) as [Hcs Hps].
  pose proof (stored_receiver key value w Hserver) as Hserver'.
  eapply post_mono.
  - eapply (process_replies p x (id + 1 + 1) _ (seqZ 0 n) s _ _ _ _ _ 0); [exact Hh|apply seqZ_nonempty|apply set_sc_lookup|done|done| | |done|lia|done| |lia].
    + simpl. by rewrite Hps.
    + done.
    + rewrite length_seqZ. lia.
  - simpl. intros b s' [-> Hh']. split; [done|]. eexists _, _, _. split; [exact Hh'|]. split; [done|].
    rewrite set_sc_twice in Hh'. replace (id + 2) with (id + 1 + 1) by lia. exact Hh'.
Qed.

(** ** Get *)

Definition get_reply (j status : Z) (value : string) : QueuedMessage :=
  MkQueuedMessage n j GetReplyMessage_name (SerializeToString (MkGetReplyMessage status value)).

Definition after_get (p : Z) (x : Promise) (status : Z) (value : string) (sc : ShardClient) (w : World) : World :=
  set_promise p (Reply_value status value x)
    (set_sc (sc <| timeout_ms := GetTimeout x |> <| timeout_id := 0 |> <| waiting := None |>) w).

(** A get returns what the replica of the client holds. *)
Lemma get_runs key p x s w id v sc st fuel :
  holds s [] [] w id v → shardClients w !! cl = Some sc → 0 ≤ sc_replica sc < n → waiting sc = None → timeout_id sc = 0 →
  promises w !! p = Some x → servers w !! cl = None → servers w !! server_at (sc_replica sc) = Some st →
  0 ≤ id → id + 2 ≤ INT_MAX → 0 ≤ v → 0 ≤ GetTimeout x → v + GetTimeout x < 2 ^ 64 → (4 ≤ fuel)%nat →
  wp (_ ← run_program (Get cl key p); Run fuel)
    (λ b s', b = true ∧ holds s' [] [] (after_get p x (Store.Get st key "").1 (Store.Get st key "").2 sc w) (id + 2) v) s.
Proof.
  intros Hh Hsc Hrep Hw Htid Hx Hserver Hst Hid Hmaxid Hv HT HvT Hfuel. apply post_bind. unfold Get.
  eapply run_on_client; [done..|]. clear s Hh. intros s Hh.
  eapply run_set_client; [done..|]. clear s Hh. intros s Hh.
  eapply run_timer; [done|lia|lia|]. clear s Hh. intros s Hh. rewrite Z.add_0_r in Hh. apply run_return.
  unfold Run. apply post_bind. eapply post_mono; [by eapply run_lookup|]. clear s Hh. cbv beta. intros ? s Hh.
  destruct fuel as [|[|[|[|fuel]]]]; [lia..|]. eapply round_fires; [exact Hh|]. clear s Hh. intros s Hh.
  cbn [run_callback t_cb run_closure callback weak_application].
  eapply run_on_client; [done|apply set_sc_lookup|]. clear s Hh. intros s Hh.
  eapply run_send_to_replica; [done|done|done|]. clear s Hh. intros s Hh. cbn [fst snd] in Hh.
  eapply run_on_client; [done|apply set_sc_lookup|]. clear s Hh. intros s Hh. simpl waiting.
  eapply (run_with_promise p x); [done|done|]. clear s Hh. intros s Hh.
  eapply run_start_timeout; [done|apply set_sc_lookup|done|lia|simpl; lia|]. clear s Hh. intros s Hh. rewrite set_sc_twice in Hh.
  split; [by eapply idle_queue|]. simpl t_when in Hh. apply round_ends. cbn [process_queue]. apply post_get.
  rewrite (holds_queue _ _ _ _ _ _ Hh). cbn [app]. apply post_bind.
  destruct (server_at_ok _ s (holds_net _ _ _ _ _ _ Hh) Hrep) as (He & _ & Hr0 & Hrcl).
  set (status := (Store.Get st key "").1). set (value := (Store.Get st key "").2).
  eapply (deliver_holds (server_at (sc_replica sc)) _ _ _ _ [get_reply (sc_replica sc) status value]); [exact Hh|done|done|].
  clear s Hh He. intros s Hh. cbn [TransportCommon.ReceiveMessage weak_application].
  eapply run_access; [done|]. clear s Hh. intros s Hh. unfold Datatypes.id in Hh.
  rewrite set_sc_servers, Hst. unfold HandleMessage. rewrite decide_True by done.
  rewrite parse_serialize. unfold HandleGet. eapply run_access; [done|]. clear s Hh. intros s Hh. unfold Datatypes.id in Hh.
  rewrite set_sc_servers, Hst.
  cbn [g_key]. rewrite (surjective_pairing (Store.Get st key "")). fold status value.
  destruct (server_at_ok _ s (holds_net _ _ _ _ _ _ Hh) Hrep) as (_ & Ha & _).
  eapply (run_send _ (sc_replica sc) n); [done|done|]. clear s Hh Ha. intros s Hh. apply run_return.
  eexists _, _, _. split; [exact Hh|]. clear s Hh. intros s Hh. apply post_get. rewrite (holds_queue _ _ _ _ _ _ Hh).
  apply post_bind. eapply (deliver_holds cl _ _ _ _ []); [exact Hh|apply (net_endpoint_client s), Hh|done|]. clear s Hh. intros s Hh.
  cbn [TransportCommon.ReceiveMessage weak_application].
  eapply run_access; [done|]. clear s Hh. intros s Hh. unfold Datatypes.id in Hh. rewrite set_sc_servers, Hserver, set_sc_lookup.
  unfold ReceiveReply. rewrite decide_True by done. rewrite parse_serialize. cbn [gr_status gr_value].
  eapply (run_answer _ p x); [done|apply set_sc_lookup|done|done|simpl; lia|done|]. clear s Hh. intros s Hh.
  eexists _, _, _. split; [exact Hh|]. clear s Hh. intros s Hh. rewrite set_sc_twice in Hh.
  cbn [process_queue]. apply post_get. rewrite (holds_queue _ _ _ _ _ _ Hh). apply post_ret. split; [done|].
  eexists _, _, _. split; [exact Hh|]. split; [done|]. replace (id + 2) with (id + 1 + 1) by lia. exact Hh.
Qed.

(** ** Deployment *)

Lemma server_at_inj i j : 0 ≤ i < n → 0 ≤ j < n → server_at i = server_at j → i = j.
Proof.
  intros Hi Hj. unfold server_at.
  destruct (lookup_lt_is_Some_2 rs (Z.to_nat i)) as [r Hr]; [lia|]. destruct (lookup_lt_is_Some_2 rs (Z.to_nat j)) as [r' Hr']; [lia|].
  rewrite Hr, Hr'. simpl. intros <-. pose proof (NoDup_lookup _ _ _ _ Hnd Hr Hr'). lia.
Qed.

Lemma stored_server key value js w j :
  NoDup js → (∀ i, i ∈ js → 0 ≤ i < n) → 0 ≤ j < n →
  servers (foldl (λ w j, store_at key value j w) w js) !! server_at j =
  (if decide (j ∈ js) then Store.Load key value else Datatypes.id) <$> servers w !! server_at j.
Proof.
  revert w. induction js as [|i js IH]; intros w Hjs Hin Hj.
  { simpl. by destruct (servers w !! server_at j). }
  apply NoDup_cons in Hjs as [Hi Hjs]. cbn [foldl]. rewrite IH; [|done|intros; apply Hin; by apply elem_of_cons; right|done].
  assert (0 ≤ i < n) as Hin' by (apply Hin; by apply elem_of_cons; left). simpl. destruct (decide (i = j)) as [->|Hne].
  - rewrite lookup_alter_eq, decide_False, decide_True by (done || (by apply elem_of_cons; left)).
    by destruct (servers w !! server_at j).
  - rewrite lookup_alter_ne by (intros Heq; by apply Hne, server_at_inj). f_equal.
    destruct (decide (j ∈ js)) as [Hy|Hnj]; [by rewrite decide_True by (by apply elem_of_cons; right)|].
    rewrite decide_False; [done|]. intros [->|?]%elem_of_cons; done.
Qed.

Lemma joined_net s s' :
  hosts c rs s → canonicalConfigs (common s') = [c] →
  configurations (common s') = insert_new cl 0%nat (configurations (common s)) →
  replicaAddressesInitialized (common s') = false → addresses s' = <[cl := n]> (addresses s) →
  endpoints s' = <[n := cl]> (endpoints s) → replicaIdxs s' = <[n := -1]> (replicaIdxs s) → filters s' = [] → net s'.
Proof.
  intros [_ Hr Ha Hi He _ _ _] Hc' Hr' Hini' Ha' He' Hi' Hf'.
  assert (∀ i r, rs !! i = Some r → addresses s' !! r = Some (Z.of_nat i)) as Haddr.
  { intros i r Hir. rewrite Ha', lookup_insert_ne by (intros <-; apply Hclrs; by eapply list_elem_of_lookup_2).
    apply Ha. rewrite Nat2Z.id. split; [lia|done]. }
  assert (configurations (common s') !! cl = Some 0%nat) as Hcl'.
  { rewrite Hr', insert_new_lookup_eq. destruct (configurations (common s) !! cl) as [p|] eqn:Hp; [|done]. by apply Hr in Hp as [_ ->]. }
  assert (∀ r p, configurations (common s') !! r = Some p → p = 0%nat ∧ (r = cl ∨ r ∈ rs)) as Hconf.
  { intros r p Hrp. destruct (decide (cl = r)) as [<-|Hne]; [split; [congruence|by left]|].
    rewrite Hr', insert_new_lookup_ne in Hrp by done. apply Hr in Hrp as [? ->]. by auto. }
  assert (registered_ok s') as Hok.
  { intros r p [-> Hor]%Hconf. rewrite Hc'. split; [by eexists|]. destruct Hor as [->|[i Hir]%list_elem_of_lookup_1].
    - exists n. rewrite Ha', Hi', !lookup_insert_eq. split; [done|by eexists].
    - exists (Z.of_nat i). split; [by apply Haddr|]. apply lookup_lt_Some in Hir.
      rewrite Hi', lookup_insert_ne by lia. exists (Z.of_nat i). apply Hi. lia. }
  split; try done.
  - intros i Hin. destruct (lookup_lt_is_Some_2 rs (Z.to_nat i)) as [r Hri]; [lia|].
    pose proof (Haddr _ _ Hri) as Hra. rewrite Z2Nat.id in Hra by lia.
    assert (replicaIdxs s' !! i = Some i) as Hii by (rewrite Hi', lookup_insert_ne by lia; apply Hi; lia).
    destruct (resolve_finds s' c i r 0%nat i) as [a Hres]; [done| |by rewrite Hc'|done|by rewrite Hii|].
    { destruct (decide (cl = r)) as [<-|Hne]; [done|]. rewrite Hr', insert_new_lookup_ne by done. apply Hr.
      split; [by eapply list_elem_of_lookup_2|done]. }
    rewrite Hres. unfold resolve_sim in Hres. apply resolve_in_found in Hres as (r' & p' & Hin' & _ & Ha'' & Hidx).
    rewrite by_key_perm, elem_of_map_to_list in Hin'. apply Hconf in Hin' as [_ [->|[k Hk]%list_elem_of_lookup_1]].
    + rewrite Ha', lookup_insert_eq in Ha''. injection Ha'' as <-. rewrite Hi', lookup_insert_eq in Hidx. simpl in Hidx. lia.
    + rewrite (Haddr _ _ Hk) in Ha''. injection Ha'' as <-. apply lookup_lt_Some in Hk.
      rewrite Hi', lookup_insert_ne in Hidx by lia.
      assert (replicaIdxs s !! Z.of_nat k = Some (Z.of_nat k)) as Hkk by (apply Hi; lia). rewrite Hkk in Hidx. simpl in Hidx. by subst i.
  - intros Hini. simpl in Hini. congruence.
  - by rewrite Ha', lookup_insert_eq.
  - intros i r Hir. rewrite He', lookup_insert_ne by (apply lookup_lt_Some in Hir; lia). apply He. rewrite Nat2Z.id. split; [lia|done].
  - by rewrite He', lookup_insert_eq.
Qed.

Lemma client_registers s w :
  hosts c rs s → c_n c ≤ Z.of_nat (length (replicas c)) → SimTransport.app s = w → processTimers s = true →
  wp (Register cl c (-1)) (λ _ s', holds s' [] [] w 0 0) s.
Proof.
  intros Hh Hlen Hw Hpt. pose proof (Register_keeps cl c (-1) w true s (conj Hw Hpt)) as Hkeep.
  assert (wp (Register cl c (-1)) (λ _ s', SimTransport.app s' = w → processTimers s' = true → holds s' [] [] w 0 0) s) as Hreg.
  2:{ unfold post in *. cbn [Register sim_transport] in *. destruct (Register_sim cl c (-1) s) as [[u s']| |]; [|done..].
      destruct Hkeep as [??]. by apply Hreg. }
  pose proof Hh as Hh0. destruct Hh as [Hc _ _ _ _ Hl _ (Hq & Hf & Ht & Hlast & Hv & _)].
  cbn [Register sim_transport]. unfold Register_sim. apply post_get. rewrite Hl.
  destruct (Z.eqb_spec (n - 1) INT_MAX); [lia|]. rewrite (proj2 (Z.eqb_neq cl 0)) by done. simpl orb. cbv iota. rewrite Z.sub_add. run.
  apply post_bind. eapply post_mono; [by apply RegisterConfiguration_spec|]. simpl. intros p s' [Hp ->].
  rewrite decide_False in Hc by done. rewrite Hc in Hp. simpl in Hp. rewrite decide_True in Hp by done. simpl in Hp. subst p.
  unfold modify, post. intros Hw' Hp'. split; simpl; try done.
  apply (joined_net s); simpl; try done.
  by rewrite Hc, decide_True by by apply list_elem_of_singleton.
Qed.

Definition deploy : M Sim unit := _ ← register_all c rs; Register cl c (-1).

Lemma deploy_holds w :
  c_n c ≤ Z.of_nat (length (replicas c)) → wp deploy (λ _ s, holds s [] [] w 0 0) (SimulatedTransport_new w).
Proof.
  intros Hlen. unfold deploy. apply post_bind.
  assert (preserves (λ s : Sim, SimTransport.app s = w ∧ processTimers s = true) (register_all c rs)) as Hkeep.
  { apply preserves_for_each. intros x. apply Register_keeps. }
  pose proof (Hkeep (SimulatedTransport_new w) (conj eq_refl eq_refl)) as Hk.
  assert (wp (register_all c rs) (λ _ s, hosts c rs s) (SimulatedTransport_new w)) as Hhosts by by apply register_all_hosts.
  unfold post in *. destruct (register_all c rs (SimulatedTransport_new w)) as [[u s]| |]; [|done..].
  destruct Hk as [Hw Hp]. by apply (client_registers s w).
Qed.

Lemma holds_access f s q ts w id v Q :
  holds s q ts w id v → (∀ s', holds s' q ts (f w) id v → Q w s') → wp (SimTransport.access f) Q s.
Proof.
  intros [Hn Hq Ht Ha Hi Hv Hp] HQ. unfold SimTransport.access. apply post_get. run. apply post_ret. rewrite Ha. apply HQ.
  split; simpl; try done; [|by rewrite Ha]. by apply (net_ext s).
Qed.

(** A deployment whose client is idle. *)
Record idle_client (cli : Client) (key : string) (w : World) (sc : ShardClient) `{!JsonLib} : Prop := {
  ic_shard : ∃ i, key_to_shard key (nshards cli) = Ok i ∧ 0 ≤ i ∧ bclient cli !! Z.to_nat i = Some cl;
  ic_client : shardClients w !! cl = Some sc;
  ic_n : sc_n sc = n;
  ic_replica : 0 ≤ sc_replica sc < n;
  ic_waiting : waiting sc = None;
  ic_timeout : timeout_id sc = 0;
  ic_servers r : r ∈ rs → is_Some (servers w !! r);
  ic_receiver : servers w !! cl = None
}.

Lemma shard_of_holds `{!JsonLib} cli key w sc s :
  idle_client cli key w sc → shard_of (S := Sim) cli key s = Ok (cl, s).
Proof.
  intros [(i & Hi & Hi0 & Hcl) _ _ _ _ _ _ _]. unfold shard_of. rewrite Hi.
  rewrite (bind_run _ _ s i s) by done. destruct (Z.ltb_spec i 0); [lia|]. by rewrite Hcl.
Qed.

Lemma post_bind_inv {A B} (m : M Sim A) (k : A → M Sim B) Q s :
  wp (m ≫= k) Q s → wp m (λ a s', wp (k a) Q s') s.
Proof. unfold post, mbind, M_bind. by destruct (m s) as [[]| |]. Qed.

(** What a put leaves in the stores. *)
Lemma after_put_servers key value p x sc w j st :
  0 ≤ j < n → servers w !! server_at j = Some st →
  servers (after_put key value p x sc w) !! server_at j = Some (Store.Load key value st).
Proof.
  intros Hj Hst. unfold after_put, set_promise, set_sc. cbn [servers update_field]. simpl.
  rewrite stored_server; [|apply NoDup_seqZ|intros i Hi%elem_of_seqZ; lia|done].
  rewrite decide_True by (apply elem_of_seqZ; lia). by rewrite Hst.
Qed.

Lemma load_get key value st : Store.Get (Store.Load key value st) key "" = (REPLY_OK, value).
Proof.
  unfold Store.Get, Store.Load, KVStore.get, KVStore.put. simpl. rewrite lookup_insert_eq. simpl. by rewrite last_snoc.
Qed.

Lemma server_in r : r ∈ rs → ∃ j, 0 ≤ j < n ∧ server_at j = r.
Proof.
  intros [i Hi]%list_elem_of_lookup_1. exists (Z.of_nat i). unfold server_at. rewrite Nat2Z.id, Hi.
  apply lookup_lt_Some in Hi. split; [lia|done].
Qed.

Lemma server_at_in j : 0 ≤ j < n → server_at j ∈ rs.
Proof.
  intros Hj. unfold server_at. destruct (lookup_lt_is_Some_2 rs (Z.to_nat j)) as [r Hr]; [lia|]. rewrite Hr. simpl.
  by eapply list_elem_of_lookup_2.
Qed.

(** The memory after calls of [Put] and [Get] have returned. *)
Definition put_done (key value : string) (p : Z) (sc : ShardClient) (w : World) : World :=
  after_put key value p Promise_default sc (set_promise p Promise_default w) <| promises ::= delete p |>.

Lemma put_call `{!JsonLib} cli key value p w sc s id v fuel :
  holds s [] [] w id v → idle_client cli key w sc → 0 ≤ id → id + 2 ≤ INT_MAX → 0 ≤ v → v + 1000 < 2 ^ 64 →
  (2 * length rs + 2 ≤ fuel)%nat →
  wp (_ ← Client_Put SimTransport.access cli key value p; _ ← Run fuel; Client_Put_return SimTransport.access p)
    (λ r s', r = Some REPLY_OK ∧ holds s' [] [] (put_done key value p sc w) (id + 2) v) s.
Proof.
  intros Hh Hic Hid Hmaxid Hv Hvt Hfuel. pose proof Hic as [_ Hsc Hn Hrep Hw Htid Hservers Hrecv].
  unfold Client_Put. apply post_bind. eapply post_bind_run; [apply (shard_of_holds cli key w sc s Hic)|].
  apply post_bind. eapply holds_access; [exact Hh|]. clear s Hh. intros s Hh.
  eapply post_mono; [eapply (post_bind_inv _ (λ _, Run fuel))|].
  { eapply (put_runs key value p Promise_default s _ id v sc fuel); [exact Hh|done|done|done|done| |done| |done..].
    - simpl. by rewrite lookup_insert_eq.
    - intros j Hj. apply Hservers. by apply server_at_in. }
  cbv beta. clear s Hh. intros _ s Hrun. apply post_bind. eapply post_mono; [exact Hrun|]. clear s Hrun.
  cbv beta. intros b s [_ Hh]. unfold Client_Put_return. apply post_bind. eapply holds_access; [exact Hh|]. clear s Hh. intros s Hh.
  unfold after_put at 1, set_promise at 1. simpl promises. rewrite lookup_insert_eq. run. simpl. apply post_bind.
  eapply holds_access; [exact Hh|]. clear s Hh. intros s Hh. by apply post_ret.
Qed.

Definition get_done (p status : Z) (value : string) (sc : ShardClient) (w : World) : World :=
  after_get p Promise_default status value sc (set_promise p Promise_default w) <| promises ::= delete p |>.

Lemma get_call `{!JsonLib} cli key p w sc st s id v fuel :
  holds s [] [] w id v → idle_client cli key w sc → servers w !! server_at (sc_replica sc) = Some st →
  0 ≤ id → id + 2 ≤ INT_MAX → 0 ≤ v → v + 1000 < 2 ^ 64 → (4 ≤ fuel)%nat →
  wp (_ ← Client_Get SimTransport.access cli key p; _ ← Run fuel; Client_Get_return SimTransport.access p)
    (λ r s', r = Some (Store.Get st key "") ∧
       holds s' [] [] (get_done p (Store.Get st key "").1 (Store.Get st key "").2 sc w) (id + 2) v) s.
Proof.
  intros Hh Hic Hst Hid Hmaxid Hv Hvt Hfuel. pose proof Hic as [_ Hsc Hn Hrep Hw Htid Hservers Hrecv].
  unfold Client_Get. apply post_bind. eapply post_bind_run; [apply (shard_of_holds cli key w sc s Hic)|].
  apply post_bind. eapply holds_access; [exact Hh|]. clear s Hh. intros s Hh.
  eapply post_mono; [eapply (post_bind_inv _ (λ _, Run fuel))|].
  { eapply (get_runs key p Promise_default s _ id v sc st fuel); [exact Hh|done|done|done|done| |done..].
    simpl. by rewrite lookup_insert_eq. }
  cbv beta. clear s Hh. intros _ s Hrun. apply post_bind. eapply post_mono; [exact Hrun|]. clear s Hrun.
  cbv beta. intros b s [_ Hh]. unfold Client_Get_return. apply post_bind. eapply holds_access; [exact Hh|]. clear s Hh. intros s Hh.
  unfold after_get at 1, set_promise at 1. simpl promises. rewrite lookup_insert_eq. run. simpl. apply post_bind.
  eapply holds_access; [exact Hh|]. clear s Hh. intros s Hh. apply post_ret. split; [|exact Hh]. f_equal. by destruct (Store.Get st key "").
Qed.

(** The client is idle again, and the value is in every store. *)
Lemma put_done_idle `{!JsonLib} cli key value p w sc :
  idle_client cli key w sc →
  (∃ sc', idle_client cli key (put_done key value p sc w) sc' ∧ sc_replica sc' = sc_replica sc) ∧
  ∀ j, 0 ≤ j < n → ∃ st, servers (put_done key value p sc w) !! server_at j = Some st ∧ Store.Get st key "" = (REPLY_OK, value).
Proof.
  intros [Hshard Hsc Hn Hrep Hw Htid Hservers Hrecv].
  assert (∀ j, 0 ≤ j < n → ∃ st, servers (put_done key value p sc w) !! server_at j = Some st ∧ Store.Get st key "" = (REPLY_OK, value)) as Hst.
  { intros j Hj. destruct (Hservers (server_at j)) as [st Hst]; [by apply server_at_in|].
    exists (Store.Load key value st). split; [|apply load_get].
    exact (after_put_servers key value p Promise_default sc (set_promise p Promise_default w) j st Hj Hst). }
  split; [|done].
  exists (sc <| timeout_ms := GetTimeout Promise_default |> <| timeout_id := 0 |> <| waiting := None |> <| totalReplies := Some n |>).
  split; [|done].
  split; [done|exact (set_sc_lookup _ _)|done..| |].
  - intros r (j & Hj & <-)%server_in. destruct (Hst j Hj) as (st & ? & _). by exists st.
  - exact (stored_receiver key value (set_promise p Promise_default w) Hrecv).
Qed.

(** C22: On a network that neither loses nor delays messages, a client that puts a value and then
    gets the key is answered: the put returns [REPLY_OK] when every server has stored the value,
    and the get returns that value.  The servers, the client and the transport run as they do
    in the program, for every number of servers. *)
Theorem weak_put_then_get `{!JsonLib} (cli : Client) (key value : string) (p p' : Z) (w : World) (sc : ShardClient) (fuel : nat) :
  c_n c ≤ Z.of_nat (length (replicas c)) → idle_client cli key w sc → (2 * length rs + 4 ≤ fuel)%nat →
  wp (_ ← deploy;
      r ← (_ ← Client_Put SimTransport.access cli key value p; _ ← Run fuel; Client_Put_return SimTransport.access p);
      g ← (_ ← Client_Get SimTransport.access cli key p'; _ ← Run fuel; Client_Get_return SimTransport.access p');
      mret (r, g))
    (λ rg s, rg = (Some REPLY_OK, Some (REPLY_OK, value)) ∧
       ∀ r, r ∈ rs → ∃ st, servers (SimTransport.app s) !! r = Some st ∧ Store.Get st key "" = (REPLY_OK, value))
    (SimulatedTransport_new w).
Proof.
  intros Hlen Hic Hfuel. apply post_bind. eapply post_mono; [by apply deploy_holds|]. cbv beta. intros _ s Hh.
  apply post_bind. eapply post_mono; [eapply (put_call cli key value p w sc s 0 0 fuel); [done|done|lia|done|lia|done|lia]|].
  cbv beta. clear s Hh. intros r s [-> Hh]. destruct (put_done_idle cli key value p w sc Hic) as [(sc' & Hic' & Hrep) Hstored].
  destruct (Hstored (sc_replica sc')) as (st & Hst & Hget); [rewrite Hrep; apply Hic|].
  apply post_bind. eapply post_mono; [eapply (get_call cli key p' _ sc' st s); [done|done|done|lia|done|lia|done|lia]|].
  cbv beta. clear s Hh. intros g s [-> Hh]. apply post_ret. rewrite Hget. split; [done|].
  intros r (j & Hj & <-)%server_in. rewrite (holds_app _ _ _ _ _ _ Hh). exact (Hstored j Hj).
Qed.
End reliable.

(** ** A deployment

    Three servers at 11, 12 and 13 and one shard client at 21 on a simulated transport. *)
Module WeakDemo.
#[export] Instance get_codec : Codec GetMessage := {|
  SerializeToString m := digits (encode (g_clientid m, g_key m));
  ParseFromString s := default (MkGetMessage 0 "") ((λ p, MkGetMessage p.1 p.2) <$> decode (undigits s))
|}.
#[export] Instance get_reply_codec : Codec GetReplyMessage := {|
  SerializeToString m := digits (encode (gr_status m, gr_value m));
  ParseFromString s := default (MkGetReplyMessage 0 "") ((λ p, MkGetReplyMessage p.1 p.2) <$> decode (undigits s))
|}.
#[export] Instance put_codec : Codec PutMessage := {|
  SerializeToString m := digits (encode (p_clientid m, p_key m, put_value m));
  ParseFromString s := default (MkPutMessage 0 "" "") ((λ '(a, b, c), MkPutMessage a b c) <$> decode (undigits s))
|}.
#[export] Instance put_reply_codec : Codec PutReplyMessage := {|
  SerializeToString m := digits (encode (pr_status m));
  ParseFromString s := default (MkPutReplyMessage 0) (MkPutReplyMessage <$> decode (undigits s))
|}.
#[export] Instance get_codec_law : CodecLaw GetMessage.
Proof. intros []. simpl. by rewrite undigits_digits, decode_encode. Qed.
#[export] Instance get_reply_codec_law : CodecLaw GetReplyMessage.
Proof. intros []. simpl. by rewrite undigits_digits, decode_encode. Qed.
#[export] Instance put_codec_law : CodecLaw PutMessage.
Proof. intros []. simpl. by rewrite undigits_digits, decode_encode. Qed.
#[export] Existing Instances demo_json default_order.

(** The network: for each type of message, whether messages of that type are dropped, and for how
    long they are delayed. *)
Definition rule : Type := string * bool * Z.
#[export] Instance weak_filters : Filters rule World := λ r _ _ _ _ m delay w,
  if decide (m.1 = r.1.1) then (negb r.1.2, m.2, r.2, w) else (true, m.2, delay, w).

Definition weak_config : Config :=
  let a p := MkReplicaAddress ["h"%char] [p] in MkConfig 3 1 [a "1"%char; a "2"%char; a "3"%char] None.

Definition weak_world : World :=
  MkWorld {[11 := ∅; 12 := ∅; 13 := ∅]} {[21 := MkShardClient 3 7 0 1 250 0 None None]} ∅.

Abbreviation WeakSim := (SimulatedTransport rule closure World).

Definition weak_client : Client := MkClient 1 [21].

Definition weak_deploy : M WeakSim unit := deploy weak_config [11; 12; 13] 21.

(** The messages are delivered and the next timer expires: here the thread of the application can
    take its turn. *)
Definition turn : M WeakSim unit := _ ← process_queue 10; fire_timer.
Fixpoint turns (k : nat) : M WeakSim unit := match k with O => mret tt | S k => _ ← turn; turns k end.

Abbreviation Put := (Client_Put SimTransport.access weak_client).
Abbreviation Get := (Client_Get SimTransport.access weak_client).
Abbreviation Put_return := (Client_Put_return SimTransport.access).
Abbreviation Get_return := (Client_Get_return SimTransport.access).

(** The replies to a first put arrive late, and the network loses the second put. *)
Definition late_replies : M WeakSim (option Z * option Z) :=
  _ ← weak_deploy; _ ← AddFilter 1 (PutReplyMessage_name, false, 1500);
  _ ← Put "a" "1" 1; _ ← turns 2; r1 ← Put_return 1;
  _ ← AddFilter 2 (PutMessage_name, true, 0);
  _ ← Put "b" "2" 2; _ ← turns 5; r2 ← Put_return 2;
  mret (r1, r2).

(** The reply to a first get arrives late. *)
Definition late_get : M WeakSim (option Z * option (Z * string) * option (Z * string)) :=
  _ ← weak_deploy; _ ← Put "a" "1" 1; _ ← turns 2; r1 ← Put_return 1;
  _ ← AddFilter 1 (GetReplyMessage_name, false, 1500);
  _ ← Get "a" 2; _ ← turns 2; r2 ← Get_return 2;
  _ ← Get "b" 3; _ ← turns 3; r3 ← Get_return 3;
  mret (r1, r2, r3).

Definition stores_nothing (key : string) (s : WeakSim) : bool :=
  forallb (λ r, match servers (SimTransport.app s) !! r with Some st => (Store.Get st key "").1 =? REPLY_FAIL | None => false end)
    [11; 12; 13].

(** A put is acknowledged by replies to an earlier one.  The replies to a put that timed out
    arrive while the client waits for the next: it counts them, and the second put returns
    [REPLY_OK] although no server has the key. *)
Theorem weak_put_acknowledged_unstored :
  match late_replies (SimulatedTransport_new weak_world) with
  | Ok ((r1, r2), s) => r1 = Some REPLY_TIMEOUT ∧ r2 = Some REPLY_OK ∧ stores_nothing "b" s = true
  | _ => False
  end.
Proof. vm_compute. done. Qed.

(** A get is answered with the value of another key: the reply to a get that timed out
    arrives while the client waits for the next one, which returns [REPLY_OK] and that value,
    although the key it asked for does not exist. *)
Theorem weak_get_answers_other_key :
  match late_get (SimulatedTransport_new weak_world) with
  | Ok ((r1, r2, r3), s) =>
      r1 = Some REPLY_OK ∧ r2 = Some (REPLY_TIMEOUT, "") ∧ r3 = Some (REPLY_OK, "1") ∧ stores_nothing "b" s = true
  | _ => False
  end.
Proof. vm_compute. done. Qed.

(** The late reply is in the queue when the application gets [b]; it answers that call before the
    closure that sends the request has run, and the application goes on to get [c]. *)
Definition late_closure : M WeakSim unit :=
  _ ← weak_deploy; _ ← AddFilter 1 (GetReplyMessage_name, false, 1500);
  _ ← Get "a" 2; _ ← turns 2; r ← Get_return 2; _ ← turns 1;
  _ ← Get "b" 3; _ ← process_queue 10; r' ← Get_return 3;
  _ ← Get "c" 4; fire_timer.

(** A late reply makes the client use a promise that is gone: the closure of the get that it
    answered still runs, sees that somebody waits, namely the next call, and asks the promise of
    the returned call for its timeout. *)
Theorem weak_late_reply_dangling_promise : late_closure (SimulatedTransport_new weak_world) = Undefined.
Proof. vm_compute. reflexivity. Qed.

Lemma weak_demo_idle : idle_client [11; 12; 13] 21 weak_client "k" weak_world (MkShardClient 3 7 0 1 250 0 None None).
Proof.
  split; try done.
  - exists 0. split; [by vm_compute|done].
  - intros r Hr. repeat (apply elem_of_cons in Hr as [->|Hr]; [by eexists|]). by apply elem_of_nil in Hr.
Qed.

Lemma weak_put_then_get_witness :
  wp (_ ← weak_deploy;
      r ← (_ ← Put "k" "v" 1; _ ← Run 100; Put_return 1); g ← (_ ← Get "k" 2; _ ← Run 100; Get_return 2); mret (r, g))
    (λ rg s, rg = (Some REPLY_OK, Some (REPLY_OK, "v")) ∧
       ∀ r, r ∈ [11; 12; 13] → ∃ st, servers (SimTransport.app s) !! r = Some st ∧ Store.Get st "k" "" = (REPLY_OK, "v"))
    (SimulatedTransport_new weak_world).
Proof.
  apply (weak_put_then_get weak_config [11; 12; 13] 21) with (sc := MkShardClient 3 7 0 1 250 0 None None);
    [done|by apply (bool_decide_unpack _)|by apply (bool_decide_unpack _)|done|by apply (bool_decide_unpack _)|done|done
    |exact get_codec_law|exact get_reply_codec_law|exact put_codec_law|done|exact weak_demo_idle|simpl; lia].
Defined.
End WeakDemo.
