(* ===== verification/ConfigOrder.v ===== *)
(** The comparison operators and the hash of addresses and configurations, of [lib/configuration.h]
    and [lib/configuration.cc].  They make configurations keys of ordered and unordered tables.

    [Less] is the operator [<] of a type.  The standard library compares tuples and vectors with
    the operators of their elements, strings byte by byte; the hash of a string is a parameter. *)

From S2P Require Import ConfigFile Timers.
From S2P Require Import Prelude.
From Stdlib Require Import Ascii.

(** ** Operators of the standard library *)

Class Less (A : Type) := less : A → A → bool.

#[global] Instance Z_less : Less Z := Z.ltb.
#[global] Instance bool_less : Less bool := λ a b, negb a && b.
#[global] Instance char_less : Less ascii := λ c d, (N_of_ascii c <? N_of_ascii d)%N.

(** [std::tuple]: the tail is compared when neither head is less. *)
#[global] Instance pair_less `{!Less A, !Less B} : Less (A * B) := λ x y,
  less x.1 y.1 || (negb (less y.1 x.1) && less x.2 y.2).

(** [std::lexicographical_compare]. *)
Fixpoint list_less `{!Less A} (l k : list A) : bool :=
  match l, k with
  | _, [] => false
  | [], _ :: _ => true
  | x :: l, y :: k => if less x y then true else if less y x then false else list_less l k
  end.
#[global] Instance list_Less `{!Less A} : Less (list A) := list_less.

(** ** Addresses *)

Definition address_eq (a b : ReplicaAddress) : bool := bool_decide (host a = host b) && bool_decide (port a = port b).
Definition address_ne (a b : ReplicaAddress) : bool := negb (address_eq a b).

#[global] Instance address_less : Less ReplicaAddress := λ a b, less (host a, port a) (host b, port b).
Definition address_le (a b : ReplicaAddress) : bool := less a b || address_eq a b.
Definition address_gt (a b : ReplicaAddress) : bool := negb (address_le a b).
Definition address_ge (a b : ReplicaAddress) : bool := negb (less a b).

(** ** Configurations *)

Definition hasMulticast (c : Config) : bool := bool_decide (is_Some (multicastAddress c)).

Definition vector_eq (l k : list ReplicaAddress) : bool :=
  (length l =? length k)%nat && forallb (λ x, address_eq x.1 x.2) (zip l k).

Definition config_eq (c d : Config) : bool :=
  if negb (c_n c =? c_n d) || negb (c_f c =? c_f d) || negb (vector_eq (replicas c) (replicas d)) ||
     negb (Bool.eqb (hasMulticast c) (hasMulticast d)) then false
  else
    match multicastAddress c, multicastAddress d with
    | Some a, Some b => negb (address_ne a b)
    | _, _ => true
    end.
Definition config_ne (c d : Config) : bool := negb (config_eq c d).

(** [std::forward_as_tuple(n, f, replicas, hasMulticast)]. *)
Definition config_tuple (c : Config) : Z * (Z * (list ReplicaAddress * bool)) :=
  (c_n c, (c_f c, (replicas c, hasMulticast c))).

#[global] Instance config_less : Less Config := λ c d,
  if less (config_tuple c) (config_tuple d) then true
  else if bool_decide (config_tuple c = config_tuple d) then
    match multicastAddress c, multicastAddress d with
    | Some a, Some b => less a b
    | _, _ => false
    end
  else false.
Definition config_le (c d : Config) : bool := less c d || config_eq c d.
Definition config_gt (c d : Config) : bool := negb (config_le c d).
Definition config_ge (c d : Config) : bool := negb (less c d).

(** ** Hashes *)

Section hash.
Context (hash_string : str → Z).

Definition hash_address (a : ReplicaAddress) : Z := u64 (u64 (hash_string (host a) * 37) + hash_string (port a)).

(** The loop over the replicas. *)
Fixpoint hash_replicas (c : Config) (fuel : nat) (i out : Z) : res Z :=
  match fuel with
  | O => Ok out
  | S fuel =>
      match replica c i with
      | Ok a => hash_replicas c fuel (i + 1) (u64 (u64 (out * 37) + hash_address a))
      | Panic => Panic
      | Undefined => Undefined
      end
  end.

(** [x.n * 37 + x.f] is computed with [int]s. *)
Definition hash_config (c : Config) : res Z :=
  let fits z := bool_decide (- 2 ^ 31 ≤ z ≤ INT_MAX) in
  if fits (c_n c * 37) && fits (c_n c * 37 + c_f c) then
    hash_replicas c (Z.to_nat (c_n c)) 0 (u64 (c_n c * 37 + c_f c))
  else Undefined.
End hash.

(** ** Strict total orders *)

Class LessLaws (A : Type) `{!Less A} := {
  less_irreflexive : ∀ x : A, less x x = false;
  less_transitive : ∀ x y z : A, less x y = true → less y z = true → less x z = true;
  less_total : ∀ x y : A, less x y = false → less y x = false → x = y
}.

Lemma less_asymmetric `{LessLaws A} (x y : A) : less x y = true → less y x = false.
Proof. intros Hxy. destruct (less y x) eqn:Hyx; [|done]. by rewrite <- (less_irreflexive x), (less_transitive x y x). Qed.

#[global] Instance Z_less_laws : LessLaws Z.
Proof.
  split; unfold less, Z_less; intros *; [by rewrite Z.ltb_irrefl|rewrite !Z.ltb_lt; lia|rewrite !Z.ltb_ge; lia].
Qed.

#[global] Instance bool_less_laws : LessLaws bool.
Proof. split; [by intros []|by intros [] [] []|by intros [] []]. Qed.

#[global] Instance char_less_laws : LessLaws ascii.
Proof.
  split; unfold less, char_less; intros *.
  - apply N.ltb_irrefl.
  - rewrite !N.ltb_lt. lia.
  - rewrite !N.ltb_ge. intros ??. rewrite <- (ascii_N_embedding x), <- (ascii_N_embedding y). f_equal. lia.
Qed.

Lemma less_pair `{!Less A, !Less B} (x y : A) (u v : B) : less (x, u) (y, v) = less x y || (negb (less y x) && less u v).
Proof. done. Qed.

#[global] Instance pair_less_laws `{LessLaws A, LessLaws B} : LessLaws (A * B).
Proof.
  split.
  - intros [x u]. by rewrite less_pair, !less_irreflexive.
  - intros [x u] [y v] [z w]. rewrite !less_pair, !orb_true_iff, !andb_true_iff, !negb_true_iff.
    intros [Hxy|[Hyx Huv]] [Hyz|[Hzy Hvw]].
    + left. by eapply less_transitive.
    + destruct (less y z) eqn:Hyz; [left; by eapply less_transitive|]. left. by rewrite <- (less_total y z).
    + destruct (less x y) eqn:Hxy; [left; by eapply less_transitive|]. left. by rewrite (less_total x y).
    + destruct (less x z) eqn:Hxz; [by left|]. right. split; [|by eapply less_transitive].
      destruct (less z x) eqn:Hzx; [|done]. destruct (less x y) eqn:Hxy.
      * by rewrite (less_transitive z x y) in Hzy.
      * rewrite (less_total x y) in Hzx by done. congruence.
  - intros [x u] [y v]. rewrite !less_pair, !orb_false_iff, !andb_false_iff, !negb_false_iff. intros [Hxy Huv] [Hyx Hvu].
    assert (x = y) as -> by by apply less_total. f_equal. apply less_total; naive_solver congruence.
Qed.

#[global] Instance list_less_laws `{LessLaws A} : LessLaws (list A).
Proof.
  split.
  - intros l. induction l as [|x l IH]; [done|]. unfold less, list_Less. simpl. by rewrite less_irreflexive.
  - intros l k m. revert k m. unfold less, list_Less. induction l as [|x l IH]; intros [|y k] [|z m]; simpl; try done.
    destruct (less x y) eqn:Hxy.
    + intros _. destruct (less y z) eqn:Hyz; [by rewrite (less_transitive x y z)|].
      destruct (less z y) eqn:Hzy; [done|]. by rewrite <- (less_total y z), Hxy.
    + destruct (less y x) eqn:Hyx; [done|]. rewrite (less_total x y) by done. intros Hlk.
      destruct (less y z); [done|]. destruct (less z y); [done|]. by apply IH.
  - intros l k. revert k. unfold less, list_Less. induction l as [|x l IH]; intros [|y k]; simpl; try done.
    destruct (less x y) eqn:Hxy; [done|]. destruct (less y x) eqn:Hyx; [done|]. intros ??. f_equal; [by apply less_total|by apply IH].
Qed.

#[global] Instance address_less_laws : LessLaws ReplicaAddress.
Proof.
  split.
  - intros a. exact (less_irreflexive (host a, port a)).
  - intros a b c. exact (less_transitive (host a, port a) (host b, port b) (host c, port c)).
  - intros [h p] [h' p'] Hab Hba. pose proof (less_total (h, p) (h', p') Hab Hba). by simplify_eq.
Qed.

Lemma address_eq_spec a b : address_eq a b = bool_decide (a = b).
Proof. destruct a as [h p], b as [h' p']. unfold address_eq. simpl. repeat case_bool_decide; naive_solver. Qed.

Lemma vector_eq_spec l k : vector_eq l k = bool_decide (l = k).
Proof.
  unfold vector_eq. revert k. induction l as [|a l IH]; intros [|b k]; simpl; try done.
  change ((length l =? length k)%nat && (address_eq a b && forallb (λ x, address_eq x.1 x.2) (zip l k)) =
    bool_decide (a :: l = b :: k)).
  rewrite andb_assoc, (andb_comm _ (address_eq a b)), <- andb_assoc, IH, address_eq_spec. repeat case_bool_decide; naive_solver.
Qed.

Lemma config_eq_spec c d : config_eq c d = bool_decide (c = d).
Proof.
  unfold config_eq, hasMulticast, address_ne. rewrite vector_eq_spec. destruct c as [n f l m], d as [n' f' l' m']. simpl.
  destruct (Z.eqb_spec n n'); [|simpl; case_bool_decide; naive_solver].
  destruct (Z.eqb_spec f f'); [|simpl; case_bool_decide; naive_solver].
  case_bool_decide; [|simpl; case_bool_decide; naive_solver].
  destruct m as [a|], m' as [b|]; simpl; rewrite ?address_eq_spec; subst; repeat case_bool_decide; naive_solver.
Qed.

Lemma less_config (c d : Config) :
  less c d = if less (config_tuple c) (config_tuple d) then true
    else if bool_decide (config_tuple c = config_tuple d) then
      match multicastAddress c, multicastAddress d with Some a, Some b => less a b | _, _ => false end
    else false.
Proof. done. Qed.

#[global] Instance config_less_laws : LessLaws Config.
Proof.
  assert (∀ c d : Config, config_tuple c = config_tuple d → multicastAddress c = multicastAddress d → c = d) as Hext.
  { intros [] []. unfold config_tuple. simpl. intros [= -> -> -> _] ->. done. }
  assert (∀ c d : Config, config_tuple c = config_tuple d → multicastAddress c = None ↔ multicastAddress d = None) as Hmul.
  { intros [? ? ? m] [? ? ? m']. unfold config_tuple, hasMulticast. simpl. destruct m, m'; simpl; naive_solver. }
  split.
  - intros c. rewrite less_config, less_irreflexive, bool_decide_eq_true_2 by done. destruct (multicastAddress c); [apply less_irreflexive|done].
  - intros c d e. rewrite !less_config.
    destruct (less (config_tuple c) (config_tuple d)) eqn:Hcd.
    + intros _. destruct (less (config_tuple d) (config_tuple e)) eqn:Hde; [by rewrite (less_transitive _ (config_tuple d))|].
      case_bool_decide as Heq; [|done]. by rewrite <- Heq, Hcd.
    + case_bool_decide as Heq; [|done]. rewrite <- Heq. intros Hm. destruct (less (config_tuple c) (config_tuple e)); [done|].
      case_bool_decide; [|done]. destruct (multicastAddress c), (multicastAddress d), (multicastAddress e); try done. by apply less_transitive.
  - intros c d. rewrite !less_config. destruct (less (config_tuple c) (config_tuple d)) eqn:Hcd; [done|].
    destruct (less (config_tuple d) (config_tuple c)) eqn:Hdc; [done|]. pose proof (less_total _ _ Hcd Hdc) as Heq.
    rewrite !bool_decide_eq_true_2 by done. intros H1 H2. apply Hext; [done|]. pose proof (Hmul c d Heq) as Hno.
    destruct (multicastAddress c) as [a|], (multicastAddress d) as [b|]; [|naive_solver..]. f_equal. by apply less_total.
Qed.

(** The operators of configurations are those of a total order: exactly one of [c < d], [c == d]
    and [d < c] holds, where [==] is equality of all members, [<] is transitive, and the other
    four operators agree with them.  Equal configurations have equal hashes. *)
Theorem config_operators_total_order (c d e : Config) (hash_string : str → Z) :
  (config_eq c d = true ↔ c = d) ∧
  (less c d = true ∧ c ≠ d ∧ less d c = false ∨ less c d = false ∧ c = d ∧ less d c = false ∨
   less c d = false ∧ c ≠ d ∧ less d c = true) ∧
  (less c d = true → less d e = true → less c e = true) ∧
  config_ne c d = negb (config_eq c d) ∧ config_le c d = negb (less d c) ∧ config_gt c d = less d c ∧ config_ge c d = config_le d c ∧
  (config_eq c d = true → hash_config hash_string c = hash_config hash_string d).
Proof.
  assert (∀ c d, less c d = true ∧ c ≠ d ∧ less d c = false ∨ less c d = false ∧ c = d ∧ less d c = false ∨
    less c d = false ∧ c ≠ d ∧ less d c = true) as Htri.
  { clear. intros c d. destruct (less c d) eqn:Hcd.
    - left. split_and!; [done| |by apply less_asymmetric]. intros ->. by rewrite less_irreflexive in Hcd.
    - destruct (less d c) eqn:Hdc; [|right; left; split_and!; [done|by apply less_total|done]].
      right. right. split_and!; [done| |done]. intros ->. congruence. }
  assert (∀ c d, config_le c d = negb (less d c)) as Hle.
  { intros c' d'. unfold config_le. rewrite config_eq_spec.
    destruct (Htri c' d') as [(-> & ? & ->)|[(-> & -> & _)|(-> & ? & ->)]]; simpl; [done|..].
    - by rewrite less_irreflexive, bool_decide_eq_true_2.
    - by rewrite bool_decide_eq_false_2. }
  rewrite config_eq_spec, bool_decide_eq_true. split_and!; [done|apply Htri|apply less_transitive|..].
  - unfold config_ne. by rewrite config_eq_spec.
  - apply Hle.
  - unfold config_gt. by rewrite Hle, negb_involutive.
  - unfold config_ge. by rewrite Hle.
  - by intros ->.
Qed.
