(* ===== verification/Hash.v ===== *)
(** The hash function of [lib/lookup3.cc].

    Memory maps addresses to bytes, and the reads of 16 and 32 bits depend on the byte order of
    the machine ([HASH_LITTLE_ENDIAN] of [lib/hash.h], the parameter [little]).  [hashlittle] reads
    words, half words or bytes, as the address of the key allows, and may read up to three bytes
    behind the key; [hashbig] reads words on big-endian machines.  The reference is a function of
    the bytes of the key alone: blocks of three words, the last of them filled up with zeros.

    32-bit numbers are integers with every operation reduced modulo [2^32].  The branches for
    Valgrind are not compiled. *)

From S2P Require Import Prelude.
From Stdlib Require Import Strings.Byte.

Definition u32 (z : Z) : Z := z mod 2 ^ 32.

Definition rot (x k : Z) : Z := Z.lor (u32 (Z.shiftl x k)) (Z.shiftr x (32 - k)).

Definition state : Type := Z * Z * Z.

(** [x -= z; x ^= rot(z, k); z += y]. *)
Definition mix_step (x y z k : Z) : Z * Z := (Z.lxor (u32 (x - z)) (rot z k), u32 (z + y)).

Definition mix (s : state) : state :=
  let '(a, b, c) := s in
  let '(a, c) := mix_step a b c 4 in
  let '(b, a) := mix_step b c a 6 in
  let '(c, b) := mix_step c a b 8 in
  let '(a, c) := mix_step a b c 16 in
  let '(b, a) := mix_step b c a 19 in
  let '(c, b) := mix_step c a b 4 in
  (a, b, c).

(** [x ^= y; x -= rot(y, k)]. *)
Definition final_step (x y k : Z) : Z := u32 (Z.lxor x y - rot y k).

Definition final (s : state) : state :=
  let '(a, b, c) := s in
  let c := final_step c b 14 in
  let a := final_step a c 11 in
  let b := final_step b a 25 in
  let c := final_step c b 16 in
  let a := final_step a c 4 in
  let b := final_step b a 14 in
  let c := final_step c b 24 in
  (a, b, c).

(** [a += x; b += y; c += z]. *)
Definition add3 (s : state) (x y z : Z) : state :=
  let '(a, b, c) := s in (u32 (a + x), u32 (b + y), u32 (c + z)).
Definition add_a (x : Z) (s : state) : state := add3 s x 0 0.
Definition add_b (y : Z) (s : state) : state := add3 s 0 y 0.
Definition add_c (z : Z) (s : state) : state := add3 s 0 0 z.

Section hash.
Context (little : bool) (mem : Z → byte).

(** *** Reads *)

Definition load8 (p : Z) : Z := Z.of_N (to_N (mem p)).

Definition load16 (p : Z) : Z :=
  if little then load8 p + Z.shiftl (load8 (p + 1)) 8 else Z.shiftl (load8 p) 8 + load8 (p + 1).

Definition load32 (p : Z) : Z :=
  if little then load16 p + Z.shiftl (load16 (p + 2)) 16 else Z.shiftl (load16 p) 16 + load16 (p + 2).

(** The loop [while (length > 12)], given what a round adds. *)
Fixpoint blocks (add : Z → state → state) (fuel : nat) (p length : Z) (s : state) : Z * Z * state :=
  match fuel with
  | O => (p, length, s)
  | S fuel => if length >? 12 then blocks add fuel (p + 12) (length - 12) (mix (add p s)) else (p, length, s)
  end.

(** A switch whose cases fall through: all statements whose label is at most [n]. *)
Definition fall_through (cases : list (Z * (state → state))) (n : Z) (s : state) : state :=
  foldl (λ s x, if x.1 <=? n then x.2 s else s) s cases.

(** *** hashlittle *)

Definition words_little (p : Z) (s : state) : state := add3 s (load32 p) (load32 (p + 4)) (load32 (p + 8)).

Definition last_words_little (p length : Z) (s : state) : option state :=
  let k i := load32 (p + 4 * i) in
  match length with
  | 12 => Some (add3 s (k 0) (k 1) (k 2))
  | 11 => Some (add3 s (k 0) (k 1) (Z.land (k 2) 0xffffff))
  | 10 => Some (add3 s (k 0) (k 1) (Z.land (k 2) 0xffff))
  | 9 => Some (add3 s (k 0) (k 1) (Z.land (k 2) 0xff))
  | 8 => Some (add3 s (k 0) (k 1) 0)
  | 7 => Some (add3 s (k 0) (Z.land (k 1) 0xffffff) 0)
  | 6 => Some (add3 s (k 0) (Z.land (k 1) 0xffff) 0)
  | 5 => Some (add3 s (k 0) (Z.land (k 1) 0xff) 0)
  | 4 => Some (add3 s (k 0) 0 0)
  | 3 => Some (add3 s (Z.land (k 0) 0xffffff) 0 0)
  | 2 => Some (add3 s (Z.land (k 0) 0xffff) 0 0)
  | 1 => Some (add3 s (Z.land (k 0) 0xff) 0 0)
  | 0 => None
  | _ => Some s
  end.

(** [k[i] + (((uint32_t)k[i + 1]) << 16)] of half words. *)
Definition half_pair (p i : Z) : Z := load16 (p + 2 * i) + Z.shiftl (load16 (p + 2 * (i + 1))) 16.

Definition halves (p : Z) (s : state) : state := add3 s (half_pair p 0) (half_pair p 2) (half_pair p 4).

Definition last_halves (p length : Z) (s : state) : option state :=
  let k i := load16 (p + 2 * i) in
  let k8 i := load8 (p + i) in
  match length with
  | 12 => Some (add3 s (half_pair p 0) (half_pair p 2) (half_pair p 4))
  | 11 => Some (add3 (add_c (Z.shiftl (k8 10) 16) s) (half_pair p 0) (half_pair p 2) (k 4))
  | 10 => Some (add3 s (half_pair p 0) (half_pair p 2) (k 4))
  | 9 => Some (add3 (add_c (k8 8) s) (half_pair p 0) (half_pair p 2) 0)
  | 8 => Some (add3 s (half_pair p 0) (half_pair p 2) 0)
  | 7 => Some (add3 (add_b (Z.shiftl (k8 6) 16) s) (half_pair p 0) (k 2) 0)
  | 6 => Some (add3 s (half_pair p 0) (k 2) 0)
  | 5 => Some (add3 (add_b (k8 4) s) (half_pair p 0) 0 0)
  | 4 => Some (add3 s (half_pair p 0) 0 0)
  | 3 => Some (add3 (add_a (Z.shiftl (k8 2) 16) s) (k 0) 0 0)
  | 2 => Some (add3 s (k 0) 0 0)
  | 1 => Some (add3 s (k8 0) 0 0)
  | 0 => None
  | _ => Some s
  end.

(** The twelve bytes of a block, as the byte-wise branch adds them. *)
Definition bytes_little (p : Z) (s : state) : state :=
  let k i := load8 (p + i) in
  let s := add_a (Z.shiftl (k 3) 24) (add_a (Z.shiftl (k 2) 16) (add_a (Z.shiftl (k 1) 8) (add_a (k 0) s))) in
  let s := add_b (Z.shiftl (k 7) 24) (add_b (Z.shiftl (k 6) 16) (add_b (Z.shiftl (k 5) 8) (add_b (k 4) s))) in
  add_c (Z.shiftl (k 11) 24) (add_c (Z.shiftl (k 10) 16) (add_c (Z.shiftl (k 9) 8) (add_c (k 8) s))).

Definition last_bytes_little (p length : Z) (s : state) : option state :=
  let k i := load8 (p + i) in
  if length =? 0 then None
  else Some (fall_through
    [(12, add_c (Z.shiftl (k 11) 24)); (11, add_c (Z.shiftl (k 10) 16)); (10, add_c (Z.shiftl (k 9) 8)); (9, add_c (k 8));
     (8, add_b (Z.shiftl (k 7) 24)); (7, add_b (Z.shiftl (k 6) 16)); (6, add_b (Z.shiftl (k 5) 8)); (5, add_b (k 4));
     (4, add_a (Z.shiftl (k 3) 24)); (3, add_a (Z.shiftl (k 2) 16)); (2, add_a (Z.shiftl (k 1) 8)); (1, add_a (k 0))]
    length s).

(** [case 0: return c], and [final] otherwise. *)
Definition finish (s : state) (last : option state) : Z :=
  match last with Some s' => (final s').2 | None => s.2 end.

Definition start (length initval : Z) : state :=
  let x := u32 (0xdeadbeef + u32 length + initval) in (x, x, x).

Definition run (add : Z → state → state) (last : Z → Z → state → option state) (key length initval : Z) : Z :=
  let '(p, n, s) := blocks add (Z.to_nat length) key length (start length initval) in
  finish s (last p n s).

Definition hashlittle (key length initval : Z) : Z :=
  if little && (Z.land key 3 =? 0) then run words_little last_words_little key length initval
  else if little && (Z.land key 1 =? 0) then run halves last_halves key length initval
  else run bytes_little last_bytes_little key length initval.

(** *** hashbig *)

Definition last_words_big (p length : Z) (s : state) : option state :=
  let k i := load32 (p + 4 * i) in
  match length with
  | 12 => Some (add3 s (k 0) (k 1) (k 2))
  | 11 => Some (add3 s (k 0) (k 1) (Z.land (k 2) 0xffffff00))
  | 10 => Some (add3 s (k 0) (k 1) (Z.land (k 2) 0xffff0000))
  | 9 => Some (add3 s (k 0) (k 1) (Z.land (k 2) 0xff000000))
  | 8 => Some (add3 s (k 0) (k 1) 0)
  | 7 => Some (add3 s (k 0) (Z.land (k 1) 0xffffff00) 0)
  | 6 => Some (add3 s (k 0) (Z.land (k 1) 0xffff0000) 0)
  | 5 => Some (add3 s (k 0) (Z.land (k 1) 0xff000000) 0)
  | 4 => Some (add3 s (k 0) 0 0)
  | 3 => Some (add3 s (Z.land (k 0) 0xffffff00) 0 0)
  | 2 => Some (add3 s (Z.land (k 0) 0xffff0000) 0 0)
  | 1 => Some (add3 s (Z.land (k 0) 0xff000000) 0 0)
  | 0 => None
  | _ => Some s
  end.

Definition bytes_big (p : Z) (s : state) : state :=
  let k i := load8 (p + i) in
  let s := add_a (k 3) (add_a (Z.shiftl (k 2) 8) (add_a (Z.shiftl (k 1) 16) (add_a (Z.shiftl (k 0) 24) s))) in
  let s := add_b (k 7) (add_b (Z.shiftl (k 6) 8) (add_b (Z.shiftl (k 5) 16) (add_b (Z.shiftl (k 4) 24) s))) in
  add_c (k 11) (add_c (Z.shiftl (k 10) 8) (add_c (Z.shiftl (k 9) 16) (add_c (Z.shiftl (k 8) 24) s))).

Definition last_bytes_big (p length : Z) (s : state) : option state :=
  let k i := load8 (p + i) in
  if length =? 0 then None
  else Some (fall_through
    [(12, add_c (k 11)); (11, add_c (Z.shiftl (k 10) 8)); (10, add_c (Z.shiftl (k 9) 16)); (9, add_c (Z.shiftl (k 8) 24));
     (8, add_b (k 7)); (7, add_b (Z.shiftl (k 6) 8)); (6, add_b (Z.shiftl (k 5) 16)); (5, add_b (Z.shiftl (k 4) 24));
     (4, add_a (k 3)); (3, add_a (Z.shiftl (k 2) 8)); (2, add_a (Z.shiftl (k 1) 16)); (1, add_a (Z.shiftl (k 0) 24))]
    length s).

Definition hashbig (key length initval : Z) : Z :=
  if negb little && (Z.land key 3 =? 0) then run words_little last_words_big key length initval
  else run bytes_big last_bytes_big key length initval.

Definition hash (key length initval : Z) : Z :=
  if little then hashlittle key length initval else hashbig key length initval.
End hash.

(** ** Mixing is reversible *)

Definition is_u32 (x : Z) : Prop := 0 ≤ x < 2 ^ 32.
Definition state_ok (s : state) : Prop := is_u32 s.1.1 ∧ is_u32 s.1.2 ∧ is_u32 s.2.

Lemma u32_range z : is_u32 (u32 z).
Proof. apply Z.mod_pos_bound. lia. Qed.

Lemma u32_small z : is_u32 z → u32 z = z.
Proof. apply Z.mod_small. Qed.

Lemma u32_add_l a b : u32 (u32 a + b) = u32 (a + b).
Proof. unfold u32. by rewrite Zplus_mod_idemp_l. Qed.

Lemma u32_sub_l a b : u32 (u32 a - b) = u32 (a - b).
Proof. unfold u32. by rewrite Zminus_mod_idemp_l. Qed.

Lemma u32_lxor x y : is_u32 x → is_u32 y → is_u32 (Z.lxor x y).
Proof.
  intros Hx Hy. assert (0 ≤ Z.lxor x y) as H0 by (apply Z.lxor_nonneg; unfold is_u32 in *; lia). split; [done|].
  rewrite <- (u32_small x), <- (u32_small y) by done. unfold u32.
  assert (∀ a b, Z.lxor (a mod 2 ^ 32) (b mod 2 ^ 32) = Z.lxor a b mod 2 ^ 32) as ->.
  { intros a b. apply Z.bits_inj'. intros i Hi. rewrite Z.lxor_spec, !Z.testbit_mod_pow2, Z.lxor_spec by lia.
    by destruct (Z.ltb_spec i 32). }
  apply Z.mod_pos_bound. lia.
Qed.

Lemma rot_range x k : is_u32 x → 0 ≤ k ≤ 32 → is_u32 (rot x k).
Proof.
  intros Hx Hk. unfold rot. assert (is_u32 (Z.shiftr x (32 - k))) as Hs.
  { unfold is_u32 in *. rewrite Z.shiftr_div_pow2 by lia. split; [apply Z.div_pos; lia|].
    apply Z.div_lt_upper_bound; [lia|]. assert (1 ≤ 2 ^ (32 - k)) by (apply Z.pow_le_mono_r with (b := 0); lia). nia. }
  assert (∀ a b, Z.lor (a mod 2 ^ 32) (b mod 2 ^ 32) = Z.lor a b mod 2 ^ 32) as Hlor.
  { intros a b. apply Z.bits_inj'. intros i Hi. rewrite Z.lor_spec, !Z.testbit_mod_pow2, Z.lor_spec by lia.
    by destruct (Z.ltb_spec i 32). }
  rewrite <- (u32_small _ Hs). unfold u32. rewrite Hlor. apply u32_range.
Qed.

(** What undoes a step. *)
Definition unmix_step (x y z k : Z) : Z * Z := let z := u32 (z - y) in (u32 (Z.lxor x (rot z k) + z), z).

Lemma unmix_step_mix x y z k : is_u32 x → is_u32 z → unmix_step (mix_step x y z k).1 y (mix_step x y z k).2 k = (x, z).
Proof.
  intros Hx Hz. unfold mix_step, unmix_step. simpl. rewrite u32_sub_l, Z.add_simpl_r, (u32_small z) by done.
  rewrite Z.lxor_assoc, Z.lxor_nilpotent, Z.lxor_0_r, u32_add_l, Z.sub_simpl_r. by rewrite u32_small.
Qed.

Lemma mix_step_unmix x y z k :
  is_u32 x → is_u32 z → 0 ≤ k ≤ 32 → mix_step (unmix_step x y z k).1 y (unmix_step x y z k).2 k = (x, z).
Proof.
  intros Hx Hz Hk. unfold mix_step, unmix_step. simpl. set (w := u32 (z - y)).
  assert (is_u32 (Z.lxor x (rot w k))) by (apply u32_lxor; [done|apply rot_range; [apply u32_range|done]]).
  rewrite u32_sub_l, Z.add_simpl_r, u32_small by done.
  rewrite Z.lxor_assoc, Z.lxor_nilpotent, Z.lxor_0_r. unfold w. by rewrite u32_add_l, Z.sub_simpl_r, u32_small.
Qed.

Lemma mix_step_ok x y z k : is_u32 z → 0 ≤ k ≤ 32 → is_u32 (mix_step x y z k).1 ∧ is_u32 (mix_step x y z k).2.
Proof.
  intros Hz Hk. split; [|apply u32_range]. apply u32_lxor; [apply u32_range|by apply rot_range].
Qed.

Lemma unmix_step_ok x y z k : is_u32 (unmix_step x y z k).1 ∧ is_u32 (unmix_step x y z k).2.
Proof. split; apply u32_range. Qed.

Definition unfinal_step (x y k : Z) : Z := Z.lxor (u32 (x + rot y k)) y.

Lemma unfinal_step_final x y k : is_u32 x → is_u32 y → unfinal_step (final_step x y k) y k = x.
Proof.
  intros Hx Hy. unfold unfinal_step, final_step.
  rewrite u32_add_l, Z.sub_simpl_r, u32_small by by apply u32_lxor. by rewrite Z.lxor_assoc, Z.lxor_nilpotent, Z.lxor_0_r.
Qed.

Lemma final_step_unfinal x y k : is_u32 x → final_step (unfinal_step x y k) y k = x.
Proof.
  intros Hx. unfold unfinal_step, final_step.
  by rewrite Z.lxor_assoc, Z.lxor_nilpotent, Z.lxor_0_r, u32_sub_l, Z.add_simpl_r, u32_small.
Qed.

Lemma final_step_ok x y k : is_u32 (final_step x y k).
Proof. apply u32_range. Qed.

Lemma unfinal_step_ok x y k : is_u32 y → is_u32 (unfinal_step x y k).
Proof. intros. apply u32_lxor; [apply u32_range|done]. Qed.

(** A line of [mix] followed by a rotation of the names, and what undoes it. *)
Definition turn (k : Z) (s : state) : state :=
  let '(x, y, z) := s in let '(x', z') := mix_step x y z k in (y, z', x').
Definition unturn (k : Z) (s : state) : state :=
  let '(y, z, x) := s in let '(x', z') := unmix_step x y z k in (x', y, z').

Definition spin (k : Z) (s : state) : state := let '(x, y, w) := s in (w, final_step x y k, y).
Definition unspin (k : Z) (s : state) : state := let '(w, x, y) := s in (unfinal_step x y k, y, w).

Lemma turn_inv k s : 0 ≤ k ≤ 32 → state_ok s →
  state_ok (turn k s) ∧ state_ok (unturn k s) ∧ unturn k (turn k s) = s ∧ turn k (unturn k s) = s.
Proof.
  intros Hk. destruct s as [[x y] z]. intros (Hx & Hy & Hz). simpl in Hx, Hy, Hz. unfold turn, unturn.
  pose proof (mix_step_ok x y z k Hz Hk). pose proof (unmix_step_mix x y z k Hx Hz).
  pose proof (unmix_step_ok z x y k). pose proof (mix_step_unmix z x y k Hz Hy Hk).
  destruct (mix_step x y z k) as [x' z']. destruct (unmix_step z x y k) as [u v]. cbn [fst snd] in *.
  destruct_and!. unfold state_ok. cbn [fst snd]. split_and!; try done.
  - by destruct (unmix_step x' y z' k); simplify_eq.
  - by destruct (mix_step u x v k); simplify_eq.
Qed.

Lemma spin_inv k s : state_ok s →
  state_ok (spin k s) ∧ state_ok (unspin k s) ∧ unspin k (spin k s) = s ∧ spin k (unspin k s) = s.
Proof.
  destruct s as [[x y] z]. intros (Hx & Hy & Hz). simpl in Hx, Hy, Hz. unfold spin, unspin, state_ok. simpl.
  rewrite unfinal_step_final, final_step_unfinal by done. split_and!; try done; [apply u32_range|by apply unfinal_step_ok].
Qed.

(** Steps that can be undone, in a row. *)
Lemma chain_inv (f g : Z → state → state) (ks : list Z) s :
  (∀ k s, k ∈ ks → state_ok s → state_ok (f k s) ∧ state_ok (g k s) ∧ g k (f k s) = s ∧ f k (g k s) = s) →
  state_ok s →
  let forward := foldl (λ s k, f k s) s ks in
  let back := foldr g s ks in
  state_ok forward ∧ state_ok back ∧ foldr g forward ks = s ∧ foldl (λ s k, f k s) back ks = s.
Proof.
  intros Hfg Hs. simpl. revert s Hs. induction ks as [|k ks IH]; intros s Hs; [done|]. cbn [foldl foldr].
  destruct (Hfg k s) as (Hf & _ & Hgf & _); [by apply elem_of_cons; left|done|].
  assert (∀ k s, k ∈ ks → state_ok s → state_ok (f k s) ∧ state_ok (g k s) ∧ g k (f k s) = s ∧ f k (g k s) = s) as Hfg'.
  { intros. apply Hfg; [by apply elem_of_cons; right|done]. }
  destruct (IH Hfg' (f k s) Hf) as (H1 & _ & H3 & _). destruct (IH Hfg' s Hs) as (_ & H2 & _ & H4).
  destruct (Hfg k (foldr g s ks)) as (_ & Hg & _ & Hfg2); [by apply elem_of_cons; left|done|].
  split_and!; [done|done|by rewrite H3|by rewrite Hfg2].
Qed.

Definition mix_shifts : list Z := [4; 6; 8; 16; 19; 4].
Definition final_shifts : list Z := [14; 11; 25; 16; 4; 14; 24].

Definition unmix (s : state) : state := foldr unturn s mix_shifts.
Definition unfinal (s : state) : state :=
  let '(a, b, c) := s in let '(c, b, a) := foldr unspin (a, c, b) final_shifts in (a, b, c).

Lemma mix_turns s : mix s = foldl (λ s k, turn k s) s mix_shifts.
Proof. by destruct s as [[a b] c]. Qed.

Lemma final_spins a b c : final (a, b, c) = let '(a', c', b') := foldl (λ s k, spin k s) (c, b, a) final_shifts in (a', b', c').
Proof. done. Qed.

Lemma unmix_mix s : state_ok s → state_ok (mix s) ∧ state_ok (unmix s) ∧ unmix (mix s) = s ∧ mix (unmix s) = s.
Proof.
  intros Hs. rewrite !mix_turns. apply chain_inv; [|done].
  intros k s' Hk. apply turn_inv. unfold mix_shifts in Hk.
  repeat (apply elem_of_cons in Hk as [->|Hk]; [lia|]). by apply elem_of_nil in Hk.
Qed.

Lemma unfinal_final s :
  state_ok s → state_ok (final s) ∧ state_ok (unfinal s) ∧ unfinal (final s) = s ∧ final (unfinal s) = s.
Proof.
  pose proof (λ s, chain_inv spin unspin final_shifts s (λ k s _, spin_inv k s)) as Hspin. cbv zeta in Hspin.
  destruct s as [[a b] c]. intros (Ha & Hb & Hc). simpl in Ha, Hb, Hc.
  destruct (Hspin (c, b, a)) as (H5 & _ & H7 & _); [done|]. destruct (Hspin (a, c, b)) as (_ & H6 & _ & H8); [done|].
  rewrite final_spins. unfold unfinal at 1 3.
  destruct (foldl (λ s k, spin k s) (c, b, a) final_shifts) as [[x z] y].
  destruct (foldr unspin (a, c, b) final_shifts) as [[z' y'] x'].
  destruct H5 as (?&?&?), H6 as (?&?&?). cbn [fst snd] in *. rewrite final_spins, H8. unfold unfinal. rewrite H7. by split_and!.
Qed.

(** [mix] and [final] are reversible, as the comments say: on states of three 32-bit numbers
    they have inverses, so that no information about the key is lost between the blocks. *)
Theorem hash_mixing_reversible s :
  state_ok s →
  state_ok (mix s) ∧ state_ok (unmix s) ∧ unmix (mix s) = s ∧ mix (unmix s) = s ∧
  state_ok (final s) ∧ state_ok (unfinal s) ∧ unfinal (final s) = s ∧ final (unfinal s) = s.
Proof. intros Hs. destruct (unmix_mix s Hs) as (?&?&?&?), (unfinal_final s Hs) as (?&?&?&?). done. Qed.

Lemma hash_mixing_reversible_witness :
  let s := (0xdeadbeef, 7, 2 ^ 32 - 1) in
  state_ok (mix s) ∧ state_ok (unmix s) ∧ unmix (mix s) = s ∧ mix (unmix s) = s ∧
  state_ok (final s) ∧ state_ok (unfinal s) ∧ unfinal (final s) = s ∧ final (unfinal s) = s.
Proof. apply hash_mixing_reversible. unfold state_ok, is_u32. simpl. lia. Defined.

(** ** The reference *)

Definition byte_at (bs : list byte) (i : nat) : Z :=
  match bs !! i with Some b => Z.of_N (to_N b) | None => 0 end.

Definition word4 (b0 b1 b2 b3 : Z) : Z := b0 + 2 ^ 8 * b1 + 2 ^ 16 * b2 + 2 ^ 24 * b3.

(** The [i]-th word of a key; what is missing counts as zero. *)
Definition word_le (bs : list byte) (i : nat) : Z :=
  word4 (byte_at bs (4 * i)) (byte_at bs (4 * i + 1)) (byte_at bs (4 * i + 2)) (byte_at bs (4 * i + 3)).
Definition word_be (bs : list byte) (i : nat) : Z :=
  word4 (byte_at bs (4 * i + 3)) (byte_at bs (4 * i + 2)) (byte_at bs (4 * i + 1)) (byte_at bs (4 * i)).

Definition add_words (word : list byte → nat → Z) (bs : list byte) (s : state) : state :=
  add3 s (word bs 0%nat) (word bs 1%nat) (word bs 2%nat).

(** Blocks of twelve bytes are added and mixed; the last one is added and finished. *)
Fixpoint lookup3 (word : list byte → nat → Z) (bs : list byte) (s : state) : Z :=
  match bs with
  | [] => s.2
  | _ :: _ :: _ :: _ :: _ :: _ :: _ :: _ :: _ :: _ :: _ :: _ :: (_ :: _) as rest =>
      lookup3 word rest (mix (add_words word bs s))
  | _ => (final (add_words word bs s)).2
  end.

Lemma lookup3_long word bs s :
  (12 < length bs)%nat → lookup3 word bs s = lookup3 word (drop 12 bs) (mix (add_words word bs s)).
Proof. intros Hl. do 13 (destruct bs as [|? bs]; [simpl in Hl; lia|]). done. Qed.

Lemma lookup3_short word bs s :
  (1 ≤ length bs ≤ 12)%nat → lookup3 word bs s = (final (add_words word bs s)).2.
Proof.
  intros Hl. destruct bs as [|? bs]; [simpl in Hl; lia|]. do 12 (destruct bs as [|? bs]; [done|]). simpl in Hl. lia.
Qed.

Section reference.
Context (little : bool) (mem : Z → byte).

Definition key_bytes (p length : Z) : list byte := (λ i, mem (p + i)) <$> seqZ 0 length.

Lemma key_bytes_length p n : length (key_bytes p n) = Z.to_nat n.
Proof. unfold key_bytes. by rewrite length_fmap, length_seqZ. Qed.

Lemma byte_at_key p n i : byte_at (key_bytes p n) i = if Z.of_nat i <? n then load8 mem (p + Z.of_nat i) else 0.
Proof.
  unfold byte_at, key_bytes. rewrite list_lookup_fmap. destruct (Z.ltb_spec (Z.of_nat i) n).
  - rewrite lookup_seqZ_lt by lia. done.
  - rewrite lookup_seqZ_ge by lia. done.
Qed.

Lemma key_bytes_drop p n : 12 < n → drop 12 (key_bytes p n) = key_bytes (p + 12) (n - 12).
Proof.
  intros Hn. unfold key_bytes. rewrite <- fmap_drop. apply list_eq. intros i.
  rewrite !list_lookup_fmap, lookup_drop. destruct (decide (Z.of_nat i < n - 12)).
  - rewrite !lookup_seqZ_lt by lia. simpl. do 2 f_equal. lia.
  - rewrite !lookup_seqZ_ge by lia. done.
Qed.

Lemma load8_range p : 0 ≤ load8 mem p < 2 ^ 8.
Proof. unfold load8. pose proof (to_N_bounded (mem p)). lia. Qed.

(** A branch of the hash function computes the reference if a round adds the words of its block
    and the last round those of what is left. *)
Lemma run_reference word add last :
  (∀ p n s, 12 < n → add p s = add_words word (key_bytes p n) s) →
  (∀ p n s, 1 ≤ n ≤ 12 → last p n s = Some (add_words word (key_bytes p n) s)) →
  (∀ p s, last p 0 s = None) →
  ∀ p n initval, 0 ≤ n → run add last p n initval = lookup3 word (key_bytes p n) (start n initval).
Proof.
  intros Hadd Hlast H0 p n initval Hn. unfold run. generalize (start n initval). intros s.
  assert (∀ fuel p n s, 0 ≤ n → n ≤ Z.of_nat fuel →
    let '(p', n', s') := blocks add fuel p n s in finish s' (last p' n' s') = lookup3 word (key_bytes p n) s) as Hloop.
  2:{ specialize (Hloop (Z.to_nat n) p n s Hn ltac:(lia)). by destruct (blocks _ _ _ _ _) as [[p' n'] s']. }
  clear p n s Hn. induction fuel as [|fuel IH]; intros p n s Hn Hf.
  { assert (n = 0) as -> by lia. simpl. by rewrite H0. }
  cbn [blocks]. rewrite Z.gtb_ltb. destruct (Z.ltb_spec 12 n) as [Hlt|Hge].
  - rewrite lookup3_long by (rewrite key_bytes_length; lia).
    rewrite key_bytes_drop, <- (Hadd p n s) by done. apply IH; lia.
  - destruct (decide (n = 0)) as [->|]; [by rewrite H0|]. rewrite Hlast by lia. simpl.
    rewrite lookup3_short; [done|]. rewrite key_bytes_length. lia.
Qed.

(** *** Arithmetic of the reads *)

Lemma load32_le p i :
  load32 true mem (p + i) = word4 (load8 mem (p + i)) (load8 mem (p + (i + 1))) (load8 mem (p + (i + 2))) (load8 mem (p + (i + 3))).
Proof.
  unfold load32, load16, word4. rewrite !Z.shiftl_mul_pow2 by lia. replace (p + i + 2 + 1) with (p + (i + 3)) by lia.
  rewrite <- !(Z.add_assoc p). lia.
Qed.

Lemma load32_be p i :
  load32 false mem (p + i) = word4 (load8 mem (p + (i + 3))) (load8 mem (p + (i + 2))) (load8 mem (p + (i + 1))) (load8 mem (p + i)).
Proof.
  unfold load32, load16, word4. rewrite !Z.shiftl_mul_pow2 by lia. replace (p + i + 2 + 1) with (p + (i + 3)) by lia.
  rewrite <- !(Z.add_assoc p). lia.
Qed.

Lemma load16_le p i : load16 true mem (p + i) = word4 (load8 mem (p + i)) (load8 mem (p + (i + 1))) 0 0.
Proof. unfold load16, word4. rewrite Z.shiftl_mul_pow2, <- (Z.add_assoc p) by lia. lia. Qed.

Lemma half_pair_le p i :
  half_pair true mem p i = word4 (load8 mem (p + 2 * i)) (load8 mem (p + (2 * i + 1)))
    (load8 mem (p + (2 * i + 2))) (load8 mem (p + (2 * i + 3))).
Proof.
  unfold half_pair. rewrite !load16_le, Z.shiftl_mul_pow2 by lia. unfold word4.
  replace (2 * (i + 1)) with (2 * i + 2) by lia. rewrite <- (Z.add_assoc (2 * i) 2 1). change (2 + 1) with 3. lia.
Qed.

(** Masks keep the low or the high bytes of a word. *)
Lemma mask_low k x lo hi : 0 ≤ k → x = lo + 2 ^ k * hi → 0 ≤ lo < 2 ^ k → Z.land x (Z.ones k) = lo.
Proof.
  intros Hk -> Hlo. rewrite Z.land_ones by done. symmetry. apply (Z.mod_unique_pos _ _ hi); [done|lia].
Qed.

Lemma mask_high k x lo hi :
  0 ≤ k ≤ 32 → x = lo + 2 ^ k * hi → 0 ≤ lo < 2 ^ k → 0 ≤ x < 2 ^ 32 →
  Z.land x (Z.ldiff (Z.ones 32) (Z.ones k)) = 2 ^ k * hi.
Proof.
  intros Hk Hx Hlo Hr. assert (Z.land x (Z.ldiff (Z.ones 32) (Z.ones k)) = Z.ldiff (Z.land x (Z.ones 32)) (Z.ones k)) as ->.
  { apply Z.bits_inj'. intros i Hi. rewrite Z.land_spec, !Z.ldiff_spec, Z.land_spec. by rewrite andb_assoc. }
  rewrite Z.land_ones, Z.mod_small, Z.ldiff_ones_r by lia.
  rewrite Z.shiftl_mul_pow2, Z.shiftr_div_pow2 by lia. subst x.
  rewrite Z.mul_comm, <- (Z.div_unique_pos _ _ hi lo); [done|done|lia].
Qed.

Definition in_byte (b : Z) : Prop := 0 ≤ b < 2 ^ 8.

Lemma masks b0 b1 b2 b3 :
  in_byte b0 → in_byte b1 → in_byte b2 → in_byte b3 →
  let w := word4 b0 b1 b2 b3 in
  Z.land w 0xffffff = word4 b0 b1 b2 0 ∧ Z.land w 0xffff = word4 b0 b1 0 0 ∧ Z.land w 0xff = word4 b0 0 0 0 ∧
  Z.land w 0xffffff00 = word4 0 b1 b2 b3 ∧ Z.land w 0xffff0000 = word4 0 0 b2 b3 ∧ Z.land w 0xff000000 = word4 0 0 0 b3.
Proof.
  unfold in_byte. intros H0 H1 H2 H3. unfold word4. split_and!.
  - apply (mask_low 24 _ _ b3); lia.
  - apply (mask_low 16 _ _ (b2 + 2 ^ 8 * b3)); lia.
  - apply (mask_low 8 _ _ (b1 + 2 ^ 8 * b2 + 2 ^ 16 * b3)); lia.
  - change 0xffffff00 with (Z.ldiff (Z.ones 32) (Z.ones 8)).
    rewrite (mask_high 8 _ b0 (b1 + 2 ^ 8 * b2 + 2 ^ 16 * b3)); lia.
  - change 0xffff0000 with (Z.ldiff (Z.ones 32) (Z.ones 16)).
    rewrite (mask_high 16 _ (b0 + 2 ^ 8 * b1) (b2 + 2 ^ 8 * b3)); lia.
  - change 0xff000000 with (Z.ldiff (Z.ones 32) (Z.ones 24)).
    rewrite (mask_high 24 _ (b0 + 2 ^ 8 * b1 + 2 ^ 16 * b2) b3); lia.
Qed.

(** The byte of the key at [i], or zero behind its end. *)
Definition known (p n i : Z) : Z := if i <? n then load8 mem (p + i) else 0.

Lemma add_words_le p n s :
  add_words word_le (key_bytes p n) s =
  add3 s (word4 (known p n 0) (known p n 1) (known p n 2) (known p n 3))
    (word4 (known p n 4) (known p n 5) (known p n 6) (known p n 7))
    (word4 (known p n 8) (known p n 9) (known p n 10) (known p n 11)).
Proof. unfold add_words, word_le. by rewrite !byte_at_key. Qed.

Lemma add_words_be p n s :
  add_words word_be (key_bytes p n) s =
  add3 s (word4 (known p n 3) (known p n 2) (known p n 1) (known p n 0))
    (word4 (known p n 7) (known p n 6) (known p n 5) (known p n 4))
    (word4 (known p n 11) (known p n 10) (known p n 9) (known p n 8)).
Proof. unfold add_words, word_be. by rewrite !byte_at_key. Qed.

Lemma known_before p n i : i < n → known p n i = load8 mem (p + i).
Proof. intros. unfold known. by rewrite (proj2 (Z.ltb_lt _ _)). Qed.

Lemma add3_eq s x y z x' y' z' : x = x' → y = y' → z = z' → add3 s x y z = add3 s x' y' z'.
Proof. by intros -> -> ->. Qed.

Lemma add3_add3 s x y z x' y' z' : add3 (add3 s x y z) x' y' z' = add3 s (x + x') (y + y') (z + z').
Proof. destruct s as [[a b] c]. unfold add3. by rewrite !u32_add_l, <- !Z.add_assoc. Qed.

Lemma cases_12 n : 1 ≤ n ≤ 12 →
  n = 1 ∨ n = 2 ∨ n = 3 ∨ n = 4 ∨ n = 5 ∨ n = 6 ∨ n = 7 ∨ n = 8 ∨ n = 9 ∨ n = 10 ∨ n = 11 ∨ n = 12.
Proof. lia. Qed.

Ltac eval_known :=
  repeat match goal with |- context [known ?p ?n ?i] =>
    let v := eval vm_compute in (i <? n) in
    lazymatch v with
    | true => change (known p n i) with (load8 mem (p + i))
    | false => change (known p n i) with 0
    end
  end.

Ltac eval_masks :=
  repeat match goal with |- context [Z.land (word4 ?a ?b ?c ?d) _] =>
    let H := fresh in
    pose proof (masks a b c d (load8_range _) (load8_range _) (load8_range _) (load8_range _)) as H;
    destruct H as (? & ? & ? & ? & ? & ?);
    match goal with E : Z.land (word4 a b c d) ?m = _ |- context [Z.land (word4 a b c d) ?m] => rewrite E end
  end.

Ltac each_case n Hn := apply cases_12 in Hn; repeat (destruct Hn as [->|Hn]; [|]); [..|subst n].

Lemma last_words_le p n s :
  1 ≤ n ≤ 12 → last_words_little true mem p n s = Some (add_words word_le (key_bytes p n) s).
Proof.
  intros Hn. rewrite add_words_le. each_case n Hn; eval_known; unfold last_words_little; rewrite !load32_le;
    f_equal; apply add3_eq; eval_masks; try reflexivity.
Qed.

Ltac eval_addresses :=
  repeat match goal with |- context [load8 mem (?p + ?i)] =>
    let v := eval vm_compute in i in
    assert_fails (constr_eq i v); change (load8 mem (p + i)) with (load8 mem (p + v))
  end.

Lemma last_halves_le p n s : 1 ≤ n ≤ 12 → last_halves true mem p n s = Some (add_words word_le (key_bytes p n) s).
Proof.
  intros Hn. rewrite add_words_le. each_case n Hn; eval_known; unfold last_halves, add_a, add_b, add_c;
    rewrite ?half_pair_le, ?load16_le, ?add3_add3, ?Z.shiftl_mul_pow2 by lia;
    f_equal; apply add3_eq; eval_addresses; unfold word4; lia.
Qed.

Lemma last_bytes_le p n s : 1 ≤ n ≤ 12 → last_bytes_little mem p n s = Some (add_words word_le (key_bytes p n) s).
Proof.
  intros Hn. rewrite add_words_le. each_case n Hn; eval_known; unfold last_bytes_little, fall_through;
    cbn -[load8 Z.shiftl Z.add]; unfold add_a, add_b, add_c;
    rewrite ?add3_add3, ?Z.shiftl_mul_pow2 by lia; f_equal; apply add3_eq; unfold word4; lia.
Qed.

Lemma last_bytes_be p n s : 1 ≤ n ≤ 12 → last_bytes_big mem p n s = Some (add_words word_be (key_bytes p n) s).
Proof.
  intros Hn. rewrite add_words_be. each_case n Hn; eval_known; unfold last_bytes_big, fall_through;
    cbn -[load8 Z.shiftl Z.add]; unfold add_a, add_b, add_c;
    rewrite ?add3_add3, ?Z.shiftl_mul_pow2 by lia; f_equal; apply add3_eq; unfold word4; lia.
Qed.

Lemma last_words_be p n s :
  1 ≤ n ≤ 12 → last_words_big false mem p n s = Some (add_words word_be (key_bytes p n) s).
Proof.
  intros Hn. rewrite add_words_be. each_case n Hn; eval_known; unfold last_words_big; rewrite !load32_be;
    f_equal; apply add3_eq; eval_masks; try reflexivity.
Qed.

Lemma block_words p n s :
  12 < n → words_little little mem p s = add_words (if little then word_le else word_be) (key_bytes p n) s.
Proof.
  intros Hn. rewrite <- (Z.add_0_r p) at 1. unfold words_little. rewrite <- !(Z.add_assoc p).
  destruct little; [rewrite add_words_le, !load32_le|rewrite add_words_be, !load32_be];
    rewrite !known_before by lia; apply add3_eq; reflexivity.
Qed.

Lemma block_halves p n s : 12 < n → halves true mem p s = add_words word_le (key_bytes p n) s.
Proof.
  intros Hn. rewrite add_words_le, !known_before by lia. unfold halves. rewrite !half_pair_le. reflexivity.
Qed.

Lemma block_bytes_le p n s : 12 < n → bytes_little mem p s = add_words word_le (key_bytes p n) s.
Proof.
  intros Hn. rewrite add_words_le, !known_before by lia. unfold bytes_little, add_a, add_b, add_c.
  rewrite !add3_add3, !Z.shiftl_mul_pow2 by lia. apply add3_eq; unfold word4; lia.
Qed.

Lemma block_bytes_be p n s : 12 < n → bytes_big mem p s = add_words word_be (key_bytes p n) s.
Proof.
  intros Hn. rewrite add_words_be, !known_before by lia. unfold bytes_big, add_a, add_b, add_c.
  rewrite !add3_add3, !Z.shiftl_mul_pow2 by lia. apply add3_eq; unfold word4; lia.
Qed.
End reference.

Lemma hashlittle_reference little mem key n initval :
  0 ≤ n → hashlittle little mem key n initval = lookup3 word_le (key_bytes mem key n) (start n initval).
Proof.
  intros Hn. unfold hashlittle. destruct little; simpl.
  - destruct (_ =? 0); [|destruct (_ =? 0)].
    + apply run_reference; [exact (block_words true mem)|exact (last_words_le mem)|done|done].
    + apply run_reference; [exact (block_halves mem)|exact (last_halves_le mem)|done|done].
    + apply run_reference; [exact (block_bytes_le mem)|exact (last_bytes_le mem)|done|done].
  - apply run_reference; [exact (block_bytes_le mem)|exact (last_bytes_le mem)|done|done].
Qed.

Lemma hashbig_reference little mem key n initval :
  0 ≤ n → hashbig little mem key n initval = lookup3 word_be (key_bytes mem key n) (start n initval).
Proof.
  intros Hn. unfold hashbig. destruct little; simpl.
  - apply run_reference; [exact (block_bytes_be mem)|exact (last_bytes_be mem)|done|done].
  - destruct (_ =? 0).
    + apply run_reference; [exact (block_words false mem)|exact (last_words_be mem)|done|done].
    + apply run_reference; [exact (block_bytes_be mem)|exact (last_bytes_be mem)|done|done].
Qed.

(** C36: The hash is a function of the bytes of the key.  Whatever the alignment of the key and
    whether words, half words or bytes are read, it is what the reference computes from blocks of
    three words filled up with zeros, little-endian words in [hashlittle] and big-endian ones in
    [hashbig], on machines of either byte order; what the reads of whole words see behind the end
    of the key does not matter. *)
Theorem hash_reads_only_key little mem key n initval :
  0 ≤ n →
  hashlittle little mem key n initval = lookup3 word_le (key_bytes mem key n) (start n initval) ∧
  hashbig little mem key n initval = lookup3 word_be (key_bytes mem key n) (start n initval) ∧
  ∀ mem' key', key_bytes mem' key' n = key_bytes mem key n → hash little mem' key' n initval = hash little mem key n initval.
Proof.
  intros Hn. rewrite hashlittle_reference, hashbig_reference by done. split_and!; [done|done|].
  intros mem' key' Hb. unfold hash. destruct little; [rewrite !hashlittle_reference|rewrite !hashbig_reference]; by rewrite ?Hb.
Qed.

(** ** Known values

    The test values published with the function, at addresses that need bytes, half words and
    words. *)
Module HashDemo.
Definition text : list byte := String.list_byte_of_string "Four score and seven years ago".
Definition text_at (p a : Z) : byte := default x55 (text !! Z.to_nat (a - p)).

Example hash_of_text :
  ((λ p, hash true (text_at p) p 30 0) <$> [100; 101; 102]) = [0x17770551; 0x17770551; 0x17770551] ∧
  ((λ p, hash true (text_at p) p 30 1) <$> [100; 101; 102]) = [0xcd628161; 0xcd628161; 0xcd628161] ∧
  hash true (text_at 0) 0 0 0 = 0xdeadbeef.
Proof. vm_compute. done. Qed.

Lemma hash_reads_only_key_witness :
  hashlittle true (text_at 4) 4 30 7 = lookup3 word_le (key_bytes (text_at 4) 4 30) (start 30 7) ∧
  hashbig true (text_at 4) 4 30 7 = lookup3 word_be (key_bytes (text_at 4) 4 30) (start 30 7) ∧
  ∀ mem' key', key_bytes mem' key' 30 = key_bytes (text_at 4) 4 30 → hash true mem' key' 30 7 = hash true (text_at 4) 4 30 7.
Proof. apply (hash_reads_only_key true (text_at 4) 4 30 7). lia. Defined.
End HashDemo.
