(* ===== verification/TrueTime.v ===== *)
(** The clocks of the store: the simulated TrueTime of [store/common/truetime.h] and [truetime.cc],
    and the timestamp server of [timeserver/timeserver.h] and [timeserver.cc].

    The clock of the machine ([gettimeofday]) and the random number the constructor draws are
    arguments.  [tv_usec] is a [long]; adding the skew to it is done with unsigned numbers and
    converted back. *)

From stdpp Require Import pretty.
From S2P Require Import Prelude ReplLog VRReplica.

(** ** TrueTime *)

Record TrueTime := MkTrueTime { simError : Z; simSkew : Z }.

Definition TrueTime_default : TrueTime := MkTrueTime 0 0.

(** [r] is the result of [rand()]. *)
Definition TrueTime_new (skew errorBound r : Z) : TrueTime :=
  MkTrueTime errorBound (if skew =? 0 then 0 else u64 (r mod skew - skew / 2)).

(** [struct timeval]. *)
Record timeval := MkTimeval { tv_sec : Z; tv_usec : Z }.

(** The conversion to [long]. *)
Definition to_long (z : Z) : Z := (z + 2 ^ 63) mod 2 ^ 64 - 2 ^ 63.

Definition GetTime (t : TrueTime) (now : timeval) : Z :=
  let usec := to_long (u64 (tv_usec now + simSkew t)) in
  let '(sec, usec) :=
    if usec >? 999999 then (tv_sec now + 1, usec - 1000000)
    else if usec <? 0 then (tv_sec now - 1, usec + 1000000)
    else (tv_sec now, usec) in
  Z.lor (u64 (Z.shiftl (u64 sec) 32)) (u64 usec).

Definition GetTimeAndError (t : TrueTime) (now : timeval) : Z * Z := (GetTime t now, simError t).

(** The time of the machine in microseconds. *)
Definition micros (now : timeval) : Z := tv_sec now * 1000000 + tv_usec now.

Definition timeval_ok (now : timeval) : Prop := 1 ≤ tv_sec now < 2 ^ 32 - 1 ∧ 0 ≤ tv_usec now < 1000000.

(** The skew as a signed number. *)
Definition skew_of (t : TrueTime) : Z := to_long (simSkew t).

(** Seconds in the upper half, microseconds in the lower. *)
Definition pack (us : Z) : Z := (us / 1000000) * 2 ^ 32 + us mod 1000000.

Lemma to_long_u64 z : - 2 ^ 63 ≤ z < 2 ^ 63 → to_long (u64 z) = z.
Proof.
  intros Hz. unfold to_long, u64, u64_modulus. rewrite Zplus_mod_idemp_l, Z.mod_small by lia. lia.
Qed.

Lemma lor_pack sec usec : 0 ≤ usec < 2 ^ 32 → Z.lor (Z.shiftl sec 32) usec = sec * 2 ^ 32 + usec.
Proof.
  intros Hu. rewrite <- Z.shiftl_mul_pow2 by lia. symmetry. apply Z.add_nocarry_lor.
  apply Z.bits_inj'. intros i Hi. rewrite Z.land_spec, Z.shiftl_spec, Z.bits_0 by done. destruct (Z.ltb_spec i 32).
  - by rewrite Z.testbit_neg_r by lia.
  - rewrite (Z.bits_above_log2 usec), andb_false_r; [done|lia|]. destruct (decide (usec = 0)) as [->|]; [simpl; lia|].
    apply Z.log2_lt_pow2; [lia|]. assert (2 ^ 32 ≤ 2 ^ i) by (apply Z.pow_le_mono_r; lia). lia.
Qed.

Lemma GetTime_pack t now :
  timeval_ok now → - 1000000 ≤ skew_of t ≤ 1000000 → 0 ≤ simSkew t < 2 ^ 64 → GetTime t now = pack (micros now + skew_of t).
Proof.
  intros [Hs Hu] Hk Hr. unfold GetTime.
  assert (to_long (u64 (tv_usec now + simSkew t)) = tv_usec now + skew_of t) as ->.
  { assert (u64 (tv_usec now + simSkew t) = u64 (tv_usec now + skew_of t)) as ->; [|apply to_long_u64; lia].
    unfold u64, u64_modulus, skew_of, to_long. rewrite Z.add_sub_assoc, <- (Zminus_mod_idemp_l (tv_usec now + _)), Zplus_mod_idemp_r, Zminus_mod_idemp_l.
    f_equal. lia. }
  set (u := tv_usec now + skew_of t).
  assert (∀ sec usec, 0 ≤ sec < 2 ^ 32 → 0 ≤ usec < 1000000 → sec * 1000000 + usec = micros now + skew_of t →
    Z.lor (u64 (Z.shiftl (u64 sec) 32)) (u64 usec) = pack (micros now + skew_of t)) as Hpack.
  { intros sec usec Hsec Husec Heq. rewrite (u64_small sec), (u64_small usec) by (unfold is_u64, u64_modulus; lia).
    rewrite u64_small by (unfold is_u64, u64_modulus; rewrite Z.shiftl_mul_pow2 by lia; lia).
    rewrite lor_pack by lia. unfold pack. rewrite <- Heq.
    rewrite (Z.add_comm (sec * 1000000)), Z_div_plus_full, Z_mod_plus_full, Z.div_small, Z.mod_small by lia. lia. }
  unfold micros in *. destruct (Z.gtb_spec u 999999); [apply Hpack; lia|].
  destruct (Z.ltb_spec u 0); apply Hpack; lia.
Qed.

Lemma pack_lt a b : pack a < pack b ↔ a < b.
Proof.
  unfold pack. pose proof (Z.mod_pos_bound a 1000000 ltac:(lia)). pose proof (Z.mod_pos_bound b 1000000 ltac:(lia)).
  pose proof (Z.div_mod a 1000000 ltac:(lia)). pose proof (Z.div_mod b 1000000 ltac:(lia)). split; intros; nia.
Qed.

Lemma TrueTime_new_skew skew e r :
  0 ≤ skew ≤ 2000000 → 0 ≤ r →
  let t := TrueTime_new skew e r in - 1000000 ≤ skew_of t ≤ 1000000 ∧ 0 ≤ simSkew t < 2 ^ 64.
Proof.
  intros Hs Hr t. unfold t, TrueTime_new, skew_of. simpl. destruct (Z.eqb_spec skew 0) as [->|Hne]; [done|].
  pose proof (Z.mod_pos_bound r skew ltac:(lia)). pose proof (Z.div_mod skew 2 ltac:(lia)). pose proof (Z.mod_pos_bound skew 2 ltac:(lia)).
  rewrite to_long_u64 by lia. split; [lia|]. apply u64_range.
Qed.

(** A clock with a simulated skew of at most a second to either side shows the time of the
    machine shifted by that skew, as seconds in the upper and microseconds in the lower half, and
    its timestamps are ordered like the times they were taken at: a later time gives a larger
    timestamp. *)
Theorem truetime_ordered skew e r (now now' : timeval) :
  0 ≤ skew ≤ 2000000 → 0 ≤ r → timeval_ok now → timeval_ok now' →
  let t := TrueTime_new skew e r in
  GetTimeAndError t now = (pack (micros now + skew_of t), e) ∧ - skew ≤ 2 * skew_of t ≤ skew ∧
  (GetTime t now < GetTime t now' ↔ micros now < micros now').
Proof.
  intros Hs Hr Hn Hn' t. destruct (TrueTime_new_skew skew e r Hs Hr) as [Hk Hu]. fold t in Hk, Hu.
  unfold GetTimeAndError. rewrite !GetTime_pack by done. split; [done|split].
  - unfold t, TrueTime_new, skew_of in *. simpl in *. destruct (Z.eqb_spec skew 0) as [->|Hne]; [done|].
    pose proof (Z.mod_pos_bound r skew ltac:(lia)). pose proof (Z.div_mod skew 2 ltac:(lia)). pose proof (Z.mod_pos_bound skew 2 ltac:(lia)).
    rewrite to_long_u64 by lia. lia.
  - rewrite pack_lt. lia.
Qed.

Lemma truetime_ordered_witness :
  let t := TrueTime_new 1000 5 123456 in
  GetTimeAndError t (MkTimeval 1700000000 999900) = (pack (micros (MkTimeval 1700000000 999900) + skew_of t), 5) ∧
  - 1000 ≤ 2 * skew_of t ≤ 1000 ∧
  (GetTime t (MkTimeval 1700000000 999900) < GetTime t (MkTimeval 1700000001 7) ↔
   micros (MkTimeval 1700000000 999900) < micros (MkTimeval 1700000001 7)).
Proof. apply (truetime_ordered 1000 5 123456); unfold timeval_ok; simpl; lia. Defined.

(** With a larger skew the microseconds are no longer brought into their range: a skew of minus
    two seconds and a half leaves them negative, and the timestamp loses the seconds. *)
Example truetime_large_skew :
  skew_of (TrueTime_new 5000000 0 0) = - 2500000 ∧
  GetTime (TrueTime_new 5000000 0 0) (MkTimeval 1700000000 0) = 2 ^ 64 - 1500000.
Proof. vm_compute. done. Qed.

(** ** The timestamp server *)

Record TimeStampServer := MkTimeStampServer { ts : Z }.

#[global] Instance TimeStampServer_eta : Eta TimeStampServer := λ s, MkTimeStampServer (ts s).

Definition TimeStampServer_new : TimeStampServer := MkTimeStampServer 0.

(** [ts] is a [long]. *)
Definition newTimeStamp : M TimeStampServer string :=
  s ← get_st;
  if ts s =? 2 ^ 63 - 1 then undefined
  else _ ← modify (λ s, s <| ts ::= λ n, n + 1 |>); mret (pretty (ts s + 1)).

(** The upcalls it does not override are those of [AppReplica]. *)
#[global] Instance TimeStampServer_AppReplica : AppReplica TimeStampServer := {|
  LeaderUpcall := λ _ str1, mret (true, str1);
  ReplicaUpcall := λ _ _, newTimeStamp;
  UnloggedUpcall := λ _, mret ""
|}.

(** What a replica answers that executes these operations in a row. *)
Fixpoint execute_all (ops : list (Z * string)) : M TimeStampServer (list string) :=
  match ops with
  | [] => mret []
  | (opnum, op) :: ops => r ← ReplicaUpcall opnum op; rs ← execute_all ops; mret (r :: rs)
  end.

(** The answers of a timestamp server are the consecutive numbers from one, whatever the
    operations are: two replicas that execute equally many operations give the same timestamps,
    and no timestamp is given twice. *)
Theorem timestamps_consecutive (ops : list (Z * string)) :
  Z.of_nat (length ops) < 2 ^ 63 →
  execute_all ops TimeStampServer_new =
    Ok (pretty <$> seqZ 1 (Z.of_nat (length ops)), MkTimeStampServer (Z.of_nat (length ops))) ∧
  NoDup ((pretty : Z → string) <$> seqZ 1 (Z.of_nat (length ops))).
Proof.
  intros Hl. split; [|apply NoDup_fmap_2; [apply _|apply NoDup_seqZ]].
  assert (∀ n, 0 ≤ n → n + Z.of_nat (length ops) < 2 ^ 63 →
    execute_all ops (MkTimeStampServer n) =
      Ok (pretty <$> seqZ (n + 1) (Z.of_nat (length ops)), MkTimeStampServer (n + Z.of_nat (length ops)))) as Hgen.
  2:{ exact (Hgen 0 ltac:(done) ltac:(lia)). }
  clear Hl. induction ops as [|[opnum op] ops IH]; intros n Hn Hl.
  { simpl. rewrite Z.add_0_r. done. }
  simpl length in *. cbn [execute_all]. unfold ReplicaUpcall, TimeStampServer_AppReplica, newTimeStamp, mbind, M_bind, get_st. simpl.
  rewrite (proj2 (Z.eqb_neq _ _)) by lia. simpl. rewrite IH by lia. rewrite (seqZ_cons (n + 1)) by lia. simpl.
  unfold mret, M_ret.
  replace (Z.pred (Z.of_nat (S (length ops)))) with (Z.of_nat (length ops)) by lia.
  replace (n + Z.of_nat (S (length ops))) with (n + 1 + Z.of_nat (length ops)) by lia.
  by replace (Z.succ (n + 1)) with (n + 1 + 1) by lia.
Qed.

Lemma timestamps_consecutive_witness :
  execute_all [(1, "a"); (2, "a")] TimeStampServer_new = Ok (pretty <$> seqZ 1 2, MkTimeStampServer 2) ∧
  NoDup ((pretty : Z → string) <$> seqZ 1 2).
Proof. apply (timestamps_consecutive [(1, "a"); (2, "a")]). simpl. lia. Defined.
