(* ===== verification/Workload.v ===== *)
(** The drivers of the benchmarks: the choice of keys and the transactions of
    [store/benchmark/benchClient.cc] and [retwisClient.cc].

    A driver sees the client of the store through the statuses its calls return: [Answers] gives
    the status of a call from the calls before it and the call itself, so a driver is a function
    of these answers, of the numbers [rand()] returns and of the power function of the C library.  [calls] are the calls it has
    made.  [zipf] is the table that the first call of [rand_key] makes.  Measuring and printing
    times, and the loop that repeats transactions until the time is over, are left out. *)

From Stdlib Require Import SpecFloat Ascii.
From S2P Require Import ConfigFile.
From S2P Require Import Prelude Tpcc.

Inductive call :=
| CallBegin
| CallGet (key : string)
| CallMultiGet (keys : list string)
| CallPut (key value : string)
| CallCommit.

Class Answers := answer : list call → call → Z.

(** [rand()] and [pow()]. *)
Class Library := { rand_draw : nat → Z; pow : double → double → double }.
Definition RAND_MAX : Z := 2147483647.

Definition ddiv (x y : double) : double := SFdiv 53 1024 x y.

Record Driver := MkDriver {
  calls : list call;
  drawn : nat;
  zipf : option (list double)
}.

#[global] Instance Driver_eta : Eta Driver := λ d, MkDriver (calls d) (drawn d) (zipf d).

Section driver.
Context `{!Answers} `{!Library} (keys : list string) (nKeys : Z) (alpha : double).

Abbreviation MD := (M Driver).

Definition rand : MD Z := d ← get_st; _ ← modify (λ d, d <| drawn ::= S |>); mret (rand_draw (drawn d) mod (RAND_MAX + 1)).

Definition do_call (x : call) : MD Z :=
  d ← get_st;
  _ ← modify (λ d, d <| calls ::= λ l, l ++ [x] |>);
  mret (answer (calls d) x).

(** ** The choice of a key *)

(** The sums of the loop over the keys, from [i] on. *)
Fixpoint partial_sums (term : Z → double) (n : nat) (i : Z) (sum : double) : list double :=
  match n with
  | O => []
  | S n => let sum := dadd sum (term i) in sum :: partial_sums term n (i + 1) sum
  end.

Definition make_zipf : list double :=
  let one := to_double 1 in
  let inverse i := ddiv one (pow (to_double i) alpha) in
  let c := default (to_double 0) (last (partial_sums inverse (Z.to_nat nKeys) 1 (to_double 0))) in
  let c := ddiv one c in
  partial_sums (λ i, ddiv c (pow (to_double i) alpha)) (Z.to_nat nKeys) 1 (to_double 0).

(** The loop that draws until the number is neither 0 nor 1. *)
Fixpoint draw_random (fuel : nat) : MD (option double) :=
  match fuel with
  | O => mret None
  | S fuel =>
      r ← rand;
      let random := ddiv (dadd (to_double 1) (to_double r)) (to_double RAND_MAX) in
      if SFeqb random (to_double 0) || SFeqb random (to_double 1) then draw_random fuel else mret (Some random)
  end.

(** The binary search; [mid] has no value before the first round. *)
Fixpoint search (table : list double) (random : double) (fuel : nat) (l r : Z) (mid : option Z) : res Z :=
  match fuel with
  | O => Undefined
  | S fuel =>
      if l <? r then
        let mid := Z.quot (l + r) 2 in
        match (if mid <? 0 then None else table !! Z.to_nat mid) with
        | None => Undefined
        | Some z =>
            if SFltb z random then search table random fuel (mid + 1) r (Some mid)
            else if SFltb random z then search table random fuel l (mid - 1) (Some mid)
            else Ok mid
        end
      else from_option Ok Undefined mid
  end.

Definition rand_key (fuel : nat) : MD (option Z) :=
  if SFltb alpha (to_double 0) then
    r ← rand;
    if nKeys =? 0 then undefined else mret (Some (Z.rem r nKeys))
  else
    d ← get_st;
    table ← (match zipf d with
             | Some table => mret table
             | None => _ ← modify (λ d, d <| zipf := Some make_zipf |>); mret make_zipf
             end);
    o ← draw_random fuel;
    match o with
    | None => mret None
    | Some random => k ← lift_res (search table random (Z.to_nat nKeys + 2) 0 nKeys None); mret (Some k)
    end.

(** [keys[i]]. *)
Definition key_at (i : Z) : MD string := deref (if i <? 0 then None else keys !! Z.to_nat i).

(** [n] calls of [rand_key]. *)
Fixpoint rand_keys (fuel n : nat) : MD (option (list Z)) :=
  match n with
  | O => mret (Some [])
  | S n =>
      o ← rand_key fuel;
      match o with
      | None => mret None
      | Some k => o ← rand_keys fuel n; mret (cons k <$> o)
      end
  end.

(** ** Retwis *)

Definition sorted_keys (ks : list Z) : list Z := merge_sort Z.le ks.

(** [client->Put(keys[i], keys[i])]. *)
Definition put_key (i : Z) : MD unit := k ← key_at i; _ ← do_call (CallPut k k); mret tt.

Definition get_key (i : Z) : MD bool := k ← key_at i; ret ← do_call (CallGet k); mret (ret =? 0).

(** A loop that ends when a read fails, after the write of its round. *)
Fixpoint get_put_loop (ks : list Z) : MD bool :=
  match ks with
  | [] => mret true
  | i :: ks => ok ← get_key i; _ ← put_key i; if (ok : bool) then get_put_loop ks else mret false
  end.

Definition add_user (ks : list Z) : MD bool :=
  match ks with
  | i :: _ => ok ← get_key i; _ ← when ok (for_each (take 3 ks) put_key); mret ok
  | [] => undefined
  end.

Definition follow (ks : list Z) : MD bool := get_put_loop (take 2 ks).

Definition post_tweet (ks : list Z) : MD bool :=
  ok ← get_put_loop (take 3 ks);
  _ ← for_each (drop 3 ks) put_key;
  mret ok.

(** [readkeys] has the keys in the order in which they were drawn. *)
Fixpoint keys_at (ks : list Z) : MD (list string) :=
  match ks with [] => mret [] | i :: ks => k ← key_at i; l ← keys_at ks; mret (k :: l) end.

Definition timeline (ks : list Z) : MD bool :=
  readkeys ← keys_at ks;
  ret ← do_call (CallMultiGet readkeys);
  mret (ret =? 0).

(** One round of the loop of [main]: whether it committed, and the type of the transaction. *)
Definition retwis_transaction (fuel : nat) : MD (option (bool * Z)) :=
  let body (n : nat) (run : list Z → MD bool) (ttype : Z) : MD (option (bool * Z)) :=
    o ← rand_keys fuel n;
    match o with None => mret None | Some ks => ok ← run ks; mret (Some (ok, ttype)) end in
  _ ← do_call CallBegin;
  r ← rand;
  let ttype := Z.rem r 100 in
  o ← (if ttype <? 5 then body 3%nat (λ ks, add_user (sorted_keys ks)) 1
       else if ttype <? 20 then body 2%nat (λ ks, follow (sorted_keys ks)) 2
       else if ttype <? 50 then body 5%nat (λ ks, post_tweet (sorted_keys ks)) 3
       else n ← rand; body (Z.to_nat (1 + Z.rem n 10)) timeline 4);
  match o with
  | None => mret None
  | Some (false, ttype) => mret (Some (false, ttype))
  | Some (true, ttype) => committed ← do_call CallCommit; mret (Some (negb (committed =? 0), ttype))
  end.

(** ** The simple benchmark *)

(** The loop over the operations of a transaction; it counts the reads. *)
Fixpoint bench_operations (fuel n : nat) (wPer : Z) : MD (option Z) :=
  match n with
  | O => mret (Some 0)
  | S n =>
      o ← rand_key fuel;
      match o with
      | None => mret None
      | Some i =>
          key ← key_at i;
          r ← rand;
          let write := Z.rem r 100 <? wPer in
          _ ← do_call (if write then CallPut key key else CallGet key);
          o ← bench_operations fuel n wPer;
          mret (Z.add (if write then 0 else 1) <$> o)
      end
  end.

Definition bench_transaction (fuel : nat) (tLen wPer : Z) : MD (option bool) :=
  _ ← do_call CallBegin;
  o ← bench_operations fuel (Z.to_nat tLen) wPer;
  match o with
  | None => mret None
  | Some reads =>
      if reads =? tLen then mret (Some true)
      else committed ← do_call CallCommit; mret (Some (negb (committed =? 0)))
  end.
End driver.

(** ** The search *)

(** [random] cuts the table at [idx]: the entries before it, and only those, are less. *)
Definition cuts (table : list double) (random : double) (idx : Z) : Prop :=
  0 ≤ idx ≤ Z.of_nat (length table) ∧
  ∀ i z, table !! i = Some z →
    (SFltb z random = true ↔ Z.of_nat i < idx) ∧ (SFltb random z = true → idx ≤ Z.of_nat i).

(** [k] is an entry that is neither less nor greater, or near the cut. *)
Definition near_cut (table : list double) (random : double) (k : Z) : Prop :=
  ∀ idx, cuts table random idx →
    (∃ z, table !! Z.to_nat k = Some z ∧ SFltb z random = false ∧ SFltb random z = false) ∨ k - 1 ≤ idx ≤ k + 2.

Lemma search_spec table random fuel l r mid :
  0 ≤ l ≤ Z.of_nat (length table) → -1 ≤ r ≤ Z.of_nat (length table) → r - l < Z.of_nat fuel → (0 < fuel)%nat →
  (∀ idx, cuts table random idx → l ≤ idx ≤ r + 1) →
  (l < r ∨ ∃ k, mid = Some k ∧ 0 ≤ k < Z.of_nat (length table) ∧ near_cut table random k) →
  ∃ k, search table random fuel l r mid = Ok k ∧ 0 ≤ k < Z.of_nat (length table) ∧ near_cut table random k.
Proof.
  revert l r mid. induction fuel as [|fuel IH]; intros l r mid Hl Hr Hf H0 Hcut Hor; [lia|].
  cbn [search]. destruct (Z.ltb_spec l r) as [Hlt|Hge].
  2:{ destruct Hor as [?|(k & -> & Hk)]; [lia|]. by exists k. }
  rewrite Z.quot_div_nonneg by lia. pose proof (Z.div_mod (l + r) 2 ltac:(lia)). pose proof (Z.mod_pos_bound (l + r) 2 ltac:(lia)).
  set (m := (l + r) / 2) in *. rewrite (proj2 (Z.ltb_ge m 0)) by lia.
  destruct (table !! Z.to_nat m) as [z|] eqn:Hz; [|apply lookup_ge_None in Hz; lia].
  destruct (SFltb z random) eqn:Hzr; [|destruct (SFltb random z) eqn:Hrz].
  - assert (∀ idx, cuts table random idx → m + 1 ≤ idx) as Hm.
    { intros idx [_ Hall]. apply Hall in Hz as [[Hz _] _]. specialize (Hz Hzr). lia. }
    apply IH; [lia|lia|lia|lia| |].
    + intros idx Hidx. split; [by apply Hm|by apply Hcut].
    + destruct (decide (m + 1 < r)); [by left|right]. exists m. split_and!; [done|lia|lia|].
      intros idx Hidx. right. specialize (Hm idx Hidx). specialize (Hcut idx Hidx). lia.
  - assert (∀ idx, cuts table random idx → idx ≤ m) as Hm.
    { intros idx [_ Hall]. apply Hall in Hz as [_ Hz]. specialize (Hz Hrz). lia. }
    apply IH; [lia|lia|lia|lia| |].
    + intros idx Hidx. specialize (Hm idx Hidx). specialize (Hcut idx Hidx). lia.
    + destruct (decide (l < m - 1)); [by left|right]. exists m. split_and!; [done|lia|lia|].
      intros idx Hidx. right. specialize (Hm idx Hidx). specialize (Hcut idx Hidx). lia.
  - exists m. split_and!; [done|lia|lia|]. intros idx _. left. by exists z.
Qed.

Lemma partial_sums_length term n i sum : length (partial_sums term n i sum) = n.
Proof. revert i sum. induction n as [|n IH]; intros; simpl; [done|by rewrite IH]. Qed.

Lemma search_total table random :
  table ≠ [] →
  ∃ k, search table random (length table + 2) 0 (Z.of_nat (length table)) None = Ok k ∧
    0 ≤ k < Z.of_nat (length table) ∧ near_cut table random k.
Proof.
  intros Hne. assert (0 < length table)%nat by (destruct table; [done|simpl; lia]).
  apply search_spec; [lia|lia|lia|lia| |left; lia]. intros idx [? _]. lia.
Qed.

(** ** Calls *)

Section calls.
Context `{!Answers} `{!Library} (keys : list string) (nKeys : Z) (alpha : double).
Context (Hkeys : nKeys = Z.of_nat (length keys)) (Hsome : keys ≠ []).
Implicit Types d : Driver.

Definition is_read (x : call) : bool := match x with CallGet _ | CallMultiGet _ => true | _ => false end.

(** Every read among [ops], made after [base], was answered with success. *)
Fixpoint reads_ok (base ops : list call) : bool :=
  match ops with
  | [] => true
  | x :: ops => (if is_read x then answer base x =? 0 else true) && reads_ok (base ++ [x]) ops
  end.

(** The keys are keys of the benchmark, and a write stores a key under itself. *)
Definition call_ok (x : call) : Prop :=
  match x with
  | CallGet k => k ∈ keys
  | CallMultiGet ks => (length ks ≤ 10)%nat ∧ ∀ k, k ∈ ks → k ∈ keys
  | CallPut k v => v = k ∧ k ∈ keys
  | _ => False
  end.

Definition zipf_ok d : Prop := ∀ table, zipf d = Some table → Z.of_nat (length table) = nKeys.

(** [n] calls at most were made, and [ok] says whether the reads among them succeeded. *)
Definition made (d d' : Driver) (n : nat) (ok : bool) : Prop :=
  zipf_ok d' ∧ ∃ ops, calls d' = calls d ++ ops ∧ Forall call_ok ops ∧ (length ops ≤ n)%nat ∧ ok = reads_ok (calls d) ops.

(** Nothing was called. *)
Definition quiet d d' : Prop := zipf_ok d' ∧ calls d' = calls d.

Lemma reads_ok_app base l1 l2 : reads_ok base (l1 ++ l2) = reads_ok base l1 && reads_ok (base ++ l1) l2.
Proof.
  revert base. induction l1 as [|x l1 IH]; intros base; simpl; [by rewrite app_nil_r|].
  by rewrite IH, <- app_assoc, andb_assoc.
Qed.

Lemma made_trans d1 d2 d3 n1 n2 b1 b2 : made d1 d2 n1 b1 → made d2 d3 n2 b2 → made d1 d3 (n1 + n2) (b1 && b2).
Proof.
  intros [_ (l1 & H1 & F1 & L1 & ->)] [Hz (l2 & H2 & F2 & L2 & ->)]. split; [done|]. exists (l1 ++ l2). split_and!.
  - by rewrite H2, H1, app_assoc.
  - by apply Forall_app.
  - rewrite length_app. lia.
  - by rewrite reads_ok_app, H1.
Qed.

Lemma made_quiet d1 d2 d3 n b : quiet d1 d2 → made d2 d3 n b → made d1 d3 n b.
Proof. intros [_ Hc] Hm. unfold made in *. by rewrite Hc in Hm. Qed.

Lemma made_mono d1 d2 n n' b : (n ≤ n')%nat → made d1 d2 n b → made d1 d2 n' b.
Proof. intros Hn [Hz (l & ? & ? & ? & ?)]. split; [done|]. exists l. split_and!; try done. lia. Qed.

Lemma made_none d : zipf_ok d → made d d 0 true.
Proof. intros Hz. split; [done|]. exists []. rewrite app_nil_r. split_and!; try done. Qed.

Lemma rand_quiet d : zipf_ok d → wp rand (λ r d', quiet d d' ∧ 0 ≤ r ≤ RAND_MAX) d.
Proof.
  intros Hz. unfold rand. apply post_get. run. apply post_ret. split; [done|].
  pose proof (Z.mod_pos_bound (rand_draw (drawn d)) (RAND_MAX + 1) ltac:(done)). unfold RAND_MAX in *. lia.
Qed.

Lemma quiet_trans d1 d2 d3 : quiet d1 d2 → quiet d2 d3 → quiet d1 d3.
Proof. intros [_ Hc] [Hz Hc']. split; [done|congruence]. Qed.

Lemma draw_random_quiet fuel d : zipf_ok d → wp (draw_random fuel) (λ _ d', quiet d d') d.
Proof.
  revert d. induction fuel as [|fuel IH]; intros d Hz; cbn [draw_random]; [by apply post_ret|].
  apply post_bind. eapply post_mono; [by apply rand_quiet|]. intros r d1 [Hq _]. cbv zeta.
  destruct (_ || _); [|by apply post_ret]. eapply post_mono; [apply IH, Hq|]. intros ? d2 Hq2. by eapply quiet_trans.
Qed.

Lemma make_zipf_length : length (make_zipf nKeys alpha) = Z.to_nat nKeys.
Proof. apply partial_sums_length. Qed.

(** A key that was drawn is in range. *)
Lemma rand_key_quiet fuel d :
  zipf_ok d → wp (rand_key nKeys alpha fuel) (λ o d', quiet d d' ∧ ∀ k, o = Some k → 0 ≤ k < nKeys) d.
Proof.
  intros Hz. assert (0 < length keys)%nat as Hpos by (destruct keys; [done|simpl; lia]). unfold rand_key.
  destruct (SFltb _ _).
  - apply post_bind. eapply post_mono; [by apply rand_quiet|]. intros r d1 [Hq Hr].
    rewrite (proj2 (Z.eqb_neq _ _)) by lia. apply post_ret. split; [done|]. intros k [= <-].
    rewrite Z.rem_mod_nonneg by lia. apply Z.mod_pos_bound. lia.
  - apply post_get. apply post_bind.
    assert (wp (match zipf d with
                | Some table => mret table
                | None => _ ← modify (λ d, d <| zipf := Some (make_zipf nKeys alpha) |>); mret (make_zipf nKeys alpha)
                end) (λ table d', quiet d d' ∧ Z.of_nat (length table) = nKeys) d) as Htable.
    { destruct (zipf d) as [table|] eqn:Ht; [apply post_ret; split; [done|by apply Hz]|].
      run. apply post_ret. rewrite make_zipf_length. split; [|lia]. split; [|done].
      intros table [= <-]. rewrite make_zipf_length. lia. }
    eapply post_mono; [exact Htable|]. clear Htable. intros table d1 [Hq1 Hlen]. apply post_bind.
    eapply post_mono; [apply draw_random_quiet, Hq1|]. intros o d2 Hq2.
    assert (quiet d d2) as Hq by by eapply quiet_trans.
    destruct o as [random|]; [|by apply post_ret]. apply post_bind.
    destruct (search_total table random) as (k & Hk & Hr & _); [by intros ->; simpl in *; lia|].
    rewrite Hlen in Hk. replace (Z.to_nat nKeys + 2)%nat with (length table + 2)%nat by lia. rewrite Hk. apply post_ret.
    apply post_ret. split; [done|]. intros k' [= <-]. lia.
Qed.

Lemma rand_keys_quiet fuel n d :
  zipf_ok d → wp (rand_keys nKeys alpha fuel n)
    (λ o d', quiet d d' ∧ ∀ ks, o = Some ks → length ks = n ∧ Forall (λ k, 0 ≤ k < nKeys) ks) d.
Proof.
  revert d. induction n as [|n IH]; intros d Hz; cbn [rand_keys].
  { apply post_ret. split; [done|]. by intros ks [= <-]. }
  apply post_bind. eapply post_mono; [by apply rand_key_quiet|]. intros [k|] d1 [Hq1 Hk]; [|by apply post_ret].
  apply post_bind. eapply post_mono; [apply IH, Hq1|]. intros o d2 [Hq2 Hks]. apply post_ret.
  split; [by eapply quiet_trans|]. intros ks (ks' & -> & ->)%fmap_Some. destruct (Hks ks') as [Hl Hall]; [done|].
  split; [simpl; lia|]. constructor; [by apply Hk|done].
Qed.

Lemma key_at_ok i d : 0 ≤ i < nKeys → ∃ k, key_at keys i d = Ok (k, d) ∧ k ∈ keys.
Proof.
  intros Hi. unfold key_at. rewrite (proj2 (Z.ltb_ge i 0)) by lia.
  destruct (keys !! Z.to_nat i) as [k|] eqn:Hk; [|apply lookup_ge_None in Hk; lia].
  exists k. split; [done|by eapply list_elem_of_lookup_2].
Qed.

Lemma do_call_made x d :
  zipf_ok d → call_ok x → wp (do_call x) (λ ret d', made d d' 1 (if is_read x then ret =? 0 else true)) d.
Proof.
  intros Hz Hx. unfold do_call. apply post_get. run. apply post_ret. split; [done|]. exists [x]. split_and!; [done|by constructor|done|].
  simpl. rewrite andb_true_r. by destruct x.
Qed.

Lemma put_key_made i d : 0 ≤ i < nKeys → zipf_ok d → wp (put_key keys i) (λ _ d', made d d' 1 true) d.
Proof.
  intros Hi Hz. unfold put_key. destruct (key_at_ok i d Hi) as (k & Hk & Hin). eapply post_bind_run; [exact Hk|].
  apply post_bind. eapply post_mono; [by apply do_call_made|]. intros ? d' Hm. by apply post_ret.
Qed.

Lemma get_key_made i d : 0 ≤ i < nKeys → zipf_ok d → wp (get_key keys i) (λ ok d', made d d' 1 ok) d.
Proof.
  intros Hi Hz. unfold get_key. destruct (key_at_ok i d Hi) as (k & Hk & Hin). eapply post_bind_run; [exact Hk|].
  apply post_bind. eapply post_mono; [by apply do_call_made|]. intros ? d' Hm. by apply post_ret.
Qed.

Lemma puts_made ks d :
  Forall (λ k, 0 ≤ k < nKeys) ks → zipf_ok d → wp (for_each ks (put_key keys)) (λ _ d', made d d' (length ks) true) d.
Proof.
  revert d. induction ks as [|i ks IH]; intros d Hks Hz; simpl; [by apply post_ret, made_none|].
  apply Forall_cons in Hks as [Hi Hks]. apply post_bind. eapply post_mono; [by apply put_key_made|].
  intros ? d1 Hm1. eapply post_mono; [apply IH; [done|apply Hm1]|]. intros ? d2 Hm2. exact (made_trans _ _ _ 1 _ true true Hm1 Hm2).
Qed.

Lemma get_put_loop_made ks d :
  Forall (λ k, 0 ≤ k < nKeys) ks → zipf_ok d → wp (get_put_loop keys ks) (λ ok d', made d d' (2 * length ks) ok) d.
Proof.
  revert d. induction ks as [|i ks IH]; intros d Hks Hz; cbn [get_put_loop]; [by apply post_ret, made_none|].
  apply Forall_cons in Hks as [Hi Hks]. apply post_bind. eapply post_mono; [by apply get_key_made|]. intros ok d1 Hm1.
  apply post_bind. eapply post_mono; [apply put_key_made; [done|apply Hm1]|]. intros ? d2 Hm2.
  pose proof (made_trans _ _ _ _ _ _ _ Hm1 Hm2) as Hm. rewrite andb_true_r in Hm. destruct ok.
  - eapply post_mono; [apply IH; [done|apply Hm2]|]. intros ok d3 Hm3.
    pose proof (made_trans _ _ _ _ _ _ _ Hm Hm3) as Hm4. simpl andb in Hm4. eapply made_mono; [|exact Hm4]. simpl. lia.
  - apply post_ret. eapply made_mono; [|exact Hm]. simpl. lia.
Qed.

Lemma keys_at_ok ks d :
  Forall (λ k, 0 ≤ k < nKeys) ks → ∃ l, keys_at keys ks d = Ok (l, d) ∧ length l = length ks ∧ ∀ k, k ∈ l → k ∈ keys.
Proof.
  induction ks as [|i ks IH]; intros Hks; cbn [keys_at]; [exists []; split_and!; [done|done|by intros k Hk%elem_of_nil]|].
  apply Forall_cons in Hks as [Hi Hks]. destruct (key_at_ok i d Hi) as (k & Hk & Hin). destruct (IH Hks) as (l & Hl & Hlen & Hall).
  exists (k :: l). rewrite (bind_run _ _ d k d) by done. rewrite (bind_run _ _ d l d) by done.
  split_and!; [done|simpl; lia|]. intros k' [->|?]%elem_of_cons; auto.
Qed.

Lemma sorted_keys_ok ks :
  Forall (λ k, 0 ≤ k < nKeys) ks → length (sorted_keys ks) = length ks ∧ Forall (λ k, 0 ≤ k < nKeys) (sorted_keys ks).
Proof. intros Hks. unfold sorted_keys. by rewrite merge_sort_Permutation. Qed.

Lemma add_user_made ks d :
  length ks = 3%nat → Forall (λ k, 0 ≤ k < nKeys) ks → zipf_ok d → wp (add_user keys ks) (λ ok d', made d d' 8 ok) d.
Proof.
  intros Hl Hks Hz. destruct ks as [|i ks]; [done|]. cbn [add_user].
  pose proof Hks as [Hi _]%Forall_cons. apply post_bind. eapply post_mono; [by apply get_key_made|]. intros ok d1 Hm1.
  apply post_bind. destruct ok; cbn [when].
  - eapply post_mono; [apply puts_made; [by apply Forall_take|apply Hm1]|]. intros ? d2 Hm2. apply post_ret.
    eapply made_mono; [|exact (made_trans _ _ _ _ _ true true Hm1 Hm2)]. rewrite length_take. lia.
  - apply post_ret, post_ret. eapply made_mono; [|exact Hm1]. lia.
Qed.

Lemma follow_made ks d :
  Forall (λ k, 0 ≤ k < nKeys) ks → zipf_ok d → wp (follow keys ks) (λ ok d', made d d' 8 ok) d.
Proof.
  intros Hks Hz. eapply post_mono; [apply get_put_loop_made; [by apply Forall_take|done]|].
  intros ok d' Hm. eapply made_mono; [|exact Hm]. rewrite length_take. lia.
Qed.

Lemma post_tweet_made ks d :
  length ks = 5%nat → Forall (λ k, 0 ≤ k < nKeys) ks → zipf_ok d → wp (post_tweet keys ks) (λ ok d', made d d' 8 ok) d.
Proof.
  intros Hl Hks Hz. unfold post_tweet. apply post_bind.
  eapply post_mono; [apply get_put_loop_made; [by apply Forall_take|done]|]. intros ok d1 Hm1. apply post_bind.
  eapply post_mono; [apply puts_made; [by apply Forall_drop|apply Hm1]|]. intros ? d2 Hm2. apply post_ret.
  pose proof (made_trans _ _ _ _ _ _ _ Hm1 Hm2) as Hm. rewrite andb_true_r in Hm.
  eapply made_mono; [|exact Hm]. rewrite length_take, length_drop, Hl. simpl. lia.
Qed.

Lemma timeline_made ks d :
  (length ks ≤ 10)%nat → Forall (λ k, 0 ≤ k < nKeys) ks → zipf_ok d → wp (timeline keys ks) (λ ok d', made d d' 8 ok) d.
Proof.
  intros Hl Hks Hz. unfold timeline. destruct (keys_at_ok ks d Hks) as (l & Hrun & Hlen & Hall).
  eapply post_bind_run; [exact Hrun|]. apply post_bind. eapply post_mono.
  { apply (do_call_made (CallMultiGet l)); [done|]. split; [lia|done]. }
  intros ret d' Hm. apply post_ret. eapply made_mono; [|exact Hm]. lia.
Qed.

(** What a transaction of Retwis does between [Begin] and [Commit]. *)
Lemma body_made fuel n (run : list Z → M Driver bool) (ttype : Z) d :
  (∀ ks d, length ks = n → Forall (λ k, 0 ≤ k < nKeys) ks → zipf_ok d → wp (run ks) (λ ok d', made d d' 8 ok) d) →
  zipf_ok d →
  wp (o ← rand_keys nKeys alpha fuel n;
      match o with None => mret None | Some ks => ok ← run ks; mret (Some (ok, ttype)) end)
    (λ o d', match o with None => quiet d d' | Some (ok, t) => t = ttype ∧ made d d' 8 ok end) d.
Proof.
  intros Hrun Hz. apply post_bind. eapply post_mono; [by apply rand_keys_quiet|]. intros [ks|] d1 [Hq Hks]; [|by apply post_ret].
  destruct (Hks ks eq_refl) as [Hl Hall]. apply post_bind. eapply post_mono; [apply Hrun; [done|done|apply Hq]|].
  intros ok d2 Hm. apply post_ret. split; [done|]. by eapply made_quiet.
Qed.

Lemma do_call_run x d : do_call x d = Ok (answer (calls d) x, d <| calls ::= λ l, l ++ [x] |>).
Proof. done. Qed.

(** A transaction of the Retwis benchmark: between [Begin] and the end it makes at most eight
    calls, on keys of the benchmark only (a timeline reads at most ten of them), and writes keys only under
    themselves; it calls [Commit] exactly when all its reads succeeded, and counts as committed
    when [Commit] says so.  Whatever numbers are drawn, no index is out of range.  When a read
    fails, nothing ends the transaction: there is no call of [Abort]. *)
Theorem retwis_transaction_calls fuel d :
  zipf_ok d →
  wp (retwis_transaction keys nKeys alpha fuel) (λ o d', zipf_ok d' ∧
    let before := calls d ++ [CallBegin] in
    match o with
    | None => calls d' = before
    | Some (committed, ttype) => 1 ≤ ttype ≤ 4 ∧ ∃ ops, Forall call_ok ops ∧ (length ops ≤ 8)%nat ∧
        if reads_ok before ops
        then calls d' = before ++ ops ++ [CallCommit] ∧ committed = negb (answer (before ++ ops) CallCommit =? 0)
        else calls d' = before ++ ops ∧ committed = false
    end) d.
Proof.
  intros Hz. unfold retwis_transaction. eapply post_bind_run; [apply do_call_run|].
  set (d0 := d <| calls ::= λ l, l ++ [CallBegin] |>). assert (zipf_ok d0) as Hz0 by done.
  apply post_bind. eapply post_mono; [apply (rand_quiet d0 Hz0)|]. intros r d1 [[Hz1 Hc1] Hr]. cbv zeta. apply post_bind.
  assert (wp (if Z.rem r 100 <? 5 then
        o ← rand_keys nKeys alpha fuel 3;
        match o with None => mret None | Some ks => ok ← add_user keys (sorted_keys ks); mret (Some (ok, 1)) end
      else if Z.rem r 100 <? 20 then
        o ← rand_keys nKeys alpha fuel 2;
        match o with None => mret None | Some ks => ok ← follow keys (sorted_keys ks); mret (Some (ok, 2)) end
      else if Z.rem r 100 <? 50 then
        o ← rand_keys nKeys alpha fuel 5;
        match o with None => mret None | Some ks => ok ← post_tweet keys (sorted_keys ks); mret (Some (ok, 3)) end
      else n ← rand;
        o ← rand_keys nKeys alpha fuel (Z.to_nat (1 + Z.rem n 10));
        match o with None => mret None | Some ks => ok ← timeline keys ks; mret (Some (ok, 4)) end)
    (λ o d', match o with None => quiet d1 d' | Some (ok, t) => 1 ≤ t ≤ 4 ∧ made d1 d' 8 ok end) d1) as Hbody.
  { repeat case_match.
    - eapply post_mono; [apply body_made; [|done]|].
      + intros ks d' Hl Hks. destruct (sorted_keys_ok ks Hks) as [Hl' Hks']. apply add_user_made; [lia|done].
      + intros [[ok t]|] d' Hm; [|done]. destruct Hm as [-> Hm]. split; [lia|done].
    - eapply post_mono; [apply body_made; [|done]|].
      + intros ks d' Hl Hks. destruct (sorted_keys_ok ks Hks) as [Hl' Hks']. by apply follow_made.
      + intros [[ok t]|] d' Hm; [|done]. destruct Hm as [-> Hm]. split; [lia|done].
    - eapply post_mono; [apply body_made; [|done]|].
      + intros ks d' Hl Hks. destruct (sorted_keys_ok ks Hks) as [Hl' Hks']. apply post_tweet_made; [lia|done].
      + intros [[ok t]|] d' Hm; [|done]. destruct Hm as [-> Hm]. split; [lia|done].
    - apply post_bind. eapply post_mono; [by apply rand_quiet|]. intros n d2 [[Hz2 Hc2] Hn].
      pose proof (Z.rem_bound_pos n 10 ltac:(lia) ltac:(lia)).
      eapply post_mono; [apply body_made; [|done]|].
      + intros ks d' Hl Hks. apply timeline_made; [lia|done].
      + intros [[ok t]|] d' Hm; [destruct Hm as [-> Hm]; split; [lia|by eapply made_quiet]|by eapply quiet_trans]. }
  eapply post_mono; [exact Hbody|]. clear Hbody. intros [[ok t]|] d2 Hm.
  2:{ apply post_ret. destruct Hm as [? Hc]. split; [done|]. by rewrite Hc, Hc1. }
  destruct Hm as [Ht [Hz2 (ops & Hc2 & Hops & Hlen & Hok)]]. rewrite Hc1 in Hc2, Hok. change (calls d0) with (calls d ++ [CallBegin]) in *.
  destruct ok.
  - eapply post_bind_run; [apply do_call_run|]. apply post_ret. split; [done|]. split; [done|]. exists ops. rewrite <- Hok.
    simpl. rewrite Hc2, <- !app_assoc. by split_and!.
  - apply post_ret. split; [done|]. split; [done|]. exists ops. rewrite <- Hok. by split_and!.
Qed.

(** A transaction of the simple benchmark makes exactly [tLen] reads and writes, and calls
    [Commit] exactly when one of them was a write: a read-only transaction is counted as
    committed without a commit, and failed reads are not noticed. *)
Theorem bench_transaction_calls fuel tLen wPer d :
  0 ≤ tLen → zipf_ok d →
  wp (bench_transaction keys nKeys alpha fuel tLen wPer) (λ o d', zipf_ok d' ∧
    match o with
    | None => True
    | Some status => ∃ ops, Forall call_ok ops ∧ Z.of_nat (length ops) = tLen ∧
        let before := calls d ++ CallBegin :: ops in
        if forallb is_read ops then calls d' = before ∧ status = true
        else calls d' = before ++ [CallCommit] ∧ status = negb (answer before CallCommit =? 0)
    end) d.
Proof.
  intros Hlen Hz. unfold bench_transaction. eapply post_bind_run; [apply do_call_run|].
  set (d0 := d <| calls ::= λ l, l ++ [CallBegin] |>). assert (zipf_ok d0) as Hz0 by done.
  assert (∀ n d, zipf_ok d → wp (bench_operations keys nKeys alpha fuel n wPer) (λ o d', zipf_ok d' ∧
    ∀ reads, o = Some reads → ∃ ops, calls d' = calls d ++ ops ∧ Forall call_ok ops ∧ length ops = n ∧
      0 ≤ reads ≤ Z.of_nat n ∧ (reads = Z.of_nat n ↔ forallb is_read ops = true)) d) as Hloop.
  { clear d d0 Hz Hz0. induction n as [|n IH]; intros d Hz; cbn [bench_operations].
    { apply post_ret. split; [done|]. intros reads [= <-]. exists []. rewrite app_nil_r. by split_and!. }
    apply post_bind. eapply post_mono; [by apply rand_key_quiet|]. intros [i|] d1 [[Hz1 Hc1] Hi]; [|by apply post_ret].
    destruct (key_at_ok i d1) as (k & Hk & Hin); [by apply Hi|]. eapply post_bind_run; [exact Hk|].
    apply post_bind. eapply post_mono; [by apply rand_quiet|]. intros r d2 [[Hz2 Hc2] _]. cbv zeta.
    set (write := Z.rem r 100 <? wPer). eapply post_bind_run; [apply do_call_run|].
    apply post_bind. eapply post_mono; [by apply IH|]. intros o d3 [Hz3 Hops]. apply post_ret. split; [done|].
    intros reads (reads' & -> & ->)%fmap_Some. destruct (Hops reads' eq_refl) as (ops & Hc3 & Hall & Hl & Hr & Hiff).
    exists ((if write then CallPut k k else CallGet k) :: ops). rewrite Hc3. simpl. rewrite Hc2, Hc1, <- app_assoc.
    split; [done|]. split; [constructor; [by destruct write|done]|]. split; [simpl; lia|].
    split; [destruct write; lia|]. destruct write; simpl; [split; [lia|done]|]. rewrite <- Hiff. lia. }
  apply post_bind. eapply post_mono; [by apply Hloop|]. intros [reads|] d1 [Hz1 Hops]; [|by apply post_ret].
  destruct (Hops reads eq_refl) as (ops & Hc & Hall & Hl & Hr & Hiff). change (calls d0) with (calls d ++ [CallBegin]) in Hc.
  rewrite <- app_assoc in Hc. simpl in Hc. rewrite Z2Nat.id in Hr, Hiff by done. destruct (Z.eqb_spec reads tLen) as [->|Hne].
  - apply post_ret. split; [done|]. exists ops. rewrite (proj1 Hiff eq_refl). split_and!; [done|lia|done|done].
  - eapply post_bind_run; [apply do_call_run|]. apply post_ret. split; [done|]. exists ops.
    destruct (forallb is_read ops) eqn:Hf; [by destruct Hne; apply Hiff|]. simpl. rewrite Hc. split_and!; [done|lia|done|done].
Qed.
End calls.

(** ** Concrete runs *)

Module WorkloadDemo.
(** Reads of [b] fail, and everything commits; [rand()] counts, and the power function is the one
    for the exponent 1. *)
#[local] Instance demo_answers : Answers := λ _ x, match x with CallGet k => if bool_decide (k = "b") then -1 else 0 | CallCommit => 1 | _ => 0 end.
#[local] Instance demo_library : Library := {| rand_draw n := 37 + 5 * Z.of_nat n; pow x _ := x |}.

Definition demo_keys : list string := ["a"; "b"; "c"].
Definition fresh : Driver := MkDriver [] 0 None.

(** A tweet on the keys [a], [b] and [c]: the read of [b] fails, the writes that follow it are
    made all the same, and nothing ends the transaction. *)
Example failed_tweet :
  retwis_transaction demo_keys 3 (to_double (-1)) 1 fresh =
    Ok (Some (false, 3),
        MkDriver [CallBegin; CallGet "a"; CallPut "a" "a"; CallGet "a"; CallPut "a" "a";
                  CallGet "b"; CallPut "b" "b"; CallPut "c" "c"; CallPut "c" "c"] 6 None).
Proof. vm_compute. reflexivity. Qed.

Lemma retwis_transaction_calls_witness :
  zipf_ok 3 fresh ∧
  wp (retwis_transaction demo_keys 3 (to_double (-1)) 1) (λ o d', zipf_ok 3 d' ∧
    let before := [CallBegin] in
    match o with
    | None => calls d' = before
    | Some (committed, ttype) => 1 ≤ ttype ≤ 4 ∧ ∃ ops, Forall (call_ok demo_keys) ops ∧ (length ops ≤ 8)%nat ∧
        if reads_ok before ops
        then calls d' = before ++ ops ++ [CallCommit] ∧ committed = negb (answer (before ++ ops) CallCommit =? 0)
        else calls d' = before ++ ops ∧ committed = false
    end) fresh.
Proof.
  split; [by intros table|]. apply (retwis_transaction_calls demo_keys 3 (to_double (-1)) eq_refl ltac:(done) 1 fresh).
  by intros table.
Defined.

Lemma bench_transaction_calls_witness :
  wp (bench_transaction demo_keys 3 (to_double (-1)) 1 2 50) (λ o d', zipf_ok 3 d' ∧
    match o with
    | None => True
    | Some status => ∃ ops, Forall (call_ok demo_keys) ops ∧ Z.of_nat (length ops) = 2 ∧
        let before := CallBegin :: ops in
        if forallb is_read ops then calls d' = before ∧ status = true
        else calls d' = before ++ [CallCommit] ∧ status = negb (answer before CallCommit =? 0)
    end) fresh.
Proof.
  apply (bench_transaction_calls demo_keys 3 (to_double (-1)) eq_refl ltac:(done) 1 2 50 fresh); [lia|by intros table].
Defined.

(** Over ten keys of equal weight (the exponent 0), with a number from the middle of the share of
    each: only four of the keys are ever found, since the upper bound of the search is exclusive
    but moves below the middle. *)
Example search_misses :
  let table := @make_zipf {| rand_draw _ := 0; pow _ _ := to_double 1 |} 10 (to_double 0) in
  map (λ k, search table (ddiv (to_double (2 * k + 1)) (to_double 20)) 12 0 10 None) (seqZ 0 10) =
    [Ok 0; Ok 0; Ok 0; Ok 3; Ok 3; Ok 3; Ok 6; Ok 6; Ok 6; Ok 9].
Proof. vm_compute. reflexivity. Qed.
End WorkloadDemo.
